(* ===== verification/_CoqProject ===== *)
-Q . S2P
Prelude.v
Ordered.v
Wire.v
WireOk.v
Core.v
Ids.v
Bfs.v
Migration.v
Errors.v
Page.v
Hash.v
Anchor.v
Journal.v
DataFile.v
DataFileOk.v
Snapshot.v
Live.v
LiveOk.v
LiveFile.v
Heap.v
HeapOk.v
Dedup.v
NodeStorage.v
NodeStorageOk.v
Backpressure.v
BlockAlloc.v
BlockAllocOk.v
BlockFile.v
PageDir.v
Regions.v
Codec.v
Dict.v
HeapStore.v
SlotPage.v
SlotPageOk.v
Directory.v
DirectoryOk.v
DirectoryMap.v
DirectoryDict.v
DirectoryGrow.v
PageJournal.v
PageJournalOk.v
PagedStore.v
StoreParts.v
StoreDrain.v
StoreTrain.v
StoreOk.v
StoreLife.v
StoreUpkeep.v
StoreRun.v
Ring.v
Auth.v
Cluster.v
Request.v
Registry.v
Query.v
QueryWire.v
QueryOk.v
Messages.v
NodeServe.v
QuickNode.v
NodeOk.v
Slow.v
SlowOk.v
FlushOk.v
Index.v
IndexOk.v
Perms.v
Linear.v
BTreeStore.v
WsClient.v
QuickServer.v
Transports.v
Client.v
ClientOk.v
Macros.v
MacrosOk.v
Browser.v
Monitor.v
MonitorGui.v
