(* ===== verification/Prelude.v ===== *)
(** * WaveDB: a verification library

    WaveDB keeps typed records.  A record is packed by a derived codec
    (wavedb-core, wavedb-macros), named by a 128-bit identifier, migrated between
    versions of its type, and stored by a node (wavedb-storage).  Two storage
    engines live in the source.  The first keeps anchors and versioned records in
    hashed slotted pages (file/data.rs), with a write-ahead journal, lists of live
    identifiers, a deduplicating heap and a recovery that puts them together
    (node_storage.rs).  The second keeps each type's records in a directory of
    variable-size pages on a block device (file/paged_store.rs), written
    journal-first and settled by drains.

    ** Conventions

    Rust code becomes functions to [outcome] (this file): [Done] is a return,
    [Fail e] an [Err e], and [Fault] a panic: a failed assertion or index, an
    overflow that the debug profile catches, an [expect], or fuel that ran out.
    Theorems conclude [Done] or a named [Fail], so they exclude panics and
    divergence.  Methods that change an object thread it explicitly, or run in the
    monad [ST] (state, kept also on failure, as Rust's [&mut self] keeps it).
    Integers are [Z] with [fits w] for a w-bit value and [wrap w] for the
    wrap-around; checked operations are [uadd], [usub], [umul].  Bytes are
    [Init.Byte.byte]; a file is its list of bytes, and a sync changes nothing of it.
    Ordered maps of Rust are [gmap] with the ordered views of Ordered.v.

    ** Files and what they model

    - Prelude, Ordered: outcomes, integers, bytes, sub-lists, the state monad,
      ordered maps and sums over maps.
    - Wire, WireOk: wavedb-core/src/wire.rs and the layouts of
      wavedb-macros/src/wire_derive.rs.  A codec is a record [Wire] with laws; the
      primitives, containers and both derived layouts satisfy them.
    - Core, Ids: permission and metadata types; id.rs.
    - Bfs, Migration: migration.rs; breadth-first search over the registered steps.
    - Errors: error.rs.
    - Page, Hash, Anchor: page.rs, hash.rs, anchor.rs and versioned.rs.
    - Journal: pipeline/journal.rs.
    - DataFile, DataFileOk, Snapshot: file/data.rs and cache.rs: placement over
      hashed pages with one fallback each, growth, the snapshot on disk.
    - Live, LiveOk, LiveFile: live.rs over an interface of anchor and record reads
      ([Class] in Live), its refinement to a list, and the data file discharging
      the interface.
    - Heap, HeapOk, Dedup: heap.rs: entries with owner lists, relocation,
      deduplication with its anchors in the page file.
    - NodeStorage, NodeStorageOk: node_storage.rs and pipeline/drain.rs.
    - BlockAlloc, BlockAllocOk, BlockFile: file/block_alloc.rs (extents and their
      two indices) and file/block_file.rs.
    - Regions: the block device as disjoint regions, with the triples the layers
      above it are proved in: [triple s x op n Q] says that [op], owning the
      regions [x] and growing the file by [n] blocks at most, ends as [Q] says
      and leaves all other regions alone.
    - PageDir, Codec, Dict, HeapStore: file/page_dir.rs, compression/, file/dict.rs,
      file/heap_store.rs.
    - SlotPage, SlotPageOk, Directory, DirectoryOk, DirectoryMap, DirectoryDict,
      DirectoryGrow: file/directory.rs: one page and its image; the
      directory; what each of its operations does to the regions it owns; the map it
      holds; its dictionaries; the runs it has in use; its growth.
    - PageJournal, PageJournalOk: file/page_journal.rs; a log is the bytes of a list
      of records, and its replay their fold.
    - PagedStore, StoreParts, StoreDrain, StoreTrain, StoreOk, StoreLife,
      StoreUpkeep, StoreRun: file/paged_store.rs: the operations; the
      directories as disjoint owners and the journal as records; the settling of a
      drain; training; the invariant [store_ok]; draining and reopening; compaction;
      growth; runs of operations.
    - Ring, Cluster: the quick node's ring.rs, ownership.rs, replication.rs
      and gossip.rs: positions, owners and replica sets; the shared tables.
    - Auth, Request, Messages: wavedb-net: tokens (auth.rs), framing and messages
      (frame.rs, request.rs, browse.rs), what every HTTP endpoint does around its own
      work, and the messages between nodes.
    - Registry, Query, QueryWire, QueryOk: wavedb-core/src/registry.rs, error.rs and
      query.rs: descriptors, expressions, their codec of unbounded nesting, their
      evaluation on a record's bytes.
    - QuickNode, NodeServe, NodeOk: node.rs: one state record and every handler; what
      the storage of a serving node keeps; requests refined to lists of records.
    - Slow, SlowOk, FlushOk: the slow node's store.rs, flush.rs and server.rs; the
      history against the log of what was flushed; a flush from node to node.
    - Index, IndexOk: wavedb-storage/src/index/: the trait as a class, the sorted
      array, the B-tree of nodes by number, the index that turns from one into the
      other, the index with buckets.
    - Perms: permissions.rs.
    - Linear, BTreeStore: file/linear.rs, file/btree_store.rs over the
      regions of the block device; what they share with Directory is in DirectoryMap.
    - QuickServer: the quick node's server.rs, the arguments and the builder it starts
      from (config.rs, serve.rs), the owners in a cluster; Slow has the slow node's
      server.rs.
    - Backpressure: wavedb-storage/src/pipeline/backpressure.rs, as steps of threads.
    - WsClient, Transports, Client, ClientOk, Browser: the clients: ws.rs, notify.rs;
      lib.rs, mock.rs and http.rs of wavedb-net; db.rs, object.rs and the version chain
      of wavedb-macros; the two ends together; wavedb-wasm.
    - Macros, MacrosOk: wavedb-macros: args.rs, utils.rs, validation.rs, lib.rs,
      codegen.rs, crud.rs, descriptor.rs, declare.rs and migration/: what the attribute
      and the declaration accept, and what the items they write do.  A program is an
      interface: its declarations with the types and functions their paths name; it
      is an instance of the client's structs and has a registry for the node.
    - Monitor, MonitorGui: the states of the two monitors and what moves them.

    ** What the theorems show

    Codecs: encoding and decoding are inverse, decoding is total, encoding fails
    exactly on oversized units.  Migration: resolution finds a shortest path,
    rollback undoes migration.  Pages, data file: what was inserted is found,
    growth preserves the lookups of keys with a single copy, the snapshot reopens to
    the same lookups; where the code breaks this (stale copies on an old page) a
    theorem says so.  Journal:
    appended entries survive a crash and a reopening.  Live lists refine a list;
    the heap counts owners; recovery replays what was journalled.  Block device:
    allocation takes free blocks only, freeing restores them, the allocator is
    rebuilt from the runs in use.  Page store: any run of puts, removes, reads,
    drains, compactions, growths and reopenings answers as a map of records would
    ([StoreRun.store_run_refines]); drains settle everything
    ([StoreRun.drain_settles]); a drain that finds a page too small
    forgets the records written to it ([StoreRun.failed_drain_forgets]), and the
    example [StoreRun.crash_mid_drain_misreads] runs a crash in a drain that makes
    a record read as another type's.
    Ring: membership moves only the partitions of the node that comes or goes, and
    replica sets are the next distinct nodes; the nodes of a cluster agree on one
    owner of every partition, in whatever order they list each other
    ([QuickServer.cluster_one_owner]).  Tokens verify exactly when minted
    under the key within the window; frames of a stream decode one by one; a query
    compares the value that the record's codec wrote.  A serving quick node answers
    any run of requests as lists of records would
    ([NodeOk.requests_refine_tables]), until it restarts
    ([NodeOk.restart_overwrites]).  The slow node keeps what it acknowledged
    ([SlowOk.history_survives]), and a sync delivers each record or queues it again
    ([FlushOk.sync_delivers]).  The adaptive index is a sorted map through its change
    of form ([IndexOk.adaptive_runs_as_map]); the linear-hashing directory keeps its
    map through splits ([Linear.linear_put_grow_get]); the node store reads what it
    wrote ([BTreeStore.node_store_refines]).

    Clients: each caller gets the answer to its own request, whatever the order of
    calls, frames and turns ([WsClient.ws_answers_own],
    [Transports.http_serves_in_order], [Browser.js_answers_own]); where numbers repeat
    or a connection closes the examples of WsClient say what happens.  A transport
    that reaches a node is an interface ([ClientOk.NodeTransport]), which the HTTP
    client keeps, and records saved in any version come back in the version asked
    for ([ClientOk.rollout_reads_back]).  The macros close the circle: the registry of
    a declaration answers for its versions and no others, with the verdicts of the
    client ([MacrosOk.declared_registry_answers]); the generated readers and the
    migration registry agree ([MacrosOk.declared_chain_reads]); and on a node that
    serves that registry every save returns the verdict of the hooks and what was
    accepted comes back preprocessed ([MacrosOk.declared_saves_read_back]).  The browser's store is a map of identifiers
    ([Browser.browser_store_refines]).  The monitors' states stay in order through
    every run ([Monitor.monitor_run_ok], [MonitorGui.worker_run_ok]).  The counter of
    backpressure is exact while one drain runs at a time
    ([Backpressure.one_drainer_exact]) and wraps when two overlap
    ([Backpressure.two_drains_block]).

    ** Bounds and fuel

    Loops over data take their fuel from the length of the data (each step
    consumes at least a byte), searches from the number of keys, probing from the
    number of pages; the functions are shown to end before the fuel does.  The
    block device is addressed by 48-bit blocks; the theorems on the page store
    assume that a drain has room: 2^21 blocks per pending record, which is more than
    its longest value and its page take ([StoreLife.drain_room]), or a growth 255
    blocks per slot ([StoreUpkeep.grow_room]), and pages whose records fit 255 blocks
    ([DirectoryOk.roomy]).

    ** Parameters

    crc32fast and zstd are not in the source: their functions are the fields of
    [Codec.Codecs] (and arguments in Page and Heap) with the laws of
    [Codec.CodecLaws]; [Codec.plain_codecs] satisfies them, and the witnesses run
    on it.  HMAC-SHA256 and the texts of error types are arguments too.

    ** Not modelled

    Locks, threads and asynchronous tasks: one operation runs at a time.  fsync
    and the loss of unsynced bytes, except for the torn logs and the crash in a
    drain named above.
    A quick node's theorems ask for payloads of at most 4112 bytes and for room in
    its data file ([NodeServe.serving]): three writes of the largest size per page.
    Tasks a handler spawns are recorded, not run; replies are arguments.
    Sockets are queues of bytes or functions of a body, and a caller's number is its
    place among the calls; IndexedDB is an interface.  What the file system, the
    clock and Unicode tables say is a parameter.  Drawing, the examples, the benches
    and the test cluster drive the system and have no state of it.  The macros are
    modelled on the syntax they look at and by what the items they write do: parsing
    and quoting tokens, and resolving names, are the compiler's. *)
From stdpp Require Export base list gmap sets strings.
From coqutil Require Import Byte.
From coqutil Require LittleEndianList.
From Stdlib Require Export ZArith Lia Sorted.

#[global] Set Default Goal Selector "!".
#[global] Set Warnings "-clear-no-such-hyp".

Open Scope Z_scope.

(** ** Bytes *)

Abbreviation byte := Init.Byte.byte.

#[export] Instance byte_eq_dec : EqDecision byte := Byte.byte_eq_dec.

#[export] Instance byte_inhabited : Inhabited byte := populate Byte.x00.

(** The value of a byte, as [u64::from(b)] gives it. *)
Definition byte_val (b : byte) : Z := byte.unsigned b.

(** The byte a [as u8] cast keeps: the low eight bits. *)
Definition byte_of (z : Z) : byte := byte.of_Z z.

Lemma byte_val_range b : 0 <= byte_val b < 256.
Proof. exact (byte.unsigned_range b). Qed.

Lemma byte_val_of z : 0 <= z < 256 -> byte_val (byte_of z) = z.
Proof.
  intros H. unfold byte_val, byte_of. rewrite byte.unsigned_of_Z.
  unfold byte.wrap. rewrite Z.mod_small; [done | lia].
Qed.

Lemma byte_of_val b : byte_of (byte_val b) = b.
Proof. exact (byte.of_Z_unsigned b). Qed.

(** ** Outcomes of Rust code

    [Done] is a returned value (the [Ok] of a [Result]), [Fail] the [Err] of a
    [Result], and [Fault] a panic (a failed assertion, a slice index out of
    range, an arithmetic overflow caught by the debug profile, an [expect]) or
    a loop that outlives the fuel of its model.  The theorems that matter show
    that [Fault] is not reached, which excludes both at once. *)
Inductive outcome (E A : Type) : Type :=
  | Done (a : A)
  | Fail (e : E)
  | Fault.
Arguments Done {E A} a.
Arguments Fail {E A} e.
Arguments Fault {E A}.

Definition obind {E A B} (m : outcome E A) (k : A -> outcome E B) : outcome E B :=
  match m with
  | Done a => k a
  | Fail e => Fail e
  | Fault => Fault
  end.

Definition omap_err {E F A} (f : E -> F) (m : outcome E A) : outcome F A :=
  match m with
  | Done a => Done a
  | Fail e => Fail (f e)
  | Fault => Fault
  end.

Definition is_done {E A} (m : outcome E A) : bool :=
  match m with Done _ => true | _ => false end.

(** [Option::ok_or] and the [unwrap]/[expect] family. *)
Definition ok_or {E A} (o : option A) (e : E) : outcome E A :=
  match o with Some a => Done a | None => Fail e end.

Definition expect {E A} (o : option A) : outcome E A :=
  match o with Some a => Done a | None => Fault end.

(** [assert!]: a panic when the condition is false. *)
Definition guard {E} (b : bool) : outcome E unit :=
  if b then Done tt else Fault.

Declare Scope outcome_scope.
Delimit Scope outcome_scope with outcome.

Notation "'let*' x ':=' c 'in' k" := (obind c (fun x => k))
  (at level 10, x pattern, c at level 200, k at level 200,
   format "'[v' 'let*'  x  ':='  c  'in' '//' k ']'") : outcome_scope.
Notation "'do*' c 'in' k" := (obind c (fun _ => k))
  (at level 10, c at level 200, k at level 200,
   format "'[v' 'do*'  c  'in' '//' k ']'") : outcome_scope.
Open Scope outcome_scope.

Lemma obind_done {E A B} (m : outcome E A) (k : A -> outcome E B) b :
  obind m k = Done b <-> exists a, m = Done a /\ k a = Done b.
Proof.
  destruct m; simpl; split.
  - intros H. by eexists.
  - by intros (x & [= ->] & H).
  - done.
  - by intros (x & ? & H).
  - done.
  - by intros (x & ? & H).
Qed.

Lemma obind_not_fault {E A B} (m : outcome E A) (k : A -> outcome E B) :
  m <> Fault -> (forall a, m = Done a -> k a <> Fault) -> obind m k <> Fault.
Proof. destruct m; simpl; naive_solver. Qed.

Lemma obind_assoc {E A B C} (m : outcome E A) (k : A -> outcome E B)
    (h : B -> outcome E C) :
  obind (obind m k) h = obind m (fun a => obind (k a) h).
Proof. by destruct m. Qed.

(** Fold of a fallible step over a list, the shape of a [for] loop whose body
    uses [?]. *)
Fixpoint ofold {E S A} (f : S -> A -> outcome E S) (s : S) (l : list A)
    : outcome E S :=
  match l with
  | [] => Done s
  | x :: l => let* s := f s x in ofold f s l
  end.

Fixpoint omapM {E A B} (f : A -> outcome E B) (l : list A) : outcome E (list B) :=
  match l with
  | [] => Done []
  | x :: l => let* y := f x in let* ys := omapM f l in Done (y :: ys)
  end.

Lemma ofold_app {E S A} (f : S -> A -> outcome E S) s l1 l2 :
  ofold f s (l1 ++ l2) = (let* s := ofold f s l1 in ofold f s l2).
Proof.
  revert s. induction l1 as [|x l1 IH]; intros s; simpl; [done|].
  destruct (f s x); simpl; [apply IH | done | done].
Qed.

(** Preservation of a state predicate along a fallible fold. *)
Lemma ofold_inv {E S A} (P : S -> Prop) (f : S -> A -> outcome E S) l s s' :
  (forall s x s', P s -> x ∈ l -> f s x = Done s' -> P s') ->
  P s -> ofold f s l = Done s' -> P s'.
Proof.
  revert s. induction l as [|x l IH]; intros s Hf HP; simpl.
  - by intros [= <-].
  - intros (s1 & Hs1 & Hl)%obind_done. apply (IH s1); [|by eapply Hf; [..|done]; [done|left]|done].
    intros s0 x0 s0' HP0 Hin. apply Hf; [done|by right].
Qed.

(** ** Stateful operations

    A method on [&mut self] or on shared state behind a lock: the state it leaves
    is kept whether it returns or fails. *)
Definition ST (S E A : Type) : Type := S -> outcome E A * S.

Definition st_ret {S E A} (a : A) : ST S E A := fun s => (Done a, s).
Definition st_lift {S E A} (m : outcome E A) : ST S E A := fun s => (m, s).
Definition st_gets {S E A} (f : S -> A) : ST S E A := fun s => (Done (f s), s).
Definition st_modify {S E} (f : S -> S) : ST S E unit := fun s => (Done tt, f s).

Definition st_bind {S E A B} (m : ST S E A) (k : A -> ST S E B) : ST S E B :=
  fun s => match m s with
           | (Done a, s') => k a s'
           | (Fail e, s') => (Fail e, s')
           | (Fault, s') => (Fault, s')
           end.

Notation "'let!' x ':=' c 'in' k" := (st_bind c (fun x => k))
  (at level 10, x pattern, c at level 200, k at level 200,
   format "'[v' 'let!'  x  ':='  c  'in' '//' k ']'") : outcome_scope.
Notation "'do!' c 'in' k" := (st_bind c (fun _ => k))
  (at level 10, c at level 200, k at level 200,
   format "'[v' 'do!'  c  'in' '//' k ']'") : outcome_scope.

(** A [for] loop whose body may return early with [?]. *)
Fixpoint st_iter {S E A} (f : A -> ST S E unit) (l : list A) : ST S E unit :=
  match l with
  | [] => st_ret tt
  | x :: l => do! f x in st_iter f l
  end.

(** A loop that carries a value. *)
Fixpoint st_foldl {S E A B} (f : B -> A -> ST S E B) (b : B) (l : list A) : ST S E B :=
  match l with
  | [] => st_ret b
  | x :: l => let! b := f b x in st_foldl f b l
  end.

(** ** Stable sorting, [sort_by_key] *)

Section sorting.
Context {A : Type} (le : A -> A -> bool).

Fixpoint insert_sorted (x : A) (l : list A) : list A :=
  match l with
  | [] => [x]
  | y :: l' => if le x y then x :: l else y :: insert_sorted x l'
  end.

Definition sort_by (l : list A) : list A := foldr insert_sorted [] l.

Lemma insert_sorted_perm x l : insert_sorted x l ≡ₚ x :: l.
Proof.
  induction l as [|y l IH]; simpl; [done|]. destruct (le x y); [done|].
  etransitivity; [apply perm_skip, IH | apply perm_swap].
Qed.

Lemma sort_by_perm l : sort_by l ≡ₚ l.
Proof.
  induction l as [|x l IH]; simpl; [done|].
  etransitivity; [apply insert_sorted_perm | by apply perm_skip].
Qed.

Hypothesis le_total : forall x y, le x y = true \/ le y x = true.
Hypothesis le_trans : forall x y z, le x y = true -> le y z = true -> le x z = true.

Lemma insert_sorted_sorted x l :
  StronglySorted (fun a b => le a b = true) l ->
  StronglySorted (fun a b => le a b = true) (insert_sorted x l).
Proof.
  induction 1 as [|y l Hl IH Hy]; simpl; [by repeat constructor|].
  destruct (le x y) eqn:E.
  - constructor; [by constructor|]. constructor; [done|].
    eapply Forall_impl; [done|]. intros z. by apply le_trans.
  - constructor; [done|]. rewrite insert_sorted_perm. constructor; [|done].
    destruct (le_total x y); congruence.
Qed.

Lemma sort_by_sorted l : StronglySorted (fun a b => le a b = true) (sort_by l).
Proof. induction l; simpl; [constructor | by apply insert_sorted_sorted]. Qed.
End sorting.

(** ** Fixed-width integers *)

(** [fits w z]: [z] is a value of the Rust type [uw]. *)
Definition fits (w z : Z) : Prop := 0 <= z < 2 ^ w.

#[export] Instance fits_dec w z : Decision (fits w z).
Proof. unfold fits. apply _. Defined.

Definition fitsb (w z : Z) : bool := (0 <=? z) && (z <? 2 ^ w).

Lemma fitsb_spec w z : fitsb w z = true <-> fits w z.
Proof. unfold fitsb, fits. rewrite andb_true_iff, Z.leb_le, Z.ltb_lt. done. Qed.

(** Arithmetic of the debug profile on an unsigned type: overflow panics. *)
Definition uadd {E} (w a b : Z) : outcome E Z := do* guard (fitsb w (a + b)) in Done (a + b).
Definition usub {E} (a b : Z) : outcome E Z := do* guard (b <=? a) in Done (a - b).
Definition umul {E} (w a b : Z) : outcome E Z := do* guard (fitsb w (a * b)) in Done (a * b).

Lemma uadd_done {E} w a b : fits w (a + b) -> uadd (E := E) w a b = Done (a + b).
Proof. intros H%fitsb_spec. unfold uadd. by rewrite H. Qed.

Lemma usub_done {E} a b : b <= a -> usub (E := E) a b = Done (a - b).
Proof. intros H%Z.leb_le. unfold usub. by rewrite H. Qed.

Lemma umul_done {E} w a b : fits w (a * b) -> umul (E := E) w a b = Done (a * b).
Proof. intros H%fitsb_spec. unfold umul. by rewrite H. Qed.

(** Truncation to [w] bits: an [as uw] cast, and the wrapping arithmetic of the
    [wrapping_*] methods. *)
Definition wrap (w z : Z) : Z := z mod 2 ^ w.

Lemma wrap_fits w z : 0 <= w -> fits w (wrap w z).
Proof. intros Hw. apply Z.mod_pos_bound. lia. Qed.

Lemma wrap_small w z : fits w z -> wrap w z = z.
Proof. apply Z.mod_small. Qed.

Lemma wrap_land_ones w z : 0 <= w -> Z.land z (Z.ones w) = wrap w z.
Proof. apply Z.land_ones. Qed.

Lemma ones_pred w : 0 <= w -> 2 ^ w - 1 = Z.ones w.
Proof. intros. rewrite Z.ones_equiv. lia. Qed.

Lemma fits_mono w w' z : w <= w' -> fits w z -> fits w' z.
Proof.
  unfold fits. intros Hw [H0 H1]. split; [done|].
  pose proof (Z.pow_le_mono_r 2 w w'). lia.
Qed.

(** *** Bit fields: packing is addition, unpacking is division *)

Lemma land_shiftl_low a b k : 0 <= k -> fits k b -> Z.land (Z.shiftl a k) b = 0.
Proof.
  intros Hk [Hb0 Hb]. apply Z.bits_inj'. intros n Hn.
  rewrite Z.land_spec, Z.bits_0, Z.shiftl_spec by done.
  destruct (Z.ltb_spec n k); [by rewrite (Z.testbit_neg_r a) by lia|].
  rewrite (Z.testbit_eqb b) by lia. rewrite Z.div_small; [by rewrite andb_false_r|].
  pose proof (Z.pow_le_mono_r 2 k n). lia.
Qed.

Lemma lor_shiftl_low a b k :
  0 <= k -> fits k b -> Z.lor (Z.shiftl a k) b = a * 2 ^ k + b.
Proof.
  intros Hk Hb. pose proof (Z.add_lor_land (Z.shiftl a k) b) as E.
  rewrite land_shiftl_low, Z.shiftl_mul_pow2 in E by done.
  rewrite Z.shiftl_mul_pow2 by done. lia.
Qed.

Lemma div_field a b k : fits k b -> (a * 2 ^ k + b) / 2 ^ k = a.
Proof.
  intros [Hb0 Hb]. rewrite Z.div_add_l by lia. rewrite Z.div_small by lia. lia.
Qed.

Lemma mod_field a b k : fits k b -> (a * 2 ^ k + b) mod 2 ^ k = b.
Proof.
  intros [Hb0 Hb]. rewrite Z.add_comm, Z_mod_plus_full. apply Z.mod_small. lia.
Qed.

(** ** Little-endian byte strings *)

(** [z.to_le_bytes()] of an integer of [n] bytes. *)
Definition le_bytes (n : nat) (z : Z) : list byte := LittleEndianList.le_split n z.

(** [from_le_bytes]. *)
Definition le_val (bs : list byte) : Z := LittleEndianList.le_combine bs.

Lemma length_le_bytes n z : length (le_bytes n z) = n.
Proof. apply LittleEndianList.length_le_split. Qed.

Lemma le_val_bytes n z : fits (8 * Z.of_nat n) z -> le_val (le_bytes n z) = z.
Proof.
  intros H. unfold le_val, le_bytes. rewrite LittleEndianList.le_combine_split.
  rewrite Z.mul_comm. by apply Z.mod_small.
Qed.

Lemma le_bytes_val bs : le_bytes (length bs) (le_val bs) = bs.
Proof. apply LittleEndianList.split_le_combine. Qed.

Lemma le_val_fits bs : fits (8 * Z.of_nat (length bs)) (le_val bs).
Proof. apply LittleEndianList.le_combine_bound. Qed.

Lemma le_bytes_inj n x y :
  fits (8 * Z.of_nat n) x -> fits (8 * Z.of_nat n) y ->
  le_bytes n x = le_bytes n y -> x = y.
Proof. intros Hx Hy E. rewrite <- (le_val_bytes n x), <- (le_val_bytes n y); congruence. Qed.

#[global] Opaque le_bytes le_val.

(** ** Slices and in-place writes

    [slice pos n l] is the sub-slice [l[pos..pos + n]] and [splice pos xs l] the
    effect of [l[pos..pos + xs.len()].copy_from_slice(xs)].  Both are total
    here; the definitions that model indexing check the range first. *)

Definition slice {A} (pos n : nat) (l : list A) : list A := take n (drop pos l).

Definition splice {A} (pos : nat) (xs l : list A) : list A :=
  take pos l ++ xs ++ drop (pos + length xs) l.

(** [xs] is found in [buf] at offset [pos]. *)
Definition has_at {A} (buf : list A) (pos : nat) (xs : list A) : Prop :=
  exists pre post, buf = pre ++ xs ++ post /\ length pre = pos.

Section slices.
Context {A : Type}.
Implicit Types (l xs pre post : list A).

Lemma slice_mid pre xs post :
  slice (length pre) (length xs) (pre ++ xs ++ post) = xs.
Proof. unfold slice. by rewrite drop_app_length, take_app_length. Qed.

Lemma length_slice pos n l :
  (pos + n <= length l)%nat -> length (slice pos n l) = n.
Proof. intros. unfold slice. rewrite length_take, length_drop. lia. Qed.

Lemma splice_mid pre xs old post :
  length xs = length old ->
  splice (length pre) xs (pre ++ old ++ post) = pre ++ xs ++ post.
Proof.
  intros Hl. unfold splice. rewrite take_app_length, Hl, <- drop_drop, drop_app_length.
  by rewrite drop_app_length.
Qed.

Lemma length_splice pos xs l :
  (pos + length xs <= length l)%nat -> length (splice pos xs l) = length l.
Proof.
  intros. unfold splice. rewrite !length_app, length_take, length_drop. lia.
Qed.

Lemma has_at_slice buf pos xs : has_at buf pos xs -> slice pos (length xs) buf = xs.
Proof. intros (pre & post & -> & <-). apply slice_mid. Qed.

Lemma has_at_bound buf pos xs : has_at buf pos xs -> (pos + length xs <= length buf)%nat.
Proof. intros (pre & post & -> & <-). rewrite !length_app. lia. Qed.

Lemma has_at_mid pre xs post : has_at (pre ++ xs ++ post) (length pre) xs.
Proof. by exists pre, post. Qed.

Lemma has_at_app buf pos xs ys :
  has_at buf pos (xs ++ ys) <->
  has_at buf pos xs /\ has_at buf (pos + length xs) ys.
Proof.
  split.
  - intros (pre & post & -> & <-). split; [exists pre, (ys ++ post)|exists (pre ++ xs), post].
    + by rewrite <- !app_assoc.
    + by rewrite <- !app_assoc, length_app.
  - intros [(p1 & q1 & -> & <-) (p2 & q2 & E & Hl)].
    exists p1, q2. split; [|done].
    rewrite <- length_app in Hl. rewrite (app_assoc p1) in E.
    apply app_inj_1 in E as [<- ->]; [by rewrite <- !app_assoc | done].
Qed.

Lemma has_at_slice_iff buf pos xs :
  has_at buf pos xs <->
  (pos + length xs <= length buf)%nat /\ slice pos (length xs) buf = xs.
Proof.
  split; [intros H; split; [by apply has_at_bound | by apply has_at_slice]|].
  intros [Hl Hs]. exists (take pos buf), (drop (pos + length xs) buf). split.
  - rewrite <- Hs at 1. unfold slice. rewrite <- drop_drop, take_drop, take_drop. done.
  - rewrite length_take. lia.
Qed.

Lemma has_at_all (buf : list A) : has_at buf 0 buf.
Proof. exists [], []. by rewrite app_nil_r. Qed.

Lemma has_at_nil_at (buf : list A) pos : (pos <= length buf)%nat -> has_at buf pos (@nil A).
Proof. intros. apply has_at_slice_iff. split; [simpl; lia | done]. Qed.

Lemma has_at_slice_intro (buf : list A) pos n :
  (pos + n <= length buf)%nat -> has_at buf pos (slice pos n buf).
Proof.
  intros H. apply has_at_slice_iff. rewrite length_slice by done. done.
Qed.
End slices.

(** *** Ranges given by integers

    [sub a b l] is [l[a..b]] and [put a xs l] the copy of [xs] to
    [l[a..a + xs.len()]]; [None] is the panic of an index out of range. *)

Definition zlen {A} (l : list A) : Z := Z.of_nat (length l).

Definition sub {A} (a b : Z) (l : list A) : option (list A) :=
  if (0 <=? a) && (a <=? b) && (b <=? zlen l)
  then Some (slice (Z.to_nat a) (Z.to_nat (b - a)) l) else None.

Definition put {A} (a : Z) (xs l : list A) : option (list A) :=
  if (0 <=? a) && (a + zlen xs <=? zlen l)
  then Some (splice (Z.to_nat a) xs l) else None.

(** [xs] stands at offset [a] of [l]. *)
Definition stands {A} (l : list A) (a : Z) (xs : list A) : Prop :=
  0 <= a /\ has_at l (Z.to_nat a) xs.

Section ranges.
Context {A : Type}.
Implicit Types (l xs ys : list A).

Lemma zlen_le_bytes n v : zlen (le_bytes n v) = Z.of_nat n.
Proof. unfold zlen. by rewrite length_le_bytes. Qed.

Lemma zlen_app xs ys : zlen (xs ++ ys) = zlen xs + zlen ys.
Proof. unfold zlen. rewrite length_app. lia. Qed.

Lemma zlen_nonneg xs : 0 <= zlen xs.
Proof. unfold zlen. lia. Qed.

Lemma stands_bound l a xs : stands l a xs -> 0 <= a /\ a + zlen xs <= zlen l.
Proof. intros [? H%has_at_bound]. unfold zlen. lia. Qed.

Lemma sub_stands l a b xs :
  sub a b l = Some xs <-> stands l a xs /\ b = a + zlen xs.
Proof.
  unfold sub, stands, zlen. split.
  - destruct (_ && _) eqn:E; [|done]. intros [= <-]. unfold zlen in E. rewrite !andb_true_iff, !Z.leb_le in E.
    rewrite length_slice by lia. split; [split; [lia|]; apply has_at_slice_intro|]; lia.
  - intros [[Ha H] ->]. pose proof (has_at_bound _ _ _ H).
    replace (_ && _) with true by lia. f_equal.
    replace (Z.to_nat (a + Z.of_nat (length xs) - a)) with (length xs) by lia.
    by apply has_at_slice.
Qed.

Lemma sub_some l a b : 0 <= a <= b -> b <= zlen l -> exists xs, sub a b l = Some xs.
Proof. intros. unfold sub. replace (_ && _) with true by lia. eauto. Qed.

Lemma put_some l a xs :
  0 <= a -> a + zlen xs <= zlen l -> put a xs l = Some (splice (Z.to_nat a) xs l).
Proof. intros. unfold put. by replace (_ && _) with true by lia. Qed.

Lemma put_length l a xs l' : put a xs l = Some l' -> zlen l' = zlen l.
Proof.
  unfold put. destruct (_ && _) eqn:E; [|done]. intros [= <-].
  rewrite andb_true_iff, !Z.leb_le in E. unfold zlen in *. rewrite length_splice; lia.
Qed.

Lemma put_here l a xs l' : put a xs l = Some l' -> stands l' a xs.
Proof.
  unfold put. destruct (_ && _) eqn:E; [|done]. intros [= <-].
  rewrite andb_true_iff, !Z.leb_le in E. unfold zlen in *. split; [lia|].
  exists (take (Z.to_nat a) l), (drop (Z.to_nat a + length xs) l). split; [done|].
  rewrite length_take. lia.
Qed.

Lemma put_other l a xs l' b ys :
  put a xs l = Some l' -> stands l b ys ->
  b + zlen ys <= a \/ a + zlen xs <= b -> stands l' b ys.
Proof.
  unfold put. destruct (_ && _) eqn:E; [|done]. intros [= <-] [Hb H] Hd.
  rewrite andb_true_iff, !Z.leb_le in E. unfold zlen in *. split; [done|].
  destruct H as (p & q & -> & Hp). unfold splice.
  destruct Hd as [Hd|Hd].
  - exists p, (take (Z.to_nat a - length (p ++ ys)) q ++ xs ++
               drop (Z.to_nat a + length xs) (p ++ ys ++ q)). split; [|done].
    rewrite (app_assoc p), take_app_ge by (rewrite length_app; lia).
    by rewrite <- !app_assoc.
  - exists (take (Z.to_nat a) (p ++ ys ++ q) ++ xs ++ drop (Z.to_nat a + length xs) p), q.
    rewrite drop_app_le by lia. rewrite <- !app_assoc. split; [done|].
    rewrite !length_app, length_take, length_drop, !length_app in *. lia.
Qed.

Lemma stands_app l a xs ys :
  stands l a (xs ++ ys) <-> stands l a xs /\ stands l (a + zlen xs) ys.
Proof.
  unfold stands, zlen. rewrite has_at_app. split.
  - intros (Ha & Hx & Hy). split; [done|split; [lia|]].
    by replace (Z.to_nat (a + Z.of_nat (length xs))) with (Z.to_nat a + length xs)%nat by lia.
  - intros ((Ha & Hx) & _ & Hy). split_and!; [done..|].
    by replace (Z.to_nat (a + Z.of_nat (length xs))) with (Z.to_nat a + length xs)%nat in Hy by lia.
Qed.
End ranges.

(** [Vec::resize] with zeros. *)
Definition resize (n : Z) (b : list byte) : list byte :=
  take (Z.to_nat n) b ++ replicate (Z.to_nat (n - zlen b)) Byte.x00.

Lemma zlen_resize n buf : 0 <= n -> zlen (resize n buf) = n.
Proof. intros. unfold resize, zlen. rewrite length_app, length_take, length_replicate. lia. Qed.

Lemma resize_spec n buf :
  zlen buf <= n -> zlen (resize n buf) = n /\ forall a xs, stands buf a xs -> stands (resize n buf) a xs.
Proof.
  intros Hn. unfold resize. rewrite take_ge by (unfold zlen in *; lia). split.
  - unfold zlen in *. rewrite length_app, length_replicate. lia.
  - intros a xs (Ha & p & q & -> & Hp). split; [done|].
    exists p, (q ++ replicate (Z.to_nat (n - zlen (p ++ xs ++ q))) Byte.x00).
    by rewrite <- !app_assoc.
Qed.

(** Shrinking keeps what stands before the cut. *)
Lemma resize_keeps n buf a xs : stands buf a xs -> a + zlen xs <= n -> stands (resize n buf) a xs.
Proof.
  intros (Ha & p & q & -> & Hp) Hn. split; [done|]. unfold zlen in Hn. unfold resize.
  exists p, (take (Z.to_nat n - length (p ++ xs)) q ++ replicate (Z.to_nat (n - zlen (p ++ xs ++ q))) Byte.x00).
  split; [|done]. rewrite (app_assoc p xs q), take_app_ge by (rewrite length_app; lia). by rewrite <- !app_assoc.
Qed.

Lemma find_app_first {A} (f : A -> bool) (l1 l2 : list A) :
  List.find f (l1 ++ l2) = match List.find f l1 with Some x => Some x | None => List.find f l2 end.
Proof. induction l1 as [|x l1 IH]; simpl; [done|]. by destruct (f x). Qed.

Lemma filter_all {A} (P : A -> Prop) `{!forall x, Decision (P x)} (l : list A) :
  Forall P l -> filter P l = l.
Proof.
  induction 1 as [|x l Hx _ IH]; [done|]. rewrite filter_cons, decide_True by done. congruence.
Qed.

(** A list has no more distinct elements than elements. *)
Lemma size_list_le `{FinSet A C, EqDecision A} (l : list A) :
  (size (list_to_set (C := C) l) <= length l)%nat.
Proof.
  induction l as [|x l IH]; simpl; [by rewrite size_empty|].
  rewrite size_union_alt, size_singleton.
  assert (list_to_set (C := C) l ∖ {[x]} ⊆ list_to_set l) as Hs%subseteq_size by set_solver.
  lia.
Qed.

(** Sums of natural numbers, [Iterator::sum]. *)
Lemma sum_list_map_length {A B} (f : A -> list B) l :
  sum_list (map (fun x => length (f x)) l) = length (concat (map f l)).
Proof. induction l; simpl; [done|]. rewrite length_app. lia. Qed.

(** Lengths through the usual list operations. *)
Create Rewrite HintDb len.
#[export] Hint Rewrite @length_app @length_replicate @length_map @length_le_bytes
  @length_take @length_drop @length_cons @length_nil : len.

Ltac len := autorewrite with len in *; simpl in *; try lia.
