(* ===== verification/Ordered.v ===== *)
(** * Ordered maps

    Rust's [BTreeMap] and [BTreeSet] over integer keys are finite maps; this file
    adds the operations that look at the order: the first key from a bound, the
    last key up to one, and iteration in key order. *)
From S2P Require Import Prelude.

Section pick.
Context {A : Type}.
Implicit Types (m : gmap Z A) (le : Z -> Z -> bool) (P : Z -> bool).

(** The entry with the [le]-least key among those satisfying [P]. *)
Definition pick le P (m : gmap Z A) : option (Z * A) :=
  map_fold (fun k v acc =>
    if P k then match acc with
                | Some (k', v') => if le k k' then Some (k, v) else Some (k', v')
                | None => Some (k, v)
                end
    else acc) None m.

(** [range(k..).next()], [range(..=k).next_back()], [range(..k).next_back()],
    [iter().next()] and [iter().next_back()]. *)
Definition range_from (k : Z) := pick Z.leb (fun x => k <=? x).
Definition range_upto (k : Z) := pick Z.geb (fun x => x <=? k).
Definition range_below (k : Z) := pick Z.geb (fun x => x <? k).
Definition first_entry := pick Z.leb (fun _ => true).
Definition last_entry := pick Z.geb (fun _ => true).

Definition picked le P m (r : option (Z * A)) : Prop :=
  match r with
  | Some (k, v) => m !! k = Some v /\ P k = true /\
      forall k' v', m !! k' = Some v' -> P k' = true -> le k k' = true
  | None => forall k v, m !! k = Some v -> P k = false
  end.

Lemma pick_spec le P m :
  (forall x, le x x = true) -> (forall x y, le x y = false -> le y x = true) ->
  (forall x y z, le x y = true -> le y z = true -> le x z = true) ->
  picked le P m (pick le P m).
Proof.
  intros Hrefl Htot Htrans. unfold pick.
  apply (map_fold_weak_ind (fun r m => picked le P m r)); [by intros k v ?%lookup_empty_Some|].
  intros k v m' r Hk IH. destruct (P k) eqn:EP.
  - destruct r as [[k1 v1]|].
    + destruct IH as (H1 & HP1 & Hmin). assert (k <> k1) by congruence.
      destruct (le k k1) eqn:El; (split; [simplify_map_eq; congruence|split; [done|]]);
        intros k' v' [[<- <-]|[Hne Hk']]%lookup_insert_Some HP'; eauto.
    + split; [by simplify_map_eq|]. split; [done|].
      intros k' v' [[<- <-]|[Hne Hk']]%lookup_insert_Some HP'; [done|].
      specialize (IH k' v' Hk'). congruence.
  - destruct r as [[k1 v1]|].
    + destruct IH as (H1 & HP1 & Hmin). assert (k <> k1) by congruence.
      split; [by simplify_map_eq|]. split; [done|].
      intros k' v' [[<- <-]|[Hne Hk']]%lookup_insert_Some HP'; [congruence|eauto].
    + intros k' v' [[<- <-]|[Hne Hk']]%lookup_insert_Some; [done|eauto].
Qed.

(** What the four lookups find. *)
Ltac pick := apply pick_spec; intros; lia.

Lemma range_from_spec k m : picked Z.leb (fun x => k <=? x) m (range_from k m).
Proof. pick. Qed.
Lemma range_upto_spec k m : picked Z.geb (fun x => x <=? k) m (range_upto k m).
Proof. pick. Qed.
Lemma range_below_spec k m : picked Z.geb (fun x => x <? k) m (range_below k m).
Proof. pick. Qed.
Lemma first_entry_spec m : picked Z.leb (fun _ => true) m (first_entry m).
Proof. pick. Qed.
Lemma last_entry_spec m : picked Z.geb (fun _ => true) m (last_entry m).
Proof. pick. Qed.
End pick.

(** [BTreeSet::iter().next()]. *)
Definition set_first (s : gset Z) : option Z := option_map fst (first_entry (gset_to_gmap tt s)).

Lemma set_first_spec s :
  match set_first s with
  | Some k => k ∈ s /\ forall k', k' ∈ s -> k <= k'
  | None => s = ∅
  end.
Proof.
  unfold set_first. pose proof (first_entry_spec (gset_to_gmap tt s)) as H.
  destruct (first_entry _) as [[k []]|]; simpl in *.
  - destruct H as ([H _]%lookup_gset_to_gmap_Some & _ & Hmin). split; [done|].
    intros k' Hk'. assert ((k <=? k') = true); [|lia]. apply (Hmin k' tt); [|done].
    by apply lookup_gset_to_gmap_Some.
  - apply set_eq. intros x. split; [|set_solver]. intros Hx.
    assert (true = false); [|done]. apply (H x tt). by apply lookup_gset_to_gmap_Some.
Qed.

(** ** Iteration in key order *)

Section ordered.
Context {K A : Type} `{Countable K} (le : K -> K -> bool).

Definition ordered (m : gmap K A) : list (K * A) :=
  sort_by (fun x y => le x.1 y.1) (map_to_list m).

Lemma ordered_perm m : ordered m ≡ₚ map_to_list m.
Proof. apply sort_by_perm. Qed.

Lemma elem_of_ordered m k v : (k, v) ∈ ordered m <-> m !! k = Some v.
Proof. rewrite ordered_perm. apply elem_of_map_to_list. Qed.

Lemma NoDup_ordered m : NoDup (map fst (ordered m)).
Proof. rewrite ordered_perm. apply NoDup_fst_map_to_list. Qed.

Lemma ordered_list_to_map m : list_to_map (ordered m) = m.
Proof. rewrite <- (list_to_map_to_list m) at 2. apply list_to_map_proper; [apply NoDup_ordered|apply ordered_perm]. Qed.

Lemma ordered_sorted m :
  (forall x y, le x y = true \/ le y x = true) ->
  (forall x y z, le x y = true -> le y z = true -> le x z = true) ->
  StronglySorted (fun x y => le x.1 y.1 = true) (ordered m).
Proof. intros Ht Htr. apply sort_by_sorted; intros; [apply Ht|eauto]. Qed.

Lemma ordered_empty : ordered ∅ = [].
Proof. unfold ordered. by rewrite map_to_list_empty. Qed.
End ordered.

(** Keys that are pairs of integers, in lexicographic order. *)
Definition pair_le (x y : Z * Z) : bool := (x.1 <? y.1) || ((x.1 =? y.1) && (x.2 <=? y.2)).

(** Integer keys. *)
Abbreviation by_key := (ordered Z.leb).
Abbreviation by_pair := (ordered pair_le).

(** ** Sums over the values of a map *)

Section msum.
Context {K A : Type} `{Countable K} (f : A -> Z).

Definition lsum (l : list (K * A)) : Z := foldr (fun t n => f t.2 + n) 0 l.
Definition msum (m : gmap K A) : Z := lsum (map_to_list m).

Lemma lsum_perm l l' : l ≡ₚ l' -> lsum l = lsum l'.
Proof. unfold lsum. induction 1; simpl; lia. Qed.

Lemma lsum_app l l' : lsum (l ++ l') = lsum l + lsum l'.
Proof. unfold lsum. induction l; simpl; lia. Qed.

Lemma msum_empty : msum ∅ = 0.
Proof. unfold msum. by rewrite map_to_list_empty. Qed.

Lemma msum_insert_new m k v : m !! k = None -> msum (<[k := v]> m) = f v + msum m.
Proof. intros Hk. unfold msum. by rewrite (lsum_perm _ _ (map_to_list_insert m k v Hk)). Qed.

Lemma msum_delete m k v : m !! k = Some v -> msum m = f v + msum (delete k m).
Proof. intros Hk. rewrite <- (insert_delete_id m k v Hk) at 1. apply msum_insert_new, lookup_delete_eq. Qed.

Lemma msum_insert m k v : msum (<[k := v]> m) = f v + msum m - from_option f 0 (m !! k).
Proof.
  destruct (m !! k) as [w|] eqn:E; simpl; [|rewrite msum_insert_new by done; lia].
  rewrite <- insert_delete_eq, msum_insert_new by apply lookup_delete_eq. rewrite (msum_delete m k w E). lia.
Qed.

Lemma msum_ordered le m : lsum (ordered le m) = msum m.
Proof. apply lsum_perm, ordered_perm. Qed.

Lemma msum_nonneg m : (forall v, 0 <= f v) -> 0 <= msum m.
Proof. intros Hf. unfold msum, lsum. induction (map_to_list m) as [|t l IH]; simpl; [done|]. specialize (Hf t.2). lia. Qed.
End msum.
