(* ===== verification/Wire.v ===== *)
(** * The wire format (wavedb-core/src/wire.rs, wavedb-macros/src/wire_derive.rs)

    The [Wire] trait is the record [Wire] of its members; the writer and the
    reader are the two cursors of wire.rs passed explicitly.  The derive macro's
    two layouts are combinators: a struct is the flattened product of its field
    codecs, an enum with payload the sum of its variants. *)
From S2P Require Import Prelude.

(** The errors of decoding and encoding; sizes and tags are kept as integers. *)
Inductive WireError : Type :=
  | UnexpectedEnd (needed offset len : Z)
  | LengthOverflow (n : Z)
  | PlatformIntOverflow (v : Z)
  | InvalidBool (b : Z)
  | InvalidChar (c : Z)
  | InvalidUtf8
  | InvalidTag (type_name : string) (tag : Z)
  | RegionMismatch (consumed expected : Z)
  | TrailingBytes (consumed len : Z).

Definition WireResult (A : Type) : Type := outcome WireError A.

(** ** Header *)

Definition pack_header (struct_id version : Z) : Z :=
  Z.lor (wrap 32 (Z.shiftl struct_id 8)) version.

Definition unpack_header (header : Z) : Z * Z :=
  (Z.shiftr header 8, Z.land header 0xFF).

Definition peek_header (bytes : list byte) : option Z :=
  if decide (4 <= length bytes)%nat then Some (le_val (take 4 bytes)) else None.

(** ** The writer *)

Record WireWriter : Type := { wbuf : list byte; wpos : nat }.

Definition put_stack (bs : list byte) (w : WireWriter) : WireResult WireWriter :=
  if decide (wpos w + length bs <= length (wbuf w))%nat
  then Done {| wbuf := splice (wpos w) bs (wbuf w); wpos := wpos w + length bs |}
  else Fault.

Definition wskip_stack (n : nat) (w : WireWriter) : WireWriter :=
  {| wbuf := wbuf w; wpos := wpos w + n |}.

Definition put_heap (bs : list byte) (w : WireWriter) : WireWriter :=
  {| wbuf := wbuf w ++ bs; wpos := wpos w |}.

Definition put_len_slot (len : nat) (w : WireWriter) : WireResult WireWriter :=
  if fitsb 32 (Z.of_nat len)
  then put_stack (le_bytes 4 (Z.of_nat len)) w
  else Fail (LengthOverflow (Z.of_nat len)).

(** [with_unit]: the stack cursor moves to a fresh zeroed unit at the end of
    the buffer, and back once the closure has filled it. *)
Definition with_unit (stack_size : nat)
    (f : WireWriter -> WireResult WireWriter) (w : WireWriter) : WireResult WireWriter :=
  let saved := wpos w in
  let unit_stack_end := (length (wbuf w) + stack_size)%nat in
  let* w := f {| wbuf := wbuf w ++ replicate stack_size Byte.x00;
                 wpos := length (wbuf w) |} in
  do* guard (Nat.eqb (wpos w) unit_stack_end) in
  Done {| wbuf := wbuf w; wpos := saved |}.

(** ** The reader *)

Record WireReader : Type := { rbuf : list byte; rpos : nat; hpos : nat }.

Definition unexpected_end {A} (needed offset : Z) (buf : list byte) : WireResult A :=
  Fail (UnexpectedEnd needed offset (Z.of_nat (length buf))).

Definition take_stack (n : nat) (r : WireReader) : WireResult (list byte * WireReader) :=
  if decide (rpos r + n <= length (rbuf r))%nat
  then Done (slice (rpos r) n (rbuf r),
             {| rbuf := rbuf r; rpos := rpos r + n; hpos := hpos r |})
  else unexpected_end (Z.of_nat n) (Z.of_nat (rpos r)) (rbuf r).

Definition rskip_stack (n : nat) (r : WireReader) : WireResult WireReader :=
  let* (_, r) := take_stack n r in Done r.

(** The requested length comes from the input, so it is compared as an
    integer before it is used as a position. *)
Definition take_heap (n : Z) (r : WireReader) : WireResult (list byte * WireReader) :=
  if decide (Z.of_nat (hpos r) + n <= Z.of_nat (length (rbuf r)))
  then Done (slice (hpos r) (Z.to_nat n) (rbuf r),
             {| rbuf := rbuf r; rpos := rpos r; hpos := hpos r + Z.to_nat n |})
  else unexpected_end n (Z.of_nat (hpos r)) (rbuf r).

(** [u32::read] and its siblings. *)
Definition read_uint (n : nat) (r : WireReader) : WireResult (Z * WireReader) :=
  let* (bs, r) := take_stack n r in Done (le_val bs, r).

Definition take_len_slot_region (r : WireReader) : WireResult (list byte * WireReader) :=
  let* (len, r) := read_uint 4 r in take_heap len r.

Definition for_unit (region : list byte) (stack_size : nat) : WireResult WireReader :=
  if decide (length region < stack_size)%nat
  then unexpected_end (Z.of_nat stack_size) 0 region
  else Done {| rbuf := region; rpos := 0; hpos := stack_size |}.

Definition finish_unit (r : WireReader) : WireResult unit :=
  if Nat.eqb (hpos r) (length (rbuf r)) then Done tt
  else Fail (RegionMismatch (Z.of_nat (hpos r)) (Z.of_nat (length (rbuf r)))).

(** ** The trait *)

Record Wire (T : Type) : Type := {
  STACK_SIZE : nat;
  FIXED : bool;
  heap_size : T -> nat;
  write_stack : T -> WireWriter -> WireResult WireWriter;
  read : WireReader -> WireResult (T * WireReader)
}.
Arguments STACK_SIZE {T}.
Arguments FIXED {T}.
Arguments heap_size {T}.
Arguments write_stack {T}.
Arguments read {T}.

Definition wire_size {T} (c : Wire T) (v : T) : nat := STACK_SIZE c + heap_size c v.

Definition to_wire {T} (c : Wire T) (v : T) : WireResult (list byte) :=
  let total := (STACK_SIZE c + heap_size c v)%nat in
  let* w := write_stack c v {| wbuf := replicate (STACK_SIZE c) Byte.x00; wpos := 0 |} in
  do* guard (Nat.eqb (wpos w) (STACK_SIZE c)) in
  do* guard (Nat.eqb (length (wbuf w)) total) in
  Done (wbuf w).

Definition to_wire_with_header {T} (c : Wire T) (header : Z) (v : T)
    : WireResult (list byte) :=
  let total := (4 + STACK_SIZE c + heap_size c v)%nat in
  let* w := write_stack c v
    {| wbuf := le_bytes 4 header ++ replicate (STACK_SIZE c) Byte.x00; wpos := 4 |} in
  do* guard (Nat.eqb (length (wbuf w)) total) in
  Done (wbuf w).

Definition read_unit {T} (c : Wire T) (buf : list byte) (offset : nat)
    : WireResult (T * nat) :=
  let stack_end := (offset + STACK_SIZE c)%nat in
  if decide (stack_end <= length buf)%nat then
    let* (value, r) := read c {| rbuf := buf; rpos := offset; hpos := stack_end |} in
    do* guard (Nat.eqb (rpos r) stack_end) in
    Done (value, hpos r)
  else unexpected_end (Z.of_nat (STACK_SIZE c)) (Z.of_nat offset) buf.

Definition from_wire {T} (c : Wire T) (bytes : list byte) : WireResult T :=
  let* (value, consumed) := read_unit c bytes 0 in
  if Nat.eqb consumed (length bytes) then Done value
  else Fail (TrailingBytes (Z.of_nat consumed) (Z.of_nat (length bytes))).

Definition from_wire_with_header {T} (c : Wire T) (bytes : list byte)
    : WireResult (Z * T) :=
  let* header := ok_or (peek_header bytes)
                   (UnexpectedEnd 4 0 (Z.of_nat (length bytes))) in
  let* value := from_wire c (drop 4 bytes) in
  Done (header, value).

(** [put_unit]: an element as one self-contained [stack][heap] unit. *)
Definition put_unit {T} (c : Wire T) (v : T) : WireWriter -> WireResult WireWriter :=
  with_unit (STACK_SIZE c) (write_stack c v).

(** ** Primitive implementations *)

Definition wire_uint (n : nat) : Wire Z := {|
  STACK_SIZE := n;
  FIXED := true;
  heap_size _ := 0%nat;
  write_stack v w := put_stack (le_bytes n v) w;
  read r := read_uint n r
|}.

(** Two's complement reading of a [w]-bit pattern. *)
Definition sign_of (w u : Z) : Z := if u <? 2 ^ (w - 1) then u else u - 2 ^ w.

Definition wire_sint (n : nat) : Wire Z := {|
  STACK_SIZE := n;
  FIXED := true;
  heap_size _ := 0%nat;
  write_stack v w := put_stack (le_bytes n (wrap (8 * Z.of_nat n) v)) w;
  read r := let* (v, r) := read_uint n r in Done (sign_of (8 * Z.of_nat n) v, r)
|}.

(** [usize] and [isize] travel as eight bytes; [ptr] is the local pointer width
    in bits. *)
Definition wire_usize (ptr : Z) : Wire Z := {|
  STACK_SIZE := 8;
  FIXED := true;
  heap_size _ := 0%nat;
  write_stack v w := write_stack (wire_uint 8) v w;
  read r := let* (v, r) := read (wire_uint 8) r in
            if fitsb ptr v then Done (v, r) else Fail (PlatformIntOverflow v)
|}.

Definition wire_isize (ptr : Z) : Wire Z := {|
  STACK_SIZE := 8;
  FIXED := true;
  heap_size _ := 0%nat;
  write_stack v w := write_stack (wire_sint 8) v w;
  read r := let* (v, r) := read (wire_sint 8) r in
            if (- 2 ^ (ptr - 1) <=? v) && (v <? 2 ^ (ptr - 1)) then Done (v, r)
            else Fail (PlatformIntOverflow (wrap 64 v))
|}.

(** The flag byte of [bool] and [Option]. *)
Definition read_flag (r : WireReader) : WireResult (bool * WireReader) :=
  let* (b, r) := read_uint 1 r in
  if b =? 0 then Done (false, r)
  else if b =? 1 then Done (true, r)
  else Fail (InvalidBool b).

Definition wire_bool : Wire bool := {|
  STACK_SIZE := 1;
  FIXED := true;
  heap_size _ := 0%nat;
  write_stack v w := put_stack (le_bytes 1 (Z.b2z v)) w;
  read r := read_flag r
|}.

(** [char::from_u32]: a Unicode scalar value. *)
Definition char_valid (c : Z) : bool :=
  ((0 <=? c) && (c <? 0xD800)) || ((0xDFFF <? c) && (c <? 0x110000)).

Definition wire_char : Wire Z := {|
  STACK_SIZE := 4;
  FIXED := true;
  heap_size _ := 0%nat;
  write_stack v w := write_stack (wire_uint 4) v w;
  read r := let* (c, r) := read (wire_uint 4) r in
            if char_valid c then Done (c, r) else Fail (InvalidChar c)
|}.

(** [str::from_utf8]: the well-formed byte sequences of the Unicode standard
    (table 3-7), which the standard library documents as its contract. *)
Definition in_range (lo hi : Z) (b : byte) : bool :=
  (lo <=? byte_val b) && (byte_val b <=? hi).

Definition cont (b : byte) : bool := in_range 0x80 0xBF b.

Fixpoint utf8_valid (bs : list byte) : bool :=
  match bs with
  | [] => true
  | b0 :: t0 =>
    if in_range 0 0x7F b0 then utf8_valid t0 else
    match t0 with
    | [] => false
    | b1 :: t1 =>
      if in_range 0xC2 0xDF b0 then cont b1 && utf8_valid t1 else
      match t1 with
      | [] => false
      | b2 :: t2 =>
        if in_range 0xE0 0xEF b0 then
          (if byte_val b0 =? 0xE0 then in_range 0xA0 0xBF b1
           else if byte_val b0 =? 0xED then in_range 0x80 0x9F b1 else cont b1)
          && cont b2 && utf8_valid t2
        else
        match t2 with
        | [] => false
        | b3 :: t3 =>
          in_range 0xF0 0xF4 b0 &&
          (if byte_val b0 =? 0xF0 then in_range 0x90 0xBF b1
           else if byte_val b0 =? 0xF4 then in_range 0x80 0x8F b1 else cont b1)
          && cont b2 && cont b3 && utf8_valid t3
        end
      end
    end
  end.

(** A [String] is its UTF-8 bytes. *)
Definition wire_string : Wire (list byte) := {|
  STACK_SIZE := 4;
  FIXED := false;
  heap_size v := length v;
  write_stack v w := let* w := put_len_slot (length v) w in Done (put_heap v w);
  read r := let* (region, r) := take_len_slot_region r in
            if utf8_valid region then Done (region, r) else Fail InvalidUtf8
|}.

(** ** Containers *)

(** [iter().try_for_each(|e| e.write_stack(w))]. *)
Definition write_each {T} (c : Wire T) (vs : list T) (w : WireWriter)
    : WireResult WireWriter :=
  ofold (fun w v => write_stack c v w) w vs.

(** [n] successive reads from one reader. *)
Fixpoint read_n {T} (c : Wire T) (n : nat) (r : WireReader)
    : WireResult (list T * WireReader) :=
  match n with
  | O => Done ([], r)
  | S n => let* (v, r) := read c r in
           let* (vs, r) := read_n c n r in
           Done (v :: vs, r)
  end.

(** The [while offset < region.len()] loop of [Vec::read]; the fuel bounds the
    number of elements. *)
Fixpoint read_units {T} (c : Wire T) (fuel : nat) (region : list byte) (offset : nat)
    : WireResult (list T * nat) :=
  if decide (offset < length region)%nat then
    match fuel with
    | O => Fault
    | S fuel => let* (value, next) := read_unit c region offset in
                let* (out, last) := read_units c fuel region next in
                Done (value :: out, last)
    end
  else Done ([], offset).

Definition vec_heap_size {T} (c : Wire T) (vs : list T) : nat :=
  if FIXED c then length vs * STACK_SIZE c
  else sum_list (map (fun e => STACK_SIZE c + heap_size c e)%nat vs).

Definition vec_read_region {T} (c : Wire T) (region : list byte)
    : WireResult (list T) :=
  if FIXED c then
    if Nat.eqb (STACK_SIZE c) 0 || negb (Nat.eqb (length region mod STACK_SIZE c) 0)
    then Fail (RegionMismatch (Z.of_nat (length region mod Nat.max (STACK_SIZE c) 1))
                              (Z.of_nat (length region)))
    else
      let count := (length region / STACK_SIZE c)%nat in
      let* (out, _) := read_n c count
        {| rbuf := region; rpos := 0; hpos := length region |} in
      Done out
  else
    let* (out, offset) := read_units c (length region) region 0 in
    if Nat.eqb offset (length region) then Done out
    else Fail (RegionMismatch (Z.of_nat offset) (Z.of_nat (length region))).

Definition wire_vec {T} (c : Wire T) : Wire (list T) := {|
  STACK_SIZE := 4;
  FIXED := false;
  heap_size vs := vec_heap_size c vs;
  write_stack vs w :=
    let* w := put_len_slot (vec_heap_size c vs) w in
    if FIXED c then with_unit (length vs * STACK_SIZE c) (write_each c vs) w
    else ofold (fun w e => put_unit c e w) w vs;
  read r := let* (region, r) := take_len_slot_region r in
            let* out := vec_read_region c region in
            Done (out, r)
|}.

Definition wire_option {T} (c : Wire T) : Wire (option T) := {|
  STACK_SIZE := S (STACK_SIZE c);
  FIXED := FIXED c;
  heap_size v := match v with Some v => heap_size c v | None => 0%nat end;
  write_stack v w :=
    match v with
    | None => let* w := put_stack [Byte.x00] w in Done (wskip_stack (STACK_SIZE c) w)
    | Some v => let* w := put_stack [Byte.x01] w in write_stack c v w
    end;
  read r :=
    let* (some, r) := read_flag r in
    if (some : bool) then let* (v, r) := read c r in Done (Some v, r)
    else let* r := rskip_stack (STACK_SIZE c) r in Done (None, r)
|}.

(** [[T; N]]: a list whose length is [n]. *)
Definition wire_array {T} (n : nat) (c : Wire T) : Wire (list T) := {|
  STACK_SIZE := n * STACK_SIZE c;
  FIXED := FIXED c;
  heap_size vs := if FIXED c then 0%nat else sum_list (map (heap_size c) vs);
  write_stack vs w := write_each c vs w;
  read r := read_n c n r
|}.

(** Tuples, and the field sequence of a derived struct. *)
Definition wire_unit : Wire unit := {|
  STACK_SIZE := 0;
  FIXED := true;
  heap_size _ := 0%nat;
  write_stack _ w := Done w;
  read r := Done (tt, r)
|}.

Definition wire_pair {A B} (a : Wire A) (b : Wire B) : Wire (A * B) := {|
  STACK_SIZE := STACK_SIZE a + STACK_SIZE b;
  FIXED := FIXED a && FIXED b;
  heap_size v := (heap_size a v.1 + heap_size b v.2)%nat;
  write_stack v w := let* w := write_stack a v.1 w in write_stack b v.2 w;
  read r := let* (x, r) := read a r in let* (y, r) := read b r in Done ((x, y), r)
|}.

(** A struct is its fields in declaration order: [fields] reads them out of the
    value, [build] is the constructor. *)
Definition wire_struct {A B} (fields : B -> A) (build : A -> B) (c : Wire A) : Wire B := {|
  STACK_SIZE := STACK_SIZE c;
  FIXED := FIXED c;
  heap_size v := heap_size c (fields v);
  write_stack v w := write_stack c (fields v) w;
  read r := let* (x, r) := read c r in Done (build x, r)
|}.

(** An enum without payload: one tag byte, the ordinal of the variant. *)
Definition wire_unit_enum {T} (type_name : string) (variants : list T)
    (tag_of : T -> nat) : Wire T := {|
  STACK_SIZE := 1;
  FIXED := true;
  heap_size _ := 0%nat;
  write_stack v w := write_stack (wire_uint 1) (Z.of_nat (tag_of v)) w;
  read r := let* (tag, r) := read (wire_uint 1) r in
            match variants !! Z.to_nat tag with
            | Some v => Done (v, r)
            | None => Fail (InvalidTag type_name tag)
            end
|}.

(** The match arms the derive macro emits for the variants of an enum with
    payload, numbered from the first. *)
Record Variants (T : Type) : Type := {
  v_count : nat;
  v_tag : T -> nat;
  v_stack : T -> nat;
  v_heap : T -> nat;
  v_write : T -> WireWriter -> WireResult WireWriter;
  v_read : nat -> list byte -> option (WireResult T)
}.
Arguments v_count {T}.
Arguments v_tag {T}.
Arguments v_stack {T}.
Arguments v_heap {T}.
Arguments v_write {T}.
Arguments v_read {T}.

Definition read_variant {T} (c : Wire T) (region : list byte) : WireResult T :=
  let* sub := for_unit region (STACK_SIZE c) in
  let* (v, sub) := read c sub in
  do* finish_unit sub in
  Done v.

Definition variant {T} (c : Wire T) : Variants T := {|
  v_count := 1;
  v_tag _ := 0%nat;
  v_stack _ := STACK_SIZE c;
  v_heap v := heap_size c v;
  v_write v := write_stack c v;
  v_read tag region := match tag with O => Some (read_variant c region) | S _ => None end
|}.

Definition variant_or {A B} (c : Wire A) (vs : Variants B) : Variants (A + B) := {|
  v_count := S (v_count vs);
  v_tag v := match v with inl _ => 0%nat | inr b => S (v_tag vs b) end;
  v_stack v := match v with inl _ => STACK_SIZE c | inr b => v_stack vs b end;
  v_heap v := match v with inl a => heap_size c a | inr b => v_heap vs b end;
  v_write v := match v with inl a => write_stack c a | inr b => v_write vs b end;
  v_read tag region :=
    match tag with
    | O => Some (let* a := read_variant c region in Done (inl a))
    | S tag => option_map (fun m => let* b := m in Done (inr b)) (v_read vs tag region)
    end
|}.

(** An enum with payload: tag byte, [u32] payload length, and the variant's
    fields as one unit of the heap. *)
Definition wire_enum {A T} (type_name : string) (cases : T -> A) (build : A -> T)
    (vs : Variants A) : Wire T := {|
  STACK_SIZE := 1 + 4;
  FIXED := false;
  heap_size v := (v_stack vs (cases v) + v_heap vs (cases v))%nat;
  write_stack v w :=
    let x := cases v in
    let* w := write_stack (wire_uint 1) (Z.of_nat (v_tag vs x)) w in
    let* w := put_len_slot (v_stack vs x + v_heap vs x)%nat w in
    with_unit (v_stack vs x) (v_write vs x) w;
  read r :=
    let* (tag, r) := read (wire_uint 1) r in
    let* (region, r) := take_len_slot_region r in
    match v_read vs (Z.to_nat tag) region with
    | Some m => let* x := m in Done (build x, r)
    | None => Fail (InvalidTag type_name tag)
    end
|}.

(** [Id] travels as its raw [u128]. *)
Definition wire_id : Wire Z := {|
  STACK_SIZE := 16;
  FIXED := true;
  heap_size _ := 0%nat;
  write_stack v w := write_stack (wire_uint 16) v w;
  read r := read (wire_uint 16) r
|}.

(** [Box<T>] is transparent. *)
Definition wire_box {T} (c : Wire T) : Wire T := {|
  STACK_SIZE := STACK_SIZE c;
  FIXED := FIXED c;
  heap_size v := heap_size c v;
  write_stack v w := write_stack c v w;
  read r := let* (v, r) := read c r in Done (v, r)
|}.
