(* ===== verification/WireOk.v ===== *)
(** * Correctness of the wire format

    [WireOk c wf] is the contract of a codec [c] on the values satisfying [wf]:
    the bytes it puts in the stack and in the heap section, that writing puts
    exactly these bytes there or reports the overflow of a length slot, that
    reading them gives the value back, and that reading any input whatever
    neither panics nor leaves the buffer.  There is an instance per combinator,
    so a type's contract is found by instance search from its codec. *)
From S2P Require Import Prelude Wire.

(** ** What a read leaves behind *)

Definition sane (r : WireReader) : Prop :=
  (rpos r <= length (rbuf r))%nat /\ (hpos r <= length (rbuf r))%nat.

Definition advance (k : nat) (r r' : WireReader) : Prop :=
  rbuf r' = rbuf r /\ rpos r' = (rpos r + k)%nat /\
  (rpos r' <= length (rbuf r))%nat /\
  (hpos r <= hpos r')%nat /\ (hpos r' <= length (rbuf r))%nat.

(** The outcome [m] of a read of [k] stack bytes from [r]: an error, or a value
    satisfying [P] and a reader that advanced by [k]; never a panic. *)
Definition reads {A} (k : nat) (P : A -> Prop) (r : WireReader)
    (m : WireResult (A * WireReader)) : Prop :=
  match m with
  | Done (v, r') => P v /\ advance k r r'
  | Fail _ => True
  | Fault => False
  end.

Class WireOk {T} (c : Wire T) (wf : T -> Prop) : Type := {
  enc_stack : T -> list byte;
  enc_heap : T -> list byte;
  slots_fit : T -> bool;
  ok_stack : forall v, wf v -> length (enc_stack v) = STACK_SIZE c;
  ok_heap : forall v, wf v -> heap_size c v = length (enc_heap v);
  ok_fixed : FIXED c = true -> forall v, wf v -> enc_heap v = [] /\ slots_fit v = true;
  ok_dynamic : FIXED c = false -> (0 < STACK_SIZE c)%nat;
  ok_write : forall v pre post, wf v -> slots_fit v = true ->
    write_stack c v {| wbuf := pre ++ replicate (STACK_SIZE c) Byte.x00 ++ post;
                       wpos := length pre |}
    = Done {| wbuf := pre ++ enc_stack v ++ post ++ enc_heap v;
              wpos := length pre + STACK_SIZE c |};
  ok_unfit : forall v pre post, wf v -> slots_fit v = false ->
    exists n, write_stack c v {| wbuf := pre ++ replicate (STACK_SIZE c) Byte.x00 ++ post;
                                 wpos := length pre |}
              = Fail (LengthOverflow n);
  ok_read : forall v r, wf v -> slots_fit v = true ->
    has_at (rbuf r) (rpos r) (enc_stack v) -> has_at (rbuf r) (hpos r) (enc_heap v) ->
    read c r = Done (v, {| rbuf := rbuf r; rpos := rpos r + STACK_SIZE c;
                           hpos := hpos r + length (enc_heap v) |});
  ok_total : forall r, sane r -> reads (STACK_SIZE c) wf r (read c r)
}.
Arguments enc_stack {T} c {wf _} v.
Arguments enc_heap {T} c {wf _} v.
Arguments slots_fit {T} c {wf _} v.

(** The part of the contract that decoding needs: reading any input neither
    panics nor leaves the buffer, and what it reads satisfies [wf]. *)
Class Decodes {T} (c : Wire T) (wf : T -> Prop) : Prop := {
  de_dynamic : FIXED c = false -> (0 < STACK_SIZE c)%nat;
  de_total : forall r, sane r -> reads (STACK_SIZE c) wf r (read c r)
}.

#[export] Instance wire_decodes {T} (c : Wire T) wf `{!WireOk c wf} : Decodes c wf.
Proof. split; [apply ok_dynamic | apply ok_total]. Qed.

(** The whole encoding of a value. *)
Definition enc {T} (c : Wire T) {wf} `{!WireOk c wf} (v : T) : list byte :=
  enc_stack c v ++ enc_heap c v.

(** ** Generic steps *)

Lemma advance_refl r : sane r -> advance 0 r r.
Proof. intros [? ?]. repeat split; lia. Qed.

Lemma advance_sane k r r' : advance k r r' -> sane r'.
Proof. intros (E & _ & ? & ? & ?). unfold sane. rewrite E. lia. Qed.

Lemma advance_trans k1 k2 r1 r2 r3 :
  advance k1 r1 r2 -> advance k2 r2 r3 -> advance (k1 + k2) r1 r3.
Proof.
  intros (E1 & ? & ? & ? & ?) (E2 & ? & ? & ? & ?). rewrite E1 in *.
  repeat split; [congruence|lia..].
Qed.

Lemma reads_bind {A B} k1 k2 (P : A -> Prop) (Q : B -> Prop) r m f :
  reads k1 P r m ->
  (forall v r', P v -> sane r' -> reads k2 Q r' (f v r')) ->
  reads (k1 + k2) Q r (let* (v, r') := m in f v r').
Proof.
  destruct m as [[v r']|e|]; simpl; [|done..].
  intros [HP Ha] Hf. specialize (Hf v r' HP (advance_sane _ _ _ Ha)).
  destruct (f v r') as [[w r'']|e|]; simpl in *; [|done..].
  destruct Hf. split; [done|]. by eapply advance_trans.
Qed.

Lemma reads_bind_done {A B} k (P : A -> Prop) (Q : B -> Prop) r m f :
  reads k P r m ->
  (forall v r', P v -> sane r' -> reads 0 Q r' (f v r')) ->
  reads k Q r (let* (v, r') := m in f v r').
Proof. intros. rewrite <- (Nat.add_0_r k). by eapply reads_bind. Qed.

Lemma reads_done {A} (P : A -> Prop) v r : P v -> sane r -> reads 0 P r (Done (v, r)).
Proof. intros ??. split; [done | by apply advance_refl]. Qed.

Lemma put_stack_mid bs pre old post :
  length bs = length old ->
  put_stack bs {| wbuf := pre ++ old ++ post; wpos := length pre |}
  = Done {| wbuf := pre ++ bs ++ post; wpos := length pre + length bs |}.
Proof.
  intros Hl. unfold put_stack; simpl. rewrite decide_True by len.
  by rewrite splice_mid.
Qed.

Lemma take_stack_at bs r :
  has_at (rbuf r) (rpos r) bs ->
  take_stack (length bs) r
  = Done (bs, {| rbuf := rbuf r; rpos := rpos r + length bs; hpos := hpos r |}).
Proof.
  intros H. unfold take_stack.
  rewrite decide_True by (by apply has_at_bound). by rewrite has_at_slice.
Qed.

Lemma take_heap_at bs r :
  has_at (rbuf r) (hpos r) bs ->
  take_heap (Z.of_nat (length bs)) r
  = Done (bs, {| rbuf := rbuf r; rpos := rpos r; hpos := hpos r + length bs |}).
Proof.
  intros H. pose proof (has_at_bound _ _ _ H). unfold take_heap.
  rewrite decide_True by lia. by rewrite Nat2Z.id, has_at_slice.
Qed.

Lemma take_stack_reads n r :
  sane r -> reads n (fun bs => length bs = n) r (take_stack n r).
Proof.
  intros [? ?]. unfold take_stack. case_decide; simpl; [|done].
  split; [by apply length_slice | repeat split; simpl; lia].
Qed.

Lemma take_heap_reads n r :
  0 <= n -> sane r -> reads 0 (fun bs => Z.of_nat (length bs) = n) r (take_heap n r).
Proof.
  intros ? [? ?]. unfold take_heap. case_decide; simpl; [|done].
  split; [rewrite length_slice; lia | repeat split; simpl; lia].
Qed.

Lemma read_uint_at n v r :
  fits (8 * Z.of_nat n) v -> has_at (rbuf r) (rpos r) (le_bytes n v) ->
  read_uint n r = Done (v, {| rbuf := rbuf r; rpos := rpos r + n; hpos := hpos r |}).
Proof.
  intros Hv H. unfold read_uint.
  pose proof (take_stack_at _ _ H) as E. rewrite length_le_bytes in E.
  rewrite E. simpl. by rewrite le_val_bytes.
Qed.

Lemma read_uint_reads n r :
  sane r -> reads n (fits (8 * Z.of_nat n)) r (read_uint n r).
Proof.
  intros Hr. unfold read_uint. eapply reads_bind_done; [by apply take_stack_reads|].
  intros bs r' <- ?. apply reads_done; [apply le_val_fits | done].
Qed.

Lemma region_at bs r :
  fits 32 (Z.of_nat (length bs)) ->
  has_at (rbuf r) (rpos r) (le_bytes 4 (Z.of_nat (length bs))) ->
  has_at (rbuf r) (hpos r) bs ->
  take_len_slot_region r
  = Done (bs, {| rbuf := rbuf r; rpos := rpos r + 4; hpos := hpos r + length bs |}).
Proof.
  intros Hf Hs Hh. unfold take_len_slot_region. rewrite (read_uint_at 4 _ _ Hf Hs).
  simpl. by rewrite take_heap_at.
Qed.

Lemma region_reads r : sane r -> reads 4 (fun _ => True) r (take_len_slot_region r).
Proof.
  intros Hr. unfold take_len_slot_region.
  eapply reads_bind_done; [by apply read_uint_reads|].
  intros n r' [Hn _] Hr'. pose proof (take_heap_reads n r' Hn Hr') as H.
  destruct (take_heap n r') as [[bs r'']|e|]; simpl in *; [|done..].
  split; [done | apply H].
Qed.

Lemma put_len_slot_mid n pre old post :
  length old = 4%nat -> fits 32 (Z.of_nat n) ->
  put_len_slot n {| wbuf := pre ++ old ++ post; wpos := length pre |}
  = Done {| wbuf := pre ++ le_bytes 4 (Z.of_nat n) ++ post; wpos := length pre + 4 |}.
Proof.
  intros Hl Hf. unfold put_len_slot. rewrite (proj2 (fitsb_spec _ _) Hf).
  rewrite put_stack_mid by len. by rewrite length_le_bytes.
Qed.

Lemma put_len_slot_overflow n w :
  fitsb 32 (Z.of_nat n) = false -> put_len_slot n w = Fail (LengthOverflow (Z.of_nat n)).
Proof. unfold put_len_slot. by intros ->. Qed.

Lemma with_unit_mid n f b p es eh :
  f {| wbuf := b ++ replicate n Byte.x00 ++ []; wpos := length b |}
  = Done {| wbuf := b ++ es ++ [] ++ eh; wpos := length b + n |} ->
  with_unit n f {| wbuf := b; wpos := p |} = Done {| wbuf := b ++ es ++ eh; wpos := p |}.
Proof.
  intros Hf. unfold with_unit; simpl. rewrite app_nil_r in Hf. rewrite Hf; simpl.
  by rewrite Nat.eqb_refl.
Qed.

Lemma with_unit_fail n f b p e :
  f {| wbuf := b ++ replicate n Byte.x00 ++ []; wpos := length b |} = Fail e ->
  with_unit n f {| wbuf := b; wpos := p |} = Fail e.
Proof. intros Hf. unfold with_unit; simpl. rewrite app_nil_r in Hf. by rewrite Hf. Qed.

(** ** Codecs without heap

    A codec that only puts [e v] in the stack section. *)
Definition fixed_ok {T} (c : Wire T) (wf : T -> Prop) (e : T -> list byte)
  (Hfix : FIXED c = true) (Hheap : forall v, heap_size c v = 0%nat)
  (Hlen : forall v, wf v -> length (e v) = STACK_SIZE c)
  (Hwrite : forall v w, wf v -> write_stack c v w = put_stack (e v) w)
  (Hread : forall v r, wf v -> has_at (rbuf r) (rpos r) (e v) ->
     read c r = Done (v, {| rbuf := rbuf r; rpos := rpos r + STACK_SIZE c;
                            hpos := hpos r |}))
  (Htotal : forall r, sane r -> reads (STACK_SIZE c) wf r (read c r)) :
  WireOk c wf.
Proof.
  refine {| enc_stack := e; enc_heap _ := []; slots_fit _ := true |}.
  - exact Hlen.
  - intros v _. by rewrite Hheap.
  - done.
  - congruence.
  - intros v pre post Hv _. rewrite Hwrite by done.
    rewrite put_stack_mid by (by rewrite Hlen, length_replicate).
    by rewrite app_nil_r, Hlen.
  - done.
  - intros v r Hv _ Hs _. simpl. rewrite Nat.add_0_r. by apply Hread.
  - exact Htotal.
Defined.

#[export] Instance uint_ok n : WireOk (wire_uint n) (fits (8 * Z.of_nat n)).
Proof.
  apply (fixed_ok _ _ (le_bytes n)); simpl; try done.
  - intros v _. apply length_le_bytes.
  - intros. by apply read_uint_at.
  - apply read_uint_reads.
Defined.

(** The values of the [w]-bit signed type. *)
Definition sfits (w z : Z) : Prop := - 2 ^ (w - 1) <= z < 2 ^ (w - 1).

Lemma pow_pred_double w : 0 < w -> 2 ^ w = 2 * 2 ^ (w - 1).
Proof. intros. rewrite <- Z.pow_succ_r by lia. f_equal. lia. Qed.

Lemma sign_of_wrap w z : 0 < w -> sfits w z -> sign_of w (wrap w z) = z.
Proof.
  intros Hw Hz. unfold sfits, sign_of, wrap in *.
  assert (2 ^ w = 2 * 2 ^ (w - 1)) as E by (by apply pow_pred_double).
  destruct (Z.ltb_spec z 0).
  - rewrite <- (Z.mod_unique_pos z (2 ^ w) (-1) (z + 2 ^ w)) by lia.
    destruct (Z.ltb_spec (z + 2 ^ w) (2 ^ (w - 1))); lia.
  - rewrite Z.mod_small by lia. destruct (Z.ltb_spec z (2 ^ (w - 1))); lia.
Qed.

Lemma sign_of_sfits w u : 0 < w -> fits w u -> sfits w (sign_of w u).
Proof.
  intros Hw Hu. unfold sfits, sign_of, fits in *.
  assert (2 ^ w = 2 * 2 ^ (w - 1)) as E by (by apply pow_pred_double).
  destruct (Z.ltb_spec u (2 ^ (w - 1))); lia.
Qed.

Lemma sint_reads n r :
  sane r -> reads (S n) (sfits (8 * Z.of_nat (S n))) r (read (wire_sint (S n)) r).
Proof.
  intros Hr. simpl read. eapply reads_bind_done; [by apply read_uint_reads|].
  intros v r' Hv ?. apply reads_done; [apply sign_of_sfits; [lia | done] | done].
Qed.

#[export] Instance sint_ok n : WireOk (wire_sint (S n)) (sfits (8 * Z.of_nat (S n))).
Proof.
  apply (fixed_ok _ _ (fun v => le_bytes (S n) (wrap (8 * Z.of_nat (S n)) v))).
  - done.
  - done.
  - intros v _. apply length_le_bytes.
  - done.
  - intros v r Hv H. simpl read.
    rewrite (read_uint_at _ (wrap (8 * Z.of_nat (S n)) v)); [|apply wrap_fits; lia|done].
    simpl obind. rewrite sign_of_wrap; [done | lia | done].
  - apply sint_reads.
Defined.

(** A codec that filters what another one reads, as [usize], [char] and the
    tags do. *)
Lemma filter_reads {A B} k (P : A -> Prop) (Q : B -> Prop) r m (b : A -> bool) f e :
  reads k P r m -> (forall v, P v -> b v = true -> Q (f v)) ->
  reads k Q r (let* (v, r') := m in if b v then Done (f v, r') else Fail (e v)).
Proof.
  intros Hm Hf. eapply reads_bind_done; [done|]. intros v r' Hv ?. simpl.
  destruct (b v) eqn:E; [apply reads_done; auto | done].
Qed.

#[export] Instance usize_ok ptr :
  WireOk (wire_usize ptr) (fun v => fits 64 v /\ fits ptr v).
Proof.
  apply (fixed_ok _ _ (le_bytes 8)); try done.
  - intros v r [Hv Hp] H. simpl. rewrite (read_uint_at 8 v) by done. simpl.
    by rewrite (proj2 (fitsb_spec _ _) Hp).
  - intros r Hr. eapply (filter_reads _ _ _ _ _ (fitsb ptr) (fun v => v));
      [by apply read_uint_reads | by intros v ? ?%fitsb_spec].
Defined.

#[export] Instance id_ok : WireOk wire_id (fits 128).
Proof.
  apply (fixed_ok _ _ (le_bytes 16)); try done.
  - intros. by apply read_uint_at.
  - intros. by apply read_uint_reads.
Defined.

Lemma read_flag_at b r :
  has_at (rbuf r) (rpos r) (le_bytes 1 (Z.b2z b)) ->
  read_flag r = Done (b, {| rbuf := rbuf r; rpos := rpos r + 1; hpos := hpos r |}).
Proof.
  intros H. unfold read_flag. rewrite (read_uint_at 1 (Z.b2z b)); [by destruct b| |done].
  by destruct b.
Qed.

Lemma read_flag_reads r : sane r -> reads 1 (fun _ => True) r (read_flag r).
Proof.
  intros Hr. unfold read_flag. eapply reads_bind_done; [by apply read_uint_reads|].
  intros v r' _ ?. simpl. repeat case_match; by try apply reads_done.
Qed.

#[export] Instance bool_ok : WireOk wire_bool (fun _ => True).
Proof.
  apply (fixed_ok _ _ (fun v => le_bytes 1 (Z.b2z v))); try done.
  - intros. by apply read_flag_at.
  - apply read_flag_reads.
Defined.

Lemma char_valid_fits c : char_valid c = true -> fits 32 c.
Proof. unfold char_valid, fits. lia. Qed.

#[export] Instance char_ok : WireOk wire_char (fun c => char_valid c = true).
Proof.
  apply (fixed_ok _ _ (le_bytes 4)); try done.
  - intros v r Hv H. simpl. rewrite (read_uint_at 4 v) by (done || by apply char_valid_fits).
    simpl. by rewrite Hv.
  - intros r Hr. eapply (filter_reads _ _ _ _ _ char_valid (fun v => v));
      [by apply read_uint_reads | done].
Defined.


(** ** Strings, sequences, options, products *)

#[export] Instance string_ok : WireOk wire_string (fun v => utf8_valid v = true).
Proof.
  refine {| enc_stack v := le_bytes 4 (Z.of_nat (length v)); enc_heap v := v;
            slots_fit v := fitsb 32 (Z.of_nat (length v)) |}; try done.
  - simpl. lia.
  - intros v pre post Hv Hf%fitsb_spec. cbn [write_stack wire_string STACK_SIZE].
    rewrite (put_len_slot_mid _ _ (replicate 4 Byte.x00)) by done. simpl.
    unfold put_heap; simpl. by rewrite <- !app_assoc.
  - intros v pre post _ Hf. eexists. simpl. by rewrite put_len_slot_overflow.
  - intros v r Hv Hf%fitsb_spec Hs Hh. simpl. rewrite (region_at _ _ Hf Hs Hh). simpl.
    by rewrite Hv.
  - intros r Hr. eapply (filter_reads _ _ _ _ _ utf8_valid (fun v => v));
      [by apply region_reads | done].
Defined.

#[export] Instance wunit_ok : WireOk wire_unit (fun _ => True).
Proof.
  refine {| enc_stack _ := []; enc_heap _ := []; slots_fit _ := true |}; try done.
  - intros v pre post _ _. simpl. by rewrite app_nil_r, Nat.add_0_r.
  - intros [] [b p h] _ _ _ _. simpl. by rewrite !Nat.add_0_r.
  - intros r Hr. by apply reads_done.
Defined.

(** ** Decoding alone *)

Section decoding.
Context {T : Type} (c : Wire T) (wf : T -> Prop) `{!Decodes c wf}.

Lemma read_n_reads n r :
  sane r ->
  reads (n * STACK_SIZE c) (fun vs => Forall wf vs /\ length vs = n) r (read_n c n r).
Proof.
  revert r. induction n as [|n IH]; intros r Hr; simpl; [by apply reads_done|].
  eapply reads_bind; [by apply de_total|]. intros v r' Hv Hr'.
  eapply reads_bind_done; [by apply IH|]. intros vs r'' [Hvs <-] Hr''.
  apply reads_done; [split; [by constructor | done] | done].
Qed.

Lemma read_unit_total buf offset :
  match read_unit c buf offset with
  | Done (v, next) => wf v /\ (offset + STACK_SIZE c <= next <= length buf)%nat
  | Fail _ => True
  | Fault => False
  end.
Proof.
  unfold read_unit. case_decide as Hd; [|done].
  set (r := {| rbuf := buf; rpos := offset; hpos := offset + STACK_SIZE c |}).
  assert (sane r) as Hr by (unfold sane; simpl; lia).
  pose proof (de_total r Hr) as H.
  destruct (read c r) as [[v r']| |]; simpl in *; [|done..].
  destruct H as [Hv (Eb & Ep & ? & ? & ?)]. simpl in *.
  rewrite Ep, Nat.eqb_refl. simpl. split; [done | lia].
Qed.

Lemma read_units_total fuel buf offset :
  FIXED c = false -> (length buf <= offset + fuel)%nat ->
  match read_units c fuel buf offset with
  | Done (vs, _) => Forall wf vs
  | Fail _ => True
  | Fault => False
  end.
Proof.
  intros Hdyn. pose proof (de_dynamic Hdyn) as HS. revert offset.
  induction fuel as [|fuel IH]; intros offset Hfuel; simpl; case_decide; try done; [lia|].
  pose proof (read_unit_total buf offset) as Hu.
  destruct (read_unit c buf offset) as [[v next]| |]; simpl in *; [|done..].
  destruct Hu as [Hv Hnext]. specialize (IH next ltac:(lia)).
  destruct (read_units c fuel buf next) as [[vs last]| |]; simpl in *; [|done..].
  by constructor.
Qed.

Lemma vec_read_region_total region :
  match vec_read_region c region with
  | Done vs => Forall wf vs
  | Fail _ => True
  | Fault => False
  end.
Proof.
  unfold vec_read_region. destruct (FIXED c) eqn:E.
  - destruct (_ || _); [done|].
    set (r := {| rbuf := region; rpos := 0; hpos := length region |}).
    assert (sane r) as Hr by (unfold sane; simpl; lia).
    pose proof (read_n_reads (length region / STACK_SIZE c) r Hr) as H'.
    destruct (read_n _ _ r) as [[vs r']| |]; simpl in *; [|done..]. apply H'.
  - pose proof (read_units_total (length region) region 0 E ltac:(lia)) as H'.
    destruct (read_units _ _ _ _) as [[vs last]| |]; simpl in *; [|done..].
    by destruct (Nat.eqb _ _).
Qed.

Lemma read_variant_total region :
  match read_variant c region with Done v => wf v | Fail _ => True | Fault => False end.
Proof.
  unfold read_variant, for_unit. case_decide; [done|]. simpl.
  set (r := {| rbuf := _; rpos := _; hpos := _ |}).
  assert (sane r) as Hr by (unfold sane; simpl; lia).
  pose proof (de_total r Hr) as H'.
  destruct (read c r) as [[v r']| |]; simpl in *; [|done..].
  unfold finish_unit. destruct (Nat.eqb _ _); simpl; [apply H' | done].
Qed.

Lemma from_wire_ok bs :
  match from_wire c bs with Done v => wf v | Fail _ => True | Fault => False end.
Proof.
  unfold from_wire. pose proof (read_unit_total bs 0) as H.
  destruct (read_unit c bs 0) as [[v n]| |]; simpl in *; [|done..].
  destruct (Nat.eqb _ _); [apply H | done].
Qed.

Lemma from_wire_length v bs :
  from_wire c bs = Done v -> (STACK_SIZE c <= length bs)%nat.
Proof.
  unfold from_wire. pose proof (read_unit_total bs 0) as H.
  destruct (read_unit c bs 0) as [[w n]| |]; simpl in *; [|done..]. lia.
Qed.

Lemma struct_decodes {B} (fields : B -> T) (build : T -> B) (Q : B -> Prop) :
  (forall x, wf x -> Q (build x)) -> Decodes (wire_struct fields build c) Q.
Proof.
  intros Hb. split; [apply (de_dynamic (c := c))|]. intros r Hr. simpl.
  eapply reads_bind_done; [by apply de_total|]. intros x r' Hx ?. apply reads_done; auto.
Qed.

Lemma vec_decodes : Decodes (wire_vec c) (Forall wf).
Proof.
  split; [simpl; lia|]. intros r Hr. simpl. eapply reads_bind_done; [by apply region_reads|].
  intros region r' _ Hr'. pose proof (vec_read_region_total region) as H.
  destruct (vec_read_region c region); simpl; [by apply reads_done | done..].
Qed.

Lemma array_decodes n : Decodes (wire_array (S n) c) (fun vs => Forall wf vs /\ length vs = S n).
Proof.
  split; [|intros r Hr; by apply read_n_reads]. intros E. cbn in *. pose proof (de_dynamic (c := c) E). lia.
Qed.

Lemma option_decodes : Decodes (wire_option c) (fun o => forall v, o = Some v -> wf v).
Proof.
  split; [simpl; lia|]. intros r Hr. cbn [read wire_option STACK_SIZE].
  change (S (STACK_SIZE c)) with (1 + STACK_SIZE c)%nat.
  eapply reads_bind; [by apply read_flag_reads|]. intros [] r' _ Hr'.
  - eapply reads_bind_done; [by apply de_total|]. intros v r'' Hv Hr''.
    apply reads_done; [by intros ? [= <-] | done].
  - unfold rskip_stack. pose proof (take_stack_reads (STACK_SIZE c) r' Hr') as H.
    destruct (take_stack _ _) as [[]| |]; simpl in *; [|done..]. by destruct H.
Qed.

Lemma pair_decodes {B} (b : Wire B) (Q : B -> Prop) `{!Decodes b Q} :
  Decodes (wire_pair c b) (fun v => wf v.1 /\ Q v.2).
Proof.
  split.
  - intros [Ha|Hb]%andb_false_iff; simpl; [pose proof (de_dynamic (c := c) Ha) | pose proof (de_dynamic (c := b) Hb)]; lia.
  - intros r Hr. simpl. eapply reads_bind; [by apply de_total|]. intros x r' Hx Hr'.
    eapply reads_bind_done; [by apply de_total|]. intros y r'' Hy Hr''. by apply reads_done.
Qed.
End decoding.

(** The same of the match arms of an enum with payload, and of the enum. *)
Definition cases_decode {A} (vs : Variants A) (P : A -> Prop) : Prop := forall tag region,
  match v_read vs tag region with
  | Some (Done v) => P v
  | Some Fault => False
  | _ => True
  end.

Definition sum_wf {A B} (P : A -> Prop) (Q : B -> Prop) (v : A + B) : Prop :=
  match v with inl a => P a | inr b => Q b end.

Lemma variant_decodes {A} (c : Wire A) P `{!Decodes c P} : cases_decode (variant c) P.
Proof. intros [|tag] region; [by apply read_variant_total | done]. Qed.

Lemma variant_or_decodes {A B} (c : Wire A) P `{!Decodes c P} (vs : Variants B) Q :
  cases_decode vs Q -> cases_decode (variant_or c vs) (sum_wf P Q).
Proof.
  intros Hvs [|tag] region; simpl.
  - pose proof (read_variant_total c P region). by destruct (read_variant c region).
  - pose proof (Hvs tag region). by destruct (v_read vs tag region) as [[]|].
Qed.

Lemma enum_decodes {A T} name (cases : T -> A) (build : A -> T) vs (P : A -> Prop) (Q : T -> Prop) :
  cases_decode vs P -> (forall x, P x -> Q (build x)) -> Decodes (wire_enum name cases build vs) Q.
Proof.
  intros Hvs Hb. split; [simpl; lia|]. intros r Hr. cbn [read wire_enum STACK_SIZE wire_uint].
  eapply (reads_bind 1 4); [by apply read_uint_reads|]. intros tag r' _ Hr'.
  eapply reads_bind_done; [by apply region_reads|]. intros region r'' _ Hr''.
  pose proof (Hvs (Z.to_nat tag) region) as H.
  destruct (v_read vs _ region) as [[x| |]|]; simpl; [|done..].
  apply reads_done; auto.
Qed.

Lemma unit_enum_decodes {T} name (variants : list T) tag_of :
  Decodes (wire_unit_enum name variants tag_of) (fun v => v ∈ variants).
Proof.
  split; [done|]. intros r Hr. simpl. eapply reads_bind_done; [by apply read_uint_reads|].
  intros tag r' _ Hr'. simpl. destruct (variants !! _) as [v|] eqn:E; [|done].
  apply reads_done; [by eapply list_elem_of_lookup_2 | done].
Qed.

Section pair.
Context {A B : Type} (a : Wire A) (b : Wire B) (P : A -> Prop) (Q : B -> Prop).
Context `{!WireOk a P, !WireOk b Q}.

#[export] Instance pair_ok : WireOk (wire_pair a b) (fun v => P v.1 /\ Q v.2).
Proof.
  refine {| enc_stack v := enc_stack a v.1 ++ enc_stack b v.2;
            enc_heap v := enc_heap a v.1 ++ enc_heap b v.2;
            slots_fit v := slots_fit a v.1 && slots_fit b v.2 |}.
  - intros v [??]. simpl. rewrite length_app, !ok_stack; done.
  - intros v [??]. simpl. rewrite length_app, <- !ok_heap; done.
  - intros [Ha Hb]%andb_true_iff v [HP HQ].
    destruct (ok_fixed Ha _ HP) as [-> ->]. by destruct (ok_fixed Hb _ HQ) as [-> ->].
  - intros H. cbn in *. apply andb_false_iff in H as [H|H];
      apply ok_dynamic in H; lia.
  - intros v pre post [HP HQ] [Ha Hb]%andb_true_iff. simpl.
    rewrite replicate_add, <- app_assoc, ok_write by done. simpl.
    pose proof (ok_write v.2 (pre ++ enc_stack a v.1) (post ++ enc_heap a v.1) HQ Hb) as E.
    rewrite length_app, ok_stack, <- !app_assoc in E by done. rewrite <- ?app_assoc, E.
    by rewrite <- ?app_assoc, Nat.add_assoc.
  - intros v pre post [HP HQ] H. simpl.
    rewrite replicate_add, <- app_assoc. destruct (slots_fit a v.1) eqn:Ha.
    + rewrite ok_write by done. simpl in *.
      destruct (ok_unfit v.2 (pre ++ enc_stack a v.1) (post ++ enc_heap a v.1) HQ H) as [n E].
      rewrite length_app, ok_stack, <- !app_assoc in E by done. rewrite <- ?app_assoc, E. by exists n.
    + destruct (ok_unfit v.1 pre (replicate (STACK_SIZE b) Byte.x00 ++ post) HP Ha) as [n E].
      rewrite E. by exists n.
  - intros v r [HP HQ] [Ha Hb]%andb_true_iff [Hs1 Hs2]%has_at_app [Hh1 Hh2]%has_at_app.
    simpl. rewrite (ok_read _ _ HP Ha Hs1 Hh1). simpl.
    rewrite ok_stack in Hs2 by done.
    rewrite (ok_read v.2 _ HQ Hb) by done. simpl.
    by rewrite <- surjective_pairing, length_app, !Nat.add_assoc.
  - apply (de_total (Decodes := pair_decodes a P b Q)).
Defined.
End pair.

Section struct.
Context {A B : Type} (fields : B -> A) (build : A -> B) (c : Wire A).
Context (P : A -> Prop) (Q : B -> Prop) `{!WireOk c P}.

(** A struct's contract, from the contract of its field sequence. *)
Definition struct_ok
  (Hget : forall v, Q v -> P (fields v)) (Hbuild : forall x, P x -> Q (build x))
  (Hinv : forall v, Q v -> build (fields v) = v) :
  WireOk (wire_struct fields build c) Q.
Proof.
  refine {| enc_stack v := enc_stack c (fields v);
            enc_heap v := enc_heap c (fields v);
            slots_fit v := slots_fit c (fields v) |}.
  - intros v Hv. apply (ok_stack (fields v)). auto.
  - intros v Hv. apply (ok_heap (fields v)). auto.
  - intros H v Hv. apply (ok_fixed (c := c) H (fields v)). auto.
  - apply (ok_dynamic (c := c)).
  - intros v pre post Hv Hf. apply (ok_write (fields v)); auto.
  - intros v pre post Hv Hf. apply (ok_unfit (fields v)); auto.
  - intros v r Hv Hf Hs Hh. simpl.
    rewrite (ok_read _ _ (Hget _ Hv) Hf Hs Hh). simpl. by rewrite Hinv.
  - apply (de_total (Decodes := struct_decodes c P fields build Q Hbuild)).
Defined.
End struct.

Section containers.
Context {T : Type} (c : Wire T) (wf : T -> Prop) `{!WireOk c wf}.
Implicit Types (vs : list T).

Definition stacks vs : list byte := concat (map (enc_stack c) vs).
Definition heaps vs : list byte := concat (map (enc_heap c) vs).
Definition units vs : list byte := concat (map (enc c) vs).

Lemma length_stacks vs : Forall wf vs -> length (stacks vs) = (length vs * STACK_SIZE c)%nat.
Proof.
  induction 1 as [|v vs Hv _ IH]; [done|]. unfold stacks in *; simpl.
  by rewrite length_app, IH, ok_stack.
Qed.

Lemma length_heaps vs : Forall wf vs -> sum_list (map (heap_size c) vs) = length (heaps vs).
Proof.
  induction 1 as [|v vs Hv _ IH]; [done|]. unfold heaps in *; simpl.
  by rewrite length_app, IH, ok_heap.
Qed.

Lemma length_enc v : wf v -> length (enc c v) = (STACK_SIZE c + heap_size c v)%nat.
Proof. intros. unfold enc. by rewrite length_app, ok_stack, ok_heap. Qed.

Lemma length_units vs :
  Forall wf vs ->
  sum_list (map (fun e => STACK_SIZE c + heap_size c e)%nat vs) = length (units vs).
Proof.
  induction 1 as [|v vs Hv _ IH]; [done|]. unfold units in *; simpl.
  by rewrite length_app, IH, length_enc.
Qed.

Lemma fixed_heaps vs : FIXED c = true -> Forall wf vs -> heaps vs = [].
Proof.
  intros Hf. induction 1 as [|v vs Hv _ IH]; [done|]. unfold heaps in *; simpl.
  by rewrite IH, (proj1 (ok_fixed Hf v Hv)).
Qed.

Lemma fixed_fits vs : FIXED c = true -> Forall wf vs -> forallb (slots_fit c) vs = true.
Proof.
  intros Hf. induction 1 as [|v vs Hv _ IH]; simpl; [done|].
  by rewrite IH, (proj2 (ok_fixed Hf v Hv)).
Qed.

Lemma write_each_ok vs pre post :
  Forall wf vs -> forallb (slots_fit c) vs = true ->
  write_each c vs
    {| wbuf := pre ++ replicate (length vs * STACK_SIZE c) Byte.x00 ++ post;
       wpos := length pre |}
  = Done {| wbuf := pre ++ stacks vs ++ post ++ heaps vs;
            wpos := length pre + length vs * STACK_SIZE c |}.
Proof.
  unfold write_each. intros Hwf. revert pre post.
  induction Hwf as [|v vs Hv _ IH]; intros pre post; simpl.
  - intros _. by rewrite Nat.add_0_r, app_nil_r.
  - intros [Hf Hfs]%andb_true_iff.
    rewrite replicate_add, <- app_assoc, ok_write by done. simpl.
    specialize (IH (pre ++ enc_stack c v) (post ++ enc_heap c v) Hfs).
    rewrite length_app, ok_stack, <- !app_assoc in IH by done.
    rewrite <- ?app_assoc, IH. unfold stacks, heaps; simpl.
    by rewrite <- ?app_assoc, Nat.add_assoc.
Qed.

Lemma write_each_unfit vs pre post :
  Forall wf vs -> forallb (slots_fit c) vs = false ->
  exists n, write_each c vs
    {| wbuf := pre ++ replicate (length vs * STACK_SIZE c) Byte.x00 ++ post;
       wpos := length pre |} = Fail (LengthOverflow n).
Proof.
  unfold write_each. intros Hwf. revert pre post.
  induction Hwf as [|v vs Hv _ IH]; intros pre post; simpl; [done|].
  intros H. rewrite replicate_add, <- app_assoc. destruct (slots_fit c v) eqn:Hf.
  - rewrite ok_write by done. simpl in *.
    destruct (IH (pre ++ enc_stack c v) (post ++ enc_heap c v) H) as [n E].
    rewrite length_app, ok_stack, <- !app_assoc in E by done.
    rewrite <- ?app_assoc, E. by exists n.
  - destruct (ok_unfit v pre (replicate (length vs * STACK_SIZE c) Byte.x00 ++ post) Hv Hf)
      as [n E]. rewrite E. by exists n.
Qed.

Lemma read_n_at vs r :
  Forall wf vs -> forallb (slots_fit c) vs = true ->
  has_at (rbuf r) (rpos r) (stacks vs) -> has_at (rbuf r) (hpos r) (heaps vs) ->
  read_n c (length vs) r
  = Done (vs, {| rbuf := rbuf r; rpos := rpos r + length vs * STACK_SIZE c;
                 hpos := hpos r + length (heaps vs) |}).
Proof.
  intros Hwf. revert r. induction Hwf as [|v vs Hv Hwf IH]; intros r; simpl.
  - intros _ _ _. rewrite !Nat.add_0_r. by destruct r.
  - intros [Hf Hfs]%andb_true_iff [Hs1 Hs2]%has_at_app [Hh1 Hh2]%has_at_app.
    rewrite (ok_read _ _ Hv Hf Hs1 Hh1). simpl. rewrite ok_stack in Hs2 by done.
    rewrite IH by done. simpl. unfold heaps; simpl.
    by rewrite length_app, !Nat.add_assoc.
Qed.

(** *** Units *)

Lemma put_unit_ok v b p :
  wf v -> slots_fit c v = true ->
  put_unit c v {| wbuf := b; wpos := p |} = Done {| wbuf := b ++ enc c v; wpos := p |}.
Proof. intros Hv Hf. apply with_unit_mid. by rewrite ok_write. Qed.

Lemma read_unit_at v buf offset :
  wf v -> slots_fit c v = true -> has_at buf offset (enc c v) ->
  read_unit c buf offset = Done (v, (offset + length (enc c v))%nat).
Proof.
  intros Hv Hf Ha. pose proof (has_at_bound _ _ _ Ha) as Hb.
  apply has_at_app in Ha as [Hs Hh]. unfold enc in *. rewrite length_app, ok_stack in * by done.
  unfold read_unit. rewrite decide_True by lia.
  rewrite (ok_read v) by done. simpl. rewrite Nat.eqb_refl. simpl. by rewrite Nat.add_assoc.
Qed.


Lemma put_units_ok vs b p :
  Forall wf vs -> forallb (slots_fit c) vs = true ->
  ofold (fun w e => put_unit c e w) {| wbuf := b; wpos := p |} vs
  = Done {| wbuf := b ++ units vs; wpos := p |}.
Proof.
  intros Hwf. revert b. induction Hwf as [|v vs Hv _ IH]; intros b; simpl.
  - intros _. unfold units. by rewrite app_nil_r.
  - intros [Hf Hfs]%andb_true_iff. rewrite put_unit_ok by done. simpl.
    rewrite IH by done. unfold units; simpl. by rewrite app_assoc.
Qed.

Lemma put_units_unfit vs b p :
  Forall wf vs -> forallb (slots_fit c) vs = false ->
  exists n, ofold (fun w e => put_unit c e w) {| wbuf := b; wpos := p |} vs
            = Fail (LengthOverflow n).
Proof.
  intros Hwf. revert b. induction Hwf as [|v vs Hv _ IH]; intros b; simpl; [done|].
  destruct (slots_fit c v) eqn:Hf; simpl; intros H.
  - rewrite put_unit_ok by done. by apply IH.
  - destruct (ok_unfit v b [] Hv Hf) as [n E]. exists n.
    unfold put_unit. by erewrite with_unit_fail.
Qed.
End containers.

Section vec.
Context {T : Type} (c : Wire T) (wf : T -> Prop) `{!WireOk c wf}.
Implicit Types (vs : list T).

(** The heap section of a vector: stack slots of fixed elements, units of
    the others. *)
Definition vec_enc vs : list byte := if FIXED c then stacks c wf vs else units c wf vs.

Lemma length_vec_enc vs : Forall wf vs -> vec_heap_size c vs = length (vec_enc vs).
Proof.
  intros H. unfold vec_heap_size, vec_enc.
  destruct (FIXED c); [by rewrite length_stacks | by apply length_units].
Qed.

Lemma read_units_at fuel vs buf offset :
  FIXED c = false -> Forall wf vs -> forallb (slots_fit c) vs = true ->
  has_at buf offset (units c wf vs) -> (offset + length (units c wf vs))%nat = length buf ->
  (length (units c wf vs) <= fuel)%nat ->
  read_units c fuel buf offset = Done (vs, length buf).
Proof.
  intros Hdyn Hwf. pose proof (ok_dynamic Hdyn) as HS. revert fuel offset.
  induction Hwf as [|v vs Hv Hwf IH]; intros fuel offset.
  - intros _ _ E _. simpl in E. destruct fuel; simpl;
      (rewrite decide_False by lia); do 2 f_equal; lia.
  - intros [Hf Hfs]%andb_true_iff Hat E Hfuel.
    unfold units in *; simpl in *. apply has_at_app in Hat as [H1 H2].
    rewrite length_app in *. pose proof (length_enc c wf v Hv).
    destruct fuel as [|fuel]; [lia|]. simpl. rewrite decide_True by lia.
    rewrite (read_unit_at c wf v) by done. simpl.
    rewrite IH by (done || lia). done.
Qed.

Lemma vec_read_region_at vs :
  (FIXED c = true -> STACK_SIZE c <> 0%nat) ->
  Forall wf vs -> forallb (slots_fit c) vs = true ->
  vec_read_region c (vec_enc vs) = Done vs.
Proof.
  intros HS Hwf Hf. unfold vec_read_region, vec_enc. destruct (FIXED c) eqn:E.
  - specialize (HS eq_refl). apply Nat.eqb_neq in HS as HS'. rewrite HS'.
    rewrite length_stacks, Nat.Div0.mod_mul, Nat.eqb_refl, Nat.div_mul by done. simpl.
    rewrite (read_n_at c wf); [done..|apply has_at_all|].
    rewrite fixed_heaps by done. apply has_at_nil_at. simpl. by rewrite length_stacks.
  - rewrite (read_units_at _ vs) by (done || apply has_at_all). simpl. by rewrite Nat.eqb_refl.
Qed.

End vec.

(** A zero-size fixed element is the one case a vector does not decode. *)
Class Sized {T} (c : Wire T) : Prop := sized : FIXED c = true -> STACK_SIZE c <> 0%nat.

#[export] Hint Extern 0 (Sized _) => (intros _; simpl; lia) : typeclass_instances.

#[export] Instance vec_ok {T} (c : Wire T) wf `{!WireOk c wf, !Sized c} :
  WireOk (wire_vec c) (Forall wf).
Proof.
  refine {| enc_stack vs := le_bytes 4 (Z.of_nat (length (vec_enc c wf vs)));
            enc_heap vs := vec_enc c wf vs;
            slots_fit vs := fitsb 32 (Z.of_nat (length (vec_enc c wf vs)))
                            && forallb (slots_fit c) vs |}.
  - intros vs _. apply length_le_bytes.
  - intros vs Hvs. by apply length_vec_enc.
  - done.
  - simpl. lia.
  - intros vs pre post Hvs [Hl%fitsb_spec Hf]%andb_true_iff.
    cbn [write_stack wire_vec STACK_SIZE]. rewrite (length_vec_enc c wf) by done.
    rewrite put_len_slot_mid by done. simpl. unfold vec_enc. destruct (FIXED c) eqn:E.
    + rewrite (with_unit_mid _ _ _ _ (stacks c wf vs) (heaps c wf vs)).
      * rewrite fixed_heaps, app_nil_r by done. by rewrite <- !app_assoc.
      * by apply write_each_ok.
    + rewrite (put_units_ok c wf) by done. by rewrite <- !app_assoc.
  - intros vs pre post Hvs H. cbn [write_stack wire_vec STACK_SIZE].
    rewrite (length_vec_enc c wf) by done.
    destruct (fitsb 32 _) eqn:Hl; [|eexists; by rewrite put_len_slot_overflow].
    apply fitsb_spec in Hl. rewrite put_len_slot_mid by done. simpl in H |- *.
    destruct (FIXED c) eqn:E; [by rewrite fixed_fits in H|].
    by apply (put_units_unfit c wf).
  - intros vs r Hvs [Hl%fitsb_spec Hf]%andb_true_iff Hs Hh. simpl.
    rewrite (region_at _ _ Hl Hs Hh). simpl.
    by rewrite (vec_read_region_at c wf) by (done || apply sized).
  - by apply (de_total (Decodes := vec_decodes c wf)).
Defined.

#[export] Instance array_ok {T} n (c : Wire T) wf `{!WireOk c wf} :
  WireOk (wire_array (S n) c) (fun vs => Forall wf vs /\ length vs = S n).
Proof.
  refine {| enc_stack := stacks c wf; enc_heap := heaps c wf;
            slots_fit vs := forallb (slots_fit c) vs |}.
  - intros vs [Hvs Hl]. by rewrite length_stacks, Hl.
  - intros vs [Hvs _]. cbn. destruct (FIXED c) eqn:E;
      [by rewrite fixed_heaps | by apply length_heaps].
  - intros E vs [Hvs _]. split; [by apply fixed_heaps | by apply fixed_fits].
  - intros E. cbn in *. pose proof (ok_dynamic (c := c) E). lia.
  - intros vs pre post [Hvs <-] Hf. by apply write_each_ok.
  - intros vs pre post [Hvs <-] Hf. by apply (write_each_unfit c wf).
  - intros vs r [Hvs <-] Hf Hs Hh. by apply (read_n_at c wf).
  - by apply (de_total (Decodes := array_decodes c wf n)).
Defined.

#[export] Instance option_ok {T} (c : Wire T) wf `{!WireOk c wf} :
  WireOk (wire_option c) (fun o => forall v, o = Some v -> wf v).
Proof.
  refine {|
    enc_stack o := match o with
                   | Some v => le_bytes 1 1 ++ enc_stack c v
                   | None => le_bytes 1 0 ++ replicate (STACK_SIZE c) Byte.x00
                   end;
    enc_heap o := match o with Some v => enc_heap c v | None => [] end;
    slots_fit o := match o with Some v => slots_fit c v | None => true end |}.
  - intros [v|] Hv; simpl; rewrite length_app, length_le_bytes;
      [by rewrite ok_stack by auto | by rewrite length_replicate].
  - intros [v|] Hv; [apply (ok_heap v); auto | done].
  - intros E [v|] Hv; [apply (ok_fixed (c := c) E v); auto | done].
  - simpl. lia.
  - intros [v|] pre post Hv Hf.
    + cbn [write_stack wire_option STACK_SIZE]. replace [Byte.x01] with (le_bytes 1 1) by done.
      change (S (STACK_SIZE c)) with (1 + STACK_SIZE c)%nat. rewrite replicate_add, <- app_assoc.
      rewrite put_stack_mid by (by rewrite length_replicate).
      rewrite length_le_bytes. cbn [obind].
      pose proof (ok_write v (pre ++ le_bytes 1 1) post (Hv _ eq_refl) Hf) as E.
      rewrite length_app, length_le_bytes, <- !app_assoc in E. rewrite E.
      by rewrite <- ?app_assoc, Nat.add_assoc.
    + cbn [write_stack wire_option STACK_SIZE]. replace [Byte.x00] with (le_bytes 1 0) by done.
      change (S (STACK_SIZE c)) with (1 + STACK_SIZE c)%nat. rewrite replicate_add, <- app_assoc.
      rewrite put_stack_mid by (by rewrite length_replicate).
      rewrite length_le_bytes. cbn [obind]. unfold wskip_stack; cbn [wbuf wpos].
      by rewrite <- ?app_assoc, app_nil_r, Nat.add_assoc.
  - intros [v|] pre post Hv Hf; [|done].
    cbn [write_stack wire_option STACK_SIZE]. replace [Byte.x01] with (le_bytes 1 1) by done.
    change (S (STACK_SIZE c)) with (1 + STACK_SIZE c)%nat. rewrite replicate_add, <- app_assoc.
    rewrite put_stack_mid by (by rewrite length_replicate).
    rewrite length_le_bytes. cbn [obind].
    destruct (ok_unfit v (pre ++ le_bytes 1 1) post (Hv _ eq_refl) Hf) as [n E].
    rewrite length_app, length_le_bytes, <- !app_assoc in E. rewrite E. by exists n.
  - intros [v|] r Hv Hf [Hs1 Hs2]%has_at_app Hh; cbn [read wire_option STACK_SIZE];
      rewrite length_le_bytes in Hs2.
    + rewrite (read_flag_at true) by done. simpl. rewrite (ok_read v) by auto. simpl.
      by rewrite <- Nat.add_assoc.
    + rewrite (read_flag_at false) by done. simpl. unfold rskip_stack.
      set (r' := {| rbuf := rbuf r; rpos := rpos r + 1; hpos := hpos r |}).
      pose proof (take_stack_at _ r' Hs2) as E. rewrite length_replicate in E. rewrite E.
      simpl. rewrite Nat.add_0_r. by rewrite <- Nat.add_assoc.
  - by apply (de_total (Decodes := option_decodes c wf)).
Defined.

(** The contract of a boxed value is the value's. *)
#[export] Instance box_ok {T} (c : Wire T) wf `{H : !WireOk c wf} : WireOk (wire_box c) wf.
Proof. exact (struct_ok (fun v => v) (fun v => v) c wf wf (fun _ h => h) (fun _ h => h) (fun _ _ => eq_refl)). Defined.

(** ** Enums *)

Definition unit_enum_ok {T} name (variants : list T) (tag_of : T -> nat)
  (Hlen : (length variants <= 256)%nat)
  (Hinv : forall v, variants !! tag_of v = Some v) :
  WireOk (wire_unit_enum name variants tag_of) (fun _ => True).
Proof.
  assert (forall v, fits (8 * Z.of_nat 1) (Z.of_nat (tag_of v))) as Hfits.
  { intros v. pose proof (lookup_lt_Some _ _ _ (Hinv v)). unfold fits; simpl. lia. }
  apply (fixed_ok _ _ (fun v => le_bytes 1 (Z.of_nat (tag_of v)))); try done.
  - intros v r _ H. simpl. rewrite (read_uint_at 1 (Z.of_nat (tag_of v))) by done. simpl.
    by rewrite Nat2Z.id, Hinv.
  - intros r Hr. simpl. eapply reads_bind_done; [by apply read_uint_reads|].
    intros tag r' _ Hr'. simpl. case_match; [by apply reads_done | done].
Defined.

(** The contract of the match arms of an enum with payload. *)
Class VariantsOk {T} (vs : Variants T) (wf : T -> Prop) : Type := {
  venc_stack : T -> list byte;
  venc_heap : T -> list byte;
  v_fits : T -> bool;
  vok_tag : forall v, (v_tag vs v < v_count vs)%nat;
  vok_stack : forall v, wf v -> length (venc_stack v) = v_stack vs v;
  vok_heap : forall v, wf v -> v_heap vs v = length (venc_heap v);
  vok_write : forall v b, wf v -> v_fits v = true ->
    v_write vs v {| wbuf := b ++ replicate (v_stack vs v) Byte.x00 ++ []; wpos := length b |}
    = Done {| wbuf := b ++ venc_stack v ++ [] ++ venc_heap v;
              wpos := length b + v_stack vs v |};
  vok_unfit : forall v b, wf v -> v_fits v = false ->
    exists n, v_write vs v
      {| wbuf := b ++ replicate (v_stack vs v) Byte.x00 ++ []; wpos := length b |}
      = Fail (LengthOverflow n);
  vok_read : forall v, wf v -> v_fits v = true ->
    v_read vs (v_tag vs v) (venc_stack v ++ venc_heap v) = Some (Done v);
  vok_total : forall tag region,
    match v_read vs tag region with
    | Some (Done v) => wf v
    | Some Fault => False
    | _ => True
    end
}.
Arguments venc_stack {T} vs {wf _} v.
Arguments venc_heap {T} vs {wf _} v.
Arguments v_fits {T} vs {wf _} v.

Section variants.
Context {A : Type} (c : Wire A) (P : A -> Prop) `{!WireOk c P}.

Lemma read_variant_at v :
  P v -> slots_fit c v = true -> read_variant c (enc c v) = Done v.
Proof.
  intros Hv Hf. unfold read_variant, for_unit, enc.
  rewrite decide_False by (rewrite length_app, ok_stack; [lia | done]). simpl.
  set (r := {| rbuf := _; rpos := 0; hpos := _ |}).
  assert (has_at (rbuf r) 0 (enc c v)) as [Hs Hh]%has_at_app by apply has_at_all.
  rewrite ok_stack in Hh by done. rewrite (ok_read v r) by done. simpl.
  unfold finish_unit; simpl. rewrite length_app, ok_stack by done.
  by rewrite Nat.eqb_refl.
Qed.

#[export] Instance variant_ok : VariantsOk (variant c) P.
Proof.
  refine {| venc_stack := enc_stack c; venc_heap := enc_heap c; v_fits := slots_fit c |};
    simpl; try done.
  - lia.
  - apply ok_stack.
  - apply ok_heap.
  - intros v b Hv Hf. exact (ok_write v b [] Hv Hf).
  - intros v b Hv Hf. exact (ok_unfit v b [] Hv Hf).
  - intros v Hv Hf. f_equal. by apply read_variant_at.
  - exact (variant_decodes c P).
Defined.

Context {B : Type} (vs : Variants B) (Q : B -> Prop) `{!VariantsOk vs Q}.

#[export] Instance variant_or_ok : VariantsOk (variant_or c vs) (sum_wf P Q).
Proof.
  refine {|
    venc_stack v := match v with inl a => enc_stack c a | inr b => venc_stack vs b end;
    venc_heap v := match v with inl a => enc_heap c a | inr b => venc_heap vs b end;
    v_fits v := match v with inl a => slots_fit c a | inr b => v_fits vs b end |}.
  - intros [a|b]; simpl; [lia|]. pose proof (vok_tag (vs := vs) b). lia.
  - intros [a|b] Hv; [exact (ok_stack a Hv) | exact (vok_stack b Hv)].
  - intros [a|b] Hv; [exact (ok_heap a Hv) | exact (vok_heap b Hv)].
  - intros [a|b] buf Hv Hf; [exact (ok_write a buf [] Hv Hf) | exact (vok_write b buf Hv Hf)].
  - intros [a|b] buf Hv Hf; [exact (ok_unfit a buf [] Hv Hf) | exact (vok_unfit b buf Hv Hf)].
  - intros [a|b] Hv Hf; simpl.
    + pose proof (read_variant_at a Hv Hf) as E. unfold enc in E. by rewrite E.
    + rewrite (vok_read b Hv Hf). done.
  - apply variant_or_decodes; [apply _|]. intros tag region. apply vok_total.
Defined.
End variants.

Section enum.
Context {A T : Type} (name : string) (cases : T -> A) (build : A -> T) (vs : Variants A).
Context (P : A -> Prop) (Q : T -> Prop) `{!VariantsOk vs P}.

Definition enum_ok
  (Hcount : (v_count vs <= 256)%nat)
  (Hcases : forall v, Q v -> P (cases v)) (Hbuild : forall x, P x -> Q (build x))
  (Hinv : forall v, Q v -> build (cases v) = v) :
  WireOk (wire_enum name cases build vs) Q.
Proof.
  assert (forall v, fits (8 * Z.of_nat 1) (Z.of_nat (v_tag vs v))) as Htag.
  { intros v. pose proof (vok_tag (vs := vs) v). unfold fits; simpl. lia. }
  pose (payload v := venc_stack vs (cases v) ++ venc_heap vs (cases v)).
  assert (forall v, Q v ->
    (v_stack vs (cases v) + v_heap vs (cases v))%nat = length (payload v)) as Hpay.
  { intros v Hv. unfold payload. rewrite length_app, vok_stack, vok_heap; auto. }
  refine {|
    enc_stack v := le_bytes 1 (Z.of_nat (v_tag vs (cases v)))
                   ++ le_bytes 4 (Z.of_nat (length (payload v)));
    enc_heap v := payload v;
    slots_fit v := fitsb 32 (Z.of_nat (length (payload v))) && v_fits vs (cases v) |}.
  - intros v _. by rewrite length_app, !length_le_bytes.
  - intros v Hv. by apply Hpay.
  - done.
  - simpl. lia.
  - intros v pre post Hv [Hl%fitsb_spec Hf]%andb_true_iff.
    cbn [write_stack wire_enum STACK_SIZE wire_uint]. rewrite Hpay by done.
    rewrite replicate_add, <- app_assoc.
    rewrite put_stack_mid by (by rewrite length_le_bytes). cbn [obind].
    rewrite app_assoc, <- length_app, put_len_slot_mid by done. cbn [obind].
    erewrite with_unit_mid by (by apply vok_write; [apply Hcases|]).
    rewrite length_app, length_le_bytes. by rewrite <- !app_assoc, Nat.add_assoc.
  - intros v pre post Hv H. cbn [write_stack wire_enum STACK_SIZE wire_uint].
    rewrite Hpay by done. rewrite replicate_add, <- app_assoc.
    rewrite put_stack_mid by (by rewrite length_le_bytes). cbn [obind].
    destruct (fitsb 32 _) eqn:Hl; [|eexists; by rewrite put_len_slot_overflow].
    apply fitsb_spec in Hl. simpl in H.
    rewrite app_assoc, <- length_app, put_len_slot_mid by done. cbn [obind].
    edestruct (vok_unfit (vs := vs) (cases v)) as [n E]; [by apply Hcases | done|].
    exists n. erewrite with_unit_fail; [done | exact E].
  - intros v r Hv [Hl%fitsb_spec Hf]%andb_true_iff [Hs1 Hs2]%has_at_app Hh.
    rewrite length_le_bytes in Hs2. cbn [read wire_enum STACK_SIZE wire_uint].
    rewrite (read_uint_at 1 (Z.of_nat (v_tag vs (cases v)))) by done. cbn [obind].
    rewrite (region_at (payload v)) by done. cbn [obind].
    rewrite Nat2Z.id. unfold payload at 1. rewrite vok_read by auto. simpl.
    by rewrite Hinv, <- Nat.add_assoc by done.
  - apply (de_total (Decodes := enum_decodes name cases build vs P Q (vok_total (vs := vs)) Hbuild)).
Defined.
End enum.

(** ** The contract of whole values *)

Section whole.
Context {T : Type} (c : Wire T) (wf : T -> Prop) `{!WireOk c wf}.

Lemma to_wire_enc v :
  wf v -> slots_fit c v = true -> to_wire c v = Done (enc c v).
Proof.
  intros Hv Hf. unfold to_wire.
  pose proof (ok_write v [] [] Hv Hf) as E. simpl in E. rewrite app_nil_r in E.
  rewrite E. simpl. fold (enc c v).
  by rewrite Nat.eqb_refl, (length_enc c wf), Nat.eqb_refl by done.
Qed.

Lemma to_wire_unfit v :
  wf v -> slots_fit c v = false -> exists n, to_wire c v = Fail (LengthOverflow n).
Proof.
  intros Hv Hf. unfold to_wire.
  destruct (ok_unfit v [] [] Hv Hf) as [n E]. simpl in E. rewrite app_nil_r in E.
  exists n. by rewrite E.
Qed.

Lemma to_wire_done v bs :
  wf v -> to_wire c v = Done bs -> slots_fit c v = true /\ bs = enc c v.
Proof.
  intros Hv H. destruct (slots_fit c v) eqn:Hf.
  - rewrite to_wire_enc in H by done. by injection H.
  - destruct (to_wire_unfit v Hv Hf) as [n E]. congruence.
Qed.

Lemma from_wire_enc v :
  wf v -> slots_fit c v = true -> from_wire c (enc c v) = Done v.
Proof.
  intros Hv Hf. unfold from_wire.
  rewrite (read_unit_at c wf v) by (done || apply has_at_all). simpl.
  by rewrite Nat.eqb_refl.
Qed.

Lemma to_wire_with_header_enc h v :
  wf v -> slots_fit c v = true -> to_wire_with_header c h v = Done (le_bytes 4 h ++ enc c v).
Proof.
  intros Hv Hf. unfold to_wire_with_header.
  pose proof (ok_write v (le_bytes 4 h) [] Hv Hf) as E. rewrite app_nil_r in E.
  rewrite length_le_bytes in E. rewrite E. simpl.
  rewrite length_app, length_le_bytes. fold (enc c v).
  by rewrite (length_enc c wf), Nat.eqb_refl by done.
Qed.
End whole.

(** The encoding of a value that fits its slots, its exact size, and its decoding. *)
Lemma encodes {T} (c : Wire T) wf `{!WireOk c wf} v :
  wf v -> slots_fit c v = true ->
  exists bytes, to_wire c v = Done bytes /\
    zlen bytes = Z.of_nat (STACK_SIZE c) + Z.of_nat (heap_size c v) /\
    from_wire c bytes = Done v.
Proof.
  intros Hv Hf. exists (enc c v). split; [by apply (to_wire_enc c wf)|].
  split; [|by apply (from_wire_enc c wf)].
  unfold zlen. rewrite (length_enc c wf) by done. lia.
Qed.

Lemma vec_fixed_fits {T} (c : Wire T) wf `{!WireOk c wf, !Sized c} vs :
  FIXED c = true -> Forall wf vs ->
  slots_fit (wire_vec c) vs = fitsb 32 (Z.of_nat (STACK_SIZE c * length vs)).
Proof.
  intros Hc Hvs. simpl. unfold vec_enc. rewrite Hc, length_stacks, Nat.mul_comm by done.
  rewrite (fixed_fits c wf) by done. apply andb_true_r.
Qed.

(** ** Properties *)

(** C10: round trip and exact size.  For every codec with a contract (all of this
    library's are) a well-formed value whose lengths fit their slots encodes to
    exactly [wire_size] bytes, and decoding those bytes gives the value back. *)
Theorem wire_roundtrip {T} (c : Wire T) (wf : T -> Prop) `{!WireOk c wf} (v : T) :
  wf v -> slots_fit c v = true ->
  exists bytes, to_wire c v = Done bytes /\ length bytes = wire_size c v /\
    from_wire c bytes = Done v.
Proof.
  intros Hv Hf. exists (enc c v). split; [by apply (to_wire_enc c wf)|].
  split; [by apply (length_enc c wf) | by apply (from_wire_enc c wf)].
Qed.

(** Encoding fails exactly when a variable-length region is longer than its
    32-bit slot can say, with the overflowing length, and it never panics. *)
Theorem to_wire_overflow {T} (c : Wire T) (wf : T -> Prop) `{!WireOk c wf} (v : T) :
  wf v ->
  match to_wire c v with
  | Done _ => slots_fit c v = true
  | Fail e => slots_fit c v = false /\ exists n, e = LengthOverflow n
  | Fault => False
  end.
Proof.
  intros Hv. destruct (slots_fit c v) eqn:Hf.
  - by rewrite (to_wire_enc c wf) by done.
  - destruct (to_wire_unfit c wf v Hv Hf) as [n ->]. split; [done|by exists n].
Qed.

(** The codecs of the library: its primitives and containers, and what the derive
    macro builds, with what a decoded value satisfies. *)
Inductive Derived : forall {T : Type}, Wire T -> (T -> Prop) -> Prop :=
  | D_uint n : Derived (wire_uint n) (fits (8 * Z.of_nat n))
  | D_sint n : Derived (wire_sint (S n)) (sfits (8 * Z.of_nat (S n)))
  | D_usize ptr : Derived (wire_usize ptr) (fun v => fits 64 v /\ fits ptr v)
  | D_isize ptr : Derived (wire_isize ptr) (sfits ptr)
  | D_bool : Derived wire_bool (fun _ => True)
  | D_char : Derived wire_char (fun c => char_valid c = true)
  | D_string : Derived wire_string (fun v => utf8_valid v = true)
  | D_id : Derived wire_id (fits 128)
  | D_unit : Derived wire_unit (fun _ => True)
  | D_vec T (c : Wire T) P : Derived c P -> Derived (wire_vec c) (Forall P)
  | D_option T (c : Wire T) P : Derived c P -> Derived (wire_option c) (fun o => forall v, o = Some v -> P v)
  | D_array T n (c : Wire T) P : Derived c P -> Derived (wire_array (S n) c) (fun vs => Forall P vs /\ length vs = S n)
  | D_box T (c : Wire T) P : Derived c P -> Derived (wire_box c) P
  | D_pair A B (a : Wire A) (b : Wire B) P Q :
      Derived a P -> Derived b Q -> Derived (wire_pair a b) (fun v => P v.1 /\ Q v.2)
  | D_struct A B (fields : B -> A) (build : A -> B) c P :
      Derived c P -> Derived (wire_struct fields build c) (fun v => exists x, build x = v /\ P x)
  | D_unit_enum T name (variants : list T) tag_of :
      Derived (wire_unit_enum name variants tag_of) (fun v => v ∈ variants)
  | D_enum A T name (cases : T -> A) (build : A -> T) vs P :
      DerivedCases vs P -> Derived (wire_enum name cases build vs) (fun v => exists x, build x = v /\ P x)
with DerivedCases : forall {A : Type}, Variants A -> (A -> Prop) -> Prop :=
  | D_variant A (c : Wire A) P : Derived c P -> DerivedCases (variant c) P
  | D_variant_or A B (c : Wire A) (vs : Variants B) P Q :
      Derived c P -> DerivedCases vs Q -> DerivedCases (variant_or c vs) (sum_wf P Q).

Scheme Derived_mut := Minimality for Derived Sort Prop
  with DerivedCases_mut := Minimality for DerivedCases Sort Prop.

Lemma isize_decodes ptr : Decodes (wire_isize ptr) (sfits ptr).
Proof.
  split; [done|]. intros r Hr.
  apply (filter_reads 8 (sfits 64) (sfits ptr) r (read (wire_sint 8) r)
    (fun v => (- 2 ^ (ptr - 1) <=? v) && (v <? 2 ^ (ptr - 1))) (fun v => v)); [by apply sint_reads|].
  unfold sfits. intros v _ [H1 H2]%andb_true_iff. lia.
Qed.

Lemma derived_decodes {T} (c : Wire T) P : Derived c P -> Decodes c P.
Proof.
  apply (Derived_mut (fun T c P => Decodes c P) (fun A vs P => cases_decode vs P)); intros; try apply _.
  - apply isize_decodes.
  - by apply vec_decodes.
  - by apply option_decodes.
  - by apply array_decodes.
  - by apply (struct_decodes c0 P0 (fun v => v) (fun v => v)).
  - by apply pair_decodes.
  - eapply struct_decodes; [eassumption|]. intros x Hx. by exists x.
  - apply unit_enum_decodes.
  - eapply enum_decodes; [done|]. intros x Hx. by exists x.
  - by apply variant_decodes.
  - by apply variant_or_decodes.
Qed.


(** The witnesses use a nested codec: a list of optional pairs. *)
Definition demo_codec : Wire (list (option (Z * list byte))) :=
  wire_vec (wire_option (wire_pair (wire_uint 4) wire_string)).

Definition demo_nested : list (option (Z * list byte)) := [Some (7, [Byte.x61; Byte.x62]); None].

#[export] Instance demo_codec_ok : WireOk demo_codec _ :=
  vec_ok (wire_option (wire_pair (wire_uint 4) wire_string)) _.

Lemma demo_nested_wf :
  Forall (fun o => forall v, o = Some v ->
    fits (8 * Z.of_nat 4) (fst v) /\ utf8_valid (snd v) = true) demo_nested.
Proof.
  constructor; [|constructor; [done|constructor]].
  intros v E. injection E as <-. split; by vm_compute.
Qed.

Lemma wire_roundtrip_witness :
  exists bytes, to_wire demo_codec demo_nested = Done bytes /\
    length bytes = wire_size demo_codec demo_nested /\ from_wire demo_codec bytes = Done demo_nested.
Proof.
  eapply (wire_roundtrip demo_codec _ demo_nested); [exact demo_nested_wf|by vm_compute].
Defined.

Lemma to_wire_overflow_witness :
  match to_wire demo_codec demo_nested with
  | Done _ => slots_fit demo_codec demo_nested = true
  | Fail e => slots_fit demo_codec demo_nested = false /\ exists n, e = LengthOverflow n
  | Fault => False
  end.
Proof.
  eapply (to_wire_overflow demo_codec _ demo_nested). exact demo_nested_wf.
Defined.

(** A codec with a nested enum: bytes that it accepts, and the same with a code
    point that is not a character. *)
Definition demo_sum : Wire (list (option (list byte + Z))) :=
  wire_vec (wire_option (wire_enum "Demo" (fun v => v) (fun v => v) (variant_or wire_string (variant wire_char)))).

Definition demo_bytes (c : Z) : list byte :=
  le_bytes 4 10 ++ [Byte.x01; Byte.x01] ++ le_bytes 4 4 ++ le_bytes 4 c.

