(* ===== verification/Core.v ===== *)
(** * Record metadata and permissions (wavedb-core: permission.rs, metadata.rs)

    The two hand-written [Wire] implementations are modelled line by line and
    shown to agree with the layout the derive macro would produce, which is what
    gives them their contract. *)
From S2P Require Import Prelude Wire WireOk.

(** Two codecs that no caller can tell apart. *)
Definition wire_equiv {T} (c1 c2 : Wire T) : Prop :=
  STACK_SIZE c1 = STACK_SIZE c2 /\ FIXED c1 = FIXED c2 /\
  (forall v, heap_size c1 v = heap_size c2 v) /\
  (forall v w, write_stack c1 v w = write_stack c2 v w) /\
  (forall r, read c1 r = read c2 r).

Definition equiv_ok {T} (c1 c2 : Wire T) wf (E : wire_equiv c1 c2) `{!WireOk c1 wf} :
  WireOk c2 wf.
Proof.
  refine {| enc_stack := enc_stack c1; enc_heap := enc_heap c1; slots_fit := slots_fit c1 |};
    destruct E as (E1 & E2 & E3 & E4 & E5).
  - intros v Hv. rewrite <- E1. by apply ok_stack.
  - intros v Hv. rewrite <- E3. by apply ok_heap.
  - rewrite <- E2. apply ok_fixed.
  - rewrite <- E1, <- E2. apply ok_dynamic.
  - intros. rewrite <- E1, <- E4. by apply ok_write.
  - intros. rewrite <- E1, <- E4. by apply ok_unfit.
  - intros. rewrite <- E1, <- E5. by apply ok_read.
  - intros. rewrite <- E1, <- E5. by apply ok_total.
Defined.

(** ** Permissions *)

(** [PermissionGroupId(pub u64)]. *)
Definition PermissionGroupId : Type := Z.

Inductive PermissionRef : Type :=
  | Inline (users : list Z)
  | Group (id : PermissionGroupId).

#[export] Instance PermissionRef_eq_dec : EqDecision PermissionRef.
Proof. solve_decision. Defined.

Definition wire_group_id : Wire PermissionGroupId := {|
  STACK_SIZE := 8;
  FIXED := true;
  heap_size _ := 0%nat;
  write_stack v w := write_stack (wire_uint 8) v w;
  read r := read (wire_uint 8) r
|}.

Definition wire_users : Wire (list Z) := wire_vec (wire_uint 8).

Definition wire_permission_ref : Wire PermissionRef := {|
  STACK_SIZE := 1 + 4;
  FIXED := false;
  heap_size v :=
    match v with
    | Inline users => (STACK_SIZE wire_users + heap_size wire_users users)%nat
    | Group _ => STACK_SIZE wire_group_id
    end;
  write_stack v w :=
    match v with
    | Inline users =>
        let* w := write_stack (wire_uint 1) 0 w in
        let* w := put_len_slot (STACK_SIZE wire_users + heap_size wire_users users) w in
        with_unit (STACK_SIZE wire_users) (write_stack wire_users users) w
    | Group id =>
        let* w := write_stack (wire_uint 1) 1 w in
        let* w := put_len_slot (STACK_SIZE wire_group_id) w in
        with_unit (STACK_SIZE wire_group_id) (write_stack wire_group_id id) w
    end;
  read r :=
    let* (tag, r) := read (wire_uint 1) r in
    let* (region, r) := take_len_slot_region r in
    if tag =? 0 then
      let* sub := for_unit region (STACK_SIZE wire_users) in
      let* (users, sub) := read wire_users sub in
      do* finish_unit sub in
      Done (Inline users, r)
    else if tag =? 1 then
      let* sub := for_unit region (STACK_SIZE wire_group_id) in
      let* (id, sub) := read wire_group_id sub in
      do* finish_unit sub in
      Done (Group id, r)
    else Fail (InvalidTag "PermissionRef" tag)
|}.

(** [PermissionRef::allows_user]: a group is never resolved here. *)
Definition allows_user (p : PermissionRef) (user : Z) : bool :=
  match p with
  | Inline users => bool_decide (user ∈ users)
  | Group _ => false
  end.

(** What [#[derive(WaveWire)]] would generate for the same enum. *)
Definition permission_cases (p : PermissionRef) : list Z + PermissionGroupId :=
  match p with Inline users => inl users | Group id => inr id end.

Definition permission_build (x : list Z + PermissionGroupId) : PermissionRef :=
  match x with inl users => Inline users | inr id => Group id end.

Definition derived_permission_ref : Wire PermissionRef :=
  wire_enum "PermissionRef" permission_cases permission_build
    (variant_or wire_users (variant wire_group_id)).

Definition permission_wf (p : PermissionRef) : Prop :=
  match p with Inline users => Forall (fits 64) users | Group id => fits 64 id end.

#[export] Instance group_id_ok : WireOk wire_group_id (fits 64) := uint_ok 8.

#[export] Instance users_ok : WireOk wire_users (Forall (fits 64)) :=
  vec_ok (wire_uint 8) (fits (8 * Z.of_nat 8)).

#[export] Instance derived_permission_ok : WireOk derived_permission_ref permission_wf.
Proof.
  apply (enum_ok _ _ _ _ (sum_wf (Forall (fits 64)) (fits 64))).
  - apply _.
  - by apply Nat.leb_le.
  - by intros [users|id].
  - by intros [users|id].
  - by intros [users|id].
Defined.

Lemma permission_ref_equiv : wire_equiv derived_permission_ref wire_permission_ref.
Proof.
  repeat split.
  - by intros [users|id].
  - by intros [users|id] w.
  - intros r. cbn [read derived_permission_ref wire_enum wire_permission_ref wire_uint].
    destruct (read_uint 1 r) as [[tag r']|e|] eqn:E; [|done..]. cbn [obind].
    destruct (take_len_slot_region r') as [[region r'']|e|]; [|done..]. cbn [obind].
    assert (0 <= tag) as Ht.
    { unfold read_uint in E. apply obind_done in E as ([bs r1] & _ & [= <- _]).
      apply le_val_fits. }
    destruct (Z.eqb_spec tag 0) as [->|H0]; simpl.
    { unfold read_variant; simpl.
      destruct (for_unit region 4) as [sub|e|]; [|done..]. simpl.
      destruct (take_len_slot_region sub) as [[reg sub']|e|]; simpl; [|done..].
      destruct (vec_read_region (wire_uint 8) reg) as [us|e|]; simpl; [|done..].
      by destruct (finish_unit sub'). }
    destruct (Z.eqb_spec tag 1) as [->|H1]; simpl.
    { unfold read_variant; simpl.
      destruct (for_unit region 8) as [sub|e|]; [|done..]. simpl.
      destruct (read_uint 8 sub) as [[id sub']|e|]; simpl; [|done..].
      by destruct (finish_unit sub'). }
    by replace (Z.to_nat tag) with (S (S (Z.to_nat (tag - 2)))) by lia.
Qed.

#[export] Instance permission_ok : WireOk wire_permission_ref permission_wf :=
  equiv_ok _ _ _ permission_ref_equiv.

(** ** Metadata *)

Record Metadata : Type := {
  old_modification_id : Z;
  new_modification_id : Z;
  struct_version : Z;
  user : Z;
  device_created : Z;
  permission : option PermissionRef
}.

#[export] Instance Metadata_eq_dec : EqDecision Metadata.
Proof. solve_decision. Defined.

(** [#[derive(Default)]]. *)
Definition default_metadata : Metadata := {|
  old_modification_id := 0; new_modification_id := 0; struct_version := 0;
  user := 0; device_created := 0; permission := None |}.

Definition is_first_version (m : Metadata) : bool := old_modification_id m =? 0.

Definition is_live (m : Metadata) : bool := new_modification_id m =? 0.

Definition wire_metadata : Wire Metadata := {|
  STACK_SIZE := 16 + 16 + 1 + 8 + 8 + STACK_SIZE (wire_option wire_permission_ref);
  FIXED := false;
  heap_size m := heap_size (wire_option wire_permission_ref) (permission m);
  write_stack m w :=
    let* w := write_stack (wire_uint 16) (old_modification_id m) w in
    let* w := write_stack (wire_uint 16) (new_modification_id m) w in
    let* w := write_stack (wire_uint 1) (struct_version m) w in
    let* w := write_stack (wire_uint 8) (user m) w in
    let* w := write_stack (wire_uint 8) (device_created m) w in
    write_stack (wire_option wire_permission_ref) (permission m) w;
  read r :=
    let* (om, r) := read (wire_uint 16) r in
    let* (nm, r) := read (wire_uint 16) r in
    let* (sv, r) := read (wire_uint 1) r in
    let* (us, r) := read (wire_uint 8) r in
    let* (dc, r) := read (wire_uint 8) r in
    let* (pe, r) := read (wire_option wire_permission_ref) r in
    Done ({| old_modification_id := om; new_modification_id := nm; struct_version := sv;
             user := us; device_created := dc; permission := pe |}, r)
|}.

Definition metadata_fields (m : Metadata) : Z * (Z * (Z * (Z * (Z * option PermissionRef)))) :=
  (old_modification_id m, (new_modification_id m, (struct_version m,
    (user m, (device_created m, permission m))))).

Definition metadata_build (x : Z * (Z * (Z * (Z * (Z * option PermissionRef))))) : Metadata :=
  let '(om, (nm, (sv, (us, (dc, pe))))) := x in
  {| old_modification_id := om; new_modification_id := nm; struct_version := sv;
     user := us; device_created := dc; permission := pe |}.

(** The flattened struct of the derive macro. *)
Definition derived_metadata : Wire Metadata :=
  wire_struct metadata_fields metadata_build
    (wire_pair (wire_uint 16) (wire_pair (wire_uint 16) (wire_pair (wire_uint 1)
      (wire_pair (wire_uint 8) (wire_pair (wire_uint 8)
        (wire_option wire_permission_ref)))))).

Definition metadata_wf (m : Metadata) : Prop :=
  fits 128 (old_modification_id m) /\ fits 128 (new_modification_id m) /\
  fits 8 (struct_version m) /\ fits 64 (user m) /\ fits 64 (device_created m) /\
  forall p, permission m = Some p -> permission_wf p.

Lemma metadata_equiv : wire_equiv derived_metadata wire_metadata.
Proof.
  repeat split; intros r.
  cbn [read wire_metadata derived_metadata wire_struct wire_pair wire_uint].
  generalize (read (wire_option wire_permission_ref)). intros rd.
  do 5 (match goal with |- context [read_uint ?n ?r] =>
    destruct (read_uint n r) as [[? ?]|?|] end; [cbn [obind] | done..]).
  by destruct (rd _) as [[]| |].
Qed.

#[export] Instance derived_metadata_ok : WireOk derived_metadata metadata_wf.
Proof.
  eapply struct_ok; [apply _|..].
  - intros m (? & ? & ? & ? & ? & ?). by split_and!.
  - intros (om & nm & sv & us & dc & pe) (? & ? & ? & ? & ? & ?). by split_and!.
  - by intros [].
Defined.

#[export] Instance metadata_ok : WireOk wire_metadata metadata_wf :=
  equiv_ok _ _ _ metadata_equiv.

(** The hand-written codecs of [PermissionRef] and [Metadata] are
    indistinguishable from the ones the derive macro would generate: same
    sizes, same bytes, same errors, on every value and every input. *)
Theorem manual_wire_is_derived :
  wire_equiv derived_permission_ref wire_permission_ref /\
  wire_equiv derived_metadata wire_metadata.
Proof. split; [apply permission_ref_equiv | apply metadata_equiv]. Qed.
