(* ===== verification/Ids.v ===== *)
(** * Composite identifiers (wavedb-core/src/id.rs) and record headers

    An [Id] is a [u128] with four bit fields; it is its raw integer here, and
    [Ord] is the order of the integers, as the source compares raw values. *)
From S2P Require Import Prelude Wire WireOk.

Inductive Shape : Type := Unique | NonUnique | NestedNonUnique.

Definition Id : Type := Z.

Definition TENANT_BITS : Z := 48.
Definition SHARD_BITS : Z := 12.
Definition STRUCT_BITS : Z := 20.
Definition CREATED_BITS : Z := 48.

Definition TENANT_MASK : Z := Z.shiftl 1 TENANT_BITS - 1.
Definition SHARD_MASK : Z := Z.shiftl 1 SHARD_BITS - 1.
Definition STRUCT_MASK : Z := Z.shiftl 1 STRUCT_BITS - 1.
Definition CREATED_MASK : Z := Z.shiftl 1 CREATED_BITS - 1.

Definition TENANT_SHIFT : Z := SHARD_BITS + STRUCT_BITS + CREATED_BITS.
Definition SHARD_SHIFT : Z := STRUCT_BITS + CREATED_BITS.
Definition STRUCT_SHIFT : Z := CREATED_BITS.

Definition SYSTEM_TENANT : Z := 0.
Definition UNAUTHENTICATED_USER : Z := Z.shiftl 1 48 - 1.
Definition ZERO : Id := 0.

(** [u128] shifts drop the bits they push out. *)
Definition shl128 (a k : Z) : Z := wrap 128 (Z.shiftl a k).

Definition Id_new (tenant shard struct_id created_at : Z) : Id :=
  Z.lor (Z.lor (Z.lor
    (shl128 (Z.land tenant TENANT_MASK) TENANT_SHIFT)
    (shl128 (Z.land shard SHARD_MASK) SHARD_SHIFT))
    (shl128 (Z.land struct_id STRUCT_MASK) STRUCT_SHIFT))
    (Z.land created_at CREATED_MASK).

Definition tenant_id (i : Id) : Z := wrap 64 (Z.land (Z.shiftr i TENANT_SHIFT) TENANT_MASK).
Definition shard_id (i : Id) : Z := wrap 16 (Z.land (Z.shiftr i SHARD_SHIFT) SHARD_MASK).
Definition struct_id (i : Id) : Z := wrap 32 (Z.land (Z.shiftr i STRUCT_SHIFT) STRUCT_MASK).
Definition created_at (i : Id) : Z := wrap 64 (Z.land i CREATED_MASK).

(** [!CREATED_MASK] is the complement within 128 bits. *)
Definition anchor_key (i : Id) : Id := Z.land i (Z.lxor CREATED_MASK (Z.ones 128)).

Definition Id_cmp (a b : Id) : comparison := Z.compare a b.

(** ** The fields as digits *)

(** The integer an identifier's four fields make. *)
Definition id_digits (t s k c : Z) : Z := ((t * 2 ^ 12 + s) * 2 ^ 20 + k) * 2 ^ 48 + c.

Lemma masks :
  TENANT_MASK = Z.ones 48 /\ SHARD_MASK = Z.ones 12 /\
  STRUCT_MASK = Z.ones 20 /\ CREATED_MASK = Z.ones 48.
Proof. done. Qed.

Lemma wrap_idem w z : 0 <= w -> wrap w (wrap w z) = wrap w z.
Proof. intros. by apply wrap_small, wrap_fits. Qed.

Lemma shl128_small a n k :
  0 <= n -> 0 <= k -> n + k <= 128 -> fits n a -> shl128 a k = Z.shiftl a k.
Proof.
  intros Hn Hk Hnk [Ha0 Ha]. unfold shl128. apply wrap_small.
  rewrite Z.shiftl_mul_pow2 by done. split; [nia|].
  apply Z.lt_le_trans with (2 ^ n * 2 ^ k); [nia|].
  rewrite <- Z.pow_add_r by done. apply Z.pow_le_mono_r; lia.
Qed.

Lemma Id_new_digits t s k c :
  Id_new t s k c = id_digits (wrap 48 t) (wrap 12 s) (wrap 20 k) (wrap 48 c).
Proof.
  unfold Id_new. destruct masks as (-> & -> & -> & ->). rewrite !wrap_land_ones by done.
  pose proof (wrap_fits 48 t ltac:(lia)) as Ht. pose proof (wrap_fits 12 s ltac:(lia)) as Hs.
  pose proof (wrap_fits 20 k ltac:(lia)) as Hk. pose proof (wrap_fits 48 c ltac:(lia)) as Hc.
  rewrite (shl128_small _ 48), (shl128_small _ 12), (shl128_small _ 20) by (done || lia).
  unfold TENANT_SHIFT, SHARD_SHIFT, STRUCT_SHIFT, SHARD_BITS, STRUCT_BITS, CREATED_BITS, id_digits.
  unfold fits in *. rewrite !(Z.shiftl_mul_pow2 (wrap 12 s)), !(Z.shiftl_mul_pow2 (wrap 20 k)) by lia.
  rewrite (lor_shiftl_low (wrap 48 t)) by (unfold fits; lia).
  replace (_ + _) with (Z.shiftl (wrap 48 t * 2 ^ 12 + wrap 12 s) 68)
    by (rewrite Z.shiftl_mul_pow2 by lia; lia).
  rewrite lor_shiftl_low by (unfold fits; lia).
  replace (_ + _) with (Z.shiftl ((wrap 48 t * 2 ^ 12 + wrap 12 s) * 2 ^ 20 + wrap 20 k) 48)
    by (rewrite Z.shiftl_mul_pow2 by lia; lia).
  by apply lor_shiftl_low.
Qed.

(** The range of each field of a [u128]. *)
Definition digits_ok (t s k c : Z) : Prop := fits 48 t /\ fits 12 s /\ fits 20 k /\ fits 48 c.

Lemma id_split i :
  fits 128 i ->
  exists t s k c, digits_ok t s k c /\ i = id_digits t s k c.
Proof.
  intros Hi. exists (i / 2 ^ 80), ((i / 2 ^ 68) mod 2 ^ 12), ((i / 2 ^ 48) mod 2 ^ 20), (i mod 2 ^ 48).
  unfold digits_ok, fits, id_digits in *. Z.to_euclidean_division_equations. lia.
Qed.

Lemma digits_fits t s k c : digits_ok t s k c -> fits 128 (id_digits t s k c).
Proof. unfold digits_ok, fits, id_digits. lia. Qed.

Lemma digits_fields t s k c :
  digits_ok t s k c ->
  tenant_id (id_digits t s k c) = t /\ shard_id (id_digits t s k c) = s /\
  struct_id (id_digits t s k c) = k /\ created_at (id_digits t s k c) = c.
Proof.
  intros (Ht & Hs & Hk & Hc).
  unfold tenant_id, shard_id, struct_id, created_at, wrap.
  destruct masks as (-> & -> & -> & ->).
  rewrite !Z.land_ones, !Z.shiftr_div_pow2 by done.
  unfold TENANT_SHIFT, SHARD_SHIFT, STRUCT_SHIFT, SHARD_BITS, STRUCT_BITS, CREATED_BITS.
  unfold id_digits, fits in *.
  split_and!; Z.to_euclidean_division_equations; lia.
Qed.

Lemma anchor_key_digits t s k c :
  digits_ok t s k c -> anchor_key (id_digits t s k c) = id_digits t s k 0.
Proof.
  intros (Ht & Hs & Hk & Hc). unfold anchor_key, id_digits. rewrite Z.add_0_r.
  set (h := (t * 2 ^ 12 + s) * 2 ^ 20 + k).
  assert (fits 80 h) as Hh by (unfold h, fits in *; lia).
  rewrite <- (lor_shiftl_low h c 48) by done.
  rewrite Z.land_lor_distr_l. replace (Z.lxor CREATED_MASK (Z.ones 128))
    with (Z.shiftl (Z.ones 80) 48) by done.
  rewrite (Z.land_comm c), (land_shiftl_low (Z.ones 80) c), Z.lor_0_r, <- Z.shiftl_land by (done || lia).
  rewrite Z.land_ones, Z.mod_small by (done || lia). by rewrite Z.shiftl_mul_pow2.
Qed.

(** ** Properties *)

(** [Id::new] keeps the low bits of each argument and the accessors read
    exactly those back, so a tuple of in-range fields survives packing and an
    out-of-range one is truncated field by field, never into a neighbour. *)
Theorem Id_new_fields tenant shard sid created :
  let i := Id_new tenant shard sid created in
  fits 128 i /\
  tenant_id i = tenant mod 2 ^ 48 /\ shard_id i = shard mod 2 ^ 12 /\
  struct_id i = sid mod 2 ^ 20 /\ created_at i = created mod 2 ^ 48.
Proof.
  intros i. unfold i. rewrite Id_new_digits.
  assert (digits_ok (wrap 48 tenant) (wrap 12 shard) (wrap 20 sid) (wrap 48 created)) as H
    by (split_and!; by apply wrap_fits).
  split; [by apply digits_fits | by apply digits_fields].
Qed.

(** Every [u128] is the [Id] of its own fields, so an identifier is
    determined by them and [from_raw] can produce no other. *)
Theorem Id_new_surjective (i : Id) :
  fits 128 i -> Id_new (tenant_id i) (shard_id i) (struct_id i) (created_at i) = i.
Proof.
  intros (t & s & k & c & H & ->)%id_split.
  destruct (digits_fields _ _ _ _ H) as (-> & -> & -> & ->).
  rewrite Id_new_digits. destruct H as (? & ? & ? & ?).
  by rewrite !wrap_small by done.
Qed.

(** The order of identifiers is lexicographic in tenant, shard, struct and
    creation time. *)
Definition lex4 (a b : Z * Z * Z * Z) : Prop :=
  let '(t1, s1, k1, c1) := a in
  let '(t2, s2, k2, c2) := b in
  t1 < t2 \/ (t1 = t2 /\ (s1 < s2 \/ (s1 = s2 /\ (k1 < k2 \/ (k1 = k2 /\ c1 < c2))))).

Definition id_fields (i : Id) : Z * Z * Z * Z :=
  (tenant_id i, shard_id i, struct_id i, created_at i).

(** Comparing raw values compares the fields lexicographically: all
    records of a tenant are contiguous, then those of a shard, then those of a
    struct, in creation order. *)
Theorem Id_cmp_lexicographic (i j : Id) :
  fits 128 i -> fits 128 j ->
  Id_cmp i j = Lt <-> lex4 (id_fields i) (id_fields j).
Proof.
  intros (t1 & s1 & k1 & c1 & H1 & ->)%id_split (t2 & s2 & k2 & c2 & H2 & ->)%id_split.
  unfold id_fields, Id_cmp.
  destruct (digits_fields _ _ _ _ H1) as (-> & -> & -> & ->).
  destruct (digits_fields _ _ _ _ H2) as (-> & -> & -> & ->).
  rewrite Z.compare_lt_iff. unfold lex4, id_digits, digits_ok, fits in *. lia.
Qed.

(** [anchor_key] clears the creation time and nothing else, is idempotent,
    and two identifiers have one anchor exactly when they agree on the rest. *)
Theorem anchor_key_spec (i j : Id) :
  fits 128 i -> fits 128 j ->
  id_fields (anchor_key i) = (tenant_id i, shard_id i, struct_id i, 0) /\
  anchor_key (anchor_key i) = anchor_key i /\
  (anchor_key i = anchor_key j <->
   tenant_id i = tenant_id j /\ shard_id i = shard_id j /\ struct_id i = struct_id j).
Proof.
  intros (t1 & s1 & k1 & c1 & H1 & ->)%id_split (t2 & s2 & k2 & c2 & H2 & ->)%id_split.
  destruct (digits_fields _ _ _ _ H1) as (-> & -> & -> & _).
  destruct (digits_fields _ _ _ _ H2) as (-> & -> & -> & _).
  rewrite (anchor_key_digits t1), (anchor_key_digits t2) by done.
  assert (digits_ok t1 s1 k1 0) as H1' by (unfold digits_ok, fits in *; lia).
  rewrite anchor_key_digits by done. unfold id_fields.
  destruct (digits_fields _ _ _ _ H1') as (-> & -> & -> & ->).
  split; [done|split; [done|]]. split; [|by intros (-> & -> & ->)].
  clear H1'. unfold id_digits, digits_ok, fits in *. lia.
Qed.

(** A record header packs and unpacks its struct id and version whenever
    the struct id fits the 24 bits left for it, which every 20-bit id does. *)
Theorem header_roundtrip (sid version : Z) :
  fits 24 sid -> fits 8 version ->
  fits 32 (pack_header sid version) /\
  unpack_header (pack_header sid version) = (sid, version).
Proof.
  intros Hs Hv. unfold pack_header, unpack_header.
  unfold fits in Hs.
  assert (wrap 32 (Z.shiftl sid 8) = Z.shiftl sid 8) as ->.
  { apply wrap_small. rewrite Z.shiftl_mul_pow2 by lia. unfold fits. lia. }
  rewrite lor_shiftl_low by done. change 0xFF with (Z.ones 8).
  rewrite Z.land_ones, Z.shiftr_div_pow2, div_field, mod_field by done.
  unfold fits in *. split; [lia | done].
Qed.

Lemma Id_new_surjective_witness :
  Id_new (tenant_id 12345678901234567890) (shard_id 12345678901234567890)
    (struct_id 12345678901234567890) (created_at 12345678901234567890) = 12345678901234567890.
Proof. apply Id_new_surjective. by vm_compute. Defined.

Lemma Id_cmp_lexicographic_witness :
  Id_cmp (Id_new 1 2 3 4) (Id_new 1 2 4 0) = Lt
  <-> lex4 (id_fields (Id_new 1 2 3 4)) (id_fields (Id_new 1 2 4 0)).
Proof. apply Id_cmp_lexicographic; by vm_compute. Defined.

Lemma anchor_key_spec_witness :
  id_fields (anchor_key (Id_new 1 2 3 4))
    = (tenant_id (Id_new 1 2 3 4), shard_id (Id_new 1 2 3 4), struct_id (Id_new 1 2 3 4), 0) /\
  anchor_key (anchor_key (Id_new 1 2 3 4)) = anchor_key (Id_new 1 2 3 4) /\
  (anchor_key (Id_new 1 2 3 4) = anchor_key (Id_new 1 2 3 9) <->
   tenant_id (Id_new 1 2 3 4) = tenant_id (Id_new 1 2 3 9) /\
   shard_id (Id_new 1 2 3 4) = shard_id (Id_new 1 2 3 9) /\
   struct_id (Id_new 1 2 3 4) = struct_id (Id_new 1 2 3 9)).
Proof. apply anchor_key_spec; by vm_compute. Defined.

Lemma header_roundtrip_witness :
  fits 32 (pack_header 100 3) /\ unpack_header (pack_header 100 3) = (100, 3).
Proof. apply header_roundtrip; by vm_compute. Defined.

#[global] Arguments Id_new : simpl never.
#[global] Arguments tenant_id : simpl never.
#[global] Arguments shard_id : simpl never.
#[global] Arguments struct_id : simpl never.
#[global] Arguments created_at : simpl never.
#[global] Arguments anchor_key : simpl never.
