(* ===== verification/Bfs.v ===== *)
(** * The invariant of breadth-first search

    [Frontier] is what holds of a visited set and a queue between two pops and
    [Expanding] what holds while the neighbours of the popped vertex are pushed.
    Both carry a ghost distance; from them come soundness, completeness and the
    minimality of the distance at which a vertex is popped. *)
From S2P Require Import Prelude.
From Stdlib Require Import Sorted.
From stdpp Require Import relations.

Section bfs.
Context {V : Type} `{Countable V} (succ : V -> list V) (src : V).

Definition edge (u v : V) : Prop := v ∈ succ u.

Abbreviation steps := (nsteps edge).

Record Expanding (cur : V) (pending : list V) (vis : gset V) (queue : list V)
    (d : V -> nat) : Prop := {
  ex_src : src ∈ vis /\ d src = 0%nat;
  ex_path : forall v, v ∈ vis -> steps (d v) src v;
  ex_small : forall v, v ∈ vis -> (d v < size vis)%nat;
  ex_queue : forall q, q ∈ queue -> q ∈ vis /\ (d cur <= d q)%nat;
  ex_nodup : NoDup queue;
  ex_sorted : StronglySorted (fun a b => d a <= d b)%nat queue;
  ex_bound : forall v, v ∈ vis -> (d v <= d cur + 1)%nat;
  ex_cur : cur ∈ vis /\ cur ∉ queue;
  ex_pending : forall w, w ∈ pending -> edge cur w;
  ex_closed : forall v w, v ∈ vis -> v ∉ queue -> edge v w ->
    (w ∈ vis /\ d w <= d v + 1)%nat \/ (v = cur /\ w ∈ pending)
}.

Record Frontier (vis : gset V) (queue : list V) (d : V -> nat) : Prop := {
  fr_src : src ∈ vis /\ d src = 0%nat;
  fr_path : forall v, v ∈ vis -> steps (d v) src v;
  fr_small : forall v, v ∈ vis -> (d v < size vis)%nat;
  fr_queue : forall q, q ∈ queue -> q ∈ vis;
  fr_nodup : NoDup queue;
  fr_sorted : StronglySorted (fun a b => d a <= d b)%nat queue;
  fr_bound : forall q v, head queue = Some q -> v ∈ vis -> (d v <= d q + 1)%nat;
  fr_closed : forall v w, v ∈ vis -> v ∉ queue -> edge v w -> (w ∈ vis /\ d w <= d v + 1)%nat
}.

Lemma frontier_init : Frontier {[src]} [src] (fun _ => 0%nat).
Proof.
  constructor; try set_solver.
  - intros v ->%elem_of_singleton. constructor.
  - intros v _. rewrite size_singleton. lia.
  - apply NoDup_singleton.
  - by repeat constructor.
Qed.

Lemma frontier_pop vis cur queue d :
  Frontier vis (cur :: queue) d -> Expanding cur (succ cur) vis queue d.
Proof.
  intros [H1 H2 H3 H4 H5 H6 H7 H8]. apply NoDup_cons in H5 as [Hni Hnd].
  inversion H6 as [|?? Hs Hle]; subst. rewrite List.Forall_forall in Hle.
  constructor; try done.
  - intros q Hq. split; [apply H4; by right | apply Hle; by apply list_elem_of_In].
  - intros v Hv. by apply (H7 cur).
  - split; [|done]. apply H4. by left.
  - intros v w Hv Hq Hvw. destruct (decide (v = cur)) as [->|Hne]; [by right|].
    left. apply (H8 v w Hv); [|done]. intros [?|?]%elem_of_cons; done.
Qed.

Lemma expanding_done vis cur queue d :
  Expanding cur [] vis queue d -> Frontier vis queue d.
Proof.
  intros [H1 H2 H3 H4 H5 H6 H7 H8 H9 H10]. constructor; try done.
  - intros q Hq. by apply H4.
  - intros q v Hq Hv. assert (q ∈ queue) as Hin by (destruct queue; simplify_eq/=; by left).
    destruct (H4 q Hin). specialize (H7 v Hv). lia.
  - intros v w Hv Hq Hvw. destruct (H10 v w Hv Hq Hvw) as [?|[_ ?%not_elem_of_nil]]; done.
Qed.

Lemma expanding_old cur w pending vis queue d :
  w ∈ vis -> Expanding cur (w :: pending) vis queue d -> Expanding cur pending vis queue d.
Proof.
  intros Hw [H1 H2 H3 H4 H5 H6 H7 H8 H9 H10]. constructor; try done.
  - intros x Hx. apply H9. by right.
  - intros v x Hv Hq Hvx. destruct (H10 v x Hv Hq Hvx) as [?|[-> [->|?]%elem_of_cons]]; eauto.
Qed.

Definition push_dist (d : V -> nat) (cur w : V) : V -> nat :=
  fun x => if decide (x = w) then S (d cur) else d x.

Lemma push_dist_old d cur w x : x <> w -> push_dist d cur w x = d x.
Proof. intros. unfold push_dist. by rewrite decide_False. Qed.

Lemma push_dist_new d cur w : push_dist d cur w w = S (d cur).
Proof. unfold push_dist. by rewrite decide_True. Qed.

Lemma sorted_snoc (R : V -> V -> Prop) l x :
  StronglySorted R l -> (forall y, y ∈ l -> R y x) -> StronglySorted R (l ++ [x]).
Proof.
  induction 1 as [|y l Hl IH Hy]; simpl; intros Hx; [repeat constructor|].
  constructor; [apply IH; intros z Hz; apply Hx; by right|].
  apply Forall_app; split; [done|]. constructor; [apply Hx; by left | done].
Qed.

Lemma sorted_ext (R R' : V -> V -> Prop) l :
  (forall x y, x ∈ l -> y ∈ l -> R x y -> R' x y) ->
  StronglySorted R l -> StronglySorted R' l.
Proof.
  induction l as [|x l IH]; intros HR; [constructor|].
  inversion 1 as [|?? Hs Hf]; subst. constructor.
  - apply IH; [|done]. intros; apply HR; [by right..|done].
  - rewrite List.Forall_forall in *. intros y Hy%list_elem_of_In.
    apply HR; [by left | by right | apply Hf; by apply list_elem_of_In].
Qed.

Lemma expanding_new cur w pending vis queue d :
  w ∉ vis -> Expanding cur (w :: pending) vis queue d ->
  Expanding cur pending ({[w]} ∪ vis) (queue ++ [w]) (push_dist d cur w).
Proof.
  intros Hw [[H1a H1b] H2 H3 H4 H5 H6 H7 [H8a H8b] H9 H10].
  assert (forall v, v ∈ vis -> push_dist d cur w v = d v) as Hold
    by (intros v Hv; apply push_dist_old; congruence).
  assert (edge cur w) as He by (apply H9; by left).
  assert (forall v, v ∈ {[w]} ∪ vis -> v = w \/ v ∈ vis) as Hcase by set_solver.
  constructor.
  - rewrite Hold by done. set_solver.
  - intros v [->|Hv]%Hcase; [rewrite push_dist_new; eapply nsteps_r; eauto|].
    rewrite Hold by done. auto.
  - intros v Hv. rewrite size_union, size_singleton by set_solver.
    apply Hcase in Hv as [->|Hv]; [rewrite push_dist_new; specialize (H3 cur H8a); lia|].
    rewrite Hold by done. specialize (H3 v Hv). lia.
  - intros q [Hq| ->%list_elem_of_singleton]%elem_of_app; rewrite (Hold cur) by done.
    + destruct (H4 q Hq). rewrite Hold by done. set_solver.
    + rewrite push_dist_new. split; [set_solver | lia].
  - apply NoDup_app. split; [done|]. split; [|apply NoDup_singleton].
    intros x Hx ->%list_elem_of_singleton. by apply H4 in Hx as [? _].
  - apply sorted_snoc.
    + eapply sorted_ext; [|done]. intros x y Hx Hy. simpl.
      rewrite !Hold by (by apply H4). done.
    + intros y Hy. apply H4 in Hy as [Hy _]. rewrite Hold, push_dist_new by done.
      specialize (H7 y Hy). lia.
  - intros v [->|Hv]%Hcase; rewrite (Hold cur) by done; [rewrite push_dist_new; lia|].
    rewrite Hold by done. auto.
  - split; [set_solver|]. intros [?| ->%list_elem_of_singleton]%elem_of_app; done.
  - intros x Hx. apply H9. by right.
  - intros v x [->|Hv]%Hcase Hq Hvx; [destruct Hq; apply elem_of_app; right; by left|].
    assert (v ∉ queue) as Hq' by (intros ?; apply Hq, elem_of_app; by left).
    rewrite (Hold v) by done.
    destruct (H10 v x Hv Hq' Hvx) as [[Hx Hd]|[-> [->|Hx]%elem_of_cons]].
    + left. rewrite Hold by done. set_solver.
    + left. rewrite push_dist_new. split; [set_solver | lia].
    + by right.
Qed.

(** Every path ends at a vertex already visited at no greater distance, or
    crosses the queue earlier. *)
Lemma frontier_paths vis queue d n v :
  Frontier vis queue d -> steps n src v ->
  (v ∈ vis /\ d v <= n)%nat \/ (exists q, q ∈ queue /\ d q < n)%nat.
Proof.
  intros F. revert v. induction n as [|n IH]; intros v Hv.
  - inversion Hv; subst. left. destruct (fr_src _ _ _ F) as [? ->]. done.
  - apply nsteps_inv_r in Hv as (u & Hu & Huv).
    destruct (IH u Hu) as [[Hin Hd]|(q & Hq & Hd)]; [|right; exists q; split; [done|lia]].
    destruct (decide (u ∈ queue)); [right; exists u; split; [done|lia]|].
    left. destruct (fr_closed _ _ _ F u v) as [? ?]; [done..|]. split; [done|lia].
Qed.

(** The popped vertex is at its distance from the source. *)
Lemma frontier_shortest vis cur queue d n :
  Frontier vis (cur :: queue) d -> steps n src cur -> (d cur <= n)%nat.
Proof.
  intros F Hn. destruct (frontier_paths _ _ _ _ _ F Hn) as [[_ ?]|(q & Hq & Hd)]; [lia|].
  pose proof (fr_sorted _ _ _ F) as Hs. inversion Hs as [|?? _ Hle]; subst.
  rewrite List.Forall_forall in Hle.
  apply elem_of_cons in Hq as [->|Hq]; [lia|].
  apply list_elem_of_In, Hle in Hq. lia.
Qed.

Lemma frontier_complete vis d n v : Frontier vis [] d -> steps n src v -> v ∈ vis.
Proof.
  intros F Hn. destruct (frontier_paths _ _ _ _ _ F Hn) as [[? _]|(q & []%not_elem_of_nil & _)].
  done.
Qed.
End bfs.
