(* ===== verification/Migration.v ===== *)
(** * Schema migrations (wavedb-core/src/migration.rs)

    The registry's two edge maps and its list of entries, the breadth-first
    [resolve] and [can_rollback] with their queue and visited map, and the two
    chain executors.  Loops carry fuel; the theorems show the fuel given is
    enough. *)
From S2P Require Import Prelude Bfs.
From stdpp Require Import relations.

(** [crate::Error], as far as this module raises it or passes it through. *)
Inductive MigrationError : Type :=
  | NoMigrationPath (from to : Z)
  | MigrationSer (msg : string)
  | MigrationDe (msg : string)
  | OtherError (msg : string).

Record VersionRef : Type := { vr_struct_id : Z; vr_version : Z }.

#[export] Instance VersionRef_eq_dec : EqDecision VersionRef.
Proof. solve_decision. Defined.

#[export] Instance VersionRef_countable : Countable VersionRef.
Proof.
  refine (inj_countable' (fun v => (vr_struct_id v, vr_version v))
    (fun p => {| vr_struct_id := p.1; vr_version := p.2 |}) _).
  by intros [].
Defined.

Definition ErasedMigrateFn : Type := list byte -> outcome MigrationError (list byte).

Record MigrationEntry : Type := {
  me_from : VersionRef;
  me_to : VersionRef;
  migrate_fn : ErasedMigrateFn;
  rollback_fn : option ErasedMigrateFn
}.

Record MigrationStep : Type := {
  step_from : VersionRef;
  step_to : VersionRef;
  is_rollback : bool
}.

Definition MigrationPlan : Type := list MigrationStep.

Abbreviation Edges := (gmap VersionRef (list (VersionRef * bool))).

Record MigrationRegistry : Type := {
  forward : Edges;
  backward : Edges;
  entries : list MigrationEntry
}.

Definition registry_new : MigrationRegistry :=
  {| forward := ∅; backward := ∅; entries := [] |}.

(** [map.entry(k).or_default().push(e)]. *)
Definition push_edge (k : VersionRef) (e : VersionRef * bool) (m : Edges) : Edges :=
  <[k := default [] (m !! k) ++ [e]]> m.

Definition register_forward (from to : VersionRef) (r : MigrationRegistry) :=
  {| forward := push_edge from (to, false) (forward r);
     backward := backward r; entries := entries r |}.

Definition register_with_rollback (from to : VersionRef) (r : MigrationRegistry) :=
  {| forward := push_edge from (to, true) (forward r);
     backward := push_edge to (from, true) (backward r); entries := entries r |}.

Definition register_rollback (future target : VersionRef) (r : MigrationRegistry) :=
  {| forward := forward r;
     backward := push_edge future (target, true) (backward r); entries := entries r |}.

Definition register_compose (sources : list VersionRef) (target : VersionRef)
    (has_rollback : bool) (r : MigrationRegistry) : MigrationRegistry :=
  foldl (fun r src =>
    {| forward := push_edge src (target, has_rollback) (forward r);
       backward := if has_rollback then push_edge target (src, true) (backward r)
                   else backward r;
       entries := entries r |}) r sources.

Definition register_with_entry (e : MigrationEntry) (r : MigrationRegistry) :=
  let r := match rollback_fn e with
           | Some _ => register_with_rollback (me_from e) (me_to e) r
           | None => register_forward (me_from e) (me_to e) r
           end in
  {| forward := forward r; backward := backward r; entries := entries r ++ [e] |}.

(** ** Breadth-first search *)

(** The [for] loop over the neighbours of [current]. *)
Definition visit_forward (current : VersionRef)
    (s : gmap VersionRef VersionRef * list VersionRef) (e : VersionRef * bool) :=
  let '(visited, queue) := s in
  let '(next, _) := e in
  match visited !! next with
  | None => (<[next := current]> visited, queue ++ [next])
  | Some _ => (visited, queue)
  end.

(** The path reconstruction loop: from [cursor] back to [from], the step nearest
    the target first; [visited[&cursor]] panics on a missing key. *)
Fixpoint walk_back (fuel : nat) (visited : gmap VersionRef VersionRef)
    (from cursor : VersionRef) : outcome MigrationError (list MigrationStep) :=
  if decide (cursor = from) then Done []
  else match fuel with
  | O => Fault
  | S fuel =>
    let* prev := expect (visited !! cursor) in
    let* path := walk_back fuel visited from prev in
    Done ({| step_from := prev; step_to := cursor; is_rollback := false |} :: path)
  end.

Fixpoint resolve_loop (fuel : nat) (fwd : Edges) (from to : VersionRef)
    (visited : gmap VersionRef VersionRef) (queue : list VersionRef)
    : outcome MigrationError MigrationPlan :=
  match queue with
  | [] => Fail (NoMigrationPath (vr_version from) (vr_version to))
  | current :: queue =>
    if decide (current = to) then
      let* path := walk_back (size visited) visited from to in
      Done (reverse path)
    else match fuel with
    | O => Fault
    | S fuel =>
      let '(visited, queue) :=
        match fwd !! current with
        | Some neighbors => foldl (visit_forward current) (visited, queue) neighbors
        | None => (visited, queue)
        end in
      resolve_loop fuel fwd from to visited queue
    end
  end.

(** [migration_count]: the number of forward edges. *)
Definition edge_count (m : Edges) : nat :=
  map_fold (fun _ es n => (length es + n)%nat) 0%nat m.

Definition migration_count (r : MigrationRegistry) : nat := edge_count (forward r).

(** A vertex enters the queue once, so one iteration per vertex is enough. *)
Definition resolve (r : MigrationRegistry) (from to : VersionRef)
    : outcome MigrationError MigrationPlan :=
  if decide (from = to) then Done []
  else resolve_loop (S (migration_count r)) (forward r) from to {[from := from]} [from].

Definition visit_backward (s : gset VersionRef * list VersionRef)
    (e : VersionRef * bool) : gset VersionRef * list VersionRef :=
  let '(visited, queue) := s in
  let '(next, _) := e in
  if decide (next ∈ visited) then (visited, queue)
  else ({[next]} ∪ visited, queue ++ [next]).

Fixpoint rollback_loop (fuel : nat) (bwd : Edges) (to : VersionRef)
    (visited : gset VersionRef) (queue : list VersionRef) : outcome MigrationError bool :=
  match queue with
  | [] => Done false
  | current :: queue =>
    if decide (current = to) then Done true
    else match fuel with
    | O => Fault
    | S fuel =>
      let '(visited, queue) :=
        match bwd !! current with
        | Some neighbors => foldl visit_backward (visited, queue) neighbors
        | None => (visited, queue)
        end in
      rollback_loop fuel bwd to visited queue
    end
  end.

Definition can_rollback (r : MigrationRegistry) (from to : VersionRef)
    : outcome MigrationError bool :=
  if decide (from = to) then Done true
  else rollback_loop (S (edge_count (backward r))) (backward r) to {[from]} [from].

(** ** Running a chain *)

Definition find_entry (r : MigrationRegistry) (from to : VersionRef)
    : outcome MigrationError MigrationEntry :=
  match list_find (fun e => me_from e = from /\ me_to e = to) (entries r) with
  | Some (_, e) => Done e
  | None => Fail (NoMigrationPath (vr_version from) (vr_version to))
  end.

Definition migrate_chain (r : MigrationRegistry) (from to : VersionRef)
    (bytes : list byte) : outcome MigrationError (list byte) :=
  let* plan := resolve r from to in
  ofold (fun current step =>
    let* entry := find_entry r (step_from step) (step_to step) in
    migrate_fn entry current) bytes plan.

Definition rollback_chain (r : MigrationRegistry) (from to : VersionRef)
    (bytes : list byte) : outcome MigrationError (list byte) :=
  let* forward_plan := resolve r to from in
  ofold (fun current step =>
    let* entry := find_entry r (step_from step) (step_to step) in
    let* rollback := ok_or (rollback_fn entry)
      (NoMigrationPath (vr_version (step_to step)) (vr_version (step_from step))) in
    rollback current) bytes (reverse forward_plan).

(** ** Correctness of the search *)

(** The versions one registered edge away. *)
Definition neighbors (m : Edges) (v : VersionRef) : list VersionRef :=
  map fst (default [] (m !! v)).

(** [n] registered edges lead from one version to another. *)
Definition reaches (m : Edges) (n : nat) : VersionRef -> VersionRef -> Prop :=
  nsteps (edge (neighbors m)) n.

(** A plan is a path: consecutive steps, each a registered forward edge. *)
Fixpoint plan_path (m : Edges) (from : VersionRef) (p : MigrationPlan) (to : VersionRef) : Prop :=
  match p with
  | [] => from = to
  | s :: p => step_from s = from /\ edge (neighbors m) from (step_to s) /\
              is_rollback s = false /\ plan_path m (step_to s) p to
  end.

Lemma plan_path_snoc m from p s to :
  plan_path m from p (step_from s) -> edge (neighbors m) (step_from s) (step_to s) ->
  is_rollback s = false -> to = step_to s -> plan_path m from (p ++ [s]) to.
Proof.
  revert from. induction p as [|s' p IH]; intros from; simpl.
  - intros -> ? ? ->. done.
  - intros (? & ? & ? & Hp) ? ? ->. split_and!; auto.
Qed.

Lemma plan_path_reaches m from p to :
  plan_path m from p to -> reaches m (length p) from to.
Proof.
  revert from. induction p as [|s p IH]; intros from; simpl.
  - intros ->. constructor.
  - intros (? & ? & _ & Hp). econstructor; [done | by apply IH].
Qed.

Definition targets (m : Edges) : list VersionRef :=
  concat (map (fun p => map fst p.2) (map_to_list m)).

Lemma length_targets m : length (targets m) = edge_count m.
Proof.
  unfold targets, edge_count. rewrite map_fold_foldr.
  induction (map_to_list m) as [|[k es] l IH]; simpl; [done|].
  by rewrite length_app, length_map, IH.
Qed.

Lemma neighbors_targets m u v : v ∈ neighbors m u -> v ∈ targets m.
Proof.
  unfold neighbors, targets. destruct (m !! u) as [es|] eqn:E; simpl; [|set_solver].
  intros Hv. apply elem_of_map_to_list in E.
  apply list_elem_of_In in Hv, E. apply list_elem_of_In, in_concat.
  eexists. split; [|done]. apply in_map_iff. by exists (u, es).
Qed.

(** No search visits more vertices than its start and the edges' targets. *)
Lemma visited_bound m (src : VersionRef) (vis : gset VersionRef) :
  (forall v, v ∈ vis -> v = src \/ v ∈ targets m) -> (size vis <= S (edge_count m))%nat.
Proof.
  intros Hv. rewrite <- length_targets.
  assert (vis ⊆ {[src]} ∪ list_to_set (targets m)) as Hs.
  { intros v [->|H]%Hv; [set_solver|]. apply elem_of_union_r, elem_of_list_to_set, H. }
  apply subseteq_size in Hs. rewrite size_union_alt, size_singleton in Hs.
  assert (list_to_set (targets m) ∖ {[src]} ⊆ (list_to_set (targets m) : gset VersionRef))
    as Hd%subseteq_size by set_solver.
  pose proof (size_list_le (C := gset VersionRef) (targets m)). lia.
Qed.

Section resolve.
Context (fwd : Edges) (from : VersionRef).
Abbreviation succ := (neighbors fwd).

(** The parent map of the search: its domain is the visited set. *)
Record Parents (visited : gmap VersionRef VersionRef) (d : VersionRef -> nat) : Prop := {
  pa_step : forall v p, visited !! v = Some p -> v <> from ->
    p ∈ dom visited /\ edge succ p v /\ d v = S (d p);
  pa_seen : forall v, v ∈ dom visited -> v = from \/ v ∈ targets fwd
}.

Lemma parents_push visited d cur w :
  w ∉ dom visited -> cur ∈ dom visited -> edge succ cur w ->
  Parents visited d -> Parents (<[w := cur]> visited) (push_dist d cur w).
Proof.
  intros Hw Hcur He [H1 H2]. constructor.
  - intros v p [[<- <-]|[Hne Hv]]%lookup_insert_Some Hf.
    + rewrite push_dist_new, push_dist_old by congruence. set_solver.
    + destruct (H1 v p Hv Hf) as (Hp & Hpv & Hd).
      rewrite !push_dist_old by congruence. set_solver.
  - intros v. rewrite dom_insert. intros [->%elem_of_singleton|Hv]%elem_of_union; [|auto].
    right. eapply neighbors_targets. exact He.
Qed.

Lemma visit_fold cur es visited queue d :
  Expanding succ from cur (map fst es) (dom visited) queue d -> Parents visited d ->
  let s := foldl (visit_forward cur) (visited, queue) es in
  exists d', Expanding succ from cur [] (dom s.1) s.2 d' /\ Parents s.1 d' /\
    (size (dom s.1) + length queue = size (dom visited) + length s.2)%nat.
Proof.
  revert visited queue d. induction es as [|[w b] es IH]; intros visited queue d HE HP.
  - by exists d.
  - simpl in HE |- *. destruct (visited !! w) as [p|] eqn:Hw.
    + apply (IH _ _ d); [|done]. eapply expanding_old; [|exact HE].
      by apply elem_of_dom_2 in Hw.
    + assert (w ∉ dom visited) as Hnw by by apply not_elem_of_dom.
      destruct (IH (<[w := cur]> visited) (queue ++ [w]) (push_dist d cur w))
        as (d' & HE' & HP' & Hl).
      * rewrite dom_insert_L. by apply expanding_new.
      * apply parents_push; [done | by apply (ex_cur _ _ _ _ _ _ _ HE)
          | apply (ex_pending _ _ _ _ _ _ _ HE); by left | done].
      * exists d'. split_and!; [done..|].
        rewrite dom_insert_L, size_union, size_singleton, length_app in Hl by set_solver.
        simpl in Hl. lia.
Qed.

Lemma walk_back_path visited d fuel cursor :
  Parents visited d -> cursor ∈ dom visited -> d from = 0%nat -> (d cursor <= fuel)%nat ->
  exists path, walk_back fuel visited from cursor = Done path /\
    length path = d cursor /\ plan_path fwd from (reverse path) cursor.
Proof.
  intros HP Hin H0. revert cursor Hin. induction fuel as [|fuel IH]; intros cursor Hin Hd;
    simpl; (destruct (decide (cursor = from)) as [->|Hne]; [exists []; by rewrite H0|]);
    apply elem_of_dom in Hin as [p Hp]; destruct (pa_step _ _ HP _ _ Hp Hne) as (Hpi & He & Hs).
  - lia.
  - rewrite Hp. simpl. destruct (IH p Hpi ltac:(lia)) as (path & -> & Hl & Hpp). simpl.
    eexists. split; [done|]. split; [simpl; lia|].
    rewrite reverse_cons. by eapply plan_path_snoc.
Qed.

(** The plan found is a shortest path, an error means there is none, and the
    loop never outlives its fuel. *)
Definition resolved (to : VersionRef) (m : outcome MigrationError MigrationPlan) : Prop :=
  match m with
  | Done plan => plan_path fwd from plan to /\
                 forall n, reaches fwd n from to -> (length plan <= n)%nat
  | Fail e => e = NoMigrationPath (vr_version from) (vr_version to) /\
              forall n, ~ reaches fwd n from to
  | Fault => False
  end.

Lemma resolve_loop_correct to fuel visited queue d :
  Frontier succ from (dom visited) queue d -> Parents visited d ->
  (to ∈ dom visited -> to ∈ queue) ->
  (S (edge_count fwd) + length queue <= fuel + size (dom visited))%nat ->
  resolved to (resolve_loop fuel fwd from to visited queue).
Proof.
  revert visited queue d. induction fuel as [|fuel IH]; intros visited queue d HF HP Hto Hfuel;
    (destruct queue as [|cur queue]; simpl;
      [split; [done|]; intros n Hn; eapply frontier_complete in Hn; [|exact HF];
       by apply Hto, not_elem_of_nil in Hn|]);
    (destruct (decide (cur = to)) as [->|Hne];
      [destruct (walk_back_path visited d (size visited) to) as (path & -> & Hl & Hp);
       [done | eapply fr_queue; [done|by left] | apply HF | |simpl]|]).
  - assert (to ∈ dom visited) as Hin by (eapply fr_queue; [done|by left]).
    apply (fr_small _ _ _ _ _ HF) in Hin. rewrite size_dom in Hin. lia.
  - split; [done|]. intros n Hn. rewrite length_reverse, Hl.
    by eapply frontier_shortest.
  - pose proof (visited_bound fwd from (dom visited) (pa_seen _ _ HP)). simpl in *. lia.
  - assert (to ∈ dom visited) as Hin by (eapply fr_queue; [done|by left]).
    apply (fr_small _ _ _ _ _ HF) in Hin. rewrite size_dom in Hin. lia.
  - split; [done|]. intros n Hn. rewrite length_reverse, Hl.
    by eapply frontier_shortest.
  - apply frontier_pop in HF. unfold neighbors in HF at 2.
    destruct (fwd !! cur) as [es|]; simpl in HF.
    + destruct (visit_fold cur es visited queue d HF HP) as (d' & HF' & HP' & Hl).
      assert (to ∈ dom (foldl (visit_forward cur) (visited, queue) es).1 ->
              to ∈ (foldl (visit_forward cur) (visited, queue) es).2) as Hto'.
      { clear -Hto Hne. assert (to ∈ dom visited -> to ∈ queue) as H by set_solver.
        clear Hto. revert visited queue H. induction es as [|[w b] es IHe];
          intros visited queue H; simpl; [done|].
        destruct (visited !! w); apply IHe; set_solver. }
      destruct (foldl (visit_forward cur) (visited, queue) es) as [vis' q']. simpl in *.
      apply (IH _ _ d'); [by eapply expanding_done | done | done | lia].
    + apply (IH _ _ d); [by eapply expanding_done | done | set_solver | simpl in *; lia].
Qed.
End resolve.

Lemma resolve_correct r from to : resolved (forward r) from to (resolve r from to).
Proof.
  unfold resolve. destruct (decide (from = to)) as [->|Hne];
    [split; [done|]; simpl; intros; lia|].
  apply (resolve_loop_correct _ _ _ _ _ _ (fun _ => 0%nat)).
  - rewrite dom_singleton_L. apply frontier_init.
  - constructor.
    + intros v p [-> ->]%lookup_singleton_Some. done.
    + set_solver.
  - rewrite dom_singleton_L. intros ->%elem_of_singleton. done.
  - rewrite dom_singleton_L, size_singleton. unfold migration_count. simpl. lia.
Qed.

(** ** The rollback search *)

Lemma rollback_fold bwd from cur es visited queue d :
  Expanding (neighbors bwd) from cur (map fst es) visited queue d ->
  (forall v, v ∈ visited -> v = from \/ v ∈ targets bwd) ->
  let s := foldl visit_backward (visited, queue) es in
  exists d', Expanding (neighbors bwd) from cur [] s.1 s.2 d' /\
    (forall v, v ∈ s.1 -> v = from \/ v ∈ targets bwd) /\
    (forall v, v ∈ s.1 -> v ∈ visited \/ v ∈ s.2) /\ (forall v, v ∈ queue -> v ∈ s.2) /\
    (size s.1 + length queue = size visited + length s.2)%nat.
Proof.
  revert visited queue d. induction es as [|[w b] es IH]; intros visited queue d HE HS.
  - exists d. split_and!; auto.
  - simpl in HE |- *. destruct (decide (w ∈ visited)) as [Hw|Hw].
    + apply (IH _ _ d); [|done]. by eapply expanding_old.
    + destruct (IH ({[w]} ∪ visited) (queue ++ [w]) (push_dist d cur w))
        as (d' & HE' & HS' & Hc & Hq & Hl).
      * by apply expanding_new.
      * intros v [->%elem_of_singleton|Hv]%elem_of_union; [|auto]. right.
        eapply neighbors_targets, (ex_pending _ _ _ _ _ _ _ HE). by left.
      * exists d'. rewrite size_union, size_singleton, length_app in Hl by set_solver.
        simpl in Hl. split_and!; [done|done| | |lia].
        -- intros v [[->%elem_of_singleton|Hv]%elem_of_union|Hv]%Hc; auto.
           right. apply Hq, elem_of_app. right. by left.
        -- intros v Hv. apply Hq, elem_of_app. by left.
Qed.

Lemma rollback_loop_correct bwd from to fuel visited queue d :
  Frontier (neighbors bwd) from visited queue d ->
  (forall v, v ∈ visited -> v = from \/ v ∈ targets bwd) ->
  (to ∈ visited -> to ∈ queue) ->
  (S (edge_count bwd) + length queue <= fuel + size visited)%nat ->
  exists b, rollback_loop fuel bwd to visited queue = Done b /\
    (b = true <-> exists n, reaches bwd n from to).
Proof.
  revert visited queue d. induction fuel as [|fuel IH]; intros visited queue d HF HS Hto Hfuel;
    (destruct queue as [|cur queue]; simpl;
      [exists false; split; [done|]; split; [done|]; intros [n Hn];
       eapply frontier_complete in Hn; [|exact HF]; by apply Hto, not_elem_of_nil in Hn|]);
    (destruct (decide (cur = to)) as [->|Hne];
      [exists true; split; [done|]; split; [|done]; intros _; exists (d to);
       apply (fr_path _ _ _ _ _ HF), (fr_queue _ _ _ _ _ HF); by left|]).
  - pose proof (visited_bound bwd from visited HS). simpl in *. lia.
  - apply frontier_pop in HF. unfold neighbors in HF at 2.
    destruct (bwd !! cur) as [es|]; simpl in HF.
    + destruct (rollback_fold bwd from cur es visited queue d HF HS)
        as (d' & HF' & HS' & Hc & Hq & Hl).
      destruct (foldl visit_backward (visited, queue) es) as [vis' q']. simpl in *.
      apply (IH _ _ d'); [by eapply expanding_done | done | | lia].
      intros [Hv|Hv]%Hc; [|done]. by apply Hto, elem_of_cons in Hv as [->|Hv]; [|apply Hq].
    + apply (IH _ _ d); [by eapply expanding_done | done | set_solver | simpl in *; lia].
Qed.

(** ** Properties *)

(** C13: [resolve] returns a shortest chain of registered forward edges from one
    version to the other, and fails, with [NoMigrationPath], only when no chain
    of any length exists; its loops always end. *)
Theorem resolve_shortest (r : MigrationRegistry) (from to : VersionRef) :
  match resolve r from to with
  | Done plan => plan_path (forward r) from plan to /\
                 forall n, reaches (forward r) n from to -> (length plan <= n)%nat
  | Fail e => e = NoMigrationPath (vr_version from) (vr_version to) /\
              forall n, ~ reaches (forward r) n from to
  | Fault => False
  end.
Proof. apply resolve_correct. Qed.

(** [can_rollback] terminates and answers exactly whether the registered
    backward edges lead from one version to the other. *)
Theorem can_rollback_reachable (r : MigrationRegistry) (from to : VersionRef) :
  exists b, can_rollback r from to = Done b /\
    (b = true <-> exists n, reaches (backward r) n from to).
Proof.
  unfold can_rollback. destruct (decide (from = to)) as [->|Hne].
  - exists true. split; [done|]. split; [|done]. intros _. exists 0%nat. constructor.
  - apply (rollback_loop_correct _ from _ _ _ _ (fun _ => 0%nat)).
    + apply frontier_init.
    + set_solver.
    + intros ->%elem_of_singleton. done.
    + rewrite size_singleton. simpl. lia.
Qed.

Definition run_forward (r : MigrationRegistry) (current : list byte) (step : MigrationStep) :=
  let* entry := find_entry r (step_from step) (step_to step) in
  migrate_fn entry current.

Definition run_backward (r : MigrationRegistry) (current : list byte) (step : MigrationStep) :=
  let* entry := find_entry r (step_from step) (step_to step) in
  let* rollback := ok_or (rollback_fn entry)
    (NoMigrationPath (vr_version (step_to step)) (vr_version (step_from step))) in
  rollback current.

(** Every entry has a rollback that undoes its migration. *)
Definition invertible (r : MigrationRegistry) : Prop :=
  forall e, e ∈ entries r -> exists g, rollback_fn e = Some g /\
    forall b b', migrate_fn e b = Done b' -> g b' = Done b.

Lemma find_entry_elem r from to e : find_entry r from to = Done e -> e ∈ entries r.
Proof.
  unfold find_entry. destruct (list_find _ _) as [[i x]|] eqn:E; [|done].
  intros [= <-]. apply list_find_Some in E as [E _]. by eapply list_elem_of_lookup_2.
Qed.

Lemma run_backward_forward r b b' s :
  invertible r -> run_forward r b s = Done b' -> run_backward r b' s = Done b.
Proof.
  unfold run_forward, run_backward. intros Hr.
  destruct (find_entry r _ _) as [e| |] eqn:E; simpl; [|done..]. intros Hb.
  destruct (Hr e) as (g & -> & Hg); [by eapply find_entry_elem|]. simpl. auto.
Qed.

Lemma run_reverse r plan b b' :
  invertible r -> ofold (run_forward r) b plan = Done b' ->
  ofold (run_backward r) b' (reverse plan) = Done b.
Proof.
  intros Hr. revert b. induction plan as [|s plan IH]; intros b; simpl; [by intros [= ->]|].
  intros (b1 & H1 & H2)%obind_done. rewrite reverse_cons, ofold_app, (IH _ H2). simpl.
  by rewrite (run_backward_forward r b b1).
Qed.

(** Rolling a record back undoes migrating it: when every registered entry
    has a rollback that inverts its migration, [rollback_chain] after a
    successful [migrate_chain] between the same versions gives the original
    bytes. *)
Theorem rollback_undoes_migrate (r : MigrationRegistry) (from to : VersionRef)
    (bytes out : list byte) :
  invertible r -> migrate_chain r from to bytes = Done out ->
  rollback_chain r to from out = Done bytes.
Proof.
  unfold migrate_chain, rollback_chain. intros Hr.
  destruct (resolve r from to) as [plan| |]; simpl; [|done..]. by apply run_reverse.
Qed.

(** One step that appends a zero byte, and its inverse. *)
Definition demo_entry : MigrationEntry := {|
  me_from := {| vr_struct_id := 7; vr_version := 1 |};
  me_to := {| vr_struct_id := 7; vr_version := 2 |};
  migrate_fn b := Done (b ++ [Byte.x00]);
  rollback_fn := Some (fun b =>
    match last b with
    | Some Byte.x00 => Done (take (length b - 1) b)
    | _ => Fail (OtherError "no field to drop")
    end)
|}.

Lemma demo_invertible : invertible (register_with_entry demo_entry registry_new).
Proof.
  intros e [->|He]%elem_of_cons; [|by apply not_elem_of_nil in He].
  eexists. split; [done|]. intros b b' [= <-].
  rewrite last_snoc, length_app. simpl. by rewrite Nat.add_sub, take_app_length.
Qed.

Lemma rollback_undoes_migrate_witness :
  rollback_chain (register_with_entry demo_entry registry_new)
    {| vr_struct_id := 7; vr_version := 2 |} {| vr_struct_id := 7; vr_version := 1 |}
    [Byte.x05; Byte.x00] = Done [Byte.x05].
Proof.
  apply (rollback_undoes_migrate (register_with_entry demo_entry registry_new)
    {| vr_struct_id := 7; vr_version := 1 |} {| vr_struct_id := 7; vr_version := 2 |}
    [Byte.x05] [Byte.x05; Byte.x00]); [exact demo_invertible | by vm_compute].
Defined.
