(* ===== verification/Errors.v ===== *)
(** * Storage errors (wavedb-storage/src/error.rs) *)
From S2P Require Import Prelude Wire.

(** Messages of [Other] are kept as strings; a floating-point field is its bit
    pattern. *)
Inductive StorageError : Type :=
  | Io (msg : string)
  | Serialization (e : WireError)
  | ChecksumMismatch (page_index expected actual : Z)
  | PageFull (index : Z)
  | NotFound
  | RebalanceNeeded (fill_ratio_bits : Z)
  | OrphanSecondary
  | Other (msg : string).

Definition StorageResult (A : Type) : Type := outcome StorageError A.

(** The [From<WireError>] conversion of the [?] operator. *)
Definition ser {A} (m : WireResult A) : StorageResult A := omap_err Serialization m.
