(* ===== verification/Page.v ===== *)
(** * Slotted pages (wavedb-storage/src/page.rs)

    A page is its header, its directory in insertion order and its [data]
    bytes.  Offsets and sizes are the [u32] values of the source; slicing out of
    range and the overflows of unsigned arithmetic are [Fault]. *)
From S2P Require Import Prelude Wire WireOk Errors.

(** ** Data *)

Record PageHeader : Type := {
  checksum : Z;
  entry_count : Z;
  stack_offset : Z;
  heap_offset : Z;
  dict_version : Z
}.

Definition HEADER_SIZE : Z := 20.

Definition header_new (page_size : Z) : PageHeader := {|
  checksum := 0; entry_count := 0; stack_offset := HEADER_SIZE;
  heap_offset := page_size; dict_version := 0 |}.

(** [saturating_sub]. *)
Definition free_space (h : PageHeader) : Z := Z.max 0 (heap_offset h - stack_offset h).

Record DirEntry : Type := { de_id : Z; de_offset : Z; de_size : Z }.

(** [size_of::<DirEntry>()]: a [u128] and two [u32] at the 16-byte alignment of
    [u128]. *)
Definition DIR_ENTRY_SIZE : Z := 32.

Record Page : Type := {
  header : PageHeader;
  directory : list DirEntry;
  data : list byte;
  page_size : Z
}.

(** ** Operations *)

Definition page_new (size : Z) : StorageResult Page :=
  do* guard (fitsb 32 size) in
  Done {| header := header_new size; directory := [];
          data := replicate (Z.to_nat size) Byte.x00; page_size := size |}.

Definition find_dir (id : Z) (dir : list DirEntry) : option DirEntry :=
  List.find (fun e => de_id e =? id) dir.

Definition page_lookup (p : Page) (id : Z) : StorageResult (option (list byte)) :=
  match find_dir id (directory p) with
  | None => Done None
  | Some e => let* bs := expect (sub (de_offset e) (de_offset e + de_size e) (data p)) in
              Done (Some bs)
  end.

Definition set_header (p : Page) (h : PageHeader) : Page :=
  {| header := h; directory := directory p; data := data p; page_size := page_size p |}.

Definition page_insert (p : Page) (id : Z) (bytes : list byte) : StorageResult (Page * bool) :=
  do* guard (fitsb 32 (zlen bytes)) in
  let needed := DIR_ENTRY_SIZE + zlen bytes in
  do* guard (fitsb 32 needed) in
  if free_space (header p) <? needed then Done (p, false)
  else
    let offset := stack_offset (header p) in
    let end_ := offset + zlen bytes in
    let* data := expect (put offset bytes (data p)) in
    do* guard (fitsb 32 end_ && fitsb 32 (entry_count (header p) + 1)) in
    Done ({| header := {| checksum := checksum (header p);
                          entry_count := entry_count (header p) + 1;
                          stack_offset := end_;
                          heap_offset := heap_offset (header p);
                          dict_version := dict_version (header p) |};
             directory := directory p ++ [{| de_id := id; de_offset := offset;
                                             de_size := zlen bytes |}];
             data := data;
             page_size := page_size p |}, true).

Definition page_remove (p : Page) (id : Z) : StorageResult (Page * bool) :=
  let before := length (directory p) in
  let dir := filter (fun e => de_id e <> id) (directory p) in
  let removed := bool_decide (length dir < before)%nat in
  do* guard (negb removed || fitsb 32 (zlen dir)) in
  Done ({| header := {| checksum := checksum (header p);
                        entry_count := if removed then zlen dir else entry_count (header p);
                        stack_offset := stack_offset (header p);
                        heap_offset := heap_offset (header p);
                        dict_version := dict_version (header p) |};
           directory := dir; data := data p; page_size := page_size p |}, removed).

(** The loop of [compact]: each entry's bytes go to the end of [packed] and its
    offset becomes the place where they will be copied. *)
Fixpoint pack_entries (data : list byte) (dir : list DirEntry) (packed : list byte)
    : StorageResult (list DirEntry * list byte) :=
  match dir with
  | [] => Done ([], packed)
  | e :: dir =>
    let* bs := expect (sub (de_offset e) (de_offset e + de_size e) data) in
    let e' := {| de_id := de_id e; de_offset := wrap 32 (HEADER_SIZE + zlen packed);
                 de_size := de_size e |} in
    let* (dir, packed) := pack_entries data dir (packed ++ bs) in
    Done (e' :: dir, packed)
  end.

Definition page_compact (p : Page) : StorageResult Page :=
  let* (dir, packed) := pack_entries (data p) (directory p) [] in
  let start := HEADER_SIZE in
  let end_ := start + zlen packed in
  let* data := expect (put start packed (data p)) in
  let heap_start := heap_offset (header p) in
  do* guard ((end_ <=? heap_start) && (heap_start <=? zlen data)) in
  let* data := expect (put end_ (replicate (Z.to_nat (heap_start - end_)) Byte.x00) data) in
  do* guard (fitsb 32 end_) in
  Done {| header := {| checksum := checksum (header p);
                       entry_count := entry_count (header p);
                       stack_offset := end_;
                       heap_offset := heap_offset (header p);
                       dict_version := dict_version (header p) |};
          directory := dir; data := data; page_size := page_size p |}.

Definition live_bytes (dir : list DirEntry) : Z := foldr (fun e n => de_size e + n) 0 dir.

Definition page_upsert (p : Page) (id : Z) (bytes : list byte) : StorageResult (Page * bool) :=
  let* (p, _) := page_remove p id in
  let* (p, ok) := page_insert p id bytes in
  if (ok : bool) then Done (p, true)
  else
    let live := live_bytes (directory p) in
    let cost := HEADER_SIZE + (zlen (directory p) + 1) * DIR_ENTRY_SIZE in
    do* guard (cost <=? heap_offset (header p)) in
    let capacity := heap_offset (header p) - cost in
    if capacity <? live + zlen bytes then Done (p, false)
    else
      let* p := page_compact p in
      page_insert p id bytes.

(** ** Checksum; [crc] is the crc32fast crate's hash. *)
Section checksum.
Context (crc : list byte -> Z).

Definition compute_checksum (p : Page) : StorageResult Z :=
  let* body := expect (sub HEADER_SIZE (zlen (data p)) (data p)) in
  Done (crc body).

Definition update_checksum (p : Page) : StorageResult Page :=
  let* c := compute_checksum p in
  Done (set_header p {| checksum := c; entry_count := entry_count (header p);
                        stack_offset := stack_offset (header p);
                        heap_offset := heap_offset (header p);
                        dict_version := dict_version (header p) |}).

Definition verify_checksum (p : Page) : StorageResult unit :=
  let* actual := compute_checksum p in
  if actual =? checksum (header p) then Done tt
  else Fail (ChecksumMismatch 0 (checksum (header p)) actual).
End checksum.

(** ** The invariant *)

(** The entries occupy successive disjoint non-empty ranges between [lo] and
    [hi]: every caller stores a wire encoding, none of which is empty. *)
Fixpoint laid_out (lo : Z) (dir : list DirEntry) (hi : Z) : Prop :=
  match dir with
  | [] => lo <= hi
  | e :: dir => lo <= de_offset e /\ 0 < de_size e /\
                laid_out (de_offset e + de_size e) dir hi
  end.

Record page_ok (p : Page) : Prop := {
  pk_size : zlen (data p) = page_size p;
  pk_heap : HEADER_SIZE <= stack_offset (header p) <= heap_offset (header p);
  pk_fit : heap_offset (header p) <= page_size p /\ page_size p < 2 ^ 32;
  pk_count : entry_count (header p) = zlen (directory p) /\ zlen (directory p) < 2 ^ 32;
  pk_dir : laid_out HEADER_SIZE (directory p) (stack_offset (header p))
}.

(** The contents: what [lookup] returns, as a partial map. *)
Definition contents (p : Page) (id : Z) : option (list byte) :=
  e ← find_dir id (directory p); sub (de_offset e) (de_offset e + de_size e) (data p).

(** [insert] adds [32] bytes of directory cost per entry to its check but
    charges none of it, so the capacity computation of [upsert] stays in range
    only while this holds. *)
Definition directory_fits (p : Page) : Prop :=
  HEADER_SIZE + (zlen (directory p) + 1) * DIR_ENTRY_SIZE <= heap_offset (header p).

(** ** Lemmas *)

Lemma laid_out_mono lo dir hi lo' hi' :
  lo' <= lo -> hi <= hi' -> laid_out lo dir hi -> laid_out lo' dir hi'.
Proof.
  revert lo lo'. induction dir as [|e dir IH]; intros lo lo'; simpl; [lia|].
  intros ? ? (? & ? & H). split_and!; [lia..|]. by eapply (IH _ _ (Z.le_refl _)).
Qed.

Lemma laid_out_le lo dir hi : laid_out lo dir hi -> lo <= hi.
Proof.
  revert lo. induction dir as [|e dir IH]; intros lo; simpl; [done|].
  intros (? & ? & ?%IH). lia.
Qed.

Lemma laid_out_app lo d1 d2 hi :
  laid_out lo (d1 ++ d2) hi <-> exists m, laid_out lo d1 m /\ laid_out m d2 hi.
Proof.
  revert lo. induction d1 as [|e d1 IH]; intros lo; simpl.
  - split; [intros H; exists lo; split; [lia|done]|].
    intros (m & Hm & H). by eapply laid_out_mono; [exact Hm| |].
  - rewrite IH. naive_solver.
Qed.

Lemma laid_out_elem lo dir hi e :
  laid_out lo dir hi -> e ∈ dir -> lo <= de_offset e /\ 0 < de_size e /\ de_offset e + de_size e <= hi.
Proof.
  revert lo. induction dir as [|x dir IH]; intros lo; [by intros _ ?%not_elem_of_nil|].
  simpl. intros (? & ? & H) [->|Hin]%elem_of_cons.
  - apply laid_out_le in H. lia.
  - destruct (IH _ H Hin) as (? & ? & ?). lia.
Qed.

Lemma laid_out_filter (P : DirEntry -> Prop) `{!forall e, Decision (P e)} lo dir hi :
  laid_out lo dir hi -> laid_out lo (filter P dir) hi.
Proof.
  revert lo. induction dir as [|e dir IH]; intros lo; [done|]. simpl.
  intros (? & ? & Hl). rewrite filter_cons. case_decide.
  - simpl. split_and!; [done..|]. by apply IH.
  - eapply laid_out_mono; [| |apply IH, Hl]; lia.
Qed.

Lemma laid_out_live lo dir hi : laid_out lo dir hi -> zlen dir <= live_bytes dir <= hi - lo.
Proof.
  revert lo. unfold zlen. induction dir as [|e dir IH]; intros lo; simpl; [lia|].
  intros (? & ? & ?%IH). lia.
Qed.

Lemma find_dir_elem id dir e : find_dir id dir = Some e -> e ∈ dir /\ de_id e = id.
Proof.
  unfold find_dir. intros [Hin E]%List.find_some.
  by apply list_elem_of_In in Hin; apply Z.eqb_eq in E.
Qed.

Lemma find_dir_app id d1 d2 :
  find_dir id (d1 ++ d2) = match find_dir id d1 with Some e => Some e | None => find_dir id d2 end.
Proof.
  apply find_app_first.
Qed.

Lemma find_dir_filter id id' dir :
  find_dir id (filter (fun e => de_id e <> id') dir) =
  if decide (id = id') then None else find_dir id dir.
Proof.
  unfold find_dir. induction dir as [|e dir IH]; simpl; [by case_decide|].
  rewrite filter_cons. destruct (decide (de_id e <> id')) as [Hn|Hn%dec_stable]; simpl.
  - destruct (Z.eqb_spec (de_id e) id) as [<-|]; [by rewrite decide_False | apply IH].
  - rewrite IH. case_decide; [done|].
    destruct (Z.eqb_spec (de_id e) id); congruence.
Qed.

Lemma find_dir_none_elem id dir e : find_dir id dir = None -> e ∈ dir -> de_id e <> id.
Proof.
  unfold find_dir. intros H Hin E. eapply List.find_none in H; [|by apply list_elem_of_In].
  simpl in H. lia.
Qed.

Lemma entry_stands p e :
  page_ok p -> e ∈ directory p ->
  exists bs, sub (de_offset e) (de_offset e + de_size e) (data p) = Some bs /\ zlen bs = de_size e.
Proof.
  intros H He. destruct (laid_out_elem _ _ _ _ (pk_dir _ H) He) as (? & ? & ?).
  pose proof (pk_size _ H). pose proof (pk_heap _ H). pose proof (pk_fit _ H).
  unfold HEADER_SIZE in *.
  destruct (sub_some (data p) (de_offset e) (de_offset e + de_size e)) as [bs Hbs]; [lia..|].
  exists bs. split; [done|]. apply sub_stands in Hbs as [_ E]. lia.
Qed.

(** [lookup] never panics on a well-formed page. *)
Lemma page_lookup_contents p id : page_ok p -> page_lookup p id = Done (contents p id).
Proof.
  intros H. unfold page_lookup, contents. destruct (find_dir id (directory p)) as [e|] eqn:E;
    simpl; [|done].
  apply find_dir_elem in E as [He _]. by destruct (entry_stands p e H He) as (bs & -> & _).
Qed.

(** The contents only depend on the bytes below the stack offset. *)
Lemma contents_put p a xs d h id :
  page_ok p -> stack_offset (header p) <= a -> put a xs (data p) = Some d ->
  contents {| header := h; directory := directory p; data := d; page_size := page_size p |} id
  = contents p id.
Proof.
  intros H Ha Hput. unfold contents; simpl.
  destruct (find_dir id (directory p)) as [e|] eqn:E; simpl; [|done].
  apply find_dir_elem in E as [He _].
  destruct (entry_stands p e H He) as (bs & Hbs & Hl). rewrite Hbs.
  apply sub_stands in Hbs as [Hst _].
  destruct (laid_out_elem _ _ _ _ (pk_dir _ H) He) as (? & ? & ?).
  apply sub_stands. split; [|lia]. eapply put_other; [done..|]. lia.
Qed.

Lemma page_new_ok size :
  HEADER_SIZE <= size < 2 ^ 32 ->
  exists p, page_new size = Done p /\ page_ok p /\ forall id, contents p id = None.
Proof.
  unfold HEADER_SIZE. intros Hs. unfold page_new.
  rewrite (proj2 (fitsb_spec 32 size)) by (unfold fits; lia). simpl.
  eexists. split; [done|]. split; [|done].
  constructor; simpl; unfold HEADER_SIZE, zlen; rewrite ?length_replicate; simpl; lia.
Qed.

Lemma page_remove_spec p id :
  page_ok p -> exists p' b, page_remove p id = Done (p', b) /\ page_ok p' /\
    (forall id', contents p' id' = if decide (id' = id) then None else contents p id') /\
    header p' = {| checksum := checksum (header p); entry_count := zlen (directory p');
                   stack_offset := stack_offset (header p);
                   heap_offset := heap_offset (header p);
                   dict_version := dict_version (header p) |} /\
    (b = true <-> contents p id <> None) /\
    zlen (directory p') <= zlen (directory p) /\ data p' = data p.
Proof.
  intros H. unfold page_remove.
  set (dir := filter _ (directory p)).
  assert (length dir <= length (directory p))%nat as Hlen by apply length_filter.
  destruct (pk_count _ H) as [Hc Hc32].
  assert (fitsb 32 (zlen dir) = true) as Hfit
    by (apply fitsb_spec; unfold fits, zlen in *; lia).
  rewrite Hfit, orb_true_r. simpl.
  assert ((if bool_decide (length dir < length (directory p))%nat then zlen dir
           else entry_count (header p)) = zlen dir) as Hcount.
  { case_bool_decide as Hlt; [done|]. rewrite Hc. unfold zlen in *. lia. }
  rewrite Hcount. eexists _, _. split; [done|]. split.
  { destruct H. constructor; simpl; [done..|by unfold zlen in *; lia|].
    by apply laid_out_filter. }
  split; [|split; [done|split]]; simpl.
  - intros id'. unfold contents; simpl. unfold dir. rewrite find_dir_filter.
    by destruct (decide (id' = id)).
  - rewrite bool_decide_eq_true. unfold contents.
    destruct (find_dir id (directory p)) as [e|] eqn:E; simpl.
    + apply find_dir_elem in E as [He <-]. destruct (entry_stands p e H He) as (bs & -> & _).
      split; [done|]. intros _. eapply length_filter_lt; [exact He|]. by intros [].
    + split; [|done]. intros Hlt. exfalso. unfold dir in Hlt.
      rewrite filter_all in Hlt; [lia|]. apply Forall_forall. intros e He.
      by eapply find_dir_none_elem.
  - split; [unfold zlen; lia | done].
Qed.

(** [insert] adds a binding that existing ones of the same identifier shadow; it
    refuses exactly when the free space does not cover the bytes and one
    directory entry. *)
Lemma page_insert_spec p id bytes :
  page_ok p -> 0 < zlen bytes -> zlen bytes + DIR_ENTRY_SIZE < 2 ^ 32 ->
  (free_space (header p) < DIR_ENTRY_SIZE + zlen bytes /\
   page_insert p id bytes = Done (p, false)) \/
  (DIR_ENTRY_SIZE + zlen bytes <= free_space (header p) /\
   exists p', page_insert p id bytes = Done (p', true) /\ page_ok p' /\
   directory p' = directory p ++ [{| de_id := id; de_offset := stack_offset (header p);
                                     de_size := zlen bytes |}] /\
   heap_offset (header p') = heap_offset (header p) /\
   forall id', contents p' id' =
     match contents p id' with
     | Some bs => Some bs
     | None => if decide (id' = id) then Some bytes else None
     end).
Proof.
  intros H Hne Hb. unfold page_insert, DIR_ENTRY_SIZE in *.
  rewrite (proj2 (fitsb_spec 32 (zlen bytes))) by (unfold fits; lia).
  rewrite (proj2 (fitsb_spec 32 (32 + zlen bytes))) by (unfold fits; lia). simpl.
  destruct (Z.ltb_spec (free_space (header p)) (32 + zlen bytes)) as [Hf|Hf]; [by left|].
  right. split; [done|]. unfold free_space in Hf.
  pose proof H as [Hs Hh [Hp1 Hp2] [Hn _] Hd]. unfold HEADER_SIZE in *.
  pose proof (laid_out_live _ _ _ Hd). pose proof (zlen_nonneg (directory p)).
  destruct (put (stack_offset (header p)) bytes (data p)) as [d|] eqn:Hput;
    [|by rewrite put_some in Hput by lia].
  simpl. rewrite (proj2 (fitsb_spec 32 _)) by (unfold fits; lia).
  rewrite (proj2 (fitsb_spec 32 _)) by (unfold fits; lia). simpl.
  eexists. split; [done|]. split; [|split; [|split; [done|]]]; simpl.
  - constructor; simpl; unfold HEADER_SIZE; [by rewrite (put_length _ _ _ _ Hput) | lia | lia | |].
    + rewrite zlen_app. unfold zlen in *. simpl. lia.
    + apply laid_out_app. exists (stack_offset (header p)). split; [done|]. simpl. lia.
  - done.
  - intros id'. unfold contents at 1; simpl. rewrite find_dir_app.
    pose proof (contents_put p _ _ d (header p) id' H (Z.le_refl _) Hput) as E.
    unfold contents at 1 in E; simpl in E. unfold contents.
    destruct (find_dir id' (directory p)) as [e|] eqn:Ef; simpl in *.
    + rewrite E. unfold contents; rewrite Ef; simpl.
      apply find_dir_elem in Ef as [He _]. by destruct (entry_stands p e H He) as (bs & -> & _).
    + unfold find_dir; simpl. destruct (Z.eqb_spec id id') as [->|Hdiff].
      * rewrite decide_True by done. simpl. apply sub_stands. split; [|done].
        by eapply put_here.
      * by rewrite decide_False.
Qed.

Lemma pack_entries_spec d dir packed lo hi :
  laid_out lo dir hi -> 0 <= lo -> hi <= zlen d -> HEADER_SIZE + zlen packed + (hi - lo) < 2 ^ 32 ->
  exists dir' out, pack_entries d dir packed = Done (dir', packed ++ out) /\
    zlen out = live_bytes dir /\ map de_id dir' = map de_id dir /\ map de_size dir' = map de_size dir /\
    laid_out (HEADER_SIZE + zlen packed) dir' (HEADER_SIZE + zlen packed + live_bytes dir) /\
    forall d' id, stands d' (HEADER_SIZE + zlen packed) out ->
      (e ← find_dir id dir'; sub (de_offset e) (de_offset e + de_size e) d')
      = (e ← find_dir id dir; sub (de_offset e) (de_offset e + de_size e) d).
Proof.
  revert packed lo. induction dir as [|e dir IH]; intros packed lo; simpl; intros Hl Hlo Hhi Hfit.
  { exists [], []. rewrite app_nil_r, Z.add_0_r. split_and!; try done; simpl; lia. }
  destruct Hl as (Ho & Hs & Hl). pose proof (laid_out_le _ _ _ Hl).
  destruct (sub_some d (de_offset e) (de_offset e + de_size e)) as [bs Hbs]; [lia..|].
  pose proof Hbs as [_ Hlen]%sub_stands. rewrite Hbs. simpl.
  pose proof (zlen_nonneg packed). unfold HEADER_SIZE in *.
  rewrite wrap_small by (unfold fits; lia).
  destruct (IH (packed ++ bs) _ Hl) as (dir' & out & -> & Ho' & Hids & Hsz & Hlay & Hlook);
    [lia | done | rewrite zlen_app; lia|].
  rewrite zlen_app in *. simpl. exists ({| de_id := de_id e; de_offset := 20 + zlen packed;
    de_size := de_size e |} :: dir'), (bs ++ out).
  split; [by rewrite app_assoc|]. split; [rewrite zlen_app; lia|].
  split; [simpl; congruence|]. split; [simpl; congruence|]. split.
  - simpl. split; [lia|split; [done|]].
    eapply laid_out_mono; [| |exact Hlay]; lia.
  - intros d' id [Hst1 Hst2]%stands_app. unfold find_dir in *; simpl.
    destruct (de_id e =? id); simpl.
    + rewrite Hbs. apply sub_stands. split; [done | lia].
    + apply Hlook. by rewrite Z.add_assoc.
Qed.

(** Compaction keeps the contents and leaves the live bytes packed behind the
    header. *)
Lemma page_compact_spec p :
  page_ok p -> exists p', page_compact p = Done p' /\ page_ok p' /\
    (forall id, contents p' id = contents p id) /\
    stack_offset (header p') = HEADER_SIZE + live_bytes (directory p) /\
    heap_offset (header p') = heap_offset (header p) /\
    map de_size (directory p') = map de_size (directory p).
Proof.
  intros H. pose proof H as [Hs Hh [Hp1 Hp2] [Hn Hn32] Hd].
  pose proof (laid_out_live _ _ _ Hd) as Hlive. pose proof (zlen_nonneg (directory p)).
  unfold HEADER_SIZE in *.
  destruct (pack_entries_spec (data p) (directory p) [] _ _ Hd)
    as (dir' & out & Hpack & Hout & Hids & Hsz & Hlay & Hlook); [lia..| |].
  { unfold HEADER_SIZE. change (zlen []) with 0. lia. }
  unfold HEADER_SIZE in *. change (zlen []) with 0 in *. rewrite Z.add_0_r in *.
  unfold page_compact. rewrite Hpack. simpl app. cbn [obind].
  destruct (put HEADER_SIZE out (data p)) as [d1|] eqn:Hput1;
    [|by rewrite put_some in Hput1 by (unfold HEADER_SIZE; lia)].
  cbn [obind expect]. pose proof (put_length _ _ _ _ Hput1) as Hl1. unfold HEADER_SIZE in *.
  replace (_ && _) with true by lia. cbn [obind guard].
  set (zeros := replicate _ _).
  assert (zlen zeros = heap_offset (header p) - (20 + zlen out)) as Hz
    by (unfold zlen at 1, zeros; rewrite length_replicate; lia).
  destruct (put (20 + zlen out) zeros d1) as [d2|] eqn:Hput2;
    [|by rewrite put_some in Hput2 by lia].
  cbn [obind expect]. pose proof (put_length _ _ _ _ Hput2) as Hl2.
  rewrite (proj2 (fitsb_spec 32 _)) by (unfold fits; lia). cbn [obind guard].
  assert (zlen dir' = zlen (directory p)) as Hdl.
  { unfold zlen. rewrite <- (length_map de_id dir'), Hids. by rewrite length_map. }
  eexists. split; [done|]. split_and!; simpl.
  - constructor; simpl; unfold HEADER_SIZE; [lia | lia | lia | lia|].
    eapply laid_out_mono; [| |exact Hlay]; lia.
  - intros id. unfold contents; simpl. apply Hlook.
    eapply put_other; [exact Hput2 | by eapply put_here | left; lia].
  - lia.
  - done.
  - done.
Qed.

(** No operation changes the size of its page. *)
Lemma page_insert_size p id bytes p' b : page_insert p id bytes = Done (p', b) -> page_size p' = page_size p.
Proof.
  unfold page_insert. intros (? & _ & (? & _ & H)%obind_done)%obind_done.
  destruct (_ <? _); [by injection H as <- _|].
  apply obind_done in H as (? & _ & (? & _ & H)%obind_done). by injection H as <- _.
Qed.

Lemma page_remove_size p id p' b : page_remove p id = Done (p', b) -> page_size p' = page_size p.
Proof. unfold page_remove. intros (? & _ & H)%obind_done. by injection H as <- _. Qed.

Lemma page_compact_size p p' : page_compact p = Done p' -> page_size p' = page_size p.
Proof.
  unfold page_compact. intros ([] & _ & (? & _ & (? & _ & (? & _ & (? & _ & H)%obind_done)%obind_done)
    %obind_done)%obind_done)%obind_done. by injection H as <-.
Qed.

Lemma page_upsert_size p id bytes p' b : page_upsert p id bytes = Done (p', b) -> page_size p' = page_size p.
Proof.
  unfold page_upsert. intros ([p1 b1] & H1%page_remove_size & H)%obind_done.
  apply obind_done in H as ([p2 []] & H2%page_insert_size & H); [injection H as <- _; congruence|].
  apply obind_done in H as (? & _ & H). destruct (_ <? _); [injection H as <- _; congruence|].
  apply obind_done in H as (p3 & H3%page_compact_size & H%page_insert_size). congruence.
Qed.

(** The live bytes of the entries other than [id], and the room they leave. *)
Definition others (p : Page) (id : Z) : list DirEntry :=
  filter (fun e => de_id e <> id) (directory p).

Definition page_room (p : Page) (id : Z) : Z :=
  heap_offset (header p) - HEADER_SIZE - (zlen (others p id) + 1) * DIR_ENTRY_SIZE
  - live_bytes (others p id).

Lemma upsert_spec p id bytes :
  page_ok p -> directory_fits p -> 0 < zlen bytes -> zlen bytes + DIR_ENTRY_SIZE < 2 ^ 32 ->
  exists p' b, page_upsert p id bytes = Done (p', b) /\ page_ok p' /\
    (forall id', contents p' id' =
       if decide (id' = id) then (if (b : bool) then Some bytes else None) else contents p id') /\
    (b = false -> page_room p id < zlen bytes) /\
    heap_offset (header p') = heap_offset (header p) /\
    (forall n, n ∈ map de_size (directory p') -> n = zlen bytes \/ n ∈ map de_size (directory p)) /\
    (b = true -> map de_size (directory p') = map de_size (others p id) ++ [zlen bytes]).
Proof.
  intros H Hfits Hne Hb. unfold page_upsert.
  destruct (page_remove_spec p id H) as (p1 & r & Hrm & H1 & Hc1 & Hh1 & _ & _).
  assert (directory p1 = others p id) as Hd1.
  { unfold page_remove in Hrm. revert Hrm.
    destruct (guard _) as [[]| |]; simpl; [|done..]. by intros [= <- _]. }
  rewrite Hrm. cbn [obind].
  assert (heap_offset (header p1) = heap_offset (header p)) as Hho by (by rewrite Hh1).
  assert (zlen (directory p1) <= zlen (directory p)) as Hn1
    by (rewrite Hd1; unfold zlen, others; pose proof (length_filter (fun e => de_id e <> id) (directory p)); lia).
  assert (forall n, n ∈ map de_size (directory p1) -> n ∈ map de_size (directory p)) as Hsz1.
  { rewrite Hd1. intros n (e & -> & He)%list_elem_of_fmap. unfold others in He.
    apply list_elem_of_filter in He as [_ He]. by apply list_elem_of_fmap_2. }
  assert (forall (d : list DirEntry) o n, n ∈ map de_size (d ++ [{| de_id := id; de_offset := o;
    de_size := zlen bytes |}]) -> n = zlen bytes \/ n ∈ map de_size d) as Hsnoc.
  { intros d o n. rewrite map_app. simpl. rewrite elem_of_app, list_elem_of_singleton. tauto. }
  destruct (page_insert_spec p1 id bytes H1 Hne Hb) as [[Hfull ->]|(_ & p2 & -> & H2 & Hn2 & Hh2 & Hc2)];
    cbn [obind].
  - unfold directory_fits in Hfits. unfold page_room. rewrite <- Hd1, <- Hho.
    set (n1 := zlen (directory p1)) in *. unfold HEADER_SIZE, DIR_ENTRY_SIZE in *.
    replace (_ <=? heap_offset (header p1)) with true by lia. cbn [obind guard].
    destruct (Z.ltb_spec (heap_offset (header p1) - (20 + (n1 + 1) * 32))
                         (live_bytes (directory p1) + zlen bytes)) as [Hroom|Hroom].
    + exists p1, false. split_and!; [done..|lia|done|auto|done].
    + destruct (page_compact_spec p1 H1) as (p2 & -> & H2 & Hc2 & Hs2 & Hh2 & Hsz2).
      cbn [obind]. unfold HEADER_SIZE in *. pose proof (zlen_nonneg (directory p1)).
      destruct (page_insert_spec p2 id bytes H2 Hne Hb) as [[Hf2 _]|(_ & p3 & -> & H3 & Hn3 & Hh3 & Hc3)];
        [unfold free_space, DIR_ENTRY_SIZE in Hf2; lia |].
      exists p3, true. split_and!; [done|done| |done|lia|
        rewrite Hn3; intros n [->|Hn]%Hsnoc; [by left | rewrite Hsz2 in Hn; auto]
        |by rewrite Hn3, map_app, Hsz2, Hd1].
      intros id'. rewrite Hc3, Hc2, Hc1. case_decide; [done|]. by destruct (contents p id').
  - exists p2, true. split_and!; [done|done| |done|lia|
      rewrite Hn2; intros n [->|Hn]%Hsnoc; auto|by rewrite Hn2, map_app, Hd1].
    intros id'. rewrite Hc2, Hc1. case_decide; [done|]. by destruct (contents p id').
Qed.

(** A refused [upsert] has done its removal and nothing else, so repeating it is
    refused again. *)
Lemma page_upsert_refused p id bytes p1 :
  page_ok p -> directory_fits p -> 0 < zlen bytes -> zlen bytes + DIR_ENTRY_SIZE < 2 ^ 32 ->
  page_upsert p id bytes = Done (p1, false) -> page_upsert p1 id bytes = Done (p1, false).
Proof.
  intros H Hfits Hne Hb E. unfold page_upsert in E.
  destruct (page_remove_spec p id H) as (q & r & Hrm & Hq & _).
  rewrite Hrm in E. cbn [obind] in E.
  destruct (page_insert_spec q id bytes Hq Hne Hb) as [[Hfull Hins]|(_ & p2 & Hins & _)];
    rewrite Hins in E; cbn [obind] in E; [|done].
  apply obind_done in E as (u & Hg & E).
  destruct (_ <? _) eqn:Hcap in E.
  - injection E as ->.
    assert (page_remove p1 id = Done (p1, false)) as Hrm1.
    { unfold page_remove in Hrm. apply obind_done in Hrm as (_ & _ & Hrm).
      injection Hrm as Hq' _. unfold page_remove.
      assert (directory p1 = filter (fun e => de_id e <> id) (directory p)) as Hd by (by rewrite <- Hq').
      rewrite Hd, list_filter_filter_l, <- Hd by done. rewrite bool_decide_false by lia. simpl.
      by destruct p1 as [[] ? ? ?]. }
    unfold page_upsert. rewrite Hrm1. cbn [obind]. rewrite Hins. cbn [obind].
    rewrite Hg. cbn [obind]. by rewrite Hcap.
  - exfalso. destruct (page_compact_spec q Hq) as (p2 & Hc & H2 & _ & Hs2 & Hh2 & _).
    rewrite Hc in E. cbn [obind] in E.
    destruct (page_insert_spec p2 id bytes H2 Hne Hb) as [[Hf2 _]|(_ & p3 & E' & _)];
      [|rewrite E' in E; done].
    unfold free_space, HEADER_SIZE, DIR_ENTRY_SIZE in *. pose proof (zlen_nonneg (directory q)). lia.
Qed.

(** ** Properties *)

(** On a well-formed page [upsert] never panics; it replaces the binding
    of the key and no other, and keeps the page well formed.  It reports failure
    only when the live bytes of the other entries, the new bytes and the
    directory do not fit together, and then the key is left unbound. *)
Theorem page_upsert_replaces (p : Page) (id : Z) (bytes : list byte) :
  page_ok p -> directory_fits p -> 0 < zlen bytes -> zlen bytes + DIR_ENTRY_SIZE < 2 ^ 32 ->
  exists p' b, page_upsert p id bytes = Done (p', b) /\ page_ok p' /\
    (forall id', page_lookup p' id' =
       if decide (id' = id) then Done (if (b : bool) then Some bytes else None)
       else page_lookup p id') /\
    (b = false -> page_room p id < zlen bytes).
Proof.
  intros H Hf Hne Hb. destruct (upsert_spec p id bytes H Hf Hne Hb)
    as (p' & b & E & H' & Hc & Hroom & _).
  exists p', b. split_and!; [done..| |done].
  intros id'. rewrite !page_lookup_contents, Hc by done. by case_decide.
Qed.

(** Compaction changes no lookup and leaves the stack offset at the header
    plus exactly the live bytes, so all dead space is reclaimed. *)
Theorem page_compact_preserves (p : Page) :
  page_ok p ->
  exists p', page_compact p = Done p' /\ page_ok p' /\
    (forall id, page_lookup p' id = page_lookup p id) /\
    stack_offset (header p') = HEADER_SIZE + live_bytes (directory p).
Proof.
  intros H. destruct (page_compact_spec p H) as (p' & E & H' & Hc & Hs & _).
  exists p'. split_and!; [done..| |done].
  intros id. by rewrite !page_lookup_contents, Hc.
Qed.

Definition demo_page : Page :=
  match page_new 128 with
  | Done p => match page_insert p 7 [Byte.x01; Byte.x02] with Done (p, _) => p | _ => p end
  | _ => {| header := header_new 0; directory := []; data := []; page_size := 0 |}
  end.

Lemma demo_page_ok : page_ok demo_page.
Proof. constructor; vm_compute; intuition congruence. Qed.

Lemma page_upsert_replaces_witness :
  exists p' b, page_upsert demo_page 7 [Byte.x03] = Done (p', b) /\ page_ok p' /\
    (forall id', page_lookup p' id' =
       if decide (id' = 7) then Done (if (b : bool) then Some [Byte.x03] else None)
       else page_lookup demo_page id') /\
    (b = false -> page_room demo_page 7 < zlen [Byte.x03]).
Proof.
  apply page_upsert_replaces; [apply demo_page_ok | | |]; vm_compute; congruence.
Defined.

Lemma page_compact_preserves_witness :
  exists p', page_compact demo_page = Done p' /\ page_ok p' /\
    (forall id, page_lookup p' id = page_lookup demo_page id) /\
    stack_offset (header p') = HEADER_SIZE + live_bytes (directory demo_page).
Proof. apply page_compact_preserves, demo_page_ok. Defined.

(** [insert] never charges the directory, so a page can hold more entries than
    the capacity computation of [upsert] can subtract: 101 entries of one byte on
    a 256-byte page, and the next refused insert underflows. *)
Fixpoint insert_many (n : nat) (p : Page) : Page :=
  match n with
  | O => p
  | S n => match page_insert p (Z.of_nat n) [Byte.x01] with
           | Done (p, _) => insert_many n p | _ => p end
  end.

Definition crowded_page : Page :=
  match page_new 256 with Done p => insert_many 101 p | _ => demo_page end.

(** The capacity of [upsert] can underflow: a page that [new] and [insert]
    alone produce, well formed, makes [upsert] of 150 bytes panic. *)
Theorem page_upsert_underflow :
  page_ok crowded_page /\ ~ directory_fits crowded_page /\
  page_upsert crowded_page 1000 (replicate 150 Byte.x00) = Fault.
Proof.
  split; [|split].
  - constructor; vm_compute; intuition congruence.
  - vm_compute. intros H. by apply H.
  - vm_compute. done.
Qed.

(** A refused [upsert] still drops the value the key had: the old entry is
    removed before the new one is known to fit. *)
Theorem page_upsert_refused_drops :
  page_lookup demo_page 7 = Done (Some [Byte.x01; Byte.x02]) /\
  exists p', page_upsert demo_page 7 (replicate 100 Byte.x00) = Done (p', false) /\
    page_lookup p' 7 = Done None.
Proof. split; [done|]. eexists. split; [vm_compute; reflexivity | done]. Qed.

(** ** The page as a wire value, for snapshots *)

Definition wire_header : Wire PageHeader :=
  wire_struct
    (fun h => (checksum h, (entry_count h, (stack_offset h, (heap_offset h, dict_version h)))))
    (fun '(c, (n, (s, (h, d)))) => {| checksum := c; entry_count := n; stack_offset := s;
                                     heap_offset := h; dict_version := d |})
    (wire_pair (wire_uint 4) (wire_pair (wire_uint 4) (wire_pair (wire_uint 4)
      (wire_pair (wire_uint 4) (wire_uint 4))))).

Definition wire_dir_entry : Wire DirEntry :=
  wire_struct (fun e => (de_id e, (de_offset e, de_size e)))
    (fun '(i, (o, s)) => {| de_id := i; de_offset := o; de_size := s |})
    (wire_pair (wire_uint 16) (wire_pair (wire_uint 4) (wire_uint 4))).

(** A [u8] element of a [Vec<u8>] is the byte itself. *)
Definition wire_u8 : Wire byte :=
  wire_struct byte_val byte_of (wire_uint 1).

Definition wire_bytes : Wire (list byte) := wire_vec wire_u8.

Definition wire_page : Wire Page :=
  wire_struct (fun p => (header p, (directory p, (data p, page_size p))))
    (fun '(h, (d, (b, s))) => {| header := h; directory := d; data := b; page_size := s |})
    (wire_pair wire_header (wire_pair (wire_vec wire_dir_entry)
      (wire_pair wire_bytes (wire_usize 64)))).

Definition header_wf (h : PageHeader) : Prop :=
  fits 32 (checksum h) /\ fits 32 (entry_count h) /\ fits 32 (stack_offset h) /\
  fits 32 (heap_offset h) /\ fits 32 (dict_version h).

Definition dir_entry_wf (e : DirEntry) : Prop :=
  fits 128 (de_id e) /\ fits 32 (de_offset e) /\ fits 32 (de_size e).

Definition page_wf (p : Page) : Prop :=
  header_wf (header p) /\ Forall dir_entry_wf (directory p) /\
  Forall (fun _ => True) (data p) /\ fits 64 (page_size p).

#[export] Instance header_wire_ok : WireOk wire_header header_wf.
Proof.
  eapply struct_ok; [apply _|..].
  - intros h (? & ? & ? & ? & ?). by split_and!.
  - intros (? & ? & ? & ? & ?) (? & ? & ? & ? & ?). by split_and!.
  - by intros [].
Defined.

#[export] Instance dir_entry_ok : WireOk wire_dir_entry dir_entry_wf.
Proof.
  eapply struct_ok; [apply _|..].
  - intros e (? & ? & ?). by split_and!.
  - intros (? & ? & ?) (? & ? & ?). by split_and!.
  - by intros [].
Defined.

#[export] Instance u8_ok : WireOk wire_u8 (fun _ => True).
Proof.
  eapply struct_ok; [apply _|..].
  - intros b _. apply byte_val_range.
  - done.
  - intros b _. apply byte_of_val.
Defined.

#[export] Instance page_wire_ok : WireOk wire_page page_wf.
Proof.
  eapply struct_ok; [apply _|..].
  - intros p (? & ? & ? & ?). by split_and!.
  - intros (? & ? & ? & ?) (? & ? & ? & ?). split_and!; simpl in *; tauto.
  - by intros [].
Defined.
