(* ===== verification/Hash.v ===== *)
(** * Page routing (wavedb-storage/src/hash.rs)

    The SplitMix64 finaliser, the two keyed strategies and the probe step, on
    64-bit words with their wrapping arithmetic. *)
From S2P Require Import Prelude.

Definition GOLDEN : Z := 0x9E3779B97F4A7C15.

(** [z ^ (z >> s)] and the 64-bit [wrapping_mul]. *)
Definition xorshift (s z : Z) : Z := Z.lxor z (Z.shiftr z s).
Definition mul64 (a b : Z) : Z := wrap 64 (a * b).

Definition mix64 (x : Z) : Z :=
  let z := Z.lxor x GOLDEN in
  let z := xorshift 30 z in
  let z := mul64 z 0xbf58476d1ce4e5b9 in
  let z := xorshift 27 z in
  let z := mul64 z 0x94d049bb133111eb in
  xorshift 31 z.

Definition fold (hi lo : Z) : Z := wrap 64 (mix64 hi + mul64 (mix64 lo) GOLDEN).

(** [u64::is_power_of_two]. *)
Definition is_power_of_two (n : Z) : bool := (0 <? n) && (2 ^ Z.log2 n =? n).

Definition reduce (h page_count : Z) : Z :=
  if page_count =? 0 then 0
  else if is_power_of_two page_count then Z.land h (page_count - 1)
  else h mod page_count.

Definition tuple2_page (struct_id tenant_id page_count : Z) : Z :=
  let key := Z.lxor tenant_id (mul64 struct_id GOLDEN) in
  reduce (mix64 key) page_count.

(** [u64::rotate_left]. *)
Definition rotate_left (x k : Z) : Z := Z.lor (wrap 64 (Z.shiftl x k)) (Z.shiftr x (64 - k)).

Definition tuple4_page (struct_id tenant_id shard_id created_at page_count : Z) : Z :=
  let lo := Z.lxor tenant_id (rotate_left created_at 17) in
  let hi := Z.lxor (Z.lxor (mul64 struct_id GOLDEN) (wrap 64 (Z.shiftl shard_id 48)))
                   created_at in
  reduce (fold hi lo) page_count.

Inductive PageKey : Type :=
  | Tuple2 (struct_id tenant : Z)
  | Tuple4 (struct_id tenant shard created_at : Z).

#[export] Instance PageKey_eq_dec : EqDecision PageKey.
Proof. solve_decision. Defined.

Definition page_of_key (k : PageKey) (page_count : Z) : Z :=
  match k with
  | Tuple2 struct_id tenant => tuple2_page struct_id tenant page_count
  | Tuple4 struct_id tenant shard created_at =>
      tuple4_page struct_id tenant shard created_at page_count
  end.

Definition double_hash_step (struct_id tenant_id shard_id page_count : Z) : Z :=
  if page_count <=? 1 then 1
  else
    let key := Z.lxor (Z.lxor (mul64 tenant_id 0xc6a4a7935bd1e995) struct_id)
                      (wrap 64 (Z.shiftl shard_id 32)) in
    Z.lor (mix64 key mod page_count) 1.

(** ** Words *)

Lemma fits_bits w z : 0 <= w -> fits w z <-> 0 <= z /\ forall n, w <= n -> Z.testbit z n = false.
Proof.
  intros Hw. split.
  - intros [H0 H1]. split; [done|]. intros n Hn.
    rewrite Z.testbit_eqb by lia. rewrite Z.div_small; [done|].
    pose proof (Z.pow_le_mono_r 2 w n). lia.
  - intros [H0 Hb]. split; [done|].
    destruct (Z.ltb_spec z (2 ^ w)) as [|Hge]; [done|]. exfalso.
    assert (0 < z) by (pose proof (Z.pow_pos_nonneg 2 w); lia).
    assert (w <= Z.log2 z) as Hl by (by apply Z.log2_le_pow2).
    specialize (Hb _ Hl). rewrite Z.bit_log2 in Hb by done. done.
Qed.

Lemma fits_lxor w a b : 0 <= w -> fits w a -> fits w b -> fits w (Z.lxor a b).
Proof.
  intros Hw. rewrite !fits_bits by done. intros [Ha0 Ha] [Hb0 Hb]. split.
  - apply Z.lxor_nonneg. lia.
  - intros n Hn. by rewrite Z.lxor_spec, Ha, Hb.
Qed.

Lemma fits_shiftr w a s : 0 <= s -> fits w a -> fits w (Z.shiftr a s).
Proof.
  intros Hs [H0 H1]. rewrite Z.shiftr_div_pow2 by done. unfold fits.
  pose proof (Z.pow_pos_nonneg 2 s ltac:(lia) Hs).
  split; [by apply Z.div_pos|]. apply Z.div_lt_upper_bound; nia.
Qed.

Lemma xorshift_fits s z : 0 <= s -> fits 64 z -> fits 64 (xorshift s z).
Proof. intros. by apply fits_lxor, fits_shiftr. Qed.

(** Undoing [z ^ (z >> s)] when three shifts exhaust the word. *)
Definition unxorshift (s z : Z) : Z :=
  Z.lxor z (Z.lxor (Z.shiftr z s) (Z.shiftr z (2 * s))).

Lemma xorshift_unxorshift s z :
  22 <= s -> fits 64 z -> xorshift s (unxorshift s z) = z /\ unxorshift s (xorshift s z) = z.
Proof.
  intros Hs [Hz0 Hz]%fits_bits; [|done]. unfold xorshift, unxorshift.
  split; apply Z.bits_inj'; intros n Hn;
    repeat first [rewrite Z.lxor_spec | rewrite Z.shiftr_spec by lia];
    rewrite ?(Hz (n + 2 * s + s)), ?(Hz (n + s + 2 * s)) by lia;
    replace (n + s + s) with (n + 2 * s) by lia;
    by destruct (Z.testbit z n), (Z.testbit z (n + s)), (Z.testbit z (n + 2 * s)).
Qed.

Lemma mul64_inverse a b z : fits 64 z -> wrap 64 (a * b) = 1 -> mul64 (mul64 z a) b = z.
Proof.
  intros Hz Hab. unfold mul64, wrap in *. rewrite Z.mul_mod_idemp_l by done.
  rewrite <- Z.mul_assoc, <- Z.mul_mod_idemp_r, Hab, Z.mul_1_r by done.
  by apply wrap_small.
Qed.

(** The inverse of [mix64]: the steps undone in reverse order. *)
Definition unmix64 (y : Z) : Z :=
  let z := unxorshift 31 y in
  let z := mul64 z 0x319642b2d24d8ec3 in
  let z := unxorshift 27 z in
  let z := mul64 z 0x96de1b173f119089 in
  let z := unxorshift 30 z in
  Z.lxor z GOLDEN.

Lemma unxorshift_fits s z : 0 <= s -> fits 64 z -> fits 64 (unxorshift s z).
Proof. intros. apply fits_lxor; [done..|]. by apply fits_lxor; [..|apply fits_shiftr|apply fits_shiftr]; try lia. Qed.

Lemma mul64_fits a b : fits 64 (mul64 a b).
Proof. by apply wrap_fits. Qed.

Lemma golden_fits : fits 64 GOLDEN.
Proof. done. Qed.

Create HintDb words.
#[export] Hint Extern 1 (Z.le _ _) => lia : words.
#[export] Hint Resolve xorshift_fits unxorshift_fits mul64_fits golden_fits fits_lxor : words.

Lemma mix64_unmix64 x : fits 64 x ->
  fits 64 (mix64 x) /\ unmix64 (mix64 x) = x /\ fits 64 (unmix64 x) /\ mix64 (unmix64 x) = x.
Proof.
  intros Hx. unfold mix64, unmix64.
  assert (forall s z, 22 <= s -> fits 64 z -> unxorshift s (xorshift s z) = z) as H1
    by (intros; by apply xorshift_unxorshift).
  assert (forall s z, 22 <= s -> fits 64 z -> xorshift s (unxorshift s z) = z) as H2
    by (intros; by apply xorshift_unxorshift).
  split_and!.
  - auto with words.
  - rewrite H1 by auto with words. rewrite mul64_inverse by auto with words.
    rewrite H1 by auto with words. rewrite mul64_inverse by auto with words.
    rewrite H1 by auto with words. by rewrite Z.lxor_assoc, Z.lxor_nilpotent, Z.lxor_0_r.
  - auto 6 with words.
  - rewrite Z.lxor_assoc, Z.lxor_nilpotent, Z.lxor_0_r.
    rewrite H2 by auto with words. rewrite mul64_inverse by auto with words.
    rewrite H2 by auto with words. rewrite mul64_inverse by auto with words.
    by rewrite H2.
Qed.

Lemma is_power_of_two_spec n : is_power_of_two n = true <-> 0 < n /\ n = 2 ^ Z.log2 n.
Proof. unfold is_power_of_two. rewrite andb_true_iff, Z.ltb_lt, Z.eqb_eq. naive_solver. Qed.

Lemma reduce_mod h n : 0 < n -> reduce h n = h mod n.
Proof.
  intros Hn. unfold reduce. replace (n =? 0) with false by lia.
  destruct (is_power_of_two n) eqn:E; [|done].
  apply is_power_of_two_spec in E as [_ ->]. pose proof (Z.log2_nonneg n).
  by rewrite ones_pred, Z.land_ones by done.
Qed.

Lemma page_of_key_bound k n : 0 < n -> 0 <= page_of_key k n < n.
Proof.
  intros Hn. destruct k; simpl; unfold tuple2_page, tuple4_page;
    rewrite reduce_mod by done; by apply Z.mod_pos_bound.
Qed.

Lemma lor_1 a : 0 <= a -> Z.lor a 1 = a + 1 - a mod 2.
Proof.
  intros Ha. pose proof (Z.div_mod a 2 ltac:(lia)) as Hd.
  pose proof (Z.mod_pos_bound a 2 ltac:(lia)).
  assert (Z.lor (Z.shiftl (a / 2) 1) 1 = 2 * (a / 2) + 1) as E.
  { rewrite lor_shiftl_low by (unfold fits; lia). lia. }
  assert (a mod 2 = 0 \/ a mod 2 = 1) as [E'|E'] by lia; rewrite E' in *.
  - replace (Z.lor a 1) with (Z.lor (Z.shiftl (a / 2) 1) 1); [lia|].
    f_equal. rewrite Z.shiftl_mul_pow2 by lia. lia.
  - replace (Z.lor a 1) with (Z.lor (Z.lor (Z.shiftl (a / 2) 1) 1) 1).
    + rewrite <- Z.lor_assoc, Z.lor_diag. lia.
    + f_equal. lia.
Qed.

Lemma double_hash_step_odd sid t sh n : 2 <= n ->
  1 <= double_hash_step sid t sh n <= n /\ double_hash_step sid t sh n mod 2 = 1.
Proof.
  intros Hn. unfold double_hash_step. replace (n <=? 1) with false by lia.
  set (m := mix64 _ mod n). pose proof (Z.mod_pos_bound (mix64
    (Z.lxor (Z.lxor (mul64 t 0xc6a4a7935bd1e995) sid) (wrap 64 (Z.shiftl sh 32)))) n ltac:(lia)) as Hm.
  fold m in Hm. rewrite lor_1 by lia.
  clearbody m. split; Z.to_euclidean_division_equations; lia.
Qed.

(** ** Properties *)

(** [mix64] is a bijection of the 64-bit words: no two keys collide before
    the reduction to a page index, and every word is hit. *)
Theorem mix64_bijective (x : Z) :
  fits 64 x ->
  fits 64 (mix64 x) /\ unmix64 (mix64 x) = x /\
  fits 64 (unmix64 x) /\ mix64 (unmix64 x) = x.
Proof. apply mix64_unmix64. Qed.

(** The mask taken for a power-of-two page count is the modulus, so both
    keyed strategies give the index [h mod page_count], always a valid page. *)
Theorem page_key_in_range (k : PageKey) (page_count : Z) :
  0 < page_count ->
  0 <= page_of_key k page_count < page_count /\
  (forall h, reduce h page_count = h mod page_count).
Proof. intros H. split; [by apply page_of_key_bound | intros; by apply reduce_mod]. Qed.

(** Steps coprime with the count reach each page once. *)
Lemma probe_injective n step primary i j :
  Z.gcd n step = 1 -> 0 <= i < n -> 0 <= j < n ->
  (primary + i * step) mod n = (primary + j * step) mod n -> i = j.
Proof.
  intros Hg Hi Hj E. apply Z.cong_iff_0 in E.
  replace (primary + i * step - (primary + j * step)) with (step * (i - j)) in E by ring.
  apply Z.mod_divide in E; [|lia]. apply Z.gauss in E; [|done].
  destruct E as [q Hq]. assert (q = 0) by nia. lia.
Qed.

Lemma probe_surjective n step primary target :
  Z.gcd n step = 1 -> 0 <= target < n ->
  exists i, 0 <= i < n /\ (primary + i * step) mod n = target.
Proof.
  intros Hg Ht. destruct (Z.gcd_bezout n step 1 Hg) as (u & v & Hbez).
  exists ((target - primary) * v mod n). split; [apply Z.mod_pos_bound; lia|].
  transitivity (target mod n); [|by apply Z.mod_small].
  apply Z.cong_iff_0, Z.mod_divide; [lia|].
  pose proof (Z.div_mod ((target - primary) * v) n ltac:(lia)) as Hd.
  set (x := (target - primary) * v) in *. exists (- (target - primary) * u - step * (x / n)).
  replace (x mod n) with (x - n * (x / n)) by lia.
  replace (primary + (x - n * (x / n)) * step - target)
    with (x * step - (target - primary) - n * (x / n) * step) by ring.
  unfold x. replace ((target - primary) * v * step - (target - primary)) with
    ((target - primary) * (v * step - 1)) by ring.
  replace (v * step - 1) with (- (u * n)) by lia. ring.
Qed.

(** On a power-of-two page count the probe step is odd, hence coprime with
    the count: the probes from any page reach every page, each exactly once
    before they repeat. *)
Theorem double_hash_probe_cycle (sid t sh primary page_count target : Z) :
  is_power_of_two page_count = true -> 2 <= page_count -> 0 <= target < page_count ->
  let probe i := (primary + i * double_hash_step sid t sh page_count) mod page_count in
  exists i, (0 <= i < page_count /\ probe i = target) /\
    forall j, 0 <= j < page_count -> probe j = target -> j = i.
Proof.
  intros [_ Hn]%is_power_of_two_spec H2 Ht probe.
  destruct (double_hash_step_odd sid t sh page_count H2) as [_ Hodd].
  assert (Z.gcd page_count (double_hash_step sid t sh page_count) = 1) as Hg.
  { rewrite Hn, Z.gcd_comm, <- Hn. rewrite Hn at 2. apply Z.coprime_pow_r; [apply Z.log2_nonneg|].
    unfold Z.coprime. by rewrite Z.gcd_comm, <- Z.gcd_mod, Hodd by done. }
  destruct (probe_surjective _ _ primary target Hg Ht) as (i & Hi & Ei).
  exists i. split; [done|]. intros j Hj Ej. apply (probe_injective page_count _ primary _ _ Hg Hj Hi).
  unfold probe in Ej. by rewrite Ej.
Qed.

Lemma double_hash_probe_cycle_witness :
  let probe i := (3 + i * double_hash_step 100 42 0 256) mod 256 in
  exists i, (0 <= i < 256 /\ probe i = 9) /\ forall j, 0 <= j < 256 -> probe j = 9 -> j = i.
Proof. exact (double_hash_probe_cycle 100 42 0 3 256 9 eq_refl ltac:(lia) ltac:(lia)). Defined.

(** On an odd page count, such as the 2401 pages that four growths of the
    default 256 reach, the step can equal the count, and the probe then lands on
    the page it was meant to avoid. *)
Theorem double_hash_step_degenerate :
  double_hash_step 100 6079 0 2401 = 2401 /\
  forall primary, 0 <= primary < 2401 ->
    (primary + double_hash_step 100 6079 0 2401) mod 2401 = primary.
Proof.
  assert (double_hash_step 100 6079 0 2401 = 2401) as E by (vm_compute; reflexivity).
  split; [done|]. intros primary Hp. rewrite E. Z.to_euclidean_division_equations. lia.
Qed.

Lemma mix64_bijective_witness :
  fits 64 42 /\ fits 64 (mix64 42) /\ unmix64 (mix64 42) = 42 /\
  fits 64 (unmix64 42) /\ mix64 (unmix64 42) = 42.
Proof. split; [done | apply mix64_bijective; done]. Defined.

Lemma page_key_in_range_witness :
  0 <= page_of_key (Tuple2 100 42) 448 < 448 /\ (forall h, reduce h 448 = h mod 448).
Proof. apply page_key_in_range. lia. Defined.

#[global] Arguments mix64 : simpl never.
#[global] Arguments page_of_key : simpl never.
#[global] Arguments double_hash_step : simpl never.
