(* ===== verification/Anchor.v ===== *)
(** * Anchors and versioned records (wavedb-storage: anchor.rs, versioned.rs) *)
From S2P Require Import Prelude Wire WireOk Errors Ids Page.

(** [AnchorKey(pub u128)]. *)
Definition AnchorKey : Type := Z.

Definition anchor_key_of_id (id : Id) : AnchorKey := anchor_key id.

Inductive AnchorMode : Type :=
  | InlineBytes (bytes : list byte)
  | Pointer (versioned_id : Z).

Inductive AnchorKind : Type :=
  | Primary (current_version_at : Z) (mode : AnchorMode) (secondaries : list AnchorKey)
  | Secondary (primary : AnchorKey) (marker : Z)
  | PrimaryTombstone (final_version_at : Z)
  | SecondaryTombstone
  | HeapRef (block : Z).

Record AnchorSlot : Type := { kind : AnchorKind; references : list AnchorKey }.

#[export] Instance AnchorMode_eq_dec : EqDecision AnchorMode.
Proof. solve_decision. Defined.
#[export] Instance AnchorKind_eq_dec : EqDecision AnchorKind.
Proof. solve_decision. Defined.
#[export] Instance AnchorSlot_eq_dec : EqDecision AnchorSlot.
Proof. solve_decision. Defined.

Definition slot_inline (bytes : list byte) (current_version_at : Z) : AnchorSlot :=
  {| kind := Primary current_version_at (InlineBytes bytes) []; references := [] |}.
Definition slot_pointer (versioned_id current_version_at : Z) : AnchorSlot :=
  {| kind := Primary current_version_at (Pointer versioned_id) []; references := [] |}.
Definition slot_secondary (primary : AnchorKey) (marker : Z) : AnchorSlot :=
  {| kind := Secondary primary marker; references := [] |}.
Definition primary_tombstone (final_version_at : Z) : AnchorSlot :=
  {| kind := PrimaryTombstone final_version_at; references := [] |}.
Definition secondary_tombstone : AnchorSlot :=
  {| kind := SecondaryTombstone; references := [] |}.
Definition slot_heap_ref (block : Z) : AnchorSlot :=
  {| kind := HeapRef block; references := [] |}.

Definition is_live_primary (s : AnchorSlot) : bool :=
  match kind s with Primary _ _ _ => true | _ => false end.
Definition is_tombstone (s : AnchorSlot) : bool :=
  match kind s with PrimaryTombstone _ | SecondaryTombstone => true | _ => false end.
Definition inline_bytes (s : AnchorSlot) : option (list byte) :=
  match kind s with Primary _ (InlineBytes bytes) _ => Some bytes | _ => None end.
Definition heap_block (s : AnchorSlot) : option Z :=
  match kind s with HeapRef block => Some block | _ => None end.

(** ** Wire layouts, as derived *)

Definition wire_key : Wire AnchorKey :=
  wire_struct (fun k => k) (fun k => k) (wire_uint 16).

Definition wire_keys : Wire (list AnchorKey) := wire_vec wire_key.

Definition wire_mode : Wire AnchorMode :=
  wire_enum "AnchorMode"
    (fun m => match m with InlineBytes b => inl b | Pointer v => inr v end)
    (fun x => match x with inl b => InlineBytes b | inr v => Pointer v end)
    (variant_or wire_bytes (variant (wire_uint 16))).

Definition kind_cases (k : AnchorKind)
    : (Z * (AnchorMode * list AnchorKey)) + ((AnchorKey * Z) + (Z + (unit + Z))) :=
  match k with
  | Primary c m s => inl (c, (m, s))
  | Secondary p m => inr (inl (p, m))
  | PrimaryTombstone f => inr (inr (inl f))
  | SecondaryTombstone => inr (inr (inr (inl tt)))
  | HeapRef b => inr (inr (inr (inr b)))
  end.

Definition kind_build (x : (Z * (AnchorMode * list AnchorKey)) +
    ((AnchorKey * Z) + (Z + (unit + Z)))) : AnchorKind :=
  match x with
  | inl (c, (m, s)) => Primary c m s
  | inr (inl (p, m)) => Secondary p m
  | inr (inr (inl f)) => PrimaryTombstone f
  | inr (inr (inr (inl tt))) => SecondaryTombstone
  | inr (inr (inr (inr b))) => HeapRef b
  end.

Definition wire_kind : Wire AnchorKind :=
  wire_enum "AnchorKind" kind_cases kind_build
    (variant_or (wire_pair (wire_uint 8) (wire_pair wire_mode wire_keys))
    (variant_or (wire_pair wire_key (wire_uint 8))
    (variant_or (wire_uint 8)
    (variant_or wire_unit
    (variant (wire_uint 8)))))).

Definition wire_slot : Wire AnchorSlot :=
  wire_struct (fun s => (kind s, references s))
    (fun '(k, r) => {| kind := k; references := r |})
    (wire_pair wire_kind wire_keys).

Definition slot_to_bytes (s : AnchorSlot) : StorageResult (list byte) := ser (to_wire wire_slot s).
Definition slot_from_bytes (bytes : list byte) : StorageResult AnchorSlot :=
  ser (from_wire wire_slot bytes).

(** ** Versioned records *)

Record VersionedRecord : Type := {
  vr_id : Z;
  vr_data : list byte;
  vr_old_modification_id : Z;
  vr_new_modification_id : Z
}.

#[export] Instance VersionedRecord_eq_dec : EqDecision VersionedRecord.
Proof. solve_decision. Defined.

Definition record_new (id : Z) (data : list byte) : VersionedRecord :=
  {| vr_id := id; vr_data := data; vr_old_modification_id := 0; vr_new_modification_id := 0 |}.

Definition record_is_live (r : VersionedRecord) : bool := vr_new_modification_id r =? 0.

Definition wire_record : Wire VersionedRecord :=
  wire_struct
    (fun r => (vr_id r, (vr_data r, (vr_old_modification_id r, vr_new_modification_id r))))
    (fun '(i, (d, (o, n))) => {| vr_id := i; vr_data := d; vr_old_modification_id := o;
                                 vr_new_modification_id := n |})
    (wire_pair (wire_uint 16) (wire_pair wire_bytes
      (wire_pair (wire_uint 16) (wire_uint 16)))).

Definition record_to_bytes (r : VersionedRecord) : StorageResult (list byte) :=
  ser (to_wire wire_record r).
Definition record_from_bytes (bytes : list byte) : StorageResult VersionedRecord :=
  ser (from_wire wire_record bytes).

(** ** Contracts *)

Definition mode_wf (m : AnchorMode) : Prop :=
  match m with InlineBytes b => Forall (fun _ => True) b | Pointer v => fits 128 v end.

Definition kind_wf (k : AnchorKind) : Prop :=
  match k with
  | Primary c m s => fits 64 c /\ mode_wf m /\ Forall (fits 128) s
  | Secondary p m => fits 128 p /\ fits 64 m
  | PrimaryTombstone f => fits 64 f
  | SecondaryTombstone => True
  | HeapRef b => fits 64 b
  end.

Definition slot_wf (s : AnchorSlot) : Prop := kind_wf (kind s) /\ Forall (fits 128) (references s).

Definition record_wf (r : VersionedRecord) : Prop :=
  fits 128 (vr_id r) /\ Forall (fun _ => True) (vr_data r) /\
  fits 128 (vr_old_modification_id r) /\ fits 128 (vr_new_modification_id r).

#[export] Instance key_ok : WireOk wire_key (fits 128).
Proof. eapply struct_ok; [apply (uint_ok 16)|..]; done. Defined.

#[export] Instance mode_ok : WireOk wire_mode mode_wf.
Proof.
  apply (enum_ok _ _ _ _ (sum_wf (Forall (fun _ => True)) (fits (8 * Z.of_nat 16)))).
  - apply _.
  - by apply Nat.leb_le.
  - by intros [].
  - by intros [].
  - by intros [].
Defined.

#[export] Instance kind_ok : WireOk wire_kind kind_wf.
Proof.
  eapply enum_ok; [apply _|by apply Nat.leb_le|..].
  - by intros [].
  - by intros [(? & ? & ?)|[[]|[|[[]|]]]].
  - by intros [].
Defined.

#[export] Instance slot_ok : WireOk wire_slot slot_wf.
Proof. eapply struct_ok; [apply _|..]; by intros []. Defined.

#[export] Instance record_ok : WireOk wire_record record_wf.
Proof.
  eapply struct_ok; [apply _|..].
  - intros r (? & ? & ? & ?). by split_and!.
  - intros (? & ? & ? & ?) (? & ? & ? & ?). by split_and!.
  - by intros [].
Defined.
