(* ===== verification/Journal.v ===== *)
(** * The write-ahead journal (wavedb-storage/src/pipeline/journal.rs)

    A journal is its decoded entries, its checkpoint sequence and, when it has a
    file, the bytes of that file.  File writes are taken to succeed; what a crash
    leaves is a prefix of the bytes being appended. *)
From S2P Require Import Prelude Wire WireOk Errors Page Anchor.

Inductive FileKind : Type := FkData | FkIndex | FkHeap | FkJournal.

#[export] Instance FileKind_eq_dec : EqDecision FileKind.
Proof. solve_decision. Defined.

Inductive JournalEntry : Type :=
  | WriteAnchor (key : AnchorKey) (slot : AnchorSlot)
  | WriteVersioned (record : VersionedRecord)
  | DeleteAnchor (key : AnchorKey)
  | FreeSpace (file_kind : FileKind) (offset size : Z)
  | DictUpdate (struct_id version : Z) (data : list byte)
  | Checkpoint (sequence : Z).

#[export] Instance JournalEntry_eq_dec : EqDecision JournalEntry.
Proof. solve_decision. Defined.

(** ** Wire layout *)

Definition file_kinds : list FileKind := [FkData; FkIndex; FkHeap; FkJournal].

Definition file_kind_tag (k : FileKind) : nat :=
  match k with FkData => 0 | FkIndex => 1 | FkHeap => 2 | FkJournal => 3 end.

Definition wire_file_kind : Wire FileKind := wire_unit_enum "FileKind" file_kinds file_kind_tag.

Definition entry_cases (e : JournalEntry) :
    (AnchorKey * AnchorSlot) + (VersionedRecord + (AnchorKey +
    ((FileKind * (Z * Z)) + ((Z * (Z * list byte)) + Z)))) :=
  match e with
  | WriteAnchor k s => inl (k, s)
  | WriteVersioned r => inr (inl r)
  | DeleteAnchor k => inr (inr (inl k))
  | FreeSpace f o s => inr (inr (inr (inl (f, (o, s)))))
  | DictUpdate s v d => inr (inr (inr (inr (inl (s, (v, d))))))
  | Checkpoint n => inr (inr (inr (inr (inr n))))
  end.

Definition entry_build (x : (AnchorKey * AnchorSlot) + (VersionedRecord + (AnchorKey +
    ((FileKind * (Z * Z)) + ((Z * (Z * list byte)) + Z))))) : JournalEntry :=
  match x with
  | inl (k, s) => WriteAnchor k s
  | inr (inl r) => WriteVersioned r
  | inr (inr (inl k)) => DeleteAnchor k
  | inr (inr (inr (inl (f, (o, s))))) => FreeSpace f o s
  | inr (inr (inr (inr (inl (s, (v, d)))))) => DictUpdate s v d
  | inr (inr (inr (inr (inr n)))) => Checkpoint n
  end.

Definition wire_entry : Wire JournalEntry :=
  wire_enum "JournalEntry" entry_cases entry_build
    (variant_or (wire_pair wire_key wire_slot)
    (variant_or wire_record
    (variant_or wire_key
    (variant_or (wire_pair wire_file_kind (wire_pair (wire_uint 8) (wire_uint 8)))
    (variant_or (wire_pair (wire_uint 4) (wire_pair (wire_uint 4) wire_bytes))
    (variant (wire_uint 8))))))).

Definition entry_wf (e : JournalEntry) : Prop :=
  match e with
  | WriteAnchor k s => fits 128 k /\ slot_wf s
  | WriteVersioned r => record_wf r
  | DeleteAnchor k => fits 128 k
  | FreeSpace _ o s => fits 64 o /\ fits 64 s
  | DictUpdate s v _ => fits 32 s /\ fits 32 v
  | Checkpoint n => fits 64 n
  end.

#[export] Instance file_kind_ok : WireOk wire_file_kind (fun _ => True).
Proof. apply unit_enum_ok; [by apply Nat.leb_le | by intros []]. Defined.

#[export] Instance entry_wire_ok : WireOk wire_entry entry_wf.
Proof.
  eapply enum_ok; [apply _|by apply Nat.leb_le|..].
  - intros []; simpl; try tauto. intros [? ?]. split_and!; [done..|].
    apply Forall_forall. done.
  - intros [[]|[|[|[(? & ? & ?)|[(? & ? & ?)|]]]]]; simpl; tauto.
  - by intros [].
Defined.

(** ** Framing: each entry behind its length *)

Definition encode_frame (e : JournalEntry) : StorageResult (list byte) :=
  let* entry_bytes := ser (to_wire wire_entry e) in
  do* guard (fitsb 32 (zlen entry_bytes)) in
  Done (le_bytes 4 (zlen entry_bytes) ++ entry_bytes).

Definition encode_entries (es : list JournalEntry) : StorageResult (list byte) :=
  ofold (fun buf e => let* frame := encode_frame e in Done (buf ++ frame)) [] es.

Fixpoint decode_loop (fuel : nat) (data : list byte) (pos : nat) (acc : list JournalEntry)
    : StorageResult (list JournalEntry) :=
  if decide (pos + 4 <= length data)%nat then
    match fuel with
    | O => Fault
    | S fuel =>
      let len := le_val (slice pos 4 data) in
      let pos := (pos + 4)%nat in
      if decide (Z.of_nat (length data) < Z.of_nat pos + len) then Done acc
      else
        let n := Z.to_nat len in
        let* entry := ser (from_wire wire_entry (slice pos n data)) in
        decode_loop fuel data (pos + n) (acc ++ [entry])
    end
  else Done acc.

Definition decode_entries (data : list byte) : StorageResult (list JournalEntry) :=
  decode_loop (length data) data 0 [].

(** ** The journal *)

Record Journal : Type := {
  file : option (list byte);
  entries : list JournalEntry;
  sequence : Z
}.

Definition checkpoint_seq (e : JournalEntry) : option Z :=
  match e with Checkpoint n => Some n | _ => None end.

Definition max_sequence (es : list JournalEntry) : Z :=
  foldr (fun e n => match checkpoint_seq e with Some s => Z.max s n | None => n end) 0 es.

(** [Journal::open] on the bytes found at the path, none for a missing file. *)
Definition journal_open (found : list byte) : StorageResult Journal :=
  let* entries := if decide (found = []) then Done [] else decode_entries found in
  Done {| file := Some found; entries := entries; sequence := max_sequence entries |}.

Definition journal_in_memory : Journal := {| file := None; entries := []; sequence := 0 |}.

Definition append (j : Journal) (e : JournalEntry) : StorageResult Journal :=
  let* file :=
    match file j with
    | None => Done None
    | Some bytes => let* frame := encode_frame e in Done (Some (bytes ++ frame))
    end in
  Done {| file := file; entries := entries j ++ [e]; sequence := sequence j |}.

Definition checkpoint (j : Journal) : StorageResult (Journal * Z) :=
  let seq := sequence j + 1 in
  do* guard (fitsb 64 seq) in
  let* j := append {| file := file j; entries := entries j; sequence := seq |}
                   (Checkpoint seq) in
  Done (j, seq).

(** The entries after the last one satisfying [p], everything when there is
    none: [rposition] followed by a slice. *)
Fixpoint after_last (p : JournalEntry -> bool) (es : list JournalEntry)
    : option (list JournalEntry) :=
  match es with
  | [] => None
  | e :: es => match after_last p es with
               | Some rest => Some rest
               | None => if p e then Some es else None
               end
  end.

Definition is_checkpoint (e : JournalEntry) : bool :=
  match e with Checkpoint _ => true | _ => false end.

Definition entries_since_checkpoint (j : Journal) : list JournalEntry :=
  default (entries j) (after_last is_checkpoint (entries j)).

Definition checkpoint_through (n : Z) (e : JournalEntry) : bool :=
  match e with Checkpoint s => s <=? n | _ => false end.

Definition truncate_through (j : Journal) (through : Z) : StorageResult Journal :=
  let es := default (entries j) (after_last (checkpoint_through through) (entries j)) in
  match file j with
  | None => Done {| file := None; entries := es; sequence := sequence j |}
  | Some _ => let* bytes := encode_entries es in
              Done {| file := Some bytes; entries := es; sequence := sequence j |}
  end.

(** ** Lemmas *)

(** An entry the format can hold: in-range fields, every length slot and the
    frame within 32 bits. *)
Definition entry_ok (e : JournalEntry) : Prop :=
  entry_wf e /\ slots_fit wire_entry e = true /\ fits 32 (zlen (enc wire_entry e)).

Definition frame (e : JournalEntry) : list byte :=
  le_bytes 4 (zlen (enc wire_entry e)) ++ enc wire_entry e.

Definition frames (es : list JournalEntry) : list byte := concat (map frame es).

(** What a crash in the middle of one append leaves behind the whole frames. *)
Definition torn (tail : list byte) : Prop :=
  exists e k, entry_ok e /\ (k < length (frame e))%nat /\ tail = take k (frame e).

Lemma encode_frame_ok e : entry_ok e -> encode_frame e = Done (frame e).
Proof.
  intros (Hwf & Hs & Hf). unfold encode_frame, ser. rewrite (to_wire_enc wire_entry _ e) by done.
  simpl. by rewrite (proj2 (fitsb_spec _ _) Hf).
Qed.

Lemma encode_entries_ok es : Forall entry_ok es -> encode_entries es = Done (frames es).
Proof.
  unfold encode_entries, frames. change (concat (map frame es)) with ([] ++ concat (map frame es)).
  generalize (@nil byte). intros buf Hes. revert buf.
  induction Hes as [|e es He _ IH]; intros buf; simpl; [by rewrite app_nil_r|].
  rewrite encode_frame_ok by done. simpl. by rewrite IH, <- app_assoc.
Qed.

Lemma length_frame e : (4 <= length (frame e))%nat.
Proof. unfold frame. rewrite length_app, length_le_bytes. lia. Qed.

Lemma torn_nil : torn [].
Proof.
  exists (Checkpoint 0), 0%nat. pose proof (length_frame (Checkpoint 0)).
  split; [split_and!; by vm_compute | split; [lia | done]].
Qed.

Lemma decode_torn fuel data pos acc tail :
  torn tail -> has_at data pos tail -> (pos + length tail)%nat = length data ->
  (length data <= pos + fuel)%nat -> decode_loop fuel data pos acc = Done acc.
Proof.
  intros (e & k & (Hwf & Hs & Hf) & Hk & ->) Hat Hl Hfuel.
  rewrite length_take_le in Hl by lia.
  destruct fuel as [|fuel]; simpl; (destruct (decide (pos + 4 <= length data)%nat) as [H4|];
    [|done]); [lia|].
  assert (take k (frame e) = le_bytes 4 (zlen (enc wire_entry e)) ++ take (k - 4) (enc wire_entry e))
    as E by (unfold frame; rewrite take_app_ge, length_le_bytes; rewrite ?length_le_bytes; [done|lia]).
  rewrite E in Hat. apply has_at_app in Hat as [Hat _].
  apply has_at_slice in Hat. rewrite length_le_bytes in Hat. rewrite Hat, le_val_bytes by done.
  unfold frame in Hk. rewrite length_app, length_le_bytes in Hk. unfold zlen.
  by rewrite decide_True by lia.
Qed.

Lemma decode_frame fuel data pos acc e :
  entry_ok e -> has_at data pos (frame e) ->
  decode_loop (S fuel) data pos acc
  = decode_loop fuel data (pos + length (frame e)) (acc ++ [e]).
Proof.
  intros (Hwf & Hs & Hf) Hat. pose proof (has_at_bound _ _ _ Hat) as Hb.
  unfold frame in *. apply has_at_app in Hat as [Hlen Hbody].
  rewrite length_app, length_le_bytes in *.
  apply has_at_slice in Hlen. rewrite length_le_bytes in Hlen.
  cbn [decode_loop]. rewrite decide_True by lia. rewrite Hlen, le_val_bytes by done.
  unfold zlen in *. rewrite decide_False by lia. rewrite Nat2Z.id.
  rewrite (has_at_slice _ _ _ Hbody). unfold ser.
  rewrite (from_wire_enc wire_entry _ e) by done. simpl. f_equal. lia.
Qed.

Lemma decode_frames es fuel data pos acc tail :
  Forall entry_ok es -> torn tail -> has_at data pos (frames es ++ tail) ->
  (pos + length (frames es ++ tail))%nat = length data -> (length data <= pos + fuel)%nat ->
  decode_loop fuel data pos acc = Done (acc ++ es).
Proof.
  intros Hes Ht. revert fuel pos acc.
  induction Hes as [|e es He Hes IH]; intros fuel pos acc; simpl.
  - intros Hat Hl Hf. rewrite app_nil_r. by eapply decode_torn.
  - unfold frames; simpl. fold (frames es). rewrite <- app_assoc. intros Hat Hl Hf.
    apply has_at_app in Hat as [He' Hat]. rewrite length_app in Hl.
    pose proof (length_frame e). destruct fuel as [|fuel]; [lia|].
    rewrite (decode_frame _ _ _ _ e) by done. rewrite IH; [by rewrite <- app_assoc | done | lia | lia].
Qed.

Lemma decode_loop_total fuel data pos acc :
  (length data <= pos + fuel)%nat -> decode_loop fuel data pos acc <> Fault.
Proof.
  revert pos acc. induction fuel as [|fuel IH]; intros pos acc Hf; simpl; case_decide; try done; [lia|].
  case_decide; [done|]. unfold ser.
  pose proof (from_wire_ok wire_entry _ (slice (pos + 4) (Z.to_nat (le_val (slice pos 4 data))) data)).
  destruct (from_wire _ _); simpl; [|done..]. apply IH. lia.
Qed.

(** ** Properties *)

(** Decoding what [encode_entries] wrote, followed by whatever part of one
    more frame a crash let through, gives exactly the whole entries back. *)
Theorem journal_decode_torn (es : list JournalEntry) (tail : list byte) :
  Forall entry_ok es -> torn tail ->
  exists bytes, encode_entries es = Done bytes /\ decode_entries (bytes ++ tail) = Done es.
Proof.
  intros Hes Ht. exists (frames es). split; [by apply encode_entries_ok|].
  unfold decode_entries. by rewrite (decode_frames es _ _ 0 [] tail) by (done || apply has_at_all).
Qed.

(** Decoding never panics nor loops, on any file. *)
Theorem journal_decode_total (data : list byte) : decode_entries data <> Fault.
Proof. apply decode_loop_total. lia. Qed.

(** The invariant of a journal on disk: the file is the encoding of its entries. *)
Definition journal_ok (j : Journal) : Prop :=
  Forall entry_ok (entries j) /\ (forall bytes, file j = Some bytes -> bytes = frames (entries j)).

Lemma journal_open_done found es :
  decode_entries found = Done es ->
  journal_open found = Done {| file := Some found; entries := es; sequence := max_sequence es |}.
Proof.
  intros H. unfold journal_open. destruct (decide (found = [])) as [->|]; [|by rewrite H].
  unfold decode_entries in H. simpl in H. by injection H as <-.
Qed.

Lemma frames_snoc es e : frames (es ++ [e]) = frames es ++ frame e.
Proof. unfold frames. rewrite map_app, concat_app. simpl. by rewrite app_nil_r. Qed.

Lemma append_ok j e :
  journal_ok j -> entry_ok e ->
  append j e = Done {| file := (fun b => b ++ frame e) <$> file j;
                       entries := entries j ++ [e]; sequence := sequence j |} /\
  journal_ok {| file := (fun b => b ++ frame e) <$> file j;
                entries := entries j ++ [e]; sequence := sequence j |}.
Proof.
  intros [Hes Hf] He. split.
  - unfold append. destruct (file j); [|done]. by rewrite encode_frame_ok.
  - split; simpl; [apply Forall_app; split; [done | by apply Forall_singleton]|].
    intros bytes. destruct (file j) as [b|]; simpl; [|done]. intros [= <-].
    by rewrite (Hf b eq_refl), frames_snoc.
Qed.

(** C8: write-ahead durability: whatever part of an append a crash lets reach
    the file, reopening finds all earlier entries, and the new one exactly when
    its frame is complete. *)
Theorem journal_crash_reopen (j j' : Journal) (e : JournalEntry) (old new : list byte) (k : nat) :
  journal_ok j -> entry_ok e -> file j = Some old ->
  append j e = Done j' -> file j' = Some new -> (length old <= k <= length new)%nat ->
  exists r, journal_open (take k new) = Done r /\
    entries r = if decide (k = length new) then entries j ++ [e] else entries j.
Proof.
  intros Hj He Hold Happ Hnew Hk. destruct (append_ok j e Hj He) as [E [Hes' _]].
  destruct Hj as [Hes Hfile]. pose proof (Hfile _ Hold) as ->.
  rewrite E in Happ. injection Happ as <-. rewrite Hold in Hnew. injection Hnew as <-.
  rewrite length_app in Hk. cbn [entries file sequence] in *.
  assert (decode_entries (take k (frames (entries j) ++ frame e))
          = Done (if decide (k = length (frames (entries j) ++ frame e))
                  then entries j ++ [e] else entries j)) as Hdec.
  { unfold decode_entries. case_decide as Hd.
    - rewrite Hd, take_ge by done. rewrite <- frames_snoc.
      rewrite (decode_frames (entries j ++ [e]) _ _ 0 [] []); [done|done|apply torn_nil|..].
      + rewrite app_nil_r. apply has_at_all.
      + by rewrite app_nil_r.
      + lia.
    - rewrite length_app in Hd. rewrite take_app_ge by lia.
      rewrite (decode_frames (entries j) _ _ 0 [] (take (k - length (frames (entries j))) (frame e)));
        [done|done| |apply has_at_all|done|lia].
      exists e, (k - length (frames (entries j)))%nat. split; [done|]. split; [lia|done]. }
  eexists. split; [by apply journal_open_done|]. done.
Qed.

(** *** Checkpoints and truncation *)

Lemma after_last_suffix p es rest :
  after_last p es = Some rest ->
  exists pre e, es = pre ++ e :: rest /\ p e = true /\ forallb (fun x => negb (p x)) rest = true.
Proof.
  revert rest. induction es as [|x es IH]; intros rest; simpl; [done|].
  destruct (after_last p es) as [r|] eqn:E.
  - intros [= ->]. destruct (IH _ eq_refl) as (pre & e & -> & Hp & Hn).
    by exists (x :: pre), e.
  - destruct (p x) eqn:Hp; [|done]. intros [= ->]. exists [], x. split_and!; [done..|].
    clear -E. induction rest as [|y rest IH]; simpl in *; [done|].
    destruct (after_last p rest) eqn:E'; [done|]. destruct (p y); [done|]. by rewrite IH.
Qed.

Lemma after_last_none p es : after_last p es = None -> forallb (fun x => negb (p x)) es = true.
Proof.
  induction es as [|y es IH]; simpl; [done|].
  destruct (after_last p es); [done|]. destruct (p y); [done|]. intros _. by rewrite IH.
Qed.

Lemma truncate_ok j n :
  journal_ok j -> exists j', truncate_through j n = Done j' /\ journal_ok j' /\
    entries j' = default (entries j) (after_last (checkpoint_through n) (entries j)) /\
    sequence j' = sequence j /\ (is_Some (file j') <-> is_Some (file j)).
Proof.
  intros [Hes Hf]. unfold truncate_through.
  set (es := default _ _).
  assert (Forall entry_ok es) as Hes'.
  { unfold es. destruct (after_last _ _) as [rest|] eqn:E; simpl; [|done].
    apply after_last_suffix in E as (pre & e & E & _). rewrite E in Hes.
    apply Forall_app in Hes as [_ Hes]. by inversion Hes. }
  destruct (file j) as [b|] eqn:Efile.
  - rewrite encode_entries_ok by done. simpl. eexists. split; [done|]. simpl.
    split; [split; [done|]; intros ? [= <-]; done|]. by rewrite !is_Some_alt.
  - eexists. split; [done|]. simpl. split; [by split|]. done.
Qed.

(** Truncation drops exactly the entries up to and including the last
    checkpoint numbered at most [through], rewrites the file to the encoding of
    the survivors, and reopening that file finds the same entries. *)
Theorem journal_truncate_reopen (j : Journal) (through : Z) :
  journal_ok j -> is_Some (file j) ->
  exists j' bytes, truncate_through j through = Done j' /\ file j' = Some bytes /\
    (exists dropped, entries j = dropped ++ entries j' /\
       (dropped <> [] -> exists pre s, dropped = pre ++ [Checkpoint s] /\ s <= through) /\
       (forall s, Checkpoint s ∈ entries j' -> s <= through -> False)) /\
    exists r, journal_open bytes = Done r /\ entries r = entries j'.
Proof.
  intros Hj Hfile. destruct (truncate_ok j through Hj) as (j' & E & Hj' & Hes & _ & Hf).
  destruct (proj2 Hf Hfile) as [bytes Hb]. exists j', bytes. split_and!; [done|done| |].
  - rewrite Hes. destruct (after_last _ _) as [rest|] eqn:Ea; simpl.
    + apply after_last_suffix in Ea as (pre & e & -> & Hp & Hn).
      exists (pre ++ [e]). split; [by rewrite <- app_assoc|]. split.
      * intros _. destruct e; simpl in Hp; try done. exists pre, sequence0. split; [done | lia].
      * intros s Hin Hs. rewrite forallb_forall in Hn. apply list_elem_of_In, Hn in Hin.
        simpl in Hin. lia.
    + exists []. split; [done|]. split; [done|]. apply after_last_none in Ea.
      intros s Hin Hs. rewrite forallb_forall in Ea. apply list_elem_of_In, Ea in Hin.
      simpl in Hin. lia.
  - destruct Hj' as [Hes' Hf']. rewrite (Hf' _ Hb).
    assert (decode_entries (frames (entries j')) = Done (entries j')) as Hdec.
    { unfold decode_entries. rewrite <- (app_nil_r (frames _)) at 2.
      rewrite (decode_frames (entries j') _ _ 0 [] []); [done|done|apply torn_nil|..].
      - rewrite app_nil_r. apply has_at_all.
      - by rewrite app_nil_r.
      - rewrite app_nil_r. lia. }
    eexists. split; [by apply journal_open_done|]. done.
Qed.

Definition demo_entry : JournalEntry := WriteVersioned (record_new 7 [Byte.x01; Byte.x02]).

Definition demo_journal : Journal :=
  {| file := Some (frames [demo_entry; Checkpoint 1]);
     entries := [demo_entry; Checkpoint 1]; sequence := 1 |}.

Lemma demo_entry_ok : entry_ok demo_entry.
Proof.
  split_and!; [|by vm_compute..]. simpl. split_and!; try done. by apply Forall_forall.
Qed.

Lemma checkpoint_entry_ok n : fits 64 n -> entry_ok (Checkpoint n).
Proof. intros Hn. split_and!; done. Qed.

Lemma demo_journal_ok : journal_ok demo_journal.
Proof.
  split; [|by intros ? [= <-]].
  apply Forall_cons; split; [apply demo_entry_ok|].
  by apply Forall_singleton, checkpoint_entry_ok.
Qed.

Lemma journal_decode_torn_witness :
  exists bytes, encode_entries [demo_entry] = Done bytes /\
    decode_entries (bytes ++ take 6 (frame (Checkpoint 1))) = Done [demo_entry].
Proof.
  apply journal_decode_torn; [apply Forall_singleton, demo_entry_ok|].
  exists (Checkpoint 1), 6%nat. split; [by apply checkpoint_entry_ok|].
  split; [vm_compute; lia | done].
Defined.

Lemma journal_crash_reopen_witness :
  exists r, journal_open (take 120 (frames [demo_entry; Checkpoint 1] ++ frame demo_entry)) = Done r /\
    entries r = if decide (120%nat = length (frames [demo_entry; Checkpoint 1] ++ frame demo_entry))
                then entries demo_journal ++ [demo_entry] else entries demo_journal.
Proof.
  eapply (journal_crash_reopen demo_journal); [apply demo_journal_ok | apply demo_entry_ok
    | reflexivity | vm_compute; reflexivity | reflexivity |].
  vm_compute. lia.
Defined.

Lemma journal_truncate_reopen_witness :
  exists j' bytes, truncate_through demo_journal 1 = Done j' /\ file j' = Some bytes /\
    (exists dropped, entries demo_journal = dropped ++ entries j' /\
       (dropped <> [] -> exists pre s, dropped = pre ++ [Checkpoint s] /\ s <= 1) /\
       (forall s, Checkpoint s ∈ entries j' -> s <= 1 -> False)) /\
    exists r, journal_open bytes = Done r /\ entries r = entries j'.
Proof. apply journal_truncate_reopen; [apply demo_journal_ok | by eexists]. Defined.

(** A torn append is not undone on the next start: [open] ignores the partial
    frame but leaves its bytes in the file and appends behind them, so the entry
    written next, although its append returned, is not found when the journal is
    opened again. *)
Theorem torn_append_loses_next :
  exists found j j' bytes r,
    torn found /\ journal_open found = Done j /\ entries j = [] /\
    append j demo_entry = Done j' /\ file j' = Some bytes /\
    journal_open bytes = Done r /\ entries r = [].
Proof.
  assert (torn (take 110 (frame (WriteVersioned (record_new 7 (replicate 200 Byte.x00)))))) as Ht.
  { eexists _, 110%nat. split; [|split; [|reflexivity]]; [|vm_compute; lia].
    split_and!; [|by vm_compute..]. split_and!; try done. by apply Forall_true. }
  eexists _, _, _, _, _. split; [exact Ht|]. split; [vm_compute; reflexivity|].
  split; [done|]. split; [vm_compute; reflexivity|]. split; [reflexivity|].
  split; [vm_compute; reflexivity|]. done.
Qed.
