(* ===== verification/DataFile.v ===== *)
(** * The hash-routed page file (wavedb-storage: cache.rs, file/data.rs)

    The locks and atomics of the source protect one value, the state of this
    file; operations are modelled one at a time, so the single-flight latch of
    [rebalance] is always free on entry.  The journal pipe is the list of entries
    sent so far; the snapshot on disk is its bytes. *)
From S2P Require Import Prelude Wire WireOk Errors Ids Page Hash Anchor Journal.

Inductive Mode : Type := InMemory | OnDisk.

(** ** Cache *)

Record Cache : Type := {
  anchors : gmap Z AnchorSlot;
  versioned : gmap Z VersionedRecord
}.

Definition cache_new : Cache := {| anchors := ∅; versioned := ∅ |}.
Definition put_anchor (k : AnchorKey) (s : AnchorSlot) (c : Cache) : Cache :=
  {| anchors := <[k := s]> (anchors c); versioned := versioned c |}.
Definition get_anchor (c : Cache) (k : AnchorKey) : option AnchorSlot := anchors c !! k.
Definition remove_anchor (k : AnchorKey) (c : Cache) : Cache :=
  {| anchors := delete k (anchors c); versioned := versioned c |}.
Definition put_versioned (r : VersionedRecord) (c : Cache) : Cache :=
  {| anchors := anchors c; versioned := <[vr_id r := r]> (versioned c) |}.
Definition get_versioned (c : Cache) (id : Z) : option VersionedRecord := versioned c !! id.
Definition estimated_bytes (c : Cache) : Z :=
  (Z.of_nat (size (anchors c)) + Z.of_nat (size (versioned c))) * 256.

(** ** State *)

Record DataFile : Type := {
  df_page_size : Z;
  mode : Mode;
  page_count : Z;
  previous_page_counts : list Z;
  pages : list Page;
  page_bytes : list Z;
  cache : Cache;
  journal_tx : option (list JournalEntry);
  snapshot : option (list byte)
}.

Definition with_pages (ps : list Page) (d : DataFile) : DataFile :=
  {| df_page_size := df_page_size d; mode := mode d; page_count := page_count d;
     previous_page_counts := previous_page_counts d; pages := ps;
     page_bytes := page_bytes d; cache := cache d; journal_tx := journal_tx d;
     snapshot := snapshot d |}.
Definition with_page_bytes (pb : list Z) (d : DataFile) : DataFile :=
  {| df_page_size := df_page_size d; mode := mode d; page_count := page_count d;
     previous_page_counts := previous_page_counts d; pages := pages d;
     page_bytes := pb; cache := cache d; journal_tx := journal_tx d; snapshot := snapshot d |}.
Definition with_counts (n : Z) (prev : list Z) (d : DataFile) : DataFile :=
  {| df_page_size := df_page_size d; mode := mode d; page_count := n;
     previous_page_counts := prev; pages := pages d; page_bytes := page_bytes d;
     cache := cache d; journal_tx := journal_tx d; snapshot := snapshot d |}.
Definition with_cache (c : Cache) (d : DataFile) : DataFile :=
  {| df_page_size := df_page_size d; mode := mode d; page_count := page_count d;
     previous_page_counts := previous_page_counts d; pages := pages d;
     page_bytes := page_bytes d; cache := c; journal_tx := journal_tx d; snapshot := snapshot d |}.
Definition with_tx (tx : option (list JournalEntry)) (d : DataFile) : DataFile :=
  {| df_page_size := df_page_size d; mode := mode d; page_count := page_count d;
     previous_page_counts := previous_page_counts d; pages := pages d;
     page_bytes := page_bytes d; cache := cache d; journal_tx := tx; snapshot := snapshot d |}.
Definition with_snapshot (s : option (list byte)) (d : DataFile) : DataFile :=
  {| df_page_size := df_page_size d; mode := mode d; page_count := page_count d;
     previous_page_counts := previous_page_counts d; pages := pages d;
     page_bytes := page_bytes d; cache := cache d; journal_tx := journal_tx d; snapshot := s |}.

Definition DF (A : Type) : Type := ST DataFile StorageError A.

Definition DEFAULT_PAGE_COUNT : Z := 256.
Definition DEFAULT_PAGE_SIZE : Z := 4 * 4 * 1024.

Definition open_with_mode (page_size count : Z) (m : Mode) : StorageResult DataFile :=
  if count =? 0 then Fail (Other "page_count must be at least 1")
  else
    let* p := page_new page_size in
    Done {| df_page_size := page_size; mode := m; page_count := count;
            previous_page_counts := []; pages := replicate (Z.to_nat count) p;
            page_bytes := replicate (Z.to_nat count) 0; cache := cache_new;
            journal_tx := None; snapshot := None |}.

(** ** Routing *)

Definition unique_anchor_id (struct_id tenant : Z) : Z := Id_new tenant 0 struct_id 0.

Definition page_key_full (id : Id) : PageKey :=
  Tuple4 (struct_id id) (tenant_id id) (shard_id id) (created_at id).

Definition route_key_for_raw (raw : Z) : PageKey :=
  if (shard_id raw =? 0) && (created_at raw =? 0)
  then Tuple2 (struct_id raw) (tenant_id raw) else page_key_full raw.

Definition page_index (key : PageKey) (count : Z) : nat := Z.to_nat (page_of_key key count).

Definition fallback_index (primary : nat) (key : PageKey) (count : Z) : nat :=
  let '(struct_id, tenant, shard) :=
    match key with
    | Tuple2 struct_id tenant => (struct_id, tenant, 0)
    | Tuple4 struct_id tenant shard _ => (struct_id, tenant, shard)
    end in
  let step := double_hash_step struct_id tenant shard count in
  Z.to_nat ((Z.of_nat primary + step) mod Z.max count 1).

Definition bump_page_bytes (i : nat) (delta : Z) : DF unit :=
  st_modify (fun d => with_page_bytes (alter (fun n => wrap 64 (n + delta)) i (page_bytes d)) d).

(** [pages[i]], [pages[i].op(...)]. *)
Definition page_at (i : nat) : DF Page := fun d => (expect (pages d !! i), d).

Definition set_page (i : nat) (p : Page) : DF unit :=
  st_modify (fun d => with_pages (<[i := p]> (pages d)) d).

Definition update_page {A} (i : nat) (f : Page -> StorageResult (Page * A)) : DF A :=
  let! p := page_at i in
  let! (p, a) := st_lift (f p) in
  do! set_page i p in
  st_ret a.

Definition try_insert_at_key (key : PageKey) (raw : Z) (bytes : list byte) : DF unit :=
  let! n := st_gets page_count in
  let primary := page_index key n in
  let! ok := update_page primary (fun p => page_upsert p raw bytes) in
  if (ok : bool) then bump_page_bytes primary (zlen bytes)
  else
    let alt := fallback_index primary key n in
    let! ok := update_page alt (fun p => page_upsert p raw bytes) in
    if (ok : bool) then
      do! bump_page_bytes alt (zlen bytes) in
      let! _ := update_page primary (fun p => page_remove p raw) in
      st_ret tt
    else st_lift (Fail (PageFull (Z.of_nat alt))).

(** [try_at] of [lookup_at_key]: the primary page, then the fallback. *)
Definition try_at (ps : list Page) (key : PageKey) (raw count : Z)
    : StorageResult (option (list byte)) :=
  let primary := page_index key count in
  let* p := expect (ps !! primary) in
  let* r := page_lookup p raw in
  match r with
  | Some b => Done (Some b)
  | None =>
    let* p := expect (ps !! fallback_index primary key count) in
    page_lookup p raw
  end.

Fixpoint try_counts (ps : list Page) (key : PageKey) (raw : Z) (counts : list Z)
    : StorageResult (option (list byte)) :=
  match counts with
  | [] => Done None
  | n :: counts => let* r := try_at ps key raw n in
                   match r with
                   | Some b => Done (Some b)
                   | None => try_counts ps key raw counts
                   end
  end.

Definition lookup_at_key (key : PageKey) (raw : Z) : DF (option (list byte)) :=
  fun d => (try_counts (pages d) key raw (page_count d :: reverse (previous_page_counts d)), d).

(** ** Growth *)

(** [fill_ratio() >= 0.75]: the comparison of floats agrees with the one of
    rationals for the page counts that fit a file. *)
Definition used_page_count (d : DataFile) : Z :=
  zlen (filter (fun p => 0 < entry_count (header p)) (pages d)).

Definition crowded (d : DataFile) : bool := 3 * page_count d <=? 4 * used_page_count d.

(** [(old * 1.75).ceil().max(old + 1)]: exact in floats below 2^50 pages. *)
Definition grown (old : Z) : Z := Z.max (- ((- (7 * old)) / 4)) (old + 1).

Record Move : Type := { mv_raw : Z; mv_slot : nat; mv_bytes : list byte }.

Definition page_moves (p : Page) (old_idx : nat) (new_count : Z) : StorageResult (list Move) :=
  ofold (fun out e =>
    let new_slot := page_index (route_key_for_raw (de_id e)) new_count in
    if Nat.eqb new_slot old_idx then Done out
    else
      let* bytes := expect (sub (de_offset e) (de_offset e + de_size e) (data p)) in
      Done (out ++ [{| mv_raw := de_id e; mv_slot := new_slot; mv_bytes := bytes |}]))
    [] (directory p).

Definition run_move (old_idx : nat) (mv : Move) : DF unit :=
  let! ok := update_page (mv_slot mv) (fun p => page_insert p (mv_raw mv) (mv_bytes mv)) in
  if (ok : bool) then
    let! _ := update_page old_idx (fun p => page_remove p (mv_raw mv)) in
    do! bump_page_bytes (mv_slot mv) (zlen (mv_bytes mv)) in
    st_modify (fun d => with_tx ((fun tx => tx ++
      [WriteVersioned (record_new (mv_raw mv) (mv_bytes mv))]) <$> journal_tx d) d)
  else st_lift (Fail (Other "rebalance: new slot full")).

Definition rebalance_one_page (old_idx : nat) (new_count : Z) : DF unit :=
  let! p := page_at old_idx in
  let! moves := st_lift (page_moves p old_idx new_count) in
  st_iter (run_move old_idx) moves.

(** Old page indices, the fullest by written bytes first. *)
Definition fill_order (pb : list Z) (old_count : Z) : list nat :=
  sort_by (fun i j => default 0 (pb !! j) <=? default 0 (pb !! i)) (seq 0 (Z.to_nat old_count)).

Definition rebalance : DF unit :=
  let! old_count := st_gets page_count in
  let new_count := grown old_count in
  do! st_lift (guard (fitsb 64 new_count)) in
  let! size := st_gets df_page_size in
  let! fresh := st_lift (page_new size) in
  let extra := Z.to_nat (new_count - old_count) in
  do! st_modify (fun d => with_counts (page_count d) (previous_page_counts d ++ [old_count]) d) in
  do! st_modify (fun d => with_pages (pages d ++ replicate extra fresh)
                 (with_page_bytes (page_bytes d ++ replicate extra 0) d)) in
  do! st_modify (fun d => with_counts new_count (previous_page_counts d) d) in
  let! pb := st_gets page_bytes in
  do! st_iter (fun i => rebalance_one_page i new_count) (fill_order pb old_count) in
  st_modify (fun d => with_counts (page_count d)
    (filter (fun c => c <> old_count) (previous_page_counts d)) d).

(** [let _ = self.rebalance()]: an error is dropped, a panic is not. *)
Definition ignore_error (m : DF unit) : DF unit := fun d =>
  match m d with
  | (Fail _, d') => (Done tt, d')
  | r => r
  end.

Definition insert_at_key (key : PageKey) (raw : Z) (bytes : list byte) : DF unit := fun d =>
  match try_insert_at_key key raw bytes d with
  | (Done tt, d') => if crowded d' then ignore_error rebalance d' else (Done tt, d')
  | (Fail (PageFull _), d') =>
      (do! rebalance in try_insert_at_key key raw bytes) d'
  | r => r
  end.

(** ** Typed entry points *)

Definition cache_anchor (k : AnchorKey) (s : AnchorSlot) : DF unit :=
  st_modify (fun d => with_cache (put_anchor k s (cache d)) d).

(** A lookup through a decoder: [.map(from_bytes).transpose()]. *)
Definition decoded {A} (f : list byte -> StorageResult A) (key : PageKey) (raw : Z)
    : DF (option A) :=
  let! b := lookup_at_key key raw in
  match b with
  | None => st_ret None
  | Some b => let! a := st_lift (f b) in st_ret (Some a)
  end.

(** Write through the page file, then into the cache. *)
Definition write_slot_at (key : PageKey) (raw : Z) (slot : AnchorSlot) : DF unit :=
  let! bytes := st_lift (slot_to_bytes slot) in
  do! insert_at_key key raw bytes in
  cache_anchor raw slot.

Definition read_slot_at (key : PageKey) (raw : Z) : DF (option AnchorSlot) :=
  let! hit := st_gets (fun d => get_anchor (cache d) raw) in
  match hit with
  | Some slot => st_ret (Some slot)
  | None => decoded slot_from_bytes key raw
  end.

Definition write_unique_anchor (struct_id tenant : Z) (slot : AnchorSlot) : DF unit :=
  write_slot_at (Tuple2 struct_id tenant) (unique_anchor_id struct_id tenant) slot.

Definition read_unique_anchor (struct_id tenant : Z) : DF (option AnchorSlot) :=
  read_slot_at (Tuple2 struct_id tenant) (unique_anchor_id struct_id tenant).

Definition write_nonunique_tracker := write_unique_anchor.
Definition read_nonunique_tracker := read_unique_anchor.

Definition write_nested_tracker (id : Id) (slot : AnchorSlot) : DF unit :=
  write_slot_at (page_key_full id) id slot.

Definition read_nested_tracker (id : Id) : DF (option AnchorSlot) :=
  read_slot_at (page_key_full id) id.

Definition write_full_id (id : Id) (rec : VersionedRecord) : DF unit :=
  let! bytes := st_lift (record_to_bytes rec) in
  do! insert_at_key (page_key_full id) (vr_id rec) bytes in
  st_modify (fun d => with_cache (put_versioned rec (cache d)) d).

Definition read_full_id (id : Id) : DF (option VersionedRecord) :=
  let! hit := st_gets (fun d => get_versioned (cache d) id) in
  match hit with
  | Some rec => st_ret (Some rec)
  | None => decoded record_from_bytes (page_key_full id) id
  end.

(** Unique history, non-unique and nested elements share the full-id path. *)
Definition write_unique_history := write_full_id.
Definition read_unique_history := read_full_id.
Definition write_nonunique_element := write_full_id.
Definition read_nonunique_element := read_full_id.
Definition write_nested_element := write_full_id.
Definition read_nested_element := read_full_id.

Definition write_heap_anchor (content_hash block : Z) : DF unit :=
  write_slot_at (route_key_for_raw content_hash) content_hash (slot_heap_ref block).

Definition read_heap_anchor (content_hash : Z) : DF (option Z) :=
  let! slot := read_slot_at (route_key_for_raw content_hash) content_hash in
  st_ret (s ← slot; heap_block s).

Definition clear_heap_anchor (content_hash : Z) : DF unit :=
  write_slot_at (route_key_for_raw content_hash) content_hash secondary_tombstone.

Definition write_anchor (key : AnchorKey) (slot : AnchorSlot) : DF unit :=
  if shard_id key =? 0 then write_unique_anchor (struct_id key) (tenant_id key) slot
  else write_slot_at (page_key_full key) key slot.

Definition read_anchor (key : AnchorKey) : DF (option AnchorSlot) :=
  if shard_id key =? 0 then read_unique_anchor (struct_id key) (tenant_id key)
  else read_slot_at (page_key_full key) key.

Definition write_versioned (rec : VersionedRecord) : DF unit := write_full_id (vr_id rec) rec.
Definition read_versioned (id : Id) : DF (option VersionedRecord) := read_full_id id.

(** ** Snapshots *)

Definition DISK_FORMAT_MAGIC : list byte := [Byte.x57; Byte.x44; Byte.x42; Byte.x53].

(** The non-empty pages with their indices. *)
Definition sparse (ps : list Page) : list (nat * Page) :=
  filter (fun ip => 0 < entry_count (header ip.2)) (imap (fun i p => (i, p)) ps).

Definition page_blob (ip : nat * Page) : StorageResult (list byte) :=
  let* bytes := ser (to_wire wire_page ip.2) in
  do* (if fitsb 32 (zlen bytes) then Done tt else Fail (Other "snapshot page too large")) in
  Done (le_bytes 8 (Z.of_nat ip.1) ++ le_bytes 4 (zlen bytes) ++ bytes).

Definition snapshot_bytes (d : DataFile) : StorageResult (list byte) :=
  let entries := sparse (pages d) in
  do* (if fitsb 32 (zlen entries) then Done tt else Fail (Other "too many snapshot pages")) in
  ofold (fun blob ip => let* b := page_blob ip in Done (blob ++ b))
    (DISK_FORMAT_MAGIC ++ le_bytes 8 (page_count d) ++ le_bytes 4 (zlen entries)) entries.

(** [flush]: a temporary file renamed over the snapshot, nothing in memory
    mode. *)
Definition df_flush : DF unit := fun d =>
  match mode d with
  | InMemory => (Done tt, d)
  | OnDisk => (let! blob := st_lift (snapshot_bytes d) in
               st_modify (with_snapshot (Some blob))) d
  end.

Definition truncated {A} : StorageResult A := Fail (Other "truncated data snapshot").

(** [payload.get(a..a + n)]. *)
Definition get_bytes (payload : list byte) (a n : Z) : StorageResult (list byte) :=
  match sub a (a + n) payload with Some b => Done b | None => truncated end.

Fixpoint reload_pages (n : nat) (payload : list byte) (pos : Z) (ps : list Page) (pb : list Z)
    : StorageResult (list Page * list Z) :=
  match n with
  | O => Done (ps, pb)
  | S n =>
    let* head := get_bytes payload pos 12 in
    let idx := le_val (take 8 head) in
    let len := le_val (drop 8 head) in
    let* body := get_bytes payload (pos + 12) len in
    let* page := ser (from_wire wire_page body) in
    let used := foldr (fun e n => de_size e + n) 0 (directory page) in
    let '(ps, pb) :=
      if idx <? zlen ps
      then (<[Z.to_nat idx := page]> ps, <[Z.to_nat idx := used]> pb) else (ps, pb) in
    reload_pages n payload (pos + 12 + len) ps pb
  end.

Definition reload_from_disk (d : DataFile) (bytes : list byte) : StorageResult DataFile :=
  if decide (bytes = []) then Done d
  else if decide (take 4 bytes = DISK_FORMAT_MAGIC) then
    let payload := drop 4 bytes in
    let* fixed := get_bytes payload 0 12 in
    let count := le_val (take 8 fixed) in
    let entry_count := le_val (drop 8 fixed) in
    if count =? 0 then Done d
    else
      let* p := page_new (df_page_size d) in
      let* (ps, pb) := reload_pages (Z.to_nat entry_count) payload 12
        (replicate (Z.to_nat count) p) (replicate (Z.to_nat count) 0) in
      Done (with_counts count (previous_page_counts d)
              (with_pages ps (with_page_bytes pb d)))
  else Fail (Other "unsupported data snapshot format (pre-wire legacy file)").

Definition open_on_disk (page_size : Z) (found : option (list byte)) : StorageResult DataFile :=
  let* d := open_with_mode page_size DEFAULT_PAGE_COUNT OnDisk in
  match found with
  | Some bytes => let* d := reload_from_disk d bytes in Done (with_snapshot found d)
  | None => Done d
  end.

#[global] Arguments page_index : simpl never.
#[global] Arguments fallback_index : simpl never.
#[global] Arguments route_key_for_raw : simpl never.
#[global] Arguments page_key_full : simpl never.
#[global] Arguments unique_anchor_id : simpl never.
