(* ===== verification/DataFileOk.v ===== *)
(** * Correctness of the page file: writes, lookups and growth *)
From S2P Require Import Prelude Wire WireOk Errors Ids Page Hash Anchor Journal DataFile.

(** What page [i] holds for a key. *)
Definition at_page (ps : list Page) (i : nat) (raw : Z) : option (list byte) :=
  p ← ps !! i; contents p raw.

(** Every page is well formed and has the file's page size, and there are as
    many as the published count and every count still searched. *)
Record pages_ok (d : DataFile) : Prop := {
  po_count : 1 <= page_count d;
  po_length : zlen (pages d) = page_count d;
  po_size : HEADER_SIZE <= df_page_size d /\ df_page_size d + DIR_ENTRY_SIZE < 2 ^ 32;
  po_page : forall i p, pages d !! i = Some p ->
    page_ok p /\ page_size p = df_page_size d /\ heap_offset (header p) = df_page_size d;
  po_prev : forall c, c ∈ previous_page_counts d -> 1 <= c <= page_count d
}.

Lemma page_index_lt key n : 1 <= n -> (page_index key n < Z.to_nat n)%nat.
Proof. intros. unfold page_index. pose proof (page_of_key_bound key n). lia. Qed.

Lemma fallback_index_lt i key n : 1 <= n -> (fallback_index i key n < Z.to_nat n)%nat.
Proof.
  intros. unfold fallback_index. destruct (match key with Tuple2 _ _ => _ | _ => _ end) as [[a b] c].
  pose proof (Z.mod_pos_bound (Z.of_nat i + double_hash_step a b c n) (Z.max n 1)). lia.
Qed.

#[global] Opaque page_index fallback_index route_key_for_raw.

Lemma page_exists d n i :
  pages_ok d -> 1 <= n <= page_count d -> (i < Z.to_nat n)%nat -> exists p, pages d !! i = Some p.
Proof.
  intros H Hn Hi. apply lookup_lt_is_Some. pose proof (po_length _ H). unfold zlen in *. lia.
Qed.

Lemma at_page_insert ps i p raw j :
  (i < length ps)%nat ->
  at_page (<[i := p]> ps) j raw = if decide (i = j) then contents p raw else at_page ps j raw.
Proof.
  intros Hi. unfold at_page. destruct (decide (i = j)) as [<-|Hne].
  - by rewrite list_lookup_insert_eq.
  - by rewrite list_lookup_insert_ne.
Qed.

Lemma update_page_run {A} i (f : Page -> StorageResult (Page * A)) d p p' a :
  pages d !! i = Some p -> f p = Done (p', a) ->
  update_page i f d = (Done a, with_pages (<[i := p']> (pages d)) d).
Proof.
  intros Hp Hf. unfold update_page, st_bind, page_at, st_lift, set_page, st_modify.
  rewrite Hp. simpl. by rewrite Hf.
Qed.

(** ** Lookups *)

Lemma try_at_spec d key raw n :
  pages_ok d -> 1 <= n <= page_count d ->
  let primary := page_index key n in
  try_at (pages d) key raw n =
  Done (match at_page (pages d) primary raw with
        | Some b => Some b
        | None => at_page (pages d) (fallback_index primary key n) raw
        end).
Proof.
  intros H Hn primary. unfold try_at, at_page. fold primary.
  destruct (page_exists d n primary H Hn) as [p Hp]; [apply page_index_lt; lia|].
  rewrite Hp. simpl. rewrite page_lookup_contents by (by eapply po_page). simpl.
  destruct (contents p raw); [done|].
  destruct (page_exists d n (fallback_index primary key n) H Hn) as [q Hq];
    [apply fallback_index_lt; lia|].
  rewrite Hq. simpl. by rewrite page_lookup_contents by (by eapply po_page).
Qed.

(** The first page of the search order that holds the key. *)
Fixpoint search (ps : list Page) (key : PageKey) (raw : Z) (counts : list Z) : option (list byte) :=
  match counts with
  | [] => None
  | n :: counts =>
    match at_page ps (page_index key n) raw with
    | Some b => Some b
    | None => match at_page ps (fallback_index (page_index key n) key n) raw with
              | Some b => Some b
              | None => search ps key raw counts
              end
    end
  end.

Definition counts (d : DataFile) : list Z := page_count d :: reverse (previous_page_counts d).

Lemma counts_bound d c : pages_ok d -> c ∈ counts d -> 1 <= c <= page_count d.
Proof.
  intros H [->|Hc]%elem_of_cons; [pose proof (po_count _ H); lia|].
  rewrite elem_of_reverse in Hc. by apply (po_prev _ H).
Qed.

Lemma try_counts_spec d key raw cs :
  pages_ok d -> (forall c, c ∈ cs -> 1 <= c <= page_count d) ->
  try_counts (pages d) key raw cs = Done (search (pages d) key raw cs).
Proof.
  intros H Hcs. induction cs as [|n cs IH]; simpl; [done|].
  rewrite try_at_spec by (done || apply Hcs; by left). simpl.
  destruct (at_page _ _ _); simpl; [done|]. destruct (at_page _ _ _); simpl; [done|].
  apply IH. intros c Hc. apply Hcs. by right.
Qed.

Lemma lookup_spec d key raw :
  pages_ok d -> lookup_at_key key raw d = (Done (search (pages d) key raw (counts d)), d).
Proof.
  intros H. unfold lookup_at_key. f_equal. apply try_counts_spec; [done|].
  intros c Hc. by apply counts_bound.
Qed.

Lemma search_ext ps ps' key raw cs :
  (forall i, at_page ps' i raw = at_page ps i raw) -> search ps' key raw cs = search ps key raw cs.
Proof. intros H. induction cs as [|n cs IH]; simpl; [done|]. by rewrite !H, IH. Qed.

(** ** Writes that do not grow the file *)

(** Every stored value is large enough for the directory bound of [upsert] to
    hold: a versioned record takes at least 52 bytes. *)
Definition MIN_VALUE : Z := 33.

Definition bulky (d : DataFile) : Prop :=
  1076 <= df_page_size d /\
  forall i p, pages d !! i = Some p -> forall n, n ∈ map de_size (directory p) -> MIN_VALUE <= n.

Lemma bulky_live l : (forall n, n ∈ map de_size l -> MIN_VALUE <= n) -> MIN_VALUE * zlen l <= live_bytes l.
Proof.
  unfold MIN_VALUE, zlen. induction l as [|e l IH]; simpl; intros Hn; [lia|].
  pose proof (Hn (de_size e) ltac:(by left)). specialize (IH ltac:(intros; apply Hn; by right)). lia.
Qed.

Lemma bulky_fits d i p : pages_ok d -> bulky d -> pages d !! i = Some p -> directory_fits p.
Proof.
  intros H [Hs Hb] Hp. specialize (Hb i p Hp). apply bulky_live in Hb.
  destruct (po_page _ H i p Hp) as (Hok & Hps & Hho). pose proof (pk_heap _ Hok).
  pose proof (laid_out_live _ _ _ (pk_dir _ Hok)).
  unfold directory_fits, MIN_VALUE, HEADER_SIZE, DIR_ENTRY_SIZE in *. lia.
Qed.

(** The pages after an update of one of them. *)
Lemma pages_ok_update d i p p' d' :
  pages_ok d -> pages d !! i = Some p -> page_ok p' ->
  page_size p' = page_size p -> heap_offset (header p') = heap_offset (header p) ->
  pages d' = <[i := p']> (pages d) -> page_count d' = page_count d ->
  df_page_size d' = df_page_size d -> previous_page_counts d' = previous_page_counts d ->
  pages_ok d'.
Proof.
  intros H Hp Hp' Hs Hh Ep Ec Es Epr. destruct (po_page _ H i p Hp) as (? & ? & ?).
  constructor; rewrite ?Ep, ?Ec, ?Es, ?Epr; try apply H.
  - unfold zlen. rewrite length_insert. apply H.
  - intros j q Hj. apply list_lookup_insert_Some in Hj as [(<- & <- & _)|[_ Hj]];
      [by split_and!; [|congruence..] | by apply (po_page _ H j)].
Qed.

(** What a write leaves alone. *)
Definition same_file (d d' : DataFile) : Prop :=
  df_page_size d' = df_page_size d /\ mode d' = mode d /\ page_count d' = page_count d /\
  previous_page_counts d' = previous_page_counts d /\ cache d' = cache d /\
  journal_tx d' = journal_tx d /\ snapshot d' = snapshot d.

Lemma pages_ok_same d d' : pages d' = pages d -> same_file d d' -> pages_ok d -> pages_ok d'.
Proof.
  intros Ep (Es & _ & Ec & Epr & _) H. constructor; rewrite ?Ep, ?Es, ?Ec, ?Epr; apply H.
Qed.

Lemma bulky_same d d' : pages d' = pages d -> df_page_size d' = df_page_size d -> bulky d -> bulky d'.
Proof. intros Ep Es [H1 H2]. split; [by rewrite Es|]. rewrite Ep. apply H2. Qed.

(** An upsert on a page whose directory fits. *)
Lemma upsert_at d i p raw bytes :
  pages_ok d -> pages d !! i = Some p -> directory_fits p ->
  0 < zlen bytes -> zlen bytes + DIR_ENTRY_SIZE < 2 ^ 32 ->
  exists p' b, page_upsert p raw bytes = Done (p', b) /\
  let d' := with_pages (<[i := p']> (pages d)) d in
  update_page i (fun p => page_upsert p raw bytes) d = (Done b, d') /\
  pages_ok d' /\ same_file d d' /\
  (forall n, n ∈ map de_size (directory p') -> n = zlen bytes \/ n ∈ map de_size (directory p)) /\
  forall j raw', at_page (pages d') j raw' =
    if decide (j = i /\ raw' = raw) then (if (b : bool) then Some bytes else None)
    else at_page (pages d) j raw'.
Proof.
  intros H Hp Hf Hpos Hmax. destruct (po_page _ H i p Hp) as (Hok & Hps & Hho).
  destruct (upsert_spec p raw bytes Hok Hf Hpos Hmax) as (p' & b & E & Hok' & Hc & _ & Hho' & Hsz & _).
  exists p', b. split; [done|]. split_and!; [by eapply update_page_run| |done|done|].
  - eapply pages_ok_update; try done. by eapply page_upsert_size.
  - intros j raw'. simpl. rewrite at_page_insert by (by apply lookup_lt_is_Some; eexists).
    destruct (decide (i = j)) as [<-|Hne].
    + rewrite Hc. unfold at_page. rewrite Hp. simpl.
      destruct (decide (raw' = raw)) as [->|]; [by rewrite decide_True|].
      by rewrite decide_False by tauto.
    + by rewrite decide_False by naive_solver.
Qed.

Lemma upsert_step d i raw bytes :
  pages_ok d -> bulky d -> (i < Z.to_nat (page_count d))%nat ->
  MIN_VALUE <= zlen bytes -> zlen bytes + DIR_ENTRY_SIZE < 2 ^ 32 ->
  exists p p' b, pages d !! i = Some p /\ page_upsert p raw bytes = Done (p', b) /\
  let d' := with_pages (<[i := p']> (pages d)) d in
  update_page i (fun p => page_upsert p raw bytes) d = (Done b, d') /\
  pages_ok d' /\ bulky d' /\ same_file d d' /\
  forall j raw', at_page (pages d') j raw' =
    if decide (j = i /\ raw' = raw) then (if (b : bool) then Some bytes else None)
    else at_page (pages d) j raw'.
Proof.
  intros H Hb Hi Hmin Hmax. pose proof (po_count _ H).
  destruct (page_exists d (page_count d) i H ltac:(lia) Hi) as [p Hp].
  destruct (upsert_at d i p raw bytes H Hp (bulky_fits d i p H Hb Hp)) as (p' & b & E & Eu & H' & Hs & Hsz & Ha);
    [unfold MIN_VALUE in Hmin; lia|done|].
  exists p, p', b. do 4 (split; [done|]). split; [|done].
  destruct Hb as [Hb1 Hb2]. split; [done|]. simpl. intros j q Hj.
  apply list_lookup_insert_Some in Hj as [(<- & <- & _)|[_ Hj]]; [|by apply (Hb2 j)].
  intros n [->|Hn]%Hsz; [done | by apply (Hb2 i p)].
Qed.

Lemma remove_step d i raw :
  pages_ok d -> (i < Z.to_nat (page_count d))%nat ->
  exists b d', update_page i (fun p => page_remove p raw) d = (Done b, d') /\
  pages_ok d' /\ (bulky d -> bulky d') /\ same_file d d' /\
  forall j raw', at_page (pages d') j raw' =
    if decide (j = i /\ raw' = raw) then None else at_page (pages d) j raw'.
Proof.
  intros H Hi. pose proof (po_count _ H).
  destruct (page_exists d (page_count d) i H ltac:(lia) Hi) as [p Hp].
  destruct (po_page _ H i p Hp) as (Hok & Hps & Hho).
  destruct (page_remove_spec p raw Hok) as (p' & b & E & Hok' & Hc & Hh & _ & _).
  assert (directory p' = filter (fun e => de_id e <> raw) (directory p)) as Hd.
  { unfold page_remove in E. apply obind_done in E as (_ & _ & E'). by injection E' as <- _. }
  exists b. eexists. split; [by eapply update_page_run|].
  split; [eapply pages_ok_update; try done; [by eapply page_remove_size | by rewrite Hh]|].
  split.
  { intros [Hb1 Hb2]. split; [done|]. simpl. intros j q Hj.
    apply list_lookup_insert_Some in Hj as [(<- & <- & _)|[_ Hj]]; [|by apply (Hb2 j)].
    intros n (e & -> & He)%list_elem_of_fmap. rewrite Hd in He.
    apply list_elem_of_filter in He as [_ He]. apply (Hb2 i p Hp). by apply list_elem_of_fmap_2. }
  split; [done|].
  intros j raw'. simpl. rewrite at_page_insert by (by apply lookup_lt_is_Some; eexists).
  destruct (decide (i = j)) as [<-|Hne].
  - rewrite Hc. unfold at_page. rewrite Hp. simpl.
    destruct (decide (raw' = raw)) as [->|]; [by rewrite decide_True|].
    by rewrite decide_False by tauto.
  - by rewrite decide_False by naive_solver.
Qed.

Lemma bump_run i n d :
  bump_page_bytes i n d = (Done tt, with_page_bytes (alter (fun m => wrap 64 (m + n)) i (page_bytes d)) d).
Proof. done. Qed.

(** The effect of an insert attempt: on success the key is found first at its
    primary page, or only at its fallback; on failure both pages have lost it. *)
Lemma try_insert_spec d key raw bytes :
  pages_ok d -> bulky d -> MIN_VALUE <= zlen bytes -> zlen bytes + DIR_ENTRY_SIZE < 2 ^ 32 ->
  let n := page_count d in
  let primary := page_index key n in
  let alt := fallback_index primary key n in
  exists r d', try_insert_at_key key raw bytes d = (r, d') /\
  pages_ok d' /\ bulky d' /\ same_file d d' /\
  (forall i raw', raw' <> raw -> at_page (pages d') i raw' = at_page (pages d) i raw') /\
  match r with
  | Done _ =>
      (forall j, at_page (pages d') j raw =
         if decide (j = primary) then Some bytes else at_page (pages d) j raw) \/
      (alt <> primary /\ forall j, at_page (pages d') j raw =
         if decide (j = primary) then None
         else if decide (j = alt) then Some bytes else at_page (pages d) j raw)
  | Fail e => e = PageFull (Z.of_nat alt) /\ forall j, at_page (pages d') j raw =
                if decide (j = primary \/ j = alt) then None else at_page (pages d) j raw
  | Fault => False
  end.
Proof.
  intros H Hb Hmin Hmax n primary alt. pose proof (po_count _ H) as Hn.
  assert (primary < Z.to_nat (page_count d))%nat as Hpr by by apply page_index_lt.
  destruct (upsert_step d primary raw bytes H Hb Hpr Hmin Hmax)
    as (p & p1 & b1 & Hp & E1 & Eu1 & H1 & Hb1 & Hs1 & Ha1).
  set (d1 := with_pages _ d) in *.
  unfold try_insert_at_key, st_bind at 1, st_gets. fold n. fold primary.
  unfold st_bind at 1. rewrite Eu1. destruct b1.
  { rewrite bump_run. eexists _, _. split; [done|]. simpl.
    split; [by eapply pages_ok_same; [..|exact H1]|].
    split; [by eapply bulky_same; [..|exact Hb1]|]. split; [done|]. split.
    - intros i raw' Hne. rewrite Ha1. by rewrite decide_False by naive_solver.
    - left. intros j. rewrite Ha1. by repeat case_decide; naive_solver. }
  assert (page_count d1 = page_count d) as Hc1 by done.
  assert (alt < Z.to_nat (page_count d1))%nat as Halt by by apply fallback_index_lt.
  destruct (upsert_step d1 alt raw bytes H1 Hb1 Halt Hmin Hmax)
    as (q & q1 & b2 & Hq & E2 & Eu2 & H2 & Hb2 & Hs2 & Ha2).
  set (d2 := with_pages (<[alt := q1]> (pages d1)) d1) in *. fold alt.
  unfold st_bind at 1. rewrite Eu2. destruct b2.
  - assert (alt <> primary) as Hne.
    { intros E. rewrite E in Hq. simpl in Hq.
      rewrite list_lookup_insert_eq in Hq by (by apply lookup_lt_is_Some; eexists).
      injection Hq as <-. apply page_upsert_refused in E1; [congruence|..|unfold MIN_VALUE in *; lia|done].
      - apply (po_page _ H _ _ Hp).
      - by apply (bulky_fits d primary). }
    unfold st_bind at 1. rewrite bump_run. set (d3 := with_page_bytes _ d2).
    assert (pages_ok d3) as H3 by by eapply pages_ok_same; [..|exact H2].
    assert (bulky d3) as Hb3 by by eapply bulky_same; [..|exact Hb2].
    destruct (remove_step d3 primary raw H3 Hpr) as (b4 & d4 & E4 & H4 & Hb4 & Hs4 & Ha4).
    specialize (Hb4 Hb3).
    unfold st_bind at 1. rewrite E4. eexists _, _. split; [done|].
    split; [done|]. split; [done|]. split; [done|]. split.
    + intros i raw' Hr. rewrite Ha4, decide_False by naive_solver.
      change (pages d3) with (pages d2). rewrite Ha2, decide_False by naive_solver.
      by rewrite Ha1, decide_False by naive_solver.
    + right. split; [done|]. intros j. rewrite Ha4. change (pages d3) with (pages d2).
      rewrite Ha2, Ha1. repeat case_decide; naive_solver.
  - eexists _, _. split; [done|]. split; [done|]. split; [done|]. split; [done|]. split.
    + intros i raw' Hr. rewrite Ha2, decide_False by naive_solver.
      by rewrite Ha1, decide_False by naive_solver.
    + split; [done|]. intros j. rewrite Ha2, Ha1. repeat case_decide; naive_solver.
Qed.

(** ** What the pages' directories hold *)

(** Every entry of every page satisfies [E] on its key and size. *)
Definition sized (E : Z -> Z -> Prop) (d : DataFile) : Prop :=
  forall i p e, pages d !! i = Some p -> e ∈ directory p -> E (de_id e) (de_size e).

(** The file holds an entry of the key [raw] of [n] bytes. *)
Definition entry_of (d : DataFile) (raw n : Z) : Prop :=
  exists i p e, pages d !! i = Some p /\ e ∈ directory p /\ de_id e = raw /\ de_size e = n.

Lemma bulky_sized d : bulky d <-> 1076 <= df_page_size d /\ sized (fun _ n => MIN_VALUE <= n) d.
Proof.
  unfold bulky, sized. split; intros [H1 H2]; (split; [done|]).
  - intros i p e Hp He. by apply (H2 i p Hp), list_elem_of_fmap_2.
  - intros i p Hp n (e & -> & He)%list_elem_of_fmap. by apply (H2 i p e).
Qed.

Lemma update_page_sized {A} E i (f : Page -> StorageResult (Page * A)) d r d' :
  (forall p p' a, f p = Done (p', a) -> (forall e, e ∈ directory p -> E (de_id e) (de_size e)) ->
     forall e, e ∈ directory p' -> E (de_id e) (de_size e)) ->
  update_page i f d = (r, d') -> sized E d -> sized E d'.
Proof.
  intros Hf Hu Hs. unfold update_page, st_bind, page_at, st_lift, set_page, st_modify in Hu.
  destruct (pages d !! i) as [p|] eqn:Hp; simpl in Hu; [|by injection Hu as _ <-].
  destruct (f p) as [[p' a]|e|] eqn:Ef; simpl in Hu; injection Hu as _ <-; [|done..].
  intros j q e [(<- & <- & _)|[_ Hj]]%list_lookup_insert_Some; [|by apply (Hs j)].
  eapply Hf; [exact Ef|]. intros e' He'. by apply (Hs i p).
Qed.

(** The entries after an insertion and after a removal. *)
Lemma page_insert_entries (E : Z -> Z -> Prop) p raw bytes p' b :
  page_insert p raw bytes = Done (p', b) -> ((b : bool) = true -> E raw (zlen bytes)) ->
  (forall e, e ∈ directory p -> E (de_id e) (de_size e)) -> forall e, e ∈ directory p' -> E (de_id e) (de_size e).
Proof.
  unfold page_insert. intros (_ & _ & (_ & _ & H)%obind_done)%obind_done Hb Hp e.
  destruct (_ <? _); [injection H as <- _; apply Hp|].
  apply obind_done in H as (x & _ & (_ & _ & H)%obind_done). injection H as <- <-. simpl.
  intros [He|He]%elem_of_app; [by apply Hp|]. apply list_elem_of_singleton in He as ->. by apply Hb.
Qed.

Lemma page_remove_entries (E : Z -> Z -> Prop) p raw p' b :
  page_remove p raw = Done (p', b) ->
  (forall e, e ∈ directory p -> E (de_id e) (de_size e)) -> forall e, e ∈ directory p' -> E (de_id e) (de_size e).
Proof.
  unfold page_remove. intros (_ & _ & H)%obind_done Hp e. injection H as <- _. simpl.
  intros [_ He]%list_elem_of_filter. by apply Hp.
Qed.

(** A refused [upsert] adds no entry. *)
Lemma page_upsert_entries (E : Z -> Z -> Prop) p raw bytes p' :
  page_ok p -> directory_fits p -> 0 < zlen bytes -> zlen bytes + DIR_ENTRY_SIZE < 2 ^ 32 ->
  page_upsert p raw bytes = Done (p', false) ->
  (forall e, e ∈ directory p -> E (de_id e) (de_size e)) -> forall e, e ∈ directory p' -> E (de_id e) (de_size e).
Proof.
  intros Hok Hf H0 Hmax Hu Hp. unfold page_upsert in Hu.
  destruct (page_remove_spec p raw Hok) as (q & r & Hrm & Hq & _ & Hh & _ & Hn & _). rewrite Hrm in Hu. cbn [obind] in Hu.
  pose proof (page_remove_entries E _ _ _ _ Hrm Hp) as He.
  destruct (page_insert_spec q raw bytes Hq H0 Hmax) as [[_ Hi]|(_ & q2 & Hi & _)]; rewrite Hi in Hu; cbn [obind] in Hu; [|done].
  apply obind_done in Hu as (u & _ & Hu). destruct (_ <? _) eqn:Hcap; [by injection Hu as <-|]. exfalso.
  destruct (page_compact_spec q Hq) as (q2 & Hc & H2 & _ & Hs2 & Hh2 & _). rewrite Hc in Hu. cbn [obind] in Hu.
  destruct (page_insert_spec q2 raw bytes H2 H0 Hmax) as [[Hf2 _]|(_ & q3 & E' & _)]; [|by rewrite E' in Hu].
  unfold free_space, HEADER_SIZE, DIR_ENTRY_SIZE in *. pose proof (zlen_nonneg (directory q)). lia.
Qed.

(** ** Growth *)

Definition stored (d : DataFile) (raw : Z) (b : list byte) : Prop :=
  exists i, at_page (pages d) i raw = Some b.

(** A page the search of a key visits. *)
Definition on_route (d : DataFile) (raw : Z) (i : nat) : Prop :=
  exists n, n ∈ counts d /\ (i = page_index (route_key_for_raw raw) n \/
    i = fallback_index (page_index (route_key_for_raw raw) n) (route_key_for_raw raw) n).

(** A key has one page at most; a key's pages are all searched. *)
Definition lone (d : DataFile) (raw : Z) : Prop := forall i j b b',
  at_page (pages d) i raw = Some b -> at_page (pages d) j raw = Some b' -> i = j.

Definition routed (d : DataFile) (raw : Z) : Prop := forall i b,
  at_page (pages d) i raw = Some b -> on_route d raw i.

Definition placed_key (d : DataFile) (raw : Z) : Prop := lone d raw /\ routed d raw.

(** Each key is on one page, which one of the searched counts routes it to. *)
Record placed (d : DataFile) : Prop := {
  pl_unique : forall raw i j b b',
    at_page (pages d) i raw = Some b -> at_page (pages d) j raw = Some b' -> i = j;
  pl_routed : forall raw i b, at_page (pages d) i raw = Some b ->
    exists n, n ∈ counts d /\ (i = page_index (route_key_for_raw raw) n \/
      i = fallback_index (page_index (route_key_for_raw raw) n) (route_key_for_raw raw) n)
}.

Lemma placed_keys d : placed d <-> forall raw, placed_key d raw.
Proof.
  split; [by intros [Hu Hr] raw; split; [exact (Hu raw) | exact (Hr raw)]|].
  intros H. constructor; intros raw; [apply (proj1 (H raw)) | apply (proj2 (H raw))].
Qed.

Lemma search_unique ps key raw cs i b n :
  (forall j b', at_page ps j raw = Some b' -> b' = b) ->
  at_page ps i raw = Some b -> n ∈ cs ->
  i = page_index key n \/ i = fallback_index (page_index key n) key n ->
  search ps key raw cs = Some b.
Proof.
  intros Hu Hi Hn Hk. induction cs as [|m cs IH]; [by apply not_elem_of_nil in Hn|]. simpl.
  destruct (at_page ps (page_index key m) raw) as [b1|] eqn:E1; [by rewrite (Hu _ _ E1)|].
  destruct (at_page ps (fallback_index _ key m) raw) as [b2|] eqn:E2; [by rewrite (Hu _ _ E2)|].
  apply IH. apply elem_of_cons in Hn as [->|Hn]; [|done]. destruct Hk as [->| ->]; congruence.
Qed.

Lemma lone_stored d raw b b' : lone d raw -> stored d raw b -> stored d raw b' -> b' = b.
Proof. intros Hl [i Hi] [j Hj]. pose proof (Hl _ _ _ _ Hi Hj) as ->. congruence. Qed.

Lemma search_key d raw b :
  placed_key d raw -> stored d raw b -> search (pages d) (route_key_for_raw raw) raw (counts d) = Some b.
Proof.
  intros [Hl Hr] [i Hi]. destruct (Hr i b Hi) as (n & Hn & Hk).
  eapply search_unique; [|exact Hi|exact Hn|exact Hk].
  intros j b' Hj. apply (lone_stored d raw); [done|by exists i|by exists j].
Qed.

Lemma search_stored d raw b :
  placed d -> stored d raw b -> search (pages d) (route_key_for_raw raw) raw (counts d) = Some b.
Proof. intros Hp. apply search_key. by apply placed_keys. Qed.

Lemma search_none ps key raw cs : (forall i, at_page ps i raw = None) -> search ps key raw cs = None.
Proof. intros H. induction cs as [|n cs IH]; simpl; [done|]. by rewrite !H. Qed.

Lemma search_sound ps key raw cs b :
  search ps key raw cs = Some b -> exists i, at_page ps i raw = Some b.
Proof.
  induction cs as [|n cs IH]; simpl; [done|].
  destruct (at_page ps (page_index key n) raw) eqn:E1; [intros [= <-]; by eexists|].
  destruct (at_page ps (fallback_index _ key n) raw) eqn:E2; [intros [= <-]; by eexists | exact IH].
Qed.

(** What a lookup by the key's own route finds is what is stored. *)
Lemma lookup_key d raw :
  pages_ok d -> placed_key d raw ->
  exists r, lookup_at_key (route_key_for_raw raw) raw d = (Done r, d) /\
    forall b, r = Some b <-> stored d raw b.
Proof.
  intros H Hpl. eexists. split; [by apply lookup_spec|]. intros b. split.
  - apply search_sound.
  - by apply search_key.
Qed.

Lemma at_page_bound d i raw b :
  pages_ok d -> at_page (pages d) i raw = Some b ->
  (i < Z.to_nat (page_count d))%nat /\ 0 < zlen b /\ zlen b + DIR_ENTRY_SIZE < 2 ^ 32.
Proof.
  intros H. unfold at_page. destruct (pages d !! i) as [p|] eqn:Hp; simpl; [|done]. intros Hc.
  split. { apply lookup_lt_Some in Hp. pose proof (po_length _ H). unfold zlen in *. lia. }
  destruct (po_page _ H i p Hp) as (Hok & Hps & Hho). unfold contents in Hc.
  destruct (find_dir raw (directory p)) as [e|] eqn:E; simpl in Hc; [|done].
  apply find_dir_elem in E as [He _].
  destruct (laid_out_elem _ _ _ _ (pk_dir _ Hok) He) as (? & ? & ?).
  apply sub_stands in Hc as [_ Hl]. pose proof (pk_heap _ Hok). pose proof (po_size _ H).
  unfold HEADER_SIZE in *. lia.
Qed.

Lemma insert_step d i raw bytes :
  pages_ok d -> (i < Z.to_nat (page_count d))%nat ->
  0 < zlen bytes -> zlen bytes + DIR_ENTRY_SIZE < 2 ^ 32 ->
  exists b d', update_page i (fun p => page_insert p raw bytes) d = (Done b, d') /\
  pages_ok d' /\ same_file d d' /\
  (b = false -> exists p, pages d' !! i = Some p /\ free_space (header p) < DIR_ENTRY_SIZE + zlen bytes) /\
  forall j raw', at_page (pages d') j raw' =
    match at_page (pages d) j raw' with
    | Some x => Some x
    | None => if decide (b = true /\ j = i /\ raw' = raw) then Some bytes else None
    end.
Proof.
  intros H Hi Hne Hmax. pose proof (po_count _ H).
  destruct (page_exists d (page_count d) i H ltac:(lia) Hi) as [p Hp].
  destruct (po_page _ H i p Hp) as (Hok & Hps & Hho).
  destruct (page_insert_spec p raw bytes Hok Hne Hmax) as [[Hfull E]|(_ & p' & E & Hok' & Hdir & Hho' & Hc)].
  - exists false. eexists. split; [by eapply update_page_run|].
    split; [eapply pages_ok_update; done|]. split; [done|].
    split; [intros _; exists p; by rewrite list_insert_id|].
    intros j raw'. simpl. rewrite list_insert_id by done.
    by destruct (at_page _ _ _).
  - exists true. eexists. split; [by eapply update_page_run|].
    split; [eapply pages_ok_update; try done; by eapply page_insert_size|].
    split; [done|]. split; [done|].
    intros j raw'. simpl. rewrite at_page_insert by (by apply lookup_lt_is_Some; eexists).
    destruct (decide (i = j)) as [<-|Hne'].
    + rewrite Hc. unfold at_page. rewrite Hp. simpl. destruct (contents p raw'); [done|].
      repeat case_decide; naive_solver.
    + destruct (at_page _ _ _); [done|]. by rewrite decide_False by naive_solver.
Qed.

(** A page is settled when every key on it has it as primary page. *)
Definition settled (d : DataFile) (n : Z) (i : nat) : Prop :=
  forall raw b, at_page (pages d) i raw = Some b -> i = page_index (route_key_for_raw raw) n.

(** What growth does to a key: no copy is invented, the last one is not lost, a
    single one stays single, and searched ones stay searched. *)
Record carried (raw : Z) (d d' : DataFile) : Prop := {
  cr_sub : forall b, stored d' raw b -> stored d raw b;
  cr_some : forall b, stored d raw b -> exists b', stored d' raw b';
  cr_lone : lone d raw -> lone d' raw;
  cr_routed : routed d raw -> routed d' raw
}.

Lemma carried_same raw d d' :
  (forall i, at_page (pages d') i raw = at_page (pages d) i raw) ->
  (forall n, n ∈ counts d -> n ∈ counts d') -> carried raw d d'.
Proof.
  intros Hs Hc. constructor; unfold lone, routed, stored, on_route.
  - intros b. by setoid_rewrite Hs.
  - intros b Hb. exists b. by setoid_rewrite Hs.
  - intros Hl i j b b'. rewrite !Hs. apply Hl.
  - intros Hr i b. rewrite Hs. intros Hi. destruct (Hr i b Hi) as (n & ? & ?). exists n. auto.
Qed.

Lemma carried_trans raw d1 d2 d3 : carried raw d1 d2 -> carried raw d2 d3 -> carried raw d1 d3.
Proof.
  intros [] []. constructor; auto. intros b Hb. destruct (cr_some0 b Hb) as [b' Hb']. by eapply cr_some1.
Qed.

Lemma carried_stored raw d d' : carried raw d d' -> lone d raw -> forall b, stored d' raw b <-> stored d raw b.
Proof.
  intros [Hsub Hsome _ _] Hl b. split; [apply Hsub|]. intros Hb. destruct (Hsome b Hb) as [b' Hb'].
  by rewrite (lone_stored d raw b' b) by auto.
Qed.

Lemma carried_key raw d d' : carried raw d d' -> placed_key d raw -> placed_key d' raw.
Proof. intros [] []. split; auto. Qed.

(** Lookups of a key with a single copy are kept. *)
Lemma carried_lookup raw d d' :
  pages_ok d -> pages_ok d' -> carried raw d d' -> placed_key d raw ->
  fst (lookup_at_key (route_key_for_raw raw) raw d') = fst (lookup_at_key (route_key_for_raw raw) raw d).
Proof.
  intros H H' Hc Hp. destruct (lookup_key d' raw H' (carried_key _ _ _ Hc Hp)) as (x & -> & Hx).
  destruct (lookup_key d raw H Hp) as (y & -> & Hy). simpl. f_equal.
  apply option_eq. intros b. rewrite Hx, Hy. by apply carried_stored; [|apply Hp].
Qed.

(** The pending moves are those of the values the page still holds; their sizes
    are those of entries of [d0]. *)
Definition moves_of (d0 d : DataFile) (n : Z) (old_idx : nat) (ms : list Move) : Prop :=
  Forall (fun m => mv_slot m = page_index (route_key_for_raw (mv_raw m)) n /\
                   mv_slot m <> old_idx /\ 0 < zlen (mv_bytes m) /\
                   zlen (mv_bytes m) + DIR_ENTRY_SIZE < 2 ^ 32 /\
                   entry_of d0 (mv_raw m) (zlen (mv_bytes m))) ms /\
  Forall (fun m => is_Some (at_page (pages d) old_idx (mv_raw m)) \/
                   is_Some (at_page (pages d) (mv_slot m) (mv_raw m))) ms /\
  forall raw b, at_page (pages d) old_idx raw = Some b ->
    old_idx = page_index (route_key_for_raw raw) n \/
    exists m, List.find (fun m => mv_raw m =? raw) ms = Some m /\ mv_bytes m = b.

(** What holds all through a growth of [d0] to [n] pages. *)
Record grow_inv (n : Z) (d0 d : DataFile) : Prop := {
  gi_ok : pages_ok d;
  gi_count : page_count d = n;
  gi_prev : previous_page_counts d = previous_page_counts d0;
  gi_size : df_page_size d = df_page_size d0;
  gi_mode : mode d = mode d0;
  gi_cache : cache d = cache d0;
  gi_sized : sized (entry_of d0) d;
  gi_keys : forall raw, carried raw d0 d
}.

(** What a step of it keeps. *)
Definition step_file (d d' : DataFile) : Prop :=
  same_file d d' \/ same_file d (with_tx (journal_tx d) d').

Lemma step_file_fields d d' : step_file d d' ->
  df_page_size d' = df_page_size d /\ mode d' = mode d /\ page_count d' = page_count d /\
  previous_page_counts d' = previous_page_counts d /\ cache d' = cache d.
Proof. intros [Hs|Hs]; unfold same_file in Hs; simpl in Hs; tauto. Qed.

Lemma grow_inv_step n d0 d d' :
  grow_inv n d0 d -> pages_ok d' -> step_file d d' -> sized (entry_of d0) d' ->
  (forall raw, carried raw d d') -> grow_inv n d0 d'.
Proof.
  intros [] H' (E1 & E2 & E3 & E4 & E5)%step_file_fields Hs Hc. constructor; [done|congruence..|done|]. intros raw. by eapply carried_trans.
Qed.

Lemma step_counts d d' : step_file d d' -> counts d' = counts d.
Proof. intros (_ & _ & E3 & E4 & _)%step_file_fields. unfold counts. by rewrite E3, E4. Qed.

(** The effect of a move on the contents: its value leaves the old page for its
    new primary page, unless that holds one already. *)
Definition moved (d d' : DataFile) (old_idx : nat) (m : Move) : Prop := forall j raw,
  at_page (pages d') j raw =
    if decide (raw = mv_raw m) then
      if decide (j = old_idx) then None
      else match at_page (pages d) j raw with
           | Some x => Some x
           | None => if decide (j = mv_slot m) then Some (mv_bytes m) else None
           end
    else at_page (pages d) j raw.

Lemma run_move_effect n d0 d old_idx m ms :
  grow_inv n d0 d -> (old_idx < Z.to_nat n)%nat -> moves_of d0 d n old_idx (m :: ms) ->
  exists r d', run_move old_idx m d = (r, d') /\ pages_ok d' /\ step_file d d' /\ sized (entry_of d0) d' /\
    match r with
    | Done _ =>
        (at_page (pages d) old_idx (mv_raw m) = Some (mv_bytes m) /\ moved d d' old_idx m) \/
        (at_page (pages d) old_idx (mv_raw m) = None /\
         forall j raw, at_page (pages d') j raw = at_page (pages d) j raw)
    | Fail e => e = Other "rebalance: new slot full" /\
        (exists p, pages d' !! mv_slot m = Some p /\ free_space (header p) < DIR_ENTRY_SIZE + zlen (mv_bytes m)) /\
        forall j raw, at_page (pages d') j raw = at_page (pages d) j raw
    | Fault => False
    end.
Proof.
  intros [H Hc _ _ _ _ Hsz _] Hold (Hall & Hsome & Hmoves).
  inversion Hall as [|?? (Hslot & Hne & Hb0 & Hb1 & He) _]; subst.
  inversion Hsome as [|?? Hwhere _]; subst.
  assert (mv_slot m < Z.to_nat (page_count d))%nat as Hsl
    by (rewrite Hslot; apply page_index_lt; apply H).
  destruct (insert_step d (mv_slot m) (mv_raw m) (mv_bytes m) H Hsl Hb0 Hb1)
    as (b & d1 & E1 & H1 & Hs1 & Hfull & Ha1).
  assert (sized (entry_of d0) d1) as Hsz1.
  { eapply update_page_sized; [|exact E1|done]. intros p p' a Ep Hp. eapply page_insert_entries; [exact Ep|done|done]. }
  unfold run_move, st_bind at 1. rewrite E1. destruct b; cycle 1.
  { eexists _, _. split; [done|]. split; [done|]. split; [by left|]. split; [done|]. split; [done|].
    split; [by apply Hfull|]. intros j raw. rewrite Ha1. by destruct (at_page (pages d) j raw). }
  assert (old_idx < Z.to_nat (page_count d1))%nat as Hold1
    by (destruct Hs1 as (_ & _ & -> & _); done).
  destruct (remove_step d1 old_idx (mv_raw m) H1 Hold1) as (b2 & d2 & E2 & H2 & _ & Hs2 & Ha2).
  assert (sized (entry_of d0) d2) as Hsz2.
  { eapply update_page_sized; [|exact E2|done]. intros p p' a Ep Hp. eapply page_remove_entries; [exact Ep|done]. }
  unfold st_bind at 1. rewrite E2. unfold st_bind at 1. rewrite bump_run. unfold st_modify.
  set (d3 := with_tx _ _). eexists _, _. split; [done|].
  split. { destruct H2. by constructor. }
  split. { right. unfold same_file in *. simpl. destruct Hs1, Hs2. intuition congruence. }
  split; [done|]. unfold moved. change (pages d3) with (pages d2).
  destruct (at_page (pages d) old_idx (mv_raw m)) as [b|] eqn:Eold.
  - left. assert (b = mv_bytes m) as ->.
    { destruct (Hmoves _ b Eold) as [E|(m' & Hm & <-)]; [congruence|].
      simpl in Hm. rewrite Z.eqb_refl in Hm. by injection Hm as <-. }
    split; [done|]. intros j raw. rewrite Ha2, Ha1.
    destruct (decide (raw = mv_raw m)) as [->|Hr].
    + destruct (decide (j = old_idx)) as [->|Hj]; [by rewrite decide_True|].
      rewrite decide_False by naive_solver. destruct (at_page (pages d) j (mv_raw m)); [done|].
      repeat case_decide; naive_solver.
    + rewrite decide_False by naive_solver. destruct (at_page (pages d) j raw); [done|].
      by rewrite decide_False by naive_solver.
  - right. split; [done|]. destruct Hwhere as [[? ?]|[x Hx]]; [congruence|].
    intros j raw. rewrite Ha2, Ha1.
    destruct (decide (j = old_idx /\ raw = mv_raw m)) as [[-> ->]|Hn]; [done|].
    destruct (at_page (pages d) j raw) eqn:Ej; [done|].
    rewrite decide_False; [done|]. intros (_ & -> & ->). congruence.
Qed.

(** A move carries every key, and unsettles no page. *)
Lemma moved_keeps n d d' old_idx m :
  pages_ok d -> page_count d = n -> mv_slot m = page_index (route_key_for_raw (mv_raw m)) n ->
  mv_slot m <> old_idx -> step_file d d' ->
  at_page (pages d) old_idx (mv_raw m) = Some (mv_bytes m) -> moved d d' old_idx m ->
  (forall raw, carried raw d d') /\ (forall i, settled d n i -> settled d' n i).
Proof.
  intros H Hc Hslot Hne Hs Eold Ha. pose proof (step_counts _ _ Hs) as Hcs. split.
  - intros raw. destruct (decide (raw = mv_raw m)) as [->|Hr].
    2:{ apply carried_same; [|by rewrite Hcs]. intros i. by rewrite Ha, decide_False. }
    assert (forall j, at_page (pages d') j (mv_raw m) =
      if decide (j = old_idx) then None
      else match at_page (pages d) j (mv_raw m) with
           | Some x => Some x
           | None => if decide (j = mv_slot m) then Some (mv_bytes m) else None
           end) as Hj by (intros j; rewrite Ha; by rewrite decide_True).
    assert (at_page (pages d') (mv_slot m) (mv_raw m) <> None) as Hsome.
    { rewrite Hj, decide_False by done. destruct (at_page (pages d) (mv_slot m) (mv_raw m)) as [x|]; [by intros [=]|]. rewrite decide_True by done. by intros [=]. }
    constructor.
    + intros b [j Hb]. rewrite Hj in Hb. destruct (decide (j = old_idx)); [done|].
      destruct (at_page (pages d) j (mv_raw m)) eqn:E; [exists j; congruence|].
      destruct (decide _); [|done]. exists old_idx. congruence.
    + intros b _. destruct (at_page (pages d') (mv_slot m) (mv_raw m)) as [b'|] eqn:E; [|done].
      by exists b', (mv_slot m).
    + intros Hl i j b b'. rewrite !Hj.
      assert (forall k, k <> old_idx -> at_page (pages d) k (mv_raw m) = None) as Hno.
      { intros k Hk. destruct (at_page (pages d) k (mv_raw m)) eqn:E; [|done]. by pose proof (Hl _ _ _ _ E Eold). }
      intros Hi Hj'. repeat case_decide; try done; try congruence;
        rewrite ?Hno in Hi by done; rewrite ?Hno in Hj' by done; congruence.
    + intros Hr i b. rewrite Hj. destruct (decide (i = old_idx)) as [->|Hi]; [done|].
      unfold on_route. rewrite Hcs.
      destruct (at_page (pages d) i (mv_raw m)) eqn:E; [intros _; exact (Hr i _ E)|].
      case_decide as Hi'; [|done]. intros _. exists n. split; [rewrite <- Hc; by left|]. left. congruence.
  - intros i Hi raw b. rewrite Ha. destruct (decide (raw = mv_raw m)) as [->|]; [|apply Hi].
    destruct (decide (i = old_idx)); [done|].
    destruct (at_page (pages d) i (mv_raw m)) eqn:E; [intros _; by eapply Hi|].
    case_decide; [|done]. intros _. congruence.
Qed.

Lemma moves_of_tail d0 d n old_idx m ms d' :
  moves_of d0 d n old_idx (m :: ms) ->
  (at_page (pages d) old_idx (mv_raw m) = Some (mv_bytes m) /\ moved d d' old_idx m) \/
  (at_page (pages d) old_idx (mv_raw m) = None /\
   forall j raw, at_page (pages d') j raw = at_page (pages d) j raw) ->
  moves_of d0 d' n old_idx ms.
Proof.
  intros (Hall & Hsome & Hmoves) Hcase.
  inversion Hall as [|?? (Hslot & Hne & _) Hall']; subst.
  inversion Hsome as [|?? _ Hsome']; subst. split; [done|].
  rewrite Forall_forall in *. destruct Hcase as [[Eold Ha]|[Eold Ha]].
  - split.
    + intros m' Hm'. rewrite !Ha. destruct (decide (mv_raw m' = mv_raw m)) as [E|]; [|auto].
      destruct (Hall' m' Hm') as (Hsl & Hne' & _). right. rewrite decide_False by done.
      destruct (at_page (pages d) (mv_slot m') (mv_raw m')) as [x|]; [by exists x|].
      rewrite decide_True by congruence. by eexists.
    + intros raw b. rewrite Ha. case_decide as Hr; [by rewrite decide_True|].
      intros Hb. destruct (Hmoves raw b Hb) as [|(m' & Hm & <-)]; [by left|].
      simpl in Hm. rewrite (proj2 (Z.eqb_neq _ _)) in Hm by congruence. right. by exists m'.
  - split; [intros m' Hm'; rewrite !Ha; auto|]. intros raw b. rewrite Ha. intros Hb.
    destruct (Hmoves raw b Hb) as [|(m' & Hm & <-)]; [by left|]. right. exists m'. split; [|done].
    simpl in Hm. destruct (Z.eqb_spec (mv_raw m) raw) as [<-|]; [congruence | done].
Qed.

(** Why a growth stops: an entry of the file has no room on its new primary page. *)
Definition growth_stuck (d d' : DataFile) : Prop := exists raw len p,
  entry_of d raw len /\ pages d' !! page_index (route_key_for_raw raw) (page_count d') = Some p /\
  free_space (header p) < DIR_ENTRY_SIZE + len.

Definition refused (d d' : DataFile) (e : StorageError) : Prop :=
  e = Other "rebalance: new slot full" /\ growth_stuck d d'.

(** Running the moves of one page: every key is carried whatever happens, and
    success leaves the page settled. *)
Lemma run_moves_spec n d0 d old_idx ms :
  grow_inv n d0 d -> (old_idx < Z.to_nat n)%nat -> moves_of d0 d n old_idx ms ->
  exists r d', st_iter (run_move old_idx) ms d = (r, d') /\ grow_inv n d0 d' /\
    match r with
    | Done _ => settled d' n old_idx /\ (forall i, settled d n i -> settled d' n i)
    | Fail e => refused d0 d' e
    | Fault => False
    end.
Proof.
  revert d. induction ms as [|m ms IH]; intros d Hg Hold Hm; simpl.
  - eexists _, _. split; [done|]. split; [done|]. split; [|done].
    intros raw b Hb. destruct Hm as (_ & _ & Hm). by destruct (Hm raw b Hb) as [|(? & ? & _)].
  - destruct (run_move_effect n d0 d old_idx m ms Hg Hold Hm) as (r & d1 & E & H1 & Hs & Hsz & He).
    pose proof Hm as (Hall & _ & _). inversion Hall as [|?? (Hslot & Hne & _ & _ & Hent) _]; subst.
    unfold st_bind. rewrite E. destruct r as [[]|e|]; [|eexists _, _; split; [done|]|done].
    + pose proof (moves_of_tail _ _ _ _ _ _ d1 Hm He) as Hm1.
      assert ((forall raw, carried raw d d1) /\ (forall i, settled d n i -> settled d1 n i)) as [Hk Hset].
      { destruct He as [[Eold Ha]|[_ Ha]]; [eapply moved_keeps; try done; apply Hg|]. split.
        - intros raw. apply carried_same; [done|]. by rewrite (step_counts _ _ Hs).
        - intros i Hi raw b. rewrite Ha. apply Hi. }
      assert (grow_inv n d0 d1) as Hg1 by by eapply grow_inv_step.
      destruct (IH d1 Hg1 Hold Hm1) as (r & d2 & E2 & Hg2 & Hr). exists r, d2.
      split; [done|]. split; [done|]. destruct r; [|done..]. naive_solver.
    + destruct He as (-> & (p & Hp & Hf) & Ha). split.
      * eapply grow_inv_step; try done. intros raw. apply carried_same; [done|]. by rewrite (step_counts _ _ Hs).
      * split; [done|]. exists (mv_raw m), (zlen (mv_bytes m)), p. split; [done|]. split; [|done].
        destruct (step_file_fields _ _ Hs) as (_ & _ & -> & _). by rewrite (gi_count _ _ _ Hg), <- Hslot.
Qed.

(** The moves computed for a page. *)
Definition entry_move (p : Page) (old_idx : nat) (n : Z) (e : DirEntry) : list Move :=
  let slot := page_index (route_key_for_raw (de_id e)) n in
  if Nat.eqb slot old_idx then []
  else match sub (de_offset e) (de_offset e + de_size e) (data p) with
       | Some b => [{| mv_raw := de_id e; mv_slot := slot; mv_bytes := b |}]
       | None => []
       end.

Lemma page_moves_run p old_idx n :
  page_ok p -> page_moves p old_idx n = Done (concat (map (entry_move p old_idx n) (directory p))).
Proof.
  intros H. unfold page_moves.
  set (step := fun (out : list Move) (e : DirEntry) => _).
  enough (forall dir acc, (forall e, e ∈ dir -> e ∈ directory p) ->
    ofold step acc dir = Done (acc ++ concat (map (entry_move p old_idx n) dir))) as Hgen
    by by apply (Hgen _ []).
  intros dir. induction dir as [|e dir IH]; intros acc Hin; cbn [ofold map concat];
    [by rewrite app_nil_r|].
  assert (step acc e = Done (acc ++ entry_move p old_idx n e)) as ->.
  { unfold step, entry_move. destruct (Nat.eqb _ _); [by rewrite app_nil_r|].
    destruct (entry_stands p e H) as (b & Hb & _); [apply Hin; by left|]. by rewrite Hb. }
  cbn [obind]. rewrite IH by (intros; apply Hin; by right). by rewrite <- app_assoc.
Qed.

Lemma entry_move_elem p old_idx n e m :
  m ∈ entry_move p old_idx n e ->
  mv_raw m = de_id e /\ mv_slot m = page_index (route_key_for_raw (de_id e)) n /\
  mv_slot m <> old_idx /\ sub (de_offset e) (de_offset e + de_size e) (data p) = Some (mv_bytes m).
Proof.
  unfold entry_move. destruct (Nat.eqb_spec (page_index (route_key_for_raw (de_id e)) n) old_idx);
    [by intros ?%not_elem_of_nil|].
  destruct (sub _ _ _); [|by intros ?%not_elem_of_nil].
  by intros ->%list_elem_of_singleton.
Qed.

Lemma find_moves p old_idx n raw dir e b :
  find_dir raw dir = Some e -> sub (de_offset e) (de_offset e + de_size e) (data p) = Some b ->
  page_index (route_key_for_raw raw) n <> old_idx ->
  exists m, List.find (fun m => mv_raw m =? raw) (concat (map (entry_move p old_idx n) dir)) = Some m /\
            mv_bytes m = b.
Proof.
  intros He Hb Hne. unfold find_dir in He. induction dir as [|e' dir IH]; [done|].
  cbn [List.find map concat] in *. rewrite find_app_first. destruct (Z.eqb_spec (de_id e') raw) as [<-|Hr].
  - injection He as ->. unfold entry_move. rewrite (proj2 (Nat.eqb_neq _ _) Hne), Hb.
    cbn [List.find mv_raw]. rewrite Z.eqb_refl. by eexists.
  - destruct (List.find _ (entry_move p old_idx n e')) as [m|] eqn:E; [|by apply IH].
    apply List.find_some in E as [Hm E]. apply list_elem_of_In, entry_move_elem in Hm. lia.
Qed.

Lemma moves_of_page d0 d n old_idx p :
  pages_ok d -> sized (entry_of d0) d -> pages d !! old_idx = Some p ->
  moves_of d0 d n old_idx (concat (map (entry_move p old_idx n) (directory p))).
Proof.
  intros H Hsz Hp. destruct (po_page _ H _ _ Hp) as (Hok & _ & _).
  assert (forall m, m ∈ concat (map (entry_move p old_idx n) (directory p)) ->
    exists e, e ∈ directory p /\ m ∈ entry_move p old_idx n e) as Hin.
  { intros m (l & Hl & Hm)%list_elem_of_In%in_concat. apply in_map_iff in Hl as (e & <- & He).
    exists e. by rewrite !list_elem_of_In. }
  assert (forall raw, at_page (pages d) old_idx raw = contents p raw) as Hat
    by (intros; unfold at_page; by rewrite Hp).
  split; [|split].
  - apply Forall_forall. intros m (e & He & Hm)%Hin. apply entry_move_elem in Hm as (Hr & Hs & Hne & Hb).
    rewrite Hr, <- Hs. split; [done|]. split; [done|].
    destruct (laid_out_elem _ _ _ _ (pk_dir _ Hok) He) as (? & ? & ?).
    apply sub_stands in Hb as [_ Hl]. pose proof (pk_heap _ Hok). pose proof (po_size _ H).
    destruct (po_page _ H _ _ Hp) as (_ & _ & Hho).
    replace (zlen (mv_bytes m)) with (de_size e) by lia. unfold HEADER_SIZE in *.
    split; [lia|]. split; [lia|]. by apply (Hsz old_idx p).
  - apply Forall_forall. intros m (e & He & Hm)%Hin. apply entry_move_elem in Hm as (Hr & _).
    left. rewrite Hat, Hr. unfold contents. destruct (find_dir (de_id e) (directory p)) as [e'|] eqn:E.
    + apply find_dir_elem in E as [He' _]. destruct (entry_stands p e' Hok He') as (b & Hb & _).
      simpl. by rewrite Hb.
    + by apply (find_dir_none_elem _ _ _ E) in He.
  - intros raw b. rewrite Hat. unfold contents.
    destruct (find_dir raw (directory p)) as [e|] eqn:E; simpl; [|done]. intros Hb.
    destruct (decide (page_index (route_key_for_raw raw) n = old_idx)) as [<-|Hne]; [by left|].
    right. by eapply find_moves.
Qed.

Lemma rebalance_page_spec n d0 d i :
  grow_inv n d0 d -> (i < Z.to_nat n)%nat ->
  exists r d', rebalance_one_page i n d = (r, d') /\ grow_inv n d0 d' /\
    match r with
    | Done _ => settled d' n i /\ (forall j, settled d n j -> settled d' n j)
    | Fail e => refused d0 d' e
    | Fault => False
    end.
Proof.
  intros Hg Hi. pose proof (gi_ok _ _ _ Hg) as H. pose proof (gi_count _ _ _ Hg) as Hc. pose proof (po_count _ H).
  destruct (page_exists d n i H) as [p Hp]; [lia|done|].
  unfold rebalance_one_page, st_bind, page_at, st_lift. rewrite Hp. cbn [expect].
  rewrite page_moves_run by (apply (po_page _ H _ _ Hp)).
  apply run_moves_spec; [done..|]. apply moves_of_page; [done|apply Hg|done].
Qed.

Lemma rebalance_pages_spec n d0 order d :
  grow_inv n d0 d -> (forall i, i ∈ order -> (i < Z.to_nat n)%nat) ->
  exists r d', st_iter (fun i => rebalance_one_page i n) order d = (r, d') /\ grow_inv n d0 d' /\
    match r with
    | Done _ => (forall i, i ∈ order -> settled d' n i) /\ (forall j, settled d n j -> settled d' n j)
    | Fail e => refused d0 d' e
    | Fault => False
    end.
Proof.
  revert d. induction order as [|i order IH]; intros d Hg Hin; cbn [st_iter].
  - eexists _, _. split; [done|]. split; [done|]. split; [|done]. by intros i ?%not_elem_of_nil.
  - destruct (rebalance_page_spec n d0 d i Hg) as (r & d1 & E & Hg1 & Hr); [apply Hin; by left|].
    unfold st_bind. rewrite E. destruct r as [[]|e|]; [|by eexists _, _|done].
    destruct Hr as [Hi Hset].
    destruct (IH d1 Hg1) as (r & d2 & E2 & Hg2 & Hr2); [intros; apply Hin; by right|].
    exists r, d2. split; [done|]. split; [done|]. destruct r; [|done..].
    destruct Hr2 as [Ho Hs]. split; [|naive_solver]. intros j [->|Hj]%elem_of_cons; auto.
Qed.

Lemma grown_bound n : 1 <= n -> n + 1 <= grown n <= 2 * n.
Proof. intros. unfold grown. Z.to_euclidean_division_equations. lia. Qed.

(** The float product of [rebalance] is exact, and [grown] with it, up to here. *)
Definition growable (d : DataFile) : Prop := page_count d <= 2 ^ 50.

Lemma growable_fits d : pages_ok d -> growable d -> fits 64 (grown (page_count d)).
Proof.
  intros H Hg. pose proof (grown_bound _ (po_count _ H)). unfold growable, fits in *. lia.
Qed.

(** The state in which the pages are rehashed: more empty pages, and the old
    count still searched. *)
Definition widened (fresh : Page) (d : DataFile) : DataFile :=
  let n := grown (page_count d) in
  with_counts n (previous_page_counts d ++ [page_count d])
    (with_pages (pages d ++ replicate (Z.to_nat (n - page_count d)) fresh)
    (with_page_bytes (page_bytes d ++ replicate (Z.to_nat (n - page_count d)) 0) d)).

Lemma widened_page fresh d i p :
  pages (widened fresh d) !! i = Some p -> pages d !! i = Some p \/ p = fresh.
Proof. intros [Hp|[_ [-> _]%lookup_replicate]]%lookup_app_Some; [by left | by right]. Qed.

Lemma widened_at fresh d i raw :
  (forall raw, contents fresh raw = None) -> at_page (pages (widened fresh d)) i raw = at_page (pages d) i raw.
Proof.
  intros Hempty. unfold at_page. simpl. destruct (pages d !! i) as [p|] eqn:Hp.
  - by rewrite (lookup_app_l_Some _ _ _ _ Hp).
  - rewrite lookup_app_r by (by apply lookup_ge_None). simpl.
    destruct (replicate _ fresh !! _) as [q|] eqn:Hq; [|done].
    apply lookup_replicate in Hq as [-> _]. apply Hempty.
Qed.

Lemma widened_inv fresh d :
  pages_ok d -> page_new (df_page_size d) = Done fresh -> page_ok fresh ->
  (forall raw, contents fresh raw = None) ->
  grow_inv (grown (page_count d)) (widened fresh d) (widened fresh d) /\
  sized (entry_of d) (widened fresh d) /\ forall raw, carried raw d (widened fresh d).
Proof.
  intros H Hnew Hfresh Hempty. pose proof (grown_bound _ (po_count _ H)).
  assert (page_size fresh = df_page_size d /\ heap_offset (header fresh) = df_page_size d /\ directory fresh = [])
    as (Hf1 & Hf2 & Hf3).
  { unfold page_new in Hnew. apply obind_done in Hnew as (_ & _ & Hnew). by injection Hnew as <-. }
  split; [|split].
  - constructor; try done.
    + pose proof (po_length _ H) as Hlen. pose proof (po_count _ H). constructor; simpl.
      * lia.
      * rewrite zlen_app. unfold zlen in *. rewrite length_replicate. lia.
      * apply H.
      * intros i p Hp. destruct (widened_page fresh d i p Hp) as [Hp'| ->]; [by apply (po_page _ H i)|done].
      * intros c [Hc| ->%list_elem_of_singleton]%elem_of_app; [|lia].
        apply (po_prev _ H) in Hc. lia.
    + intros i p e Hp He. by exists i, p, e.
    + intros raw. by apply carried_same.
  - intros i p e Hp He. destruct (widened_page fresh d i p Hp) as [Hp'| ->].
    + by exists i, p, e.
    + rewrite Hf3 in He. by apply not_elem_of_nil in He.
  - intros raw. apply carried_same; [intros i; by apply widened_at|]. intros n Hn. unfold counts in *. simpl.
    rewrite reverse_app. simpl. right. by apply elem_of_cons in Hn as [->|Hn]; [left | right].
Qed.

(** Growth carries every key, whether it completes or stops at a full page. *)
Lemma rebalance_keys d :
  pages_ok d -> growable d -> let n := grown (page_count d) in
  exists r d', rebalance d = (r, d') /\ pages_ok d' /\ page_count d' = n /\
    df_page_size d' = df_page_size d /\ cache d' = cache d /\ sized (entry_of d) d' /\
    (forall raw, carried raw d d') /\
    match r with Done _ => forall i, settled d' n i | Fail e => refused d d' e | Fault => False end.
Proof.
  intros H Hfit n.
  destruct (page_new_ok (df_page_size d)) as (fresh & Hnew & Hfresh & Hempty);
    [pose proof (po_size _ H); unfold DIR_ENTRY_SIZE in *; lia|].
  destruct (widened_inv fresh d H Hnew Hfresh Hempty) as (Hg & Hsz & Hk).
  assert (forall e, entry_of (widened fresh d) e.1 e.2 -> entry_of d e.1 e.2) as Hent.
  { intros e (i & p & x & Hp & Hx & <- & <-). by apply (Hsz i p). }
  unfold rebalance. cbv beta iota zeta delta [st_bind st_gets st_lift st_modify]. fold n.
  rewrite (proj2 (fitsb_spec 64 n) (growable_fits d H Hfit)). cbn [guard]. rewrite Hnew.
  match goal with |- context [st_iter _ _ ?x] => change x with (widened fresh d) end.
  fold n in Hg. destruct (rebalance_pages_spec n _ (fill_order (page_bytes (widened fresh d)) (page_count d)) _ Hg)
    as (r & d2 & E & Hg2 & Hr).
  { intros i Hi. unfold fill_order in Hi. rewrite sort_by_perm in Hi. apply elem_of_seq in Hi.
    pose proof (grown_bound _ (po_count _ H)). unfold n. lia. }
  rewrite E. destruct Hg2 as [H2 Hc2 Hpr2 Hsz2 Hmo2 Hca2 He2 Hk2].
  assert (forall raw, carried raw d d2) as Hk'.
  { intros raw. by eapply carried_trans. }
  assert (sized (entry_of d) d2) as He2'.
  { intros i p e Hp He. apply (Hent (de_id e, de_size e)). by eapply He2. }
  destruct r as [[]|e|]; [| |done].
  - assert (forall i, settled d2 n i) as Hset.
    { destruct Hr as [Ho Hset]. intros i. destruct (decide (i < Z.to_nat (page_count d))%nat) as [Hlt|Hge].
      - apply Ho. unfold fill_order. rewrite sort_by_perm. apply elem_of_seq. lia.
      - apply Hset. intros raw' b' Hb'. rewrite widened_at in Hb' by done.
        by apply (at_page_bound d) in Hb' as [? _]. }
    eexists _, _. split; [done|]. split; [|split; [done|split; [done|split; [done|split; [done|split; [|done]]]]]].
    + destruct H2 as [? ? ? ? Hprev]. constructor; simpl; try done.
      intros c [_ Hc]%list_elem_of_filter. by apply Hprev.
    + intros raw. destruct (Hk' raw) as [C1 C2 C3 _]. constructor; try done.
      intros _ i b Hi. exists n. split; [unfold counts; simpl; rewrite Hc2; by left|]. left. by apply Hset in Hi.
  - eexists _, _. do 7 (split; [done|]). destruct Hr as (-> & raw & len & p & Hen & Hp & Hf).
    split; [done|]. exists raw, len, p. split; [|done]. by apply (Hent (raw, len)).
Qed.

Lemma rebalance_bulky d d' :
  bulky d -> df_page_size d' = df_page_size d -> sized (entry_of d) d' -> bulky d'.
Proof.
  intros [Hb1 Hb2]%bulky_sized Es Hs. apply bulky_sized. split; [by rewrite Es|].
  intros i p e Hp He. destruct (Hs i p e Hp He) as (j & q & x & Hq & Hx & _ & <-). by eapply Hb2.
Qed.

(** ** A write with its growth *)

(** The key is stored nowhere but, possibly, on its current primary page. *)
Definition at_home (d : DataFile) (raw : Z) : Prop :=
  forall i b, at_page (pages d) i raw = Some b ->
    i = page_index (route_key_for_raw raw) (page_count d).

(** Neither of a key's two pages has room for its value beside the other entries. *)
Definition no_room (d : DataFile) (raw : Z) (bytes : list byte) : Prop :=
  let primary := page_index (route_key_for_raw raw) (page_count d) in
  forall i p, i = primary \/ i = fallback_index primary (route_key_for_raw raw) (page_count d) ->
    pages d !! i = Some p -> page_room p raw < zlen bytes.

(** [d'] stores what [d] does, except at [raw]. *)
Definition same_but (raw : Z) (d d' : DataFile) : Prop :=
  forall raw' b, raw' <> raw -> (stored d' raw' b <-> stored d raw' b).

(** A page that refuses a value has no room for it, before and after. *)
Lemma refused_page p p' raw bytes :
  page_ok p -> directory_fits p -> page_ok p' -> directory_fits p' ->
  0 < zlen bytes -> zlen bytes + DIR_ENTRY_SIZE < 2 ^ 32 -> page_upsert p raw bytes = Done (p', false) ->
  page_room p raw < zlen bytes /\ page_room p' raw < zlen bytes /\ page_upsert p' raw bytes = Done (p', false).
Proof.
  intros Hp Hf Hp' Hf' H0 Hmax E.
  assert (page_upsert p' raw bytes = Done (p', false)) as E' by (by apply (page_upsert_refused p)).
  destruct (upsert_spec p raw bytes Hp Hf H0 Hmax) as (? & b & E1 & _ & _ & Hr & _).
  destruct (upsert_spec p' raw bytes Hp' Hf' H0 Hmax) as (? & b' & E2 & _ & _ & Hr' & _).
  rewrite E in E1. injection E1 as <- <-. rewrite E' in E2. injection E2 as <- <-. auto.
Qed.

Lemma sized_insert E d i p :
  sized E d -> (forall e, e ∈ directory p -> E (de_id e) (de_size e)) ->
  sized E (with_pages (<[i := p]> (pages d)) d).
Proof. intros Hs Hp j q e [(<- & <- & _)|[_ Hj]]%list_lookup_insert_Some; [apply Hp | by apply (Hs j)]. Qed.

(** A refused attempt: both pages refused the value, one after the other. *)
Lemma try_insert_fails d key raw bytes e d' :
  pages_ok d -> bulky d -> MIN_VALUE <= zlen bytes -> zlen bytes + DIR_ENTRY_SIZE < 2 ^ 32 ->
  try_insert_at_key key raw bytes d = (Fail e, d') ->
  let primary := page_index key (page_count d) in
  let alt := fallback_index primary key (page_count d) in
  exists p p1 q q1, pages d !! primary = Some p /\ page_upsert p raw bytes = Done (p1, false) /\
    <[primary := p1]> (pages d) !! alt = Some q /\ page_upsert q raw bytes = Done (q1, false) /\
    let d1 := with_pages (<[primary := p1]> (pages d)) d in
    pages_ok d1 /\ bulky d1 /\ d' = with_pages (<[alt := q1]> (<[primary := p1]> (pages d))) d /\
    pages_ok d' /\ bulky d'.
Proof.
  intros H Hb Hmin Hmax. pose proof (po_count _ H) as Hn.
  set (primary := page_index key (page_count d)). set (alt := fallback_index primary key (page_count d)).
  destruct (upsert_step d primary raw bytes H Hb ltac:(by apply page_index_lt) Hmin Hmax)
    as (p & p1 & b1 & Hp & E1 & Eu1 & H1 & Hb1 & Hs1 & _).
  unfold try_insert_at_key, st_bind at 1, st_gets. fold primary. unfold st_bind at 1. rewrite Eu1.
  destruct b1; [by rewrite bump_run|].
  set (d1 := with_pages _ d) in *. fold alt.
  destruct (upsert_step d1 alt raw bytes H1 Hb1 ltac:(by apply fallback_index_lt) Hmin Hmax)
    as (q & q1 & b2 & Hq & E2 & Eu2 & H2 & Hb2 & Hs2 & _).
  set (d2 := with_pages _ d1) in *. unfold st_bind at 1. rewrite Eu2. destruct b2.
  - unfold st_bind at 1. rewrite bump_run. set (d3 := with_page_bytes _ d2).
    assert (pages_ok d3) as H3 by by eapply pages_ok_same; [..|exact H2].
    destruct (remove_step d3 primary raw H3 ltac:(by apply page_index_lt)) as (b4 & d4 & E4 & _).
    unfold st_bind at 1. by rewrite E4.
  - intros [= _ <-]. by exists p, p1, q, q1.
Qed.

(** It found no room on either page, leaves none, and adds no entry. *)
Lemma try_insert_refused d raw bytes e d' :
  pages_ok d -> bulky d -> MIN_VALUE <= zlen bytes -> zlen bytes + DIR_ENTRY_SIZE < 2 ^ 32 ->
  try_insert_at_key (route_key_for_raw raw) raw bytes d = (Fail e, d') ->
  no_room d raw bytes /\ no_room d' raw bytes /\ sized (entry_of d) d'.
Proof.
  intros H Hb Hmin Hmax Htry. assert (0 < zlen bytes) as H0 by (unfold MIN_VALUE in *; lia).
  destruct (try_insert_fails d _ raw bytes e d' H Hb Hmin Hmax Htry)
    as (p & p1 & q & q1 & Hp & E1 & Hq & E2 & H1 & Hb1 & -> & H2 & Hb2). clear Htry.
  unfold no_room. set (key := route_key_for_raw raw) in *.
  set (primary := page_index key (page_count d)) in *. set (alt := fallback_index primary key (page_count d)) in *.
  assert (forall d i x, pages_ok d -> bulky d -> pages d !! i = Some x -> page_ok x /\ directory_fits x) as Hwell.
  { intros d0 i x Hd Hbd Hx. split; [by apply (po_page _ Hd i)|by eapply bulky_fits]. }
  assert (<[primary := p1]> (pages d) !! primary = Some p1) as Hp1
    by (apply list_lookup_insert_eq; by eapply lookup_lt_Some).
  assert (<[alt := q1]> (<[primary := p1]> (pages d)) !! alt = Some q1) as Hq1
    by (apply list_lookup_insert_eq; by eapply lookup_lt_Some).
  destruct (Hwell _ _ _ H Hb Hp) as [Op Fp]. destruct (Hwell _ _ _ H1 Hb1 Hp1) as [Op1 Fp1].
  destruct (Hwell _ _ _ H1 Hb1 Hq) as [Oq Fq]. destruct (Hwell _ _ _ H2 Hb2 Hq1) as [Oq1 Fq1].
  destruct (refused_page p p1 raw bytes) as (Rp & Rp1 & Ep1); [done..|].
  destruct (refused_page q q1 raw bytes) as (Rq & Rq1 & _); [done..|].
  split; [|split].
  - intros i x Hi Hx. destruct (decide (i = primary)) as [->|Hne]; [by simplify_eq|].
    destruct Hi as [->| ->]; [done|]. rewrite list_lookup_insert_ne in Hq by done. by simplify_eq.
  - change (page_count _) with (page_count d). fold primary alt. simpl.
    intros i x Hi Hx. destruct (decide (i = alt)) as [->|Hne]; [by simplify_eq|].
    destruct Hi as [->| ->]; [|done]. rewrite list_lookup_insert_ne in Hx by done. by simplify_eq.
  - assert (sized (entry_of d) d) as Hs by (intros i x y Hx Hy; by exists i, x, y).
    assert (sized (entry_of d) (with_pages (<[primary := p1]> (pages d)) d)) as Hs1.
    { apply sized_insert; [done|]. eapply page_upsert_entries; [exact Op|done..|]. intros y Hy. by apply (Hs primary p). }
    apply (sized_insert _ _ alt q1 Hs1). eapply page_upsert_entries; [exact Oq|done..|].
    intros y Hy. by apply (Hs1 alt q).
Qed.

Lemma try_insert_home d raw bytes :
  pages_ok d -> bulky d -> at_home d raw ->
  MIN_VALUE <= zlen bytes -> zlen bytes + DIR_ENTRY_SIZE < 2 ^ 32 ->
  exists r d', try_insert_at_key (route_key_for_raw raw) raw bytes d = (r, d') /\
    pages_ok d' /\ bulky d' /\ same_file d d' /\ (forall raw', raw' <> raw -> carried raw' d d') /\
    placed_key d' raw /\
    match r with
    | Done _ => forall b, stored d' raw b <-> b = bytes
    | Fail e => (exists i, e = PageFull i) /\ forall i, at_page (pages d') i raw = None
    | Fault => False
    end.
Proof.
  intros H Hb Hhome Hmin Hmax. pose proof (po_count _ H) as Hcount.
  destruct (try_insert_spec d (route_key_for_raw raw) raw bytes H Hb Hmin Hmax)
    as (r & d' & E & H' & Hb' & Hs & Hother & Hr).
  set (n := page_count d) in *. set (primary := page_index (route_key_for_raw raw) n) in *.
  set (alt := fallback_index primary (route_key_for_raw raw) n) in *.
  assert (counts d' = counts d) as Hcs
    by (unfold counts; destruct Hs as (_ & _ & -> & -> & _); done).
  assert (forall j, j <> primary -> at_page (pages d) j raw = None) as Hnone.
  { intros j Hj. destruct (at_page (pages d) j raw) eqn:E'; [|done]. by apply Hhome in E'. }
  assert (forall raw', raw' <> raw -> carried raw' d d') as Hcar.
  { intros raw' Hne. apply carried_same; [by intros i; apply Hother|]. by rewrite Hcs. }
  assert (lone d' raw -> (forall i b, at_page (pages d') i raw = Some b -> i = primary \/ i = alt) -> placed_key d' raw)
    as Hplaced.
  { intros Hu Ho. split; [done|]. intros i b Hi. exists n. rewrite Hcs. split; [by left|]. by apply Ho in Hi. }
  exists r, d'. do 5 (split; [done|]).
  destruct r as [[]|e|]; [destruct Hr as [Hr|[Hap Hr]]|destruct Hr as [-> Hr]|done].
  - split.
    + apply Hplaced.
      * intros i j b b'. rewrite !Hr. repeat case_decide; rewrite ?Hnone by done; congruence.
      * intros i b. rewrite Hr. case_decide; [by left|]. by rewrite Hnone.
    + intros b. unfold stored. setoid_rewrite Hr. split.
      * intros [i Hi]. case_decide; [congruence|]. by rewrite Hnone in Hi.
      * intros ->. exists primary. by rewrite decide_True.
  - split.
    + apply Hplaced.
      * intros i j b b'. rewrite !Hr. repeat case_decide; rewrite ?Hnone by done; congruence.
      * intros i b. rewrite Hr. repeat case_decide; rewrite ?Hnone by done; naive_solver.
    + intros b. unfold stored. setoid_rewrite Hr. split.
      * intros [i Hi]. repeat case_decide; rewrite ?Hnone in Hi by done; congruence.
      * intros ->. exists alt. by rewrite decide_False, decide_True by done.
  - assert (forall i, at_page (pages d') i raw = None) as Hgone
      by (intros i; rewrite Hr; repeat case_decide; [done | apply Hnone; tauto]).
    split; [by split; intros i; rewrite Hgone|]. split; [by eexists | done].
Qed.

(** Why a write fails: its two pages had no room, so the file grew; then the growth
    stopped, or the two pages it routes to now have no room either. *)
Definition write_refused (d d' : DataFile) (raw : Z) (bytes : list byte) (e : StorageError) : Prop :=
  page_count d' = grown (page_count d) /\ no_room d raw bytes /\
  (refused d d' e \/ (exists i, e = PageFull i) /\ no_room d' raw bytes).

Lemma refused_weaken d0 d d' e : sized (entry_of d0) d -> refused d d' e -> refused d0 d' e.
Proof.
  intros Hs (-> & raw & len & p & (i & q & x & Hq & Hx & <- & <-) & Hp & Hf). split; [done|].
  exists (de_id x), (de_size x), p. split; [|done]. by apply (Hs i q).
Qed.

Lemma carried_gone raw d d' : carried raw d d' -> (forall i, at_page (pages d) i raw = None) ->
  placed_key d' raw /\ forall b, ~ stored d' raw b.
Proof.
  intros [Hsub _ _ _] Hg. assert (forall b, ~ stored d' raw b) as Hn by (intros b [i Hi]%Hsub; by rewrite Hg in Hi).
  split; [|done]. split; intros i.
  - intros j b b' Hi. destruct (Hn b). by exists i.
  - intros b Hi. destruct (Hn b). by exists i.
Qed.

Lemma insert_key_spec d raw bytes :
  pages_ok d -> bulky d -> at_home d raw -> growable d ->
  MIN_VALUE <= zlen bytes -> zlen bytes + DIR_ENTRY_SIZE < 2 ^ 32 ->
  exists r d', insert_at_key (route_key_for_raw raw) raw bytes d = (r, d') /\
    pages_ok d' /\ bulky d' /\ cache d' = cache d /\ (forall raw', raw' <> raw -> carried raw' d d') /\
    placed_key d' raw /\
    match r with
    | Done _ => forall b, stored d' raw b <-> b = bytes
    | Fail e => (forall b, ~ stored d' raw b) /\ write_refused d d' raw bytes e
    | Fault => False
    end.
Proof.
  intros H Hb Hhome Hfit Hmin Hmax.
  destruct (try_insert_home d raw bytes H Hb Hhome Hmin Hmax)
    as (r & d1 & E & H1 & Hb1 & Hs1 & Hk1 & Hp1 & Hr).
  assert (cache d1 = cache d /\ page_count d1 = page_count d) as [Hca1 Hc1]
    by (destruct Hs1 as (_ & _ & ? & _ & ? & _); done).
  assert (growable d1) as Hfit1 by (unfold growable; by rewrite Hc1).
  destruct (rebalance_keys d1 H1 Hfit1) as (r2 & d2 & E2 & H2 & Hc2 & Hps2 & Hca2 & Hsz2 & Hk2 & Hr2).
  pose proof (rebalance_bulky _ _ Hb1 Hps2 Hsz2) as Hb2.
  assert (forall raw', raw' <> raw -> carried raw' d d2) as Hk by (intros raw' Hne; eapply carried_trans; auto).
  unfold insert_at_key. rewrite E. destruct r as [[]|e|]; [| |done].
  - destruct (crowded d1); [|by exists (Done tt), d1].
    exists (Done tt), d2. unfold ignore_error. rewrite E2. split; [by destruct r2 as [[]| |]|].
    do 2 (split; [done|]). split; [congruence|]. split; [done|]. split; [by eapply carried_key|].
    intros b. rewrite (carried_stored raw d1 d2) by (done || apply Hp1). apply Hr.
  - destruct Hr as [[i ->] Hgone]. destruct (carried_gone _ _ _ (Hk2 raw) Hgone) as [Hp2 Hg2].
    destruct (try_insert_refused d raw bytes _ d1 H Hb Hmin Hmax E) as (Hn & _ & Hsz1).
    unfold st_bind. rewrite E2. destruct r2 as [[]|e|]; [| |done].
    + destruct (try_insert_home d2 raw bytes H2 Hb2) as (r & d3 & E3 & H3 & Hb3 & Hs3 & Hk3 & Hp3 & Hr3);
        [intros j b Hj; destruct (Hg2 b); by exists j | done..|].
      exists r, d3. split; [done|]. do 2 (split; [done|]).
      split; [destruct Hs3 as (_ & _ & _ & _ & -> & _); congruence|].
      split; [intros raw' Hne; eapply carried_trans; [by apply Hk | by apply Hk3]|]. split; [done|].
      destruct r as [[]|e|]; [done| |done]. destruct Hr3 as [He Hn3].
      split; [by intros b [j Hj]; rewrite Hn3 in Hj|].
      split; [destruct Hs3 as (_ & _ & -> & _); congruence|]. split; [done|]. right. split; [done|].
      by destruct (try_insert_refused d2 raw bytes e d3 H2 Hb2 Hmin Hmax E3) as (_ & ? & _).
    + exists (Fail e), d2. do 3 (split; [done|]). split; [congruence|]. do 3 (split; [done|]).
      split; [congruence|]. split; [done|]. left. by eapply refused_weaken.
Qed.

(** The same when every key is placed. *)
Lemma insert_spec d raw bytes :
  pages_ok d -> bulky d -> placed d -> at_home d raw -> growable d ->
  MIN_VALUE <= zlen bytes -> zlen bytes + DIR_ENTRY_SIZE < 2 ^ 32 ->
  exists r d', insert_at_key (route_key_for_raw raw) raw bytes d = (r, d') /\
    pages_ok d' /\ bulky d' /\ placed d' /\ cache d' = cache d /\ same_but raw d d' /\
    match r with
    | Done _ => forall b, stored d' raw b <-> b = bytes
    | Fail e => forall b, ~ stored d' raw b
    | Fault => False
    end.
Proof.
  intros H Hb Hpl Hhome Hfit Hmin Hmax. rewrite placed_keys in Hpl.
  destruct (insert_key_spec d raw bytes H Hb Hhome Hfit Hmin Hmax)
    as (r & d' & E & H' & Hb' & Hca & Hk & Hp & Hr).
  exists r, d'. do 3 (split; [done|]). split.
  { apply placed_keys. intros raw'. destruct (decide (raw' = raw)) as [->|Hne]; [done|].
    by apply (carried_key raw' d d'); [apply Hk|]. }
  split; [done|]. split; [|by destruct r as [|e|]; [|apply Hr|]].
  intros raw' b Hne. by apply carried_stored; [apply Hk|apply Hpl].
Qed.

(** ** Properties *)

(** C5: a write through [insert_at_key] that succeeds is found by the next lookup,
    whether the value fitted, overflowed to the fallback page, or made the file grow
    and rehash.  It never panics, and it fails for lack of room only: neither of the
    key's two pages had room for the value, the file has grown, and then either a
    stored entry found no room on its new page or neither of the key's two pages in
    the grown file has room; the key then reads as absent.  Every other key that
    has a single copy reads as before and keeps a single copy.  The key's previous
    value, if any, must be on its primary page (what can happen otherwise is
    [stale_copy_resurfaces]); stored values take at least 33 bytes and pages at
    least 1076. *)
Theorem insert_then_lookup (d : DataFile) (raw : Z) (bytes : list byte) :
  pages_ok d -> bulky d -> at_home d raw -> growable d ->
  MIN_VALUE <= zlen bytes -> zlen bytes + DIR_ENTRY_SIZE < 2 ^ 32 ->
  exists r d', insert_at_key (route_key_for_raw raw) raw bytes d = (r, d') /\
    (pages_ok d' /\ bulky d' /\ placed_key d' raw) /\
    match r with
    | Done _ => lookup_at_key (route_key_for_raw raw) raw d' = (Done (Some bytes), d')
    | Fail e => lookup_at_key (route_key_for_raw raw) raw d' = (Done None, d') /\
                write_refused d d' raw bytes e
    | Fault => False
    end /\
    forall raw', raw' <> raw -> placed_key d raw' -> placed_key d' raw' /\
      fst (lookup_at_key (route_key_for_raw raw') raw' d')
      = fst (lookup_at_key (route_key_for_raw raw') raw' d).
Proof.
  intros H Hb Hhome Hfit Hmin Hmax.
  destruct (insert_key_spec d raw bytes H Hb Hhome Hfit Hmin Hmax)
    as (r & d' & E & H' & Hb' & _ & Hk & Hp & Hr).
  exists r, d'. split; [done|]. split; [done|]. split.
  - destruct (lookup_key d' raw H' Hp) as (x & -> & Hx). destruct r as [[]|e|]; [| |done].
    + do 2 f_equal. by apply Hx, Hr.
    + destruct Hr as [Hr Hw]. split; [|done]. do 2 f_equal. destruct x as [b|]; [|done]. destruct (Hr b). by apply Hx.
  - intros raw' Hne Hp'. specialize (Hk raw' Hne). split; [by eapply carried_key|]. by apply carried_lookup.
Qed.

(** C12: growing the file changes the lookup of no key that has a single copy, on a
    page its route visits, whether the rehash completes or stops at a page with no
    room; such keys still have a single copy afterwards, and a completed growth
    leaves every copy of every key on its new primary page.  For a key with stale
    copies a lookup gives one of the copies.  Growth never panics, and it stops only
    when an entry finds no room on its new page. *)
Theorem rebalance_preserves_lookups (d : DataFile) :
  pages_ok d -> growable d ->
  exists r d', rebalance d = (r, d') /\ page_count d' = grown (page_count d) /\
    pages_ok d' /\ (bulky d -> bulky d') /\ (placed d -> placed d') /\
    match r with Done _ => forall i, settled d' (page_count d') i | Fail e => refused d d' e | Fault => False end /\
    (forall raw, placed_key d raw -> placed_key d' raw /\
       fst (lookup_at_key (route_key_for_raw raw) raw d')
       = fst (lookup_at_key (route_key_for_raw raw) raw d)) /\
    forall raw b, fst (lookup_at_key (route_key_for_raw raw) raw d') = Done (Some b) -> stored d raw b.
Proof.
  intros H Hfit. destruct (rebalance_keys d H Hfit) as (r & d' & E & H' & Hc & Hps & _ & Hsz & Hk & Hr).
  exists r, d'. do 3 (split; [done|]). split; [intros Hb; by eapply rebalance_bulky|]. split.
  { rewrite !placed_keys. intros Hp raw. by apply (carried_key raw d). }
  split; [destruct r; [by rewrite Hc|done..]|]. split.
  - intros raw Hp. split; [by eapply carried_key|]. by apply carried_lookup.
  - intros raw b. rewrite lookup_spec by done. intros [= Hs]. apply (cr_sub _ _ _ (Hk raw)). exact (search_sound _ (route_key_for_raw raw) raw (counts d') b Hs).
Qed.

(** A freshly opened file satisfies the invariant. *)
Lemma open_spec size count m :
  1076 <= size -> size + DIR_ENTRY_SIZE < 2 ^ 32 -> 1 <= count ->
  exists d, open_with_mode size count m = Done d /\ pages_ok d /\ bulky d /\ placed d /\
    page_count d = count /\ (forall raw, at_home d raw).
Proof.
  intros Hs Hs2 Hc. unfold open_with_mode. replace (count =? 0) with false by lia.
  destruct (page_new_ok size) as (p & Hnew & Hp & Hempty); [unfold HEADER_SIZE, DIR_ENTRY_SIZE in *; lia|].
  rewrite Hnew. simpl. eexists. split; [done|].
  assert (page_size p = size /\ heap_offset (header p) = size /\ directory p = []) as (Hf1 & Hf2 & Hf3).
  { unfold page_new in Hnew. apply obind_done in Hnew as (_ & _ & Hnew). by injection Hnew as <-. }
  assert (forall i raw, at_page (replicate (Z.to_nat count) p) i raw = None) as Hnone.
  { intros i raw. unfold at_page. destruct (_ !! i) as [q|] eqn:Hq; [|done].
    apply lookup_replicate in Hq as [-> _]. apply Hempty. }
  split; [|split; [|split; [|split; [done|]]]].
  - constructor; simpl; [done| | |intros i q Hq; by apply lookup_replicate in Hq as [-> _]|].
    + unfold zlen. rewrite length_replicate. lia.
    + unfold HEADER_SIZE, DIR_ENTRY_SIZE in *. lia.
    + by intros c ?%not_elem_of_nil.
  - split; [done|]. simpl. intros i q Hq. apply lookup_replicate in Hq as [-> _].
    rewrite Hf3. by intros n ?%not_elem_of_nil.
  - constructor; simpl; intros raw i; rewrite Hnone; done.
  - intros raw i b. simpl. by rewrite Hnone.
Qed.

Definition demo_key (c : Z) : Z := Id_new 1 0 100 c.

Definition opened (size count : Z) : DataFile :=
  match open_with_mode size count InMemory with
  | Done d => d
  | _ => {| df_page_size := 0; mode := InMemory; page_count := 0; previous_page_counts := [];
            pages := []; page_bytes := []; cache := cache_new; journal_tx := None; snapshot := None |}
  end.

Definition put_value (c : Z) (b : byte) (len : nat) : DF unit :=
  insert_at_key (route_key_for_raw (demo_key c)) (demo_key c) (replicate len b).

Lemma opened_ok size count :
  1076 <= size -> size + DIR_ENTRY_SIZE < 2 ^ 32 -> 1 <= count ->
  pages_ok (opened size count) /\ bulky (opened size count) /\ placed (opened size count) /\
  page_count (opened size count) = count /\ (forall raw, at_home (opened size count) raw).
Proof.
  intros H1 H2 H3. destruct (open_spec size count InMemory H1 H2 H3) as (d & E & Hd).
  unfold opened. by rewrite E.
Qed.

(** A file whose keys are all placed and among [keys]. *)
Definition demo_ok (keys : list Z) (d : DataFile) : Prop :=
  pages_ok d /\ bulky d /\ placed d /\ forall raw b, stored d raw b -> raw ∈ keys.

Lemma demo_opened size count :
  1076 <= size -> size + DIR_ENTRY_SIZE < 2 ^ 32 -> 1 <= count -> demo_ok [] (opened size count).
Proof.
  intros H1 H2 H3. destruct (opened_ok size count H1 H2 H3) as (H & Hb & Hp & _).
  split; [done|]. split; [done|]. split; [done|]. intros raw b [i Hi]. exfalso.
  unfold opened, open_with_mode, at_page in Hi. destruct (count =? 0); [done|].
  destruct (page_new size) as [q| |] eqn:Eq; simpl in Hi; [|done..].
  destruct (_ !! i) as [p|] eqn:Hpi; [|done]. apply lookup_replicate in Hpi as [-> _].
  unfold page_new in Eq. apply obind_done in Eq as (_ & _ & Eq). by injection Eq as <-.
Qed.

Lemma demo_home keys d raw : demo_ok keys d -> raw ∉ keys -> at_home d raw.
Proof. intros (_ & _ & _ & Hk) Hn i b Hi. destruct Hn. apply (Hk raw b). by exists i. Qed.

Lemma demo_put keys d c b n :
  demo_ok keys d -> demo_key c ∉ keys -> growable d -> (33 <= n <= 4000)%nat ->
  demo_ok (demo_key c :: keys) (put_value c b n d).2.
Proof.
  intros Hd Hc Hg Hn. pose proof Hd as (H & Hb & Hp & Hk). pose proof (demo_home _ _ _ Hd Hc) as Hh.
  assert (zlen (replicate n b) = Z.of_nat n) as Hl by (unfold zlen; by rewrite length_replicate).
  destruct (insert_spec d (demo_key c) (replicate n b) H Hb Hp Hh Hg)
    as (r & d' & E & H' & Hb' & Hp' & _ & Hsb & _); [unfold MIN_VALUE; lia|unfold DIR_ENTRY_SIZE; lia|].
  unfold put_value. rewrite E. simpl. split; [done|]. split; [done|]. split; [done|].
  intros raw x Hx. destruct (decide (raw = demo_key c)) as [->|Hne]; [by left|]. right. by apply (Hk raw x), Hsb.
Qed.

Lemma demo_new c keys : Forall (fun k => k <> demo_key c) keys -> demo_key c ∉ keys.
Proof. intros Hf Hin. by apply (proj1 (Forall_forall _ _) Hf _ Hin). Qed.

(** Four values on two pages of four. *)
Definition demo_file4 : DataFile :=
  (put_value 4 Byte.x04 200 (put_value 6 Byte.x06 200 (put_value 2 Byte.x02 200 (put_value 1 Byte.x01 200
    (opened 1076 4)).2).2).2).2.

Lemma demo_file4_ok : demo_ok [demo_key 4; demo_key 6; demo_key 2; demo_key 1] demo_file4.
Proof.
  unfold demo_file4.
  do 4 (apply demo_put; [|by apply demo_new; repeat constructor; vm_compute|by vm_compute|lia]).
  apply demo_opened; [lia|unfold DIR_ENTRY_SIZE; lia|lia].
Qed.

(** What the four keys read as in a file. *)
Definition demo_reads (d : DataFile) : list (StorageResult (option (list byte))) :=
  map (fun c => (lookup_at_key (route_key_for_raw (demo_key c)) (demo_key c) d).1) [1; 2; 4; 6].

Lemma demo_reads_same d d' :
  (forall c, c ∈ [1; 2; 4; 6] -> (lookup_at_key (route_key_for_raw (demo_key c)) (demo_key c) d').1
    = (lookup_at_key (route_key_for_raw (demo_key c)) (demo_key c) d).1) -> demo_reads d' = demo_reads d.
Proof. intros H. apply map_ext_in. intros c Hc. by apply H, list_elem_of_In. Qed.

(** The third page in use makes the file grow and moves all four earlier values; a
    value larger than a page is refused after growing the file. *)
Lemma insert_then_lookup_witness :
  demo_reads demo_file4 = map (fun b => Done (Some (replicate 200 b))) [Byte.x01; Byte.x02; Byte.x04; Byte.x06] /\
  (exists d', put_value 9 Byte.x09 300 demo_file4 = (Done tt, d') /\ page_count d' = 7 /\
    (lookup_at_key (route_key_for_raw (demo_key 9)) (demo_key 9) d').1 = Done (Some (replicate 300 Byte.x09)) /\
    demo_reads d' = demo_reads demo_file4) /\
  exists e d', put_value 9 Byte.x09 1100 demo_file4 = (Fail e, d') /\
    write_refused demo_file4 d' (demo_key 9) (replicate 1100 Byte.x09) e /\
    (lookup_at_key (route_key_for_raw (demo_key 9)) (demo_key 9) d').1 = Done None /\
    demo_reads d' = demo_reads demo_file4.
Proof.
  pose proof demo_file4_ok as Hok. pose proof Hok as (H & Hb & Hp & _).
  assert (at_home demo_file4 (demo_key 9)) as Hh.
  { apply (demo_home _ _ _ Hok), demo_new. by repeat constructor; vm_compute. }
  assert (forall d', (forall raw, raw <> demo_key 9 -> placed_key demo_file4 raw -> placed_key d' raw /\
      (lookup_at_key (route_key_for_raw raw) raw d').1 = (lookup_at_key (route_key_for_raw raw) raw demo_file4).1) ->
    demo_reads d' = demo_reads demo_file4) as Hreads.
  { intros d' Hk. rewrite placed_keys in Hp. apply demo_reads_same. intros c Hc. apply Hk; [|apply Hp].
    revert c Hc. apply Forall_forall. by repeat constructor; vm_compute. }
  split; [by vm_compute|]. split.
  - destruct (insert_then_lookup demo_file4 (demo_key 9) (replicate 300 Byte.x09))
      as (r & d' & E & _ & Hr & Hk); [done|done|done|by vm_compute..|].
    assert (r = Done tt /\ page_count d' = 7) as [-> Hc].
    { assert ((fun x => (x.1, page_count x.2)) (put_value 9 Byte.x09 300 demo_file4) = (Done tt, 7)) as E7 by by vm_compute.
      unfold put_value in E7. rewrite E in E7. split; [exact (f_equal fst E7) | exact (f_equal snd E7)]. }
    exists d'. split; [done|]. split; [done|]. split; [by rewrite Hr | by apply Hreads].
  - destruct (insert_then_lookup demo_file4 (demo_key 9) (replicate 1100 Byte.x09))
      as (r & d' & E & _ & Hr & Hk); [done|done|done|by vm_compute..|].
    assert ((match r with Fail _ => true | _ => false end) = true) as Hf.
    { assert ((match (put_value 9 Byte.x09 1100 demo_file4).1 with Fail _ => true | _ => false end) = true) as Ef
        by by vm_compute.
      unfold put_value in Ef. by rewrite E in Ef. }
    destruct r as [|e|]; [done| |done]. destruct Hr as [Hl Hw].
    exists e, d'. split; [done|]. split; [done|]. split; [by rewrite Hl | by apply Hreads].
Defined.

(** Growing the file of four values from four pages to seven moves all of them. *)
Lemma rebalance_preserves_lookups_witness :
  map (fun p => map de_id (directory p)) (pages demo_file4)
    = [[demo_key 1; demo_key 4]; [demo_key 2; demo_key 6]; []; []] /\
  exists d', rebalance demo_file4 = (Done tt, d') /\ page_count d' = 7 /\
    map (fun p => map de_id (directory p)) (pages d')
      = [[]; []; [demo_key 4]; [demo_key 2]; [demo_key 6]; []; [demo_key 1]] /\
    (forall i, settled d' 7 i) /\ demo_reads d' = demo_reads demo_file4.
Proof.
  pose proof demo_file4_ok as (H & Hb & Hp & _). split; [by vm_compute|].
  destruct (rebalance_preserves_lookups demo_file4) as (r & d' & E & Hc & _ & _ & _ & Hr & Hk & _);
    [done|by vm_compute|].
  assert (r = Done tt /\ map (fun p => map de_id (directory p)) (pages d')
      = [[]; []; [demo_key 4]; [demo_key 2]; [demo_key 6]; []; [demo_key 1]]) as [-> Hd].
  { assert ((fun x => (x.1, map (fun p => map de_id (directory p)) (pages x.2))) (rebalance demo_file4)
      = (Done tt, [[]; []; [demo_key 4]; [demo_key 2]; [demo_key 6]; []; [demo_key 1]])) as Em by by vm_compute.
    rewrite E in Em. split; [exact (f_equal fst Em) | exact (f_equal snd Em)]. }
  assert (page_count d' = 7) as Hc7 by (rewrite Hc; by vm_compute).
  exists d'. split; [done|]. split; [done|]. split; [done|]. split; [by rewrite <- Hc7|].
  rewrite placed_keys in Hp. apply demo_reads_same. intros c _. by apply Hk.
Defined.

(** Without the proviso of [insert_then_lookup] a write can be undone by
    growth.  Four successful writes on a fresh file: the first fills a page, the
    second sends key 10 to its fallback, the third rewrites key 10 where there is
    now room on its primary page and leaves the old copy, and the growth the
    fourth triggers moves the old copy first: the lookup returns it. *)
Theorem stale_copy_resurfaces :
  let '(r3, d3) := (do! put_value 9 Byte.x00 140 in do! put_value 10 Byte.x01 100 in
                    put_value 10 Byte.x02 60) (opened 256 4) in
  let '(r4, d4) := put_value 1 Byte.x03 100 d3 in
  r3 = Done tt /\ r4 = Done tt /\
  fst (lookup_at_key (route_key_for_raw (demo_key 10)) (demo_key 10) d3)
    = Done (Some (replicate 60 Byte.x02)) /\
  fst (lookup_at_key (route_key_for_raw (demo_key 10)) (demo_key 10) d4)
    = Done (Some (replicate 100 Byte.x01)).
Proof. vm_compute. repeat split. Qed.
