(* ===== verification/Snapshot.v ===== *)
(** * Snapshots of the page file: what [flush] writes, [open_on_disk] reads *)
From S2P Require Import Prelude Wire WireOk Errors Ids Page Hash Anchor Journal DataFile DataFileOk.

(** ** Pages a snapshot can hold

    Beyond [page_ok], the wire format needs the checksum, the dictionary version
    and the keys to be in range; no operation takes them out of it. *)
Definition storable_page (p : Page) : Prop :=
  fits 32 (checksum (header p)) /\ fits 32 (dict_version (header p)) /\
  Forall (fits 128) (map de_id (directory p)).

Lemma insert_storable p id bytes p' b :
  page_insert p id bytes = Done (p', b) -> fits 128 id -> storable_page p -> storable_page p'.
Proof.
  unfold page_insert. intros (? & _ & (? & _ & H)%obind_done)%obind_done Hid Hs.
  destruct (_ <? _); [by injection H as <- _|].
  apply obind_done in H as (? & _ & (? & _ & H)%obind_done). injection H as <- _.
  destruct Hs as (? & ? & ?). split_and!; [done..|]. simpl. rewrite map_app. apply Forall_app.
  split; [done|by apply Forall_singleton].
Qed.

Lemma remove_storable p id p' b :
  page_remove p id = Done (p', b) -> storable_page p -> storable_page p'.
Proof.
  unfold page_remove. intros (? & _ & H)%obind_done (? & ? & Hids). injection H as <- _.
  split_and!; [done..|]. simpl. apply Forall_forall. intros i (e & -> & He)%list_elem_of_fmap.
  apply list_elem_of_filter in He as [_ He]. rewrite Forall_forall in Hids.
  apply Hids. by apply list_elem_of_fmap_2.
Qed.

Lemma pack_entries_ids d dir : forall packed dir' out,
  pack_entries d dir packed = Done (dir', out) -> map de_id dir' = map de_id dir.
Proof.
  induction dir as [|e dir IH]; intros packed dir' out; simpl; [by intros [= <- _]|].
  intros (bs & _ & ([dir1 out1] & H1 & H2)%obind_done)%obind_done. injection H2 as <- _. simpl.
  f_equal. by eapply IH.
Qed.

Lemma compact_storable p p' : page_compact p = Done p' -> storable_page p -> storable_page p'.
Proof.
  unfold page_compact. intros ([dir out] & Hp & H)%obind_done (? & ? & Hids).
  do 4 (apply obind_done in H as (? & _ & H)). injection H as <-.
  split_and!; [done..|]. simpl. by rewrite (pack_entries_ids _ _ _ _ _ Hp).
Qed.

Lemma upsert_storable p id bytes p' b :
  page_upsert p id bytes = Done (p', b) -> fits 128 id -> storable_page p -> storable_page p'.
Proof.
  unfold page_upsert. intros ([p1 b1] & H1 & H)%obind_done Hid Hs.
  apply (remove_storable _ _ _ _ H1) in Hs.
  apply obind_done in H as ([p2 b2] & H2 & H).
  apply (insert_storable _ _ _ _ _ H2 Hid) in Hs.
  destruct b2; [by injection H as <- _|].
  apply obind_done in H as (u & _ & H). destruct (_ <? _); [by injection H as <- _|].
  apply obind_done in H as (p3 & H3 & H).
  eapply insert_storable; [exact H|done|]. eapply compact_storable; [exact H3|].
  done.
Qed.

Definition storable (d : DataFile) : Prop := forall i p, pages d !! i = Some p -> storable_page p.

(** A page with its invariant is a value of the wire format that fits it. *)
Definition snapshot_sized (d : DataFile) : Prop :=
  page_count d < 2 ^ 32 /\ df_page_size d < 2 ^ 26.

Lemma page_wire_wf p : page_ok p -> storable_page p -> page_wf p.
Proof.
  intros H (Hc & Hd & Hids). destruct (pk_count _ H) as [Hn Hn32].
  pose proof (pk_heap _ H). pose proof (pk_fit _ H). pose proof (zlen_nonneg (directory p)).
  pose proof (pk_size _ H). pose proof (zlen_nonneg (data p)). unfold HEADER_SIZE in *.
  split; [|split; [|split; [by apply Forall_true|unfold fits; lia]]].
  - split_and!; [done|unfold fits; lia..|done].
  - apply Forall_forall. intros e He. rewrite Forall_forall in Hids.
    pose proof (laid_out_elem _ _ _ _ (pk_dir _ H) He). unfold HEADER_SIZE in *.
    split; [apply Hids; by apply list_elem_of_fmap_2|]. unfold fits. lia.
Qed.

Lemma page_wire_fits p :
  page_ok p -> storable_page p -> page_size p < 2 ^ 26 ->
  slots_fit wire_page p = true /\ zlen (enc wire_page p) < 2 ^ 32.
Proof.
  intros H Hs Hsz. pose proof (page_wire_wf p H Hs) as Hwf.
  pose proof (pk_size _ H). pose proof (laid_out_live _ _ _ (pk_dir _ H)). pose proof (pk_heap _ H).
  pose proof (pk_fit _ H). unfold HEADER_SIZE in *.
  assert (zlen (directory p) < 2 ^ 26) as Hn by lia.
  destruct Hwf as (Hh & Hd & Hb & Hp).
  assert (slots_fit wire_page p = true) as Hf.
  { change (slots_fit wire_page p) with
      (true && (slots_fit (wire_vec wire_dir_entry) (directory p) && (slots_fit (wire_vec wire_u8) (data p) && true))).
    rewrite (vec_fixed_fits wire_dir_entry dir_entry_wf), (vec_fixed_fits wire_u8 (fun _ => True)) by done.
    rewrite !(proj2 (fitsb_spec 32 _)); [done|unfold fits; simpl STACK_SIZE; unfold zlen in *; lia..]. }
  split; [done|]. unfold zlen. rewrite (length_enc wire_page page_wf) by (by split_and!).
  change (STACK_SIZE wire_page) with 36%nat.
  change (Wire.heap_size wire_page p) with
    (0 + (length (directory p) * 24 + (length (data p) * 1 + 0)))%nat.
  unfold zlen in *. lia.
Qed.

(** ** The bytes written *)

Definition page_frame (ip : nat * Page) : list byte :=
  le_bytes 8 (Z.of_nat ip.1) ++ le_bytes 4 (zlen (enc wire_page ip.2)) ++ enc wire_page ip.2.

Definition page_frames (es : list (nat * Page)) : list byte := concat (map page_frame es).

(** An indexed page of the file, as a snapshot stores it. *)
Definition frame_ok (n : Z) (ip : nat * Page) : Prop :=
  Z.of_nat ip.1 < n /\ page_wf ip.2 /\ slots_fit wire_page ip.2 = true /\
  zlen (enc wire_page ip.2) < 2 ^ 32.

Lemma page_blob_ok n ip : frame_ok n ip -> page_blob ip = Done (page_frame ip).
Proof.
  intros (_ & Hwf & Hf & Hl). unfold page_blob, ser. rewrite (to_wire_enc wire_page page_wf) by done.
  cbn [omap_err obind]. pose proof (zlen_nonneg (enc wire_page ip.2)).
  by rewrite (proj2 (fitsb_spec 32 _)) by (unfold fits; lia).
Qed.

Lemma frames_blob n es : Forall (frame_ok n) es -> forall blob,
  ofold (fun blob ip => let* b := page_blob ip in Done (blob ++ b)) blob es = Done (blob ++ page_frames es).
Proof.
  induction 1 as [|ip es Hip _ IH]; intros blob; simpl; [by rewrite app_nil_r|].
  rewrite (page_blob_ok n) by done. simpl. rewrite IH. unfold page_frames. simpl. by rewrite app_assoc.
Qed.

Lemma sparse_elem ps i p : (i, p) ∈ sparse ps <-> ps !! i = Some p /\ 0 < entry_count (header p).
Proof.
  unfold sparse. rewrite list_elem_of_filter. simpl. split.
  - intros [Hc (j & q & [= -> ->] & Hj)%elem_of_lookup_imap]. done.
  - intros [Hi Hc]. split; [done|]. apply elem_of_lookup_imap. by exists i, p.
Qed.

Lemma sparse_ok d :
  pages_ok d -> storable d -> snapshot_sized d ->
  Forall (frame_ok (page_count d)) (sparse (pages d)) /\ zlen (sparse (pages d)) < 2 ^ 32.
Proof.
  intros H Hs [Hn Hsz]. split.
  - apply Forall_forall. intros [i p] [Hi _]%sparse_elem.
    destruct (po_page _ H i p Hi) as (Hok & Hps & _). pose proof (Hs i p Hi) as Hst.
    destruct (page_wire_fits p Hok Hst) as [Hf Hl]; [lia|].
    split; [|split; [by apply page_wire_wf|done]].
    simpl. apply lookup_lt_Some in Hi. pose proof (po_length _ H). unfold zlen in *. lia.
  - unfold sparse. pose proof (length_filter (fun ip : nat * Page => 0 < entry_count (header ip.2))
      (imap (fun i p => (i, p)) (pages d))) as Hl. rewrite length_imap in Hl.
    pose proof (po_length _ H). unfold zlen in *. lia.
Qed.

Lemma snapshot_bytes_ok d :
  pages_ok d -> storable d -> snapshot_sized d ->
  snapshot_bytes d = Done (DISK_FORMAT_MAGIC ++ le_bytes 8 (page_count d) ++
    le_bytes 4 (zlen (sparse (pages d))) ++ page_frames (sparse (pages d))).
Proof.
  intros H Hs Hz. destruct (sparse_ok d H Hs Hz) as [Hf Hl]. unfold snapshot_bytes.
  pose proof (zlen_nonneg (sparse (pages d))).
  rewrite (proj2 (fitsb_spec 32 _)) by (unfold fits; lia). cbn [obind].
  rewrite (frames_blob (page_count d)) by done. by rewrite <- !app_assoc.
Qed.

(** ** Reading them back *)

Definition restore (ps : list Page) (es : list (nat * Page)) : list Page :=
  foldl (fun ps ip => <[ip.1 := ip.2]> ps) ps es.

Lemma get_bytes_stands payload a xs n :
  stands payload a xs -> n = zlen xs -> get_bytes payload a n = Done xs.
Proof.
  intros H ->. unfold get_bytes. pose proof (sub_stands payload a (a + zlen xs) xs) as [_ E].
  by rewrite E.
Qed.

Lemma reload_pages_ok n es : Forall (frame_ok n) es -> forall payload pos ps pb,
  stands payload pos (page_frames es) -> zlen ps = n -> n < 2 ^ 32 ->
  exists pb', reload_pages (length es) payload pos ps pb = Done (restore ps es, pb').
Proof.
  induction 1 as [|ip es Hip _ IH]; intros payload pos ps pb Hst Hn Hn32; [by exists pb|].
  destruct ip as [i p]. destruct Hip as (Hi & Hwf & Hf & Hl). cbn [fst snd] in Hi, Hwf, Hf, Hl.
  change (page_frames ((i, p) :: es)) with (page_frame (i, p) ++ page_frames es) in Hst.
  apply stands_app in Hst as [Hip Hst]. unfold page_frame in Hip. simpl in Hip.
  rewrite app_assoc in Hip. apply stands_app in Hip as [Hhead Hbody].
  set (head := le_bytes 8 (Z.of_nat i) ++ le_bytes 4 (zlen (enc wire_page p))) in *.
  assert (zlen head = 12) as Hhl by (unfold head, zlen; len).
  assert (zlen (page_frame (i, p)) = 12 + zlen (enc wire_page p)) as Hfl.
  { unfold page_frame. simpl. rewrite app_assoc. fold head. rewrite zlen_app. lia. }
  pose proof (zlen_nonneg (enc wire_page p)).
  cbn [length reload_pages].
  rewrite (get_bytes_stands _ _ _ _ Hhead) by lia. cbn [obind].
  assert (take 8 head = le_bytes 8 (Z.of_nat i) /\ drop 8 head = le_bytes 4 (zlen (enc wire_page p))) as [Ht Hd].
  { unfold head. rewrite take_app_length', drop_app_length' by (by rewrite length_le_bytes). done. }
  rewrite Ht, Hd, !le_val_bytes by (unfold fits; simpl; lia).
  rewrite Hhl in Hbody. rewrite (get_bytes_stands _ _ _ _ Hbody) by done. cbn [obind].
  unfold ser. rewrite (from_wire_enc wire_page page_wf) by done. cbn [omap_err obind].
  replace (Z.of_nat i <? zlen ps) with true by lia. rewrite Nat2Z.id.
  rewrite Hfl in Hst. replace (pos + (12 + zlen (enc wire_page p))) with (pos + 12 + zlen (enc wire_page p)) in Hst by lia.
  apply IH; [done| |done]. unfold zlen in *. by rewrite length_insert.
Qed.

Lemma restore_length ps es : length (restore ps es) = length ps.
Proof.
  revert ps. induction es as [|ip es IH]; intros ps; simpl; [done|]. rewrite IH. apply length_insert.
Qed.

(** Frames of a function of the index: each listed page is restored. *)
Lemma restore_lookup es ps j :
  (forall i p p', (i, p) ∈ es -> (i, p') ∈ es -> p = p') ->
  (forall i p, (i, p) ∈ es -> (i < length ps)%nat) ->
  (forall p, (j, p) ∈ es -> restore ps es !! j = Some p) /\
  ((forall p, (j, p) ∉ es) -> restore ps es !! j = ps !! j).
Proof.
  induction es as [|[i p] es IH] using rev_ind; intros Hfun Hlt.
  - split; [by intros p ?%not_elem_of_nil|done].
  - destruct IH as [IH1 IH2].
    { intros i' q q' H1 H2. apply (Hfun i'); apply elem_of_app; by left. }
    { intros i' q H1. apply (Hlt i' q), elem_of_app. by left. }
    unfold restore in *. rewrite foldl_app. simpl.
    assert (i < length ps)%nat as Hi by (apply (Hlt i p), elem_of_app; right; by left).
    destruct (decide (i = j)) as [->|Hne].
    + rewrite list_lookup_insert_eq by (pose proof (restore_length ps es) as El; unfold restore in El; lia). split.
      * intros q Hq. f_equal. apply (Hfun j); [apply elem_of_app; right; by left|done].
      * intros Hn. destruct (Hn p). apply elem_of_app. right. by left.
    + rewrite list_lookup_insert_ne by done. split.
      * intros q [Hq|[= -> ->]%list_elem_of_singleton]%elem_of_app; [by apply IH1|done].
      * intros Hn. apply IH2. intros q Hq. apply (Hn q), elem_of_app. by left.
Qed.

(** ** The round trip *)

(** [d'] is [d] reopened: the same pages up to unused ones, nothing cached, no
    older page count searched. *)
Record reopened (d d' : DataFile) : Prop := {
  rp_ok : pages_ok d';
  rp_size : df_page_size d' = df_page_size d;
  rp_count : page_count d' = page_count d;
  rp_prev : previous_page_counts d' = [];
  rp_cache : cache d' = cache_new;
  rp_mode : mode d' = OnDisk;
  rp_pages : forall i p', pages d' !! i = Some p' -> exists p, pages d !! i = Some p /\
    (p' = p \/ (directory p = [] /\ page_new (df_page_size d) = Done p'));
  rp_at : forall i raw, at_page (pages d') i raw = at_page (pages d) i raw
}.

Lemma reload_spec d bytes :
  pages_ok d -> storable d -> snapshot_sized d -> snapshot_bytes d = Done bytes ->
  exists d', open_on_disk (df_page_size d) (Some bytes) = Done d' /\ reopened d d' /\ snapshot d' = Some bytes.
Proof.
  intros H Hs Hz Hb. rewrite (snapshot_bytes_ok d H Hs Hz) in Hb. injection Hb as <-.
  destruct (sparse_ok d H Hs Hz) as [Hf Hl]. destruct Hz as [Hn Hsz].
  pose proof (po_size _ H) as Hps. pose proof (po_count _ H) as Hpc. unfold HEADER_SIZE, DIR_ENTRY_SIZE in Hps.
  destruct (page_new_ok (df_page_size d)) as (fresh & Hnew & Hfok & Hfempty); [unfold HEADER_SIZE; lia|].
  assert (page_size fresh = df_page_size d /\ heap_offset (header fresh) = df_page_size d) as [Hf1 Hf2].
  { unfold page_new in Hnew. apply obind_done in Hnew as (_ & _ & Hnew). by injection Hnew as <-. }
  set (es := sparse (pages d)) in *. set (n := page_count d) in *.
  set (payload := le_bytes 8 n ++ le_bytes 4 (zlen es) ++ page_frames es).
  assert (stands payload 0 (le_bytes 8 n ++ le_bytes 4 (zlen es)) /\ stands payload 12 (page_frames es)) as [Hh Hfr].
  { assert (stands payload 0 ((le_bytes 8 n ++ le_bytes 4 (zlen es)) ++ page_frames es)) as Hst
      by (unfold payload; rewrite <- app_assoc; split; [done|apply has_at_all]).
    apply stands_app in Hst as [H1 H2]. split; [done|].
    rewrite zlen_app in H2. unfold zlen at 2 3 in H2. by rewrite !length_le_bytes in H2. }
  destruct (reload_pages_ok n es Hf payload 12 (replicate (Z.to_nat n) fresh) (replicate (Z.to_nat n) 0) Hfr)
    as (pb & Hre); [unfold zlen; rewrite length_replicate; lia|done|].
  pose proof (zlen_nonneg es) as Hes.
  unfold open_on_disk, open_with_mode. change (DEFAULT_PAGE_COUNT =? 0) with false. cbn iota.
  rewrite Hnew. cbn [obind].
  unfold reload_from_disk. rewrite decide_False by done. rewrite decide_True by done.
  fold payload. change (drop 4 (DISK_FORMAT_MAGIC ++ payload)) with payload.
  rewrite (get_bytes_stands _ _ _ _ Hh) by (unfold zlen; len). cbn [obind].
  rewrite take_app_length', drop_app_length' by (by rewrite length_le_bytes).
  rewrite !le_val_bytes by (unfold fits; simpl; lia).
  replace (n =? 0) with false by lia. cbn [df_page_size]. rewrite Hnew. cbn [obind].
  replace (Z.to_nat (zlen es)) with (length es) by (unfold zlen; lia). 
  change (drop 4 (Byte.x57 :: Byte.x44 :: Byte.x42 :: Byte.x53 :: payload)) with payload.
  rewrite Hre. cbn [obind].
  eexists. split; [done|]. split; [|done].
  assert (forall i p, (i, p) ∈ es -> (i < length (replicate (Z.to_nat n) fresh))%nat) as Hlt.
  { intros i p [Hi _]%sparse_elem. apply lookup_lt_Some in Hi. rewrite length_replicate.
    pose proof (po_length _ H). unfold zlen in *. lia. }
  assert (forall i p p', (i, p) ∈ es -> (i, p') ∈ es -> p = p') as Hfun.
  { intros i p p' [H1 _]%sparse_elem [H2 _]%sparse_elem. congruence. }
  assert (forall i p', restore (replicate (Z.to_nat n) fresh) es !! i = Some p' ->
    exists p, pages d !! i = Some p /\ (p' = p \/ (directory p = [] /\ p' = fresh))) as Hpages.
  { intros i p' Hi. destruct (restore_lookup es (replicate (Z.to_nat n) fresh) i Hfun Hlt) as [R1 R2].
    assert (i < length (pages d))%nat as Hlen.
    { apply lookup_lt_Some in Hi. rewrite restore_length, length_replicate in Hi.
      pose proof (po_length _ H). unfold zlen in *. lia. }
    destruct (lookup_lt_is_Some_2 _ _ Hlen) as [p Hp]. exists p. split; [done|].
    destruct (po_page _ H i p Hp) as (Hok & _). destruct (pk_count _ Hok) as [Hc _].
    destruct (decide (0 < entry_count (header p))) as [Hpos|Hzero].
    - left. rewrite (R1 p) in Hi; [congruence|]. by apply sparse_elem.
    - right. split; [apply nil_length_inv; unfold zlen in *; lia|].
      rewrite R2 in Hi; [by apply lookup_replicate in Hi as [-> _]|].
      intros q [Hq Hq2]%sparse_elem. congruence. }
  constructor; simpl; try done.
  - constructor; simpl; [done| |done| |by intros c ?%not_elem_of_nil].
    + unfold zlen. rewrite restore_length, length_replicate. lia.
    + intros i p' (p & Hp & [->|[_ ->]])%Hpages; [by apply (po_page _ H i)|by split_and!].
  - intros i p' (p & Hp & Hc)%Hpages. exists p. split; [done|]. destruct Hc as [->|[? ->]]; [by left|by right].
  - intros i raw. unfold at_page. destruct (restore _ _ !! i) as [p'|] eqn:Hi.
    + destruct (Hpages i p' Hi) as (p & -> & [->|[Hd ->]]); [done|]. simpl. rewrite Hfempty.
      unfold contents. by rewrite Hd.
    + apply lookup_ge_None in Hi. rewrite restore_length, length_replicate in Hi.
      destruct (pages d !! i) eqn:E; [|done]. apply lookup_lt_Some in E.
      pose proof (po_length _ H). unfold zlen in *. lia.
Qed.

Lemma flush_reload d :
  pages_ok d -> storable d -> snapshot_sized d -> mode d = OnDisk ->
  exists bytes d', df_flush d = (Done tt, with_snapshot (Some bytes) d) /\
    open_on_disk (df_page_size d) (Some bytes) = Done d' /\ reopened d d'.
Proof.
  intros H Hs Hz Hm. pose proof (snapshot_bytes_ok d H Hs Hz) as Hb.
  destruct (reload_spec d _ H Hs Hz Hb) as (d' & Hopen & Hre & _).
  eexists _, d'. split; [unfold df_flush, st_bind, st_lift, st_modify; rewrite Hm, Hb; done|by split].
Qed.

(** C11: a snapshot loses nothing: flushing succeeds, the bytes open to a file with
    the same page count in which every page holds the same values, and when no
    growth is unfinished every lookup gives what it gave. *)
Theorem snapshot_roundtrip (d : DataFile) :
  pages_ok d -> storable d -> snapshot_sized d -> mode d = OnDisk ->
  exists bytes d', df_flush d = (Done tt, with_snapshot (Some bytes) d) /\
    open_on_disk (df_page_size d) (Some bytes) = Done d' /\ reopened d d' /\
    (previous_page_counts d = [] -> forall key raw,
       fst (lookup_at_key key raw d') = fst (lookup_at_key key raw d)).
Proof.
  intros H Hs Hz Hm. destruct (flush_reload d H Hs Hz Hm) as (bytes & d' & Hf & Hopen & Hre).
  exists bytes, d'. split_and!; [done..|]. intros Hprev key raw.
  rewrite !lookup_spec by (done || apply Hre). unfold fst. f_equal.
  unfold counts. rewrite Hprev, (rp_prev _ _ Hre), (rp_count _ _ Hre).
  apply search_ext. intros i. apply (rp_at _ _ Hre).
Qed.

(** ** A page file on disk, for the witnesses *)

Definition disk_file (size : Z) : DataFile :=
  match open_with_mode size DEFAULT_PAGE_COUNT OnDisk with
  | Done d => d
  | _ => {| df_page_size := 0; mode := InMemory; page_count := 0; previous_page_counts := [];
            pages := []; page_bytes := []; cache := cache_new; journal_tx := None; snapshot := None |}
  end.

Lemma disk_file_ok size :
  1076 <= size < 2 ^ 26 ->
  let d := disk_file size in
  open_on_disk size None = Done d /\ pages_ok d /\ bulky d /\ placed d /\ (forall raw, at_home d raw) /\
  storable d /\ snapshot_sized d /\ mode d = OnDisk /\ previous_page_counts d = [] /\
  df_page_size d = size /\ page_count d = DEFAULT_PAGE_COUNT /\ cache d = cache_new /\
  (forall i p, pages d !! i = Some p ->
     directory p = [] /\ entry_count (header p) = 0 /\ heap_offset (header p) = size).
Proof.
  intros Hs d. destruct (open_spec size DEFAULT_PAGE_COUNT OnDisk) as (d0 & E & H1 & H2 & H3 & H4 & H5);
    [lia|unfold DIR_ENTRY_SIZE; lia|by vm_compute|].
  assert (d = d0) as -> by (unfold d, disk_file; by rewrite E).
  unfold open_on_disk. rewrite E. cbn [obind]. split; [done|].
  unfold open_with_mode in E. change (DEFAULT_PAGE_COUNT =? 0) with false in E. cbn iota in E.
  apply obind_done in E as (p & Hp & E).
  assert (header p = header_new size /\ directory p = []) as [Hh Hd].
  { unfold page_new in Hp. apply obind_done in Hp as (_ & _ & Hp). by injection Hp as <-. }
  remember (Z.to_nat DEFAULT_PAGE_COUNT) as n eqn:Hn in E. injection E as E. unfold storable, snapshot_sized. rewrite <- E in *. cbn [pages mode previous_page_counts df_page_size page_count cache] in *.
  do 4 (split; [done|]). split; [|split; [split; [by vm_compute|lia]|]].
  - intros i q [-> _]%lookup_replicate. unfold storable_page. rewrite Hh, Hd. split_and!; by try constructor.
  - do 5 (split; [done|]). intros i q [-> _]%lookup_replicate. by rewrite Hh, Hd.
Qed.

Lemma snapshot_roundtrip_witness :
  exists bytes d', df_flush (disk_file 4096) = (Done tt, with_snapshot (Some bytes) (disk_file 4096)) /\
    open_on_disk (df_page_size (disk_file 4096)) (Some bytes) = Done d' /\ reopened (disk_file 4096) d' /\
    (previous_page_counts (disk_file 4096) = [] -> forall key raw,
       fst (lookup_at_key key raw d') = fst (lookup_at_key key raw (disk_file 4096))).
Proof.
  destruct (disk_file_ok 4096) as (_ & H1 & _ & _ & _ & H2 & H3 & H4 & _); [lia|].
  by apply (snapshot_roundtrip (disk_file 4096)).
Defined.
