(* ===== verification/Live.v ===== *)
(** * The live-record tracker (wavedb-storage/src/live.rs)

    The tracker is written against the four store operations it uses, collected
    in the class [LiveStore]; the page file is the instance the program has.
    [LiveLaws] states what the tracker relies on, and the theorems are proved from
    it alone. *)
From S2P Require Import Prelude Wire WireOk Errors Ids Page Anchor Hash Journal DataFile.

(** ** The store interface *)

Class LiveStore (S : Type) : Type := {
  ls_read_tracker : Z -> Z -> ST S StorageError (option AnchorSlot);
  ls_write_tracker : Z -> Z -> AnchorSlot -> ST S StorageError unit;
  ls_read_record : Id -> ST S StorageError (option VersionedRecord);
  ls_write_record : VersionedRecord -> ST S StorageError unit
}.

#[export] Instance datafile_store : LiveStore DataFile := {|
  ls_read_tracker := read_nonunique_tracker;
  ls_write_tracker := write_nonunique_tracker;
  ls_read_record := read_versioned;
  ls_write_record := write_versioned
|}.

(** ** Data *)

Definition LIVE_SEGMENT_CAP : nat := 256.
Definition LIVE_TRACKER_SHARD : Z := 0xFFF.

Record LiveHead : Type := { sealed : Z; open : list Z }.

Definition default_head : LiveHead := {| sealed := 0; open := [] |}.

Definition wire_ids : Wire (list Z) := wire_vec (wire_uint 16).

Definition wire_live_head : Wire LiveHead :=
  wire_struct (fun h => (sealed h, open h)) (fun '(s, o) => {| sealed := s; open := o |})
    (wire_pair (wire_uint 8) wire_ids).

Definition segment_id (struct_id tenant segment_no : Z) : Id :=
  Id_new tenant LIVE_TRACKER_SHARD struct_id segment_no.

(** A wire error rewrapped with a message. *)
Definition other_err {A} (msg : string) (m : WireResult A) : StorageResult A :=
  omap_err (fun _ => Other msg) m.

Section tracker.
Context {S : Type} `{LiveStore S}.
Abbreviation M := (ST S StorageError).

(** ** Operations *)

Definition live_head (struct_id tenant : Z) : M LiveHead :=
  let! slot := ls_read_tracker struct_id tenant in
  match slot with
  | None => st_ret default_head
  | Some slot =>
    match inline_bytes slot with
    | None => st_ret default_head
    | Some bytes => st_lift (other_err "live head decode" (from_wire wire_live_head bytes))
    end
  end.

Definition write_live_head (struct_id tenant : Z) (head : LiveHead) : M unit :=
  let! bytes := st_lift (other_err "live head encode" (to_wire wire_live_head head)) in
  let newest := default 0 (last (open head)) in
  ls_write_tracker struct_id tenant
    (slot_inline bytes (Z.land (wrap 64 newest) 0xFFFFFFFFFFFF)).

Definition read_segment (struct_id tenant segment_no : Z) : M (list Z) :=
  let! rec := ls_read_record (segment_id struct_id tenant segment_no) in
  match rec with
  | None => st_ret []
  | Some rec => st_lift (other_err "live segment decode" (from_wire wire_ids (vr_data rec)))
  end.

Definition write_segment (struct_id tenant segment_no : Z) (ids : list Z) : M unit :=
  let! data := st_lift (other_err "live segment encode" (to_wire wire_ids ids)) in
  ls_write_record (record_new (segment_id struct_id tenant segment_no) data).

Definition live_append (struct_id tenant id : Z) : M unit :=
  let! head := live_head struct_id tenant in
  let open' := open head ++ [id] in
  let! head :=
    if decide (LIVE_SEGMENT_CAP <= length open')%nat then
      do! write_segment struct_id tenant (sealed head) open' in
      do! st_lift (guard (fitsb 64 (sealed head + 1))) in
      st_ret {| sealed := sealed head + 1; open := [] |}
    else st_ret {| sealed := sealed head; open := open' |} in
  write_live_head struct_id tenant head.

Definition live_set_single (struct_id tenant id : Z) : M unit :=
  write_live_head struct_id tenant {| sealed := 0; open := [id] |}.

(** [Vec::remove] at the first position of [id]. *)
Fixpoint remove_first (id : Z) (ids : list Z) : option (list Z) :=
  match ids with
  | [] => None
  | x :: ids => if x =? id then Some ids else (fun r => x :: r) <$> remove_first id ids
  end.

(** The sealed segments from the newest down. *)
Fixpoint remove_sealed (struct_id tenant id : Z) (n : nat) : M bool :=
  match n with
  | O => st_ret false
  | Datatypes.S n =>
    let seg := Z.of_nat n in
    let! ids := read_segment struct_id tenant seg in
    match remove_first id ids with
    | Some ids => do! write_segment struct_id tenant seg ids in st_ret true
    | None => remove_sealed struct_id tenant id n
    end
  end.

Definition live_remove (struct_id tenant id : Z) : M bool :=
  let! head := live_head struct_id tenant in
  match remove_first id (open head) with
  | Some open' =>
    do! write_live_head struct_id tenant {| sealed := sealed head; open := open' |} in
    st_ret true
  | None => remove_sealed struct_id tenant id (Z.to_nat (sealed head))
  end.

(** Segments [from .. from + n]. *)
Fixpoint read_segments (struct_id tenant from : Z) (n : nat) : M (list Z) :=
  match n with
  | O => st_ret []
  | Datatypes.S n =>
    let! ids := read_segment struct_id tenant from in
    let! rest := read_segments struct_id tenant (from + 1) n in
    st_ret (ids ++ rest)
  end.

(** The capacity reserved for the result is bounded by [isize::MAX] bytes. *)
Definition live_ids (struct_id tenant : Z) : M (list Z) :=
  let! head := live_head struct_id tenant in
  do! st_lift (guard (fitsb 63
        ((sealed head * Z.of_nat LIVE_SEGMENT_CAP + zlen (open head)) * 16))) in
  let! out := read_segments struct_id tenant 0 (Z.to_nat (sealed head)) in
  st_ret (out ++ open head).

(** The sort key [(created_at, id)], compared lexicographically. *)
Definition live_le (a b : Z) : bool :=
  (created_at a <? created_at b) || ((created_at a =? created_at b) && (a <=? b)).

(** [Vec::dedup]: drop repetitions of the previous element. *)
Fixpoint dedup (l : list Z) : list Z :=
  match l with
  | x :: (y :: _) as l' => if x =? y then dedup l' else x :: dedup l'
  | _ => l
  end.

(** [chunks_exact]: the full chunks are written as segments, the remainder
    is returned with the next segment number. *)
Fixpoint write_chunks (fuel : nat) (struct_id tenant seg : Z) (ids : list Z)
    : M (Z * list Z) :=
  if decide (LIVE_SEGMENT_CAP <= length ids)%nat then
    match fuel with
    | O => st_lift Fault
    | Datatypes.S fuel =>
      do! write_segment struct_id tenant seg (take LIVE_SEGMENT_CAP ids) in
      write_chunks fuel struct_id tenant (seg + 1) (drop LIVE_SEGMENT_CAP ids)
    end
  else st_ret (seg, ids).

Definition live_rebuild (struct_id tenant : Z) (replayed : list Z) : M unit :=
  let! ids := live_ids struct_id tenant in
  let ids := dedup (sort_by live_le (ids ++ replayed)) in
  let! (seg, rest) := write_chunks (length ids) struct_id tenant 0 ids in
  write_live_head struct_id tenant {| sealed := seg; open := rest |}.
End tracker.
