(* ===== verification/LiveOk.v ===== *)
(** * Correctness of the live-record tracker

    [LiveLaws] is what a store promises the tracker: as long as there is room for
    [n] more writes, reads return the current value of a key and a write replaces
    that value and no other.  The tracker then implements a list of identifiers
    per [(struct, tenant)]. *)
From S2P Require Import Prelude Wire WireOk Errors Ids Page Anchor Live.

Definition key_ok (k t : Z) : Prop := fits 20 k /\ fits 48 t.

(** The largest encoding the tracker writes: a head with a full open list. *)
Definition LIVE_VALUE_MAX : Z := 4352.

Definition small_slot (slot : AnchorSlot) : Prop :=
  slot_wf slot /\ exists bytes, slot_to_bytes slot = Done bytes /\ 33 <= zlen bytes <= LIVE_VALUE_MAX.
Definition small_record (rec : VersionedRecord) : Prop :=
  record_wf rec /\ exists bytes, record_to_bytes rec = Done bytes /\ 33 <= zlen bytes <= LIVE_VALUE_MAX.

(** Identifiers of segments: a [u128] whose shard is the reserved one. *)
Definition segment_like (id : Id) : Prop := fits 128 id /\ shard_id id = LIVE_TRACKER_SHARD.

Class LiveLaws (S : Type) `{LiveStore S} : Type := {
  lv_ready : nat -> S -> Prop;
  lv_tracker : S -> Z -> Z -> option AnchorSlot;
  lv_record : S -> Id -> option VersionedRecord;
  lv_kept : S -> S -> Prop;
  lv_kept_refl : forall s, lv_kept s s;
  lv_kept_trans : forall s1 s2 s3, lv_kept s1 s2 -> lv_kept s2 s3 -> lv_kept s1 s3;
  lv_weaken : forall n s, lv_ready (Datatypes.S n) s -> lv_ready n s;
  lv_read_tracker : forall n s k t, lv_ready n s -> key_ok k t ->
    ls_read_tracker k t s = (Done (lv_tracker s k t), s);
  lv_read_record : forall n s id, lv_ready n s -> segment_like id ->
    ls_read_record id s = (Done (lv_record s id), s);
  lv_write_tracker : forall n s k t slot,
    lv_ready (Datatypes.S n) s -> key_ok k t -> small_slot slot ->
    exists s', ls_write_tracker k t slot s = (Done tt, s') /\ lv_ready n s' /\ lv_kept s s' /\
      (forall k' t', key_ok k' t' -> lv_tracker s' k' t' =
         if decide (k' = k /\ t' = t) then Some slot else lv_tracker s k' t') /\
      (forall id, segment_like id -> lv_record s' id = lv_record s id);
  lv_write_record : forall n s rec,
    lv_ready (Datatypes.S n) s -> segment_like (vr_id rec) -> small_record rec ->
    exists s', ls_write_record rec s = (Done tt, s') /\ lv_ready n s' /\ lv_kept s s' /\
      (forall k t, key_ok k t -> lv_tracker s' k t = lv_tracker s k t) /\
      (forall id, segment_like id -> lv_record s' id =
         if decide (id = vr_id rec) then Some rec else lv_record s id)
}.

(** ** Encodings *)

#[export] Instance ids_ok : WireOk wire_ids (Forall (fits 128)).
Proof. apply (vec_ok (wire_uint 16) (fits 128)). Defined.

Definition head_wf (h : LiveHead) : Prop := fits 64 (sealed h) /\ Forall (fits 128) (open h).

#[export] Instance head_ok : WireOk wire_live_head head_wf.
Proof. eapply struct_ok; [apply _|..]; by intros []. Defined.

Lemma ids_encode ids :
  Forall (fits 128) ids -> (length ids <= LIVE_SEGMENT_CAP)%nat ->
  exists bytes, to_wire wire_ids ids = Done bytes /\ zlen bytes = 4 + 16 * zlen ids /\
    from_wire wire_ids bytes = Done ids.
Proof.
  intros Hids Hl. unfold LIVE_SEGMENT_CAP in Hl.
  destruct (encodes wire_ids _ ids Hids) as (bytes & E & Hz & Hd).
  - etransitivity; [exact (vec_fixed_fits (wire_uint 16) (fits 128) ids eq_refl Hids)|].
    apply fitsb_spec. unfold fits. simpl. lia.
  - exists bytes. split; [done|]. split; [|done]. rewrite Hz. cbn. unfold zlen. lia.
Qed.

Lemma head_encode h :
  head_wf h -> (length (open h) <= LIVE_SEGMENT_CAP)%nat ->
  exists bytes, to_wire wire_live_head h = Done bytes /\ zlen bytes = 12 + 16 * zlen (open h) /\
    from_wire wire_live_head bytes = Done h.
Proof.
  intros Hh Hl. unfold LIVE_SEGMENT_CAP in Hl.
  destruct (encodes wire_live_head _ h Hh) as (bytes & E & Hz & Hd).
  - etransitivity; [exact (vec_fixed_fits (wire_uint 16) (fits 128) (open h) eq_refl (proj2 Hh))|].
    apply fitsb_spec. unfold fits. simpl. lia.
  - exists bytes. split; [done|]. split; [|done]. rewrite Hz. cbn. unfold zlen. lia.
Qed.

Lemma forallb_true {A} (l : list A) : forallb (fun _ => true) l = true.
Proof. by induction l. Qed.

Lemma length_byte_units bytes :
  length (concat (map (fun v => le_bytes 1 (byte_val v)) bytes)) = length bytes.
Proof. induction bytes as [|b l IH]; simpl; [done|]. by rewrite length_app, IH, length_le_bytes. Qed.

(** The slots of a value built from one byte string of bounded length. *)
Ltac slots_small :=
  cbn; rewrite ?forallb_true, ?length_byte_units;
  rewrite ?length_stacks by (by apply Forall_true);
  autorewrite with len; rewrite ?length_stacks by (by apply Forall_true);
  cbn; unfold fitsb, zlen in *; change (2 ^ 32) with 4294967296;
  rewrite ?andb_true_iff, ?Z.leb_le, ?Z.ltb_lt; repeat split; lia.

Lemma inline_small bytes v :
  fits 48 v -> 12 <= zlen bytes <= 16 + 16 * 256 -> small_slot (slot_inline bytes v).
Proof.
  intros Hv Hl. assert (slot_wf (slot_inline bytes v)) as Hwf.
  { split; [|constructor]. split; [eapply fits_mono; [|done]; lia|].
    split; [by apply Forall_true | constructor]. }
  destruct (encodes wire_slot slot_wf (slot_inline bytes v) Hwf) as (out & E & Hz & _);
    [slots_small|].
  split; [done|]. exists out. unfold slot_to_bytes. rewrite E. split; [done|]. rewrite Hz. cbn.
  unfold LIVE_VALUE_MAX, zlen in *. lia.
Qed.

Lemma record_small id bytes :
  fits 128 id -> zlen bytes <= 16 + 16 * 256 -> small_record (record_new id bytes).
Proof.
  intros Hid Hl. assert (record_wf (record_new id bytes)) as Hwf.
  { split; [done|]. split; [by apply Forall_true|]. done. }
  destruct (encodes wire_record record_wf (record_new id bytes) Hwf) as (out & E & Hz & _);
    [slots_small|].
  split; [done|]. exists out. unfold record_to_bytes. rewrite E. split; [done|]. rewrite Hz. cbn.
  unfold LIVE_VALUE_MAX, zlen in *. lia.
Qed.

(** ** The tracker's state *)

Lemma segment_id_like k t n : segment_like (segment_id k t n).
Proof.
  unfold segment_like, segment_id.
  destruct (Id_new_fields t LIVE_TRACKER_SHARD k n) as (? & _ & -> & _). done.
Qed.

Lemma segment_id_inj k t n k' t' n' :
  key_ok k t -> key_ok k' t' -> fits 48 n -> fits 48 n' ->
  segment_id k t n = segment_id k' t' n' -> k = k' /\ t = t' /\ n = n'.
Proof.
  intros [Hk Ht] [Hk' Ht'] Hn Hn' E. unfold segment_id in E.
  destruct (Id_new_fields t LIVE_TRACKER_SHARD k n) as (_ & E1 & _ & E2 & E3).
  destruct (Id_new_fields t' LIVE_TRACKER_SHARD k' n') as (_ & E1' & _ & E2' & E3').
  rewrite <- E in E1', E2', E3'. unfold fits in *.
  rewrite Z.mod_small in E1, E2, E3, E1', E2', E3' by lia. split_and!; congruence.
Qed.

(** An open list or segment the tracker can have written. *)
Definition id_list (n : nat) (ids : list Z) : Prop := Forall (fits 128) ids /\ (length ids <= n)%nat.

Section laws.
Context {S : Type} `{LiveLaws S}.

(** The head of [(k, t)] is [sealed] segments and the open list [opn]. *)
Definition head_at (s : S) (k t : Z) (sealed : Z) (opn : list Z) : Prop :=
  match lv_tracker s k t with
  | None => sealed = 0 /\ opn = []
  | Some slot => exists bytes, inline_bytes slot = Some bytes /\
      from_wire wire_live_head bytes = Done {| sealed := sealed; open := opn |}
  end.

Definition segment_at (s : S) (k t : Z) (n : Z) (ids : list Z) : Prop :=
  exists rec, lv_record s (segment_id k t n) = Some rec /\
    from_wire wire_ids (vr_data rec) = Done ids.

(** The store holds, for [(k, t)], the sealed segments [segs] and the open list. *)
Record holds (s : S) (k t : Z) (segs : list (list Z)) (opn : list Z) : Prop := {
  ho_head : head_at s k t (zlen segs) opn;
  ho_open : id_list 255 opn;
  ho_segs : forall i ids, segs !! i = Some ids ->
    segment_at s k t (Z.of_nat i) ids /\ id_list 256 ids;
  ho_count : zlen segs <= 2 ^ 48
}.

(** [(k, t)] tracks the list [l], in at most [m] sealed segments. *)
Definition tracks (s : S) (k t : Z) (m : Z) (l : list Z) : Prop :=
  exists segs opn, holds s k t segs opn /\ l = concat segs ++ opn /\ zlen segs <= m.

Lemma ready_le n m s : (m <= n)%nat -> lv_ready n s -> lv_ready m s.
Proof. induction 1 as [|n Hle IH]; [done|]. intros Hr. by apply IH, lv_weaken. Qed.

Lemma read_head n s k t sl opn :
  lv_ready n s -> key_ok k t -> head_at s k t sl opn ->
  live_head k t s = (Done {| sealed := sl; open := opn |}, s).
Proof.
  intros Hr Hk Hh. unfold live_head, st_bind. rewrite (lv_read_tracker n) by done.
  unfold head_at in Hh. destruct (lv_tracker s k t) as [slot|].
  - destruct Hh as (bytes & -> & E). unfold st_lift, other_err. by rewrite E.
  - by destruct Hh as [-> ->].
Qed.

Lemma read_seg n s k t i ids :
  lv_ready n s -> segment_at s k t i ids -> read_segment k t i s = (Done ids, s).
Proof.
  intros Hr (rec & E & Hd). unfold read_segment, st_bind.
  rewrite (lv_read_record n) by (done || apply segment_id_like). rewrite E.
  unfold st_lift, other_err. by rewrite Hd.
Qed.

(** What a write leaves alone. *)
Definition heads_but (k t : Z) (s s' : S) : Prop := lv_kept s s' /\ forall k' t', key_ok k' t' ->
  (k', t') <> (k, t) -> lv_tracker s' k' t' = lv_tracker s k' t'.
Definition segments_but (k t i : Z) (s s' : S) : Prop := lv_kept s s' /\ forall k' t' i', key_ok k' t' ->
  fits 48 i' -> (k', t', i') <> (k, t, i) ->
  lv_record s' (segment_id k' t' i') = lv_record s (segment_id k' t' i').

Lemma write_head n s k t sl opn :
  lv_ready (Datatypes.S n) s -> key_ok k t -> fits 64 sl -> id_list 255 opn ->
  exists s', write_live_head k t {| sealed := sl; open := opn |} s = (Done tt, s') /\
    lv_ready n s' /\ head_at s' k t sl opn /\ heads_but k t s s' /\
    forall id, segment_like id -> lv_record s' id = lv_record s id.
Proof.
  intros Hr Hk Hsl [Ho Hl].
  destruct (head_encode {| sealed := sl; open := opn |}) as (bytes & E & Hz & Hd);
    [done | unfold LIVE_SEGMENT_CAP; simpl; lia|].
  unfold write_live_head, st_bind, st_lift, other_err. rewrite E. simpl.
  edestruct (lv_write_tracker n s k t) as (s' & -> & Hr' & Hkept & Ht & Hrec); [done|done| |].
  - apply inline_small.
    + change 0xFFFFFFFFFFFF with (Z.ones 48). rewrite Z.land_ones by lia.
      by apply (wrap_fits 48).
    + rewrite Hz. simpl. unfold zlen. lia.
  - exists s'. split; [done|]. split; [done|]. split; [|split; [|done]].
    + unfold head_at. rewrite Ht, decide_True by done. by exists bytes.
    + split; [done|]. intros k' t' Hk' Hne. rewrite Ht by done. by rewrite decide_False by naive_solver.
Qed.

Lemma write_seg n s k t i ids :
  lv_ready (Datatypes.S n) s -> key_ok k t -> fits 48 i -> id_list 256 ids ->
  exists s', write_segment k t i ids s = (Done tt, s') /\
    lv_ready n s' /\ segment_at s' k t i ids /\ segments_but k t i s s' /\
    forall k' t', key_ok k' t' -> lv_tracker s' k' t' = lv_tracker s k' t'.
Proof.
  intros Hr Hk Hi [Hids Hl].
  destruct (ids_encode ids) as (bytes & E & Hz & Hd); [done|done|].
  unfold write_segment, st_bind, st_lift, other_err. rewrite E. simpl.
  edestruct (lv_write_record n s) as (s' & -> & Hr' & Hkept & Ht & Hrec); [done| | |].
  - apply segment_id_like.
  - apply record_small; [apply segment_id_like|]. rewrite Hz. unfold zlen. lia.
  - exists s'. split; [done|]. split; [done|]. split; [|split; [|done]].
    + exists (record_new (segment_id k t i) bytes). split; [|done].
      rewrite Hrec by apply segment_id_like. by rewrite decide_True.
    + split; [done|]. intros k' t' i' Hk' Hi' Hne. rewrite Hrec by apply segment_id_like.
      rewrite decide_False; [done|]. simpl. intros Eid.
      apply segment_id_inj in Eid as (-> & -> & ->); done.
Qed.

Lemma segment_kept s s' k t i ids :
  lv_record s' (segment_id k t i) = lv_record s (segment_id k t i) ->
  segment_at s k t i ids -> segment_at s' k t i ids.
Proof. intros E (rec & Hr & Hd). exists rec. by rewrite E. Qed.

Lemma head_kept s s' k t sl opn :
  lv_tracker s' k t = lv_tracker s k t -> head_at s k t sl opn -> head_at s' k t sl opn.
Proof. intros E. unfold head_at. by rewrite E. Qed.

Lemma holds_index s k t segs opn i ids :
  holds s k t segs opn -> segs !! i = Some ids -> fits 48 (Z.of_nat i).
Proof.
  intros Hh Hi%lookup_lt_Some. pose proof (ho_count _ _ _ _ _ Hh). unfold fits, zlen in *. lia.
Qed.

(** Nothing tracked under another key is changed. *)
Definition others_kept (k t : Z) (s s' : S) : Prop := lv_kept s s' /\ forall k' t' segs opn, key_ok k' t' ->
  (k', t') <> (k, t) -> holds s k' t' segs opn -> holds s' k' t' segs opn.

Lemma others_kept_trans k t s1 s2 s3 :
  others_kept k t s1 s2 -> others_kept k t s2 s3 -> others_kept k t s1 s3.
Proof.
  intros [K1 H1] [K2 H2]. split; [by eapply lv_kept_trans|].
  intros k' t' segs opn Hk Hne Hh. by apply H2, H1.
Qed.

Lemma others_head k t s s' :
  heads_but k t s s' -> (forall id, segment_like id -> lv_record s' id = lv_record s id) ->
  others_kept k t s s'.
Proof.
  intros [Hkp Hb] Hr. split; [done|]. intros k' t' segs opn Hk Hne [Hhd Ho Hs Hc]. constructor; [|done| |done].
  - eapply head_kept; [|done]. by apply Hb.
  - intros i ids Hi. destruct (Hs i ids Hi) as [Hseg ?]. split; [|done].
    eapply segment_kept; [|done]. apply Hr, segment_id_like.
Qed.

Lemma others_segment k t i s s' :
  segments_but k t i s s' -> (forall k' t', key_ok k' t' -> lv_tracker s' k' t' = lv_tracker s k' t') ->
  others_kept k t s s'.
Proof.
  intros [Hkp Hb] Ht. split; [done|]. intros k' t' segs opn Hk Hne Hh. pose proof Hh as [Hhd Ho Hs Hc].
  constructor; [|done| |done].
  - eapply head_kept; [|done]. by apply Ht.
  - intros j ids Hj. destruct (Hs j ids Hj) as [Hseg ?]. split; [|done].
    eapply segment_kept; [|done]. apply Hb; [done|by eapply holds_index|naive_solver].
Qed.

(** A head written after its segments gives the list it is meant to. *)
Lemma holds_head s s' k t segs opn :
  head_at s' k t (zlen segs) opn -> id_list 255 opn -> zlen segs <= 2 ^ 48 ->
  (forall id, segment_like id -> lv_record s' id = lv_record s id) ->
  (forall i ids, segs !! i = Some ids -> segment_at s k t (Z.of_nat i) ids /\ id_list 256 ids) ->
  holds s' k t segs opn.
Proof.
  intros Hh Ho Hc Hr Hs. constructor; [done..| |done].
  intros i ids Hi. destruct (Hs i ids Hi) as [Hseg ?]. split; [|done].
  eapply segment_kept; [|done]. apply Hr, segment_id_like.
Qed.

Lemma fits48_64 i : fits 48 i -> fits 64 i.
Proof. apply fits_mono. lia. Qed.

(** *** Appending *)

Lemma append_spec n s k t segs opn id :
  lv_ready (2 + n) s -> key_ok k t -> fits 128 id -> holds s k t segs opn ->
  zlen segs < 2 ^ 48 ->
  exists s' segs' opn', live_append k t id s = (Done tt, s') /\ lv_ready n s' /\
    holds s' k t segs' opn' /\ concat segs' ++ opn' = concat segs ++ opn ++ [id] /\
    zlen segs' <= zlen segs + 1 /\ others_kept k t s s'.
Proof.
  intros Hr Hk Hid Hh Hc. pose proof Hh as [Hhd [Ho Hol] Hs _].
  assert (0 <= zlen segs) by apply zlen_nonneg.
  unfold live_append, st_bind at 1. rewrite (read_head _ _ _ _ _ _ Hr Hk Hhd). cbn [open sealed].
  assert (Forall (fits 128) (opn ++ [id])) as Hf by (apply Forall_app; by split; [|constructor]).
  assert (length (opn ++ [id]) = length opn + 1)%nat as Hl' by (rewrite length_app; simpl; lia).
  destruct (decide (LIVE_SEGMENT_CAP <= length (opn ++ [id]))%nat) as [Hfull|Hroom];
    unfold LIVE_SEGMENT_CAP in *.
  - assert (id_list 256 (opn ++ [id])) as Hil by (split; [done|lia]).
    destruct (write_seg _ s k t (zlen segs) (opn ++ [id]) Hr Hk) as (s1 & E1 & Hr1 & Hs1 & Hb1 & Ht1);
      [unfold fits; lia | done|].
    destruct (write_head n s1 k t (zlen segs + 1) []) as (s2 & E2 & Hr2 & Hh2 & Hb2 & Hrec2);
      [done|done|unfold fits; lia|split; [constructor|simpl; lia]|].
    exists s2, (segs ++ [opn ++ [id]]), []. unfold st_bind at 1, st_bind at 1. rewrite E1.
    unfold st_bind at 1, st_lift, guard. replace (fitsb 64 (zlen segs + 1)) with true by (unfold fitsb; lia).
    unfold st_bind, st_ret. rewrite E2. split; [done|]. split; [done|].
    assert (zlen (segs ++ [opn ++ [id]]) = zlen segs + 1) as Ez by (rewrite zlen_app; done).
    split; [|split; [|split; [lia|]]].
    + eapply (holds_head s1); [by rewrite Ez|split; [constructor|simpl; lia]|lia|done|].
      intros i ids [Hi|[-> Hi]]%lookup_snoc_Some.
      * destruct (Hs i ids ltac:(tauto)) as [Hseg ?]. split; [|done].
        eapply segment_kept; [|done]. apply (proj2 Hb1); [done|by eapply holds_index, Hi|].
        unfold zlen. intros [= ?]. lia.
      * subst ids. done.
    + rewrite concat_app. simpl. by rewrite !app_nil_r, app_assoc.
    + eapply others_kept_trans; [by eapply others_segment | by apply others_head].
  - destruct (write_head (Datatypes.S n) s k t (zlen segs) (opn ++ [id])) as (s1 & E1 & Hr1 & Hh1 & Hb1 & Hrec1);
      [done|done|apply fits48_64; unfold fits; lia|split; [done|lia]|].
    exists s1, segs, (opn ++ [id]). unfold st_bind, st_ret. rewrite E1. split; [done|].
    split; [by apply lv_weaken|]. split; [|split; [done|split; [lia|by apply others_head]]].
    eapply holds_head; [done|split; [done|lia]|lia|done|done].
Qed.

(** *** Reading *)

Lemma read_segments_spec n s k t segs from :
  lv_ready n s ->
  (forall i ids, segs !! i = Some ids -> segment_at s k t (from + Z.of_nat i) ids) ->
  read_segments k t from (length segs) s = (Done (concat segs), s).
Proof.
  intros Hr. revert from. induction segs as [|ids segs IH]; intros from Hs; [done|].
  cbn [length read_segments]. unfold st_bind at 1.
  rewrite (read_seg n s k t from ids Hr) by (rewrite <- (Z.add_0_r from); by apply (Hs 0%nat)).
  unfold st_bind. rewrite IH; [done|]. intros i ids' Hi.
  replace (from + 1 + Z.of_nat i) with (from + Z.of_nat (Datatypes.S i)) by lia. by apply (Hs (Datatypes.S i)).
Qed.

Lemma ids_spec n s k t segs opn :
  lv_ready n s -> key_ok k t -> holds s k t segs opn ->
  live_ids k t s = (Done (concat segs ++ opn), s).
Proof.
  intros Hr Hk [Hhd [Ho Hol] Hs Hc]. unfold live_ids, st_bind at 1.
  rewrite (read_head _ _ _ _ _ _ Hr Hk Hhd). cbn [open sealed].
  pose proof (zlen_nonneg segs). pose proof (zlen_nonneg opn).
  unfold st_bind at 1, st_lift, guard.
  replace (fitsb 63 _) with true
    by (symmetry; apply fitsb_spec; unfold fits; change (Z.of_nat LIVE_SEGMENT_CAP) with 256;
        unfold zlen in *; lia).
  unfold st_bind. replace (Z.to_nat (zlen segs)) with (length segs) by (unfold zlen; lia).
  rewrite (read_segments_spec n) by (done || (intros i ids Hi; apply (Hs i ids Hi))). done.
Qed.

(** *** Removing *)

Lemma remove_first_spec id l :
  match remove_first id l with
  | Some l' => exists l1 l2, l = l1 ++ id :: l2 /\ l' = l1 ++ l2
  | None => id ∉ l
  end.
Proof.
  induction l as [|x l IH]; simpl; [apply not_elem_of_nil|].
  destruct (Z.eqb_spec x id) as [->|Hne]; [by exists [], l|].
  destruct (remove_first id l) as [l'|]; simpl.
  - destruct IH as (l1 & l2 & -> & ->). by exists (x :: l1), l2.
  - rewrite not_elem_of_cons. by split.
Qed.

Lemma id_list_remove n l1 id l2 : id_list n (l1 ++ id :: l2) -> id_list n (l1 ++ l2).
Proof.
  unfold id_list. rewrite !Forall_app, Forall_cons, !length_app. simpl.
  intros [(? & ? & ?) ?]. split; [done|lia].
Qed.

(** One occurrence of [id] leaves the list. *)
Definition drops (id : Z) (l l' : list Z) : Prop :=
  exists l1 l2, l = l1 ++ id :: l2 /\ l' = l1 ++ l2.

Lemma drops_app id p l l' q : drops id l l' -> drops id (p ++ l ++ q) (p ++ l' ++ q).
Proof.
  intros (l1 & l2 & -> & ->). exists (p ++ l1), (l2 ++ q). by rewrite <- !app_assoc.
Qed.

Lemma drops_segment id segs i ids ids' opn :
  segs !! i = Some ids -> drops id ids ids' ->
  drops id (concat segs ++ opn) (concat (<[i := ids']> segs) ++ opn).
Proof.
  intros Hi Hd. pose proof Hi as Hlt%lookup_lt_Some. rewrite <- (take_drop_middle _ _ _ Hi) at 1.
  rewrite insert_take_drop by done. rewrite !concat_app. simpl.
  rewrite <- !app_assoc. by apply drops_app.
Qed.

Lemma remove_sealed_spec n s k t segs opn id m :
  lv_ready (Datatypes.S n) s -> key_ok k t -> holds s k t segs opn -> (m <= length segs)%nat ->
  (exists s' segs', remove_sealed k t id m s = (Done true, s') /\ lv_ready n s' /\
     holds s' k t segs' opn /\ drops id (concat segs ++ opn) (concat segs' ++ opn) /\
     length segs' = length segs /\ others_kept k t s s') \/
  (remove_sealed k t id m s = (Done false, s) /\
   forall i ids, (i < m)%nat -> segs !! i = Some ids -> id ∉ ids).
Proof.
  intros Hr Hk Hh. pose proof Hh as [Hhd Ho Hs Hc].
  induction m as [|m IH]; intros Hm; [right; split; [done|intros; lia]|].
  destruct (lookup_lt_is_Some_2 segs m) as [ids Hids]; [lia|].
  destruct (Hs m ids Hids) as [Hseg Hil].
  assert (remove_sealed k t id (Datatypes.S m) s =
    match remove_first id ids with
    | Some ids => (do! write_segment k t (Z.of_nat m) ids in st_ret true) s
    | None => remove_sealed k t id m s
    end) as ->.
  { cbn [remove_sealed]. unfold st_bind at 1. rewrite (read_seg _ _ _ _ _ _ Hr Hseg).
    by destruct (remove_first id ids). }
  pose proof (remove_first_spec id ids) as Hrm. destruct (remove_first id ids) as [ids'|].
  - left. destruct Hrm as (l1 & l2 & -> & ->).
    destruct (write_seg n s k t (Z.of_nat m) (l1 ++ l2) Hr Hk) as (s1 & E1 & Hr1 & Hs1 & Hb1 & Ht1);
      [by eapply holds_index|by eapply id_list_remove|].
    unfold st_bind, st_ret. rewrite E1. exists s1, (<[m := l1 ++ l2]> segs).
    split; [done|]. split; [done|]. split; [|split; [|split]].
    + assert (zlen (<[m := l1 ++ l2]> segs) = zlen segs) as Ez
        by (unfold zlen; by rewrite length_insert).
      constructor; [|done| |by rewrite Ez].
      * rewrite Ez. eapply head_kept; [|done]. by apply Ht1.
      * intros i js [(<- & <- & _)|[Hne Hi]]%list_lookup_insert_Some;
          [split; [done|by eapply id_list_remove]|].
        destruct (Hs i js Hi) as [? ?]. split; [|done]. eapply segment_kept; [|done].
        apply (proj2 Hb1); [done|by eapply holds_index|]. intros [= ?]. lia.
    + eapply drops_segment; [done|]. by exists l1, l2.
    + apply length_insert.
    + by eapply others_segment.
  - destruct (IH ltac:(lia)) as [Hdone|[E Hnone]]; [by left|]. right. split; [done|].
    intros i js Hi Hjs. destruct (decide (i = m)) as [->|]; [congruence|].
    apply (Hnone i); [lia|done].
Qed.

Lemma remove_spec n s k t segs opn id :
  lv_ready (Datatypes.S n) s -> key_ok k t -> holds s k t segs opn ->
  exists b s' segs' opn', live_remove k t id s = (Done b, s') /\ lv_ready n s' /\
    holds s' k t segs' opn' /\ length segs' = length segs /\ others_kept k t s s' /\
    if (b : bool) then drops id (concat segs ++ opn) (concat segs' ++ opn')
    else (id ∉ concat segs ++ opn) /\ s' = s /\ segs' = segs /\ opn' = opn.
Proof.
  intros Hr Hk Hh. pose proof Hh as [Hhd [Ho Hol] Hs Hc].
  unfold live_remove, st_bind at 1. rewrite (read_head _ _ _ _ _ _ Hr Hk Hhd). cbn [open sealed].
  pose proof (remove_first_spec id opn) as Hrm. destruct (remove_first id opn) as [opn'|].
  - destruct Hrm as (l1 & l2 & -> & ->).
    assert (id_list 255 (l1 ++ l2)) as Hil by by apply (id_list_remove 255 l1 id).
    pose proof (zlen_nonneg segs).
    destruct (write_head n s k t (zlen segs) (l1 ++ l2)) as (s1 & E1 & Hr1 & Hh1 & Hb1 & Hrec1);
      [done|done|unfold fits; lia|done|].
    exists true, s1, segs, (l1 ++ l2). unfold st_bind, st_ret. rewrite E1.
    split; [done|]. split; [done|]. split; [by eapply holds_head|]. split; [done|].
    split; [by apply others_head|]. exists (concat segs ++ l1), l2. by rewrite <- !app_assoc.
  - replace (Z.to_nat (zlen segs)) with (length segs) by (unfold zlen; lia).
    destruct (remove_sealed_spec n s k t segs opn id (length segs) Hr Hk Hh ltac:(lia))
      as [(s' & segs' & E & Hr' & Hh' & Hd & Hl & Hot)|[E Hnone]].
    + exists true, s', segs', opn. by rewrite E.
    + exists false, s, segs, opn. rewrite E. split; [done|]. split; [by apply lv_weaken|].
      split; [done|]. split; [done|]. split; [by split; [apply lv_kept_refl|]|]. split; [|done].
      rewrite elem_of_app. intros [Hc'|?]; [|done].
      apply list_elem_of_In, in_concat in Hc' as (ids & Hin & Hids).
      apply list_elem_of_In, list_elem_of_lookup in Hin as [i Hi].
      apply (Hnone i ids); [by eapply lookup_lt_Some|done|by apply list_elem_of_In].
Qed.

(** *** Replacing *)

Lemma single_spec n s k t id :
  lv_ready (Datatypes.S n) s -> key_ok k t -> fits 128 id ->
  exists s', live_set_single k t id s = (Done tt, s') /\ lv_ready n s' /\
    holds s' k t [] [id] /\ others_kept k t s s'.
Proof.
  intros Hr Hk Hid.
  assert (id_list 255 [id]) as Hil by (split; [by apply Forall_singleton|simpl; lia]).
  destruct (write_head n s k t 0 [id]) as (s1 & E1 & Hr1 & Hh1 & Hb1 & Hrec1); [done|done|done|done|].
  exists s1. split; [done|]. split; [done|]. split; [|by apply others_head].
  eapply holds_head; [done|done|done|done|]. by intros i ids ?.
Qed.

(** *** Rebuilding *)

Lemma write_chunks_spec fuel : forall n s k t done_segs ids,
  lv_ready (length ids / LIVE_SEGMENT_CAP + n) s -> key_ok k t ->
  Forall (fits 128) ids -> (length ids <= fuel)%nat ->
  zlen done_segs + zlen ids <= 2 ^ 48 ->
  (forall i js, done_segs !! i = Some js -> segment_at s k t (Z.of_nat i) js /\ id_list 256 js) ->
  exists s' segs rest,
    write_chunks fuel k t (zlen done_segs) ids s = (Done (zlen segs, rest), s') /\
    lv_ready n s' /\ concat segs ++ rest = concat done_segs ++ ids /\ id_list 255 rest /\
    zlen segs <= zlen done_segs + zlen ids /\
    (forall i js, segs !! i = Some js -> segment_at s' k t (Z.of_nat i) js /\ id_list 256 js) /\
    others_kept k t s s' /\
    forall k' t', key_ok k' t' -> lv_tracker s' k' t' = lv_tracker s k' t'.
Proof.
  induction fuel as [|fuel IH]; intros n s k t segs ids Hr Hk Hf Hfuel Hc Hs;
    pose proof (zlen_nonneg segs); cbn [write_chunks];
    destruct (decide (LIVE_SEGMENT_CAP <= length ids)%nat) as [Hge|Hlt].
  1: { unfold LIVE_SEGMENT_CAP in Hge. lia. }
  1, 3: rewrite Nat.div_small in Hr by lia; exists s, segs, ids; unfold LIVE_SEGMENT_CAP in Hlt;
    (split; [done|]); (split; [done|]); (split; [done|]); (split; [split; [done|lia]|]);
    (split; [unfold zlen; lia|]); (split; [done|]); by (split; [split; [apply lv_kept_refl|intros ?]|]).
  unfold LIVE_SEGMENT_CAP in *.
  assert (length (take 256 ids) = 256%nat) as Hlen by (rewrite length_take; lia).
  assert (length ids / 256 = Datatypes.S (length (drop 256 ids) / 256))%nat as Hdiv.
  { rewrite length_drop. replace (length ids) with (length ids - 256 + 1 * 256)%nat at 1 by lia.
    rewrite Nat.div_add by lia. lia. }
  rewrite Hdiv in Hr.
  destruct (write_seg _ s k t (zlen segs) (take 256 ids) Hr Hk) as (s1 & E1 & Hr1 & Hs1 & Hb1 & Ht1);
    [unfold fits, zlen in *; lia|split; [by apply Forall_take|lia]|].
  unfold st_bind. rewrite E1.
  assert (zlen (segs ++ [take 256 ids]) = zlen segs + 1) as Ez by by rewrite zlen_app.
  rewrite <- Ez.
  destruct (IH n s1 k t (segs ++ [take 256 ids]) (drop 256 ids))
    as (s2 & segs2 & rest & E2 & Hr2 & Hcat & Hrest & Hl2 & Hs2 & Ho2 & Ht2);
    [done|done|by apply Forall_drop|rewrite length_drop; lia
    |rewrite Ez; unfold zlen in *; rewrite length_drop; lia| |].
  { intros i js [Hi|[-> Hi]]%lookup_snoc_Some.
    - destruct (Hs i js ltac:(tauto)) as [Hseg ?]. split; [|done].
      eapply segment_kept; [|done]. apply (proj2 Hb1); [done| |].
      + destruct Hi as [Hi _]. unfold fits, zlen in *. lia.
      + unfold zlen. intros [= ?]. lia.
    - subst js. split; [done|]. split; [by apply Forall_take|lia]. }
  exists s2, segs2, rest. split; [done|]. split; [done|]. split; [|split; [done|split; [|split; [done|split]]]].
  - rewrite Hcat, concat_app. simpl. rewrite app_nil_r, <- app_assoc. by rewrite take_drop.
  - rewrite Ez in Hl2. unfold zlen in *. rewrite length_drop in Hl2. lia.
  - eapply others_kept_trans; [by eapply others_segment | done].
  - intros k' t' Hk'. rewrite Ht2 by done. by apply Ht1.
Qed.

(** The order of the rebuilt list. *)
Definition live_lt (a b : Z) : Prop := live_le a b = true /\ a <> b.

Lemma live_le_total x y : live_le x y = true \/ live_le y x = true.
Proof. unfold live_le. generalize (created_at x), (created_at y). lia. Qed.

Lemma live_le_trans x y z : live_le x y = true -> live_le y z = true -> live_le x z = true.
Proof. unfold live_le. generalize (created_at x), (created_at y), (created_at z). lia. Qed.

Lemma live_le_antisym x y : live_le x y = true -> live_le y x = true -> x = y.
Proof. unfold live_le. generalize (created_at x), (created_at y). lia. Qed.

Lemma dedup_cons y z l :
  dedup (y :: z :: l) = if y =? z then dedup (z :: l) else y :: dedup (z :: l).
Proof. done. Qed.

Lemma dedup_elem l x : x ∈ dedup l <-> x ∈ l.
Proof.
  induction l as [|y [|z l] IH]; [done|done|]. rewrite dedup_cons.
  destruct (Z.eqb_spec y z) as [->|]; rewrite ?elem_of_cons, IH; rewrite ?elem_of_cons; tauto.
Qed.

Lemma dedup_length l : (length (dedup l) <= length l)%nat.
Proof.
  induction l as [|y [|z l] IH]; [done|done|]. rewrite dedup_cons.
  destruct (y =? z); cbn [length] in *; lia.
Qed.

Lemma dedup_sorted l :
  StronglySorted (fun a b => live_le a b = true) l -> StronglySorted live_lt (dedup l).
Proof.
  induction l as [|y [|z l] IH]; [constructor|by repeat constructor|].
  intros [Hs Hy]%StronglySorted_inv. specialize (IH Hs). rewrite dedup_cons.
  destruct (Z.eqb_spec y z) as [->|Hne]; [done|]. constructor; [done|].
  apply Forall_forall. intros x Hx. rewrite dedup_elem in Hx. rewrite Forall_forall in Hy.
  split; [by apply Hy|]. intros <-. apply Hne.
  apply StronglySorted_inv in Hs as [_ Hz]. rewrite Forall_forall in Hz.
  apply elem_of_cons in Hx as [->|Hx]; [done|].
  apply live_le_antisym; [apply Hy; by left | by apply Hz].
Qed.

Lemma rebuild_spec n s k t segs opn replayed :
  lv_ready (Datatypes.S ((length (concat segs ++ opn) + length replayed) / LIVE_SEGMENT_CAP) + n) s ->
  key_ok k t -> holds s k t segs opn -> Forall (fits 128) replayed ->
  zlen (concat segs ++ opn) + zlen replayed <= 2 ^ 48 ->
  exists s' segs' opn', live_rebuild k t replayed s = (Done tt, s') /\ lv_ready n s' /\
    holds s' k t segs' opn' /\ others_kept k t s s' /\
    StronglySorted live_lt (concat segs' ++ opn') /\
    forall x, x ∈ concat segs' ++ opn' <-> x ∈ concat segs ++ opn \/ x ∈ replayed.
Proof.
  intros Hr Hk Hh Hrep Hc. set (old := concat segs ++ opn) in *.
  assert (Forall (fits 128) old) as Hold.
  { apply Forall_app. split; [|apply Hh]. apply Forall_concat, Forall_lookup.
    intros i ids Hi. apply (ho_segs _ _ _ _ _ Hh _ _ Hi). }
  set (ids := dedup (sort_by live_le (old ++ replayed))).
  assert (forall x, x ∈ ids <-> x ∈ old \/ x ∈ replayed) as Hin.
  { intros x. unfold ids. rewrite dedup_elem, sort_by_perm. apply elem_of_app. }
  assert (length ids <= length old + length replayed)%nat as Hlen.
  { unfold ids. rewrite dedup_length, sort_by_perm, length_app. lia. }
  assert (lv_ready (length ids / LIVE_SEGMENT_CAP + Datatypes.S n) s) as Hready.
  { assert (length ids / LIVE_SEGMENT_CAP <= (length old + length replayed) / LIVE_SEGMENT_CAP)%nat as Hd
      by (by apply Nat.Div0.div_le_mono).
    eapply ready_le; [|exact Hr]. lia. }
  unfold live_rebuild, st_bind at 1. rewrite (ids_spec _ _ _ _ _ _ Hr Hk Hh). fold old ids.
  destruct (write_chunks_spec (length ids) (Datatypes.S n) s k t [] ids)
    as (s1 & segs' & rest & E1 & Hr1 & Hcat & Hrest & Hl1 & Hs1 & Ho1 & Ht1);
    [done|done| |done|unfold zlen in *; simpl; lia|done|].
  { apply Forall_forall. intros x [Hx|Hx]%Hin; [by eapply Forall_forall in Hold|].
    by eapply Forall_forall in Hrep. }
  unfold st_bind. change 0 with (zlen (@nil (list Z))). rewrite E1.
  assert (zlen segs' <= 2 ^ 48) by (unfold zlen in *; simpl in *; lia).
  pose proof (zlen_nonneg segs').
  destruct (write_head n s1 k t (zlen segs') rest Hr1 Hk) as (s2 & E2 & Hr2 & Hh2 & Hb2 & Hrec2);
    [unfold fits; lia|done|].
  exists s2, segs', rest. split; [done|]. split; [done|].
  split; [by eapply holds_head|].
  split; [eapply others_kept_trans; [done|by apply others_head]|].
  rewrite Hcat. simpl. split; [|done].
  apply dedup_sorted, sort_by_sorted; [apply live_le_total|apply live_le_trans].
Qed.

(** ** Properties *)

Lemma tracks_others k t s s' : others_kept k t s s' -> forall k' t' m l, key_ok k' t' ->
  (k', t') <> (k, t) -> tracks s k' t' m l -> tracks s' k' t' m l.
Proof.
  intros [_ Ho] k' t' m l Hk Hne (segs & opn & Hh & Hl & Hm). exists segs, opn.
  split; [by apply Ho|done].
Qed.

(** Appending puts the identifier at the end of its list, sealing a segment
    of 256 when the open one fills, and no other list changes. *)
Theorem live_append_tracks n s k t m l id :
  lv_ready (2 + n) s -> key_ok k t -> fits 128 id -> tracks s k t m l -> m < 2 ^ 48 ->
  exists s', live_append k t id s = (Done tt, s') /\ lv_ready n s' /\
    tracks s' k t (m + 1) (l ++ [id]) /\
    forall k' t' m' l', key_ok k' t' -> (k', t') <> (k, t) ->
      tracks s k' t' m' l' -> tracks s' k' t' m' l'.
Proof.
  intros Hr Hk Hid (segs & opn & Hh & -> & Hm) Hc.
  destruct (append_spec n s k t segs opn id Hr Hk Hid Hh) as (s' & segs' & opn' & E & Hr' & Hh' & Hcat & Hl & Ho);
    [lia|].
  exists s'. split; [done|]. split; [done|]. split; [|by apply tracks_others].
  exists segs', opn'. split; [done|]. split; [|lia]. by rewrite Hcat, <- app_assoc.
Qed.

(** Removing reports whether the identifier was listed, takes out exactly
    one occurrence of it, from the open list or the newest segment that has it,
    and leaves the store untouched when there is none. *)
Theorem live_remove_tracks n s k t m l id :
  lv_ready (Datatypes.S n) s -> key_ok k t -> tracks s k t m l ->
  exists s', live_remove k t id s = (Done (bool_decide (id ∈ l)), s') /\ lv_ready n s' /\
    (exists l', tracks s' k t m l' /\ (id ∈ l -> drops id l l') /\ (id ∉ l -> l' = l /\ s' = s)) /\
    forall k' t' m' l', key_ok k' t' -> (k', t') <> (k, t) ->
      tracks s k' t' m' l' -> tracks s' k' t' m' l'.
Proof.
  intros Hr Hk (segs & opn & Hh & -> & Hm).
  destruct (remove_spec n s k t segs opn id Hr Hk Hh) as (b & s' & segs' & opn' & E & Hr' & Hh' & Hl & Ho & Hb).
  exists s'. rewrite E. destruct b.
  - pose proof Hb as (l1 & l2 & El & _). rewrite bool_decide_true by (rewrite El; set_solver).
    split; [done|]. split; [done|]. split; [|by apply tracks_others].
    exists (concat segs' ++ opn'). split; [exists segs', opn'; split; [done|split; [done|unfold zlen in *; lia]]|].
    split; [done|]. intros []. rewrite El. set_solver.
  - destruct Hb as (Hn & -> & -> & ->). rewrite bool_decide_false by done.
    split; [done|]. split; [done|]. split; [|by apply tracks_others].
    exists (concat segs ++ opn). split; [by exists segs, opn|]. done.
Qed.

(** A rebuild leaves the union of the list and the replayed identifiers,
    without repetition, in order of creation time and then of identifier. *)
Theorem live_rebuild_tracks n s k t m l replayed :
  lv_ready (Datatypes.S ((length l + length replayed) / LIVE_SEGMENT_CAP) + n) s ->
  key_ok k t -> tracks s k t m l -> Forall (fits 128) replayed ->
  zlen l + zlen replayed <= 2 ^ 48 ->
  exists s' l', live_rebuild k t replayed s = (Done tt, s') /\ lv_ready n s' /\
    tracks s' k t (2 ^ 48) l' /\ StronglySorted live_lt l' /\
    (forall x, x ∈ l' <-> x ∈ l \/ x ∈ replayed) /\
    forall k' t' m' l', key_ok k' t' -> (k', t') <> (k, t) ->
      tracks s k' t' m' l' -> tracks s' k' t' m' l'.
Proof.
  intros Hr Hk (segs & opn & Hh & -> & Hm) Hrep Hc.
  destruct (rebuild_spec n s k t segs opn replayed Hr Hk Hh Hrep Hc)
    as (s' & segs' & opn' & E & Hr' & Hh' & Ho & Hs & Hin).
  exists s', (concat segs' ++ opn'). split; [done|]. split; [done|].
  split; [exists segs', opn'; split; [done|split; [done|apply Hh']]|].
  split; [done|]. split; [done|]. by apply tracks_others.
Qed.

(** *** Histories *)

Inductive LiveOp : Type :=
  | OpAppend (id : Z)
  | OpSetSingle (id : Z)
  | OpRemove (id : Z).

(** An operation on the lists: the specification of the tracker. *)
Inductive spec_op : LiveOp -> list Z -> list Z -> Prop :=
  | spec_append id l : spec_op (OpAppend id) l (l ++ [id])
  | spec_single id l : spec_op (OpSetSingle id) l [id]
  | spec_remove id l l' : drops id l l' -> spec_op (OpRemove id) l l'
  | spec_absent id l : id ∉ l -> spec_op (OpRemove id) l l.

Definition live_exec (k t : Z) (op : LiveOp) : ST S StorageError unit :=
  match op with
  | OpAppend id => live_append k t id
  | OpSetSingle id => live_set_single k t id
  | OpRemove id => let! _ := live_remove k t id in st_ret tt
  end.

Definition op_ok (op : LiveOp) : Prop :=
  match op with OpAppend id | OpSetSingle id => fits 128 id | OpRemove _ => True end.

Abbreviation LiveCmd := ((Z * Z) * LiveOp)%type.
Definition cmd_ok (c : LiveCmd) : Prop := key_ok c.1.1 c.1.2 /\ op_ok c.2.

(** One list per [(struct, tenant)]. *)
Definition Lists : Type := Z * Z -> list Z.

Inductive spec_run : list LiveCmd -> Lists -> Lists -> Prop :=
  | spec_done A : spec_run [] A A
  | spec_next key op cs A B C :
      spec_op op (A key) (B key) -> (forall key', key' <> key -> B key' = A key') ->
      spec_run cs B C -> spec_run ((key, op) :: cs) A C.

Definition simulates (s : S) (m : Z) (A : Lists) : Prop :=
  forall k t, key_ok k t -> tracks s k t m (A (k, t)).

Lemma tracks_mono s k t m m' l : m <= m' -> tracks s k t m l -> tracks s k t m' l.
Proof. intros Hm (segs & opn & ? & ? & ?). exists segs, opn. split_and!; [done..|lia]. Qed.

Lemma exec_step n s k t m l op :
  lv_ready (2 + n) s -> key_ok k t -> op_ok op -> tracks s k t m l -> 0 <= m < 2 ^ 48 ->
  exists s' l', live_exec k t op s = (Done tt, s') /\ lv_ready n s' /\
    spec_op op l l' /\ tracks s' k t (m + 1) l' /\
    forall k' t' m' l', key_ok k' t' -> (k', t') <> (k, t) ->
      tracks s k' t' m' l' -> tracks s' k' t' m' l'.
Proof.
  intros Hr Hk Hop Ht Hm. destruct op as [id|id|id]; cbn [live_exec].
  - pose proof Ht as (segs & opn & Hh & -> & Hms).
    destruct (append_spec n s k t segs opn id Hr Hk Hop Hh) as (s' & segs' & opn' & E & Hr' & Hh' & Hcat & Hl & Ho);
      [lia|].
    exists s', ((concat segs ++ opn) ++ [id]). split; [done|]. split; [done|]. split; [constructor|].
    split; [|by apply tracks_others]. exists segs', opn'. split; [done|].
    split; [by rewrite Hcat, <- app_assoc|lia].
  - destruct (single_spec (Datatypes.S n) s k t id Hr Hk Hop) as (s' & E & Hr' & Hh' & Ho).
    exists s', [id]. split; [done|]. split; [by apply lv_weaken|]. split; [constructor|].
    split; [|by apply tracks_others]. exists [], [id]. split; [done|]. split; [done|].
    unfold zlen. simpl. lia.
  - destruct Ht as (segs & opn & Hh & -> & Hms).
    destruct (remove_spec (Datatypes.S n) s k t segs opn id Hr Hk Hh)
      as (b & s' & segs' & opn' & E & Hr' & Hh' & Hl & Ho & Hb).
    exists s', (concat segs' ++ opn'). unfold st_bind. rewrite E.
    split; [done|]. split; [by apply lv_weaken|].
    split; [destruct b; [by constructor|]; destruct Hb as (? & -> & -> & ->); by constructor|].
    split; [|by apply tracks_others]. exists segs', opn'. split; [done|]. split; [done|].
    unfold zlen in *. lia.
Qed.

(** C6: the tracker refines one list per struct and tenant: from a store that
    represents such lists, any sequence of appends, replacements and removals
    succeeds, does to the lists what its specification does, and every list is
    then read back whole. *)
Theorem live_run_refines (cs : list LiveCmd) : forall n s m A,
  lv_ready (2 * length cs + n) s -> Forall cmd_ok cs -> simulates s m A ->
  0 <= m -> m + zlen cs <= 2 ^ 48 ->
  exists s' B, st_iter (fun c => live_exec c.1.1 c.1.2 c.2) cs s = (Done tt, s') /\
    lv_ready n s' /\ spec_run cs A B /\ simulates s' (m + zlen cs) B /\
    forall k t, key_ok k t -> live_ids k t s' = (Done (B (k, t)), s').
Proof.
  induction cs as [|[[k t] op] cs IH]; intros n s m A Hr Hok Hsim Hm0 Hm.
  - exists s, A. split; [done|]. split; [done|]. split; [constructor|].
    split; [unfold zlen; simpl; by rewrite Z.add_0_r|].
    intros k t Hk. destruct (Hsim k t Hk) as (segs & opn & Hh & -> & _). by eapply ids_spec.
  - apply Forall_cons in Hok as [[Hk Hop] Hok].
    assert (@zlen LiveCmd ((k, t, op) :: cs) = 1 + zlen cs) as Ez 
      by (change (Z.of_nat (Datatypes.S (length cs)) = 1 + Z.of_nat (length cs)); lia).
    pose proof (zlen_nonneg cs). rewrite Ez in Hm |- *.
    destruct (exec_step (2 * length cs + n) s k t m (A (k, t)) op) as (s1 & l' & E1 & Hr1 & Hsp & Ht1 & Ho1);
      [eapply ready_le; [|exact Hr]; simpl; lia|done|done|by apply Hsim|lia|].
    set (A1 := fun key => if decide (key = (k, t)) then l' else A key).
    destruct (IH n s1 (m + 1) A1 Hr1 Hok) as (s2 & B & E2 & Hr2 & Hrun & Hsim2 & Hread); [|lia|lia|].
    { intros k' t' Hk'. unfold A1. destruct (decide _) as [[= -> ->]|Hne]; [done|].
      eapply tracks_mono; [|by apply Ho1, Hsim]. lia. }
    exists s2, B. cbn [st_iter]. unfold st_bind. cbn [fst snd]. rewrite E1. split; [done|].
    split; [done|]. split; [|split; [|done]].
    + apply (spec_next _ _ _ A A1); [unfold A1; by rewrite decide_True| |done].
      intros key' Hne. unfold A1. by rewrite decide_False.
    + by replace (m + (1 + zlen cs)) with (m + 1 + zlen cs) by lia.
Qed.
End laws.
