(* ===== verification/LiveFile.v ===== *)
(** * The page file as the tracker's store

    The promises of [LiveLaws] hold of the page file while it has room: every page
    can still take [n] of the tracker's largest values, and [n] more used pages do
    not reach the growth threshold.  Writes then go to the primary page and no
    growth is triggered. *)
From S2P Require Import Prelude Wire WireOk Errors Ids Page Hash Anchor DataFile DataFileOk Snapshot Live LiveOk.

(** ** Room *)

Definition slack (p : Page) : Z :=
  heap_offset (header p) - HEADER_SIZE - zlen (directory p) * DIR_ENTRY_SIZE
  - live_bytes (directory p).

Record roomy (n : nat) (d : DataFile) : Prop := {
  ro_pages : 4 * (used_page_count d + Z.of_nat n) < 3 * page_count d;
  ro_slack : forall i p, pages d !! i = Some p ->
    Z.of_nat n * (LIVE_VALUE_MAX + DIR_ENTRY_SIZE) <= slack p;
  ro_count : page_count d < 2 ^ 50
}.

Lemma live_bytes_sizes l : live_bytes l = foldr Z.add 0 (map de_size l).
Proof. induction l as [|e l IH]; simpl; [done|]. by rewrite IH. Qed.

Lemma slack_others p id :
  (forall n, n ∈ map de_size (directory p) -> 0 <= n) ->
  live_bytes (others p id) <= live_bytes (directory p) /\ zlen (others p id) <= zlen (directory p).
Proof.
  unfold others, zlen. generalize (directory p) as l. induction l as [|e l IH]; intros Hn; [done|].
  destruct IH as [IH1 IH2]; [intros n Hin; apply Hn; by right|].
  pose proof (Hn (de_size e) ltac:(by left)). rewrite filter_cons. case_decide; simpl; lia.
Qed.

(** The room left after an accepted value. *)
Lemma upsert_slack p id bytes p' :
  page_ok p -> directory_fits p -> 0 < zlen bytes -> zlen bytes + DIR_ENTRY_SIZE < 2 ^ 32 ->
  (forall n, n ∈ map de_size (directory p) -> 0 <= n) ->
  page_upsert p id bytes = Done (p', true) -> slack p - (zlen bytes + DIR_ENTRY_SIZE) <= slack p'.
Proof.
  intros H Hf Hpos Hmax Hn E.
  destruct (upsert_spec p id bytes H Hf Hpos Hmax) as (q & b & E' & _ & _ & _ & Hh & _ & Hsz).
  rewrite E in E'. injection E' as <- <-. specialize (Hsz eq_refl).
  destruct (slack_others p id Hn) as [H1 H2]. unfold slack. rewrite Hh, !live_bytes_sizes, Hsz.
  rewrite live_bytes_sizes in H1. rewrite foldr_app. simpl.
  assert (zlen (directory p') = zlen (others p id) + 1) as Hz.
  { unfold zlen. rewrite <- (length_map de_size (directory p')), Hsz, length_app, length_map. simpl. lia. }
  rewrite live_bytes_sizes in H1.
  assert (forall l, foldr Z.add (zlen bytes + 0) l = foldr Z.add 0 l + zlen bytes) as Hsum
    by (induction l as [|x l IH]; simpl; lia).
  rewrite Hsum, Hz. unfold DIR_ENTRY_SIZE. lia.
Qed.

Lemma used_insert (ps : list Page) i p :
  zlen (filter (fun q => 0 < entry_count (header q)) (<[i := p]> ps))
  <= zlen (filter (fun q => 0 < entry_count (header q)) ps) + 1.
Proof.
  destruct (ps !! i) as [q|] eqn:Hq.
  - pose proof Hq as Hlt%lookup_lt_Some. rewrite insert_take_drop by done.
    rewrite <- (take_drop_middle _ _ _ Hq) at 3. rewrite !filter_app, !filter_cons.
    unfold zlen. rewrite !length_app. repeat case_decide; simpl; lia.
  - rewrite list_insert_ge by (by apply lookup_ge_None). lia.
Qed.

(** ** Writes within the room *)

(** Every key is on its primary page, so on no other. *)
Record steady (n : nat) (d : DataFile) : Prop := {
  st_pages : pages_ok d;
  st_home : forall raw, at_home d raw;
  st_room : roomy n d
}.

Lemma home_placed d : (forall raw, at_home d raw) -> placed d.
Proof.
  intros Hh. constructor.
  - intros raw i j b b' Hi Hj. by rewrite (Hh raw i b Hi), (Hh raw j b' Hj).
  - intros raw i b Hi. exists (page_count d). split; [by left|left; by apply (Hh raw i b)].
Qed.

(** What no operation within the room changes. *)
Definition same_shape (d d' : DataFile) : Prop :=
  page_count d' = page_count d /\ df_page_size d' = df_page_size d /\ mode d' = mode d /\
  previous_page_counts d' = previous_page_counts d /\ (storable d -> storable d').

Lemma same_shape_trans d1 d2 d3 : same_shape d1 d2 -> same_shape d2 d3 -> same_shape d1 d3.
Proof. unfold same_shape. intuition congruence. Qed.

(** Room for one more value leaves room in the directory, whatever the sizes of
    the values the page holds. *)
Lemma roomy_fits n d i p : pages_ok d -> roomy (S n) d -> pages d !! i = Some p -> directory_fits p.
Proof.
  intros H Hr Hp. destruct (po_page _ H i p Hp) as (Hok & _ & _).
  pose proof (ro_slack _ _ Hr i p Hp) as Hs. pose proof (laid_out_live _ _ _ (pk_dir _ Hok)).
  pose proof (zlen_nonneg (directory p)).
  unfold directory_fits, slack, LIVE_VALUE_MAX, DIR_ENTRY_SIZE in *. lia.
Qed.

Lemma steady_insert n d raw bytes :
  steady (S n) d -> 0 < zlen bytes <= LIVE_VALUE_MAX -> fits 128 raw ->
  exists d', insert_at_key (route_key_for_raw raw) raw bytes d = (Done tt, d') /\
    steady n d' /\ cache d' = cache d /\ same_shape d d' /\
    forall raw' b, stored d' raw' b <-> if decide (raw' = raw) then b = bytes else stored d raw' b.
Proof.
  intros [H Hhome Hroom] Hl Hraw. pose proof (po_count _ H) as Hcount. pose proof (ro_count _ _ Hroom).
  assert (LIVE_VALUE_MAX = 4352) as Hmax by done. unfold DIR_ENTRY_SIZE in *.
  set (primary := page_index (route_key_for_raw raw) (page_count d)).
  destruct (page_exists d (page_count d) primary H ltac:(lia)) as [p Hp]; [by apply page_index_lt|].
  pose proof (roomy_fits n d primary p H Hroom Hp) as Hf.
  destruct (upsert_at d primary p raw bytes H Hp Hf) as (p' & b & E & Eu & H' & Hs' & _ & Ha');
    [lia|unfold DIR_ENTRY_SIZE; lia|].
  set (d1 := with_pages _ d) in *.
  destruct (po_page _ H primary p Hp) as (Hok & _ & _).
  assert (forall n, n ∈ map de_size (directory p) -> 0 <= n) as Hnn.
  { intros m (e & -> & He)%list_elem_of_fmap. pose proof (laid_out_elem _ _ _ _ (pk_dir _ Hok) He). lia. }
  pose proof (ro_slack _ _ Hroom primary p Hp) as Hsl. unfold DIR_ENTRY_SIZE in Hsl.
  assert (b = true) as ->.
  { destruct b; [done|]. exfalso.
    destruct (upsert_spec p raw bytes Hok Hf ltac:(lia)
                ltac:(unfold DIR_ENTRY_SIZE; lia)) as (q & b & E' & _ & _ & Hr & _).
    rewrite E in E'. injection E' as <- <-. specialize (Hr eq_refl).
    destruct (slack_others p raw Hnn). unfold page_room, slack, DIR_ENTRY_SIZE in *. lia. }
  set (d2 := with_page_bytes (alter (fun m => wrap 64 (m + zlen bytes)) primary (page_bytes d1)) d1).
  assert (roomy n d2) as Hroom2.
  { constructor; [| |done].
    - change (page_count d2) with (page_count d). pose proof (ro_pages _ _ Hroom).
      pose proof (used_insert (pages d) primary p').
      change (used_page_count d2) with (zlen (filter (fun q => 0 < entry_count (header q)) (<[primary := p']> (pages d)))).
      unfold used_page_count in *. lia.
    - intros i q [(<- & <- & _)|[_ Hq]]%list_lookup_insert_Some.
      + pose proof (upsert_slack p raw bytes p' Hok Hf ltac:(lia)
          ltac:(unfold DIR_ENTRY_SIZE; lia) Hnn E). unfold DIR_ENTRY_SIZE in *. lia.
      + pose proof (ro_slack _ _ Hroom i q Hq). unfold DIR_ENTRY_SIZE in *. lia. }
  exists d2. split; [|split; [|split; [done|split]]].
  - unfold insert_at_key, try_insert_at_key, st_bind, st_gets. fold primary. rewrite Eu, bump_run. fold d2.
    replace (crowded d2) with false; [done|].
    unfold crowded. pose proof (ro_pages _ _ Hroom2). symmetry. apply Z.leb_gt. lia.
  - constructor; [by eapply pages_ok_same; [..|exact H']| |done]. intros raw' i b.
    change (pages d2) with (pages d1). rewrite Ha'.
    change (page_count d2) with (page_count d).
    case_decide as Hd; [by destruct Hd as [-> ->]|]. apply Hhome.
  - do 4 (split; [done|]). intros Hst i q Hq. change (pages d2) with (<[primary := p']> (pages d)) in Hq.
    apply list_lookup_insert_Some in Hq as [(<- & <- & _)|[_ Hq]]; [|by apply (Hst i)].
    eapply upsert_storable; [exact E|done|by apply (Hst primary)].
  - intros raw' b. unfold stored. change (pages d2) with (pages d1). setoid_rewrite Ha'. case_decide as Hd.
    + subst. split.
      * intros [i Hi]. case_decide as Hi'; [congruence|]. destruct Hi'. split; [by apply (Hhome raw i b)|done].
      * intros ->. exists primary. by rewrite decide_True.
    + split; intros [i Hi]; exists i; [rewrite decide_False in Hi by tauto | rewrite decide_False by tauto]; done.
Qed.

(** ** The cache over the pages *)

(** What the decoder of a family of keys makes of the bytes stored for one. *)
Definition stored_as {A} (f : list byte -> StorageResult A) (d : DataFile) (raw : Z) : option A :=
  match search (pages d) (route_key_for_raw raw) raw (counts d) with
  | Some b => match f b with Done a => Some a | _ => None end
  | None => None
  end.

(** The slot or record a read gives: the cached one, else the stored one. *)
Definition slot_view (d : DataFile) (raw : Z) : option AnchorSlot :=
  match get_anchor (cache d) raw with
  | Some slot => Some slot
  | None => stored_as slot_from_bytes d raw
  end.

Definition record_view (d : DataFile) (raw : Z) : option VersionedRecord :=
  match get_versioned (cache d) raw with
  | Some rec => Some rec
  | None => stored_as record_from_bytes d raw
  end.

(** The tracker's own keys hold values of their kind: a head under an anchor with
    no shard, a record under the reserved shard. *)
Definition coherent (d : DataFile) : Prop := forall raw b, stored d raw b ->
  (shard_id raw = 0 -> created_at raw = 0 ->
    get_anchor (cache d) raw <> None \/ exists slot, slot_from_bytes b = Done slot) /\
  (shard_id raw = LIVE_TRACKER_SHARD ->
    get_versioned (cache d) raw <> None \/ exists rec, record_from_bytes b = Done rec).

Definition file_ready (n : nat) (d : DataFile) : Prop := steady n d /\ coherent d.

Lemma tracker_fields k t :
  key_ok k t -> tenant_id (unique_anchor_id k t) = t /\ shard_id (unique_anchor_id k t) = 0 /\
    Ids.struct_id (unique_anchor_id k t) = k /\ created_at (unique_anchor_id k t) = 0.
Proof.
  intros [Hk Ht]. unfold unique_anchor_id. destruct (Id_new_fields t 0 k 0) as (_ & -> & -> & -> & ->).
  unfold fits in *. rewrite !Z.mod_small by lia. done.
Qed.

Lemma tracker_key k t : key_ok k t -> route_key_for_raw (unique_anchor_id k t) = Tuple2 k t.
Proof.
  intros Hk. destruct (tracker_fields k t Hk) as (H1 & H2 & H3 & H4).
  Transparent route_key_for_raw. unfold route_key_for_raw. Opaque route_key_for_raw.
  by rewrite H1, H2, H3, H4.
Qed.

Lemma segment_key id : segment_like id -> route_key_for_raw id = page_key_full id.
Proof.
  intros [_ H]. Transparent route_key_for_raw. unfold route_key_for_raw. Opaque route_key_for_raw.
  by rewrite H.
Qed.

Lemma tracker_inj k t k' t' :
  key_ok k t -> key_ok k' t' -> unique_anchor_id k t = unique_anchor_id k' t' -> k' = k /\ t' = t.
Proof.
  intros H H' E. destruct (tracker_fields k t H) as (H1 & _ & H3 & _).
  destruct (tracker_fields k' t' H') as (H1' & _ & H3' & _). rewrite E in H1, H3. split; congruence.
Qed.

(** A lookup whose stored bytes, if any, decode. *)
Lemma decoded_stored {A} (f : list byte -> StorageResult A) n d raw :
  steady n d -> (forall b, stored d raw b -> exists a, f b = Done a) ->
  decoded f (route_key_for_raw raw) raw d = (Done (stored_as f d raw), d).
Proof.
  intros H Hdec. unfold decoded, st_bind. rewrite lookup_spec by apply H. unfold stored_as.
  destruct (search _ _ _ _) as [b|] eqn:E; [|done].
  destruct (Hdec b) as [a Ha]; [by eapply search_sound|]. unfold st_lift. by rewrite Ha.
Qed.

(** Keys that store the same bytes are seen the same. *)
Lemma stored_as_ext {A} (f : list byte -> StorageResult A) n n' d d' raw :
  steady n d -> steady n' d' -> (forall b, stored d' raw b <-> stored d raw b) ->
  stored_as f d' raw = stored_as f d raw.
Proof.
  intros H H' Hst. unfold stored_as.
  assert (search (pages d') (route_key_for_raw raw) raw (counts d')
          = search (pages d) (route_key_for_raw raw) raw (counts d)) as ->; [|done].
  apply option_eq. intros b. split; intros E.
  - apply search_stored; [apply home_placed, H|]. apply Hst. by eapply search_sound.
  - apply search_stored; [apply home_placed, H'|]. apply Hst. by eapply search_sound.
Qed.

Lemma file_read_tracker n d k t :
  file_ready n d -> key_ok k t ->
  read_nonunique_tracker k t d = (Done (slot_view d (unique_anchor_id k t)), d).
Proof.
  intros [Hs Hc] Hk. unfold read_nonunique_tracker, read_unique_anchor, read_slot_at, st_bind, st_gets, slot_view.
  destruct (get_anchor (cache d) (unique_anchor_id k t)) eqn:E; [done|].
  rewrite <- (tracker_key k t) by done. apply (decoded_stored _ n); [done|]. intros b Hb.
  destruct (tracker_fields k t Hk) as (_ & H2 & _ & H4).
  by destruct (proj1 (Hc _ _ Hb) H2 H4).
Qed.

Lemma file_read_record n d id :
  file_ready n d -> segment_like id ->
  read_versioned id d = (Done (record_view d id), d).
Proof.
  intros [Hs Hc] Hid. unfold read_versioned, read_full_id, st_bind, st_gets, record_view.
  destruct (get_versioned (cache d) id) eqn:E; [done|].
  rewrite <- segment_key by done. apply (decoded_stored _ n); [done|]. intros b Hb.
  by destruct (proj2 (Hc _ _ Hb) (proj2 Hid)).
Qed.

Lemma steady_cache n d c : steady n d -> steady n (with_cache c d).
Proof.
  intros [H Hh [? ? ?]]. constructor; [|exact Hh|by constructor]. destruct H. by constructor.
Qed.

Lemma steady_weaken n d : steady (S n) d -> steady n d.
Proof.
  intros [H Hh [H1 H2 H3]]. constructor; [done..|]. constructor; [lia| |done].
  intros i p Hi. specialize (H2 i p Hi). unfold LIVE_VALUE_MAX, DIR_ENTRY_SIZE in *. lia.
Qed.

Lemma get_put_anchor (k : Z) slot c (k' : Z) :
  get_anchor (put_anchor k slot c) k' = if decide (k' = k) then Some slot else get_anchor c k'.
Proof.
  unfold get_anchor, put_anchor, AnchorKey in *. cbn [anchors].
  destruct (decide (k' = k)) as [->|Hne]; [by apply lookup_insert_eq|by apply lookup_insert_ne].
Qed.

Lemma get_put_versioned rec c (id : Z) :
  get_versioned (put_versioned rec c) id = if decide (id = vr_id rec) then Some rec else get_versioned c id.
Proof.
  unfold get_versioned, put_versioned. cbn [versioned].
  destruct (decide (id = vr_id rec)) as [->|Hne]; [by apply lookup_insert_eq|by apply lookup_insert_ne].
Qed.

(** What a write of [raw] leaves stored. *)
Definition stored_after (raw : Z) (bytes : list byte) (d d' : DataFile) : Prop :=
  forall raw' b, stored d' raw' b <-> if decide (raw' = raw) then b = bytes else stored d raw' b.

(** Caching a slot or record whose key has just been stored. *)
Lemma coherent_anchor d d' raw slot bytes :
  coherent d -> cache d' = cache d -> slot_from_bytes bytes = Done slot -> shard_id raw <> LIVE_TRACKER_SHARD ->
  stored_after raw bytes d d' -> coherent (with_cache (put_anchor raw slot (cache d')) d').
Proof.
  intros Hc Ec Hd Hsh Hst raw' b Hb. change (stored d' raw' b) in Hb. apply Hst in Hb.
  cbn [cache with_cache]. rewrite get_put_anchor, Ec.
  change (get_versioned (put_anchor raw slot (cache d)) raw') with (get_versioned (cache d) raw').
  destruct (decide (raw' = raw)) as [->|Hne]; [|by apply Hc].
  split; [by left|]. intros E. by rewrite E in Hsh.
Qed.

Lemma coherent_record d d' rec bytes :
  coherent d -> cache d' = cache d -> record_from_bytes bytes = Done rec ->
  (shard_id (vr_id rec) <> 0 \/ created_at (vr_id rec) <> 0) ->
  stored_after (vr_id rec) bytes d d' -> coherent (with_cache (put_versioned rec (cache d')) d').
Proof.
  intros Hc Ec Hd Hsh Hst raw' b Hb. change (stored d' raw' b) in Hb. apply Hst in Hb.
  cbn [cache with_cache]. rewrite get_put_versioned, Ec.
  change (get_anchor (put_versioned rec (cache d)) raw') with (get_anchor (cache d) raw').
  destruct (decide (raw' = vr_id rec)) as [->|Hne]; [|by apply Hc].
  split; [|by left]. intros E1 E2. by destruct Hsh.
Qed.

(** The views after a write. *)
Lemma slot_view_write n n' d d' raw slot bytes raw' :
  steady n d -> steady n' d' -> cache d' = cache d -> stored_after raw bytes d d' ->
  slot_view (with_cache (put_anchor raw slot (cache d')) d') raw' =
  if decide (raw' = raw) then Some slot else slot_view d raw'.
Proof.
  intros H H' Ec Hst. unfold slot_view. cbn [cache with_cache]. rewrite get_put_anchor, Ec.
  destruct (decide (raw' = raw)) as [->|Hne]; [done|].
  destruct (get_anchor (cache d) raw'); [done|].
  apply (stored_as_ext _ n n' d (with_cache (put_anchor raw slot (cache d)) d')); [done|by apply steady_cache|].
  intros b. etransitivity; [apply Hst|]. by rewrite decide_False.
Qed.

Lemma record_view_write n n' d d' rec bytes raw' :
  steady n d -> steady n' d' -> cache d' = cache d -> stored_after (vr_id rec) bytes d d' ->
  record_view (with_cache (put_versioned rec (cache d')) d') raw' =
  if decide (raw' = vr_id rec) then Some rec else record_view d raw'.
Proof.
  intros H H' Ec Hst. unfold record_view. cbn [cache with_cache]. rewrite get_put_versioned, Ec.
  destruct (decide (raw' = vr_id rec)) as [->|Hne]; [done|].
  destruct (get_versioned (cache d) raw'); [done|].
  apply (stored_as_ext _ n n' d (with_cache (put_versioned rec (cache d)) d')); [done|by apply steady_cache|].
  intros b. etransitivity; [apply Hst|]. by rewrite decide_False.
Qed.

(** A slot write is not seen by reads of other records, nor a record write by
    reads of other slots. *)
Lemma record_view_slot_write n n' d d' raw slot bytes id :
  steady n d -> steady n' d' -> cache d' = cache d -> stored_after raw bytes d d' -> id <> raw ->
  record_view (with_cache (put_anchor raw slot (cache d')) d') id = record_view d id.
Proof.
  intros H H' Ec Hst Hne. unfold record_view. cbn [cache with_cache]. rewrite Ec.
  change (get_versioned (put_anchor raw slot (cache d)) id) with (get_versioned (cache d) id).
  destruct (get_versioned (cache d) id); [done|].
  apply (stored_as_ext _ n n' d (with_cache (put_anchor raw slot (cache d)) d')); [done|by apply steady_cache|].
  intros b. etransitivity; [apply Hst|]. by rewrite decide_False.
Qed.

Lemma slot_view_record_write n n' d d' rec bytes raw :
  steady n d -> steady n' d' -> cache d' = cache d -> stored_after (vr_id rec) bytes d d' -> raw <> vr_id rec ->
  slot_view (with_cache (put_versioned rec (cache d')) d') raw = slot_view d raw.
Proof.
  intros H H' Ec Hst Hne. unfold slot_view. cbn [cache with_cache]. rewrite Ec.
  change (get_anchor (put_versioned rec (cache d)) raw) with (get_anchor (cache d) raw).
  destruct (get_anchor (cache d) raw); [done|].
  apply (stored_as_ext _ n n' d (with_cache (put_versioned rec (cache d)) d')); [done|by apply steady_cache|].
  intros b. etransitivity; [apply Hst|]. by rewrite decide_False.
Qed.

#[local] Opaque unique_anchor_id Id_new.

Lemma slot_decodes slot bytes : slot_wf slot -> slot_to_bytes slot = Done bytes -> slot_from_bytes bytes = Done slot.
Proof.
  unfold slot_to_bytes, slot_from_bytes, ser. intros Hwf E.
  destruct (to_wire wire_slot slot) as [b| |] eqn:Eb; [|done..]. injection E as ->.
  apply (to_wire_done wire_slot slot_wf) in Eb as [Hf ->]; [|done]. by rewrite (from_wire_enc wire_slot slot_wf).
Qed.

Lemma record_decodes rec bytes :
  record_wf rec -> record_to_bytes rec = Done bytes -> record_from_bytes bytes = Done rec.
Proof.
  unfold record_to_bytes, record_from_bytes, ser. intros Hwf E.
  destruct (to_wire wire_record rec) as [b| |] eqn:Eb; [|done..]. injection E as ->.
  apply (to_wire_done wire_record record_wf) in Eb as [Hf ->]; [|done]. by rewrite (from_wire_enc wire_record record_wf).
Qed.

(** *** The two writes, on a file with room *)

Lemma file_write_slot n d k t slot :
  file_ready (S n) d -> key_ok k t -> small_slot slot ->
  exists d', write_nonunique_tracker k t slot d = (Done tt, d') /\ file_ready n d' /\ same_shape d d' /\
    (forall raw, slot_view d' raw = if decide (raw = unique_anchor_id k t) then Some slot else slot_view d raw) /\
    (forall id, id <> unique_anchor_id k t -> record_view d' id = record_view d id) /\
    (forall id, get_versioned (cache d') id = get_versioned (cache d) id) /\
    exists bytes, slot_to_bytes slot = Done bytes /\ stored_after (unique_anchor_id k t) bytes d d'.
Proof.
  intros [H Hc] Hk (Hwf & bytes & Eb & Hl).
  destruct (steady_insert n d (unique_anchor_id k t) bytes H ltac:(lia)) as (d' & E & H' & Ec & Hshape & Hst);
    [apply (Id_new_fields t 0 k 0)|].
  destruct (tracker_fields k t Hk) as (_ & Hsh & _ & _).
  exists (with_cache (put_anchor (unique_anchor_id k t) slot (cache d')) d').
  split; [|split; [|split; [exact Hshape|split; [|split; [|split; [|by exists bytes]]]]]].
  - unfold write_nonunique_tracker, write_unique_anchor, write_slot_at, st_bind, st_lift.
    rewrite Eb. rewrite <- (tracker_key k t) by done. by rewrite E.
  - split; [by apply steady_cache|]. eapply coherent_anchor; [done|done|by apply slot_decodes| |done].
    by rewrite Hsh.
  - intros raw. by eapply slot_view_write.
  - intros id Hne. by eapply record_view_slot_write.
  - intros id. cbn [cache with_cache]. by rewrite Ec.
Qed.

Lemma file_write_record n d rec :
  file_ready (S n) d -> shard_id (vr_id rec) <> 0 \/ created_at (vr_id rec) <> 0 -> small_record rec ->
  exists d', insert_at_key (route_key_for_raw (vr_id rec)) (vr_id rec)
      (match record_to_bytes rec with Done b => b | _ => [] end) d = (Done tt, d') /\
    let d2 := with_cache (put_versioned rec (cache d')) d' in
    file_ready n d2 /\ same_shape d d2 /\
    (forall id, record_view d2 id = if decide (id = vr_id rec) then Some rec else record_view d id) /\
    (forall raw, raw <> vr_id rec -> slot_view d2 raw = slot_view d raw) /\
    (forall id, get_versioned (cache d2) id
                = if decide (id = vr_id rec) then Some rec else get_versioned (cache d) id) /\
    exists bytes, record_to_bytes rec = Done bytes /\ stored_after (vr_id rec) bytes d d2.
Proof.
  intros [H Hc] Hid (Hwf & bytes & Eb & Hl).
  destruct (steady_insert n d (vr_id rec) bytes H ltac:(lia)) as (d' & E & H' & Ec & Hshape & Hst); [apply Hwf|].
  exists d'. rewrite Eb. split; [done|]. split; [|split; [exact Hshape|split; [|split; [|split; [|by exists bytes]]]]].
  - split; [by apply steady_cache|]. eapply coherent_record; [done|done|by apply record_decodes|done|done].
  - intros id. by eapply record_view_write.
  - intros raw Hne. by eapply slot_view_record_write.
  - intros id. cbn [cache with_cache]. by rewrite get_put_versioned, Ec.
Qed.

Lemma write_versioned_run rec bytes d d' :
  route_key_for_raw (vr_id rec) = page_key_full (vr_id rec) -> record_to_bytes rec = Done bytes ->
  insert_at_key (route_key_for_raw (vr_id rec)) (vr_id rec) bytes d = (Done tt, d') ->
  write_versioned rec d = (Done tt, with_cache (put_versioned rec (cache d')) d').
Proof.
  intros Hk Eb E. unfold write_versioned, write_full_id, st_bind, st_lift. rewrite Eb, <- Hk. by rewrite E.
Qed.

(** A record key that is neither a tracker head's nor a segment's. *)
Definition plain_key (raw : Z) : Prop :=
  shard_id raw <> LIVE_TRACKER_SHARD /\ (shard_id raw <> 0 \/ created_at raw <> 0).

(** What the tracker's writes leave of the rest of the file: its shape and the
    records of plain keys, cached and stored. *)
Definition file_kept (d d' : DataFile) : Prop :=
  same_shape d d' /\ forall id, plain_key id ->
    get_versioned (cache d') id = get_versioned (cache d) id /\
    forall b, stored d' id b <-> stored d id b.

#[export] Instance file_laws : LiveLaws DataFile.
Proof.
  refine {| lv_ready := file_ready;
            lv_tracker d k t := slot_view d (unique_anchor_id k t);
            lv_record d id := record_view d id;
            lv_kept := file_kept |}.
  - intros d. split; [by split_and!|done].
  - intros d1 d2 d3 [S1 K1] [S2 K2]. split; [by eapply same_shape_trans|].
    intros id Hid. destruct (K1 id Hid) as [C1 T1]. destruct (K2 id Hid) as [C2 T2].
    split; [congruence|]. intros b. by rewrite T2.
  - intros n d [H Hc]. split; [by apply steady_weaken|done].
  - intros. by eapply file_read_tracker.
  - intros. by eapply file_read_record.
  - intros n d k t slot H Hk Hsl.
    destruct (file_write_slot n d k t slot H Hk Hsl) as (d' & E & H' & Hshape & Hv & Hr & Hrc & bytes & _ & Hst).
    exists d'. split; [done|]. split; [done|]. split; [|split].
    { split; [done|]. intros id [_ Hid]. split; [apply Hrc|]. intros b. rewrite (Hst id b), decide_False; [done|].
      intros ->. destruct (tracker_fields k t Hk) as (_ & H1 & _ & H2). destruct Hid; congruence. }
    + intros k' t' Hk'. rewrite Hv.
      destruct (decide (k' = k /\ t' = t)) as [[-> ->]|Hd]; [by rewrite decide_True|].
      rewrite decide_False; [done|]. intros Eq. apply Hd. by apply tracker_inj.
    + intros id [_ Hid]. apply Hr. intros ->. destruct (tracker_fields k t Hk) as (_ & Hsh & _). by rewrite Hsh in Hid.
  - intros n d rec H Hid Hsm.
    destruct (file_write_record n d rec H) as (d' & E & H' & Hshape & Hv & Hs & Hrc & bytes & Eb & Hst);
      [left; by rewrite (proj2 Hid)|done|].
    rewrite Eb in E.
    exists (with_cache (put_versioned rec (cache d')) d'). split; [|split; [done|split; [|split; [|intros id _; apply Hv]]]].
    2: { split; [done|]. intros id [Hne _]. rewrite Hrc.
         assert (id <> vr_id rec) by (intros ->; by destruct Hid).
         rewrite decide_False by done. split; [done|]. intros b. by rewrite (Hst id b), decide_False. }
    + apply (write_versioned_run rec bytes); [by apply segment_key|done|done].
    + intros k t Hk. apply Hs. intros Eq. destruct Hid as [_ Hid]. rewrite <- Eq in Hid.
      destruct (tracker_fields k t Hk) as (_ & Hsh & _). by rewrite Hsh in Hid.
Defined.

(** *** A fresh file *)

Lemma filter_none {A} (P : A -> Prop) `{!forall x, Decision (P x)} (l : list A) :
  Forall (fun x => ~ P x) l -> filter P l = [].
Proof. induction 1 as [|x l Hx _ IH]; [done|]. by rewrite filter_cons, decide_False by done. Qed.

Lemma opened_ready size count n :
  20 + Z.of_nat n * (LIVE_VALUE_MAX + 32) <= size -> 1076 <= size < 2 ^ 31 ->
  4 * Z.of_nat n < 3 * count -> 1 <= count < 2 ^ 50 ->
  file_ready n (opened size count).
Proof.
  intros Hn Hs Hw Hcount.
  destruct (opened_ok size count) as (H1 & H2 & H3 & H4 & H5); [lia|unfold DIR_ENTRY_SIZE; lia|lia|].
  assert (forall i p, pages (opened size count) !! i = Some p ->
    directory p = [] /\ entry_count (header p) = 0 /\ heap_offset (header p) = size) as Hp.
  { intros i p. unfold opened, open_with_mode. destruct (count =? 0); [done|].
    destruct (page_new size) as [q| |] eqn:Eq; simpl; [|done..].
    intros [-> _]%lookup_replicate. unfold page_new in Eq. apply obind_done in Eq as (_ & _ & Eq).
    by injection Eq as <-. }
  split.
  - constructor; [done..|]. constructor; [|rewrite ?H4..]; [| |lia].
    + assert (used_page_count (opened size count) = 0) as ->; [|rewrite H4; lia].
      unfold used_page_count.
      assert (filter (fun p => 0 < entry_count (header p)) (pages (opened size count)) = []) as ->; [|done].
      apply filter_none, Forall_lookup. intros i p Hi. destruct (Hp i p Hi) as (_ & -> & _). lia.
    + intros i p Hi. destruct (Hp i p Hi) as (Hd & _ & Hh).
      unfold slack. rewrite Hd, Hh. unfold HEADER_SIZE, DIR_ENTRY_SIZE, zlen in *. simpl. lia.
  - intros raw b (i & Hi). unfold at_page in Hi. destruct (pages _ !! i) as [p|] eqn:E; [|done].
    destruct (Hp i p E) as (Hd & _). simpl in Hi. unfold contents in Hi. by rewrite Hd in Hi.
Qed.

Lemma opened_cache size count : cache (opened size count) = cache_new.
Proof.
  unfold opened, open_with_mode. destruct (count =? 0); [done|].
  by destruct (page_new size) as [p| |].
Qed.

Lemma opened_empty size count i raw : at_page (pages (opened size count)) i raw = None.
Proof.
  unfold opened, open_with_mode, at_page. destruct (count =? 0); [done|].
  destruct (page_new size) as [q| |] eqn:Eq; simpl; [|done..].
  destruct (_ !! i) as [p|] eqn:Hp; [|done]. apply lookup_replicate in Hp as [-> _].
  unfold page_new in Eq. apply obind_done in Eq as (_ & _ & Eq). by injection Eq as <-.
Qed.

(** A file that holds nothing tracks nothing. *)
Lemma empty_tracks d k t :
  cache d = cache_new -> (forall i raw, at_page (pages d) i raw = None) -> tracks d k t 0 [].
Proof.
  intros Hc Hn. exists [], []. split; [|done].
  constructor; [|split; [constructor|simpl; lia]|by intros i ids ?|done].
  unfold head_at. cbn [lv_tracker file_laws]. unfold slot_view, stored_as.
  rewrite Hc, search_none by (intros i; apply Hn). done.
Qed.

Lemma opened_tracks size count k t : tracks (opened size count) k t 0 [].
Proof. apply empty_tracks; [apply opened_cache | intros; apply opened_empty]. Qed.

(** ** Witnesses for the tracker's properties on a fresh file *)

Definition demo_file : DataFile := opened 20000 4.

Lemma demo_ready : file_ready 2 demo_file.
Proof. apply opened_ready; unfold LIVE_VALUE_MAX; lia. Qed.

Lemma live_append_tracks_witness :
  exists s', live_append 7 1 5 demo_file = (Done tt, s') /\ lv_ready 0 s' /\
    tracks s' 7 1 (0 + 1) ([] ++ [5]) /\
    forall k' t' m' l', key_ok k' t' -> (k', t') <> (7, 1) ->
      tracks demo_file k' t' m' l' -> tracks s' k' t' m' l'.
Proof.
  apply (live_append_tracks 0 demo_file 7 1 0 [] 5).
  - exact demo_ready.
  - by vm_compute.
  - by vm_compute.
  - apply opened_tracks.
  - lia.
Defined.

Lemma live_remove_tracks_witness :
  exists s', live_remove 7 1 5 demo_file = (Done (bool_decide (5 ∈ ([] : list Z))), s') /\ lv_ready 1 s' /\
    (exists l', tracks s' 7 1 0 l' /\ (5 ∈ [] -> drops 5 [] l') /\ (5 ∉ [] -> l' = [] /\ s' = demo_file)) /\
    forall k' t' m' l', key_ok k' t' -> (k', t') <> (7, 1) ->
      tracks demo_file k' t' m' l' -> tracks s' k' t' m' l'.
Proof.
  apply (live_remove_tracks 1 demo_file 7 1 0 [] 5).
  - exact demo_ready.
  - by vm_compute.
  - apply opened_tracks.
Defined.

Lemma live_rebuild_tracks_witness :
  exists s' l', live_rebuild 7 1 [9; 3; 9] demo_file = (Done tt, s') /\ lv_ready 1 s' /\
    tracks s' 7 1 (2 ^ 48) l' /\ StronglySorted live_lt l' /\
    (forall x, x ∈ l' <-> x ∈ ([] : list Z) \/ x ∈ [9; 3; 9]) /\
    forall k' t' m' l', key_ok k' t' -> (k', t') <> (7, 1) ->
      tracks demo_file k' t' m' l' -> tracks s' k' t' m' l'.
Proof.
  apply (live_rebuild_tracks 1 demo_file 7 1 0 [] [9; 3; 9]).
  - exact demo_ready.
  - by vm_compute.
  - apply opened_tracks.
  - repeat constructor; by vm_compute.
  - by vm_compute.
Defined.

Lemma live_run_refines_witness :
  exists s' B, st_iter (fun c => live_exec c.1.1 c.1.2 c.2) [((7, 1), OpAppend 5)] demo_file
      = (Done tt, s') /\
    lv_ready 0 s' /\ spec_run [((7, 1), OpAppend 5)] (fun _ => []) B /\
    simulates s' (0 + zlen [((7, 1), OpAppend 5)]) B /\
    forall k t, key_ok k t -> live_ids k t s' = (Done (B (k, t)), s').
Proof.
  apply (live_run_refines [((7, 1), OpAppend 5)] 0 demo_file 0 (fun _ => [])).
  - exact demo_ready.
  - by repeat constructor; vm_compute.
  - intros k t _. apply opened_tracks.
  - lia.
  - by vm_compute.
Defined.
