(* ===== verification/Heap.v ===== *)
(** * The content-addressed heap file (wavedb-storage: heap.rs, compression/heap_zstd.rs)

    A heap file is its block buffer and the ranges freed so far.  Offsets are
    [usize] values of 64 bits: an addition that leaves them is [Fault], as is a
    slice out of range.  The zstd codec is a parameter, and the heap anchors are
    reached through the class [AnchorStore], which the page file implements. *)
From S2P Require Import Prelude Wire WireOk Errors Ids Page Anchor DataFile.

Definition HEAP_BLOCK_SIZE : Z := 4096.
Definition DEFAULT_MAX_INLINE : Z := 1024.
Definition SIZE_HEADER : Z := 8.
Definition COUNT_FIELD : Z := 8.
Definition OWNER_BYTES : Z := 16.

(** 128-bit FNV-1a. *)
Definition content_hash128 (bytes : list byte) : Z :=
  foldl (fun hash b => wrap 128 (Z.lxor hash (byte_val b) * 0x0000000001000000000000000000013B))
    0x6c62272e07bb014262b821756295c58d bytes.

Inductive HeapPlacement : Type :=
  | Inline (bytes : list byte)
  | InHeap (content_hash block : Z).

Record EntryView : Type := { ev_start : Z; ev_size : Z; ev_count : Z }.

Definition count_at (e : EntryView) : Z := ev_start e + 8 + ev_size e.
Definition owner_at (e : EntryView) (i : Z) : Z := count_at e + 8 + i * 16.
Definition used (e : EntryView) : Z :=
  SIZE_HEADER + ev_size e + COUNT_FIELD + OWNER_BYTES * ev_count e.

(** [div_ceil]. *)
Definition blocks_for (bytes : Z) : Z := (bytes + HEAP_BLOCK_SIZE - 1) / HEAP_BLOCK_SIZE.

(** [heap_disk] is the file at the path, none for the path "/dev/null". *)
Record HeapFile : Type := {
  heap_disk : option (list byte);
  buffer : list byte;
  max_inline : Z;
  freed : list (Z * Z)
}.

Definition heap_open (found : list byte) : HeapFile :=
  {| heap_disk := Some found; buffer := found; max_inline := DEFAULT_MAX_INLINE; freed := [] |}.
Definition heap_in_memory : HeapFile :=
  {| heap_disk := None; buffer := []; max_inline := DEFAULT_MAX_INLINE; freed := [] |}.
Definition set_max_inline (max : Z) (h : HeapFile) : HeapFile :=
  {| heap_disk := heap_disk h; buffer := buffer h; max_inline := max; freed := freed h |}.
Definition with_buffer (b : list byte) (h : HeapFile) : HeapFile :=
  {| heap_disk := heap_disk h; buffer := b; max_inline := max_inline h; freed := freed h |}.
Definition push_freed (r : Z * Z) (h : HeapFile) : HeapFile :=
  {| heap_disk := heap_disk h; buffer := buffer h; max_inline := max_inline h;
     freed := freed h ++ [r] |}.

Definition take_freed (h : HeapFile) : HeapFile * list (Z * Z) :=
  ({| heap_disk := heap_disk h; buffer := buffer h; max_inline := max_inline h; freed := [] |},
   freed h).

Definition heap_flush (h : HeapFile) : HeapFile :=
  match heap_disk h with
  | None => h
  | Some _ => {| heap_disk := Some (buffer h); buffer := buffer h;
                 max_inline := max_inline h; freed := freed h |}
  end.

Definition heap_size (h : HeapFile) : Z := zlen (buffer h).

(** [buffer[at..at + bytes.len()].copy_from_slice(bytes)]. *)
Definition write_at (at_ : Z) (bytes buf : list byte) : StorageResult (list byte) :=
  expect (put at_ bytes buf).

Fixpoint write_owners (at_ : Z) (owners : list Z) (buf : list byte) : StorageResult (list byte) :=
  match owners with
  | [] => Done buf
  | owner :: owners => let* buf := write_at at_ (le_bytes 16 owner) buf in
                       write_owners (at_ + 16) owners buf
  end.

Definition append_entry (h : HeapFile) (stored : list byte) (owner : Z)
    : StorageResult (HeapFile * Z) :=
  let start_block := blocks_for (zlen (buffer h)) in
  let start := start_block * HEAP_BLOCK_SIZE in
  let used := SIZE_HEADER + zlen stored + COUNT_FIELD + OWNER_BYTES in
  let alloc := blocks_for used * HEAP_BLOCK_SIZE in
  do* guard (fitsb 64 (start + alloc)) in
  let buf := resize (start + alloc) (buffer h) in
  let* buf := write_at start (le_bytes 8 (zlen stored)) buf in
  let* buf := write_at (start + 8) stored buf in
  let count_at := start + 8 + zlen stored in
  let* buf := write_at count_at (le_bytes 8 1) buf in
  let* buf := write_at (count_at + 8) (le_bytes 16 owner) buf in
  Done (with_buffer buf h, start_block).

Definition append_relocated (h : HeapFile) (value : list byte) (owners : list Z)
    : StorageResult (HeapFile * Z) :=
  let start_block := blocks_for (zlen (buffer h)) in
  let start := start_block * HEAP_BLOCK_SIZE in
  let used := SIZE_HEADER + zlen value + COUNT_FIELD + OWNER_BYTES * zlen owners in
  let alloc := blocks_for used * HEAP_BLOCK_SIZE in
  do* guard (fitsb 64 (start + alloc)) in
  let buf := resize (start + alloc) (buffer h) in
  let* buf := write_at start (le_bytes 8 (zlen value)) buf in
  let* buf := write_at (start + 8) value buf in
  let count_at := start + 8 + zlen value in
  let* buf := write_at count_at (le_bytes 8 (zlen owners)) buf in
  let* buf := write_owners (count_at + 8) owners buf in
  Done (with_buffer buf h, start_block).

(** [entry]: parse and bounds-check. *)
Definition entry (h : HeapFile) (block : Z) : StorageResult EntryView :=
  let len := zlen (buffer h) in
  let start := block * HEAP_BLOCK_SIZE in
  do* guard (fitsb 64 (start + 16)) in
  if len <? start + 16 then Fail (Other "heap block out of bounds")
  else
    let* b := expect (sub start (start + 8) (buffer h)) in
    let size := le_val b in
    let count_at := start + 8 + size in
    do* guard (fitsb 64 (count_at + 8)) in
    if len <? count_at + 8 then Fail (Other "heap entry truncated")
    else
      let* b := expect (sub count_at (count_at + 8) (buffer h)) in
      let count := le_val b in
      do* guard (fitsb 64 (count_at + 8 + count * 16)) in
      if len <? count_at + 8 + count * 16 then Fail (Other "heap entry truncated")
      else Done {| ev_start := start; ev_size := size; ev_count := count |}.

Definition value_of (h : HeapFile) (e : EntryView) : StorageResult (list byte) :=
  expect (sub (ev_start e + 8) (ev_start e + 8 + ev_size e) (buffer h)).

Definition read_value (h : HeapFile) (block : Z) : StorageResult (list byte) :=
  let* e := entry h block in value_of h e.

(** Owner [i] of an entry. *)
Definition owner_bytes (h : HeapFile) (e : EntryView) (i : Z) : StorageResult (list byte) :=
  expect (sub (owner_at e i) (owner_at e i + 16) (buffer h)).

Fixpoint owners_from (h : HeapFile) (e : EntryView) (i : Z) (n : nat) : StorageResult (list Z) :=
  match n with
  | O => Done []
  | S n => let* b := owner_bytes h e i in
           let* out := owners_from h e (i + 1) n in
           Done (le_val b :: out)
  end.

Definition owners (h : HeapFile) (block : Z) : StorageResult (list Z) :=
  let* e := entry h block in owners_from h e 0 (Z.to_nat (ev_count e)).

(** The first owner slot, from [i] on, that holds [owner]. *)
Fixpoint find_owner (h : HeapFile) (e : EntryView) (owner i : Z) (n : nat)
    : StorageResult (option Z) :=
  match n with
  | O => Done None
  | S n => let* b := owner_bytes h e i in
           if decide (b = le_bytes 16 owner) then Done (Some i)
           else find_owner h e owner (i + 1) n
  end.

(** The end of [add_owner]: the count and the new owner, in place. *)
Definition push_owner (h : HeapFile) (e : EntryView) (owner : Z) : StorageResult HeapFile :=
  let* buf := write_at (count_at e) (le_bytes 8 (ev_count e + 1)) (buffer h) in
  let* buf := write_at (owner_at e (ev_count e)) (le_bytes 16 owner) buf in
  Done (with_buffer buf h).

Definition add_owner (h : HeapFile) (block owner : Z) : StorageResult (HeapFile * option Z) :=
  let* e := entry h block in
  let* found := find_owner h e owner 0 (Z.to_nat (ev_count e)) in
  match found with
  | Some _ => Done (h, None)
  | None =>
    let old_alloc := blocks_for (used e) in
    let new_alloc := blocks_for (used e + OWNER_BYTES) in
    if old_alloc <? new_alloc then
      let entry_end := ev_start e + old_alloc * HEAP_BLOCK_SIZE in
      if entry_end =? zlen (buffer h) then
        let h := with_buffer (resize (zlen (buffer h) + HEAP_BLOCK_SIZE) (buffer h)) h in
        let* h := push_owner h e owner in
        Done (h, None)
      else
        let* value := value_of h e in
        let* os := owners h block in
        let* (h, new_block) := append_relocated h value (os ++ [owner]) in
        Done (push_freed (block, old_alloc) h, Some new_block)
    else
      let* h := push_owner h e owner in
      Done (h, None)
  end.

Definition remove_owner (h : HeapFile) (block owner : Z) : StorageResult (HeapFile * bool) :=
  let* e := entry h block in
  let* found := find_owner h e owner 0 (Z.to_nat (ev_count e)) in
  match found with
  | None => Done (h, ev_count e =? 0)
  | Some found =>
    let last := ev_count e - 1 in
    let* buf :=
      if found =? last then Done (buffer h)
      else let* bytes := owner_bytes h e last in
           write_at (owner_at e found) bytes (buffer h) in
    let* buf := write_at (count_at e) (le_bytes 8 last) buf in
    let h := with_buffer buf h in
    if last =? 0 then Done (push_freed (block, blocks_for (used e)) h, true)
    else Done (h, false)
  end.

(** ** The codec *)

Section codec.
Variables encode_all decode_all : list byte -> outcome string (list byte).

Definition compress (v : list byte) : StorageResult (list byte) := omap_err Io (encode_all v).
Definition decompress (b : list byte) : StorageResult (list byte) := omap_err Io (decode_all b).

Definition read_decompressed (h : HeapFile) (block : Z) : StorageResult (list byte) :=
  let* stored := read_value h block in decompress stored.

Definition store (h : HeapFile) (value : list byte) (owner : Z)
    : StorageResult (HeapFile * HeapPlacement) :=
  let* compressed := compress value in
  if zlen compressed <=? max_inline h then Done (h, Inline compressed)
  else
    let content_hash := content_hash128 compressed in
    let* (h, block) := append_entry h compressed owner in
    Done (h, InHeap content_hash block).
End codec.

(** ** Heap anchors and deduplication *)

Class AnchorStore (S : Type) : Type := {
  as_read : Z -> ST S StorageError (option Z);
  as_write : Z -> Z -> ST S StorageError unit;
  as_clear : Z -> ST S StorageError unit
}.

#[export] Instance datafile_anchors : AnchorStore DataFile := {|
  as_read := read_heap_anchor;
  as_write := write_heap_anchor;
  as_clear := clear_heap_anchor
|}.

(** The hash as [{content_hash:#034x}]: [0x] and 32 digits. *)
Definition hash_text (hash : Z) : string :=
  String.append "0x" (String.string_of_list_ascii (map
    (fun k => let v := Z.land (Z.shiftr hash (4 * Z.of_nat k)) 0xf in
              Ascii.ascii_of_nat (Z.to_nat (if v <? 10 then 0x30 + v else 0x57 + v)))
    (rev (List.seq 0 32)))).

Section dedup.
Context {S : Type} `{AnchorStore S}.
Variables encode_all decode_all : list byte -> outcome string (list byte).

(** The anchors and the heap, both updated in place. *)
Abbreviation M := (ST (S * HeapFile) StorageError).

Definition on_anchors {A} (m : ST S StorageError A) : M A :=
  fun '(s, h) => let '(r, s) := m s in (r, (s, h)).
Definition on_heap {A} (f : HeapFile -> StorageResult (HeapFile * A)) : M A :=
  fun '(s, h) => match f h with
                 | Done (h, a) => (Done a, (s, h))
                 | Fail e => (Fail e, (s, h))
                 | Fault => (Fault, (s, h))
                 end.

Definition dedup_store (value : list byte) (owner : Z) : M HeapPlacement :=
  let! compressed := st_lift (compress encode_all value) in
  let! max := st_gets (fun '(_, h) => max_inline h) in
  if zlen compressed <=? max then st_ret (Inline compressed)
  else
    let content_hash := content_hash128 compressed in
    let! found := on_anchors (as_read content_hash) in
    match found with
    | Some block =>
      let! stored := on_heap (fun h => let* v := read_value h block in Done (h, v)) in
      if decide (stored = compressed) then
        let! moved := on_heap (fun h => add_owner h block owner) in
        match moved with
        | Some new_block =>
          do! on_anchors (as_write content_hash new_block) in
          st_ret (InHeap content_hash new_block)
        | None => st_ret (InHeap content_hash block)
        end
      else st_lift (Fail (Other (String.append "content hash collision at " (hash_text content_hash))))
    | None =>
      let! block := on_heap (fun h => append_entry h compressed owner) in
      do! on_anchors (as_write content_hash block) in
      st_ret (InHeap content_hash block)
    end.

Definition dedup_read (content_hash : Z) : M (option (list byte)) :=
  let! found := on_anchors (as_read content_hash) in
  match found with
  | None => st_ret None
  | Some block =>
    let! v := on_heap (fun h => let* v := read_decompressed decode_all h block in Done (h, v)) in
    st_ret (Some v)
  end.

Definition release_owner (content_hash owner : Z) : M bool :=
  let! found := on_anchors (as_read content_hash) in
  match found with
  | None => st_ret false
  | Some block =>
    let! dead := on_heap (fun h => remove_owner h block owner) in
    do! (if (dead : bool) then on_anchors (as_clear content_hash) else st_ret tt) in
    st_ret dead
  end.
End dedup.
