(* ===== verification/HeapOk.v ===== *)
(** * Correctness of the heap file and of its deduplication

    A heap file holds a map from block positions to entries: a value, the records
    that own it, and the number of blocks allocated to it. *)
From S2P Require Import Prelude Wire Errors Ids Anchor DataFile Heap.

Record Entry : Type := { he_value : list byte; he_owners : list Z; he_alloc : Z }.

Definition owners_bytes (os : list Z) : list byte := concat (map (le_bytes 16) os).

Definition entry_bytes (v : list byte) (os : list Z) : list byte :=
  le_bytes 8 (zlen v) ++ v ++ le_bytes 8 (zlen os) ++ owners_bytes os.

Definition entry_used (v : list byte) (os : list Z) : Z := 16 + zlen v + 16 * zlen os.

Lemma zlen_owners os : zlen (owners_bytes os) = 16 * zlen os.
Proof.
  unfold owners_bytes, zlen. induction os as [|o os IH]; simpl; [done|].
  rewrite length_app, length_le_bytes. lia.
Qed.

Lemma zlen_entry v os : zlen (entry_bytes v os) = entry_used v os.
Proof. unfold entry_bytes, entry_used. rewrite !zlen_app, zlen_owners, !zlen_le_bytes. lia. Qed.

(** ** One entry in a buffer *)

(** The four parts of an entry at byte [a]. *)
Lemma entry_parts buf a v os :
  stands buf a (entry_bytes v os) <->
  stands buf a (le_bytes 8 (zlen v)) /\ stands buf (a + 8) v /\
  stands buf (a + 8 + zlen v) (le_bytes 8 (zlen os)) /\
  stands buf (a + 8 + zlen v + 8) (owners_bytes os).
Proof. unfold entry_bytes. rewrite !stands_app, !zlen_le_bytes. done. Qed.

Lemma owner_slot buf a os i o :
  stands buf a (owners_bytes os) -> os !! i = Some o -> stands buf (a + 16 * Z.of_nat i) (le_bytes 16 o).
Proof.
  intros H Hi. rewrite <- (take_drop_middle _ _ _ Hi) in H. unfold owners_bytes in H.
  rewrite map_app, concat_app in H. simpl in H. apply stands_app in H as [_ H].
  apply stands_app in H as [H _]. pose proof (zlen_owners (take i os)) as E.
  unfold owners_bytes, zlen in E. rewrite length_take_le in E by (apply lookup_lt_Some in Hi; lia).
  unfold zlen in H. by rewrite E in H.
Qed.

Definition view (a : Z) (v : list byte) (os : list Z) : EntryView :=
  {| ev_start := a; ev_size := zlen v; ev_count := zlen os |}.

Lemma used_view a v os : used (view a v os) = entry_used v os.
Proof. unfold used, entry_used, SIZE_HEADER, COUNT_FIELD, OWNER_BYTES. simpl. lia. Qed.

(** Fields small enough for the offsets to be [usize] values. *)
Definition small_file (h : HeapFile) : Prop := zlen (buffer h) < 2 ^ 62.

Lemma sub_some_stands {A} (l xs : list A) a b :
  stands l a xs -> b = a + zlen xs -> sub a b l = Some xs.
Proof. intros. by apply sub_stands. Qed.

Lemma entry_spec h block v os :
  small_file h -> stands (buffer h) (block * HEAP_BLOCK_SIZE) (entry_bytes v os) ->
  entry h block = Done (view (block * HEAP_BLOCK_SIZE) v os).
Proof.
  intros Hs Hst. pose proof (stands_bound _ _ _ Hst) as [H0 Hb]. rewrite zlen_entry in Hb.
  apply entry_parts in Hst as (H1 & _ & H3 & _). unfold small_file, entry_used in *.
  pose proof (zlen_nonneg v). pose proof (zlen_nonneg os). unfold entry.
  set (a := block * HEAP_BLOCK_SIZE) in *.
  assert (forall n, 0 <= n < 2 ^ 62 -> fitsb 64 n = true) as Hf
    by (intros; apply fitsb_spec; unfold fits; lia).
  rewrite (Hf (a + 16)) by lia. cbn [guard obind].
  destruct (Z.ltb_spec (zlen (buffer h)) (a + 16)); [lia|].
  rewrite (sub_some_stands _ _ _ _ H1) by (by rewrite zlen_le_bytes). cbn [expect obind].
  rewrite le_val_bytes by (unfold fits; lia).
  rewrite (Hf (a + 8 + zlen v + 8)) by lia. cbn [guard obind].
  destruct (Z.ltb_spec (zlen (buffer h)) (a + 8 + zlen v + 8)); [lia|].
  rewrite (sub_some_stands _ _ _ _ H3) by (by rewrite zlen_le_bytes). cbn [expect obind].
  rewrite le_val_bytes by (unfold fits; lia).
  rewrite (Hf (a + 8 + zlen v + 8 + zlen os * 16)) by lia. cbn [guard obind].
  destruct (Z.ltb_spec (zlen (buffer h)) (a + 8 + zlen v + 8 + zlen os * 16)); [lia|]. done.
Qed.

Lemma value_spec h a v os :
  stands (buffer h) a (entry_bytes v os) -> value_of h (view a v os) = Done v.
Proof.
  intros (_ & H & _)%entry_parts. unfold value_of. simpl.
  by rewrite (sub_some_stands _ _ _ _ H).
Qed.

Lemma owner_bytes_spec h a v os i o :
  stands (buffer h) a (entry_bytes v os) -> os !! i = Some o ->
  owner_bytes h (view a v os) (Z.of_nat i) = Done (le_bytes 16 o).
Proof.
  intros (_ & _ & _ & H)%entry_parts Hi. pose proof (owner_slot _ _ _ _ _ H Hi) as Ho.
  unfold owner_bytes, owner_at, count_at. simpl. rewrite (Z.mul_comm _ 16).
  rewrite (sub_some_stands _ _ _ _ Ho); [done|]. rewrite zlen_le_bytes. lia.
Qed.

Lemma owners_from_spec h a v os k :
  stands (buffer h) a (entry_bytes v os) -> Forall (fits 128) os -> (k <= length os)%nat ->
  owners_from h (view a v os) (Z.of_nat (length os - k)) k = Done (drop (length os - k) os).
Proof.
  intros Hst Hf. induction k as [|k IH]; intros Hk.
  - simpl. by rewrite drop_ge by lia.
  - cbn [owners_from]. destruct (lookup_lt_is_Some_2 os (length os - S k)) as [o Ho]; [lia|].
    rewrite (owner_bytes_spec _ _ _ _ _ o) by done. cbn [obind].
    replace (Z.of_nat (length os - S k) + 1) with (Z.of_nat (length os - k)) by lia.
    rewrite IH by lia. cbn [obind]. rewrite le_val_bytes.
    + rewrite (drop_S _ _ _ Ho). by replace (S (length os - S k)) with (length os - k)%nat by lia.
    + by apply (Forall_lookup_1 _ _ _ _ Hf Ho).
Qed.

Lemma owners_spec h block v os :
  small_file h -> stands (buffer h) (block * HEAP_BLOCK_SIZE) (entry_bytes v os) ->
  Forall (fits 128) os -> owners h block = Done os.
Proof.
  intros Hs Hst Hf. unfold owners. rewrite (entry_spec _ _ v os) by done. cbn [obind].
  simpl ev_count. unfold zlen. rewrite Nat2Z.id.
  pose proof (owners_from_spec h _ v os (length os) Hst Hf ltac:(lia)) as H.
  by rewrite Nat.sub_diag in H.
Qed.

(** The search finds the first slot of the owner. *)
Lemma find_owner_spec h a v os o k :
  stands (buffer h) a (entry_bytes v os) -> Forall (fits 128) os -> fits 128 o -> (k <= length os)%nat ->
  match find_owner h (view a v os) o (Z.of_nat (length os - k)) k with
  | Done (Some i) => 0 <= i < zlen os /\ os !! Z.to_nat i = Some o
  | Done None => o ∉ drop (length os - k) os
  | _ => False
  end.
Proof.
  intros Hst Hf Ho. induction k as [|k IH]; intros Hk.
  - simpl. rewrite drop_ge by lia. apply not_elem_of_nil.
  - cbn [find_owner]. destruct (lookup_lt_is_Some_2 os (length os - S k)) as [x Hx]; [lia|].
    rewrite (owner_bytes_spec _ _ _ _ _ x) by done. cbn [obind].
    pose proof (Forall_lookup_1 _ _ _ _ Hf Hx).
    destruct (decide (le_bytes 16 x = le_bytes 16 o)) as [E|Hne].
    + apply le_bytes_inj in E as ->; [|done..]. rewrite Nat2Z.id. unfold zlen. split; [lia|done].
    + replace (Z.of_nat (length os - S k) + 1) with (Z.of_nat (length os - k)) by lia.
      specialize (IH ltac:(lia)). rewrite (drop_S _ _ _ Hx).
      replace (S (length os - S k)) with (length os - k)%nat by lia.
      destruct (find_owner _ _ _ _ _) as [[i|]| |]; [done| |done..].
      apply not_elem_of_cons. split; [congruence|done].
Qed.

(** ** Writes *)

Lemma write_at_spec a xs buf :
  0 <= a -> a + zlen xs <= zlen buf ->
  exists buf', write_at a xs buf = Done buf' /\ zlen buf' = zlen buf /\ stands buf' a xs /\
    forall b ys, stands buf b ys -> b + zlen ys <= a \/ a + zlen xs <= b -> stands buf' b ys.
Proof.
  intros Ha Hb. unfold write_at. pose proof (put_some buf a xs Ha Hb) as E. rewrite E. simpl.
  eexists. split; [done|]. split; [by eapply put_length|]. split; [by eapply put_here|].
  intros b ys Hst Hd. by eapply put_other.
Qed.

Lemma write_owners_spec os : forall a buf,
  0 <= a -> a + 16 * zlen os <= zlen buf ->
  exists buf', write_owners a os buf = Done buf' /\ zlen buf' = zlen buf /\
    stands buf' a (owners_bytes os) /\
    forall b ys, stands buf b ys -> b + zlen ys <= a \/ a + 16 * zlen os <= b -> stands buf' b ys.
Proof.
  induction os as [|o os IH]; intros a buf Ha Hb.
  - exists buf. split; [done|]. split; [done|]. split; [|done]. split; [done|].
    apply has_at_nil_at. unfold zlen in *. simpl in Hb. lia.
  - assert (zlen (o :: os) = 1 + zlen os) as Ez by (unfold zlen; simpl; lia). rewrite Ez in *.
    pose proof (zlen_nonneg os).
    destruct (write_at_spec a (le_bytes 16 o) buf) as (b1 & E1 & Hl1 & Hs1 & Ho1);
      [lia|rewrite zlen_le_bytes; lia|]. rewrite zlen_le_bytes in Ho1.
    destruct (IH (a + 16) b1) as (b2 & E2 & Hl2 & Hs2 & Ho2); [lia|lia|].
    exists b2. cbn [write_owners]. rewrite E1. cbn [obind]. split; [done|]. split; [lia|]. split.
    + change (owners_bytes (o :: os)) with (le_bytes 16 o ++ owners_bytes os).
      apply stands_app. rewrite zlen_le_bytes. split; [|done].
      apply Ho2; [done|]. left. rewrite zlen_le_bytes. lia.
    + intros b ys Hst Hd. apply Ho2; [apply Ho1; [done|lia]|lia].
Qed.

(** Header, value, count and owners written one after the other make an entry. *)
Lemma write_entry_spec a v os buf :
  0 <= a -> a + entry_used v os <= zlen buf ->
  exists b1 b2 b3 b4, write_at a (le_bytes 8 (zlen v)) buf = Done b1 /\
    write_at (a + 8) v b1 = Done b2 /\ write_at (a + 8 + zlen v) (le_bytes 8 (zlen os)) b2 = Done b3 /\
    write_owners (a + 8 + zlen v + 8) os b3 = Done b4 /\ zlen b4 = zlen buf /\
    stands b4 a (entry_bytes v os) /\
    forall b ys, stands buf b ys -> b + zlen ys <= a -> stands b4 b ys.
Proof.
  unfold entry_used. intros Ha Hb. pose proof (zlen_nonneg v). pose proof (zlen_nonneg os).
  destruct (write_at_spec a (le_bytes 8 (zlen v)) buf) as (b1 & E1 & Hl1 & Hs1 & Ho1);
    [lia|rewrite zlen_le_bytes; lia|]. rewrite zlen_le_bytes in Ho1.
  destruct (write_at_spec (a + 8) v b1) as (b2 & E2 & Hl2 & Hs2 & Ho2); [lia|lia|].
  destruct (write_at_spec (a + 8 + zlen v) (le_bytes 8 (zlen os)) b2) as (b3 & E3 & Hl3 & Hs3 & Ho3);
    [lia|rewrite zlen_le_bytes; lia|]. rewrite zlen_le_bytes in Ho3.
  destruct (write_owners_spec os (a + 8 + zlen v + 8) b3) as (b4 & E4 & Hl4 & Hs4 & Ho4); [lia|lia|].
  exists b1, b2, b3, b4. do 4 (split; [done|]). split; [lia|]. split.
  - apply entry_parts. split; [|split; [|split; [|done]]].
    + apply Ho4; [apply Ho3; [apply Ho2; [done|]|]|]; rewrite zlen_le_bytes; lia.
    + apply Ho4; [apply Ho3; [done|]|]; lia.
    + apply Ho4; [done|rewrite zlen_le_bytes; lia].
  - intros b ys Hst Hd. apply Ho4; [|lia]. apply Ho3; [|lia]. apply Ho2; [|lia]. apply Ho1; [done|lia].
Qed.

(** ** Block arithmetic *)

Lemma blocks_for_spec n : 0 <= n -> n <= blocks_for n * HEAP_BLOCK_SIZE < n + HEAP_BLOCK_SIZE.
Proof. intros. unfold blocks_for, HEAP_BLOCK_SIZE. Z.to_euclidean_division_equations. lia. Qed.

Lemma blocks_for_mult n : blocks_for (n * HEAP_BLOCK_SIZE) = n.
Proof. unfold blocks_for, HEAP_BLOCK_SIZE. Z.to_euclidean_division_equations. lia. Qed.

Lemma blocks_for_mono a b : a <= b -> blocks_for a <= blocks_for b.
Proof. intros. unfold blocks_for, HEAP_BLOCK_SIZE. apply Z.div_le_mono; lia. Qed.

Lemma blocks_for_add n : 0 <= n -> blocks_for (n + 16) <= blocks_for n + 1.
Proof. intros. unfold blocks_for, HEAP_BLOCK_SIZE. Z.to_euclidean_division_equations. lia. Qed.

Lemma entry_used_pos v os : 16 <= entry_used v os.
Proof. unfold entry_used. pose proof (zlen_nonneg v). pose proof (zlen_nonneg os). lia. Qed.

(** ** The file as a map *)

Record heap_ok (h : HeapFile) (m : gmap Z Entry) : Prop := {
  hk_blocks : exists n, zlen (buffer h) = n * HEAP_BLOCK_SIZE;
  hk_entry : forall b e, m !! b = Some e ->
    0 <= b /\ stands (buffer h) (b * HEAP_BLOCK_SIZE) (entry_bytes (he_value e) (he_owners e)) /\
    Forall (fits 128) (he_owners e) /\
    blocks_for (entry_used (he_value e) (he_owners e)) <= he_alloc e /\
    (b + he_alloc e) * HEAP_BLOCK_SIZE <= zlen (buffer h);
  hk_disjoint : forall b1 b2 e1 e2, m !! b1 = Some e1 -> m !! b2 = Some e2 -> b1 < b2 ->
    b1 + he_alloc e1 <= b2
}.

Lemma heap_ok_end h m b e : heap_ok h m -> m !! b = Some e ->
  b * HEAP_BLOCK_SIZE + entry_used (he_value e) (he_owners e) <= (b + he_alloc e) * HEAP_BLOCK_SIZE.
Proof.
  intros H He. destruct (hk_entry _ _ H b e He) as (_ & _ & _ & Ha & _).
  pose proof (entry_used_pos (he_value e) (he_owners e)).
  pose proof (blocks_for_spec (entry_used (he_value e) (he_owners e)) ltac:(lia)).
  unfold HEAP_BLOCK_SIZE in *. lia.
Qed.

(** Two entries do not share a byte. *)
Lemma heap_ok_apart h m b1 b2 e1 e2 : heap_ok h m -> m !! b1 = Some e1 -> m !! b2 = Some e2 -> b1 <> b2 ->
  (b1 + he_alloc e1) * HEAP_BLOCK_SIZE <= b2 * HEAP_BLOCK_SIZE \/
  b2 * HEAP_BLOCK_SIZE + entry_used (he_value e2) (he_owners e2) <= b1 * HEAP_BLOCK_SIZE.
Proof.
  intros H H1 H2 Hne. pose proof (heap_ok_end _ _ _ _ H H2). unfold HEAP_BLOCK_SIZE in *.
  destruct (Z.lt_ge_cases b1 b2).
  - pose proof (hk_disjoint _ _ H _ _ _ _ H1 H2 ltac:(lia)). lia.
  - pose proof (hk_disjoint _ _ H _ _ _ _ H2 H1 ltac:(lia)). lia.
Qed.

(** A new entry past the end of the file. *)
Lemma heap_ok_append h h' m n v os :
  heap_ok h m -> zlen (buffer h) = n * HEAP_BLOCK_SIZE ->
  let alloc := blocks_for (entry_used v os) in
  zlen (buffer h') = (n + alloc) * HEAP_BLOCK_SIZE -> Forall (fits 128) os ->
  stands (buffer h') (n * HEAP_BLOCK_SIZE) (entry_bytes v os) ->
  (forall b ys, stands (buffer h) b ys -> stands (buffer h') b ys) ->
  m !! n = None /\ heap_ok h' (<[n := {| he_value := v; he_owners := os; he_alloc := alloc |}]> m).
Proof.
  intros H Hn alloc Hl Hf Hst Hkeep. unfold HEAP_BLOCK_SIZE in *.
  pose proof (zlen_nonneg (buffer h)) as H0. rewrite Hn in H0.
  assert (forall b e, m !! b = Some e -> b + he_alloc e <= n) as Hle.
  { intros b e He. destruct (hk_entry _ _ H b e He) as (? & _ & _ & _ & ?). unfold HEAP_BLOCK_SIZE in *. lia. }
  assert (forall b e, m !! b = Some e -> 1 <= he_alloc e) as Hpos.
  { intros b e He. destruct (hk_entry _ _ H b e He) as (? & _ & _ & Ha & _).
    pose proof (entry_used_pos (he_value e) (he_owners e)).
    pose proof (blocks_for_spec (entry_used (he_value e) (he_owners e)) ltac:(lia)).
    unfold HEAP_BLOCK_SIZE in *. lia. }
  split.
  { destruct (m !! n) as [e|] eqn:E; [|done]. pose proof (Hle _ _ E). pose proof (Hpos _ _ E). lia. }
  constructor.
  - by exists (n + alloc).
  - intros b e [[<- <-]|[Hne He]]%lookup_insert_Some; simpl.
    + split; [lia|]. split; [done|]. split; [done|]. split; [done|]. unfold HEAP_BLOCK_SIZE. lia.
    + destruct (hk_entry _ _ H b e He) as (? & ? & ? & ? & Hend). split; [done|]. split; [by apply Hkeep|].
      split; [done|]. split; [done|]. pose proof (Hle _ _ He). unfold HEAP_BLOCK_SIZE in *.
      pose proof (entry_used_pos v os). pose proof (blocks_for_spec (entry_used v os) ltac:(lia)).
      unfold HEAP_BLOCK_SIZE in *. lia.
  - intros b1 b2 e1 e2 H1 H2 Hlt.
    apply lookup_insert_Some in H1 as [[<- <-]|[Hne1 H1]]; apply lookup_insert_Some in H2 as [[<- <-]|[Hne2 H2]]; simpl.
    + lia.
    + pose proof (Hle _ _ H2). pose proof (Hpos _ _ H2). lia.
    + by apply Hle.
    + by apply (hk_disjoint _ _ H b1 b2 e1 e2).
Qed.

(** An entry changed within its blocks. *)
Lemma heap_ok_update h h' m b e e' :
  heap_ok h m -> m !! b = Some e -> he_alloc e <= he_alloc e' ->
  (exists n, zlen (buffer h') = n * HEAP_BLOCK_SIZE) -> zlen (buffer h) <= zlen (buffer h') ->
  (he_alloc e' = he_alloc e \/
   (b + he_alloc e) * HEAP_BLOCK_SIZE = zlen (buffer h) /\
   (b + he_alloc e') * HEAP_BLOCK_SIZE <= zlen (buffer h')) ->
  Forall (fits 128) (he_owners e') -> blocks_for (entry_used (he_value e') (he_owners e')) <= he_alloc e' ->
  stands (buffer h') (b * HEAP_BLOCK_SIZE) (entry_bytes (he_value e') (he_owners e')) ->
  (forall a ys, stands (buffer h) a ys -> 0 < zlen ys ->
     a + zlen ys <= b * HEAP_BLOCK_SIZE \/ (b + he_alloc e) * HEAP_BLOCK_SIZE <= a -> stands (buffer h') a ys) ->
  heap_ok h' (<[b := e']> m).
Proof.
  intros H He Ha Hn Hle Hgrow Hf Hu Hst Hkeep.
  destruct (hk_entry _ _ H b e He) as (Hb & _ & _ & _ & Hend). unfold HEAP_BLOCK_SIZE in *. constructor.
  - done.
  - intros b' x [[<- <-]|[Hne Hx]]%lookup_insert_Some.
    + split; [done|]. split; [done|]. split; [done|]. split; [done|]. unfold HEAP_BLOCK_SIZE in *. lia.
    + destruct (hk_entry _ _ H b' x Hx) as (? & Hs & ? & ? & Hend'). split; [done|].
      split; [|split; [done|split; [done|unfold HEAP_BLOCK_SIZE in *; lia]]].
      pose proof (entry_used_pos (he_value x) (he_owners x)).
      apply Hkeep; [done|rewrite zlen_entry; lia|]. rewrite zlen_entry.
      destruct (heap_ok_apart _ _ _ _ _ _ H He Hx ltac:(done)); unfold HEAP_BLOCK_SIZE in *; lia.
  - intros b1 b2 e1 e2 H1 H2 Hlt.
    apply lookup_insert_Some in H1 as [[<- <-]|[Hne1 H1]]; apply lookup_insert_Some in H2 as [[<- <-]|[Hne2 H2]].
    + lia.
    + destruct Hgrow as [->|[Hz _]]; [by apply (hk_disjoint _ _ H b b2 e e2)|].
      destruct (hk_entry _ _ H b2 e2 H2) as (_ & _ & _ & Hu2 & Hend2).
      pose proof (hk_disjoint _ _ H b b2 e e2 He H2 Hlt). pose proof (entry_used_pos (he_value e2) (he_owners e2)).
      pose proof (blocks_for_spec (entry_used (he_value e2) (he_owners e2)) ltac:(lia)).
      unfold HEAP_BLOCK_SIZE in *. lia.
    + by apply (hk_disjoint _ _ H b1 b e1 e).
    + by apply (hk_disjoint _ _ H b1 b2 e1 e2).
Qed.

(** What an operation on the buffer leaves alone. *)
Definition same_but_buffer (h h' : HeapFile) : Prop :=
  heap_disk h' = heap_disk h /\ max_inline h' = max_inline h.

(** Room for an entry of [n] bytes at the end of the file. *)
Definition heap_room (h : HeapFile) (n : Z) : Prop := zlen (buffer h) + n + HEAP_BLOCK_SIZE < 2 ^ 62.

Lemma heap_append_spec h m v os :
  heap_ok h m -> Forall (fits 128) os -> heap_room h (entry_used v os) ->
  let b := blocks_for (zlen (buffer h)) in
  let alloc := blocks_for (entry_used v os) in
  exists b0 b1 b2 b3 b4, resize ((b + alloc) * HEAP_BLOCK_SIZE) (buffer h) = b0 /\
    write_at (b * HEAP_BLOCK_SIZE) (le_bytes 8 (zlen v)) b0 = Done b1 /\
    write_at (b * HEAP_BLOCK_SIZE + 8) v b1 = Done b2 /\
    write_at (b * HEAP_BLOCK_SIZE + 8 + zlen v) (le_bytes 8 (zlen os)) b2 = Done b3 /\
    write_owners (b * HEAP_BLOCK_SIZE + 8 + zlen v + 8) os b3 = Done b4 /\
    fits 64 ((b + alloc) * HEAP_BLOCK_SIZE) /\ m !! b = None /\
    heap_ok (with_buffer b4 h) (<[b := {| he_value := v; he_owners := os; he_alloc := alloc |}]> m) /\
    zlen b4 <= zlen (buffer h) + entry_used v os + HEAP_BLOCK_SIZE.
Proof.
  intros H Hf Hroom b alloc. destruct (hk_blocks _ _ H) as [n Hn].
  assert (b = n) as -> by (unfold b; rewrite Hn; apply blocks_for_mult).
  pose proof (entry_used_pos v os). pose proof (blocks_for_spec (entry_used v os) ltac:(lia)) as Hb.
  fold alloc in Hb. pose proof (zlen_nonneg (buffer h)) as Hnn. unfold heap_room, HEAP_BLOCK_SIZE in *.
  destruct (resize_spec ((n + alloc) * 4096) (buffer h)) as [Hl Hk]; [lia|].
  set (b0 := resize _ _) in *.
  destruct (write_entry_spec (n * 4096) v os b0) as (b1 & b2 & b3 & b4 & E1 & E2 & E3 & E4 & Hl4 & Hst & Hkeep);
    [lia|lia|].
  exists b0, b1, b2, b3, b4. do 5 (split; [done|]). split; [unfold fits; lia|].
  destruct (heap_ok_append h (with_buffer b4 h) m n v os) as [Hnone Hok]; unfold HEAP_BLOCK_SIZE; simpl;
    [done|done|fold alloc; lia|done|done| |split; [done|]; split; [done|lia]].
  intros a ys Ha. pose proof (stands_bound _ _ _ Ha). apply Hkeep; [by apply Hk|lia].
Qed.

Lemma append_entry_spec h m v o :
  heap_ok h m -> fits 128 o -> heap_room h (entry_used v [o]) ->
  exists h' b, append_entry h v o = Done (h', b) /\ m !! b = None /\
    heap_ok h' (<[b := {| he_value := v; he_owners := [o];
                          he_alloc := blocks_for (entry_used v [o]) |}]> m) /\
    same_but_buffer h h' /\ freed h' = freed h /\
    zlen (buffer h') <= zlen (buffer h) + entry_used v [o] + HEAP_BLOCK_SIZE.
Proof.
  intros H Ho Hroom.
  destruct (heap_append_spec h m v [o] H ltac:(by apply Forall_singleton) Hroom)
    as (b0 & b1 & b2 & b3 & b4 & E0 & E1 & E2 & E3 & E4 & Hf & Hnone & Hok & Hl).
  exists (with_buffer b4 h), (blocks_for (zlen (buffer h))). split; [|by split_and!].
  unfold append_entry. unfold entry_used in *. change (zlen [o]) with 1 in *.
  replace (SIZE_HEADER + zlen v + COUNT_FIELD + OWNER_BYTES) with (16 + zlen v + 16 * 1)
    by (unfold SIZE_HEADER, COUNT_FIELD, OWNER_BYTES; lia).
  rewrite <- Z.mul_add_distr_r. rewrite (proj2 (fitsb_spec _ _) Hf). cbn [guard obind].
  rewrite E0, E1. cbn [obind]. rewrite E2. cbn [obind]. rewrite E3. cbn [obind].
  cbn [write_owners] in E4. destruct (write_at _ (le_bytes 16 o) b3) as [x| |]; cbn [obind] in *; [|done..].
  by injection E4 as ->.
Qed.

Lemma append_relocated_spec h m v os :
  heap_ok h m -> Forall (fits 128) os -> heap_room h (entry_used v os) ->
  exists h' b, append_relocated h v os = Done (h', b) /\ m !! b = None /\
    heap_ok h' (<[b := {| he_value := v; he_owners := os;
                          he_alloc := blocks_for (entry_used v os) |}]> m) /\
    same_but_buffer h h' /\ freed h' = freed h /\
    zlen (buffer h') <= zlen (buffer h) + entry_used v os + HEAP_BLOCK_SIZE.
Proof.
  intros H Ho Hroom.
  destruct (heap_append_spec h m v os H Ho Hroom)
    as (b0 & b1 & b2 & b3 & b4 & E0 & E1 & E2 & E3 & E4 & Hf & Hnone & Hok & Hl).
  exists (with_buffer b4 h), (blocks_for (zlen (buffer h))). split; [|by split_and!].
  unfold append_relocated. unfold entry_used in *.
  replace (SIZE_HEADER + zlen v + COUNT_FIELD + OWNER_BYTES * zlen os) with (16 + zlen v + 16 * zlen os)
    by (unfold SIZE_HEADER, COUNT_FIELD, OWNER_BYTES; lia).
  rewrite <- Z.mul_add_distr_r. rewrite (proj2 (fitsb_spec _ _) Hf). cbn [guard obind].
  rewrite E0, E1. cbn [obind]. rewrite E2. cbn [obind]. rewrite E3. cbn [obind].
  rewrite E4. done.
Qed.

Lemma heap_ok_delete h m b : heap_ok h m -> heap_ok h (delete b m).
Proof.
  intros [H1 H2 H3]. constructor; [done| |].
  - intros b' e [_ He]%lookup_delete_Some. by apply H2.
  - intros b1 b2 e1 e2 [_ He1]%lookup_delete_Some [_ He2]%lookup_delete_Some. by apply (H3 b1 b2 e1 e2).
Qed.

Lemma heap_ok_freed h m r : heap_ok h m -> heap_ok (push_freed r h) m.
Proof. intros [H1 H2 H3]. by constructor. Qed.

(** *** Adding an owner *)

Lemma push_owner_spec h a v os o :
  0 <= a -> stands (buffer h) a (entry_bytes v os) -> a + entry_used v os + 16 <= zlen (buffer h) ->
  exists h', push_owner h (view a v os) o = Done h' /\ same_but_buffer h h' /\ freed h' = freed h /\
    zlen (buffer h') = zlen (buffer h) /\
    stands (buffer h') a (entry_bytes v (os ++ [o])) /\
    forall b ys, stands (buffer h) b ys -> b + zlen ys <= a \/ a + entry_used v os + 16 <= b ->
      stands (buffer h') b ys.
Proof.
  intros Ha Hst Hb. apply entry_parts in Hst as (H1 & H2 & H3 & H4). unfold entry_used in *.
  pose proof (zlen_nonneg v). pose proof (zlen_nonneg os).
  unfold push_owner, count_at, owner_at, count_at. simpl ev_start. simpl ev_size. simpl ev_count.
  destruct (write_at_spec (a + 8 + zlen v) (le_bytes 8 (zlen os + 1)) (buffer h)) as (b1 & E1 & Hl1 & Hs1 & Ho1);
    [lia|rewrite zlen_le_bytes; lia|]. rewrite zlen_le_bytes in Ho1.
  destruct (write_at_spec (a + 8 + zlen v + 8 + zlen os * 16) (le_bytes 16 o) b1) as (b2 & E2 & Hl2 & Hs2 & Ho2);
    [lia|rewrite zlen_le_bytes; lia|]. rewrite zlen_le_bytes in Ho2.
  exists (with_buffer b2 h). rewrite E1. cbn [obind]. rewrite E2. split; [done|]. split; [done|].
  split; [done|]. split; [simpl; lia|]. split.
  - apply entry_parts. rewrite zlen_app. change (zlen [o]) with 1. simpl buffer. split_and!.
    + apply Ho2; [apply Ho1; [done|]|]; rewrite zlen_le_bytes; lia.
    + apply Ho2; [apply Ho1; [done|]|]; lia.
    + apply Ho2; [done|rewrite zlen_le_bytes; lia].
    + unfold owners_bytes. rewrite map_app, concat_app. apply stands_app. fold (owners_bytes os).
      split; [apply Ho2; [apply Ho1; [done|]|]; rewrite zlen_owners; lia|].
      simpl. rewrite app_nil_r, zlen_owners. by rewrite Z.mul_comm.
  - intros b ys Hy Hd. simpl. apply Ho2; [apply Ho1; [done|]|]; lia.
Qed.

(** The first search of [add_owner] and [remove_owner]. *)
Lemma find_owner_all h a v os o :
  stands (buffer h) a (entry_bytes v os) -> Forall (fits 128) os -> fits 128 o ->
  exists r, find_owner h (view a v os) o 0 (Z.to_nat (ev_count (view a v os))) = Done r /\
    match r with
    | Some i => 0 <= i < zlen os /\ os !! Z.to_nat i = Some o
    | None => o ∉ os
    end.
Proof.
  intros Hst Hf Ho. pose proof (find_owner_spec h a v os o (length os) Hst Hf Ho ltac:(lia)) as H.
  rewrite Nat.sub_diag in H. simpl ev_count. unfold zlen at 1. rewrite Nat2Z.id.
  change (Z.of_nat 0) with 0 in H. destruct (find_owner _ _ _ _ _) as [r| |]; [|done..].
  exists r. split; [done|]. by destruct r.
Qed.

(** The entry at [b], if it moved, moved to a block that was free. *)
Definition placed_at (m m' : gmap Z Entry) (b : Z) (moved : option Z) (v : list byte) (os : list Z) : Prop :=
  exists alloc, m' = <[default b moved := {| he_value := v; he_owners := os; he_alloc := alloc |}]> (delete b m) /\
    forall b', moved = Some b' -> m !! b' = None.

Lemma add_owner_spec h m b e o :
  heap_ok h m -> m !! b = Some e -> fits 128 o ->
  heap_room h (entry_used (he_value e) (he_owners e) + 16) ->
  exists h' moved m', add_owner h b o = Done (h', moved) /\ heap_ok h' m' /\ same_but_buffer h h' /\
    (o ∈ he_owners e -> h' = h /\ moved = None /\ m' = m) /\
    (o ∉ he_owners e -> placed_at m m' b moved (he_value e) (he_owners e ++ [o])) /\
    zlen (buffer h') <= zlen (buffer h) + entry_used (he_value e) (he_owners e) + 16 + HEAP_BLOCK_SIZE.
Proof.
  intros H He Ho Hroom. destruct (hk_entry _ _ H b e He) as (Hb & Hst & Hf & Hu & Hend).
  destruct e as [v os alloc]. simpl in *. unfold heap_room in Hroom.
  pose proof (zlen_nonneg (buffer h)). pose proof (entry_used_pos v os).
  assert (HEAP_BLOCK_SIZE = 4096) as HB by done.
  assert (small_file h) as Hsm by (unfold small_file; lia).
  unfold add_owner. rewrite (entry_spec h b v os Hsm Hst). cbn [obind].
  destruct (find_owner_all h _ v os o Hst Hf Ho) as (r & -> & Hr). cbn [obind].
  destruct r as [i|].
  { exists h, None, m. split; [done|]. split; [done|]. split; [done|]. split; [done|]. split; [|lia].
    destruct Hr as [_ Hr]. intros []. by eapply list_elem_of_lookup_2. }
  rewrite !used_view. unfold OWNER_BYTES.
  assert (entry_used v (os ++ [o]) = entry_used v os + 16) as Eu
    by (unfold entry_used; rewrite zlen_app; change (zlen [o]) with 1; lia).
  assert (Forall (fits 128) (os ++ [o])) as Hf' by (apply Forall_app; split; [done|by apply Forall_singleton]).
  pose proof (blocks_for_spec (entry_used v os) ltac:(lia)) as Hold.
  pose proof (blocks_for_spec (entry_used v os + 16) ltac:(lia)) as Hnew.
  pose proof (blocks_for_add (entry_used v os) ltac:(lia)) as Hadd.
  destruct (hk_blocks _ _ H) as [n Hn].
  destruct (Z.ltb_spec (blocks_for (entry_used v os)) (blocks_for (entry_used v os + 16))) as [Hgrow|Hsame].
  - simpl ev_start. destruct (Z.eqb_spec (b * HEAP_BLOCK_SIZE + blocks_for (entry_used v os) * HEAP_BLOCK_SIZE) (zlen (buffer h))) as [Htail|Hmid].
    + (* the last entry: one more block *)
      assert (alloc = blocks_for (entry_used v os)) as -> by lia.
      destruct (resize_spec (zlen (buffer h) + HEAP_BLOCK_SIZE) (buffer h)) as [Hl Hk]; [lia|].
      set (h1 := with_buffer _ h).
      destruct (push_owner_spec h1 (b * HEAP_BLOCK_SIZE) v os o) as (h2 & E2 & Hs2 & Hfr2 & Hl2 & Hst2 & Hk2);
        [lia|by apply Hk|simpl; lia|].
      rewrite E2. cbn [obind].
      eexists h2, None, _. split; [done|]. split; [|split; [done|split; [done|split; [|simpl in *; lia]]]].
      2: { intros _. exists (blocks_for (entry_used v os) + 1). split; [reflexivity|done]. }
      simpl. rewrite insert_delete_eq. simpl in Hl2.
      eapply (heap_ok_update h h2); simpl; [done|done|simpl; lia|exists (n + 1); rewrite HB in *; lia|lia|right; simpl; rewrite HB in *; lia|done|rewrite Eu; lia|done|].
      intros a ys Ha Hpos Hd. apply Hk2; [by apply Hk|]. simpl in Hd.
      pose proof (stands_bound _ _ _ Ha). rewrite HB in *; lia.
    + (* in the middle: moved to the end *)
      rewrite (value_spec h _ v os) by done. cbn [obind].
      rewrite (owners_spec h b v os) by done. cbn [obind].
      destruct (append_relocated_spec h (delete b m) v (os ++ [o])) as (h1 & b1 & E1 & Hnone & Hok1 & Hs1 & Hfr1 & Hl1);
        [by apply heap_ok_delete|done|unfold heap_room; lia|].
      rewrite E1. cbn [obind].
      eexists _, (Some b1), _. split; [done|]. split; [by apply heap_ok_freed|]. split; [done|].
      split; [done|]. split; [|simpl; lia]. intros _. eexists. split; [reflexivity|].
      intros b' [= <-]. destruct (decide (b1 = b)) as [->|Hne].
      * exfalso. unfold append_relocated in E1.
        apply obind_done in E1 as (? & _ & E1). do 4 (apply obind_done in E1 as (? & _ & E1)).
        injection E1 as _ Eb. rewrite Hn in Eb. rewrite blocks_for_mult in Eb.
        rewrite HB in *. lia.
      * by rewrite lookup_delete_ne in Hnone.
  - destruct (push_owner_spec h (b * HEAP_BLOCK_SIZE) v os o) as (h2 & E2 & Hs2 & Hfr2 & Hl2 & Hst2 & Hk2);
      [lia|done|lia|].
    rewrite E2. cbn [obind].
    eexists h2, None, _. split; [done|]. split; [|split; [done|split; [done|split; [|lia]]]].
    2: { intros _. exists alloc. split; [reflexivity|done]. }
    simpl. rewrite insert_delete_eq.
    eapply (heap_ok_update h h2); simpl; [done|done|simpl; lia|exists n; rewrite HB in *; lia|lia|by left|done|rewrite Eu; lia|done|].
    intros a ys Ha Hpos Hd. apply Hk2; [done|]. simpl in Hd. rewrite HB in *; lia.
Qed.

(** *** Removing an owner *)

(** The list after a swap-remove of position [i]. *)
Definition swap_remove (i : nat) (os : list Z) : list Z :=
  let last := (length os - 1)%nat in
  take last (match os !! last with Some x => <[i := x]> os | None => os end).

Lemma swap_remove_perm i os o : os !! i = Some o -> os ≡ₚ o :: swap_remove i os.
Proof.
  intros Hi. pose proof Hi as Hlt%lookup_lt_Some. unfold swap_remove.
  destruct (exists_last (l := os)) as (pre & x & ->); [by intros ->|].
  rewrite length_app in *. simpl in *. replace (length pre + 1 - 1)%nat with (length pre) by lia.
  rewrite lookup_app_r, Nat.sub_diag by lia. simpl.
  destruct (decide (i = length pre)) as [->|Hne].
  - rewrite lookup_app_r, Nat.sub_diag in Hi by lia. injection Hi as ->.
    rewrite insert_app_r_alt, Nat.sub_diag by lia. simpl. rewrite take_app_length.
    apply Permutation_app_comm.
  - rewrite lookup_app_l in Hi by lia. rewrite insert_app_l by lia.
    rewrite take_app_length' by (by rewrite length_insert).
    rewrite <- (take_drop_middle _ _ _ Hi) at 1. rewrite insert_take_drop by lia.
    rewrite <- app_assoc. simpl. rewrite <- !Permutation_middle. constructor.
    rewrite app_assoc. rewrite Permutation_app_comm. simpl. by constructor.
Qed.

Lemma length_swap_remove i os : (0 < length os)%nat -> length (swap_remove i os) = (length os - 1)%nat.
Proof.
  intros. unfold swap_remove. rewrite length_take. destruct (os !! _); rewrite ?length_insert; lia.
Qed.

Lemma owners_insert buf a os i x buf' :
  (i < length os)%nat -> stands buf a (owners_bytes os) ->
  write_at (a + 16 * Z.of_nat i) (le_bytes 16 x) buf = Done buf' ->
  stands buf' a (owners_bytes (<[i := x]> os)).
Proof.
  intros Hi H E. unfold write_at, expect in E. destruct (put _ _ _) as [b|] eqn:Ep; [|done]. injection E as <-.
  destruct (lookup_lt_is_Some_2 os i Hi) as [o Ho]. rewrite <- (take_drop_middle _ _ _ Ho) in H.
  rewrite insert_take_drop by done. unfold owners_bytes in *.
  rewrite !map_app, !concat_app in *. simpl in *. fold (owners_bytes (take i os)) (owners_bytes (drop (S i) os)) in *.
  assert (zlen (owners_bytes (take i os)) = 16 * Z.of_nat i) as E1
    by (rewrite zlen_owners; unfold zlen; rewrite length_take_le by lia; done).
  apply stands_app in H as [H1 H]. apply stands_app in H as [_ H2]. rewrite E1, zlen_le_bytes in H2.
  apply stands_app. split; [eapply put_other; [done|done|lia]|]. rewrite E1. apply stands_app.
  split; [by eapply put_here|]. rewrite zlen_le_bytes. eapply put_other; [done|done|]. rewrite zlen_le_bytes. lia.
Qed.

Lemma stands_prefix buf a os k : stands buf a (owners_bytes os) -> stands buf a (owners_bytes (take k os)).
Proof.
  intros H. rewrite <- (take_drop k os) in H. unfold owners_bytes in H.
  rewrite map_app, concat_app in H. by apply stands_app in H as [H _].
Qed.

Lemma drop_owner_spec h a v os i o :
  0 <= a -> stands (buffer h) a (entry_bytes v os) -> 0 <= i < zlen os -> os !! Z.to_nat i = Some o ->
  exists b1 buf', (if i =? zlen os - 1 then Done (buffer h)
     else let* bytes := owner_bytes h (view a v os) (zlen os - 1) in
          write_at (owner_at (view a v os) i) bytes (buffer h)) = Done b1 /\
    write_at (count_at (view a v os)) (le_bytes 8 (zlen os - 1)) b1 = Done buf' /\
    zlen buf' = zlen (buffer h) /\ stands buf' a (entry_bytes v (swap_remove (Z.to_nat i) os)) /\
    forall b ys, stands (buffer h) b ys -> b + zlen ys <= a \/ a + entry_used v os <= b ->
      stands buf' b ys.
Proof.
  intros Ha Hst Hi Ho. pose proof (stands_bound _ _ _ Hst) as [_ Hb]. rewrite zlen_entry in Hb.
  apply entry_parts in Hst as (H1 & H2 & H3 & H4). unfold entry_used in *. pose proof (zlen_nonneg v).
  unfold owner_at, count_at. simpl ev_start. simpl ev_size.
  assert (length os = Z.to_nat (zlen os)) as El by (unfold zlen; lia).
  destruct (lookup_lt_is_Some_2 os (length os - 1)) as [x Hx]; [lia|].
  set (os1 := match os !! (length os - 1)%nat with Some x => <[Z.to_nat i := x]> os | None => os end).
  assert (exists b1, (if i =? zlen os - 1 then Done (buffer h)
     else let* bytes := owner_bytes h (view a v os) (zlen os - 1) in
          write_at (a + 8 + zlen v + 8 + i * 16) bytes (buffer h)) = Done b1 /\
     zlen b1 = zlen (buffer h) /\ stands b1 (a + 8 + zlen v + 8) (owners_bytes os1) /\
     forall b ys, stands (buffer h) b ys ->
       b + zlen ys <= a + 8 + zlen v + 8 \/ a + 8 + zlen v + 8 + 16 * zlen os <= b -> stands b1 b ys)
    as (b1 & E1 & Hl1 & Hs1 & Ho1).
  { unfold os1. rewrite Hx. destruct (Z.eqb_spec i (zlen os - 1)) as [Ei|Hne].
    - exists (buffer h). split; [done|]. split; [done|]. split; [|done].
      replace (length os - 1)%nat with (Z.to_nat i) in Hx by lia. rewrite list_insert_id; done.
    - replace (zlen os - 1) with (Z.of_nat (length os - 1)) by lia.
      rewrite (owner_bytes_spec h a v os _ x) by (done || by apply entry_parts). cbn [obind].
      destruct (write_at_spec (a + 8 + zlen v + 8 + i * 16) (le_bytes 16 x) (buffer h)) as (b1 & E1 & Hl1 & Hs1 & Ho1);
        [lia|rewrite zlen_le_bytes; lia|]. rewrite zlen_le_bytes in Ho1.
      exists b1. split; [done|]. split; [done|]. split; [|intros; apply Ho1; [done|lia]].
      eapply owners_insert; [lia|exact H4|]. rewrite <- E1. f_equal. lia. }
  destruct (write_at_spec (a + 8 + zlen v) (le_bytes 8 (zlen os - 1)) b1) as (b2 & E2 & Hl2 & Hs2 & Ho2);
    [lia|rewrite zlen_le_bytes; lia|]. rewrite zlen_le_bytes in Ho2.
  exists b1, b2. split; [done|]. split; [done|]. split; [lia|]. split.
  - assert (zlen (swap_remove (Z.to_nat i) os) = zlen os - 1) as Ez
      by (unfold zlen in *; rewrite length_swap_remove by lia; lia).
    apply entry_parts. rewrite Ez. split_and!.
    + apply Ho2; [apply Ho1; [done|]|]; rewrite zlen_le_bytes; lia.
    + apply Ho2; [apply Ho1; [done|]|]; lia.
    + done.
    + unfold swap_remove. fold os1. apply stands_prefix. apply Ho2; [done|lia].
  - intros b ys Hy Hd. apply Ho2; [apply Ho1; [done|lia]|lia].
Qed.

Lemma remove_owner_spec h m b e o :
  heap_ok h m -> m !! b = Some e -> fits 128 o -> small_file h ->
  exists h' dead, remove_owner h b o = Done (h', dead) /\ same_but_buffer h h' /\
    zlen (buffer h') = zlen (buffer h) /\
    (o ∉ he_owners e -> h' = h /\ dead = bool_decide (he_owners e = [])) /\
    (o ∈ he_owners e -> exists os', he_owners e ≡ₚ o :: os' /\ dead = bool_decide (os' = []) /\
       heap_ok h' (<[b := {| he_value := he_value e; he_owners := os'; he_alloc := he_alloc e |}]> m)).
Proof.
  intros H He Ho Hsm. destruct (hk_entry _ _ H b e He) as (Hb & Hst & Hf & Hu & Hend).
  destruct e as [v os alloc]. simpl in *.
  unfold remove_owner. rewrite (entry_spec h b v os Hsm Hst). cbn [obind].
  destruct (find_owner_all h _ v os o Hst Hf Ho) as (r & -> & Hr). cbn [obind].
  destruct r as [i|].
  - destruct Hr as [Hi Hio].
    assert (0 <= b * HEAP_BLOCK_SIZE) as Ha by (unfold HEAP_BLOCK_SIZE; lia).
    destruct (drop_owner_spec h _ v os i o Ha Hst Hi Hio) as (b1 & buf & E1 & E2 & Hl & Hst' & Hkeep).
    simpl ev_count. rewrite E1. cbn [obind]. rewrite E2. cbn [obind].
    set (os' := swap_remove (Z.to_nat i) os) in *.
    assert (zlen os' = zlen os - 1) as Ez
      by (unfold os', zlen in *; rewrite length_swap_remove by lia; lia).
    assert (os ≡ₚ o :: os') as Hperm by by apply swap_remove_perm.
    assert (Forall (fits 128) os') as Hf' by (rewrite Hperm in Hf; by inversion Hf).
    assert (entry_used v os' = entry_used v os - 16) as Eu by (unfold entry_used; lia).
    assert (heap_ok (with_buffer buf h)
      (<[b := {| he_value := v; he_owners := os'; he_alloc := alloc |}]> m)) as Hok.
    { destruct (hk_blocks _ _ H) as [n Hn].
      eapply (heap_ok_update h (with_buffer buf h)); simpl; [done|done|simpl; lia|exists n; lia|lia|by left|done| |done|].
      - rewrite Eu. pose proof (blocks_for_mono (entry_used v os - 16) (entry_used v os)). lia.
      - intros a ys Hy Hpos Hd. apply Hkeep; [done|]. simpl in Hd.
        pose proof (blocks_for_spec (entry_used v os)). pose proof (entry_used_pos v os).
        unfold HEAP_BLOCK_SIZE in *. lia. }
    assert (o ∈ os) as Hin by by eapply list_elem_of_lookup_2.
    destruct (Z.eqb_spec (zlen os - 1) 0) as [Hz|Hz].
    + eexists _, true. split; [done|]. split; [done|]. split; [done|]. split; [done|].
      intros _. exists os'. split; [done|]. split; [|by apply heap_ok_freed].
      rewrite bool_decide_true; [done|]. apply nil_length_inv. unfold zlen in *. lia.
    + eexists _, false. split; [done|]. split; [done|]. split; [done|]. split; [done|].
      intros _. exists os'. split; [done|]. split; [|done].
      rewrite bool_decide_false; [done|]. intros ->. unfold zlen in *. simpl in *. lia.
  - simpl ev_count. eexists h, _. split; [done|]. split; [done|]. split; [done|]. split; [|done].
    intros _. split; [done|]. destruct os; [done|]. rewrite bool_decide_false by done.
    apply Z.eqb_neq. unfold zlen. simpl. lia.
Qed.
