(* ===== verification/Dedup.v ===== *)
(** * Content-addressed deduplication over the anchors of the page file

    [AnchorLaws] is what the deduplication asks of the store of its anchors; the
    page file keeps it while it has room, for hashes that no other value is stored
    under.  The anchors and the heap file together then hold one entry per content
    hash, alive exactly while it has an owner. *)
From S2P Require Import Prelude Wire WireOk Errors Ids Page Hash Anchor DataFile DataFileOk Snapshot LiveOk LiveFile Heap HeapOk.

(** The anchors under the hashes [K]; [al_only hash s s'] says that [s'] differs
    from [s] at most in what is kept under [hash]. *)
Class AnchorLaws (S : Type) `{AnchorStore S} : Type := {
  al_ready : nat -> (Z -> Prop) -> S -> Prop;
  al_view : S -> Z -> option Z;
  al_only : Z -> S -> S -> Prop;
  al_refl : forall hash s, al_only hash s s;
  al_weaken : forall n K s, al_ready (Datatypes.S n) K s -> al_ready n K s;
  al_read : forall n K s hash, al_ready n K s -> K hash -> as_read hash s = (Done (al_view s hash), s);
  al_write : forall n K s hash block, al_ready (Datatypes.S n) K s -> K hash -> fits 128 hash -> fits 64 block ->
    exists s', as_write hash block s = (Done tt, s') /\ al_ready n K s' /\ al_only hash s s' /\
      forall hash', al_view s' hash' = if decide (hash' = hash) then Some block else al_view s hash';
  al_clear : forall n K s hash, al_ready (Datatypes.S n) K s -> K hash -> fits 128 hash ->
    exists s', as_clear hash s = (Done tt, s') /\ al_ready n K s' /\ al_only hash s s' /\
      forall hash', al_view s' hash' = if decide (hash' = hash) then None else al_view s hash'
}.

Lemma content_hash_fits bytes : fits 128 (content_hash128 bytes).
Proof.
  unfold content_hash128.
  set (f := fun (hash : Z) (b : byte) => _).
  assert (forall h, fits 128 h -> fits 128 (foldl f h bytes)) as H; [|by apply H].
  induction bytes as [|b bytes IH]; intros h Hh; simpl; [done|]. apply IH. by apply wrap_fits.
Qed.

(** What the store keeps under each content hash: the value and its owners. *)
Definition Contents : Type := Z -> option (list byte * list Z).

Definition set_contents (hash : Z) (x : option (list byte * list Z)) (D : Contents) : Contents :=
  fun hash' => if decide (hash' = hash) then x else D hash'.

Section dedup_laws.
Context {S : Type} `{AnchorLaws S}.
Variables encode_all decode_all : list byte -> outcome string (list byte).
Variable K : Z -> Prop.

Record dedups_in (s : S) (h : HeapFile) (m : gmap Z Entry) (D : Contents) : Prop := {
  dd_heap : heap_ok h m;
  dd_none : forall hash, K hash -> al_view s hash = None -> D hash = None;
  dd_some : forall hash b, K hash -> al_view s hash = Some b -> exists e, m !! b = Some e /\
    content_hash128 (he_value e) = hash /\ he_owners e <> [] /\ D hash = Some (he_value e, he_owners e);
  dd_anchor : forall b e, m !! b = Some e ->
    K (content_hash128 (he_value e)) /\ al_view s (content_hash128 (he_value e)) = Some b
}.

(** The anchors [s] and the heap file [h] hold [D]. *)
Definition dedups (s : S) (h : HeapFile) (D : Contents) : Prop := exists m, dedups_in s h m D.

(** Room in the heap file for one more version of what is stored under [hash]. *)
Definition dedup_room (h : HeapFile) (D : Contents) (c : list byte) : Prop :=
  heap_room h (entry_used c (match D (content_hash128 c) with Some (_, os) => os | None => [] end) + 16).

Lemma block_fits h m b e : heap_ok h m -> small_file h -> m !! b = Some e -> fits 64 b.
Proof.
  intros Hok Hs He. destruct (hk_entry _ _ Hok b e He) as (Hb & Hst & _).
  apply stands_bound in Hst as [_ Hst]. pose proof (zlen_nonneg (entry_bytes (he_value e) (he_owners e))).
  unfold small_file, HEAP_BLOCK_SIZE, fits in *. lia.
Qed.

(** The block of an anchor, new or changed: what the heap holds there becomes
    what is stored under the content's hash. *)
Lemma dedups_set s s' h h' m D b b' v os alloc :
  dedups_in s h m D -> K (content_hash128 v) ->
  (al_view s (content_hash128 v) = Some b \/ al_view s (content_hash128 v) = None /\ m !! b = None) ->
  heap_ok h' (<[b' := {| he_value := v; he_owners := os; he_alloc := alloc |}]> (delete b m)) ->
  (b' = b \/ m !! b' = None) -> os <> [] ->
  (forall hash, al_view s' hash = if decide (hash = content_hash128 v) then Some b' else al_view s hash) ->
  dedups s' h' (set_contents (content_hash128 v) (Some (v, os)) D).
Proof.
  intros [_ Hnone Hsome Hanch] HK Hb Hok Hb' Hos Hview. exists (<[b' := {| he_value := v; he_owners := os; he_alloc := alloc |}]> (delete b m)).
  assert (forall b0 e, m !! b0 = Some e -> b0 <> b -> content_hash128 (he_value e) <> content_hash128 v) as Hother.
  { intros b0 e He Hne E. destruct (Hanch _ _ He) as [_ A]. rewrite E in A. destruct Hb as [Hb|[Hb _]]; congruence. }
  assert (forall e, m !! b = Some e -> content_hash128 (he_value e) = content_hash128 v) as Hold.
  { intros e He. destruct Hb as [(e' & He' & <- & _)%(Hsome _ _ HK)|[_ Hb]]; congruence. }
  unfold set_contents. constructor; [done|..].
  - intros hash HKh. rewrite Hview. case_decide; [done|]. by apply Hnone.
  - intros hash b0 HKh. rewrite Hview. case_decide as Hd.
    + intros [= <-]. eexists. rewrite lookup_insert_eq. split; [done|]. by rewrite Hd.
    + intros (e & He & Hh & Ho & HD)%(Hsome _ _ HKh). exists e. split; [|done].
      assert (b0 <> b) by (intros ->; apply Hd; by rewrite <- Hh, (Hold e)).
      assert (b0 <> b') by (intros ->; destruct Hb' as [->|]; congruence).
      by rewrite lookup_insert_ne, lookup_delete_ne by congruence.
  - intros b0 e [[<- <-]|[Hne [Hne' He]%lookup_delete_Some]]%lookup_insert_Some; rewrite Hview; simpl.
    + by rewrite decide_True.
    + rewrite decide_False; [by apply Hanch|]. by apply (Hother b0).
Qed.

(** An anchor left where it is. *)
Lemma view_same s hash b : al_view s hash = Some b ->
  forall hash', al_view s hash' = if decide (hash' = hash) then Some b else al_view s hash'.
Proof. intros Hv hash'. by case_decide as Hd; [rewrite Hd|]. Qed.

(** Contents that say what is stored already. *)
Lemma dedups_same s h D hash x : dedups s h D -> D hash = x -> dedups s h (set_contents hash x D).
Proof.
  intros [m [Hok Hnone Hsome Hanch]] HD. exists m. unfold set_contents. constructor; [done|..|done].
  - intros hash' HKh. case_decide; [intros; subst; by apply Hnone|by apply Hnone].
  - intros hash' b HKh Hv. destruct (Hsome _ _ HKh Hv) as (e & He & ? & ? & HD'). exists e.
    split_and!; [done..|]. case_decide; congruence.
Qed.

Lemma room_small h n : 0 <= n -> heap_room h n -> small_file h.
Proof. unfold heap_room, small_file, HEAP_BLOCK_SIZE. lia. Qed.

Lemma dedup_room_pos (D : Contents) c :
  0 <= entry_used c (match D (content_hash128 c) with Some (_, os) => os | None => [] end) + 16.
Proof.
  pose proof (entry_used_pos c (match D (content_hash128 c) with Some (_, os) => os | None => [] end)). lia.
Qed.

Lemma read_value_spec h m b e : heap_ok h m -> small_file h -> m !! b = Some e ->
  read_value h b = Done (he_value e).
Proof.
  intros Hok Hs He. destruct (hk_entry _ _ Hok b e He) as (_ & Hst & _).
  unfold read_value. rewrite (entry_spec h b _ _ Hs Hst). cbn [obind].
  by apply (value_spec _ _ _ (he_owners e)).
Qed.

(** The heap's part of a store, on a hash that holds nothing and on one that
    holds the value. *)
Lemma store_fresh n s h m D c owner :
  al_ready (Datatypes.S n) K s -> dedups_in s h m D -> fits 128 owner -> dedup_room h D c -> K (content_hash128 c) ->
  let hash := content_hash128 c in al_view s hash = None ->
  exists b s' h', append_entry h c owner = Done (h', b) /\ as_write hash b s = (Done tt, s') /\
    al_ready n K s' /\ al_only hash s s' /\ max_inline h' = max_inline h /\
    dedups s' h' (set_contents hash (Some (c, [owner])) D).
Proof.
  intros Hr Hm Ho Hroom HK hash Ev. pose proof Hm as [Hok Hnone _ _].
  unfold dedup_room in Hroom. fold hash in Hroom. rewrite (Hnone hash HK Ev) in Hroom. unfold entry_used in Hroom.
  destruct (append_entry_spec h m c owner Hok Ho) as (h1 & b & E1 & Hfree & Hok1 & Hs1 & _ & Hl1);
    [unfold entry_used; change (zlen [owner]) with 1; change (zlen (@nil Z)) with 0 in Hroom;
     by replace (16 + zlen c + 16 * 1) with (16 + zlen c + 16 * 0 + 16) by lia|].
  assert (fits 64 b) as Hb1.
  { eapply (block_fits h1); [exact Hok1| |apply lookup_insert_eq].
    unfold heap_room, small_file, entry_used in *. change (zlen [owner]) with 1 in Hl1.
    change (zlen (@nil Z)) with 0 in Hroom. lia. }
  destruct (al_write _ _ _ hash b Hr HK (content_hash_fits c) Hb1) as (s1 & E & Hr1 & Hon & Hv1).
  exists b, s1, h1. split_and!; [done..|apply Hs1|]. rewrite <- (delete_id m b Hfree) in Hok1.
  eapply dedups_set; [exact Hm|exact HK|by right|exact Hok1|by left|done|done].
Qed.

Lemma store_shared n s h m D c os owner b e :
  al_ready (Datatypes.S n) K s -> dedups_in s h m D -> fits 128 owner -> dedup_room h D c -> K (content_hash128 c) ->
  let hash := content_hash128 c in
  al_view s hash = Some b -> m !! b = Some e -> he_value e = c -> he_owners e = os -> D hash = Some (c, os) ->
  exists h' moved, add_owner h b owner = Done (h', moved) /\ max_inline h' = max_inline h /\
    let contents := set_contents hash (Some (c, if decide (owner ∈ os) then os else os ++ [owner])) D in
    match moved with
    | None => dedups s h' contents
    | Some b' => exists s', as_write hash b' s = (Done tt, s') /\ al_ready n K s' /\ al_only hash s s' /\ dedups s' h' contents
    end.
Proof.
  intros Hr Hm Ho Hroom HK hash Ev He Hc Hos HD. pose proof Hm as [Hok _ Hsome _].
  unfold dedup_room in Hroom. fold hash in Hroom. rewrite HD in Hroom.
  destruct e as [v os' al]. cbn [he_value he_owners] in Hc, Hos. subst v os'.
  destruct (add_owner_spec h m b _ owner Hok He Ho Hroom)
    as (h1 & moved & m1 & E1 & Hok1 & Hs1 & Hin & Hout & Hl); cbn [he_value he_owners] in *.
  exists h1, moved. split; [done|]. split; [apply Hs1|]. destruct (decide (owner ∈ os)) as [Hi|Hi].
  - destruct (Hin Hi) as (-> & -> & ->). apply dedups_same; [by exists m|done].
  - destruct (Hout Hi) as (alloc & -> & Hfree). assert (os ++ [owner] <> []) as Hne by by destruct os.
    destruct moved as [b1|]; simpl in Hok1.
    + assert (fits 64 b1) as Hb1.
      { eapply (block_fits h1); [exact Hok1| |apply lookup_insert_eq]. unfold heap_room, small_file in *. lia. }
      destruct (al_write _ _ _ hash b1 Hr HK (content_hash_fits c) Hb1) as (s1 & E & Hr1 & Hon & Hv1). exists s1.
      split; [done|]. split; [done|]. split; [done|].
      eapply dedups_set; [exact Hm|exact HK|by left|exact Hok1|right; by apply Hfree|done|done].
    + eapply dedups_set; [exact Hm|exact HK|by left|exact Hok1|by left|done|by apply view_same].
Qed.

(** What a store of a compressed value answers and leaves. *)
Definition stored_once (hash : Z) (c : list byte) (owner : Z) (D : Contents)
    (s s' : S) (h h' : HeapFile) (r : StorageResult HeapPlacement) : Prop :=
  if zlen c <=? max_inline h then r = Done (Inline c) /\ s' = s /\ h' = h
  else match D hash with
  | Some (c', os) =>
      if decide (c' = c)
      then (exists b, r = Done (InHeap hash b)) /\
           dedups s' h' (set_contents hash (Some (c, if decide (owner ∈ os) then os else os ++ [owner])) D)
      else r = Fail (Other (String.append "content hash collision at " (hash_text hash))) /\ s' = s /\ h' = h
  | None => (exists b, r = Done (InHeap hash b)) /\ dedups s' h' (set_contents hash (Some (c, [owner])) D)
  end.

Lemma store_once n s h D value owner c :
  al_ready (Datatypes.S n) K s -> dedups s h D -> fits 128 owner -> encode_all value = Done c ->
  (max_inline h < zlen c -> K (content_hash128 c) /\ dedup_room h D c) ->
  let hash := content_hash128 c in
  exists r s' h', dedup_store encode_all value owner (s, h) = (r, (s', h')) /\ al_ready n K s' /\
    al_only hash s s' /\ max_inline h' = max_inline h /\ stored_once hash c owner D s s' h h' r.
Proof.
  intros Hr [m Hm] Ho Hc Hbig hash. unfold stored_once. pose proof Hm as [Hok Hnone Hsome _].
  unfold dedup_store, st_bind, st_lift, st_gets, compress. rewrite Hc. cbn [omap_err].
  destruct (Z.leb_spec (zlen c) (max_inline h)) as [_|Hmax].
  { exists (Done (Inline c)), s, h. split_and!; [done|by apply al_weaken|apply al_refl|done..]. }
  destruct (Hbig Hmax) as [HK Hroom]. fold hash.
  unfold on_anchors, on_heap. rewrite (al_read _ _ _ hash Hr HK).
  destruct (al_view s hash) as [b|] eqn:Ev.
  - destruct (Hsome hash _ HK Ev) as (e & He & Hh & Hos & HD). rewrite HD.
    assert (small_file h) as Hsm by (eapply room_small; [|exact Hroom]; apply dedup_room_pos).
    rewrite (read_value_spec h m b e) by done. cbn [obind].
    destruct (decide (he_value e = c)) as [Ec|Hne].
    + rewrite Ec in HD. destruct (store_shared n s h m D c (he_owners e) owner b e)
        as (h' & moved & -> & Hmi & Hd); [done..|]. fold hash in Hd.
      destruct moved as [b'|].
      * destruct Hd as (s' & -> & Hr' & Hon & Hd). exists (Done (InHeap hash b')), s', h'.
        split_and!; [done..|by eexists|done].
      * exists (Done (InHeap hash b)), s, h'. split_and!; [done|by apply al_weaken|apply al_refl|done|by eexists|done].
    + eexists _, s, h. split; [done|]. split; [by apply al_weaken|]. by split; [apply al_refl|].
  - rewrite (Hnone hash HK Ev).
    destruct (store_fresh n s h m D c owner Hr Hm Ho Hroom HK Ev) as (b & s' & h' & -> & Ew & Hr' & Hon & Hmi & Hd).
    fold hash in Ew, Hd. rewrite Ew. exists (Done (InHeap hash b)), s', h'. split_and!; [done..|by eexists|done].
Qed.

(** A value is read back through its content hash, and a hash that holds
    nothing reads as nothing. *)
Lemma dedup_read_spec n s h D hash :
  al_ready n K s -> dedups s h D -> small_file h -> K hash ->
  dedup_read decode_all hash (s, h) =
    (match D hash with
     | None => Done None
     | Some (c, _) => let* v := decompress decode_all c in Done (Some v)
     end, (s, h)).
Proof.
  intros Hr [m Hm] Hsm Hfits. pose proof Hm as [Hok Hnone Hsome Hanch].
  unfold dedup_read, st_bind, on_anchors, on_heap. rewrite (al_read _ _ _ _ Hr Hfits).
  destruct (al_view s hash) as [b|] eqn:Ev; [|by rewrite (Hnone _ Hfits Ev)].
  destruct (Hsome _ _ Hfits Ev) as (e & He & _ & _ & ->). unfold read_decompressed.
  rewrite (read_value_spec h m b e) by done. cbn [obind].
  by destruct (decompress decode_all (he_value e)).
Qed.

(** Releasing an owner removes it from the list of its entry; the entry
    and its anchor disappear with the last owner, and only then. *)
Lemma release_owner_ok n s h D hash owner :
  al_ready (Datatypes.S n) K s -> dedups s h D -> small_file h -> K hash -> fits 128 hash -> fits 128 owner ->
  exists dead s' h', release_owner hash owner (s, h) = (Done dead, (s', h')) /\ al_ready n K s' /\ al_only hash s s' /\
    max_inline h' = max_inline h /\
    match D hash with
    | Some (v, os) =>
        if decide (owner ∈ os)
        then exists os', os ≡ₚ owner :: os' /\ dead = bool_decide (os' = []) /\
               dedups s' h' (set_contents hash (if dead then None else Some (v, os')) D)
        else dead = false /\ s' = s /\ h' = h
    | None => dead = false /\ s' = s /\ h' = h
    end.
Proof.
  intros Hr [m Hm] Hsm HK Hfits Ho. pose proof Hm as [Hok Hnone Hsome Hanch].
  unfold release_owner, st_bind, on_anchors, on_heap. rewrite (al_read _ _ _ _ Hr HK).
  destruct (al_view s hash) as [b|] eqn:Ev.
  2: { rewrite (Hnone hash HK Ev). exists false, s, h. split; [done|]. split; [by apply al_weaken|]. by split; [apply al_refl|]. }
  destruct (Hsome hash _ HK Ev) as (e & He & Hh & Hos & HD). rewrite HD.
  destruct (remove_owner_spec h m b e owner Hok He Ho Hsm) as (h1 & dead & E1 & Hs1 & Hl1 & Hout & Hin).
  rewrite E1. destruct e as [v os al]. cbn [he_value he_owners he_alloc] in *.
  destruct (decide (owner ∈ os)) as [Hi|Hi].
  - destruct (Hin Hi) as (os' & Hperm & -> & Hok1).
    set (e1 := {| he_value := v; he_owners := os'; he_alloc := al |}) in *.
    destruct (decide (os' = [])) as [Ene|Hne].
    + rewrite bool_decide_true by done. cbn [fst snd].
      destruct (al_clear _ _ _ hash Hr HK Hfits) as (s1 & -> & Hr1 & Hon & Hv1).
      exists true, s1, h1. split; [done|]. split; [done|]. split; [done|]. split; [apply Hs1|].
      exists os'. split; [done|]. rewrite bool_decide_true by done. split; [done|].
      exists (delete b m). unfold set_contents. constructor.
      * rewrite <- (delete_insert_eq m b e1). by apply heap_ok_delete.
      * intros hash' HK'. rewrite Hv1. case_decide; [done|]. by apply Hnone.
      * intros hash' b0 HK'. rewrite Hv1. case_decide as Hd; [done|].
        intros Hb0. destruct (Hsome _ _ HK' Hb0) as (e & He0 & Hh0 & Ho0 & HD0).
        exists e. split; [|done]. rewrite lookup_delete_ne; [done|]. intros <-.
        rewrite He in He0. injection He0 as <-. simpl in Hh0. congruence.
      * intros b0 e [Hne He0]%lookup_delete_Some. rewrite Hv1.
        destruct (Hanch _ _ He0) as [HK' A]. split; [done|]. rewrite decide_False; [done|]. intros Eh. congruence.
    + rewrite bool_decide_false by done. cbn [fst snd].
      exists false, s, h1. split; [done|]. split; [by apply al_weaken|]. split; [apply al_refl|]. split; [apply Hs1|].
      exists os'. split; [done|]. rewrite bool_decide_false by done. split; [done|].
      rewrite <- Hh in Ev, HK |- *. rewrite <- insert_delete_eq in Hok1.
      eapply dedups_set; [exact Hm|exact HK|by left|exact Hok1|by left|done|by apply view_same].
  - destruct (Hout Hi) as [-> ->]. rewrite bool_decide_false by done.
    exists false, s, h. split; [done|]. split; [by apply al_weaken|]. by split; [apply al_refl|].
Qed.
End dedup_laws.


(** ** The anchors of the page file *)

(** The file has room for [n] writes, and no value but an anchor is stored under
    a hash of [K]. *)
Definition anchors_ready (n : nat) (K : Z -> Prop) (d : DataFile) : Prop :=
  steady n d /\ forall hash b, K hash -> stored d hash b ->
    get_anchor (cache d) hash <> None \/ exists slot, slot_from_bytes b = Done slot.

(** Only what is kept under [hash] may differ. *)
Definition only_under (hash : Z) (d d' : DataFile) : Prop :=
  same_shape d d' /\ forall raw, raw <> hash ->
    (forall b, stored d' raw b <-> stored d raw b) /\
    get_anchor (cache d') raw = get_anchor (cache d) raw /\
    get_versioned (cache d') raw = get_versioned (cache d) raw.

Definition anchor_view (d : DataFile) (hash : Z) : option Z := slot ← slot_view d hash; heap_block slot.

Lemma read_anchor_ready n K d hash : anchors_ready n K d -> K hash ->
  read_heap_anchor hash d = (Done (anchor_view d hash), d).
Proof.
  intros [Hs Hc] HK. unfold read_heap_anchor, read_slot_at, st_bind, st_gets, anchor_view, slot_view.
  destruct (get_anchor (cache d) hash) eqn:E; [done|].
  rewrite (decoded_stored _ n); [done|done|]. intros b Hb. by destruct (Hc hash b HK Hb).
Qed.

Lemma write_anchor_ready n K d hash slot bytes :
  anchors_ready (S n) K d -> fits 128 hash -> slot_wf slot ->
  slot_to_bytes slot = Done bytes -> 0 < zlen bytes <= LIVE_VALUE_MAX ->
  exists d', write_slot_at (route_key_for_raw hash) hash slot d = (Done tt, d') /\
    anchors_ready n K d' /\ only_under hash d d' /\
    forall hash', anchor_view d' hash' = if decide (hash' = hash) then heap_block slot else anchor_view d hash'.
Proof.
  intros [H Hc] Hh Hwf Eb Hl.
  destruct (steady_insert n d hash bytes H Hl Hh) as (d' & E & H' & Ec & Hshape & Hst).
  exists (with_cache (put_anchor hash slot (cache d')) d').
  split; [|split; [|split]].
  - unfold write_slot_at, st_bind, st_lift. rewrite Eb. by rewrite E.
  - split; [by apply steady_cache|]. intros hash' b HK Hb. change (stored d' hash' b) in Hb. apply Hst in Hb.
    cbn [cache with_cache]. rewrite get_put_anchor, Ec. case_decide; [by left|by apply Hc].
  - split; [exact Hshape|]. intros raw Hne. split; [|split].
    + intros b. change (stored d' raw b <-> stored d raw b). by rewrite Hst, decide_False.
    + cbn [cache with_cache]. by rewrite get_put_anchor, Ec, decide_False.
    + cbn [cache with_cache]. by rewrite Ec.
  - intros hash'. unfold anchor_view. rewrite (slot_view_write (S n) n d d' hash slot bytes hash') by done.
    by case_decide.
Qed.

(** The encodings of an anchor and of a cleared one are short. *)
Lemma heap_ref_encodes block : fits 64 block -> slot_wf (slot_heap_ref block) /\
  exists bytes, slot_to_bytes (slot_heap_ref block) = Done bytes /\ 0 < zlen bytes <= LIVE_VALUE_MAX.
Proof.
  intros Hb. assert (slot_wf (slot_heap_ref block)) as Hwf by (by split; [|constructor]). split; [done|].
  destruct (encodes wire_slot slot_wf (slot_heap_ref block) Hwf) as (out & E & Hz & _); [slots_small|].
  exists out. unfold slot_to_bytes. rewrite E. split; [done|]. rewrite Hz. by vm_compute.
Qed.

Lemma cleared_encodes : slot_wf secondary_tombstone /\
  exists bytes, slot_to_bytes secondary_tombstone = Done bytes /\ 0 < zlen bytes <= LIVE_VALUE_MAX.
Proof. split; [by split; [|constructor]|]. eexists. split; [by vm_compute|by vm_compute]. Qed.

#[export] Instance file_anchor_laws : AnchorLaws DataFile.
Proof.
  refine {| al_ready := anchors_ready; al_view := anchor_view; al_only := only_under |}.
  - intros hash d. by split; [split_and!|].
  - intros n K d [H Hc]. split; [by apply steady_weaken|done].
  - intros. by eapply read_anchor_ready.
  - intros n K d hash block Hr _ Hh Hb. destruct (heap_ref_encodes block Hb) as (Hwf & bytes & Eb & Hl).
    destruct (write_anchor_ready n K d hash _ bytes Hr Hh Hwf Eb Hl) as (d' & E & H' & Ho & Hv). by exists d'.
  - intros n K d hash Hr _ Hh. destruct cleared_encodes as (Hwf & bytes & Eb & Hl).
    destruct (write_anchor_ready n K d hash _ bytes Hr Hh Hwf Eb Hl) as (d' & E & H' & Ho & Hv). by exists d'.
Defined.

(** ** The property *)

Lemma set_contents_eq hash x D : set_contents hash x D hash = x.
Proof. unfold set_contents. by rewrite decide_True. Qed.

(** C9: storing a value, with the anchors in the page file: a value that compresses
    to at most the inline limit is returned inline and nothing changes; otherwise a
    new content hash gets one entry, owned by [owner]; a known one gains the owner,
    once, and no copy; two values that collide are refused and nothing changes.
    Nothing the page file keeps under another key changes.  The page file has room
    for the anchor, each of its keys is on the page it hashes to, the value's hash is
    not the key of another kind of value, and the heap file has room for the entry. *)
Theorem dedup_store_spec (encode_all : list byte -> outcome string (list byte)) (K : Z -> Prop) n
    (d : DataFile) h D value owner c :
  anchors_ready (S n) K d -> dedups K d h D -> fits 128 owner -> encode_all value = Done c ->
  (max_inline h < zlen c -> K (content_hash128 c) /\ dedup_room h D c) ->
  let hash := content_hash128 c in
  exists r d' h', dedup_store encode_all value owner (d, h) = (r, (d', h')) /\
    anchors_ready n K d' /\ only_under hash d d' /\ max_inline h' = max_inline h /\
    if zlen c <=? max_inline h then r = Done (Inline c) /\ d' = d /\ h' = h
    else match D hash with
    | Some (c', os) =>
        if decide (c' = c)
        then (exists b, r = Done (InHeap hash b)) /\
             dedups K d' h' (set_contents hash (Some (c, if decide (owner ∈ os) then os else os ++ [owner])) D)
        else r = Fail (Other (String.append "content hash collision at " (hash_text hash))) /\ d' = d /\ h' = h
    | None => (exists b, r = Done (InHeap hash b)) /\ dedups K d' h' (set_contents hash (Some (c, [owner])) D)
    end.
Proof. exact (store_once (S := DataFile) encode_all K n d h D value owner c). Qed.

(** ** A page file that also holds a record *)

(** A codec for the witness: values stored as they are. *)
Definition plain (v : list byte) : outcome string (list byte) := Done v.

Definition demo_value : list byte := replicate 100 Byte.x2a.

(** A heap file that keeps no more than 64 bytes inline. *)
Definition demo_heap : HeapFile := set_max_inline 64 heap_in_memory.
Definition demo_hash : Z := content_hash128 demo_value.
Definition demo_hashes (hash : Z) : Prop := hash = demo_hash.

#[local] Opaque content_hash128 insert_at_key.

Definition recorded_file : DataFile := (put_value 3 Byte.x03 200 (opened 20000 8)).2.

Lemma demo_hash_other : demo_hash <> demo_key 3.
Proof. apply Z.eqb_neq. by vm_compute. Qed.

Lemma recorded_ready : anchors_ready 2 demo_hashes recorded_file.
Proof.
  assert (file_ready 3 (opened 20000 8)) as [Hs _] by (apply opened_ready; unfold LIVE_VALUE_MAX; lia).
  destruct (steady_insert 2 _ (demo_key 3) (replicate 200 Byte.x03) Hs) as (d & E & Hd & _ & _ & Hst); [by vm_compute..|].
  unfold recorded_file, put_value. rewrite E. split; [done|]. intros hash b -> Hb. apply Hst in Hb.
  rewrite (decide_False (P := demo_hash = demo_key 3)) in Hb by apply demo_hash_other. destruct Hb as [i Hi]. by rewrite opened_empty in Hi.
Qed.

#[local] Opaque recorded_file demo_value.

Lemma no_anchor hash : demo_hashes hash -> al_view recorded_file hash = None.
Proof. intros ->. by vm_compute. Qed.

Lemma empty_dedups : dedups demo_hashes recorded_file demo_heap (fun _ => None).
Proof.
  exists ∅. constructor; [constructor; [by exists 0| |]|reflexivity| |].
  - intros b e He. by rewrite lookup_empty in He.
  - intros b1 b2 e1 e2 He. by rewrite lookup_empty in He.
  - intros hash b HK. by rewrite no_anchor.
  - intros b e He. by rewrite lookup_empty in He.
Qed.

(** Two owners of one value: the second store adds no block to the heap file, the
    value is read back, and the record stored before is still there. *)
Lemma dedup_store_spec_witness :
  exists b1 b2 d1 h1 d2 h2 D,
    dedup_store plain demo_value 77 (recorded_file, demo_heap) = (Done (InHeap demo_hash b1), (d1, h1)) /\
    dedup_store plain demo_value 78 (d1, h1) = (Done (InHeap demo_hash b2), (d2, h2)) /\
    zlen (buffer h1) = HEAP_BLOCK_SIZE /\ zlen (buffer h2) = HEAP_BLOCK_SIZE /\
    dedups demo_hashes d2 h2 D /\ D demo_hash = Some (demo_value, [77; 78]) /\
    dedup_read plain demo_hash (d2, h2) = (Done (Some demo_value), (d2, h2)) /\
    forall b, stored d2 (demo_key 3) b <-> stored recorded_file (demo_key 3) b.
Proof.
  destruct (dedup_store_spec plain demo_hashes 1 recorded_file demo_heap (fun _ => None) demo_value 77 demo_value)
    as (r1 & d1 & h1 & E1 & Hr1 & Ho1 & Hm1 & H1);
    [exact recorded_ready|exact empty_dedups|by vm_compute|exact eq_refl|intros _; split; [exact eq_refl|by vm_compute]|].
  change (zlen demo_value <=? max_inline demo_heap) with false in H1. destruct H1 as [[b1 ->] H1].
  fold demo_hash in E1, Ho1, H1. set (D1 := set_contents _ _ _) in H1.
  assert (D1 demo_hash = Some (demo_value, [77])) as HD1 by apply set_contents_eq.
  assert (zlen (buffer h1) = 4096) as Hz1.
  { assert (zlen (buffer (dedup_store plain demo_value 77 (recorded_file, demo_heap)).2.2) = 4096) as Hz by (clear; by vm_compute).
    by rewrite E1 in Hz. }
  assert (demo_hashes demo_hash) as HK by reflexivity. assert (fits 128 78) as Ho by (clear; by vm_compute).
  pose proof (dedup_store_spec plain demo_hashes 0 d1 h1 D1 demo_value 78 demo_value Hr1 H1 Ho eq_refl) as X.
  destruct X as (r2 & d2 & h2 & E2 & Hr2 & Ho2 & Hm2 & H2).
  { intros _. split; [exact HK|]. unfold dedup_room. fold demo_hash. rewrite HD1. unfold heap_room. rewrite Hz1. clear. by vm_compute. }
  fold demo_hash in E2, Ho2, H2. rewrite Hm1 in H2. rewrite HD1 in H2.
  change (zlen demo_value <=? max_inline demo_heap) with false in H2. rewrite decide_True in H2 by reflexivity.
  destruct H2 as [[b2 ->] H2]. rewrite (decide_False (P := 78 ∈ [77])) in H2 by (clear; by intros ?%list_elem_of_singleton).
  set (D2 := set_contents _ _ _) in H2.
  assert (D2 demo_hash = Some (demo_value, [77; 78])) as HD2 by apply set_contents_eq.
  assert (zlen (buffer h2) = 4096) as Hz2.
  { assert (zlen (buffer ((dedup_store plain demo_value 77 (recorded_file, demo_heap)).2.2)) = 4096 /\
      zlen (buffer (dedup_store plain demo_value 78
        (dedup_store plain demo_value 77 (recorded_file, demo_heap)).2).2.2) = 4096) as [_ Hz] by (clear; split; by vm_compute).
    rewrite E1 in Hz. cbn [snd] in Hz. by rewrite E2 in Hz. }
  exists b1, b2, d1, h1, d2, h2, D2. split; [exact E1|]. split; [exact E2|]. split; [exact Hz1|]. split; [exact Hz2|].
  split; [exact H2|]. split; [exact HD2|]. split.
  - rewrite (dedup_read_spec plain demo_hashes 0 d2 h2 D2 demo_hash); [rewrite HD2; reflexivity|exact Hr2|exact H2| |exact HK].
    unfold small_file. rewrite Hz2. clear. by vm_compute.
  - pose proof (not_eq_sym demo_hash_other) as Hne.
    intros b. destruct (proj2 Ho1 _ Hne) as [S1 _]. destruct (proj2 Ho2 _ Hne) as [S2 _]. by rewrite S2.
Defined.
