(* ===== verification/NodeStorage.v ===== *)
(** * A node's storage: data file, journal and heap together
    (wavedb-storage: node_storage.rs, pipeline/drain.rs)

    The three locks are taken one operation at a time, so a value of
    [NodeStorage] is the state between operations.  What survives a crash is the
    snapshot of the data file, the bytes of the journal file and those of the heap
    file. *)
From S2P Require Import Prelude Wire WireOk Errors Ids Page Hash Anchor Journal DataFile Live Heap.

Record NodeStorage : Type := {
  data_file : DataFile;
  journal : Journal;
  heap_file : HeapFile
}.

Abbreviation NS := (ST NodeStorage StorageError).

Definition on_data {A} (m : DF A) : NS A := fun st =>
  let '(r, d) := m (data_file st) in
  (r, {| data_file := d; journal := journal st; heap_file := heap_file st |}).

Definition on_journal {A} (f : Journal -> StorageResult (Journal * A)) : NS A := fun st =>
  match f (journal st) with
  | Done (j, a) => (Done a, {| data_file := data_file st; journal := j; heap_file := heap_file st |})
  | Fail e => (Fail e, st)
  | Fault => (Fault, st)
  end.

(** The deduplication works on the data file and the heap file. *)
Definition on_heap_pair {A} (m : ST (DataFile * HeapFile) StorageError A) : NS A := fun st =>
  let '(r, (d, h)) := m (data_file st, heap_file st) in
  (r, {| data_file := d; journal := journal st; heap_file := h |}).

Definition journal_append (e : JournalEntry) : NS unit :=
  on_journal (fun j => let* j := append j e in Done (j, tt)).

(** ** Commits *)

(** Append and sync, then apply; [Journal::flush] adds nothing to the sync of
    [append]. *)
Definition commit_versioned_write (rec : VersionedRecord) : NS unit :=
  do! journal_append (WriteVersioned rec) in
  on_data (write_versioned rec).

Definition commit_write (id : Id) (payload : list byte) : NS unit :=
  commit_versioned_write (record_new id payload).

Definition commit_write_live (id : Id) (payload : list byte) : NS unit :=
  do! commit_write id payload in
  on_data (live_append (Ids.struct_id id) (tenant_id id) id).

(** ** Recovery *)

(** A [BTreeMap] from [(struct, tenant)] to the replayed identifiers: an
    association list in key order. *)
Abbreviation Touched := (list ((Z * Z) * list Z)).

Definition key_lt (a b : Z * Z) : bool := (a.1 <? b.1) || ((a.1 =? b.1) && (a.2 <? b.2)).

Fixpoint touch (key : Z * Z) (id : Z) (t : Touched) : Touched :=
  match t with
  | [] => [(key, [id])]
  | (k, ids) :: t' =>
    if decide (k = key) then (k, ids ++ [id]) :: t'
    else if key_lt key k then (key, [id]) :: t else (k, ids) :: touch key id t'
  end.

Definition record_key (rec : VersionedRecord) : Z * Z :=
  (Ids.struct_id (vr_id rec), tenant_id (vr_id rec)).

(** The replay loop: the number of records applied and the keys they touch. *)
Fixpoint replay (es : list JournalEntry) (replayed : nat) (touched : Touched) : NS (nat * Touched) :=
  match es with
  | [] => st_ret (replayed, touched)
  | WriteVersioned rec :: es =>
    do! on_data (write_versioned rec) in
    replay es (S replayed)
      (if shard_id (vr_id rec) =? LIVE_TRACKER_SHARD then touched
       else touch (record_key rec) (vr_id rec) touched)
  | _ :: es => replay es replayed touched
  end.

Definition rebuild_touched (touched : Touched) : NS unit :=
  st_iter (fun kt => on_data (live_rebuild kt.1.1 kt.1.2 kt.2)) touched.

(** [compact_journal]: persist the pages, then drop what they contain. *)
Definition compact_journal : NS unit :=
  do! on_data df_flush in
  let! seq := on_journal checkpoint in
  on_journal (fun j => let* j := truncate_through j seq in Done (j, tt)).

Definition recover_from_journal : NS unit :=
  let! es := st_gets (fun st => entries (journal st)) in
  if decide (es = []) then st_ret tt
  else
    let! (replayed, touched) := replay es 0 [] in
    do! rebuild_touched touched in
    if decide (0 < replayed)%nat then compact_journal else st_ret tt.

(** [NodeStorage::open] on the three files found. *)
Definition node_open (data : option (list byte)) (log heap : list byte) : StorageResult NodeStorage :=
  let* d := open_on_disk DEFAULT_PAGE_SIZE data in
  let* j := journal_open log in
  let st := {| data_file := d; journal := j; heap_file := heap_open heap |} in
  match (do! recover_from_journal in on_data df_flush) st with
  | (Done _, st) => Done {| data_file := data_file st; journal := journal st;
                            heap_file := heap_flush (heap_file st) |}
  | (Fail e, _) => Fail e
  | (Fault, _) => Fault
  end.

(** ** Heap values and maintenance *)

Definition flush_snapshot : NS unit := on_data df_flush.

Section codec.
Variables encode_all decode_all : list byte -> outcome string (list byte).

Definition store_heapable (owner : Id) (value : list byte) : NS HeapPlacement :=
  on_heap_pair (dedup_store encode_all value owner).

Definition read_heapable (content_hash : Z) : NS (option (list byte)) :=
  on_heap_pair (dedup_read decode_all content_hash).

Definition release_heapable (content_hash : Z) (owner : Id) : NS bool :=
  on_heap_pair (release_owner content_hash owner).
End codec.

(** ** The drain actor *)

Record DrainResult : Type := { drained : nat; checkpoint_seq : Z }.

Definition drain_entry (e : JournalEntry) : DF nat :=
  match e with
  | WriteAnchor key slot => do! write_anchor key slot in st_ret 1%nat
  | WriteVersioned record => do! write_versioned record in st_ret 1%nat
  | DeleteAnchor key => do! write_anchor key (primary_tombstone 0) in st_ret 1%nat
  | FreeSpace _ _ _ | DictUpdate _ _ _ => st_ret 1%nat
  | Checkpoint _ => st_ret 0%nat
  end.

Fixpoint drain_entries (es : list JournalEntry) (drained : nat) : DF nat :=
  match es with
  | [] => st_ret drained
  | e :: es => let! n := drain_entry e in drain_entries es (drained + n)
  end.

Definition drain_journal : ST (Journal * DataFile) StorageError DrainResult := fun '(j, d) =>
  let '(r, d) := drain_entries (entries_since_checkpoint j) 0 d in
  match r with
  | Done n => match checkpoint j with
              | Done (j, seq) => (Done {| drained := n; checkpoint_seq := seq |}, (j, d))
              | Fail e => (Fail e, (j, d))
              | Fault => (Fault, (j, d))
              end
  | Fail e => (Fail e, (j, d))
  | Fault => (Fault, (j, d))
  end.
