(* ===== verification/NodeStorageOk.v ===== *)
(** * Recovery: what was journalled is found again

    On a data file with room (see [LiveFile]), replaying the journal leaves every
    journalled record readable, every live list extended with the replayed
    identifiers, the snapshot on disk up to date and the journal empty. *)
From S2P Require Import Prelude Wire WireOk Errors Ids Page Hash Anchor Journal DataFile DataFileOk Snapshot Live LiveOk LiveFile Heap NodeStorage.

(** ** The records of a journal *)

Fixpoint records (es : list JournalEntry) : list VersionedRecord :=
  match es with
  | [] => []
  | WriteVersioned rec :: es => rec :: records es
  | _ :: es => records es
  end.

(** The last record written under an identifier. *)
Definition latest (id : Id) (recs : list VersionedRecord) : option VersionedRecord :=
  last (filter (fun r => vr_id r = id) recs).

Lemma latest_cons id r recs :
  latest id (r :: recs) = match latest id recs with
                          | Some x => Some x
                          | None => if decide (vr_id r = id) then Some r else None
                          end.
Proof.
  unfold latest. rewrite filter_cons. case_decide as Hd.
  - rewrite last_cons. by destruct (last _).
  - by destruct (last _).
Qed.

Lemma latest_id id recs r : latest id recs = Some r -> vr_id r = id /\ r ∈ recs.
Proof.
  unfold latest. intros Hl. apply last_Some_elem_of in Hl. by apply list_elem_of_filter in Hl.
Qed.

(** A record the node commits: of a bounded size, under a key of its own. *)
Definition rec_ok (rec : VersionedRecord) : Prop := small_record rec /\ plain_key (vr_id rec).

Lemma plain_route id : plain_key id -> route_key_for_raw id = page_key_full id.
Proof.
  intros [_ Hp]. Transparent route_key_for_raw. unfold route_key_for_raw. Opaque route_key_for_raw.
  destruct (shard_id id =? 0) eqn:E1; [|done]. destruct (created_at id =? 0) eqn:E2; [|done]. lia.
Qed.

Lemma record_key_ok rec : fits 128 (vr_id rec) -> key_ok (record_key rec).1 (record_key rec).2.
Proof.
  intros (t & s & k & c & H & E)%id_split. unfold record_key. simpl. rewrite E.
  destruct (digits_fields _ _ _ _ H) as (-> & _ & -> & _). split; apply H.
Qed.

(** ** Touched keys *)

Lemma touch_elem key id t key' id' :
  (exists ids, (key', ids) ∈ touch key id t /\ id' ∈ ids) <->
  (key' = key /\ id' = id) \/ exists ids, (key', ids) ∈ t /\ id' ∈ ids.
Proof.
  induction t as [|[k ids] t IH]; simpl.
  - split.
    + intros (x & Hx & Hi). apply list_elem_of_singleton in Hx as [= -> ->].
      apply list_elem_of_singleton in Hi as ->. by left.
    + intros [[-> ->]|(x & Hx & _)]; [|by apply not_elem_of_nil in Hx].
      exists [id]. split; by apply list_elem_of_singleton.
  - destruct (decide (k = key)) as [->|Hne]; [|destruct (key_lt key k)].
    + split.
      * intros (x & Hx & Hi). apply elem_of_cons in Hx as [[= -> ->]|Hx].
        -- apply elem_of_app in Hi as [Hi|Hi]; [right; exists ids; split; [by left|done]|].
           apply list_elem_of_singleton in Hi as ->. by left.
        -- right. exists x. split; [by right|done].
      * intros [[-> ->]|(x & Hx & Hi)].
        -- exists (ids ++ [id]). split; [by left|]. apply elem_of_app. right. by left.
        -- apply elem_of_cons in Hx as [[= -> ->]|Hx].
           ++ exists (ids ++ [id]). split; [by left|]. apply elem_of_app. by left.
           ++ exists x. split; [by right|done].
    + split.
      * intros (x & Hx & Hi). apply elem_of_cons in Hx as [[= -> ->]|Hx].
        -- left. by apply list_elem_of_singleton in Hi.
        -- right. by exists x.
      * intros [[-> ->]|(x & Hx & Hi)]; [exists [id]; split; by left|].
        exists x. split; [by right|done].
    + split.
      * intros (x & Hx & Hi). apply elem_of_cons in Hx as [[= -> ->]|Hx].
        -- right. exists ids. split; [by left|done].
        -- destruct (proj1 IH) as [Hd|(y & Hy & Hyi)]; [by exists x|by left|].
           right. exists y. split; [by right|done].
      * intros [Hd|(x & Hx & Hi)].
        -- destruct (proj2 IH) as (y & Hy & Hyi); [by left|]. exists y. split; [by right|done].
        -- apply elem_of_cons in Hx as [[= -> ->]|Hx]; [exists ids; split; [by left|done]|].
           destruct (proj2 IH) as (y & Hy & Hyi); [right; by exists x|].
           exists y. split; [by right|done].
Qed.

Lemma length_touch key id t : (length (touch key id t) <= S (length t))%nat.
Proof.
  induction t as [|[k ids] t IH]; simpl; [done|].
  destruct (decide _); [simpl; lia|]. destruct (key_lt key k); simpl; lia.
Qed.

(** The identifiers touched under a key, and how many there can be. *)
Definition touched_ids (t : Touched) (key : Z * Z) (x : Z) : Prop := exists ids, (key, ids) ∈ t /\ x ∈ ids.

Definition touch_all (recs : list VersionedRecord) (t : Touched) : Touched :=
  foldl (fun t r => touch (record_key r) (vr_id r) t) t recs.

Lemma touch_all_elem recs t key x :
  touched_ids (touch_all recs t) key x <->
  touched_ids t key x \/ exists r, r ∈ recs /\ record_key r = key /\ vr_id r = x.
Proof.
  revert t. induction recs as [|r recs IH]; intros t; simpl.
  - split; [by left|]. intros [H|(r & ?%not_elem_of_nil & _)]; done.
  - rewrite IH. unfold touched_ids at 1. rewrite touch_elem. split.
    + intros [[[-> ->]|H]|(r' & Hr & H)]; [right; exists r; split; [by left|done]|by left|].
      right. exists r'. split; [by right|done].
    + intros [H|(r' & [->|Hr]%elem_of_cons & <- & <-)]; [left; by right|left; by left|].
      right. by exists r'.
Qed.

Lemma length_touch_all recs t : (length (touch_all recs t) <= length t + length recs)%nat.
Proof.
  revert t. induction recs as [|r recs IH]; intros t; simpl; [lia|].
  etransitivity; [apply IH|]. pose proof (length_touch (record_key r) (vr_id r) t). lia.
Qed.

(** The total number of identifiers touched. *)
Definition touch_weight (t : Touched) : nat := sum_list (map (fun kt => length kt.2) t).

Lemma touch_weight_touch key id t : touch_weight (touch key id t) = S (touch_weight t).
Proof.
  unfold touch_weight. induction t as [|[k ids] t IH]; simpl; [done|].
  destruct (decide _); [simpl; rewrite length_app; simpl; lia|].
  destruct (key_lt key k); simpl; lia.
Qed.

Lemma touch_all_weight recs t : touch_weight (touch_all recs t) = (touch_weight t + length recs)%nat.
Proof.
  revert t. induction recs as [|r recs IH]; intros t; simpl; [lia|].
  rewrite IH, touch_weight_touch. lia.
Qed.

(** ** Replay *)

(** A read of a plain record: the cached one. *)
Lemma read_cached d id r : get_versioned (cache d) id = Some r -> read_versioned id d = (Done (Some r), d).
Proof. intros E. unfold read_versioned, read_full_id, st_bind, st_gets. by rewrite E. Qed.

(** The record is cached and its encoding is stored. *)
Definition kept_record (d : DataFile) (id : Id) (r : VersionedRecord) : Prop :=
  get_versioned (cache d) id = Some r /\
  exists b, record_to_bytes r = Done b /\ forall b', stored d id b' <-> b' = b.

Lemma tracks_ext (d d' : DataFile) k t m l :
  (forall k t, key_ok k t -> slot_view d' (unique_anchor_id k t) = slot_view d (unique_anchor_id k t)) ->
  (forall id, segment_like id -> record_view d' id = record_view d id) ->
  key_ok k t -> tracks d k t m l -> tracks d' k t m l.
Proof.
  intros Hs Hr Hk (segs & opn & [Hh Ho Hsg Hc] & Hl & Hm). exists segs, opn. split; [|done].
  constructor; [|done| |done].
  - eapply head_kept; [|exact Hh]. by apply Hs.
  - intros i ids Hi. destruct (Hsg i ids Hi) as [H1 H2]. split; [|done].
    eapply segment_kept; [|exact H1]. apply Hr, segment_id_like.
Qed.

Definition with_data (d : DataFile) (st : NodeStorage) : NodeStorage :=
  {| data_file := d; journal := journal st; heap_file := heap_file st |}.

Lemma replay_spec es : forall n st k t,
  Forall rec_ok (records es) -> file_ready (length (records es) + n) (data_file st) ->
  exists d', replay es k t st = (Done ((k + length (records es))%nat, touch_all (records es) t), with_data d' st) /\
    file_ready n d' /\ same_shape (data_file st) d' /\
    (forall id r, latest id (records es) = Some r -> kept_record d' id r) /\
    (forall id r, latest id (records es) = None -> kept_record (data_file st) id r -> kept_record d' id r) /\
    (forall k t, key_ok k t -> slot_view d' (unique_anchor_id k t) = slot_view (data_file st) (unique_anchor_id k t)) /\
    (forall id, segment_like id -> record_view d' id = record_view (data_file st) id).
Proof.
  induction es as [|e es IH]; intros n st k t Hok Hr.
  { exists (data_file st). simpl. rewrite Nat.add_0_r. destruct st. split; [done|]. split; [done|].
    split; [by split_and!|]. split; [done|]. by split. }
  destruct e as [key slot|rec|key|fk o z|sid v dat|sq]; cbn [replay records] in *; try (by apply IH).
  apply Forall_cons in Hok as [[Hsm Hpk] Hok].
  destruct (file_write_record (length (records es) + n) (data_file st) rec Hr (proj2 Hpk) Hsm)
    as (d1 & E1 & Hr1 & Hsh1 & Hv1 & Hs1 & Hc1 & bytes & Eb & Hst1).
  rewrite Eb in E1. pose proof (write_versioned_run rec bytes _ _ (plain_route _ Hpk) Eb E1) as Ew.
  set (d2 := with_cache (put_versioned rec (cache d1)) d1) in *.
  destruct (IH n (with_data d2 st) (S k) (touch (record_key rec) (vr_id rec) t) Hok Hr1)
    as (d' & E & Hr' & Hsh' & Hl & Hkeep & Hsv & Hrv).
  exists d'. unfold st_bind at 1, on_data at 1. rewrite Ew.
  destruct (shard_id (vr_id rec) =? LIVE_TRACKER_SHARD) eqn:Esh; [destruct Hpk; lia|].
  unfold with_data in E at 1. rewrite E. simpl. split; [by rewrite Nat.add_succ_r|].
  split; [done|]. split; [by eapply same_shape_trans|]. split; [|split; [|split]].
  - intros id r. rewrite latest_cons. destruct (latest id (records es)) as [x|] eqn:El.
    + intros [= <-]. by apply Hl.
    + case_decide as Hd; [|done]. intros [= <-]. apply Hkeep; [done|]. subst id. split.
      * simpl. by rewrite Hc1, decide_True.
      * exists bytes. split; [done|]. intros b'. rewrite (Hst1 (vr_id rec) b'), decide_True; done.
  - intros id r. rewrite latest_cons. destruct (latest id (records es)) eqn:El; [done|].
    case_decide as Hd; [done|]. intros _ [Hca (b & Hb & Hst)]. apply Hkeep; [done|]. split.
    + simpl. by rewrite Hc1, decide_False.
    + exists b. split; [done|]. intros b'. simpl. by rewrite (Hst1 id b'), decide_False by done.
  - intros k' t' Hk'. rewrite Hsv by done. simpl. apply Hs1. intros Eq.
    destruct (tracker_fields k' t' Hk') as (_ & H1 & _ & H2). rewrite Eq in H1, H2.
    destruct (proj2 Hpk); congruence.
  - intros id Hid. rewrite Hrv by done. simpl. rewrite Hv1, decide_False; [done|].
    intros ->. by destruct Hpk, Hid.
Qed.

(** ** Rebuilding the touched lists *)

Definition listed (d : DataFile) (A : Lists) : Prop := forall k t, key_ok k t -> exists m, tracks d k t m (A (k, t)).

Lemma kept_file d d' id r : file_kept d d' -> plain_key id -> kept_record d id r -> kept_record d' id r.
Proof.
  intros [_ Hk] Hp [Hc (b & Hb & Hs)]. destruct (Hk id Hp) as [Hc' Hs']. split; [congruence|].
  exists b. split; [done|]. intros b'. by rewrite Hs'.
Qed.

Lemma file_ready_le n m d : (m <= n)%nat -> file_ready n d -> file_ready m d.
Proof. exact (ready_le (S := DataFile) n m d). Qed.

Lemma file_kept_trans d1 d2 d3 : file_kept d1 d2 -> file_kept d2 d3 -> file_kept d1 d3.
Proof. exact (lv_kept_trans (S := DataFile) d1 d2 d3). Qed.

(** One rebuild writes at most one segment per 256 identifiers and the head. *)
Lemma rebuild_step n d k t ids A B :
  file_ready (S ((B + length ids) / 256) + n) d -> key_ok k t -> Forall (fits 128) ids ->
  listed d A -> (length (A (k, t)) <= B)%nat -> zlen (A (k, t)) + zlen ids <= 2 ^ 48 ->
  exists d' A', live_rebuild k t ids d = (Done tt, d') /\ file_ready n d' /\ file_kept d d' /\ listed d' A' /\
    (forall x, x ∈ A' (k, t) <-> x ∈ A (k, t) \/ x ∈ ids) /\ (length (A' (k, t)) <= length (A (k, t)) + length ids)%nat /\
    forall key, key <> (k, t) -> A' key = A key.
Proof.
  intros Hr Hk Hids HA HB Hl. destruct (HA k t Hk) as (m & segs & opn & Hh & Hcat & Hm).
  destruct (rebuild_spec n d k t segs opn ids) as (d' & segs' & opn' & E & Hr' & Hh' & [Hkept Ho] & Hs & Hin);
    [|done|done|done|by rewrite <- Hcat|].
  { eapply file_ready_le; [|exact Hr]. rewrite <- Hcat. unfold LIVE_SEGMENT_CAP.
    apply le_n_S. apply Nat.add_le_mono_r. apply Nat.Div0.div_le_mono. lia. }
  set (A' := fun key => if decide (key = (k, t)) then concat segs' ++ opn' else A key).
  exists d', A'. split; [done|]. split; [done|]. split; [done|]. split; [|split; [|split]].
  - intros k' t' Hk'. unfold A'. destruct (decide _) as [[= -> ->]|Hne].
    + exists (zlen segs'), segs', opn'. split; [done|]. split; [done|lia].
    + destruct (HA k' t' Hk') as (m' & segs1 & opn1 & Hh1 & Hc1 & Hm1).
      exists m', segs1, opn1. split; [by apply Ho|done].
  - intros x. unfold A'. rewrite decide_True by done. rewrite Hin. by rewrite Hcat.
  - unfold A'. rewrite decide_True by done.
    assert (NoDup (concat segs' ++ opn')) as Hnd.
    { clear -Hs. revert Hs. generalize (concat segs' ++ opn'). induction 1 as [|x l Hl IH Hx]; constructor; [|done].
      intros Hin. rewrite Forall_forall in Hx. by destruct (Hx _ Hin) as [_ Hne]. }
    assert (concat segs' ++ opn' ⊆+ A (k, t) ++ ids) as Hsub.
    { apply NoDup_submseteq; [done|]. intros x Hx. apply elem_of_app. rewrite Hcat. by apply Hin. }
    apply submseteq_length in Hsub. rewrite (length_app (A _)) in Hsub. exact Hsub.
  - intros key Hne. unfold A'. by rewrite decide_False.
Qed.

Lemma rebuild_touched_spec touched : forall n C st A,
  Forall (fun kt => key_ok kt.1.1 kt.1.2 /\ Forall (fits 128) kt.2) touched ->
  file_ready (length touched * S (C / 256) + n) (data_file st) -> listed (data_file st) A ->
  (forall key, (length (A key) + touch_weight touched <= C)%nat) -> Z.of_nat C <= 2 ^ 48 ->
  exists d' A', rebuild_touched touched st = (Done tt, with_data d' st) /\
    file_ready n d' /\ file_kept (data_file st) d' /\ listed d' A' /\
    forall key x, x ∈ A' key <-> x ∈ A key \/ touched_ids touched key x.
Proof.
  induction touched as [|[[k t] ids] touched IH]; intros n C st A Hok Hr HA HC H48.
  { exists (data_file st), A. destruct st. split; [done|]. split; [done|].
    split; [split; [by split_and!|done]|]. split; [done|]. intros key x. split; [by left|].
    intros [H|(i & Hi & _)]; [done|by apply not_elem_of_nil in Hi]. }
  apply Forall_cons in Hok as [[Hk Hids] Hok]. unfold touch_weight in HC. simpl in HC, Hk, Hids.
  fold (touch_weight touched) in HC. pose proof (HC (k, t)) as HCk.
  assert ((length (A (k, t)) + length ids) / 256 <= C / 256)%nat as Hdiv by (apply Nat.Div0.div_le_mono; lia).
  destruct (rebuild_step (length touched * S (C / 256) + n) (data_file st) k t ids A (length (A (k, t))))
    as (d1 & A1 & E1 & Hr1 & Hk1 & HA1 & Hin1 & Hl1 & Ho1); [|done|done|done|lia| |].
  { apply (file_ready_le (length ((k, t, ids) :: touched) * S (C / 256) + n)); [|exact Hr].
    cbn [length Nat.mul]. generalize dependent (C / 256)%nat. intros. lia. }
  { unfold zlen. lia. }
  destruct (IH n C (with_data d1 st) A1) as (d' & A' & E & Hr' & Hk' & HA' & Hin'); [done..| |done|].
  { intros key. destruct (decide (key = (k, t))) as [->|Hne]; [lia|].
    rewrite Ho1 by done. specialize (HC key). lia. }
  exists d', A'. split; [|split; [done|split; [by eapply file_kept_trans|split; [done|]]]].
  - unfold rebuild_touched. simpl. unfold st_bind, on_data. simpl. rewrite E1. exact E.
  - intros key x. rewrite Hin'. unfold touched_ids. destruct (decide (key = (k, t))) as [->|Hne].
    + rewrite Hin1. split.
      * intros [[H|H]|(i & Hi & Hx)]; [by left| |]; right; [exists ids|exists i]; split; try done; [by left|by right].
      * intros [H|(i & Hi & Hx)]; [left; by left|].
        apply elem_of_cons in Hi as [[= ->]|Hi]; [left; by right|right; by exists i].
    + rewrite Ho1 by done. split.
      * intros [H|(i & Hi & Hx)]; [by left|right; exists i; split; [by right|done]].
      * intros [H|(i & Hi & Hx)]; [by left|right].
        apply elem_of_cons in Hi as [[= -> ->]|Hi]; [done|by exists i].
Qed.

(** ** Compaction *)

Lemma after_last_end p es e : p e = true -> after_last p (es ++ [e]) = Some [].
Proof. intros Hp. induction es as [|x es IH]; simpl; [by rewrite Hp|by rewrite IH]. Qed.

(** The journal is emptied, its file with it. *)
Definition emptied (j : Journal) : Journal :=
  {| file := (fun _ => []) <$> file j; entries := []; sequence := sequence j + 1 |}.

Lemma compact_spec st d :
  journal_ok (journal st) -> 0 <= sequence (journal st) < 2 ^ 64 - 1 -> df_flush (data_file st) = (Done tt, d) ->
  compact_journal st
  = (Done tt, {| data_file := d; journal := emptied (journal st); heap_file := heap_file st |}).
Proof.
  intros Hj Hs Hd. set (e := Checkpoint (sequence (journal st) + 1)).
  assert (fits 64 (sequence (journal st) + 1)) as Hf by (unfold fits; lia).
  assert (checkpoint (journal st) = Done ({| file := (fun b => b ++ frame e) <$> file (journal st);
      entries := entries (journal st) ++ [e]; sequence := sequence (journal st) + 1 |},
      sequence (journal st) + 1)) as Hc.
  { unfold checkpoint. rewrite (proj2 (fitsb_spec _ _) Hf). simpl. unfold append. simpl.
    destruct (file (journal st)) as [b|]; [|done]. by rewrite encode_frame_ok by (by apply checkpoint_entry_ok). }
  unfold compact_journal, st_bind, on_data, on_journal. rewrite Hd. simpl. rewrite Hc. simpl.
  unfold truncate_through. cbn [entries file sequence].
  rewrite after_last_end by (simpl; lia). unfold emptied. simpl.
  by destruct (file (journal st)).
Qed.

Definition touched_ok (kt : (Z * Z) * list Z) : Prop := key_ok kt.1.1 kt.1.2 /\ Forall (fits 128) kt.2.

Lemma touch_ok key id t :
  key_ok key.1 key.2 -> fits 128 id -> Forall touched_ok t -> Forall touched_ok (touch key id t).
Proof.
  intros Hk Hid. assert (touched_ok (key, [id])) as Hnew by (split; [done|by apply Forall_singleton]).
  induction 1 as [|[k ids] t [Hk' Hids] Ht IH]; simpl; [by apply Forall_singleton|].
  destruct (decide (k = key)) as [->|Hne]; [|destruct (key_lt key k)].
  - constructor; [|done]. split; [done|]. apply Forall_app. split; [done|by apply Forall_singleton].
  - constructor; [done|]. by constructor.
  - by constructor.
Qed.

Lemma touch_all_ok recs t : Forall rec_ok recs -> Forall touched_ok t -> Forall touched_ok (touch_all recs t).
Proof.
  revert t. induction recs as [|r recs IH]; intros t; [done|]. intros [[[Hwf _] _] Hr]%Forall_cons Ht. simpl.
  apply IH; [done|]. apply touch_ok; [apply record_key_ok|..]; [apply Hwf..|done].
Qed.

Lemma latest_exists recs r : r ∈ recs -> is_Some (latest (vr_id r) recs).
Proof.
  induction recs as [|x recs IH]; [by intros ?%not_elem_of_nil|].
  intros [<-|Hr]%elem_of_cons; rewrite latest_cons.
  - destruct (latest _ _); [by eexists|]. rewrite decide_True by done. by eexists.
  - by destruct (IH Hr) as [y ->].
Qed.

Lemma file_ready_snapshot n d b : file_ready n d -> file_ready n (with_snapshot b d).
Proof.
  intros [[H Hh [? ? ?]] Hc]. split; [|done]. constructor; [|exact Hh|by constructor].
  destruct H. by constructor.
Qed.

(** A page file at home is found again after a reload. *)
Lemma reopened_record n d d2 id r :
  steady n d -> reopened d d2 -> plain_key id -> small_record r -> vr_id r = id -> kept_record d id r ->
  read_versioned id d2 = (Done (Some r), d2).
Proof.
  intros H Hre Hp [Hwf _] Hid [_ (b & Eb & Hst)].
  assert (placed d2) as Hpl.
  { apply home_placed. intros raw i b1. rewrite (rp_at _ _ Hre), (rp_count _ _ Hre). by apply (st_home _ _ H). }
  assert (stored d2 id b) as Hs.
  { destruct (proj2 (Hst b) eq_refl) as [i Hi]. exists i. by rewrite (rp_at _ _ Hre). }
  unfold read_versioned, read_full_id, st_bind, st_gets. rewrite (rp_cache _ _ Hre).
  assert (get_versioned cache_new id = None) as -> by done.
  rewrite <- plain_route by done. unfold decoded, st_bind. rewrite lookup_spec by apply Hre.
  rewrite (search_stored _ _ _ Hpl Hs). unfold st_lift. by rewrite (record_decodes _ _ Hwf Eb).
Qed.

(** ** The property *)

Section recovery.
Variables (st : NodeStorage) (n C : nat) (A : Lists).
Abbreviation recs := (records (entries (journal st))).

(** A crash left a journal of whole records and a data file with room to redo
    them and the lists they touch. *)
Record recoverable : Prop := {
  rv_journal : journal_ok (journal st);
  rv_sequence : 0 <= sequence (journal st) < 2 ^ 64 - 1;
  rv_some : recs <> [];
  rv_records : Forall rec_ok recs;
  rv_ready : file_ready (length recs + (length recs * S (C / 256) + n)) (data_file st);
  rv_storable : storable (data_file st);
  rv_sized : snapshot_sized (data_file st);
  rv_mode : mode (data_file st) = OnDisk;
  rv_listed : listed (data_file st) A;
  rv_lists : forall key, (length (A key) + length recs <= C)%nat;
  rv_bound : Z.of_nat C <= 2 ^ 48
}.

(** C7: recovery after a crash succeeds; the last version of every journalled
    record is read back, from the recovered node and from a fresh start on the
    snapshot it has written, each live list holds the identifiers it held and
    those of the journalled records of its type and tenant, and the journal is
    emptied, on disk too.  The data file has room for the writes of the recovery and
    each of its keys is on the page it hashes to ([recoverable]). *)
Theorem recover_from_journal_ok :
  recoverable ->
  exists st' A' bytes, recover_from_journal st = (Done tt, st') /\
    journal st' = emptied (journal st) /\ heap_file st' = heap_file st /\
    file_ready n (data_file st') /\ snapshot (data_file st') = Some bytes /\
    listed (data_file st') A' /\
    (forall key x, x ∈ A' key <-> x ∈ A key \/ exists r, r ∈ recs /\ record_key r = key /\ vr_id r = x) /\
    forall id r, latest id recs = Some r ->
      read_versioned id (data_file st') = (Done (Some r), data_file st') /\
      exists d2, open_on_disk (df_page_size (data_file st)) (Some bytes) = Done d2 /\
        read_versioned id d2 = (Done (Some r), d2).
Proof.
  intros [Hj Hsq Hne Hok Hr Hsto Hsz Hm HA HC H48].
  destruct (replay_spec (entries (journal st)) (length recs * S (C / 256) + n) st 0 [] Hok Hr)
    as (d1 & E1 & Hr1 & (Hc1 & Hp1 & Hm1 & _ & Hst1) & Hl1 & _ & Hsv & Hrv).
  set (touched := touch_all recs []) in *.
  assert (length touched <= length recs)%nat as Ht
    by (etransitivity; [apply length_touch_all|simpl; lia]).
  destruct (rebuild_touched_spec touched n C (with_data d1 st) A)
    as (d2 & A' & E2 & Hr2 & Hkept & HA2 & Hin);
    [by apply touch_all_ok| | | |done|].
  { eapply file_ready_le; [|exact Hr1]. apply Nat.add_le_mono_r, Nat.mul_le_mono_r, Ht. }
  { intros k t Hk. destruct (HA k t Hk) as [m Htr]. exists m. by eapply tracks_ext. }
  { intros key. unfold touched. rewrite touch_all_weight. simpl. apply HC. }
  simpl in Hkept. pose proof (proj1 Hkept) as (Hc2 & Hp2 & Hm2 & _ & Hst2). destruct (proj1 Hr2) as [Hok2 _ _].
  assert (storable d2) as Hsto2 by auto.
  assert (snapshot_sized d2) as Hsz2 by (unfold snapshot_sized; by rewrite Hc2, Hp2, Hc1, Hp1).
  destruct (flush_reload d2 Hok2 Hsto2 Hsz2) as (bytes & d3 & Eflush & Eopen & Hre);
    [by rewrite Hm2, Hm1|].
  exists {| data_file := with_snapshot (Some bytes) d2; journal := emptied (journal st); heap_file := heap_file st |}, A', bytes.
  split; [|split; [done|split; [done|split; [|split; [done|split; [|split]]]]]].
  - unfold recover_from_journal, st_bind, st_gets.
    rewrite decide_False by (intros E0; apply Hne; by rewrite E0). rewrite E1, E2. simpl.
    rewrite decide_True by (destruct recs; [done|simpl; lia]).
    by apply (compact_spec (with_data d2 (with_data d1 st))).
  - by apply file_ready_snapshot.
  - intros k t Hk. destruct (HA2 k t Hk) as [m Htr]. exists m. by eapply tracks_ext; [| |done|exact Htr].
  - intros key x. rewrite Hin. unfold touched. rewrite touch_all_elem. split.
    + intros [H|[(i & Hi & _)|H]]; [by left| by apply not_elem_of_nil in Hi|by right].
    + intros [H|H]; [by left|right; by right].
  - intros id r Hlr. destruct (latest_id _ _ _ Hlr) as [Hid Hin']. rewrite Forall_forall in Hok.
    destruct (Hok r Hin') as [Hsm Hpk]. rewrite Hid in Hpk.
    assert (kept_record d2 id r) as Hkr by (eapply kept_file; [exact Hkept|done|by apply Hl1]).
    split; [apply read_cached; apply Hkr|]. exists d3. rewrite <- Hp1, <- Hp2. split; [done|].
    by eapply reopened_record; [apply Hr2|..].
Qed.
End recovery.

(** ** A witness: one record in the journal of a fresh node *)

Lemma disk_file_ready size n :
  20 + Z.of_nat n * (LIVE_VALUE_MAX + 32) <= size -> 1076 <= size < 2 ^ 26 -> (n <= 191)%nat ->
  file_ready n (disk_file size).
Proof.
  intros Hn Hs Hw. destruct (disk_file_ok size Hs) as (_ & H1 & H2 & H3 & H4 & _ & _ & _ & _ & _ & Hc & _ & Hp).
  set (d := disk_file size) in *.
  split.
  - constructor; [done..|]. constructor; [|rewrite ?Hc..]; [| |done].
    + assert (used_page_count d = 0) as ->; [|rewrite Hc; unfold DEFAULT_PAGE_COUNT; lia].
      unfold used_page_count.
      assert (filter (fun p => 0 < entry_count (header p)) (pages d) = []) as ->; [|done].
      apply filter_none, Forall_lookup. intros i p Hi. destruct (Hp i p Hi) as (_ & -> & _). lia.
    + intros i p Hi. destruct (Hp i p Hi) as (Hd & _ & Hh).
      unfold slack. rewrite Hd, Hh. unfold HEADER_SIZE, DIR_ENTRY_SIZE, zlen in *. simpl. lia.
  - intros raw b (i & Hi). unfold at_page in Hi. destruct (pages d !! i) as [p|] eqn:E; [|done].
    destruct (Hp i p E) as (Hd & _). simpl in Hi. unfold contents in Hi. by rewrite Hd in Hi.
Qed.

Lemma disk_file_empty size i raw : 1076 <= size < 2 ^ 26 -> at_page (pages (disk_file size)) i raw = None.
Proof.
  intros Hs. destruct (disk_file_ok size Hs) as (_ & _ & _ & _ & _ & _ & _ & _ & _ & _ & _ & _ & Hp).
  unfold at_page. destruct (_ !! i) as [p|] eqn:E; [|done]. destruct (Hp _ p E) as (Hd & _).
  simpl. unfold contents. by rewrite Hd.
Qed.

Definition demo_record : VersionedRecord := record_new (Id_new 1 0 7 99) (replicate 40 Byte.x01).

Definition demo_node : NodeStorage :=
  {| data_file := disk_file DEFAULT_PAGE_SIZE;
     journal := {| file := Some (frames [WriteVersioned demo_record]);
                   entries := [WriteVersioned demo_record]; sequence := 0 |};
     heap_file := heap_open [] |}.

Lemma demo_record_ok : rec_ok demo_record.
Proof.
  split; [split|].
  - split_and!; try (by vm_compute). by apply Forall_true.
  - eexists. split; [vm_compute; reflexivity|]. by vm_compute.
  - split; [by vm_compute|]. right. by vm_compute.
Qed.

Lemma demo_recoverable : recoverable demo_node 0 1 (fun _ => []).
Proof.
  pose proof demo_record_ok as Hd.
  destruct (disk_file_ok DEFAULT_PAGE_SIZE) as (_ & _ & _ & _ & _ & H1 & H2 & H3 & _ & _ & _ & H4 & _); [done|].
  constructor; try done.
  - split; [|by intros ? [= <-]]. apply Forall_singleton. split_and!; [|by vm_compute..].
    apply Hd.
  - apply Forall_singleton. exact Hd.
  - apply disk_file_ready; cbn [length records entries journal demo_node]; [by vm_compute|done|vm_compute; lia].
  - intros k t _. exists 0. apply empty_tracks; [done|]. intros. by apply disk_file_empty.
Qed.

Lemma recover_from_journal_ok_witness :
  exists st' A' bytes, recover_from_journal demo_node = (Done tt, st') /\
    journal st' = emptied (journal demo_node) /\ heap_file st' = heap_file demo_node /\
    file_ready 0 (data_file st') /\ snapshot (data_file st') = Some bytes /\
    listed (data_file st') A' /\
    (forall key x, x ∈ A' key <-> x ∈ [] \/
       exists r, r ∈ [demo_record] /\ record_key r = key /\ vr_id r = x) /\
    forall id r, latest id [demo_record] = Some r ->
      read_versioned id (data_file st') = (Done (Some r), data_file st') /\
      exists d2, open_on_disk (df_page_size (data_file demo_node)) (Some bytes) = Done d2 /\
        read_versioned id d2 = (Done (Some r), d2).
Proof. exact (recover_from_journal_ok demo_node 0 1 (fun _ => []) demo_recoverable). Defined.
