(* ===== verification/Backpressure.v ===== *)
(** * Write backpressure (wavedb-storage/src/pipeline/backpressure.rs)

    A counter of cached bytes, read and changed by atomic operations without a lock.
    Draining reads the counter and subtracts in two steps: the steps of several
    threads interleave.  Fractions are IEEE doubles, from the Standard Library's
    [SpecFloat]. *)
From Stdlib Require Import SpecFloat.
From S2P Require Import Prelude.

Definition f64_of (n : Z) : spec_float := binary_normalize 53 1024 n 0 false.

Record Backpressure : Type := {
  current_usage : Z;
  max_size : Z;
  warn_threshold : spec_float
}.

(** The literal 0.8. *)
Definition WARN : spec_float := S754_finite false 7205759403792794 (-53).

Definition backpressure_new (max : Z) : Backpressure :=
  {| current_usage := 0; max_size := max; warn_threshold := WARN |}.

Definition set_usage (n : Z) (b : Backpressure) : Backpressure :=
  {| current_usage := n; max_size := max_size b; warn_threshold := warn_threshold b |}.

(** [fetch_add] and [fetch_sub] wrap. *)
Definition record_write (bytes : Z) (b : Backpressure) : Backpressure :=
  set_usage (wrap 64 (current_usage b + bytes)) b.

(** [bytes.min(self.current())], then the subtraction of what that gave. *)
Definition drain_load (bytes : Z) (b : Backpressure) : Z := Z.min bytes (current_usage b).
Definition drain_sub (amount : Z) (b : Backpressure) : Backpressure :=
  set_usage (wrap 64 (current_usage b - amount)) b.

Definition record_drain (bytes : Z) (b : Backpressure) : Backpressure := drain_sub (drain_load bytes b) b.

Definition should_block (b : Backpressure) : bool := max_size b <=? current_usage b.

Definition is_warning (b : Backpressure) : bool :=
  SFleb (SFmul 53 1024 (f64_of (max_size b)) (warn_threshold b)) (f64_of (current_usage b)).

Definition usage_ratio (b : Backpressure) : spec_float :=
  SFdiv 53 1024 (f64_of (current_usage b)) (f64_of (max_size b)).

(** ** Threads *)

(** The counter, and what each drain between its two steps has read. *)
Record Shared : Type := { counter : Backpressure; in_flight : list Z }.

(** A step: a write of so many bytes, the read of a drain of so many, or the
    subtraction of one of the drains in flight. *)
Inductive bp_step : Shared -> Z -> Shared -> Prop :=
  | step_write s n : 0 <= n ->
      bp_step s n {| counter := record_write n (counter s); in_flight := in_flight s |}
  | step_load s n : 0 <= n ->
      bp_step s 0 {| counter := counter s; in_flight := drain_load n (counter s) :: in_flight s |}
  | step_sub s l k l' : in_flight s = l ++ k :: l' ->
      bp_step s (- k) {| counter := drain_sub k (counter s); in_flight := l ++ l' |}.

(** Runs in which no drain starts while another is in flight, with the sum of what was
    written less what was drained. *)
Inductive one_drainer (max : Z) : Z -> Shared -> Prop :=
  | one_start : one_drainer max 0 {| counter := backpressure_new max; in_flight := [] |}
  | one_more used s n s' : one_drainer max used s -> bp_step s n s' -> (length (in_flight s') <= 1)%nat ->
      used + n < 2 ^ 64 -> one_drainer max (used + n) s'.

(** One drain at a time, whatever is written in between, the counter is exact: it
    is what was written less what was drained, never below zero, and writers are
    blocked exactly while that has reached the limit. *)
Theorem one_drainer_exact max used s : one_drainer max used s ->
  current_usage (counter s) = used /\ 0 <= used /\ Forall (fun k => 0 <= k <= used) (in_flight s) /\
  should_block (counter s) = (max <=? used).
Proof.
  intros H. enough (max_size (counter s) = max /\ current_usage (counter s) = used /\ 0 <= used /\
    Forall (fun k => 0 <= k <= used) (in_flight s) /\ (length (in_flight s) <= 1)%nat) as (H1 & H2 & H3 & H4 & _).
  { split_and!; try done. unfold should_block. by rewrite H1, H2. }
  induction H as [|used s n s' _ (Em & Ec & Hu & Hf & Hl0) Hs Hl Hlt]; [by split_and!; cbn; auto|].
  destruct Hs as [s n Hn|s n Hn|s l k l' El]; cbn in *; (split; [done|]).
  - rewrite Ec, wrap_small by (unfold fits; lia). split_and!; try done; [lia|]. eapply Forall_impl; [exact Hf|]. cbn. lia.
  - rewrite Z.add_0_r. split_and!; try done. constructor; [unfold drain_load; rewrite Ec; lia|done].
  - rewrite El in Hf, Hl0. rewrite length_app in Hl0. cbn in Hl0. destruct l; [|cbn in Hl0; lia]. destruct l'; [|cbn in Hl0; lia].
    apply Forall_cons in Hf as [Hk _]. rewrite Ec, wrap_small by (unfold fits; lia). split_and!; cbn; try done; lia.
Qed.

(** A drain that is not interleaved takes off what there is, at most. *)
Lemma record_drain_exact n b : 0 <= n -> fits 64 (current_usage b) ->
  current_usage (record_drain n b) = Z.max 0 (current_usage b - n).
Proof. intros Hn Hf. unfold record_drain, drain_sub, drain_load. cbn. rewrite wrap_small by (unfold fits in *; lia). lia. Qed.

(** Two drains that both read before either subtracts take the counter below zero: it
    wraps, and writers are blocked with nothing cached. *)
Lemma two_drains_block : exists s1 s2 s3 s4 s5,
  let start := {| counter := backpressure_new 1000; in_flight := [] |} in
  bp_step start 10 s1 /\ bp_step s1 0 s2 /\ bp_step s2 0 s3 /\ bp_step s3 (-10) s4 /\ bp_step s4 (-10) s5 /\
  in_flight s5 = [] /\ current_usage (counter s5) = 2 ^ 64 - 10 /\ should_block (counter s5) = true.
Proof.
  eexists _, _, _, _, _. split; [by apply (step_write _ 10)|]. split; [by apply (step_load _ 10)|]. split; [by apply (step_load _ 10)|].
  split; [by apply (step_sub _ [] 10 [10])|]. split; [by apply (step_sub _ [] 10 [])|]. by split_and!; vm_compute.
Qed.

(** The flow of the module's own test. *)
Example basic_flow :
  let b0 := backpressure_new 1000 in
  let b1 := record_write 500 b0 in let b2 := record_write 400 b1 in
  let b3 := record_write 200 b2 in let b4 := record_drain 500 b3 in
  (map should_block [b0; b1; b2; b3; b4], map is_warning [b0; b1; b2]) =
  ([false; false; false; true; false], [false; false; true]).
Proof. by vm_compute. Qed.

Lemma one_drainer_exact_witness : current_usage (record_drain 3 (record_write 10 (backpressure_new 8))) = 7 /\
  should_block (record_drain 3 (record_write 10 (backpressure_new 8))) = (8 <=? 7).
Proof.
  set (c := record_write 10 (backpressure_new 8)).
  assert (one_drainer 8 7 {| counter := drain_sub 3 c; in_flight := [] |}) as H.
  { apply (one_more 8 10 {| counter := c; in_flight := [3] |} (-3)); [|by apply (step_sub {| counter := c; in_flight := [3] |} [] 3 [])|cbn; lia|done].
    apply (one_more 8 10 {| counter := c; in_flight := [] |} 0); [|by apply (step_load {| counter := c; in_flight := [] |} 3)|cbn; lia|done].
    apply (one_more 8 0 {| counter := backpressure_new 8; in_flight := [] |} 10); [constructor|by apply (step_write {| counter := backpressure_new 8; in_flight := [] |} 10)|cbn; lia|done]. }
  destruct (one_drainer_exact 8 7 _ H) as (H1 & _ & _ & H2). by split.
Defined.
