(* ===== verification/BlockAlloc.v ===== *)
(** * The block allocator (wavedb-storage: file/block_alloc.rs)

    The free space of the [data] file as maximal extents, indexed by position and
    by length. *)
From S2P Require Import Prelude Ordered Wire Errors.

Definition DATA_BLOCK_SIZE : Z := 4096.

Record BlockRun : Type := { run_start : Z; run_len : Z }.

#[export] Instance block_run_eq : EqDecision BlockRun.
Proof. solve_decision. Defined.

Definition run_end (r : BlockRun) : StorageResult Z := uadd 64 (run_start r) (run_len r).
Definition byte_offset (r : BlockRun) : StorageResult Z := umul 64 (run_start r) DATA_BLOCK_SIZE.
Definition byte_len (r : BlockRun) : StorageResult Z := umul 64 (run_len r) DATA_BLOCK_SIZE.

(** [u64::div_ceil]. *)
Definition blocks_for_bytes (bytes : Z) : Z :=
  bytes / DATA_BLOCK_SIZE + (if 0 <? bytes mod DATA_BLOCK_SIZE then 1 else 0).

(** Both maps describe the same extents: start to length, and length to the
    starts of the extents that long. *)
Record BlockAllocator : Type := {
  capacity : Z;
  by_start : gmap Z Z;
  by_len : gmap Z (gset Z)
}.

Definition alloc_new : BlockAllocator := {| capacity := 0; by_start := ∅; by_len := ∅ |}.

Definition with_capacity (c : Z) (a : BlockAllocator) : BlockAllocator :=
  {| capacity := c; by_start := by_start a; by_len := by_len a |}.

(** ** Internals *)

Definition tail_free (a : BlockAllocator) : StorageResult (option (Z * Z)) :=
  match last_entry (by_start a) with
  | None => Done None
  | Some (start, len) =>
    let* e := uadd 64 start len in
    Done (if e =? capacity a then Some (start, len) else None)
  end.

Definition insert_free (start len : Z) (a : BlockAllocator) : StorageResult BlockAllocator :=
  do* guard (0 <? len) in
  do* guard (match by_start a !! start with None => true | Some _ => false end) in
  Done {| capacity := capacity a; by_start := <[start := len]> (by_start a);
          by_len := <[len := {[start]} ∪ default ∅ (by_len a !! len)]> (by_len a) |}.

Definition remove_free (start len : Z) (a : BlockAllocator) : BlockAllocator :=
  {| capacity := capacity a; by_start := delete start (by_start a);
     by_len := match by_len a !! len with
               | None => by_len a
               | Some starts =>
                 let starts := starts ∖ {[start]} in
                 if decide (starts = ∅) then delete len (by_len a)
                 else <[len := starts]> (by_len a)
               end |}.

(** ** Queries *)

Definition free_blocks (a : BlockAllocator) : StorageResult Z :=
  ofold (fun n e => uadd 64 n e.2) 0 (by_key (by_start a)).

Definition used_blocks (a : BlockAllocator) : StorageResult Z :=
  let* n := free_blocks a in usub (capacity a) n.

Definition free_extent_count (a : BlockAllocator) : Z := Z.of_nat (size (by_start a)).

Definition free_runs (a : BlockAllocator) : list BlockRun :=
  map (fun e => {| run_start := e.1; run_len := e.2 |}) (by_key (by_start a)).

(** ** Allocation *)

Definition allocate (blocks : Z) (a : BlockAllocator) : StorageResult (BlockAllocator * BlockRun) :=
  do* guard (0 <? blocks) in
  match range_from blocks (by_len a) with
  | Some (len, starts) =>
    let* start := expect (set_first starts) in
    let a := remove_free start len a in
    let* a := (if blocks <? len
               then let* s := uadd 64 start blocks in insert_free s (len - blocks) a
               else Done a) in
    Done (a, {| run_start := start; run_len := blocks |})
  | None =>
    let* tail := tail_free a in
    match tail with
    | Some (start, len) =>
      let a := remove_free start len a in
      let* c := uadd 64 start blocks in
      Done (with_capacity c a, {| run_start := start; run_len := blocks |})
    | None =>
      let start := capacity a in
      let* c := uadd 64 start blocks in
      Done (with_capacity c a, {| run_start := start; run_len := blocks |})
    end
  end.

(** ** Deallocation *)

(** The extent that ends where the run begins, absorbed. *)
Definition join_left (start blocks : Z) (a : BlockAllocator) : StorageResult (BlockAllocator * Z * Z) :=
  match range_below start (by_start a) with
  | None => Done (a, start, blocks)
  | Some (ls, ll) =>
    let* le := uadd 64 ls ll in
    do* guard (le <=? start) in
    if le =? start
    then let* n := uadd 64 blocks ll in Done (remove_free ls ll a, ls, n)
    else Done (a, start, blocks)
  end.

(** The extent that starts where the run ends, absorbed. *)
Definition join_right (e run_len : Z) (a : BlockAllocator) : StorageResult (BlockAllocator * Z) :=
  match by_start a !! e with
  | None => Done (a, run_len)
  | Some rl => let* n := uadd 64 run_len rl in Done (remove_free e rl a, n)
  end.

Definition free (start blocks : Z) (a : BlockAllocator) : StorageResult BlockAllocator :=
  if blocks =? 0 then Done a
  else
    let* e := uadd 64 start blocks in
    do* guard (e <=? capacity a) in
    do* guard (match range_from start (by_start a) with
               | None => true
               | Some (s, _) => e <=? s
               end) in
    let* (a, run_start, run_len) := join_left start blocks a in
    let* (a, run_len) := join_right e run_len a in
    insert_free run_start run_len a.

(** Trailing free blocks given back to the file system. *)
Definition truncate (a : BlockAllocator) : StorageResult (BlockAllocator * Z) :=
  let* tail := tail_free a in
  match tail with
  | Some (start, len) => Done (with_capacity start (remove_free start len a), len)
  | None => Done (a, 0)
  end.

(** The blocks from [a] up to [b], if any, become a free extent. *)
Definition insert_between (lo hi : Z) (a : BlockAllocator) : StorageResult BlockAllocator :=
  if lo <? hi then insert_free lo (hi - lo) a else Done a.

(** The newly spanned tail starts free. *)
Definition grow_to (e : Z) (a : BlockAllocator) : StorageResult BlockAllocator :=
  if capacity a <? e then let old := capacity a in free old (e - old) (with_capacity e a) else Done a.

Definition reserve (r : BlockRun) (a : BlockAllocator) : StorageResult BlockAllocator :=
  if run_len r =? 0 then Done a
  else
    let* e := run_end r in
    let* a := grow_to e a in
    let* (es, el) := expect (range_upto (run_start r) (by_start a)) in
    let* ee := uadd 64 es el in
    do* guard ((es <=? run_start r) && (e <=? ee)) in
    let a := remove_free es el a in
    let* a := insert_between es (run_start r) a in
    insert_between e ee a.

(** ** Rebuilding *)

Definition from_state (c : Z) (runs : list BlockRun) : StorageResult BlockAllocator :=
  ofold (fun a r => free (run_start r) (run_len r) a) (with_capacity c alloc_new) runs.

(** The derived order of [BlockRun]. *)
Definition run_le (r s : BlockRun) : bool :=
  pair_le (run_start r, run_len r) (run_start s, run_len s).

Definition carve (c : Z) (st : BlockAllocator * Z) (r : BlockRun) : StorageResult (BlockAllocator * Z) :=
  let '(a, cursor) := st in
  do* guard (cursor <=? run_start r) in
  let* e := run_end r in
  do* guard (e <=? c) in
  let* a := insert_between cursor (run_start r) a in
  Done (a, e).

Definition from_used_runs (c : Z) (used : list BlockRun) : StorageResult BlockAllocator :=
  let runs := sort_by run_le (filter (fun r => 0 < run_len r) used) in
  let* (a, cursor) := ofold (carve c) (with_capacity c alloc_new, 0) runs in
  insert_between cursor c a.
