(* ===== verification/BlockAllocOk.v ===== *)
(** * Correctness of the block allocator: its free space as a set of blocks *)
From S2P Require Import Prelude Ordered Wire Errors BlockAlloc.

(** ** The invariant *)

(** The two indexes hold the same extents. *)
Record index_ok (a : BlockAllocator) : Prop := {
  ix_same : forall s l, by_start a !! s = Some l <-> exists starts, by_len a !! l = Some starts /\ s ∈ starts;
  ix_nonempty : forall l starts, by_len a !! l = Some starts -> starts <> ∅
}.

(** The extents are within the capacity and no two touch. *)
Record extents_ok (c : Z) (m : gmap Z Z) : Prop := {
  ex_range : forall s l, m !! s = Some l -> 0 <= s /\ 0 < l /\ s + l <= c;
  ex_apart : forall s l s' l', m !! s = Some l -> m !! s' = Some l' -> s < s' -> s + l < s'
}.

Record alloc_ok (a : BlockAllocator) : Prop := {
  ak_capacity : fits 64 (capacity a);
  ak_index : index_ok a;
  ak_extents : extents_ok (capacity a) (by_start a)
}.

(** Block [b] lies in a free extent, and in a run. *)
Definition in_extents (m : gmap Z Z) (b : Z) : Prop := exists s l, m !! s = Some l /\ s <= b < s + l.
Definition is_free (a : BlockAllocator) (b : Z) : Prop := in_extents (by_start a) b.
Definition in_run (r : BlockRun) (b : Z) : Prop := run_start r <= b < run_start r + run_len r.

(** ** Extents *)

Lemma extents_delete c m s : extents_ok c m -> extents_ok c (delete s m).
Proof.
  intros [Hr Ha]. constructor.
  - intros ? ? [_ H]%lookup_delete_Some. eauto.
  - intros ? ? ? ? [_ H]%lookup_delete_Some [_ H']%lookup_delete_Some. eauto.
Qed.

Lemma extents_insert c m s l :
  extents_ok c m -> 0 <= s -> 0 < l -> s + l <= c ->
  (forall s' l', m !! s' = Some l' -> s' <> s -> s' + l' < s \/ s + l < s') ->
  extents_ok c (<[s := l]> m).
Proof.
  intros [Hr Ha] H0 H1 H2 Hd. constructor.
  - intros ? ? [[<- <-]|[_ H]]%lookup_insert_Some; eauto.
  - intros s1 l1 s2 l2 [[<- <-]|[N1 H]]%lookup_insert_Some [[<- <-]|[N2 H']]%lookup_insert_Some Hlt.
    + lia.
    + specialize (Hd _ _ H'). pose proof (Hr _ _ H'). lia.
    + specialize (Hd _ _ H). pose proof (Hr _ _ H). lia.
    + eauto.
Qed.

Lemma extents_mono c c' m : c <= c' -> extents_ok c m -> extents_ok c' m.
Proof. intros Hc [Hr Ha]. constructor; [|done]. intros s l H. specialize (Hr s l H). lia. Qed.

(** A block is in one extent. *)
Lemma extent_unique c m s l s' l' b :
  extents_ok c m -> m !! s = Some l -> m !! s' = Some l' -> s <= b < s + l -> s' <= b < s' + l' -> s = s'.
Proof.
  intros [Hr Ha] H H' Hb Hb'. destruct (Z.lt_trichotomy s s') as [Hl|[->|Hl]]; [|done|].
  - specialize (Ha _ _ _ _ H H' Hl). lia.
  - specialize (Ha _ _ _ _ H' H Hl). lia.
Qed.

Lemma in_extents_delete c m s l b :
  extents_ok c m -> m !! s = Some l ->
  in_extents (delete s m) b <-> in_extents m b /\ ~ s <= b < s + l.
Proof.
  intros H Hs. split.
  - intros (s' & l' & [Hne Hs']%lookup_delete_Some & Hb). split; [by exists s', l'|].
    intros Hb'. by pose proof (extent_unique _ _ _ _ _ _ _ H Hs Hs' Hb' Hb).
  - intros [(s' & l' & Hs' & Hb) Hn]. exists s', l'. split; [|done].
    apply lookup_delete_Some. split; [|done]. intros <-. rewrite Hs in Hs'. by injection Hs' as <-.
Qed.

Lemma in_extents_insert m s l b :
  m !! s = None -> in_extents (<[s := l]> m) b <-> s <= b < s + l \/ in_extents m b.
Proof.
  intros Hs. split.
  - intros (s' & l' & [[<- <-]|[_ Hs']]%lookup_insert_Some & Hb); [by left|]. right. by exists s', l'.
  - intros [Hb|(s' & l' & Hs' & Hb)]; [exists s, l; by simplify_map_eq|].
    exists s', l'. split; [|done]. rewrite lookup_insert_ne; [done|]. intros <-. congruence.
Qed.

Lemma not_free_none m s l : extents_ok l m -> ~ in_extents m s -> m !! s = None.
Proof.
  intros H Hn. destruct (m !! s) as [k|] eqn:E; [|done]. destruct Hn. exists s, k.
  pose proof (ex_range _ _ H _ _ E). split; [done|lia].
Qed.

(** ** The two primitives *)

Lemma insert_free_spec s l a :
  index_ok a -> 0 < l -> by_start a !! s = None ->
  exists a', insert_free s l a = Done a' /\ index_ok a' /\ capacity a' = capacity a /\
    by_start a' = <[s := l]> (by_start a).
Proof.
  intros [Hs Hn] Hl Hnone. unfold insert_free. rewrite Hnone. replace (0 <? l) with true by lia.
  eexists. split; [done|]. split; [|done]. constructor; cbn [by_start by_len].
  - intros s' l'. destruct (decide (l' = l)) as [->|Hne].
    + rewrite lookup_insert_eq. destruct (decide (s' = s)) as [->|Hne'].
      * rewrite lookup_insert_eq. split; [|done]. intros _. eexists. split; [done|]. set_solver.
      * rewrite lookup_insert_ne by done. rewrite Hs. split.
        -- intros (st & E & Hin). eexists. split; [done|]. rewrite E. set_solver.
        -- intros (st & [= <-] & Hin). destruct (by_len a !! l) as [st|] eqn:E; simpl in Hin; [|set_solver].
           exists st. split; [done|set_solver].
    + rewrite (lookup_insert_ne (by_len a)) by done. rewrite <- Hs.
      destruct (decide (s' = s)) as [->|Hne']; [|by rewrite lookup_insert_ne].
      rewrite lookup_insert_eq, Hnone. split; congruence.
  - intros l' st [[<- <-]|[_ H]]%lookup_insert_Some; [set_solver|eauto].
Qed.

Lemma remove_free_spec s l a :
  index_ok a -> by_start a !! s = Some l ->
  index_ok (remove_free s l a) /\ capacity (remove_free s l a) = capacity a /\
  by_start (remove_free s l a) = delete s (by_start a).
Proof.
  intros [Hs Hn] Hl. split; [|done]. destruct (proj1 (Hs s l) Hl) as (st & Est & Hst).
  assert (forall s' l', (exists starts, by_len (remove_free s l a) !! l' = Some starts /\ s' ∈ starts) <->
    s' <> s /\ exists starts, by_len a !! l' = Some starts /\ s' ∈ starts) as Hlen.
  { intros s' l'. unfold remove_free. cbn [by_len]. rewrite Est.
    destruct (decide (l' = l)) as [->|Hne].
    - rewrite Est. case_decide as Hd.
      + rewrite lookup_delete_eq. split; [by intros (? & ? & _)|].
        intros (Hne & ? & [= <-] & Hin). set_solver.
      + rewrite lookup_insert_eq. split.
        * intros (? & [= <-] & Hin). split; [set_solver|]. exists st. split; [done|set_solver].
        * intros (Hne & ? & [= <-] & Hin). eexists. split; [done|set_solver].
    - assert (forall starts, by_len a !! l' = Some starts -> s' ∈ starts -> s' <> s) as Hss.
      { intros starts E Hin ->. assert (by_start a !! s = Some l') by (apply Hs; eauto). congruence. }
      case_decide; rewrite ?lookup_delete_ne, ?lookup_insert_ne by done; split; [| naive_solver..|naive_solver];
        intros (? & ? & ?); eauto. }
  constructor.
  - intros s' l'. rewrite Hlen. cbn [remove_free by_start]. rewrite lookup_delete_Some, Hs.
    split; intros [H1 H2]; auto.
  - intros l' starts. unfold remove_free. cbn [by_len]. rewrite Est. case_decide.
    + intros [_ H']%lookup_delete_Some. eauto.
    + intros [[<- <-]|[_ H']]%lookup_insert_Some; eauto.
Qed.

(** Giving an extent that touches no other, and taking one. *)
Lemma give_spec s l a :
  alloc_ok a -> 0 <= s -> 0 < l -> s + l <= capacity a ->
  (forall s' l', by_start a !! s' = Some l' -> s' + l' < s \/ s + l < s') ->
  exists a', insert_free s l a = Done a' /\ alloc_ok a' /\ capacity a' = capacity a /\
    by_start a' = <[s := l]> (by_start a).
Proof.
  intros [Hc Hi He] H0 Hl Hb Hd.
  assert (by_start a !! s = None) as Hn.
  { destruct (by_start a !! s) as [k|] eqn:E; [|done]. specialize (Hd _ _ E).
    pose proof (ex_range _ _ He _ _ E). lia. }
  destruct (insert_free_spec s l a Hi Hl Hn) as (a' & E & Hi' & Hc' & Hs').
  exists a'. split; [done|]. split; [|done]. constructor; rewrite ?Hc'; [done|done|].
  rewrite Hs'. apply extents_insert; [done..|]. intros s' l' H _. by apply Hd.
Qed.

Lemma take_spec s l a :
  alloc_ok a -> by_start a !! s = Some l ->
  alloc_ok (remove_free s l a) /\ by_start (remove_free s l a) = delete s (by_start a).
Proof.
  intros [Hc Hi He] Hs. destruct (remove_free_spec s l a Hi Hs) as (Hi' & Hc' & Hs').
  split; [|done]. constructor; [done|done|]. rewrite Hc', Hs'. by apply extents_delete.
Qed.

Lemma take_free s l a b :
  alloc_ok a -> by_start a !! s = Some l ->
  is_free (remove_free s l a) b <-> is_free a b /\ ~ s <= b < s + l.
Proof.
  intros H Hs. unfold is_free. rewrite (proj2 (take_spec s l a H Hs)).
  eapply in_extents_delete; [apply H|done].
Qed.

Lemma give_free s l a a' b :
  by_start a' = <[s := l]> (by_start a) -> by_start a !! s = None ->
  is_free a' b <-> s <= b < s + l \/ is_free a b.
Proof. intros E Hn. unfold is_free. rewrite E. by apply in_extents_insert. Qed.

Lemma tail_free_spec a :
  alloc_ok a ->
  exists r, tail_free a = Done r /\
  match r with
  | Some (s, l) => by_start a !! s = Some l /\ s + l = capacity a
  | None => forall s l, by_start a !! s = Some l -> s + l < capacity a
  end.
Proof.
  intros [Hc _ He]. unfold tail_free. pose proof (last_entry_spec (by_start a)) as H.
  destruct (last_entry _) as [[s l]|]; simpl in H.
  - destruct H as (Hs & _ & Hmax). pose proof (ex_range _ _ He _ _ Hs).
    rewrite uadd_done by (unfold fits in *; lia). cbn [obind]. eexists. split; [done|].
    destruct (Z.eqb_spec (s + l) (capacity a)) as [E|Hne]; [done|].
    intros s' l' Hs'. destruct (decide (s' = s)) as [->|Hd]; [rewrite Hs in Hs'; injection Hs' as <-; lia|].
    specialize (Hmax _ _ Hs' eq_refl). pose proof (ex_apart _ _ He _ _ _ _ Hs' Hs ltac:(lia)). lia.
  - exists None. split; [done|]. intros s l Hs. by specialize (H s l Hs).
Qed.

(** ** Allocation *)

(** What an allocation does to the free blocks. *)
Record allocated (a : BlockAllocator) (n : Z) (a' : BlockAllocator) (r : BlockRun) : Prop := {
  al_ok : alloc_ok a';
  al_len : run_len r = n;
  al_start : 0 <= run_start r;
  al_end : run_start r + n <= capacity a';
  al_capacity : capacity a <= capacity a' <= capacity a + n;
  al_fresh : forall b, in_run r b -> is_free a b \/ capacity a <= b;
  al_free : forall b, is_free a' b <-> is_free a b /\ ~ in_run r b;
  al_grown : capacity a < capacity a' -> run_start r <= capacity a /\ run_start r + n = capacity a';
  (** the file grows only when no free extent is long enough *)
  al_reuse : (exists s l, by_start a !! s = Some l /\ n <= l) -> capacity a' = capacity a
}.

(** The best fit, its rest given back. *)
Lemma allocate_fit a n len s :
  alloc_ok a -> 0 < n -> n <= len -> by_start a !! s = Some len ->
  exists a', (if n <? len then let* e := uadd 64 s n in insert_free e (len - n) (remove_free s len a)
              else Done (remove_free s len a)) = Done a' /\
    allocated a n a' {| run_start := s; run_len := n |}.
Proof.
  intros H Hn Hle Hs. pose proof H as [Hc Hi He]. pose proof (ex_range _ _ He _ _ Hs) as (H0 & _ & Hb).
  destruct (take_spec s len a H Hs) as [Ht Et].
  assert (forall b, in_run {| run_start := s; run_len := n |} b -> is_free a b \/ capacity a <= b) as Hfresh.
  { intros b Hb'. left. exists s, len. unfold in_run in Hb'. simpl in Hb'. split; [done|lia]. }
  destruct (Z.ltb_spec n len) as [Hlt|Hge].
  - rewrite uadd_done by (unfold fits in *; lia). cbn [obind].
    assert (forall s' l', delete s (by_start a) !! s' = Some l' -> s' + l' < s + n \/ s + n + (len - n) < s') as Hap.
    { intros s' l' [Hne Hs']%lookup_delete_Some. destruct (Z.lt_trichotomy s s') as [Hl|[Heq|Hl]]; [|congruence|].
      - right. pose proof (ex_apart _ _ He _ _ _ _ Hs Hs' Hl). lia.
      - left. pose proof (ex_apart _ _ He _ _ _ _ Hs' Hs Hl). lia. }
    destruct (give_spec (s + n) (len - n) _ Ht) as (a' & E & Ha' & Ec & Es); [lia|lia|simpl; lia|by rewrite Et|].
    exists a'. split; [done|]. simpl in Ec. constructor; cbn [run_start run_len]; rewrite ?Ec; try done; try (intros; lia).
    intros b. rewrite (give_free _ _ _ _ _ Es), (take_free s len a b H Hs).
    + unfold in_run. simpl. split.
      * intros [Hb'|[Hf Hnb]]; [split; [exists s, len; split; [done|lia]|lia]|split; [done|lia]].
      * intros [Hf Hnb]. destruct (decide (s + n <= b < s + n + (len - n))); [by left|right; split; [done|lia]].
    + rewrite Et. destruct (delete s _ !! (s + n)) as [k|] eqn:Ek; [|done]. specialize (Hap _ _ Ek).
      apply lookup_delete_Some in Ek as [_ Ek]. pose proof (ex_range _ _ He _ _ Ek). lia.
  - assert (len = n) as -> by lia. eexists. split; [done|].
    constructor; cbn [run_start run_len]; simpl; try done; try (intros; lia).
    intros b. by rewrite (take_free s n a b H Hs).
Qed.

(** Growth, over the trailing free extent or from the end. *)
Lemma allocate_grow a n s a0 :
  alloc_ok a -> 0 < n -> capacity a + n < 2 ^ 64 -> 0 <= s <= capacity a -> capacity a < s + n ->
  alloc_ok a0 -> capacity a0 = capacity a ->
  (forall b, is_free a0 b <-> is_free a b /\ b < s) -> (forall b, s <= b < capacity a -> is_free a b) ->
  (forall k l, by_start a !! k = Some l -> l < n) ->
  allocated a n (with_capacity (s + n) a0) {| run_start := s; run_len := n |}.
Proof.
  intros H Hn Hcap Hs Hg [Hc0 Hi0 He0] Ec Hfree Htail Hsmall.
  assert (forall b, is_free a b -> b < capacity a) as Hin.
  { intros b (k & l & Hk & Hb). pose proof (ex_range _ _ (ak_extents _ H) _ _ Hk). lia. }
  constructor; cbn [run_start run_len with_capacity capacity]; try lia.
  - constructor; [unfold fits in *; simpl; lia|destruct Hi0; by constructor|].
    eapply extents_mono; [|exact He0]. simpl. lia.
  - unfold in_run. simpl. intros b Hb. destruct (decide (b < capacity a)); [left; apply Htail|right]; lia.
  - intros b. change (is_free (with_capacity (s + n) a0) b) with (is_free a0 b). rewrite Hfree.
    unfold in_run. simpl. split; intros [Hf Hb]; (split; [done|]); [lia|]. specialize (Hin _ Hf). lia.
  - intros (k & l & Hk & Hl). specialize (Hsmall _ _ Hk). lia.
Qed.

Lemma allocate_spec a n :
  alloc_ok a -> 0 < n -> capacity a + n < 2 ^ 64 ->
  exists a' r, allocate n a = Done (a', r) /\ allocated a n a' r.
Proof.
  intros H Hn Hcap. pose proof H as [Hc Hi He]. unfold allocate. replace (0 <? n) with true by lia.
  cbn [guard obind]. pose proof (range_from_spec n (by_len a)) as Hr.
  destruct (range_from n (by_len a)) as [[len starts]|]; simpl in Hr.
  - destruct Hr as (Hlen & Hge & _). pose proof (set_first_spec starts) as Hf.
    destruct (set_first starts) as [s|]; [|by destruct (ix_nonempty _ Hi _ _ Hlen)].
    cbn [expect obind]. assert (by_start a !! s = Some len) as Hs by (apply Hi; exists starts; by split; [|apply Hf]).
    destruct (allocate_fit a n len s H Hn ltac:(lia) Hs) as (a' & -> & Ha'). by eexists _, _.
  - assert (forall s l, by_start a !! s = Some l -> l < n) as Hsmall.
    { intros s l (st & E & _)%Hi. specialize (Hr _ _ E). lia. }
    destruct (tail_free_spec a H) as (r & -> & Hr'). cbn [obind]. destruct r as [[s l]|].
    + destruct Hr' as [Hs Heq]. pose proof (ex_range _ _ He _ _ Hs) as (H0 & Hl & Hb).
      pose proof (Hsmall _ _ Hs). rewrite uadd_done by (unfold fits in *; lia). cbn [obind].
      eexists _, _. split; [done|]. apply allocate_grow; try done; [lia|lia|by apply take_spec| |].
      * intros b. rewrite (take_free s l a b H Hs). split; intros [Hf Hb']; (split; [done|]); [|lia].
        destruct Hf as (s' & l' & Hs' & Hb''). pose proof (ex_range _ _ He _ _ Hs'). lia.
      * intros b Hb'. exists s, l. split; [done|lia].
    + rewrite uadd_done by (unfold fits in *; lia). cbn [obind].
      eexists _, _. split; [done|]. apply allocate_grow; try done; [unfold fits in *; lia|lia| |lia].
      intros b. split; [|by intros [? _]]. intros Hf. split; [done|].
      destruct Hf as (s' & l' & Hs' & Hb''). pose proof (ex_range _ _ He _ _ Hs'). lia.
Qed.

(** ** Deallocation *)

(** Absorbing the neighbour on the left, then the one on the right. *)
Lemma join_left_spec start blocks a :
  alloc_ok a -> 0 <= start -> 0 < blocks -> start + blocks <= capacity a ->
  (forall b, start <= b < start + blocks -> ~ is_free a b) ->
  exists a' s n,
    join_left start blocks a = Done (a', s, n) /\
    alloc_ok a' /\ capacity a' = capacity a /\ 0 <= s /\ 0 < n /\ s + n = start + blocks /\
    (forall b, is_free a b \/ start <= b < start + blocks <-> is_free a' b \/ s <= b < s + n) /\
    (forall s' l', by_start a' !! s' = Some l' -> s' + l' < s \/ s + n <= s') .
Proof.
  intros H H0 Hn Hc Hused. pose proof H as [Hcap Hi He]. unfold join_left.
  pose proof (range_below_spec start (by_start a)) as Hl.
  assert (forall s l, by_start a !! s = Some l -> s < start -> s + l <= start) as Hleft.
  { intros s l Hs Hlt. destruct (Z.le_gt_cases (s + l) start); [done|]. destruct (Hused start); [lia|].
    exists s, l. pose proof (ex_range _ _ He _ _ Hs). split; [done|lia]. }
  assert (forall s l, by_start a !! s = Some l -> start <= s -> start + blocks <= s) as Hright.
  { intros s l Hs Hge. destruct (Z.le_gt_cases (start + blocks) s); [done|]. destruct (Hused s); [lia|].
    exists s, l. pose proof (ex_range _ _ He _ _ Hs). split; [done|lia]. }
  destruct (range_below start (by_start a)) as [[ls ll]|]; simpl in Hl.
  - destruct Hl as (Hls & Hlt & Hmax). pose proof (ex_range _ _ He _ _ Hls) as (Hl0 & Hl1 & Hl2).
    pose proof (Hleft _ _ Hls ltac:(lia)). rewrite uadd_done by (unfold fits in *; lia). cbn [obind].
    replace (ls + ll <=? start) with true by lia. cbn [guard obind].
    destruct (Z.eqb_spec (ls + ll) start) as [E|E].
    + rewrite uadd_done by (unfold fits in *; lia). cbn [obind].
      destruct (take_spec ls ll a H Hls) as [Ht Et]. eexists _, _, _. split; [done|].
      split; [done|]. split; [done|]. split; [lia|]. split; [lia|]. split; [lia|]. split.
      * intros b. rewrite (take_free ls ll a b H Hls). split.
        -- intros [Hf|Hb]; [|right; lia]. destruct (decide (ls <= b < ls + ll)); [right; lia|by left].
        -- intros [[Hf _]|Hb]; [by left|]. destruct (decide (ls <= b < ls + ll)); [left; by exists ls, ll|right; lia].
      * rewrite Et. intros s' l' [Hne Hs']%lookup_delete_Some.
        destruct (Z.lt_ge_cases s' start) as [Hlt'|Hge]; [|right; specialize (Hright _ _ Hs' Hge); lia].
        left. specialize (Hmax _ _ Hs' ltac:(lia)). apply (ex_apart _ _ He _ _ _ _ Hs' Hls). lia.
    + eexists _, _, _. split; [done|]. split_and!; try done; [lia..|]. intros s' l' Hs'.
      destruct (Z.lt_ge_cases s' start) as [Hlt'|Hge]; [|right; by eapply Hright].
      left. destruct (decide (s' = ls)) as [->|Hne]; [rewrite Hls in Hs'; injection Hs' as <-; lia|].
      specialize (Hmax _ _ Hs' ltac:(lia)). pose proof (ex_apart _ _ He _ _ _ _ Hs' Hls ltac:(lia)). lia.
  - eexists _, _, _. split; [done|]. split_and!; try done; [lia..|]. intros s' l' Hs'.
    destruct (Z.lt_ge_cases s' start) as [Hlt'|Hge]; [|right; by eapply Hright].
    specialize (Hl _ _ Hs'). lia.
Qed.

(** What freeing a run does. *)
Record freed (a : BlockAllocator) (r : BlockRun) (a' : BlockAllocator) : Prop := {
  fr_ok : alloc_ok a';
  fr_capacity : capacity a' = capacity a;
  fr_free : forall b, is_free a' b <-> is_free a b \/ in_run r b
}.

Lemma free_spec a r :
  alloc_ok a -> 0 <= run_start r -> 0 <= run_len r -> run_start r + run_len r <= capacity a ->
  (forall b, in_run r b -> ~ is_free a b) ->
  exists a', free (run_start r) (run_len r) a = Done a' /\ freed a r a'.
Proof.
  destruct r as [start blocks]. unfold in_run. simpl. intros H H0 Hn Hc Hused. unfold free.
  destruct (Z.eqb_spec blocks 0) as [->|Hne].
  { exists a. split; [done|]. constructor; [done|done|]. unfold in_run. simpl. intros b.
    split; [by left|]. intros [?|?]; [done|lia]. }
  pose proof H as [Hcap Hi He]. rewrite uadd_done by (unfold fits in *; lia). cbn [obind].
  replace (start + blocks <=? capacity a) with true by lia. cbn [guard obind].
  assert (guard (E := StorageError) (match range_from start (by_start a) with
    | Some (s, _) => start + blocks <=? s | None => true end) = Done tt) as ->.
  { pose proof (range_from_spec start (by_start a)) as Hr.
    destruct (range_from start (by_start a)) as [[s l]|]; [|done]. simpl in Hr. destruct Hr as (Hs & Hge & _).
    replace (start + blocks <=? s) with true; [done|]. destruct (Z.leb_spec (start + blocks) s); [done|].
    destruct (Hused s); [lia|]. exists s, l. pose proof (ex_range _ _ He _ _ Hs). split; [done|lia]. }
  cbn [obind]. destruct (join_left_spec start blocks a H H0 ltac:(lia) Hc Hused)
    as (a1 & s & n & -> & H1 & Hc1 & Hs0 & Hn0 & Hsn & Hfree & Hap). cbn [obind].
  unfold join_right.
  destruct (by_start a1 !! (start + blocks)) as [rl|] eqn:Er.
  - pose proof (ex_range _ _ (ak_extents _ H1) _ _ Er) as (Hr0 & Hr1 & Hr2).
    rewrite uadd_done by (unfold fits in *; lia). cbn [obind].
    destruct (take_spec _ _ a1 H1 Er) as [Ht Et].
    assert (forall s' l', by_start (remove_free (start + blocks) rl a1) !! s' = Some l' ->
              s' + l' < s \/ s + (n + rl) < s') as Hap'.
    { rewrite Et. intros s' l' [Hne' Hs']%lookup_delete_Some. destruct (Hap _ _ Hs') as [?|Hge]; [by left|].
      right. pose proof (ex_apart _ _ (ak_extents _ H1) _ _ _ _ Er Hs' ltac:(lia)). lia. }
    destruct (give_spec s (n + rl) _ Ht) as (a' & E & Ha' & Ec & Es); [lia|lia|simpl; lia|done|].
    exists a'. split; [done|]. constructor; [done|simpl in Ec; congruence|]. intros b.
    rewrite (give_free _ _ _ _ _ Es), (take_free _ _ _ _ H1 Er).
    + rewrite Hfree. unfold in_run. simpl. split.
      * intros [Hb|[? _]]; [|by left]. destruct (decide (start + blocks <= b)); [|right; lia].
        left. exists (start + blocks), rl. split; [done|lia].
      * intros [Hf|Hb]; [|left; lia]. destruct (decide (start + blocks <= b < start + blocks + rl)); [left; lia|by right].
    + destruct (by_start (remove_free _ _ _) !! s) as [k|] eqn:Ek; [|done]. specialize (Hap' _ _ Ek).
      pose proof (ex_range _ _ (ak_extents _ Ht) _ _ Ek). lia.
  - cbn [obind]. assert (forall s' l', by_start a1 !! s' = Some l' -> s' + l' < s \/ s + n < s') as Hap'.
    { intros s' l' Hs'. destruct (Hap _ _ Hs') as [?|Hge]; [by left|right].
      assert (s' <> start + blocks) by (intros ->; congruence). lia. }
    destruct (give_spec s n a1 H1) as (a' & E & Ha' & Ec & Es); [lia|lia|lia|done|].
    exists a'. split; [done|]. constructor; [done|congruence|]. intros b.
    rewrite (give_free _ _ _ _ _ Es), Hfree; [tauto|].
    destruct (by_start a1 !! s) as [k|] eqn:Ek; [|done]. specialize (Hap' _ _ Ek).
    pose proof (ex_range _ _ (ak_extents _ H1) _ _ Ek). lia.
Qed.

(** ** Truncation *)

Lemma truncate_spec a :
  alloc_ok a ->
  exists a' k, truncate a = Done (a', k) /\ alloc_ok a' /\ capacity a' = capacity a - k /\ 0 <= k /\
    (forall b, is_free a' b <-> is_free a b /\ b < capacity a') /\
    (forall b, capacity a' <= b < capacity a -> is_free a b) /\ ~ is_free a' (capacity a' - 1).
Proof.
  intros H. pose proof H as [Hc Hi He]. unfold truncate.
  destruct (tail_free_spec a H) as (r & -> & Hr). cbn [obind]. destruct r as [[s l]|].
  - destruct Hr as [Hs Heq]. pose proof (ex_range _ _ He _ _ Hs) as (H0 & Hl & Hb).
    destruct (take_spec s l a H Hs) as [Ht Et].
    assert (forall s' l', delete s (by_start a) !! s' = Some l' -> s' + l' < s) as Hbelow.
    { intros s' l' [Hne Hs']%lookup_delete_Some. pose proof (ex_range _ _ He _ _ Hs').
      destruct (Z.lt_trichotomy s s') as [Hlt|[?|Hlt]]; [|done|by apply (ex_apart _ _ He _ _ _ _ Hs' Hs)].
      pose proof (ex_apart _ _ He _ _ _ _ Hs Hs' Hlt). lia. }
    eexists _, _. split; [done|]. cbn [with_capacity capacity]. split; [|split; [lia|split; [lia|split; [|split]]]].
    + constructor; [unfold fits in *; simpl; lia|destruct Ht as [_ [? ?] _]; by constructor|].
      change (by_start _) with (by_start (remove_free s l a)). rewrite Et. constructor; simpl.
      * intros s' l' Hs'. specialize (Hbelow _ _ Hs'). apply lookup_delete_Some in Hs' as [_ Hs'].
        pose proof (ex_range _ _ He _ _ Hs'). lia.
      * apply (extents_delete _ _ s He).
    + intros b. change (is_free (with_capacity s (remove_free s l a)) b) with (is_free (remove_free s l a) b).
      rewrite (take_free s l a b H Hs). split; intros [Hf Hb']; (split; [done|]); [|lia].
      destruct Hf as (s' & l' & Hs' & Hb''). pose proof (ex_range _ _ He _ _ Hs'). lia.
    + intros b Hb'. exists s, l. split; [done|lia].
    + intros (s' & l' & Hs' & Hb'). change (by_start _) with (delete s (by_start a)) in Hs'.
      specialize (Hbelow _ _ Hs'). lia.
  - exists a, 0. split; [done|]. split; [done|]. split; [lia|]. split; [lia|]. split; [|split; [lia|]].
    + intros b. split; [|by intros [? _]]. intros Hf. split; [done|]. destruct Hf as (s' & l' & Hs' & Hb).
      pose proof (ex_range _ _ He _ _ Hs'). lia.
    + intros (s' & l' & Hs' & Hb). specialize (Hr _ _ Hs'). lia.
Qed.

(** ** Canonical form: the free blocks determine the extents *)

Lemma extent_of c m m' s l :
  extents_ok c m -> extents_ok c m' -> (forall b, in_extents m b <-> in_extents m' b) ->
  m !! s = Some l -> exists l', m' !! s = Some l' /\ l <= l'.
Proof.
  intros H H' Hfree Hs. pose proof (ex_range _ _ H _ _ Hs) as (H0 & Hl & _).
  destruct (proj1 (Hfree s)) as (s' & l' & Hs' & Hb); [exists s, l; split; [done|lia]|].
  assert (s' = s) as ->.
  { destruct (decide (s' = s)) as [|Hne]; [done|].
    destruct (proj2 (Hfree (s - 1))) as (s2 & l2 & Hs2 & Hb2); [exists s', l'; split; [done|lia]|].
    pose proof (ex_apart _ _ H _ _ _ _ Hs2 Hs ltac:(lia)). lia. }
  exists l'. split; [done|]. destruct (Z.le_gt_cases l l') as [|Hgt]; [done|].
  destruct (proj1 (Hfree (s + l'))) as (s3 & l3 & Hs3 & Hb3); [exists s, l; split; [done|lia]|].
  destruct (Z.lt_trichotomy s s3) as [Hlt|[<-|Hlt]].
  - pose proof (ex_apart _ _ H' _ _ _ _ Hs' Hs3 Hlt). lia.
  - rewrite Hs' in Hs3. injection Hs3 as <-. lia.
  - pose proof (ex_apart _ _ H' _ _ _ _ Hs3 Hs' Hlt). lia.
Qed.

Lemma extents_canonical c m m' :
  extents_ok c m -> extents_ok c m' -> (forall b, in_extents m b <-> in_extents m' b) -> m = m'.
Proof.
  intros H H' Hf. assert (forall b, in_extents m' b <-> in_extents m b) as Hf' by (intros; by rewrite Hf).
  assert (forall m m' s l, extents_ok c m -> extents_ok c m' -> (forall b, in_extents m b <-> in_extents m' b) ->
            m !! s = Some l -> m' !! s = Some l) as Hdir.
  { clear. intros m m' s l H H' Hf Hs. destruct (extent_of c m m' s l H H' Hf Hs) as (l' & Hs' & Hle).
    destruct (extent_of c m' m s l' H' H ltac:(intros; by rewrite Hf) Hs') as (l2 & Hs2 & Hle2).
    rewrite Hs in Hs2. injection Hs2 as <-. by replace l with l' by lia. }
  apply map_eq. intros s. apply option_eq. intros l. split; intros; by eapply Hdir; [..|done].
Qed.

Lemma index_canonical a a' : index_ok a -> index_ok a' -> by_start a = by_start a' -> by_len a = by_len a'.
Proof.
  intros H H' E.
  assert (forall a a', index_ok a -> index_ok a' -> by_start a = by_start a' ->
    forall l st, by_len a !! l = Some st -> by_len a' !! l = Some st) as Hdir.
  { clear. intros a a' H H' E l st Hl. destruct (set_choose_L st) as [s Hs]; [exact (ix_nonempty _ H _ _ Hl)|].
    assert (by_start a !! s = Some l) as Es by (apply H; eauto). rewrite E in Es.
    apply H' in Es as (st' & Hl' & Hs'). rewrite Hl'. f_equal. apply set_eq. intros x. split; intros Hx.
    - assert (by_start a' !! x = Some l) as Ex by (apply H'; eauto). rewrite <- E in Ex.
      apply H in Ex as (st2 & Hl2 & ?). congruence.
    - assert (by_start a !! x = Some l) as Ex by (apply H; eauto). rewrite E in Ex.
      apply H' in Ex as (st2 & Hl2 & ?). congruence. }
  apply map_eq. intros l. apply option_eq. intros st. split; by apply Hdir.
Qed.

(** Two allocators with the same capacity and the same free blocks are equal. *)
Lemma alloc_canonical a a' :
  alloc_ok a -> alloc_ok a' -> capacity a = capacity a' -> (forall b, is_free a b <-> is_free a' b) -> a = a'.
Proof.
  intros [_ Hi He] [_ Hi' He'] Hc Hf. rewrite <- Hc in He'.
  pose proof (extents_canonical _ _ _ He He' Hf) as Es. pose proof (index_canonical _ _ Hi Hi' Es) as El.
  destruct a, a'; simpl in *. congruence.
Qed.

(** ** Reservation *)

Lemma insert_between_spec lo hi a :
  alloc_ok a -> 0 <= lo -> lo <= hi -> hi <= capacity a ->
  (forall s l, by_start a !! s = Some l -> s + l < lo \/ hi < s) ->
  exists a', insert_between lo hi a = Done a' /\ alloc_ok a' /\ capacity a' = capacity a /\
    (forall b, is_free a' b <-> is_free a b \/ lo <= b < hi) /\
    forall s l, by_start a' !! s = Some l -> by_start a !! s = Some l \/ s = lo /\ s + l = hi.
Proof.
  intros H H0 Hle Hhi Hap. unfold insert_between. destruct (Z.ltb_spec lo hi) as [Hlt|Hge].
  - destruct (give_spec lo (hi - lo) a H) as (a' & E & Ha' & Hc' & Es'); [lia|lia|lia| |].
    { intros s l Hs. specialize (Hap _ _ Hs). lia. }
    exists a'. split; [done|]. split; [done|]. split; [done|]. split.
    + intros b. rewrite (give_free _ _ _ _ _ Es').
      * replace (lo + (hi - lo)) with hi by lia. tauto.
      * destruct (by_start a !! lo) as [k|] eqn:Ek; [|done]. specialize (Hap _ _ Ek).
        pose proof (ex_range _ _ (ak_extents _ H) _ _ Ek). lia.
    + rewrite Es'. intros s l [[<- <-]|[_ Hs]]%lookup_insert_Some; [right; lia|by left].
  - exists a. split_and!; try done; [|by left]. intros b. split; [by left|]. intros [?|?]; [done|lia].
Qed.

(** Cutting a run out of an extent, both remainders given back. *)
Lemma cut_spec a s l x e :
  alloc_ok a -> by_start a !! s = Some l -> s <= x -> x < e -> e <= s + l ->
  exists a', (let* a0 := insert_between s x (remove_free s l a) in insert_between e (s + l) a0) = Done a' /\
    alloc_ok a' /\ capacity a' = capacity a /\ forall b, is_free a' b <-> is_free a b /\ ~ x <= b < e.
Proof.
  intros H Hs Hsx Hxe Hel. pose proof (ex_range _ _ (ak_extents _ H) _ _ Hs) as (H0 & Hl & Hc).
  destruct (take_spec s l a H Hs) as [H2 E2].
  assert (forall s' l', by_start (remove_free s l a) !! s' = Some l' -> s' + l' < s \/ s + l < s') as Hap.
  { rewrite E2. intros s' l' [Hne' Hs']%lookup_delete_Some. destruct (Z.lt_trichotomy s s') as [Hlt|[?|Hlt]]; [|done|].
    - right. apply (ex_apart _ _ (ak_extents _ H) _ _ _ _ Hs Hs' Hlt).
    - left. apply (ex_apart _ _ (ak_extents _ H) _ _ _ _ Hs' Hs Hlt). }
  destruct (insert_between_spec s x _ H2) as (a0 & -> & Ha0 & Hc0 & Hf0 & Hb0); [lia|lia|simpl; lia| |].
  { intros s' l' Hs'. specialize (Hap _ _ Hs'). lia. }
  cbn [obind]. simpl in Hc0.
  destruct (insert_between_spec e (s + l) a0 Ha0) as (a' & -> & Ha' & Hc' & Hf' & _); [lia|lia|lia| |].
  { intros s' l' Hs'. destruct (Hb0 _ _ Hs') as [Hs2|[? ?]]; [specialize (Hap _ _ Hs2)|]; lia. }
  exists a'. split; [done|]. split; [done|]. split; [lia|]. intros b.
  rewrite Hf', Hf0, (take_free s l a b H Hs). split.
  - intros [[[? ?]|?]|?]; (split; [first [done|exists s, l; split; [done|lia]]|lia]).
  - intros [? ?]. destruct (decide (s <= b < x)); [by left; right|].
    destruct (decide (e <= b < s + l)); [by right|left; left; split; [done|lia]].
Qed.

(** Growing to [e] blocks, the new ones free. *)
Lemma grow_to_spec e a :
  alloc_ok a -> e < 2 ^ 64 ->
  exists a', grow_to e a = Done a' /\ alloc_ok a' /\ capacity a' = Z.max (capacity a) e /\
    forall b, is_free a' b <-> is_free a b \/ capacity a <= b < Z.max (capacity a) e.
Proof.
  intros H He. pose proof (ak_capacity _ H) as Hc. unfold grow_to. destruct (Z.ltb_spec (capacity a) e) as [Hlt|Hge].
  - assert (alloc_ok (with_capacity e a)) as Hw.
    { destruct H as [_ [? ?] Hex]. constructor; [unfold fits in *; simpl; lia|by constructor|].
      eapply extents_mono; [|exact Hex]. simpl. lia. }
    destruct (free_spec (with_capacity e a) {| run_start := capacity a; run_len := e - capacity a |} Hw)
      as (a1 & E1 & [H1 Hc1 Hf1]); simpl; [unfold fits in Hc; lia|lia|lia| |].
    + unfold in_run. simpl. intros b Hb (s & l & Hs & Hb').
      pose proof (ex_range _ _ (ak_extents _ H) _ _ Hs). lia.
    + exists a1. split; [done|]. split; [done|]. simpl in Hc1. split; [lia|]. intros b. rewrite Hf1.
      unfold in_run. simpl. change (is_free (with_capacity e a) b) with (is_free a b).
      replace (Z.max (capacity a) e) with (capacity a + (e - capacity a)) by lia. done.
  - exists a. split; [done|]. split; [done|]. split; [lia|]. intros b. split; [by left|]. intros [?|?]; [done|lia].
Qed.

Lemma reserve_spec r a :
  alloc_ok a -> 0 <= run_start r -> 0 <= run_len r -> run_start r + run_len r < 2 ^ 64 ->
  (forall b, in_run r b -> is_free a b \/ capacity a <= b) ->
  exists a', reserve r a = Done a' /\ alloc_ok a' /\
    capacity a' = (if run_len r =? 0 then capacity a else Z.max (capacity a) (run_start r + run_len r)) /\
    forall b, is_free a' b <-> (is_free a b \/ capacity a <= b < capacity a') /\ ~ in_run r b.
Proof.
  intros H H0 Hn Hm Hfresh. unfold reserve. destruct (Z.eqb_spec (run_len r) 0) as [E|Hne].
  { exists a. split; [done|]. split; [done|]. split; [done|]. intros b. unfold in_run. rewrite E.
    split; [intros; split; [by left|lia]|]. intros [[?|?] _]; [done|lia]. }
  unfold run_end. rewrite uadd_done by (unfold fits; lia). cbn [obind].
  set (e := run_start r + run_len r) in *.
  destruct (grow_to_spec e a H Hm) as (a1 & -> & H1 & Hc1 & Hf1).
  cbn [obind]. assert (forall b, in_run r b -> is_free a1 b) as Hall.
  { intros b Hb. apply Hf1. destruct (Hfresh _ Hb) as [?|?]; [by left|right]. unfold in_run in Hb. lia. }
  pose proof (range_upto_spec (run_start r) (by_start a1)) as Hp.
  destruct (Hall (run_start r)) as (s & l & Hs & Hb); [unfold in_run; lia|].
  destruct (range_upto _ _) as [[es el]|]; simpl in Hp; [|specialize (Hp _ _ Hs); lia].
  destruct Hp as (Hes & Hle & Hmax). assert (es = s) as ->.
  { specialize (Hmax _ _ Hs ltac:(lia)). destruct (decide (es = s)); [done|].
    pose proof (ex_apart _ _ (ak_extents _ H1) _ _ _ _ Hs Hes ltac:(lia)). lia. }
  rewrite Hs in Hes. injection Hes as <-. cbn [expect obind].
  pose proof (ex_range _ _ (ak_extents _ H1) _ _ Hs) as (Hs0 & Hl0 & Hl1).
  pose proof (ak_capacity _ H1) as Hcap1. rewrite uadd_done by (unfold fits in *; lia). cbn [obind].
  assert (e <= s + l) as Hend.
  { destruct (Z.le_gt_cases e (s + l)) as [|Hgt]; [done|].
    destruct (Hall (s + l)) as (s2 & l2 & Hs2 & Hb2); [unfold in_run; lia|].
    destruct (Z.lt_trichotomy s s2) as [Hlt|[<-|Hlt]].
    - pose proof (ex_apart _ _ (ak_extents _ H1) _ _ _ _ Hs Hs2 Hlt). lia.
    - rewrite Hs in Hs2. injection Hs2 as <-. lia.
    - pose proof (ex_apart _ _ (ak_extents _ H1) _ _ _ _ Hs2 Hs Hlt). lia. }
  replace ((s <=? run_start r) && (e <=? s + l)) with true by lia. cbn [guard obind].
  destruct (cut_spec a1 s l (run_start r) e H1 Hs) as (a' & E & H' & Hc' & Hf'); [lia..|].
  exists a'. split; [exact E|]. split; [done|]. split; [lia|]. intros b.
  rewrite Hf', Hf1, Hc', Hc1. done.
Qed.

(** ** Rebuilding from the used runs *)

Lemma free_new c b : ~ is_free (with_capacity c alloc_new) b.
Proof. intros (s & l & Hs & _). simpl in Hs. by apply lookup_empty_Some in Hs. Qed.

Lemma new_ok c : fits 64 c -> alloc_ok (with_capacity c alloc_new).
Proof.
  intros Hc. constructor; [done|constructor|constructor]; simpl.
  - intros s l. split; [by intros ?%lookup_empty_Some|]. by intros (? & ?%lookup_empty_Some & _).
  - by intros ? ? ?%lookup_empty_Some.
  - by intros ? ? ?%lookup_empty_Some.
  - by intros ? ? ? ? ?%lookup_empty_Some.
Qed.

(** Runs that follow each other without overlap, from [cursor]. *)
Fixpoint runs_from (c cursor : Z) (rs : list BlockRun) : Prop :=
  match rs with
  | [] => cursor <= c
  | r :: rs => cursor <= run_start r /\ 0 < run_len r /\ runs_from c (run_start r + run_len r) rs
  end.

Lemma runs_from_bound c cursor rs : runs_from c cursor rs -> cursor <= c.
Proof. revert cursor. induction rs as [|r rs IH]; simpl; [done|]. intros cursor (? & ? & H%IH). lia. Qed.

Lemma runs_from_elem c cursor rs r :
  runs_from c cursor rs -> r ∈ rs -> cursor <= run_start r /\ 0 < run_len r /\ run_start r + run_len r <= c.
Proof.
  revert cursor. induction rs as [|x rs IH]; intros cursor H Hr; [by apply not_elem_of_nil in Hr|].
  destruct H as (Hs & Hl & H). apply elem_of_cons in Hr as [->|Hr].
  - pose proof (runs_from_bound _ _ _ H). lia.
  - specialize (IH _ H Hr). lia.
Qed.

Lemma carve_spec c rs : forall a cursor,
  alloc_ok a -> capacity a = c -> 0 <= cursor -> runs_from c cursor rs ->
  (forall s l, by_start a !! s = Some l -> s + l < cursor \/ cursor = 0) -> (cursor = 0 -> by_start a = ∅) ->
  exists a' e, ofold (carve c) (a, cursor) rs = Done (a', e) /\ alloc_ok a' /\ capacity a' = c /\
    cursor <= e <= c /\ (forall s l, by_start a' !! s = Some l -> s + l < e) /\
    (forall r, r ∈ rs -> run_start r + run_len r <= e) /\
    forall b, is_free a' b <-> is_free a b \/ cursor <= b < e /\ forall r, r ∈ rs -> ~ in_run r b.
Proof.
  induction rs as [|r rs IH]; intros a cursor H Hc H0 Hrs Hbelow Hz; simpl in Hrs.
  - exists a, cursor. split; [done|]. split_and!; try done.
    + intros s l Hs. destruct (Hbelow _ _ Hs) as [?|E]; [done|]. rewrite (Hz E) in Hs. by apply lookup_empty_Some in Hs.
    + by intros r ?%not_elem_of_nil.
    + intros b. split; [by left|]. intros [?|[? _]]; [done|lia].
  - destruct Hrs as (Hs & Hl & Hrs). pose proof (runs_from_bound _ _ _ Hrs) as Hb. pose proof (ak_capacity _ H) as Hcap.
    simpl. replace (cursor <=? run_start r) with true by lia. cbn [guard obind]. unfold run_end.
    rewrite uadd_done by (unfold fits in *; lia). cbn [obind]. replace (_ <=? c) with true by lia. cbn [guard obind].
    destruct (insert_between_spec cursor (run_start r) a H) as (a1 & -> & H1 & Hc1 & Hf1 & Hb1); [lia|lia|lia| |].
    { intros s l Hs'. destruct (Hbelow _ _ Hs') as [?|E]; [by left|]. rewrite (Hz E) in Hs'. by apply lookup_empty_Some in Hs'. }
    cbn [obind].
    destruct (IH a1 (run_start r + run_len r) H1) as (a' & e & E & H' & Hc' & He & Hbe & Hre & Hf); [lia|lia|done| |lia|].
    { intros s l Hs'. left. destruct (Hb1 _ _ Hs') as [Hs2|[? ?]]; [|lia].
      destruct (Hbelow _ _ Hs2) as [?|Ez]; [lia|]. rewrite (Hz Ez) in Hs2. by apply lookup_empty_Some in Hs2. }
    exists a', e. split; [done|]. split; [done|]. split; [done|]. split; [lia|]. split; [done|].
    split; [intros r' [->|Hr']%elem_of_cons; [lia|by apply Hre]|].
    intros b. rewrite Hf, Hf1. split.
    + intros [[?|?]|[? Hn]]; [by left|right; split; [lia|]|right; split; [lia|]].
      * intros r' [->|Hr']%elem_of_cons; [unfold in_run; lia|].
        pose proof (runs_from_elem _ _ _ _ Hrs Hr'). unfold in_run. lia.
      * intros r' [->|Hr']%elem_of_cons; [unfold in_run; lia|by apply Hn].
    + intros [?|[? Hn]]; [left; by left|]. destruct (decide (b < run_start r)); [left; right; lia|].
      right. split; [|intros; apply Hn; by right]. pose proof (Hn r ltac:(by left)) as Hnr. unfold in_run in Hnr. lia.
Qed.

(** Runs of positive length, in order, none overlapping another. *)
Definition apart (r s : BlockRun) : Prop := forall b, in_run r b -> ~ in_run s b.

Lemma run_le_total r s : run_le r s = true \/ run_le s r = true.
Proof. unfold run_le, pair_le. simpl. lia. Qed.

Lemma run_le_trans r s t : run_le r s = true -> run_le s t = true -> run_le r t = true.
Proof. unfold run_le, pair_le. simpl. lia. Qed.

Lemma sorted_runs_from c rs : forall cursor,
  StronglySorted (fun r s => run_le r s = true) rs -> NoDup rs ->
  (forall r, r ∈ rs -> cursor <= run_start r /\ 0 < run_len r /\ run_start r + run_len r <= c) ->
  (forall r s, r ∈ rs -> s ∈ rs -> r <> s -> apart r s) -> cursor <= c ->
  runs_from c cursor rs.
Proof.
  induction rs as [|r rs IH]; intros cursor Hs Hn Hr Ha Hc; simpl; [done|].
  apply StronglySorted_inv in Hs as [Hs Hmin]. apply NoDup_cons in Hn as [Hnin Hn].
  destruct (Hr r ltac:(by left)) as (H1 & H2 & H3). split; [done|]. split; [done|].
  apply IH; [done|done| |intros ? ? ? ?; apply Ha; by right|done].
  intros s Hs'. destruct (Hr s ltac:(by right)) as (? & ? & ?). split; [|done].
  rewrite Forall_forall in Hmin. specialize (Hmin s Hs'). unfold run_le, pair_le in Hmin. simpl in Hmin.
  destruct (Z.le_gt_cases (run_start r + run_len r) (run_start s)) as [|Hgt]; [done|].
  assert (r <> s) as Hne by congruence.
  destruct (Ha r s ltac:(by left) ltac:(by right) Hne (run_start s)); unfold in_run; lia.
Qed.

Lemma from_used_runs_spec c used :
  fits 64 c -> NoDup (filter (fun r => 0 < run_len r) used) ->
  (forall r, r ∈ used -> 0 < run_len r -> 0 <= run_start r /\ run_start r + run_len r <= c) ->
  (forall r s, r ∈ used -> s ∈ used -> 0 < run_len r -> 0 < run_len s -> r <> s -> apart r s) ->
  exists a, from_used_runs c used = Done a /\ alloc_ok a /\ capacity a = c /\
    forall b, is_free a b <-> 0 <= b < c /\ forall r, r ∈ used -> ~ in_run r b.
Proof.
  intros Hc Hn Hr Ha. unfold from_used_runs.
  set (rs := sort_by run_le (filter (fun r => 0 < run_len r) used)).
  assert (forall r, r ∈ rs <-> 0 < run_len r /\ r ∈ used) as Hin.
  { intros r. unfold rs. rewrite sort_by_perm. by rewrite list_elem_of_filter. }
  assert (runs_from c 0 rs) as Hrs.
  { apply sorted_runs_from.
    - apply sort_by_sorted; [apply run_le_total|apply run_le_trans].
    - unfold rs. by rewrite sort_by_perm.
    - intros r [Hl Hr']%Hin. destruct (Hr r Hr' Hl). lia.
    - intros r s [? ?]%Hin [? ?]%Hin. by apply Ha.
    - unfold fits in Hc. lia. }
  destruct (carve_spec c rs (with_capacity c alloc_new) 0) as (a1 & e & -> & H1 & Hc1 & He & Hbe & Hre & Hf1);
    [by apply new_ok|done|done|done|by right|done|]. cbn [obind].
  destruct (insert_between_spec e c a1 H1) as (a & -> & H & Hca & Hf & _); [lia|lia|lia|intros s l Hs; left; by eapply Hbe|].
  exists a. split; [done|]. split; [done|]. split; [lia|]. intros b. rewrite Hf, Hf1.
  assert ((forall r, r ∈ rs -> ~ in_run r b) <-> forall r, r ∈ used -> ~ in_run r b) as ->.
  { split; [|intros Hu r [_ Hr']%Hin; by apply Hu]. intros Hu r Hr' Hb. destruct (Z.lt_ge_cases 0 (run_len r)).
    - apply (Hu r); [by apply Hin|done].
    - unfold in_run in Hb. lia. }
  split.
  - intros [[Hfree|[? ?]]|?]; [by destruct (free_new c b)|split; [lia|done]|].
    split; [lia|]. intros r Hr' Hb. assert (r ∈ rs) as Hrr by (apply Hin; unfold in_run in Hb; split; [lia|done]).
    specialize (Hre _ Hrr). unfold in_run in Hb. lia.
  - intros [? ?]. destruct (decide (b < e)); [left; right; split; [lia|]|right; lia]. done.
Qed.

(** ** Properties *)

(** An allocation succeeds and hands out a run of the asked length whose
    blocks were free or lie beyond the old end; exactly its blocks stop being
    free; and the file grows only when no free extent is long enough. *)
Theorem allocate_takes_free (a : BlockAllocator) (n : Z) :
  alloc_ok a -> 0 < n -> capacity a + n < 2 ^ 64 ->
  exists a' r, allocate n a = Done (a', r) /\ alloc_ok a' /\
    run_len r = n /\ 0 <= run_start r /\ run_start r + n <= capacity a' /\
    capacity a <= capacity a' <= capacity a + n /\
    (forall b, in_run r b -> is_free a b \/ capacity a <= b) /\
    (forall b, is_free a' b <-> is_free a b /\ ~ in_run r b) /\
    ((exists s l, by_start a !! s = Some l /\ n <= l) -> capacity a' = capacity a).
Proof.
  intros H Hn Hc. destruct (allocate_spec a n H Hn Hc) as (a' & r & E & []). exists a', r. repeat (split; [done|]); done.
Qed.

(** Freeing what was just allocated gives the allocator back, index for
    index, unless the file had to grow; a grown file keeps the new blocks, free. *)
Theorem allocate_free_restores (a : BlockAllocator) (n : Z) :
  alloc_ok a -> 0 < n -> capacity a + n < 2 ^ 64 ->
  exists a1 r a2, allocate n a = Done (a1, r) /\ free (run_start r) (run_len r) a1 = Done a2 /\
    alloc_ok a2 /\ (forall b, is_free a2 b <-> is_free a b \/ capacity a <= b < capacity a2) /\
    (capacity a1 = capacity a -> a2 = a).
Proof.
  intros H Hn Hc. destruct (allocate_spec a n H Hn Hc) as (a1 & r & E & [H1 Hl Hs He Hcap Hfresh Hfree Hg _]).
  destruct (free_spec a1 r H1) as (a2 & E2 & [H2 Hc2 Hf2]); [done|lia|lia| |].
  { intros b Hb Hf. apply Hfree in Hf as [_ Hf]. done. }
  assert (forall b, is_free a b -> 0 <= b < capacity a) as Hrange.
  { intros b (s & l & Hs' & Hb). pose proof (ex_range _ _ (ak_extents _ H) _ _ Hs'). lia. }
  assert (forall b, is_free a2 b <-> is_free a b \/ capacity a <= b < capacity a2) as Hf.
  { intros b. rewrite Hf2, Hfree, Hc2. split.
    - intros [[? _]|Hb]; [by left|]. destruct (Hfresh b Hb); [by left|right]. unfold in_run in Hb. lia.
    - destruct (decide (in_run r b)) as [?|Hnb]; [by right|]. intros [?|Hb]; [left; by split|].
      destruct Hnb. unfold in_run. lia. }
  exists a1, r, a2. split_and!; [done..|]. intros Ec. apply alloc_canonical; [done..|congruence|].
  intros b. rewrite Hf. split; [|by left]. intros [?|?]; [done|lia].
Qed.

(** The used runs of an allocator: together they are the blocks that are not free. *)
Definition covers (a : BlockAllocator) (used : list BlockRun) : Prop :=
  NoDup used /\ (forall r, r ∈ used -> 0 < run_len r /\ 0 <= run_start r /\ run_start r + run_len r <= capacity a) /\
  (forall r s, r ∈ used -> s ∈ used -> r <> s -> apart r s) /\
  forall b, 0 <= b < capacity a -> is_free a b <-> forall r, r ∈ used -> ~ in_run r b.

(** C14: an allocator is rebuilt from the used runs alone, in any order: the
    result is equal to it, both indexes included. *)
Theorem rebuild_from_used_runs (a : BlockAllocator) (used : list BlockRun) :
  alloc_ok a -> covers a used -> from_used_runs (capacity a) used = Done a.
Proof.
  intros H (Hn & Hr & Ha & Hf).
  destruct (from_used_runs_spec (capacity a) used) as (a' & E & H' & Hc' & Hf').
  - apply H.
  - by apply NoDup_filter.
  - intros r Hin _. apply Hr, Hin.
  - intros r s ? ? _ _. by apply Ha.
  - rewrite E. f_equal. apply alloc_canonical; [done..|]. intros b. rewrite Hf'. split.
    + intros [Hb Hn']. by apply Hf.
    + intros Hb. assert (0 <= b < capacity a) as Hrange.
      { destruct Hb as (s & l & Hs & Hb). pose proof (ex_range _ _ (ak_extents _ H) _ _ Hs). lia. }
      split; [done|]. by apply Hf.
Qed.

(** ** Witnesses *)

(** Ten blocks, of which 2 to 4 and 7 are in use. *)
Definition demo_used : list BlockRun := [{| run_start := 7; run_len := 1 |}; {| run_start := 2; run_len := 3 |}].

Definition demo_alloc : BlockAllocator :=
  match from_used_runs 10 demo_used with Done a => a | _ => alloc_new end.

Lemma demo_used_elem r : r ∈ demo_used -> r = {| run_start := 7; run_len := 1 |} \/ r = {| run_start := 2; run_len := 3 |}.
Proof. unfold demo_used. set_solver. Qed.

Lemma demo_used_apart r s : r ∈ demo_used -> s ∈ demo_used -> r <> s -> apart r s.
Proof. intros [-> | ->]%demo_used_elem [-> | ->]%demo_used_elem Hne b; unfold in_run; simpl; done || lia. Qed.

Lemma demo_used_nodup : NoDup demo_used.
Proof. apply NoDup_cons. split; [|apply NoDup_singleton]. by rewrite list_elem_of_singleton. Qed.

Lemma demo_alloc_ok :
  alloc_ok demo_alloc /\ capacity demo_alloc = 10 /\
  forall b, is_free demo_alloc b <-> 0 <= b < 10 /\ forall r, r ∈ demo_used -> ~ in_run r b.
Proof.
  destruct (from_used_runs_spec 10 demo_used) as (a & E & H & Hc & Hf).
  - done.
  - rewrite filter_all by (by repeat constructor). apply demo_used_nodup.
  - intros r [-> | ->]%demo_used_elem _; simpl; lia.
  - intros r s ? ? _ _. by apply demo_used_apart.
  - assert (demo_alloc = a) as -> by (unfold demo_alloc; by rewrite E). done.
Qed.

Lemma demo_covers : covers demo_alloc demo_used.
Proof.
  destruct demo_alloc_ok as (H & Hc & Hf). split; [apply demo_used_nodup|]. rewrite Hc. split_and!.
  - intros r [-> | ->]%demo_used_elem; simpl; lia.
  - apply demo_used_apart.
  - intros b Hb. rewrite Hf. tauto.
Qed.

Lemma allocate_takes_free_witness :
  exists a' r, allocate 2 demo_alloc = Done (a', r) /\ alloc_ok a' /\
    run_len r = 2 /\ 0 <= run_start r /\ run_start r + 2 <= capacity a' /\
    capacity demo_alloc <= capacity a' <= capacity demo_alloc + 2 /\
    (forall b, in_run r b -> is_free demo_alloc b \/ capacity demo_alloc <= b) /\
    (forall b, is_free a' b <-> is_free demo_alloc b /\ ~ in_run r b) /\
    ((exists s l, by_start demo_alloc !! s = Some l /\ 2 <= l) -> capacity a' = capacity demo_alloc).
Proof.
  destruct demo_alloc_ok as (H & Hc & _).
  apply (allocate_takes_free demo_alloc 2); [done|done|by rewrite Hc].
Defined.

Lemma allocate_free_restores_witness :
  exists a1 r a2, allocate 4 demo_alloc = Done (a1, r) /\ free (run_start r) (run_len r) a1 = Done a2 /\
    alloc_ok a2 /\ (forall b, is_free a2 b <-> is_free demo_alloc b \/ capacity demo_alloc <= b < capacity a2) /\
    (capacity a1 = capacity demo_alloc -> a2 = demo_alloc).
Proof.
  destruct demo_alloc_ok as (H & Hc & _).
  apply (allocate_free_restores demo_alloc 4); [done|done|by rewrite Hc].
Defined.

Lemma rebuild_from_used_runs_witness : from_used_runs (capacity demo_alloc) demo_used = Done demo_alloc.
Proof. apply rebuild_from_used_runs; [apply demo_alloc_ok|apply demo_covers]. Defined.
