(* ===== verification/BlockFile.v ===== *)
(** * The block device behind the [data] file (wavedb-storage: file/block_file.rs)

    A block allocator and the bytes it lays out.  [Memory] and [Disk] differ in
    what an access out of range does: a slice panic, or an I/O result. *)
From S2P Require Import Prelude Ordered Wire Errors BlockAlloc BlockAllocOk.

Inductive Backing : Type := Memory (bytes : list byte) | Disk (bytes : list byte).

Definition backing_bytes (b : Backing) : list byte := match b with Memory v | Disk v => v end.

Definition map_backing (f : list byte -> list byte) (b : Backing) : Backing :=
  match b with Memory v => Memory (f v) | Disk v => Disk (f v) end.

Record BlockFile : Type := { bf_alloc : BlockAllocator; backing : Backing }.

Abbreviation BF := (ST BlockFile StorageError).

Definition set_len (bytes : Z) (b : Backing) : Backing := map_backing (resize bytes) b.

(** A write past the end of a disk file extends it with zeros. *)
Definition backing_write (offset : Z) (data : list byte) (b : Backing) : StorageResult Backing :=
  match b with
  | Memory v => let* v := expect (put offset data v) in Done (Memory v)
  | Disk v => let* v := expect (put offset data (resize (Z.max (zlen v) (offset + zlen data)) v)) in Done (Disk v)
  end.

Definition backing_read (offset len : Z) (b : Backing) : StorageResult (list byte) :=
  match b with
  | Memory v => expect (sub offset (offset + len) v)
  | Disk v => ok_or (sub offset (offset + len) v) (Io "failed to fill whole buffer")
  end.

Definition create_in_memory : BlockFile := {| bf_alloc := alloc_new; backing := Memory [] |}.
Definition block_create : BlockFile := {| bf_alloc := alloc_new; backing := Disk [] |}.

Definition block_open (found : list byte) (used : list BlockRun) : StorageResult BlockFile :=
  let c := zlen found / DATA_BLOCK_SIZE in
  let* a := from_used_runs c used in
  Done {| bf_alloc := a; backing := Disk found |}.

Definition capacity_blocks (f : BlockFile) : Z := capacity (bf_alloc f).
Definition capacity_bytes (f : BlockFile) : StorageResult Z := umul 64 (capacity_blocks f) DATA_BLOCK_SIZE.
Definition file_free_blocks (f : BlockFile) : StorageResult Z := free_blocks (bf_alloc f).

(** The physical length follows the allocator's capacity. *)
Definition sync_len : BF unit := fun f =>
  match capacity_bytes f with
  | Done n => (Done tt, {| bf_alloc := bf_alloc f; backing := set_len n (backing f) |})
  | Fail e => (Fail e, f)
  | Fault => (Fault, f)
  end.

Definition on_alloc {A} (g : BlockAllocator -> StorageResult (BlockAllocator * A)) : BF A := fun f =>
  match g (bf_alloc f) with
  | Done (a, x) => (Done x, {| bf_alloc := a; backing := backing f |})
  | Fail e => (Fail e, f)
  | Fault => (Fault, f)
  end.

Definition block_allocate (blocks : Z) : BF BlockRun :=
  let! r := on_alloc (allocate blocks) in
  do! sync_len in
  st_ret r.

Definition block_reserve (r : BlockRun) : BF unit :=
  do! on_alloc (fun a => let* a := reserve r a in Done (a, tt)) in
  sync_len.

Definition block_free (r : BlockRun) : BF unit :=
  on_alloc (fun a => let* a := free (run_start r) (run_len r) a in Done (a, tt)).

Definition write_run (r : BlockRun) (data : list byte) : BF unit := fun f =>
  match (let* n := byte_len r in
         if n <? zlen data then Fail (Other "write exceeds run capacity")
         else let* o := byte_offset r in backing_write o data (backing f)) with
  | Done b => (Done tt, {| bf_alloc := bf_alloc f; backing := b |})
  | Fail e => (Fail e, f)
  | Fault => (Fault, f)
  end.

Definition read_run (r : BlockRun) : BF (list byte) := fun f =>
  (let* o := byte_offset r in let* n := byte_len r in backing_read o n (backing f), f).

Definition block_truncate : BF Z :=
  let! reclaimed := on_alloc truncate in
  if 0 <? reclaimed then do! sync_len in st_ret reclaimed else st_ret reclaimed.

(** ** A heap of regions

    What the layers above see: the regions handed out, each with its bytes. *)

Abbreviation Regions := (gmap Z (list byte)).

Record bf_ok (f : BlockFile) (m : Regions) : Prop := {
  bo_alloc : alloc_ok (bf_alloc f);
  bo_limit : capacity (bf_alloc f) <= 2 ^ 48;
  bo_bytes : zlen (backing_bytes (backing f)) = capacity (bf_alloc f) * DATA_BLOCK_SIZE;
  bo_region : forall s bs, m !! s = Some bs ->
    exists l, 0 < l /\ zlen bs = l * DATA_BLOCK_SIZE /\ 0 <= s /\ s + l <= capacity (bf_alloc f) /\
      stands (backing_bytes (backing f)) (s * DATA_BLOCK_SIZE) bs /\
      forall b, s <= b < s + l -> ~ is_free (bf_alloc f) b;
  bo_apart : forall s bs s' bs', m !! s = Some bs -> m !! s' = Some bs' -> s < s' ->
    s * DATA_BLOCK_SIZE + zlen bs <= s' * DATA_BLOCK_SIZE
}.

(** The run of a region. *)
Definition region_run (s : Z) (bs : list byte) : BlockRun :=
  {| run_start := s; run_len := zlen bs / DATA_BLOCK_SIZE |}.

Lemma region_len (bs : list byte) l : zlen bs = l * DATA_BLOCK_SIZE -> zlen bs / DATA_BLOCK_SIZE = l.
Proof. intros ->. by apply Z.div_mul. Qed.

Lemma run_bytes r : 0 <= run_start r -> 0 <= run_len r -> run_start r + run_len r <= 2 ^ 48 ->
  byte_offset r = Done (run_start r * DATA_BLOCK_SIZE) /\ byte_len r = Done (run_len r * DATA_BLOCK_SIZE).
Proof. intros. unfold byte_offset, byte_len, DATA_BLOCK_SIZE. rewrite !umul_done by (unfold fits; lia). done. Qed.

Lemma sync_len_run f :
  0 <= capacity (bf_alloc f) <= 2 ^ 48 ->
  sync_len f = (Done tt, {| bf_alloc := bf_alloc f;
    backing := set_len (capacity (bf_alloc f) * DATA_BLOCK_SIZE) (backing f) |}).
Proof.
  intros H. unfold sync_len, capacity_bytes, capacity_blocks, DATA_BLOCK_SIZE.
  by rewrite umul_done by (unfold fits; lia).
Qed.

Lemma set_len_bytes n b : backing_bytes (set_len n b) = resize n (backing_bytes b).
Proof. by destruct b. Qed.

(** The unused blocks of a new run hold no region. *)
Lemma fresh_apart f m a' r s bs :
  bf_ok f m -> allocated (bf_alloc f) (run_len r) a' r -> 0 < run_len r -> m !! s = Some bs ->
  (s * DATA_BLOCK_SIZE + zlen bs <= run_start r * DATA_BLOCK_SIZE \/
   run_start r + run_len r <= s).
Proof.
  intros H Ha Hn Hs. destruct (bo_region _ _ H _ _ Hs) as (l & Hl & El & H0 & Hc & _ & Hu).
  destruct (Z.le_gt_cases (s + l) (run_start r)); [left; unfold DATA_BLOCK_SIZE in *; lia|].
  destruct (Z.le_gt_cases (run_start r + run_len r) s); [by right|].
  destruct (al_fresh _ _ _ _ Ha (Z.max s (run_start r))) as [Hf|Hf]; [unfold in_run; lia| |lia].
  destruct (Hu (Z.max s (run_start r))); [lia|done].
Qed.

Lemma block_allocate_spec f m n :
  bf_ok f m -> 0 < n -> capacity (bf_alloc f) + n <= 2 ^ 48 ->
  exists f' s bs, block_allocate n f = (Done {| run_start := s; run_len := n |}, f') /\
    bf_ok f' (<[s := bs]> m) /\ m !! s = None /\ zlen bs = n * DATA_BLOCK_SIZE /\ 0 <= s /\ s + n <= 2 ^ 48 /\
    capacity (bf_alloc f) <= capacity (bf_alloc f') <= capacity (bf_alloc f) + n.
Proof.
  intros H Hn Hc. pose proof (ak_capacity _ (bo_alloc _ _ H)) as Hcap. unfold fits in Hcap.
  destruct (allocate_spec (bf_alloc f) n (bo_alloc _ _ H) Hn ltac:(lia)) as (a' & r & E & Ha).
  pose proof Ha as [H1 Hl Hs He Hgrow Hfresh Hfree _ _]. subst n.
  set (n := run_len r) in *.
  unfold block_allocate, st_bind, on_alloc. rewrite E. cbn [bf_alloc].
  rewrite sync_len_run by (simpl; lia). cbn [bf_alloc backing st_ret].
  set (buf := backing_bytes (backing f)). set (len' := capacity a' * DATA_BLOCK_SIZE).
  assert (zlen (resize len' buf) = len') as Elen by (apply zlen_resize; unfold len', DATA_BLOCK_SIZE; lia).
  destruct (sub_some (resize len' buf) (run_start r * DATA_BLOCK_SIZE) ((run_start r + n) * DATA_BLOCK_SIZE))
    as [bs Hbs]; [unfold DATA_BLOCK_SIZE; lia|unfold len', DATA_BLOCK_SIZE in *; lia|].
  apply sub_stands in Hbs as [Hst Hend].
  assert (zlen bs = n * DATA_BLOCK_SIZE) as Ebs by lia.
  eexists _, (run_start r), bs. split; [by destruct r|].
  split; [|split; [|split; [done|split; [done|split; [lia|simpl; lia]]]]].
  - constructor; cbn [bf_alloc backing]; [done|lia|by rewrite set_len_bytes|..]; rewrite ?set_len_bytes; fold buf len'.
    + intros s bs' [[<- <-]|[Hne Hs']]%lookup_insert_Some.
      * exists n. split_and!; try done. intros b Hb Hf. apply Hfree in Hf as [_ Hf]. unfold in_run in Hf. lia.
      * destruct (bo_region _ _ H _ _ Hs') as (l & Hl & El & H0 & Hcl & Hst' & Hu). exists l.
        split; [done|]. split; [done|]. split; [done|]. split; [lia|]. split.
        -- apply resize_spec; [|done]. pose proof (bo_bytes _ _ H) as Hbb. fold buf in Hbb. unfold len', DATA_BLOCK_SIZE in *. lia.
        -- intros b Hb Hf. apply Hfree in Hf as [Hf _]. by apply (Hu b).
    + intros s1 b1 s2 b2 [[<- <-]|[Hn1 H1']]%lookup_insert_Some [[<- <-]|[Hn2 H2']]%lookup_insert_Some Hlt.
      * lia.
      * destruct (fresh_apart _ _ _ _ _ _ H Ha Hn H2') as [Hd|Hd]; [|fold n in Hd; unfold DATA_BLOCK_SIZE in *; lia].
        destruct (bo_region _ _ H _ _ H2') as (l & Hl & El & _). unfold DATA_BLOCK_SIZE in *. lia.
      * destruct (fresh_apart _ _ _ _ _ _ H Ha Hn H1') as [Hd|Hd]; [done|fold n in Hd; lia].
      * by eapply (bo_apart _ _ H).
  - destruct (m !! run_start r) as [b0|] eqn:E0; [|done].
    destruct (bo_region _ _ H _ _ E0) as (l & Hl & El & _).
    destruct (fresh_apart _ _ _ _ _ _ H Ha Hn E0) as [Hd|Hd]; [unfold DATA_BLOCK_SIZE in *; lia|fold n in Hd; lia].
Qed.

Lemma backing_write_spec o data b :
  0 <= o -> o + zlen data <= zlen (backing_bytes b) ->
  exists b', backing_write o data b = Done b' /\ put o data (backing_bytes b) = Some (backing_bytes b').
Proof.
  intros Ho Hl. destruct b as [v|v]; simpl in *.
  - rewrite put_some by done. by eexists.
  - replace (Z.max (zlen v) (o + zlen data)) with (zlen v) by lia.
    assert (resize (zlen v) v = v) as ->.
    { unfold resize. rewrite take_ge by (unfold zlen; lia). rewrite Z.sub_diag. apply app_nil_r. }
    rewrite put_some by done. by eexists.
Qed.

Lemma stands_put {A} (l : list A) a xs ys l' :
  stands l a ys -> put a xs l = Some l' -> (length xs <= length ys)%nat ->
  stands l' a (xs ++ drop (length xs) ys).
Proof.
  intros Hst Hp Hl. apply stands_app. split; [by eapply put_here|].
  rewrite <- (take_drop (length xs) ys) in Hst. apply stands_app in Hst as [_ Hst].
  assert (zlen (take (length xs) ys) = zlen xs) as E by (unfold zlen; rewrite length_take; lia).
  rewrite E in Hst. eapply put_other; [exact Hp|done|lia].
Qed.

Lemma write_run_spec f m r bs data :
  bf_ok f m -> m !! run_start r = Some bs -> zlen bs = run_len r * DATA_BLOCK_SIZE -> zlen data <= zlen bs ->
  exists f', write_run r data f = (Done tt, f') /\ bf_ok f' (<[run_start r := data ++ drop (length data) bs]> m) /\
    bf_alloc f' = bf_alloc f.
Proof.
  intros H Hs Er Hd. destruct (bo_region _ _ H _ _ Hs) as (l & Hl & El & H0 & Hc & Hst & Hu).
  pose proof (bo_limit _ _ H) as Hlim. pose proof (bo_bytes _ _ H) as Hb. assert (run_len r = l) as Elen by (unfold DATA_BLOCK_SIZE in *; lia).
  destruct (run_bytes r H0) as [Eo En]; [lia|lia|]. unfold write_run. rewrite En. cbn [obind].
  replace (run_len r * DATA_BLOCK_SIZE <? zlen data) with false by lia. rewrite Eo. cbn [obind].
  destruct (backing_write_spec (run_start r * DATA_BLOCK_SIZE) data (backing f)) as (b' & -> & Hput);
    [unfold DATA_BLOCK_SIZE; lia|unfold DATA_BLOCK_SIZE in *; lia|].
  assert (zlen (data ++ drop (length data) bs) = zlen bs) as Ez.
  { rewrite zlen_app. unfold zlen in *. rewrite length_drop. lia. }
  eexists. split; [done|]. split; [|done]. constructor; cbn [bf_alloc backing]; [apply H|done| |..].
  - rewrite (put_length _ _ _ _ Hput). done.
  - intros s' bs' [[<- <-]|[Hne Hs']]%lookup_insert_Some.
    + exists l. rewrite Ez. split_and!; try done. apply (stands_put (backing_bytes (backing f))); [done|done|unfold zlen in Hd; lia].
    + destruct (bo_region _ _ H _ _ Hs') as (l' & Hl' & El' & H0' & Hc' & Hst' & Hu').
      exists l'. split_and!; try done. eapply put_other; [exact Hput|done|].
      destruct (Z.lt_trichotomy s' (run_start r)) as [Hlt|[?|Hlt]]; [|done|].
      * left. by apply (bo_apart _ _ H _ _ _ _ Hs' Hs).
      * right. pose proof (bo_apart _ _ H _ _ _ _ Hs Hs' Hlt). lia.
  - intros s1 b1 s2 b2 H1 H2 Hlt.
    assert (forall s b, <[run_start r := data ++ drop (length data) bs]> m !! s = Some b ->
              exists b0, m !! s = Some b0 /\ zlen b0 = zlen b) as Hold.
    { intros s b [[<- <-]|[_ ?]]%lookup_insert_Some; eauto. }
    destruct (Hold _ _ H1) as (b1' & H1' & <-). destruct (Hold _ _ H2) as (b2' & H2' & _).
    by eapply (bo_apart _ _ H).
Qed.

Lemma read_run_spec f m r bs :
  bf_ok f m -> m !! run_start r = Some bs -> zlen bs = run_len r * DATA_BLOCK_SIZE ->
  read_run r f = (Done bs, f).
Proof.
  intros H Hs Er. destruct (bo_region _ _ H _ _ Hs) as (l & Hl & El & H0 & Hc & Hst & Hu).
  pose proof (bo_limit _ _ H) as Hlim. assert (run_len r = l) as Elen by (unfold DATA_BLOCK_SIZE in *; lia).
  destruct (run_bytes r H0) as [Eo En]; [lia|lia|]. unfold read_run. rewrite Eo. cbn [obind]. rewrite En. cbn [obind].
  assert (sub (run_start r * DATA_BLOCK_SIZE) (run_start r * DATA_BLOCK_SIZE + run_len r * DATA_BLOCK_SIZE)
            (backing_bytes (backing f)) = Some bs) as E.
  { apply sub_stands. split; [done|lia]. }
  unfold backing_read. by destruct (backing f); simpl in E; rewrite E.
Qed.

Lemma block_free_spec f m r bs :
  bf_ok f m -> m !! run_start r = Some bs -> zlen bs = run_len r * DATA_BLOCK_SIZE ->
  exists f', block_free r f = (Done tt, f') /\ bf_ok f' (delete (run_start r) m) /\
    backing f' = backing f /\ capacity (bf_alloc f') = capacity (bf_alloc f).
Proof.
  intros H Hs Er. destruct (bo_region _ _ H _ _ Hs) as (l & Hl & El & H0 & Hc & Hst & Hu).
  assert (run_len r = l) as Elen by (unfold DATA_BLOCK_SIZE in *; lia).
  destruct (free_spec (bf_alloc f) r (bo_alloc _ _ H)) as (a' & E & [H1 Hc1 Hf1]); [done|lia|lia| |].
  { intros b Hb. apply Hu. unfold in_run in Hb. lia. }
  unfold block_free, on_alloc. rewrite E. cbn [obind]. eexists. split; [done|]. split; [|done].
  constructor; cbn [bf_alloc backing]; rewrite ?Hc1; [done|apply H|apply H|..].
  - intros s bs' [Hne Hs']%lookup_delete_Some.
    destruct (bo_region _ _ H _ _ Hs') as (l' & Hl' & El' & H0' & Hc' & Hst' & Hu').
    exists l'. split_and!; try done. intros b Hb [Hf|Hin]%Hf1; [by apply (Hu' b)|].
    unfold in_run in Hin. destruct (Z.lt_trichotomy s (run_start r)) as [Hlt|[?|Hlt]]; [|done|].
    + pose proof (bo_apart _ _ H _ _ _ _ Hs' Hs Hlt). unfold DATA_BLOCK_SIZE in *. lia.
    + pose proof (bo_apart _ _ H _ _ _ _ Hs Hs' Hlt). unfold DATA_BLOCK_SIZE in *. lia.
  - intros ? ? ? ? [_ Ha]%lookup_delete_Some [_ Hb]%lookup_delete_Some. apply (bo_apart _ _ H _ _ _ _ Ha Hb).
Qed.

Lemma block_truncate_spec f m :
  bf_ok f m -> exists f' k, block_truncate f = (Done k, f') /\ bf_ok f' m /\ 0 <= k /\
    capacity (bf_alloc f') = capacity (bf_alloc f) - k.
Proof.
  intros H. destruct (truncate_spec _ (bo_alloc _ _ H)) as (a' & k & E & H1 & Hc1 & Hk & Hf1 & Hcut & _).
  pose proof (bo_limit _ _ H) as Hlim. pose proof (ak_capacity _ H1) as Hcap. unfold fits in Hcap.
  assert (forall s bs l, m !! s = Some bs -> zlen bs = l * DATA_BLOCK_SIZE -> s + l <= capacity a') as Hin.
  { intros s bs l Hs El. destruct (bo_region _ _ H _ _ Hs) as (l' & Hl & El' & H0 & Hc & _ & Hu).
    assert (l' = l) as -> by (unfold DATA_BLOCK_SIZE in *; lia).
    destruct (Z.le_gt_cases (s + l) (capacity a')) as [|Hgt]; [done|].
    destruct (Hu (s + l - 1)); [lia|apply Hcut; lia]. }
  assert (bf_ok {| bf_alloc := a'; backing := set_len (capacity a' * DATA_BLOCK_SIZE) (backing f) |} m) as Hok.
  { constructor; cbn [bf_alloc backing]; [done|lia|rewrite set_len_bytes; apply zlen_resize; unfold DATA_BLOCK_SIZE; lia| |apply H].
    intros s bs Hs. destruct (bo_region _ _ H _ _ Hs) as (l & Hl & El & H0 & Hc & Hst & Hu).
    pose proof (Hin _ _ _ Hs El). exists l. split_and!; try done.
    - rewrite set_len_bytes. apply resize_keeps; [done|]. rewrite El. unfold DATA_BLOCK_SIZE. lia.
    - intros b Hb [Hf _]%Hf1. by apply (Hu b). }
  unfold block_truncate, st_bind, on_alloc. rewrite E. destruct (Z.ltb_spec 0 k) as [Hlt|Hge].
  - rewrite sync_len_run by (simpl; lia). simpl. eexists _, k. by split.
  - assert (k = 0) as -> by lia. eexists _, 0. split; [done|]. cbn [bf_alloc]. split; [|done].
    destruct Hok as [? ? Hb ? ?]. cbn [bf_alloc backing] in *. destruct H. constructor; cbn [bf_alloc backing]; try done.
    + rewrite Hc1, Z.sub_0_r. done.
    + intros s bs Hs. destruct (bo_region1 _ _ Hs) as (l & Hl & El & H0 & Hc & Hst & Hu).
      exists l. rewrite Hc1, Z.sub_0_r. split_and!; try done. intros b Hb' [Hf _]%Hf1. by apply (Hu b).
Qed.

(** The used runs of a heap of regions, as a ledger lists them. *)
Definition lists_runs (used : list BlockRun) (m : Regions) : Prop :=
  NoDup used /\ forall r, r ∈ used <-> exists bs, m !! run_start r = Some bs /\ zlen bs = run_len r * DATA_BLOCK_SIZE.

(** Reopening on the same bytes with the runs in use finds the same regions. *)
Lemma block_open_spec f m used :
  bf_ok f m -> lists_runs used m ->
  exists f', block_open (backing_bytes (backing f)) used = Done f' /\ bf_ok f' m /\
    capacity (bf_alloc f') = capacity (bf_alloc f).
Proof.
  intros H [Hn Hu]. unfold block_open. rewrite (bo_bytes _ _ H), Z.div_mul by done.
  assert (forall r, r ∈ used -> exists bs, m !! run_start r = Some bs /\ zlen bs = run_len r * DATA_BLOCK_SIZE /\
    0 < run_len r /\ 0 <= run_start r /\ run_start r + run_len r <= capacity (bf_alloc f)) as Hrun.
  { intros r (bs & Hs & El)%Hu. destruct (bo_region _ _ H _ _ Hs) as (l & Hl & El' & H0 & Hc & _).
    assert (l = run_len r) as -> by (unfold DATA_BLOCK_SIZE in *; lia). by exists bs. }
  destruct (from_used_runs_spec (capacity (bf_alloc f)) used) as (a' & -> & H1 & Hc1 & Hf1).
  - apply H.
  - by apply NoDup_filter.
  - intros r Hr _. destruct (Hrun _ Hr) as (bs & _ & _ & _ & ? & ?). done.
  - intros r s Hr Hs _ _ Hne b Hb Hb'. unfold in_run in *.
    destruct (Hrun _ Hr) as (bs & E1 & El1 & _). destruct (Hrun _ Hs) as (bs' & E2 & El2 & _).
    destruct (Z.lt_trichotomy (run_start r) (run_start s)) as [Hlt|[E|Hlt]].
    + pose proof (bo_apart _ _ H _ _ _ _ E1 E2 Hlt). unfold DATA_BLOCK_SIZE in *. lia.
    + rewrite E, E2 in E1. injection E1 as ->. apply Hne. destruct r, s; simpl in *. f_equal; [done|].
      unfold DATA_BLOCK_SIZE in *. lia.
    + pose proof (bo_apart _ _ H _ _ _ _ E2 E1 Hlt). unfold DATA_BLOCK_SIZE in *. lia.
  - cbn [obind]. eexists. split; [done|]. split; [|done]. destruct H. constructor; cbn [bf_alloc backing]; try done.
    + by rewrite Hc1.
    + by rewrite Hc1.
    + intros s bs Hs. destruct (bo_region0 _ _ Hs) as (l & Hl & El & H0 & Hc & Hst & _).
      exists l. rewrite Hc1. split_and!; try done. intros b Hb [_ Hf]%Hf1.
      apply (Hf {| run_start := s; run_len := l |}); [|unfold in_run; simpl; lia].
      apply Hu. exists bs. simpl. by rewrite El.
Qed.

Lemma block_new_ok b : backing_bytes b = [] -> bf_ok {| bf_alloc := alloc_new; backing := b |} ∅.
Proof.
  intros Hb. constructor; simpl; [apply (new_ok 0); done|done|by rewrite Hb|..].
  - by intros ? ? ?%lookup_empty_Some.
  - by intros ? ? ? ? ?%lookup_empty_Some.
Qed.
