(* ===== verification/PageDir.v ===== *)
(** * Page descriptors (wavedb-storage: file/page_dir.rs)

    One [u64] per page of a directory: where the page is, how long, how full. *)
From S2P Require Import Prelude Ordered Wire Errors BlockAlloc Hash.

Abbreviation PageDescriptor := Z.

Definition START_BLOCK_BITS : Z := 48.
Definition BLOCK_COUNT_BITS : Z := 8.
Definition OCCUPATION_BITS : Z := 6.
Definition OCC_SHIFT : Z := 2.
Definition COUNT_SHIFT : Z := OCC_SHIFT + OCCUPATION_BITS.
Definition START_SHIFT : Z := COUNT_SHIFT + BLOCK_COUNT_BITS.
Definition OCC_MASK : Z := Z.shiftl 1 OCCUPATION_BITS - 1.
Definition COUNT_MASK : Z := Z.shiftl 1 BLOCK_COUNT_BITS - 1.
Definition START_MASK : Z := Z.shiftl 1 START_BLOCK_BITS - 1.
Definition FLAGS_MASK : Z := Z.shiftl 1 OCC_SHIFT - 1.
Definition IN_JOURNAL_MASK : Z := Z.shiftl 1 1.
Definition IN_MEMORY_MASK : Z := Z.shiftl 1 0.
Definition MAX_START_BLOCK : Z := START_MASK.
Definition MAX_BLOCK_COUNT : Z := 255.
Definition OCCUPATION_SCALE : Z := Z.shiftl 1 OCCUPATION_BITS.
Definition MAX_OCCUPATION : Z := Z.shiftl 1 OCCUPATION_BITS - 1.

Definition DESC_EMPTY : PageDescriptor := 0.

(** [!x] of a [u64]. *)
Definition not64 (x : Z) : Z := Z.lxor (Z.ones 64) x.

Definition desc_new (start_block block_count occupation : Z) : StorageResult PageDescriptor :=
  do* guard (start_block <=? MAX_START_BLOCK) in
  do* guard (occupation <=? MAX_OCCUPATION) in
  Done (Z.lor (Z.lor (wrap 64 (Z.shiftl start_block START_SHIFT)) (Z.shiftl block_count COUNT_SHIFT))
              (Z.shiftl occupation OCC_SHIFT)).

Definition desc_from_run (r : BlockRun) (occupation : Z) : StorageResult PageDescriptor :=
  do* guard (run_len r <=? MAX_BLOCK_COUNT) in
  desc_new (run_start r) (wrap 8 (run_len r)) occupation.

Definition start_block (d : PageDescriptor) : Z := Z.land (Z.shiftr d START_SHIFT) START_MASK.
Definition block_count (d : PageDescriptor) : Z := wrap 8 (Z.land (Z.shiftr d COUNT_SHIFT) COUNT_MASK).
Definition occupation (d : PageDescriptor) : Z := wrap 8 (Z.land (Z.shiftr d OCC_SHIFT) OCC_MASK).
Definition is_in_journal (d : PageDescriptor) : bool := negb (Z.land d IN_JOURNAL_MASK =? 0).
Definition is_in_memory (d : PageDescriptor) : bool := negb (Z.land d IN_MEMORY_MASK =? 0).

Definition with_in_journal (on : bool) (d : PageDescriptor) : PageDescriptor :=
  if on then Z.lor d IN_JOURNAL_MASK else Z.land d (not64 IN_JOURNAL_MASK).

Definition with_in_memory (on : bool) (d : PageDescriptor) : PageDescriptor :=
  if on then Z.lor d IN_MEMORY_MASK else Z.land d (not64 IN_MEMORY_MASK).

Definition journal_addr (d : PageDescriptor) : Z := start_block d.
Definition is_allocated (d : PageDescriptor) : bool := negb (block_count d =? 0).
Definition desc_run (d : PageDescriptor) : BlockRun :=
  {| run_start := start_block d; run_len := block_count d |}.

Definition with_occupation (occ : Z) (d : PageDescriptor) : StorageResult PageDescriptor :=
  do* guard (occ <=? MAX_OCCUPATION) in
  Done (Z.lor (Z.land d (not64 (Z.shiftl OCC_MASK OCC_SHIFT))) (Z.shiftl occ OCC_SHIFT)).

Definition with_run (r : BlockRun) (d : PageDescriptor) : StorageResult PageDescriptor :=
  do* guard (run_len r <=? MAX_BLOCK_COUNT) in
  do* guard (run_start r <=? MAX_START_BLOCK) in
  let keep := Z.land d (Z.lor (Z.shiftl OCC_MASK OCC_SHIFT) FLAGS_MASK) in
  Done (Z.lor (Z.lor (wrap 64 (Z.shiftl (run_start r) START_SHIFT)) (Z.shiftl (run_len r) COUNT_SHIFT)) keep).

(** The occupation gauge: sixty-fourths, saturating. *)
Definition occupation_for (used_bytes total_bytes : Z) : Z :=
  if total_bytes =? 0 then 0
  else
    let q := Z.min (used_bytes * OCCUPATION_SCALE) (2 ^ 64 - 1) / total_bytes in
    wrap 8 (Z.min q MAX_OCCUPATION).

(** ** The fields of a descriptor *)

Definition field (k w d : Z) : Z := Z.land (Z.shiftr d k) (Z.ones w).

(** The descriptor of five fields. *)
Definition desc_of (s c o j m : Z) : Z := s * 2 ^ 16 + c * 2 ^ 8 + o * 2 ^ 2 + j * 2 + m.

Record desc_fields_ok (s c o j m : Z) : Prop := {
  df_s : fits 48 s; df_c : fits 8 c; df_o : fits 6 o; df_j : fits 1 j; df_m : fits 1 m
}.

Lemma desc_split d : fits 64 d ->
  exists s c o j m, desc_fields_ok s c o j m /\ d = desc_of s c o j m.
Proof.
  intros H. exists (d / 2 ^ 16), (d / 2 ^ 8 mod 2 ^ 8), (d / 2 ^ 2 mod 2 ^ 6), (d / 2 mod 2), (d mod 2).
  unfold desc_of, fits in *. split; [constructor; unfold fits|]; Z.to_euclidean_division_equations; lia.
Qed.

Lemma desc_view s c o j m :
  desc_fields_ok s c o j m -> let d := desc_of s c o j m in
  fits 64 d /\ start_block d = s /\ block_count d = c /\ occupation d = o /\
  is_in_journal d = (j =? 1) /\ is_in_memory d = (m =? 1).
Proof.
  intros [Hs Hc Ho Hj Hm] d.
  assert (forall k w, 0 <= k -> 0 <= w -> Z.land (Z.shiftr d k) (Z.shiftl 1 w - 1) = d / 2 ^ k mod 2 ^ w) as Hf.
  { intros k w Hk Hw. rewrite Z.shiftl_mul_pow2, Z.mul_1_l, ones_pred, Z.land_ones, Z.shiftr_div_pow2 by lia. done. }
  assert (forall k, 0 <= k -> negb (Z.land d (Z.shiftl 1 k) =? 0) = (d / 2 ^ k mod 2 =? 1)) as Hb.
  { intros k Hk. rewrite Z.shiftl_mul_pow2, Z.mul_1_l by lia.
    assert (Z.land d (2 ^ k) = if Z.testbit d k then 2 ^ k else 0) as ->.
    { apply Z.bits_inj'. intros n Hn. rewrite Z.land_spec. destruct (decide (n = k)) as [->|Hne].
      - rewrite Z.pow2_bits_true by lia. destruct (Z.testbit d k); [by rewrite Z.pow2_bits_true|by rewrite Z.bits_0].
      - rewrite Z.pow2_bits_false by lia. rewrite andb_false_r.
        destruct (Z.testbit d k); [by rewrite Z.pow2_bits_false by lia|by rewrite Z.bits_0]. }
    rewrite Z.testbit_eqb by lia. destruct (_ mod 2 =? 1); [|done].
    pose proof (Z.pow_pos_nonneg 2 k ltac:(lia) Hk). lia. }
  unfold start_block, block_count, occupation, is_in_journal, is_in_memory, START_MASK, COUNT_MASK, OCC_MASK,
    IN_JOURNAL_MASK, IN_MEMORY_MASK. rewrite !Hf, !Hb by done. unfold d, desc_of, wrap, fits in *. clear Hf Hb d.
  change START_SHIFT with 16. change START_BLOCK_BITS with 48. change COUNT_SHIFT with 8.
  change BLOCK_COUNT_BITS with 8. change OCC_SHIFT with 2. change OCCUPATION_BITS with 6.
  split_and!; try (Z.to_euclidean_division_equations; lia); f_equal; Z.to_euclidean_division_equations; lia.
Qed.

(** The bits of a number cut in three. *)
Lemma bits3 hi mid lo k w n :
  0 <= k -> 0 <= w -> 0 <= hi -> fits w mid -> fits k lo -> 0 <= n ->
  Z.testbit (hi * 2 ^ (k + w) + mid * 2 ^ k + lo) n =
    if n <? k then Z.testbit lo n else if n <? k + w then Z.testbit mid (n - k) else Z.testbit hi (n - (k + w)).
Proof.
  intros Hk Hw Hh Hm Hl Hn. rewrite Z.pow_add_r by done.
  replace (hi * (2 ^ k * 2 ^ w) + mid * 2 ^ k + lo) with ((hi * 2 ^ w + mid) * 2 ^ k + lo) by ring.
  rewrite <- !lor_shiftl_low, !Z.lor_spec, !Z.shiftl_spec, !Z.lor_spec by done.
  assert (forall x m, 0 <= m -> fits m x -> forall i, m <= i -> Z.testbit x i = false) as Hhigh.
  { intros x m H0 Hx i Hi. rewrite Z.testbit_eqb, Z.div_small; [done| |lia]. unfold fits in Hx.
    pose proof (Z.pow_le_mono_r 2 m i). lia. }
  destruct (Z.ltb_spec n k); [by rewrite !(Z.testbit_neg_r _ (n - k)) by lia|].
  rewrite (Hhigh lo k) by done. rewrite orb_false_r. rewrite Z.shiftl_spec by lia.
  destruct (Z.ltb_spec n (k + w)).
  - by rewrite (Z.testbit_neg_r _ (n - k - w)) by lia.
  - rewrite (Hhigh mid w) by (done || lia). rewrite orb_false_r. f_equal. lia.
Qed.

(** Clearing the middle field, then writing it. *)
Lemma clear_field hi mid lo k w :
  0 <= k -> 0 <= w -> fits (64 - (k + w)) hi -> fits w mid -> fits k lo -> k + w <= 64 ->
  Z.land (hi * 2 ^ (k + w) + mid * 2 ^ k + lo) (not64 (Z.shiftl (Z.ones w) k)) = hi * 2 ^ (k + w) + 0 * 2 ^ k + lo.
Proof.
  intros Hk Hw Hh Hm Hl Hs. assert (0 <= hi) by (unfold fits in Hh; lia).
  assert (fits w 0) by (split; [lia|]; by apply Z.pow_pos_nonneg).
  apply Z.bits_inj'. intros n Hn. unfold not64. rewrite Z.land_spec, !bits3 by done.
  rewrite Z.lxor_spec, Z.shiftl_spec by done.
  destruct (Z.ltb_spec n k) as [H1|H1].
  { rewrite (Z.testbit_neg_r (Z.ones w)), Z.ones_spec_low by lia. by rewrite andb_true_r. }
  destruct (Z.ltb_spec n (k + w)) as [H2|H2].
  { rewrite !Z.ones_spec_low by lia. rewrite Z.bits_0. by rewrite andb_false_r. }
  rewrite (Z.ones_spec_high w) by lia. destruct (Z.ltb_spec n 64).
  - rewrite Z.ones_spec_low by lia. by rewrite andb_true_r.
  - rewrite Z.ones_spec_high by lia. rewrite andb_false_r. unfold fits in Hh.
    rewrite Z.testbit_eqb, Z.div_small; [done| |lia].
    pose proof (Z.pow_le_mono_r 2 (64 - (k + w)) (n - (k + w))). lia.
Qed.

Lemma write_field hi mid v lo k w :
  0 <= k -> 0 <= w -> 0 <= hi -> fits w mid -> fits w v -> fits k lo -> (forall i, 0 <= i -> Z.testbit mid i = true -> Z.testbit v i = true) ->
  Z.lor (hi * 2 ^ (k + w) + mid * 2 ^ k + lo) (Z.shiftl v k) = hi * 2 ^ (k + w) + v * 2 ^ k + lo.
Proof.
  intros Hk Hw Hh Hm Hv Hl Hi. apply Z.bits_inj'. intros n Hn. rewrite Z.lor_spec, !bits3, Z.shiftl_spec by done.
  destruct (Z.ltb_spec n k) as [H1|H1]; [by rewrite (Z.testbit_neg_r v), orb_false_r by lia|].
  destruct (Z.ltb_spec n (k + w)) as [H2|H2].
  - specialize (Hi (n - k) ltac:(lia)). destruct (Z.testbit mid (n - k)); [by rewrite Hi|done].
  - unfold fits in Hv. rewrite (Z.testbit_eqb v), Z.div_small; [apply orb_false_r| |lia].
    pose proof (Z.pow_le_mono_r 2 w (n - k)). lia.
Qed.

(** *** What each constructor and each setter writes *)

Lemma desc_new_spec s c o :
  fits 48 s -> fits 8 c -> fits 6 o -> desc_new s c o = Done (desc_of s c o 0 0).
Proof.
  intros Hs Hc Ho. unfold desc_new, MAX_START_BLOCK, MAX_OCCUPATION, START_MASK.
  change (Z.shiftl 1 START_BLOCK_BITS - 1) with (2 ^ 48 - 1). change (Z.shiftl 1 OCCUPATION_BITS - 1) with (2 ^ 6 - 1).
  replace (s <=? 2 ^ 48 - 1) with true by (unfold fits in *; lia).
  replace (o <=? 2 ^ 6 - 1) with true by (unfold fits in *; lia). cbn [guard obind].
  rewrite wrap_small; [|unfold fits in *; rewrite Z.shiftl_mul_pow2 by done; change START_SHIFT with 16; lia].
  rewrite (Z.shiftl_mul_pow2 s), (Z.shiftl_mul_pow2 c) by done. f_equal. unfold desc_of.
  change START_SHIFT with 16. change COUNT_SHIFT with 8. change OCC_SHIFT with 2.
  pose proof (write_field s 0 c 0 8 8 ltac:(done) ltac:(done) ltac:(unfold fits in *; lia) ltac:(done) Hc ltac:(done)) as E.
  rewrite Z.shiftl_mul_pow2 in E by done. change (8 + 8) with 16 in E. rewrite !Z.add_0_r in E.
  rewrite E by (intros i _; by rewrite Z.bits_0).
  pose proof (write_field (s * 2 ^ 8 + c) 0 o 0 2 6 ltac:(done) ltac:(done) ltac:(unfold fits in *; lia) ltac:(done) Ho ltac:(done)) as E2.
  change (2 + 6) with 8 in E2. replace (s * 2 ^ 16 + c * 2 ^ 8) with ((s * 2 ^ 8 + c) * 2 ^ 8 + 0 * 2 ^ 2 + 0) by lia.
  rewrite E2 by (intros i _; by rewrite Z.bits_0). lia.
Qed.

Lemma desc_from_run_spec r o :
  fits 48 (run_start r) -> fits 8 (run_len r) -> fits 6 o ->
  desc_from_run r o = Done (desc_of (run_start r) (run_len r) o 0 0).
Proof.
  intros Hs Hl Ho. unfold desc_from_run, MAX_BLOCK_COUNT. replace (run_len r <=? 255) with true by (unfold fits in *; lia).
  cbn [guard obind]. rewrite (wrap_small 8) by done. by apply desc_new_spec.
Qed.

Lemma with_occupation_spec s c o j m v :
  desc_fields_ok s c o j m -> fits 6 v -> with_occupation v (desc_of s c o j m) = Done (desc_of s c v j m).
Proof.
  intros [Hs Hc Ho Hj Hm] Hv. unfold with_occupation, MAX_OCCUPATION.
  change (Z.shiftl 1 OCCUPATION_BITS - 1) with (2 ^ 6 - 1). replace (v <=? 2 ^ 6 - 1) with true by (unfold fits in *; lia).
  cbn [guard obind]. f_equal. change OCC_MASK with (Z.ones 6). change OCC_SHIFT with 2.
  replace (desc_of s c o j m) with ((s * 2 ^ 8 + c) * 2 ^ (2 + 6) + o * 2 ^ 2 + (j * 2 + m)) by (unfold desc_of; lia).
  rewrite clear_field by (unfold fits in *; lia).
  rewrite write_field; [unfold desc_of; lia|unfold fits in *; lia..|]. intros i _. by rewrite Z.bits_0.
Qed.

Lemma with_in_journal_spec s c o j m on :
  desc_fields_ok s c o j m -> with_in_journal on (desc_of s c o j m) = desc_of s c o (Z.b2z on) m.
Proof.
  intros [Hs Hc Ho Hj Hm]. unfold with_in_journal. change IN_JOURNAL_MASK with (Z.shiftl 1 1).
  replace (desc_of s c o j m) with ((s * 2 ^ 14 + c * 2 ^ 6 + o) * 2 ^ (1 + 1) + j * 2 ^ 1 + m) by (unfold desc_of; lia).
  destruct on; simpl Z.b2z.
  - rewrite write_field; [unfold desc_of; lia|unfold fits in *; lia..|]. intros i Hi Hb.
    assert (j = 0 \/ j = 1) as [->| ->] by (unfold fits in Hj; lia); [by rewrite Z.bits_0 in Hb|done].
  - change (Z.shiftl 1 1) with (Z.shiftl (Z.ones 1) 1). rewrite clear_field by (unfold fits in *; lia). unfold desc_of. lia.
Qed.

Lemma with_in_memory_spec s c o j m on :
  desc_fields_ok s c o j m -> with_in_memory on (desc_of s c o j m) = desc_of s c o j (Z.b2z on).
Proof.
  intros [Hs Hc Ho Hj Hm]. unfold with_in_memory. change IN_MEMORY_MASK with (Z.shiftl 1 0).
  replace (desc_of s c o j m) with ((s * 2 ^ 15 + c * 2 ^ 7 + o * 2 + j) * 2 ^ (0 + 1) + m * 2 ^ 0 + 0) by (unfold desc_of; lia).
  destruct on; simpl Z.b2z.
  - rewrite write_field; [unfold desc_of; lia|unfold fits in *; lia..|]. intros i Hi Hb.
    assert (m = 0 \/ m = 1) as [->| ->] by (unfold fits in Hm; lia); [by rewrite Z.bits_0 in Hb|done].
  - change (Z.shiftl 1 0) with (Z.shiftl (Z.ones 1) 0). rewrite clear_field by (unfold fits in *; lia). unfold desc_of. lia.
Qed.

Lemma with_run_spec s c o j m r :
  desc_fields_ok s c o j m -> fits 48 (run_start r) -> fits 8 (run_len r) ->
  with_run r (desc_of s c o j m) = Done (desc_of (run_start r) (run_len r) o j m).
Proof.
  intros [Hs Hc Ho Hj Hm] Hs' Hl. unfold with_run, MAX_BLOCK_COUNT, MAX_START_BLOCK, START_MASK.
  change (Z.shiftl 1 START_BLOCK_BITS - 1) with (2 ^ 48 - 1).
  replace (run_len r <=? 255) with true by (unfold fits in *; lia).
  replace (run_start r <=? 2 ^ 48 - 1) with true by (unfold fits in *; lia). cbn [guard obind]. f_equal.
  change (Z.lor (Z.shiftl OCC_MASK OCC_SHIFT) FLAGS_MASK) with (Z.ones 8). rewrite Z.land_ones by done.
  rewrite wrap_small; [|unfold fits in *; rewrite Z.shiftl_mul_pow2 by done; change START_SHIFT with 16; lia].
  assert (desc_of s c o j m mod 2 ^ 8 = o * 4 + j * 2 + m) as ->.
  { unfold desc_of. symmetry. apply (Z.mod_unique_pos _ _ (s * 2 ^ 8 + c)); unfold fits in *; lia. }
  change START_SHIFT with (8 + 8). change COUNT_SHIFT with 8. rewrite <- Z.shiftl_shiftl by done.
  rewrite <- Z.shiftl_lor. rewrite !lor_shiftl_low by (done || (unfold fits in *; lia)). unfold desc_of. lia.
Qed.

Lemma occupation_for_fits u t : fits 64 u -> 0 <= t -> fits 6 (occupation_for u t).
Proof.
  intros Hu Ht. unfold occupation_for. destruct (Z.eqb_spec t 0); [done|].
  change OCCUPATION_SCALE with 64. change MAX_OCCUPATION with 63.
  assert (0 <= Z.min (u * 64) (2 ^ 64 - 1) / t) by (apply Z.div_pos; unfold fits in *; lia).
  rewrite wrap_small; unfold fits; lia.
Qed.

(** The gauge is monotone in the bytes used: a fuller page never reads emptier. *)
Lemma occupation_for_mono u v t : fits 64 u -> fits 64 v -> 0 < t -> u <= v -> occupation_for u t <= occupation_for v t.
Proof.
  intros Hu Hv Ht Huv. unfold occupation_for. replace (t =? 0) with false by lia.
  change OCCUPATION_SCALE with 64. change MAX_OCCUPATION with 63.
  assert (0 <= Z.min (u * 64) (2 ^ 64 - 1) / t <= Z.min (v * 64) (2 ^ 64 - 1) / t).
  { split; [apply Z.div_pos|apply Z.div_le_mono]; unfold fits in *; lia. }
  rewrite !wrap_small by (unfold fits; lia). lia.
Qed.

(** ** Properties *)

(** C33: a page descriptor packs its start block (48 bits), block count (8), occupation
    (6) and two flags without interference: [from_run] writes exactly the run and the
    gauge with both flags clear; on any 64-bit word [with_run], [with_occupation],
    [with_in_journal] and [with_in_memory] succeed, change their own fields and keep
    every other one; and two words with the same fields are the same word. *)
Theorem descriptor_fields d e r v on :
  fits 64 d -> fits 64 e -> fits 48 (run_start r) -> fits 8 (run_len r) -> fits 6 v ->
  (exists d', desc_from_run r v = Done d' /\ desc_run d' = r /\ occupation d' = v /\
     is_in_journal d' = false /\ is_in_memory d' = false) /\
  (exists d', with_run r d = Done d' /\ desc_run d' = r /\ occupation d' = occupation d /\
     is_in_journal d' = is_in_journal d /\ is_in_memory d' = is_in_memory d) /\
  (exists d', with_occupation v d = Done d' /\ desc_run d' = desc_run d /\ occupation d' = v /\
     is_in_journal d' = is_in_journal d /\ is_in_memory d' = is_in_memory d) /\
  (desc_run (with_in_journal on d) = desc_run d /\ occupation (with_in_journal on d) = occupation d /\
     is_in_journal (with_in_journal on d) = on /\ is_in_memory (with_in_journal on d) = is_in_memory d) /\
  (desc_run (with_in_memory on d) = desc_run d /\ occupation (with_in_memory on d) = occupation d /\
     is_in_journal (with_in_memory on d) = is_in_journal d /\ is_in_memory (with_in_memory on d) = on) /\
  (desc_run d = desc_run e -> occupation d = occupation e -> is_in_journal d = is_in_journal e ->
     is_in_memory d = is_in_memory e -> d = e).
Proof.
  intros (s & c & o & j & m & Hd & ->)%desc_split (s' & c' & o' & j' & m' & He & ->)%desc_split Hs Hl Hv.
  pose proof Hd as [? ? ? Hj Hm]. pose proof He as [? ? ? Hj' Hm']. destruct r as [rs rl]. simpl in Hs, Hl.
  assert (fits 1 (Z.b2z on)) by by destruct on.
  assert (forall s c o j m, desc_fields_ok s c o j m -> desc_run (desc_of s c o j m) = {| run_start := s; run_len := c |} /\
    occupation (desc_of s c o j m) = o /\ is_in_journal (desc_of s c o j m) = (j =? 1) /\
    is_in_memory (desc_of s c o j m) = (m =? 1)) as Hview.
  { intros ? ? ? ? ? (_ & ? & ? & ? & ? & ?)%desc_view. unfold desc_run. by split_and!; [f_equal|..]. }
  assert (forall b, (Z.b2z b =? 1) = b) as Hb by (by intros []).
  destruct (Hview _ _ _ _ _ Hd) as (-> & -> & -> & ->). destruct (Hview _ _ _ _ _ He) as (-> & -> & -> & ->).
  rewrite desc_from_run_spec, with_run_spec, with_occupation_spec, with_in_journal_spec, with_in_memory_spec by done. simpl.
  refine (conj _ (conj _ (conj _ (conj _ (conj _ _))))); try (eexists; split; [done|]).
  6: { intros [= <- <-] <- Ej Em. unfold fits in *. f_equal; lia. }
  all: match goal with |- context [desc_of ?s ?c ?o ?j ?m] =>
         destruct (Hview s c o j m) as (-> & -> & -> & ->); [by constructor|by rewrite ?Hb]
       end.
Qed.

Lemma descriptor_fields_witness :
  fits 64 (2 ^ 40 + 7) /\ exists d', with_occupation 20 (2 ^ 40 + 7) = Done d' /\ desc_run d' = desc_run (2 ^ 40 + 7) /\
    occupation d' = 20 /\ is_in_journal d' = is_in_journal (2 ^ 40 + 7) /\ is_in_memory d' = is_in_memory (2 ^ 40 + 7).
Proof.
  split; [by vm_compute|].
  by apply (descriptor_fields (2 ^ 40 + 7) (2 ^ 40 + 7) {| run_start := 5; run_len := 3 |} 20 true).
Defined.
