(* ===== verification/Regions.v ===== *)
(** * Specifications over disjoint regions

    The layers above the block device each own some regions of it.  A triple says
    what an operation does to the regions it owns, and that it leaves every other
    region alone; [parts] splits a heap of regions between several owners. *)
From S2P Require Import Prelude Ordered Wire Errors BlockAlloc BlockAllocOk BlockFile.

(** ** Operations of an object that holds no file, on a file *)

Definition on_file {S A} (m : BF A) : ST (S * BlockFile) StorageError A :=
  fun '(s, f) => let '(r, f) := m f in (r, (s, f)).

Definition on_self {S A} (m : ST S StorageError A) : ST (S * BlockFile) StorageError A :=
  fun '(s, f) => let '(r, s) := m s in (r, (s, f)).

(** What an operation did to the space in use, in order. *)
Inductive Event : Type := Took (r : BlockRun) | Gave (r : BlockRun).

Definition replay_event (L : gmap Z Z) (e : Event) : gmap Z Z :=
  match e with
  | Took r => <[run_start r := run_len r]> L
  | Gave r => delete (run_start r) L
  end.

Definition replay_events (log : list Event) (L : gmap Z Z) : gmap Z Z := foldl replay_event L log.

(** The runs in use: start to length in blocks. *)
Definition lens (m : Regions) : gmap Z Z := (fun bs => zlen bs / DATA_BLOCK_SIZE) <$> m.

(** From the start [s], owning [x] and growing the file by [n] blocks at most,
    [op] ends in the result, the object, the regions and the events that [Q]
    describes; the events account for the change of the space in use. *)
Definition triple {S A} (s : S) (x : Regions) (op : ST (S * BlockFile) StorageError A) (n : Z)
    (Q : outcome StorageError A -> S -> Regions -> list Event -> Prop) : Prop :=
  forall f mf, bf_ok f (x ∪ mf) -> x ##ₘ mf -> capacity_blocks f + n <= 2 ^ 48 ->
  exists r s' f' x' log, op (s, f) = (r, (s', f')) /\ bf_ok f' (x' ∪ mf) /\ x' ##ₘ mf /\
    capacity_blocks f <= capacity_blocks f' <= capacity_blocks f + n /\
    lens (x' ∪ mf) = replay_events log (lens (x ∪ mf)) /\ Q r s' x' log.

(** A post-condition of the normal return. *)
Definition returns {S A} (Q : A -> S -> Regions -> list Event -> Prop)
    (r : outcome StorageError A) (s : S) (x : Regions) (log : list Event) : Prop :=
  match r with Done a => Q a s x log | _ => False end.

(** The post-condition of what follows the events [log]. *)
Definition after {S A} (log : list Event) (Q : outcome StorageError A -> S -> Regions -> list Event -> Prop) :=
  fun r s x log' => Q r s x (log ++ log').

Lemma replay_events_app l1 l2 L : replay_events (l1 ++ l2) L = replay_events l2 (replay_events l1 L).
Proof. apply foldl_app. Qed.

Section rules.
Context {S : Type}.
Implicit Types (s : S) (x y : Regions) (n : Z) (log : list Event).

Lemma triple_weaken {A} s x (op : ST (S * BlockFile) StorageError A) n n' Q Q' :
  triple s x op n Q -> n <= n' -> (forall r s' x' l, Q r s' x' l -> Q' r s' x' l) -> triple s x op n' Q'.
Proof.
  intros H Hn HQ f mf Hf Hd Hc. destruct (H f mf Hf Hd ltac:(lia)) as (r & s' & f' & x' & l & ? & ? & ? & ? & ? & ?).
  exists r, s', f', x', l. split_and!; auto; lia.
Qed.

Lemma triple_steps {A} s x (op : ST (S * BlockFile) StorageError A) n n' Q :
  triple s x op n Q -> n <= n' -> triple s x op n' Q.
Proof. intros H Hn. by eapply triple_weaken; [exact H|done|]. Qed.

Lemma triple_lift {A} s x (o : outcome StorageError A) (Q : _ -> _ -> _ -> _ -> Prop) : Q o s x [] -> triple s x (st_lift o) 0 Q.
Proof. intros H f mf Hf Hd Hc. exists o, s, f, x, []. split_and!; try done; lia. Qed.

Lemma triple_ret {A} s x (a : A) (Q : _ -> _ -> _ -> _ -> Prop) : Q (Done a) s x [] -> triple s x (st_ret a) 0 Q.
Proof. apply (triple_lift s x (Done a)). Qed.

Lemma triple_self {A} s x (m : ST S StorageError A) (Q : _ -> _ -> _ -> _ -> Prop) :
  Q (m s).1 (m s).2 x [] -> triple s x (on_self m) 0 Q.
Proof.
  intros H f mf Hf Hd Hc. unfold on_self. destruct (m s) as [r s'] eqn:E. exists r, s', f, x, []. split_and!; try done; lia.
Qed.

Lemma triple_bind {A B} s x (op : ST (S * BlockFile) StorageError A) (k : A -> ST (S * BlockFile) StorageError B) n1 n2 Q
    (R : _ -> _ -> _ -> _ -> Prop) :
  triple s x op n1 Q -> 0 <= n2 ->
  (forall r s' x' l, Q r s' x' l -> match r with
     | Done a => triple s' x' (k a) n2 (after l R)
     | Fail e => R (Fail e) s' x' l
     | Fault => R Fault s' x' l
     end) ->
  triple s x (st_bind op k) (n1 + n2) R.
Proof.
  intros H Hn HQ f mf Hf Hd Hc. destruct (H f mf Hf Hd ltac:(lia)) as (r & s' & f' & x' & l & E & Hf' & Hd' & Hc' & Hl & Hq).
  unfold st_bind. rewrite E. specialize (HQ _ _ _ _ Hq). destruct r as [a|e|].
  - destruct (HQ f' mf Hf' Hd' ltac:(lia)) as (r2 & s2 & f2 & x2 & l2 & E2 & ? & ? & ? & Hl2 & ?).
    exists r2, s2, f2, x2, (l ++ l2). rewrite replay_events_app, <- Hl, <- Hl2. split_and!; try done; lia.
  - exists (Fail e), s', f', x', l. split_and!; try done; lia.
  - exists Fault, s', f', x', l. split_and!; try done; lia.
Qed.

(** The case of an operation that always returns. *)
Lemma triple_seq {A B} s x (op : ST (S * BlockFile) StorageError A) (k : A -> ST (S * BlockFile) StorageError B) n1 n2 Q R :
  triple s x op n1 (returns Q) -> 0 <= n2 ->
  (forall a s' x' l, Q a s' x' l -> triple s' x' (k a) n2 (after l R)) ->
  triple s x (st_bind op k) (n1 + n2) R.
Proof. intros H Hn HQ. eapply triple_bind; [exact H|done|]. intros [a|e|] s' x' l; simpl; [apply HQ|done|done]. Qed.

(** Steps that use no block. *)
Lemma triple_step {A B} s x (op : ST (S * BlockFile) StorageError A) (k : A -> ST (S * BlockFile) StorageError B) n Q R :
  triple s x op 0 (returns Q) -> 0 <= n ->
  (forall a s' x' l, Q a s' x' l -> triple s' x' (k a) n (after l R)) ->
  triple s x (st_bind op k) n R.
Proof. intros. replace n with (0 + n) by lia. by eapply triple_seq. Qed.

Lemma triple_done {A B} s x (o : outcome StorageError A) a (k : A -> ST (S * BlockFile) StorageError B) n R :
  o = Done a -> triple s x (k a) n R -> triple s x (st_bind (st_lift o) k) n R.
Proof. intros -> H f mf. apply (H f mf). Qed.

Lemma triple_fail {A B} s x (o : outcome StorageError A) e (k : A -> ST (S * BlockFile) StorageError B) n
    (R : _ -> _ -> _ -> _ -> Prop) :
  o = Fail e -> 0 <= n -> R (Fail e) s x [] -> triple s x (st_bind (st_lift o) k) n R.
Proof. intros -> Hn H f mf Hf Hd Hc. exists (Fail e), s, f, x, []. split_and!; try done; lia. Qed.

Lemma triple_gets {A B} s x (g : S -> A) (k : A -> ST (S * BlockFile) StorageError B) n R :
  triple s x (k (g s)) n R -> triple s x (st_bind (on_self (st_gets g)) k) n R.
Proof. intros H f mf. apply (H f mf). Qed.

Lemma triple_modify {B} s x (g : S -> S) (k : unit -> ST (S * BlockFile) StorageError B) n R :
  triple (g s) x (k tt) n R -> triple s x (st_bind (on_self (st_modify g)) k) n R.
Proof. intros H f mf. apply (H f mf). Qed.

(** What is owned and not touched is kept. *)
Lemma triple_frame {A} s x y (op : ST (S * BlockFile) StorageError A) n Q :
  triple s x op n Q -> x ##ₘ y ->
  triple s (x ∪ y) op n (fun r s' x' l => exists x0, x' = x0 ∪ y /\ x0 ##ₘ y /\ Q r s' x0 l).
Proof.
  intros H Hxy f mf Hf [Hd1 Hd2]%map_disjoint_union_l Hc. rewrite <- (assoc_L (∪)) in Hf.
  destruct (H f (y ∪ mf) Hf) as (r & s' & f' & x' & l & E & Hf' & [Hd3 Hd4]%map_disjoint_union_r & Hc' & Hl & Hq); [|done|].
  { by apply map_disjoint_union_r. }
  rewrite !(assoc_L (∪)) in Hf'. rewrite !(assoc_L (∪)) in Hl. exists r, s', f', (x' ∪ y), l.
  split; [done|]. split; [done|]. split; [by apply map_disjoint_union_l|]. split; [done|]. split; [done|]. by exists x'.
Qed.

(** The same program text, by equal runs. *)
Lemma triple_ext {A} s x (op op' : ST (S * BlockFile) StorageError A) n Q :
  (forall p, op p = op' p) -> triple s x op' n Q -> triple s x op n Q.
Proof. intros E H f mf. rewrite E. apply H. Qed.
End rules.

(** ** The block device in these terms *)

Section device.
Context {S : Type}.
Implicit Types (s : S) (x y : Regions) (n : Z).

(** A run in use, with its bytes. *)
Definition holds (x : Regions) (r : BlockRun) (bs : list byte) : Prop :=
  x !! run_start r = Some bs /\ zlen bs = run_len r * DATA_BLOCK_SIZE.

(** A run inside the addressable blocks. *)
Definition run_fits (r : BlockRun) : Prop :=
  0 <= run_start r /\ 0 < run_len r /\ run_start r + run_len r <= 2 ^ 48.

Lemma lens_insert k bs x n : zlen bs = n * DATA_BLOCK_SIZE -> lens (<[k := bs]> x) = <[k := n]> (lens x).
Proof. intros H. unfold lens. by rewrite fmap_insert, (region_len _ _ H). Qed.

Lemma triple_allocate s x n : 0 < n ->
  triple s x (on_file (block_allocate n)) n (returns (fun r s' x' l =>
    s' = s /\ run_len r = n /\ run_fits r /\ x !! run_start r = None /\ l = [Took r] /\
    exists bs, x' = <[run_start r := bs]> x /\ zlen bs = n * DATA_BLOCK_SIZE)).
Proof.
  intros Hn f mf Hf Hd Hc.
  destruct (block_allocate_spec f _ n Hf Hn Hc) as (f' & b & bs & E & Hf' & [Hm Hmf]%lookup_union_None & Hl & H0 & Hb & Hcap).
  unfold on_file. rewrite E. exists (Done {| run_start := b; run_len := n |}), s, f', (<[b := bs]> x), [Took {| run_start := b; run_len := n |}].
  split; [done|]. rewrite <- insert_union_l. split; [done|]. split; [by apply map_disjoint_insert_l|]. split; [done|].
  split; [by apply lens_insert|]. unfold returns, run_fits; simpl. split_and!; try done. by exists bs.
Qed.

Lemma triple_write s x r bs data :
  holds x r bs -> zlen data <= zlen bs ->
  triple s x (on_file (write_run r data)) 0 (returns (fun _ s' x' l =>
    s' = s /\ l = [] /\ exists pad, x' = <[run_start r := data ++ pad]> x /\ zlen (data ++ pad) = zlen bs)).
Proof.
  intros [Hs El] Hd f mf Hf Hdis Hc.
  destruct (write_run_spec f _ r bs data Hf) as (f' & E & Hf' & Ea); [by apply lookup_union_Some_l|done|done|].
  unfold on_file. rewrite E. eexists (Done tt), s, f', (<[run_start r := data ++ drop (length data) bs]> x), [].
  assert (zlen (data ++ drop (length data) bs) = zlen bs) as Ez.
  { rewrite zlen_app. unfold zlen in *. rewrite length_drop. lia. }
  split; [done|]. rewrite <- insert_union_l. split; [done|].
  split; [apply map_disjoint_insert_l; split; [by eapply map_disjoint_Some_l|done]|].
  unfold capacity_blocks. rewrite Ea. split; [lia|]. split.
  { rewrite (lens_insert _ _ _ (run_len r)) by lia. change (replay_events [] ?L) with L. apply insert_id. unfold lens. rewrite lookup_fmap.
    rewrite (lookup_union_Some_l _ _ _ _ Hs). simpl. f_equal. by apply region_len. }
  split; [done|]. split; [done|]. by exists (drop (length data) bs).
Qed.

Lemma triple_read s x r bs :
  holds x r bs -> triple s x (on_file (read_run r)) 0 (returns (fun a s' x' l => a = bs /\ s' = s /\ x' = x /\ l = [])).
Proof.
  intros [Hs El] f mf Hf Hdis Hc.
  assert (read_run r f = (Done bs, f)) as E.
  { apply (read_run_spec _ _ _ _ Hf); [by apply lookup_union_Some_l|done]. }
  unfold on_file. rewrite E. exists (Done bs), s, f, x, []. repeat (split; [done || lia|]). done.
Qed.

Lemma triple_free s x r bs :
  holds x r bs ->
  triple s x (on_file (block_free r)) 0 (returns (fun _ s' x' l => s' = s /\ x' = delete (run_start r) x /\ l = [Gave r])).
Proof.
  intros [Hs El] f mf Hf Hdis Hc.
  destruct (block_free_spec f _ r bs Hf) as (f' & E & Hf' & _ & Ec); [by apply lookup_union_Some_l|done|].
  unfold on_file. rewrite E. exists (Done tt), s, f', (delete (run_start r) x), [Gave r]. split; [done|].
  assert (mf !! run_start r = None) as Hn by by eapply map_disjoint_Some_l.
  assert (delete (run_start r) x ∪ mf = delete (run_start r) (x ∪ mf)) as Eu by by rewrite delete_union, (delete_id mf).
  rewrite Eu. split; [done|]. split; [by apply map_disjoint_delete_l|].
  unfold capacity_blocks. rewrite Ec. split; [lia|]. split; [|done]. unfold lens. by rewrite fmap_delete.
Qed.

(** Storing an image in a run of its own: what every page writer does. *)
Definition write_fresh (blocks : Z) (image : list byte) : BF BlockRun :=
  let! r := block_allocate blocks in
  do! write_run r image in
  st_ret r.

Lemma on_file_bind {A B} (m : BF A) (k : A -> BF B) p :
  on_file (S := S) (st_bind m k) p = st_bind (on_file m) (fun a => on_file (k a)) p.
Proof. destruct p as [s f]. unfold on_file, st_bind. by destruct (m f) as [[a|e|] f']. Qed.

(** The same rules for an operation on the file alone. *)
Lemma triple_file_done {A B} s x (o : outcome StorageError A) a (k : A -> BF B) n R :
  o = Done a -> triple s x (on_file (k a)) n R -> triple s x (on_file (st_bind (st_lift o) k)) n R.
Proof. intros -> H f mf. apply (H f mf). Qed.

Lemma triple_file_lift {A} s x (o : outcome StorageError A) (Q : _ -> _ -> _ -> _ -> Prop) :
  Q o s x [] -> triple s x (on_file (st_lift o)) 0 Q.
Proof. intros H f mf Hf Hd Hc. exists o, s, f, x, []. split_and!; try done; lia. Qed.

Lemma triple_file_seq {A B} s x (m : BF A) (k : A -> BF B) n1 n2 Q R :
  triple s x (on_file m) n1 (returns Q) -> 0 <= n2 ->
  (forall a s' x' l, Q a s' x' l -> triple s' x' (on_file (k a)) n2 (after l R)) ->
  triple s x (on_file (st_bind m k)) (n1 + n2) R.
Proof. intros H Hn HQ. eapply triple_ext; [intros p; apply on_file_bind|]. by eapply triple_seq. Qed.

Lemma triple_write_fresh s x n image : 0 < n -> zlen image <= n * DATA_BLOCK_SIZE ->
  triple s x (on_file (write_fresh n image)) n (returns (fun r s' x' l =>
    s' = s /\ run_len r = n /\ run_fits r /\ x !! run_start r = None /\ l = [Took r] /\
    exists pad, x' = <[run_start r := image ++ pad]> x /\ zlen (image ++ pad) = n * DATA_BLOCK_SIZE)).
Proof.
  intros Hn Hi. eapply triple_steps; [eapply triple_file_seq; [by apply triple_allocate|done|]|lia].
  intros r s' x' l (-> & El & Hr & Hx & -> & bs & -> & Hl). change 0 with (0 + 0).
  eapply triple_file_seq; [apply (triple_write _ _ _ bs)|done|].
  { split; [by rewrite lookup_insert_eq|by rewrite El]. }
  { by rewrite Hl. }
  intros [] s' x' l (-> & -> & pad & -> & Hp). rewrite insert_insert_eq.
  apply (triple_file_lift s _ (Done r)).
  unfold after; simpl. split_and!; try done. exists pad. by rewrite Hp.
Qed.
End device.

(** Blocks enough for an image. *)
Lemma blocks_for_bytes_spec n : 0 <= n ->
  n <= blocks_for_bytes n * DATA_BLOCK_SIZE < n + DATA_BLOCK_SIZE.
Proof.
  intros Hn. unfold blocks_for_bytes, DATA_BLOCK_SIZE. pose proof (Z.div_mod n 4096).
  pose proof (Z.mod_pos_bound n 4096). destruct (Z.ltb_spec 0 (n mod 4096)); lia.
Qed.

(** ** Several owners

    [owns P l m]: the heap [m] splits into one part per element of [l], each as [P]
    says. *)

Section owners.
Context {T : Type}.

Fixpoint owns (P : T -> Regions -> Prop) (l : list T) (m : Regions) : Prop :=
  match l with
  | [] => m = ∅
  | t :: l => exists x r, m = x ∪ r /\ x ##ₘ r /\ P t x /\ owns P l r
  end.

Context (P : T -> Regions -> Prop).

Lemma owns_perm l l' m : l ≡ₚ l' -> owns P l m -> owns P l' m.
Proof.
  intros Hp. revert m. induction Hp as [|t l l' _ IH|t u l|l l' l'' _ IH1 _ IH2]; intros m; [done| | |by auto].
  - intros (x & r & -> & Hd & Ht & H). exists x, r. auto.
  - intros (y & r & -> & Hd & Hu & x & r' & -> & Hd' & Ht & H). apply map_disjoint_union_r in Hd as [Hyx Hyr].
    exists x, (y ∪ r'). split; [rewrite !(assoc_L (∪)); by rewrite (map_union_comm y x)|].
    split; [by apply map_disjoint_union_r|]. split; [done|]. by exists y, r'.
Qed.

Lemma owns_one t m : owns P [t] m <-> P t m.
Proof.
  split; simpl.
  - intros (x & r & -> & _ & H & ->). by rewrite (right_id_L ∅ (∪)).
  - intros H. exists m, ∅. rewrite (right_id_L ∅ (∪)). split_and!; try done. apply map_disjoint_empty_r.
Qed.

Lemma owns_app l1 l2 m :
  owns P (l1 ++ l2) m <-> exists m1 m2, m = m1 ∪ m2 /\ m1 ##ₘ m2 /\ owns P l1 m1 /\ owns P l2 m2.
Proof.
  revert m. induction l1 as [|t l1 IH]; intros m; simpl; split.
  - intros H. exists ∅, m. rewrite (left_id_L ∅ (∪)). split_and!; try done. apply map_disjoint_empty_l.
  - intros (m1 & m2 & -> & _ & -> & H). by rewrite (left_id_L ∅ (∪)).
  - intros (x & r & -> & Hd & Ht & (m1 & m2 & -> & Hd' & H1 & H2)%IH). apply map_disjoint_union_r in Hd as [Ha Hb].
    exists (x ∪ m1), m2. rewrite (assoc_L (∪)). split; [done|]. split; [by apply map_disjoint_union_l|].
    split; [by exists x, m1|done].
  - intros (m1 & m2 & -> & Hd & (x & r & -> & Hxr & Ht & H1) & H2). apply map_disjoint_union_l in Hd as [Ha Hb].
    exists x, (r ∪ m2). rewrite (assoc_L (∪)). split; [done|]. split; [by apply map_disjoint_union_r|].
    split; [done|]. apply IH. by exists r, m2.
Qed.

(** Focusing on one owner. *)
Lemma owns_focus l1 t l2 m :
  owns P (l1 ++ t :: l2) m <-> exists x r, m = x ∪ r /\ x ##ₘ r /\ P t x /\ owns P (l1 ++ l2) r.
Proof.
  change (owns P (l1 ++ t :: l2) m <-> owns P (t :: l1 ++ l2) m).
  split; apply owns_perm; by rewrite Permutation_middle.
Qed.
End owners.

Lemma owns_impl {T U} (f : T -> U) (P : T -> Regions -> Prop) (Q : U -> Regions -> Prop) l m :
  (forall t x, t ∈ l -> P t x -> Q (f t) x) -> owns P l m -> owns Q (map f l) m.
Proof.
  revert m. induction l as [|t l IH]; intros m Hf; simpl; [done|].
  intros (x & r & -> & Hd & Ht & H). exists x, r. split_and!; try done; [apply Hf; [by left|done]|].
  apply IH; [|done]. intros ? ? ?. apply Hf. by right.
Qed.
