(* ===== verification/Codec.v ===== *)
(** * Page codecs and sealed images (wavedb-storage: compression/page_codec.rs, compression/heap_zstd.rs)

    The zstd and crc32fast crates are the parameters of the storage stack; the
    laws are what their documentation promises.  Every image on disk starts with
    the checksum of what follows. *)
From S2P Require Import Prelude Wire Errors.

Class Codecs : Type := {
  crc32 : list byte -> Z;
  encode_all : Z -> list byte -> outcome string (list byte);
  decode_all : list byte -> outcome string (list byte);
  dict_compress : Z -> list byte -> list byte -> outcome string (list byte);
  dict_decompress : list byte -> list byte -> Z -> outcome string (list byte);
  from_samples : list (list byte) -> Z -> outcome string (list byte)
}.

(** The most bytes zstd makes of [n], [ZSTD_compressBound]. *)
Definition compress_bound (n : Z) : Z := n + n / 256 + 64.

(** [codec v r back]: [v] compresses to some [c] in bounds, and [back] undoes it. *)
Definition codes (v : list byte) (r : outcome string (list byte)) (back : list byte -> outcome string (list byte)) : Prop :=
  exists c, r = Done c /\ back c = Done v /\ zlen c <= compress_bound (zlen v).

Class CodecLaws `{Codecs} : Prop := {
  crc32_fits bs : fits 32 (crc32 bs);
  encode_all_codes level v : codes v (encode_all level v) decode_all;
  dict_codes level dict v : dict <> [] -> codes v (dict_compress level dict v) (fun c => dict_decompress dict c (zlen v));
  from_samples_ends samples max : from_samples samples max <> Fault;
  from_samples_len samples max d : 0 <= max -> from_samples samples max = Done d -> zlen d <= max
}.

Section codecs.
Context `{Codecs}.

Definition DEFAULT_LEVEL : Z := 22.
Definition PAGE_LEVEL : Z := 19.

Definition compress_level (data : list byte) (level : Z) : StorageResult (list byte) :=
  omap_err Io (encode_all level data).
Definition zstd_compress (data : list byte) : StorageResult (list byte) := compress_level data DEFAULT_LEVEL.
Definition zstd_decompress (data : list byte) : StorageResult (list byte) := omap_err Io (decode_all data).

Definition encode_stack (data : list byte) (_dict_version : Z) : StorageResult (list byte) := zstd_compress data.
Definition decode_stack (compressed : list byte) (_dict_version : Z) : StorageResult (list byte) :=
  zstd_decompress compressed.

Definition train_dictionary (samples : list (list byte)) (max_bytes : Z) : StorageResult (list byte) :=
  omap_err Io (from_samples samples max_bytes).

Definition encode_with_dict (data dict : list byte) : StorageResult (list byte) :=
  match dict with
  | [] => compress_level data PAGE_LEVEL
  | _ => omap_err Io (dict_compress PAGE_LEVEL dict data)
  end.

Definition decode_with_dict (compressed dict : list byte) (capacity : Z) : StorageResult (list byte) :=
  match dict with
  | [] => zstd_decompress compressed
  | _ => omap_err Io (dict_decompress dict compressed capacity)
  end.

(** ** Reading the fields of an image *)

(** The integer in bytes [a..a + n]. *)
Definition u_at (a n : Z) (bytes : list byte) : StorageResult Z :=
  let* s := expect (sub a (a + n) bytes) in Done (le_val s).

(** The image of a body: its checksum first. *)
Definition sealed (body : list byte) : list byte := le_bytes 4 (crc32 body) ++ body.

(** The check of bytes [4..end_] against the first four. *)
Definition check_seal (end_ : Z) (bytes : list byte) : StorageResult unit :=
  let* expected := u_at 0 4 bytes in
  let* body := expect (sub 4 end_ bytes) in
  let actual := crc32 body in
  if expected =? actual then Done tt else Fail (ChecksumMismatch 0 expected actual).

(** *** Lemmas *)

Lemma u_at_stands b a n v :
  stands b a (le_bytes n v) -> fits (8 * Z.of_nat n) v -> u_at a (Z.of_nat n) b = Done v.
Proof.
  intros Hs Hf. unfold u_at.
  assert (sub a (a + Z.of_nat n) b = Some (le_bytes n v)) as ->.
  { apply sub_stands. split; [done|]. unfold zlen. by rewrite length_le_bytes. }
  simpl. by rewrite le_val_bytes.
Qed.

Lemma stands_whole (l post : list byte) : stands (l ++ post) 0 l.
Proof. split; [done|]. by exists [], post. Qed.

Lemma stands_sub (b : list byte) a xs e : stands b a xs -> e = a + zlen xs -> sub a e b = Some xs.
Proof. intros Hs ->. by apply sub_stands. Qed.

Context `{!CodecLaws}.

Lemma zlen_sealed body : zlen (sealed body) = 4 + zlen body.
Proof. unfold sealed. rewrite zlen_app. unfold zlen at 1. by rewrite length_le_bytes. Qed.

Lemma sealed_body body pad : stands (sealed body ++ pad) 4 body.
Proof.
  pose proof (stands_whole (sealed body) pad) as Hs. unfold sealed in Hs at 2. apply stands_app in Hs as [_ Hs].
  unfold zlen in Hs. by rewrite length_le_bytes in Hs.
Qed.

Lemma check_sealed body pad e : e = 4 + zlen body -> check_seal e (sealed body ++ pad) = Done tt.
Proof.
  intros ->. pose proof (stands_whole (sealed body) pad) as Hs. unfold sealed in Hs at 2. apply stands_app in Hs as [Hs _].
  unfold check_seal. change 4 with (Z.of_nat 4) at 1. rewrite (u_at_stands _ _ _ _ Hs) by apply crc32_fits.
  cbn [obind]. rewrite (stands_sub _ _ _ _ (sealed_body body pad)) by done. simpl. by rewrite Z.eqb_refl.
Qed.

Lemma with_dict_codes data dict :
  exists c, encode_with_dict data dict = Done c /\ decode_with_dict c dict (zlen data) = Done data /\
    zlen c <= compress_bound (zlen data).
Proof.
  unfold encode_with_dict, decode_with_dict, compress_level, zstd_decompress. destruct dict as [|d dict].
  - destruct (encode_all_codes PAGE_LEVEL data) as (c & -> & E & ?). exists c. by rewrite E.
  - destruct (dict_codes PAGE_LEVEL (d :: dict) data) as (c & -> & E & ?); [done|]. exists c. by rewrite E.
Qed.

Lemma zstd_codes data :
  exists c, zstd_compress data = Done c /\ zstd_decompress c = Done data /\ zlen c <= compress_bound (zlen data).
Proof.
  unfold zstd_compress, compress_level, zstd_decompress.
  destruct (encode_all_codes DEFAULT_LEVEL data) as (c & -> & E & ?). exists c. by rewrite E.
Qed.
End codecs.

(** What a sequence of fields makes stand where. *)
Ltac fields H :=
  repeat (let H' := fresh "F" in rewrite stands_app in H; destruct H as [H' H]);
  repeat match goal with F : stands _ ?a _ |- _ =>
    progress (rewrite ?zlen_app, ?zlen_le_bytes in F) end;
  repeat match goal with F : stands _ ?a _ |- _ =>
    lazymatch a with
    | _ + _ => let v := eval cbv in a in
               lazymatch v with Zpos _ => change a with v in F end
    end end.

(** ** A trivial codec, for examples

    Nothing compresses; the checksum adds the bytes up. *)
Definition byte_sum (bs : list byte) : Z := wrap 32 (foldr (fun b a => byte_val b + a) 0 bs).

Definition plain_codecs : Codecs := {|
  crc32 := byte_sum;
  encode_all _ v := Done v;
  decode_all v := Done v;
  dict_compress _ _ v := Done v;
  dict_decompress _ v _ := Done v;
  from_samples samples max := (let* d := ok_or (head samples) "no samples"%string in Done (take (Z.to_nat max) d))
|}.

Lemma plain_codec_laws : CodecLaws (H := plain_codecs).
Proof.
  assert (forall v : list byte, zlen v <= compress_bound (zlen v)) as Hb.
  { intros v. unfold compress_bound. pose proof (zlen_nonneg v). pose proof (Z.div_pos (zlen v) 256). lia. }
  constructor; simpl.
  - intros bs. by apply wrap_fits.
  - intros _ v. exists v. auto.
  - intros _ d v _. exists v. auto.
  - intros [|d samples] max; done.
  - intros [|d' samples] max d Hm; simpl; [done|]. intros [= <-]. unfold zlen. rewrite length_take. lia.
Qed.
