(* ===== verification/Dict.v ===== *)
(** * Dictionaries stored as pages (wavedb-storage: file/dict.rs)

    A dictionary is found by the run it is stored in; a store caches the ones it
    has read. *)
From S2P Require Import Prelude Ordered Wire Errors BlockAlloc BlockAllocOk BlockFile Regions Codec.

(** ** References: a start block in 48 bits, a count above it *)

Abbreviation DictRef := Z.

Definition START_BITS : Z := 48.
Definition START_MASK : Z := Z.shiftl 1 START_BITS - 1.
Definition DICT_HEADER : Z := 8.

Definition NONE : DictRef := 0.
Definition ref_new (start_block block_count : Z) : StorageResult DictRef :=
  do* guard (start_block <=? START_MASK) in
  Done (Z.lor start_block (wrap 64 (Z.shiftl block_count START_BITS))).
Definition is_none (r : DictRef) : bool := r =? 0.
Definition start_block (r : DictRef) : Z := Z.land r START_MASK.
Definition block_count (r : DictRef) : Z := wrap 16 (Z.shiftr r START_BITS).
Definition ref_run (r : DictRef) : BlockRun := {| run_start := start_block r; run_len := block_count r |}.

Section dict.
Context `{Codecs}.

Definition encode_dict_page (dict : list byte) : StorageResult (list byte) :=
  do* guard (fitsb 32 (zlen dict)) in
  Done (sealed (le_bytes 4 (zlen dict) ++ dict)).

Definition decode_dict_page (bytes : list byte) : StorageResult (list byte) :=
  if zlen bytes <? DICT_HEADER then Fail (Other "dict page too short")
  else
    let* len := u_at 4 4 bytes in
    let end_ := DICT_HEADER + len in
    if zlen bytes <? end_ then Fail (Other "dict page length out of range")
    else
      do* check_seal end_ bytes in
      expect (sub DICT_HEADER end_ bytes).

Record DictStore : Type := { current : DictRef; cache : gmap Z (list byte) }.

Abbreviation DM := (ST (DictStore * BlockFile) StorageError).

Definition dicts_new : DictStore := {| current := NONE; cache := ∅ |}.
Definition adopt (r : DictRef) (s : DictStore) : DictStore := {| current := r; cache := cache s |}.

Definition remember (r : DictRef) (bytes : list byte) (s : DictStore) : DictStore :=
  {| current := current s; cache := <[r := bytes]> (cache s) |}.

Definition load (r : DictRef) : DM (list byte) :=
  do! st_lift (guard (negb (is_none r))) in
  let! hit := on_self (st_gets (fun s => cache s !! r)) in
  match hit with
  | Some bytes => st_ret bytes
  | None =>
    let! page := on_file (read_run (ref_run r)) in
    let! bytes := st_lift (decode_dict_page page) in
    do! on_self (st_modify (remember r bytes)) in
    st_ret bytes
  end.

Definition install (dict : list byte) : DM DictRef :=
  let! image := st_lift (encode_dict_page dict) in
  let blocks := blocks_for_bytes (zlen image) in
  let! count := st_lift (if fitsb 16 blocks then Done blocks else Fail (Other "dictionary too large")) in
  let! r := on_file (write_fresh blocks image) in
  let! d := st_lift (ref_new (run_start r) count) in
  do! on_self (st_modify (fun s => adopt d (remember d dict s))) in
  st_ret d.
End dict.

(** ** Lemmas *)

(** A run whose reference packs and unpacks. *)
Lemma ref_new_spec s c : 0 <= s < 2 ^ 48 -> 0 < c < 2 ^ 16 ->
  exists r, ref_new s c = Done r /\ ref_run r = {| run_start := s; run_len := c |} /\ is_none r = false /\ fits 64 r.
Proof.
  intros Hs Hc. unfold ref_new, START_MASK. change (Z.shiftl 1 START_BITS - 1) with (2 ^ 48 - 1).
  replace (s <=? 2 ^ 48 - 1) with true by lia. cbn [guard obind]. change START_BITS with 48.
  rewrite wrap_small by (unfold fits; rewrite Z.shiftl_mul_pow2 by done; lia).
  rewrite Z.lor_comm, lor_shiftl_low by (done || (unfold fits; lia)). eexists. split; [done|].
  unfold ref_run, start_block, block_count, is_none, START_MASK. change (Z.shiftl 1 START_BITS - 1) with (Z.ones 48).
  change START_BITS with 48. rewrite Z.land_ones, Z.shiftr_div_pow2, mod_field, div_field by (done || (unfold fits; lia)).
  rewrite wrap_small by (unfold fits; lia). split; [done|]. unfold fits. lia.
Qed.

Section laws.
Context `{CodecLaws}.

Lemma dict_page_decodes dict image pad :
  encode_dict_page dict = Done image -> decode_dict_page (image ++ pad) = Done dict.
Proof.
  unfold encode_dict_page. destruct (fitsb 32 (zlen dict)) eqn:Hf; [|done]. intros [= <-]. apply fitsb_spec in Hf.
  set (body := le_bytes 4 (zlen dict) ++ dict). set (b := sealed body ++ pad).
  assert (zlen body = 4 + zlen dict) as Eb by (unfold body, zlen; rewrite length_app, length_le_bytes; lia).
  assert (zlen b = 8 + zlen dict + zlen pad) as El by (unfold b; rewrite zlen_app, zlen_sealed; lia).
  pose proof (sealed_body body pad) as Hs. unfold body in Hs at 2. fields Hs. fold b in F, Hs.
  pose proof (zlen_nonneg dict). pose proof (zlen_nonneg pad).
  unfold decode_dict_page, DICT_HEADER. replace (zlen b <? 8) with false by lia.
  change (u_at 4 4 b) with (u_at 4 (Z.of_nat 4) b). rewrite (u_at_stands _ _ _ _ F) by done. cbn [obind]. cbv zeta.
  replace (zlen b <? 8 + zlen dict) with false by lia. assert (check_seal (8 + zlen dict) b = Done tt) as -> by (apply check_sealed; lia). cbn [obind].
  by rewrite (stands_sub b 8 dict _ Hs) by lia.
Qed.

(** The dictionaries of a store: each one's page in its region. *)
Record dicts_at (D : gmap Z (list byte)) (x : Regions) : Prop := {
  da_page : forall r d, D !! r = Some d -> is_none r = false /\ fits 64 r /\ run_fits (ref_run r) /\
    exists image pad, encode_dict_page d = Done image /\ holds x (ref_run r) (image ++ pad);
  da_apart : forall r d r' d', D !! r = Some d -> D !! r' = Some d' -> start_block r = start_block r' -> r = r';
  da_only : forall b bs, x !! b = Some bs -> exists r d, D !! r = Some d /\ start_block r = b
}.

(** What is cached of them is right; the cache may also hold a dictionary that no page
    names any more. *)
Record dicts_ok (s : DictStore) (D : gmap Z (list byte)) : Prop := {
  do_cache : forall r d d', D !! r = Some d -> cache s !! r = Some d' -> d' = d;
  do_current : current s = NONE \/ exists d, D !! current s = Some d
}.

Lemma dicts_none : dicts_at ∅ ∅ /\ dicts_ok dicts_new ∅.
Proof. split; constructor; simpl; try done; [..|by left]; intros *; by rewrite lookup_empty. Qed.

(** Loading: a dictionary in use is found, read or cached, and nothing moves. *)
Lemma load_spec s D x y r d :
  dicts_ok s D -> dicts_at D x -> D !! r = Some d -> x ##ₘ y ->
  triple s (x ∪ y) (load r) 0 (returns (fun a s' x' l => a = d /\ x' = x ∪ y /\ l = [] /\ dicts_ok s' D /\ current s' = current s)).
Proof.
  intros Hs Hx Hr Hxy. destruct (da_page _ _ Hx _ _ Hr) as (Hn & _ & _ & image & pad & Hi & Hh).
  unfold load. rewrite Hn. eapply triple_done; [done|]. apply triple_gets. destruct (cache s !! r) as [bytes|] eqn:E.
  { apply triple_ret. simpl. split; [|done]. by eapply (do_cache _ _ Hs). }
  eapply triple_step; [apply (triple_read _ _ _ (image ++ pad))|done|].
  { destruct Hh. split; [by apply lookup_union_Some_l|done]. }
  intros ? ? ? ? (-> & -> & -> & ->). eapply triple_done; [by apply dict_page_decodes|]. apply triple_modify.
  apply triple_ret. unfold after; simpl. do 3 (split; [done|]). split; [|done].
  constructor; simpl; [|apply Hs]. intros r' d1 d2 E1 [[<- <-]|[_ E2]]%lookup_insert_Some; [congruence|by eapply (do_cache _ _ Hs)].
Qed.

(** Installing: a new page, and the dictionary becomes current. *)
Lemma install_spec s D x y dict :
  dicts_ok s D -> dicts_at D x -> x ##ₘ y -> zlen dict <= 2 ^ 27 ->
  triple s (x ∪ y) (install dict) (zlen dict / DATA_BLOCK_SIZE + 2) (returns (fun r s' x' l =>
    D !! r = None /\ fits 64 r /\ l = [Took (ref_run r)] /\ current s' = r /\ dicts_ok s' (<[r := dict]> D) /\
    exists x1, x' = x1 ∪ y /\ x1 ##ₘ y /\ dicts_at (<[r := dict]> D) x1)).
Proof.
  intros Hs Hx Hxy Hl. pose proof (zlen_nonneg dict).
  assert (exists image, encode_dict_page dict = Done image /\ zlen image = 8 + zlen dict) as (image & Hi & Ei).
  { unfold encode_dict_page. rewrite (proj2 (fitsb_spec 32 (zlen dict))) by (unfold fits; lia). eexists. split; [done|].
    rewrite zlen_sealed, zlen_app. unfold zlen at 1. rewrite length_le_bytes. lia. }
  set (n := blocks_for_bytes (zlen image)).
  pose proof (blocks_for_bytes_spec (zlen image) ltac:(lia)) as Hn. fold n in Hn.
  assert (0 < n <= zlen dict / DATA_BLOCK_SIZE + 2) as Hn2 by (unfold DATA_BLOCK_SIZE in *; Z.to_euclidean_division_equations; lia).
  unfold install. eapply triple_done; [exact Hi|]. cbv zeta. fold n.
  eapply triple_done.
  { rewrite (proj2 (fitsb_spec 16 n)) by (unfold fits, DATA_BLOCK_SIZE in *; lia). done. }
  eapply triple_steps; [eapply triple_seq; [apply (triple_write_fresh s (x ∪ y) n image); lia|apply Z.le_refl|]|lia].
  intros r ? ? ? (-> & El & Hr & [Hnx Hny]%lookup_union_None & -> & pad & -> & Hp).
  destruct (ref_new_spec (run_start r) n) as (d & Hd & Erun & Hnd & Hfd).
  { unfold run_fits in Hr. lia. } { unfold DATA_BLOCK_SIZE in *; lia. }
  assert (ref_run d = r) as Er by (destruct r; simpl in *; congruence).
  assert (start_block d = run_start r) as Es by by rewrite <- Er.
  eapply triple_done; [exact Hd|]. apply triple_modify, triple_ret. unfold after; simpl.
  assert (D !! d = None) as HDd.
  { destruct (D !! d) as [d'|] eqn:E; [|done]. destruct (da_page _ _ Hx _ _ E) as (_ & _ & _ & ? & ? & _ & Hb & _).
    rewrite Er in Hb. congruence. }
  split; [done|]. split; [done|]. split; [by rewrite Er|]. split; [done|]. split.
  { constructor; simpl; [|right; exists dict; by rewrite lookup_insert_eq].
    intros r' d1 d2 [[<- <-]|[Hne E1]]%lookup_insert_Some [[? <-]|[? E2]]%lookup_insert_Some; try done. by eapply (do_cache _ _ Hs). }
  exists (<[run_start r := image ++ pad]> x). rewrite insert_union_l. split; [done|].
  split; [by apply map_disjoint_insert_l|].
  assert (forall r' d', D !! r' = Some d' -> start_block r' <> run_start r) as Hne.
  { intros r' d' E. destruct (da_page _ _ Hx _ _ E) as (_ & _ & _ & ? & ? & _ & Hb & _).
    change (run_start (ref_run r')) with (start_block r') in Hb. congruence. }
  constructor.
  - intros r' d' [[<- <-]|[Hne' E]]%lookup_insert_Some.
    + rewrite Er. split; [done|]. split; [done|]. split; [done|]. exists image, pad. split; [done|].
      split; [by rewrite lookup_insert_eq|by rewrite El].
    + destruct (da_page _ _ Hx _ _ E) as (? & ? & ? & im & pd & ? & Hb & ?). split_and!; try done. exists im, pd.
      split; [done|]. split; [|done]. rewrite lookup_insert_ne; [done|]. intros Eq. by apply (Hne r' d').
  - intros r1 d1 r2 d2 [[<- <-]|[? E1]]%lookup_insert_Some [[<- <-]|[? E2]]%lookup_insert_Some Hst; try done.
    + rewrite Es in Hst. by destruct (Hne r2 d2).
    + rewrite Es in Hst. by destruct (Hne r1 d1).
    + by eapply (da_apart _ _ Hx).
  - intros b bs [[<- <-]|[? E]]%lookup_insert_Some.
    + exists d, dict. by rewrite lookup_insert_eq.
    + destruct (da_only _ _ Hx _ _ E) as (r' & d' & E' & <-). exists r', d'. split; [|done].
      rewrite lookup_insert_ne; [done|congruence].
Qed.
End laws.
