(* ===== verification/HeapStore.v ===== *)
(** * Large values in extents of their own (wavedb-storage: file/heap_store.rs) *)
From S2P Require Import Prelude Ordered Wire Errors BlockAlloc BlockAllocOk BlockFile Regions Codec.

Abbreviation HeapRef := Z.

Definition START_BITS : Z := 48.
Definition START_MASK : Z := Z.shiftl 1 START_BITS - 1.
Definition COUNT_MASK : Z := Z.shiftl 1 32 - 1.
Definition HEAP_HEADER : Z := 21.
Definition CODEC_RAW : Z := 0.
Definition CODEC_ZSTD : Z := 1.

Definition heap_ref_new (start_block block_count : Z) : StorageResult HeapRef :=
  do* guard (start_block <=? START_MASK) in
  Done (Z.lor start_block (wrap 128 (Z.shiftl block_count START_BITS))).
Definition heap_start (r : HeapRef) : Z := wrap 64 (Z.land r START_MASK).
Definition heap_count (r : HeapRef) : Z := wrap 32 (Z.land (Z.shiftr r START_BITS) COUNT_MASK).
Definition heap_run (r : HeapRef) : BlockRun := {| run_start := heap_start r; run_len := heap_count r |}.

Section heap_store.
Context `{Codecs}.

Definition encode_heap_page (value : list byte) : StorageResult (list byte) :=
  let* compressed := zstd_compress value in
  let '(codec, stored) := if zlen compressed <? zlen value then (CODEC_ZSTD, compressed) else (CODEC_RAW, value) in
  Done (sealed (le_bytes 1 codec ++ le_bytes 8 (zlen value) ++ le_bytes 8 (zlen stored) ++ stored)).

Definition decode_heap_page (bytes : list byte) : StorageResult (list byte) :=
  if zlen bytes <? HEAP_HEADER then Fail (Other "heap page too short")
  else
    let* codec := u_at 4 1 bytes in
    let* raw_len := u_at 5 8 bytes in
    let* stored_len := u_at 13 8 bytes in
    let* end_ := uadd 64 HEAP_HEADER stored_len in
    if zlen bytes <? end_ then Fail (Other "heap page length out of range")
    else
      do* check_seal end_ bytes in
      let* stored := expect (sub HEAP_HEADER end_ bytes) in
      if codec =? CODEC_RAW then Done stored
      else if codec =? CODEC_ZSTD then
        let* value := zstd_decompress stored in
        if zlen value =? raw_len then Done value
        else Fail (Other "heap value length mismatch after decompression")
      else Fail (Other "unknown heap codec").

Definition heap_put (value : list byte) : BF HeapRef :=
  let! image := st_lift (encode_heap_page value) in
  let blocks := blocks_for_bytes (zlen image) in
  let! count := st_lift (if fitsb 32 blocks then Done blocks
                         else Fail (Other "heap value exceeds the 16 TB extent limit")) in
  let! r := write_fresh blocks image in
  st_lift (heap_ref_new (run_start r) count).

Definition heap_get (r : HeapRef) : BF (list byte) :=
  let! page := read_run (heap_run r) in
  st_lift (decode_heap_page page).
End heap_store.

(** ** Lemmas *)

Lemma heap_ref_new_spec s c : 0 <= s < 2 ^ 48 -> 0 < c < 2 ^ 32 ->
  exists r, heap_ref_new s c = Done r /\ heap_run r = {| run_start := s; run_len := c |} /\ fits 128 r.
Proof.
  intros Hs Hc. unfold heap_ref_new, START_MASK. change (Z.shiftl 1 START_BITS - 1) with (2 ^ 48 - 1).
  replace (s <=? 2 ^ 48 - 1) with true by lia. cbn [guard obind]. change START_BITS with 48.
  rewrite wrap_small by (unfold fits; rewrite Z.shiftl_mul_pow2 by done; lia).
  rewrite Z.lor_comm, lor_shiftl_low by (done || (unfold fits; lia)). eexists. split; [done|].
  unfold heap_run, heap_start, heap_count, START_MASK, COUNT_MASK. change (Z.shiftl 1 START_BITS - 1) with (Z.ones 48).
  change (Z.shiftl 1 32 - 1) with (Z.ones 32). change START_BITS with 48.
  rewrite !Z.land_ones, Z.shiftr_div_pow2, mod_field, div_field by (done || (unfold fits; lia)).
  rewrite (Z.mod_small c) by lia. rewrite !wrap_small by (unfold fits; lia). split; [done|]. unfold fits. lia.
Qed.

Section laws.
Context `{CodecLaws}.

Lemma heap_page_encodes value :
  exists image, encode_heap_page value = Done image /\ HEAP_HEADER <= zlen image <= HEAP_HEADER + zlen value.
Proof.
  unfold encode_heap_page. destruct (zstd_codes value) as (c & -> & _ & _). cbn [obind].
  pose proof (zlen_nonneg c). pose proof (zlen_nonneg value).
  destruct (Z.ltb_spec (zlen c) (zlen value)); (eexists; split; [done|]);
    rewrite zlen_sealed, !zlen_app, !zlen_le_bytes; change HEAP_HEADER with 21; lia.
Qed.

Lemma heap_page_decodes value image pad :
  zlen value < 2 ^ 63 -> encode_heap_page value = Done image -> decode_heap_page (image ++ pad) = Done value.
Proof.
  intros Hv. unfold encode_heap_page. destruct (zstd_codes value) as (c & -> & Hdec & _). cbn [obind].
  set (cs := if zlen c <? zlen value then _ else _). destruct cs as [codec stored] eqn:Ecs. intros [= <-].
  assert (zlen stored <= zlen value /\ fits 8 codec /\
    (if codec =? CODEC_RAW then Done stored else if codec =? CODEC_ZSTD then
       let* v := zstd_decompress stored in
       if zlen v =? zlen value then Done v else Fail (Other "heap value length mismatch after decompression")
     else Fail (Other "unknown heap codec")) = Done value) as (Hl & Hc & Hres).
  { unfold cs in Ecs. destruct (Z.ltb_spec (zlen c) (zlen value)); injection Ecs as <- <-; split_and!; try lia; try done.
    simpl. rewrite Hdec. simpl. by rewrite Z.eqb_refl. }
  clear cs Ecs Hdec c. set (body := le_bytes 1 codec ++ _). set (b := sealed body ++ pad).
  pose proof (sealed_body body pad) as Hs. fold b in Hs. unfold body in Hs. fields Hs.
  assert (zlen body = 17 + zlen stored) as Eb by (unfold body; rewrite !zlen_app, !zlen_le_bytes; lia).
  assert (zlen b = 21 + zlen stored + zlen pad) as El by (unfold b; rewrite zlen_app, zlen_sealed; lia).
  pose proof (zlen_nonneg stored). pose proof (zlen_nonneg pad).
  unfold decode_heap_page, HEAP_HEADER. replace (zlen b <? 21) with false by lia.
  change (u_at 4 1 b) with (u_at 4 (Z.of_nat 1) b). change (u_at 5 8 b) with (u_at 5 (Z.of_nat 8) b).
  change (u_at 13 8 b) with (u_at 13 (Z.of_nat 8) b).
  rewrite (u_at_stands _ _ _ _ F), (u_at_stands _ _ _ _ F0), (u_at_stands _ _ _ _ F1) by (unfold fits in *; lia).
  cbn [obind]. rewrite uadd_done by (unfold fits; lia). cbn [obind].
  replace (zlen b <? 21 + zlen stored) with false by lia.
  assert (check_seal (21 + zlen stored) b = Done tt) as -> by (apply check_sealed; lia). cbn [obind].
  rewrite (stands_sub b 21 stored _ Hs) by lia. exact Hres.
Qed.

(** The extent of a value. *)
Definition extent_at (r : HeapRef) (v : list byte) (x : Regions) : Prop :=
  run_fits (heap_run r) /\ fits 128 r /\ zlen v < 2 ^ 40 /\ exists image pad, encode_heap_page v = Done image /\
    x = {[heap_start r := image ++ pad]} /\ zlen (image ++ pad) = heap_count r * DATA_BLOCK_SIZE.

Lemma extent_holds r v x : extent_at r v x ->
  exists image pad, encode_heap_page v = Done image /\ holds x (heap_run r) (image ++ pad).
Proof. intros (_ & _ & _ & im & pd & Hi & -> & Hl). exists im, pd. split; [done|]. split; [by rewrite lookup_singleton_eq|done]. Qed.

Lemma heap_put_spec {S} (s : S) x v : zlen v < 2 ^ 40 ->
  triple s x (on_file (heap_put v)) (zlen v / DATA_BLOCK_SIZE + 2) (returns (fun r s' x' l =>
    s' = s /\ l = [Took (heap_run r)] /\ exists x1, x' = x1 ∪ x /\ x1 ##ₘ x /\ extent_at r v x1)).
Proof.
  intros Hv. destruct (heap_page_encodes v) as (image & Hi & Ei). unfold HEAP_HEADER in Ei. pose proof (zlen_nonneg v).
  set (n := blocks_for_bytes (zlen image)). pose proof (blocks_for_bytes_spec (zlen image) ltac:(lia)) as Hn. fold n in Hn.
  assert (0 < n <= zlen v / DATA_BLOCK_SIZE + 2) as Hn2 by (unfold DATA_BLOCK_SIZE in *; Z.to_euclidean_division_equations; lia).
  unfold heap_put. eapply triple_file_done; [exact Hi|]. cbv zeta. fold n. eapply triple_file_done.
  { rewrite (proj2 (fitsb_spec 32 n)) by (unfold fits, DATA_BLOCK_SIZE in *; lia). done. }
  eapply triple_steps; [eapply triple_file_seq; [apply (triple_write_fresh s x n image); lia|apply Z.le_refl|]|lia].
  intros r ? ? ? (-> & El & Hr & Hx & -> & pad & -> & Hp).
  destruct (heap_ref_new_spec (run_start r) n) as (d & Hd & Erun & Hfd).
  { unfold run_fits in Hr. lia. } { unfold DATA_BLOCK_SIZE in *; lia. }
  assert (heap_run d = r) as Er by (destruct r; simpl in *; congruence).
  assert (heap_start d = run_start r /\ heap_count d = n) as [Es Ec] by (rewrite <- Er in *; split; [done|by rewrite <- El]).
  rewrite Hd. apply triple_file_lift. unfold after; simpl. split; [done|]. split; [by rewrite Er|].
  exists {[run_start r := image ++ pad]}. rewrite <- insert_union_singleton_l. split; [done|].
  split; [by apply map_disjoint_singleton_l|]. split; [by rewrite Er|]. split; [done|]. split; [done|].
  exists image, pad. by rewrite Es, Ec.
Qed.

Lemma heap_get_spec {S} (s : S) x y r v : extent_at r v x -> x ##ₘ y ->
  triple s (x ∪ y) (on_file (heap_get r)) 0 (returns (fun a s' x' l => a = v /\ s' = s /\ x' = x ∪ y /\ l = [])).
Proof.
  intros Hx Hd. pose proof Hx as (_ & _ & Hv & _). destruct (extent_holds _ _ _ Hx) as (im & pd & Hi & Hb & Hl).
  unfold heap_get. change 0 with (0 + 0). eapply triple_file_seq; [apply (triple_read _ _ _ (im ++ pd))|done|].
  { split; [by apply lookup_union_Some_l|done]. }
  intros ? ? ? ? (-> & -> & -> & ->). rewrite (heap_page_decodes v) by (done || lia).
  by apply triple_file_lift.
Qed.
End laws.
