(* ===== verification/SlotPage.v ===== *)
(** * The records of one page, and the page's image (wavedb-storage: file/directory.rs)

    A page keeps its records sorted by id.  Lookups use the standard library's
    binary search, written out here and proved right on sorted keys. *)
From S2P Require Import Prelude Ordered Wire Errors BlockAlloc Regions Codec Dict HeapStore.

Definition HEADER_LEN : Z := 30.
Definition ENTRY_HEADER_LEN : Z := 21.
Definition CODEC_RAW : Z := 0.
Definition CODEC_DICT : Z := 1.
Definition KIND_INLINE : Z := 0.
Definition KIND_HEAP : Z := 1.

Inductive Entry : Type := Inline (bytes : list byte) | Heap (r : HeapRef).

Definition inline_bytes (e : Entry) : option (list byte) := match e with Inline bytes => Some bytes | Heap _ => None end.
Definition heap_ref (e : Entry) : option HeapRef := match e with Heap r => Some r | Inline _ => None end.

(** ** [slice::binary_search_by_key]: [inl i] is [Ok(i)], [inr i] is [Err(i)] *)

Section search.
Context (keys : list Z) (target : Z).
Local Open Scope nat_scope.

Fixpoint search_loop (fuel base size : nat) : nat :=
  match fuel with
  | O => base
  | S fuel =>
    if (1 <? size)%nat then
      let half := size / 2 in
      let mid := base + half in
      let base := if (target <? nth mid keys 0%Z)%Z then base else mid in
      search_loop fuel base (size - half)
    else base
  end.

Definition binary_search : nat + nat :=
  match keys with
  | [] => inr 0
  | _ =>
    let base := search_loop (length keys) 0 (length keys) in
    let k := nth base keys 0%Z in
    if (k =? target)%Z then inl base
    else inr (if (k <? target)%Z then base + 1 else base)
  end.

Definition increasing (l : list Z) : Prop := forall i j x y, l !! i = Some x -> l !! j = Some y -> i < j -> (x < y)%Z.

(** In order, repetitions allowed. *)
Definition ascending (l : list Z) : Prop := forall i j x y, l !! i = Some x -> l !! j = Some y -> i < j -> (x <= y)%Z.

Lemma increasing_ascending l : increasing l -> ascending l.
Proof. intros H i j x y Hi Hj Hij. pose proof (H i j x y Hi Hj Hij). lia. Qed.

Lemma nth_key i x : keys !! i = Some x -> nth i keys 0%Z = x.
Proof. apply nth_lookup_Some. Qed.

Lemma search_loop_spec fuel base size :
  ascending keys -> size <= fuel -> 0 < size -> base + size <= length keys ->
  (forall j x, keys !! j = Some x -> base + size <= j -> (target < x)%Z) ->
  (base = 0 \/ forall x, keys !! base = Some x -> (x <= target)%Z) ->
  let b := search_loop fuel base size in
  b < length keys /\ (forall j x, keys !! j = Some x -> b < j -> (target < x)%Z) /\
  (b = 0 \/ forall x, keys !! b = Some x -> (x <= target)%Z).
Proof.
  intros Hi. revert base size. induction fuel as [|fuel IH]; intros base size Hf H0 Hl Hhi Hlo; [lia|]. cbn [search_loop]. cbv zeta.
  destruct (Nat.ltb_spec 1 size) as [H1|H1].
  - assert (0 < size / 2 < size) by (split; [apply Nat.div_str_pos; lia|apply Nat.div_lt; lia]).
    destruct (keys !! (base + size / 2)) as [k|] eqn:Ek; [|apply lookup_ge_None in Ek; lia].
    rewrite (nth_key _ _ Ek). destruct (Z.ltb_spec target k) as [Hk|Hk]; apply IH; try lia; try done.
    + intros j x Hj Hge. destruct (decide (j = base + size / 2)) as [->|]; [congruence|].
      pose proof (Hi (base + size / 2) j k x Ek Hj). assert (size / 2 <= size - size / 2); [|lia].
      pose proof (Nat.div_mod_eq size 2). pose proof (Nat.mod_upper_bound size 2). lia.
    + intros j x Hj Hge. apply (Hhi _ _ Hj). lia.
    + right. intros x Hx. congruence.
  - assert (size = 1) as -> by lia. split; [lia|]. split; [|done]. intros j x Hj Hb. apply (Hhi _ _ Hj). lia.
Qed.
End search.

(** What a search of sorted keys finds. *)
Lemma ascending_search keys t :
  ascending keys ->
  match binary_search keys t with
  | inl i => keys !! i = Some t
  | inr i => (i <= length keys)%nat /\ (forall j x, keys !! j = Some x -> (j < i)%nat -> x < t) /\
      (forall j x, keys !! j = Some x -> (i <= j)%nat -> t < x)
  end.
Proof.
  intros Hi. unfold binary_search. destruct keys as [|k0 keys']; [simpl; split_and!; [lia|by intros []..]|].
  set (keys := k0 :: keys') in *. cbv zeta.
  destruct (search_loop_spec keys t (length keys) 0 (length keys) Hi) as (Hb & Hhi & Hlo);
    [lia|simpl; lia|lia| |by left|].
  { intros j x Hj%lookup_lt_Some. lia. }
  set (b := search_loop _ _ _ _ _) in *. destruct (keys !! b) as [k|] eqn:Ek; [|apply lookup_ge_None in Ek; lia].
  rewrite (nth_key _ _ _ Ek). destruct (Z.eqb_spec k t) as [->|Hne]; [done|].
  destruct (Z.ltb_spec k t) as [Hlt|Hge]; split_and!; try lia.
  - intros j x Hj Hjb. destruct (decide (j = b)) as [->|]; [congruence|]. pose proof (Hi j b x k Hj Ek). lia.
  - intros j x Hj Hjb. apply (Hhi j); [done|lia].
  - intros j x Hj Hjb. destruct Hlo as [->|Hlo]; [lia|]. specialize (Hlo _ eq_refl). lia.
  - intros j x Hj Hjb. destruct (decide (j = b)) as [->|]; [assert (x = k) by congruence; lia|]. apply (Hhi j); [done|lia].
Qed.

Lemma binary_search_spec keys t :
  increasing keys ->
  match binary_search keys t with
  | inl i => keys !! i = Some t
  | inr i => (i <= length keys)%nat /\ (forall j x, keys !! j = Some x -> (j < i)%nat -> x < t) /\
      (forall j x, keys !! j = Some x -> (i <= j)%nat -> t < x)
  end.
Proof. intros Hi. by apply ascending_search, increasing_ascending. Qed.

(** ** The operations of a page *)

Record SlotPage : Type := { struct_id : Z; version : Z; entries : list (Z * Entry) }.

Definition page_new (sid ver : Z) : SlotPage := {| struct_id := sid; version := ver; entries := [] |}.

Definition with_entries (p : SlotPage) (es : list (Z * Entry)) : SlotPage :=
  {| struct_id := struct_id p; version := version p; entries := es |}.

Definition page_find (p : SlotPage) (id : Z) : nat + nat := binary_search (map fst (entries p)) id.

Definition page_get (p : SlotPage) (id : Z) : option Entry :=
  match page_find p id with
  | inl i => snd <$> entries p !! i
  | inr _ => None
  end.

Definition upsert_entry (id : Z) (e : Entry) (p : SlotPage) : SlotPage :=
  match page_find p id with
  | inl i => with_entries p (alter (fun '(k, _) => (k, e)) i (entries p))
  | inr i => with_entries p (take i (entries p) ++ (id, e) :: drop i (entries p))
  end.

Definition upsert (id : Z) (payload : list byte) (p : SlotPage) : SlotPage := upsert_entry id (Inline payload) p.

Definition page_remove (id : Z) (p : SlotPage) : SlotPage * bool :=
  match page_find p id with
  | inl i => (with_entries p (delete i (entries p)), true)
  | inr _ => (p, false)
  end.

Definition page_is_empty (p : SlotPage) : bool := match entries p with [] => true | _ => false end.

Definition payload_len (e : Entry) : Z := match e with Inline bytes => zlen bytes | Heap _ => 16 end.

Definition records_len (p : SlotPage) : Z :=
  foldr (fun '(_, e) n => ENTRY_HEADER_LEN + payload_len e + n) 0 (entries p).

(** ** The image *)

Definition record_bytes (r : Z * Entry) : StorageResult (list byte) :=
  let '(id, e) := r in
  match e with
  | Inline bytes =>
    do* guard (fitsb 32 (zlen bytes)) in
    Done (le_bytes 16 id ++ le_bytes 1 KIND_INLINE ++ le_bytes 4 (zlen bytes) ++ bytes)
  | Heap h => Done (le_bytes 16 id ++ le_bytes 1 KIND_HEAP ++ le_bytes 4 16 ++ le_bytes 16 h)
  end.

Definition records_bytes (p : SlotPage) : StorageResult (list byte) :=
  let* rs := omapM record_bytes (entries p) in Done (concat rs).

Section image.
Context `{Codecs}.

Definition dict_ref_of (bytes : list byte) : StorageResult DictRef :=
  if zlen bytes <? HEADER_LEN then Fail (Other "page image too short") else u_at 14 8 bytes.

Definition encode (p : SlotPage) (dict : option (list byte * DictRef)) : StorageResult (list byte) :=
  let* records := records_bytes p in
  let* (codec, dict_ref, payload) :=
    match dict with
    | Some ((_ :: _) as bytes, r) => let* c := encode_with_dict records bytes in Done (CODEC_DICT, r, c)
    | _ => Done (CODEC_RAW, NONE, records)
    end in
  let total := HEADER_LEN + zlen payload in
  do* guard (fitsb 32 total) in
  do* guard (fitsb 32 (zlen records)) in
  do* guard (fitsb 32 (zlen (entries p))) in
  Done (sealed (le_bytes 4 total ++ le_bytes 4 (struct_id p) ++ le_bytes 1 (version p) ++ le_bytes 1 codec ++
    le_bytes 8 dict_ref ++ le_bytes 4 (zlen records) ++ le_bytes 4 (zlen (entries p)) ++ payload)).

(** The records from offset [off] on. *)
Fixpoint decode_entries (n : nat) (off : Z) (records : list byte) : StorageResult (list (Z * Entry)) :=
  match n with
  | O => Done []
  | S n =>
    if zlen records <? off + ENTRY_HEADER_LEN then Fail (Other "truncated entry header")
    else
      let* id := u_at off 16 records in
      let* kind := u_at (off + 16) 1 records in
      let* len := u_at (off + 17) 4 records in
      let off := off + 21 in
      if zlen records <? off + len then Fail (Other "truncated entry payload")
      else
        let* body := expect (sub off (off + len) records) in
        let* e := if kind =? KIND_INLINE then Done (Inline body)
                  else if kind =? KIND_HEAP then
                    if len =? 16 then Done (Heap (le_val body))
                    else Fail (Other "heap entry payload is not a 16-byte ref")
                  else Fail (Other "unknown entry kind") in
        let* rest := decode_entries n (off + len) records in
        Done ((id, e) :: rest)
  end.

Definition decode (bytes : list byte) (dict : option (list byte)) : StorageResult SlotPage :=
  if zlen bytes <? HEADER_LEN then Fail (Other "page image too short")
  else
    let* byte_len := u_at 4 4 bytes in
    if (byte_len <? HEADER_LEN) || (zlen bytes <? byte_len) then Fail (Other "page image length out of range")
    else
      do* check_seal byte_len bytes in
      let* sid := u_at 8 4 bytes in
      let* ver := u_at 12 1 bytes in
      let* codec := u_at 13 1 bytes in
      let* raw_len := u_at 22 4 bytes in
      let* count := u_at 26 4 bytes in
      let* payload := expect (sub HEADER_LEN byte_len bytes) in
      let* records :=
        if codec =? CODEC_RAW then Done payload
        else if codec =? CODEC_DICT then
          let* d := ok_or dict (Other "dict page needs a dictionary") in
          decode_with_dict payload d raw_len
        else Fail (Other "unknown page codec") in
      let* es := decode_entries (Z.to_nat count) 0 records in
      Done {| struct_id := sid; version := ver; entries := es |}.
End image.
