(* ===== verification/SlotPageOk.v ===== *)
(** * A page of records is a map, and its image reads back

    The sorted list of a page refines a finite map from ids to entries; encoding
    it, with or without a dictionary, and decoding the padded image gives the same
    page. *)
From stdpp Require Import sorting.
From S2P Require Import Prelude Ordered Wire Errors BlockAlloc Regions Codec Dict HeapStore SlotPage.

(** ** Sorted pages *)

Definition sorted_page (p : SlotPage) : Prop := StronglySorted Z.lt (map fst (entries p)).

Definition page_map (p : SlotPage) : gmap Z Entry := list_to_map (entries p).

Lemma sorted_increasing l : StronglySorted Z.lt l -> increasing l.
Proof.
  induction 1 as [|k l Hl IH Hk]; intros i j x y Hi Hj Hij; [done|].
  destruct i as [|i], j as [|j]; simpl in *; try lia.
  - injection Hi as <-. rewrite Forall_forall in Hk. apply Hk. by eapply list_elem_of_lookup_2.
  - apply (IH i j); [done..|lia].
Qed.

Lemma sorted_nodup l : StronglySorted Z.lt l -> NoDup l.
Proof.
  induction 1 as [|k l Hl IH Hk]; constructor; [|done]. rewrite Forall_forall in Hk. intros Hin. specialize (Hk _ Hin). lia.
Qed.

(** The place of an id among sorted records. *)
Record place_of {A} (es : list (Z * A)) (id : Z) (l1 mid l2 : list (Z * A)) : Prop := {
  po_split : es = l1 ++ mid ++ l2;
  po_below : forall k, k ∈ map fst l1 -> k < id;
  po_above : forall k, k ∈ map fst l2 -> id < k;
  po_mid : mid = [] \/ exists e, mid = [(id, e)]
}.

(** Where a search of sorted keys ends. *)
Lemma search_place {A} (es : list (Z * A)) id : StronglySorted Z.lt (map fst es) ->
  exists l1 mid l2, place_of es id l1 mid l2 /\
    binary_search (map fst es) id = match mid with [] => inr (length l1) | _ => inl (length l1) end.
Proof.
  intros Hs%sorted_increasing. pose proof (binary_search_spec _ id Hs) as Hf.
  destruct (binary_search (map fst es) id) as [i|i].
  - rewrite list_lookup_fmap in Hf. destruct (es !! i) as [[k e]|] eqn:Ei; [|done]. injection Hf as [= ->].
    exists (take i es), [(id, e)], (drop (S i) es). apply lookup_lt_Some in Ei as Hlt. split; [|by rewrite length_take_le by lia].
    constructor; [symmetry; exact (take_drop_middle es i _ Ei)| | |by right; exists e].
    + intros k (j & Hj)%list_elem_of_lookup_1. rewrite list_lookup_fmap in Hj.
      destruct (take i es !! j) as [[k' e']|] eqn:Ej; [|done]. injection Hj as ->.
      apply lookup_take_Some in Ej as [Ej Hji]. apply (Hs j i); [by rewrite list_lookup_fmap, Ej|by rewrite list_lookup_fmap, Ei|done].
    + intros k (j & Hj)%list_elem_of_lookup_1. rewrite list_lookup_fmap, lookup_drop in Hj.
      destruct (es !! (S i + j)%nat) as [[k' e']|] eqn:Ej; [|done]. injection Hj as ->.
      apply (Hs i (S i + j)%nat); [by rewrite list_lookup_fmap, Ei|by rewrite list_lookup_fmap, Ej|lia].
  - destruct Hf as (Hl & Hlo & Hhi). rewrite length_map in Hl.
    exists (take i es), [], (drop i es). split; [|by rewrite length_take_le].
    constructor; [simpl; by rewrite take_drop| | |by left].
    + intros k (j & Hj)%list_elem_of_lookup_1. rewrite list_lookup_fmap in Hj.
      destruct (take i es !! j) as [[k' e']|] eqn:Ej; [|done]. injection Hj as ->.
      apply lookup_take_Some in Ej as [Ej Hlt]. apply (Hlo j); [by rewrite list_lookup_fmap, Ej|done].
    + intros k (j & Hj)%list_elem_of_lookup_1. rewrite list_lookup_fmap, lookup_drop in Hj.
      destruct (es !! (i + j)%nat) as [[k' e']|] eqn:Ej; [|done]. injection Hj as ->.
      apply (Hhi (i + j)%nat); [by rewrite list_lookup_fmap, Ej|lia].
Qed.

Lemma page_place p id : sorted_page p ->
  exists l1 mid l2, place_of (entries p) id l1 mid l2 /\
    page_get p id = snd <$> head mid /\
    (forall e, upsert_entry id e p = with_entries p (l1 ++ (id, e) :: l2)) /\
    page_remove id p = (with_entries p (l1 ++ l2), match mid with [] => false | _ => true end).
Proof.
  intros Hs. destruct (search_place (entries p) id Hs) as (l1 & mid & l2 & Hp & Hf). exists l1, mid, l2. split; [done|].
  unfold page_get, upsert_entry, page_remove, page_find. rewrite Hf. destruct (po_mid _ _ _ _ _ Hp) as [->|[e0 ->]];
    rewrite (po_split _ _ _ _ _ Hp); cbn [app].
  - split; [done|]. split; [intros e; by rewrite take_app_length, drop_app_length|].
    f_equal. destruct p. unfold with_entries. simpl. f_equal. exact (po_split _ _ _ _ _ Hp).
  - split; [by rewrite list_lookup_middle|]. split; [intros e; by rewrite alter_app_r_alt, Nat.sub_diag by lia|].
    by rewrite delete_middle.
Qed.

(** Writing at a place. *)
Lemma place_sorted {A} (es : list (Z * A)) id l1 mid l2 new :
  StronglySorted Z.lt (map fst es) -> place_of es id l1 mid l2 -> new = [] \/ (exists e, new = [(id, e)]) ->
  StronglySorted Z.lt (map fst (l1 ++ new ++ l2)).
Proof.
  intros Hs [-> Hb Ha _] Hn. rewrite !map_app, !StronglySorted_app in Hs. destruct Hs as (H12 & H1 & _ & _ & H2).
  rewrite !map_app, !StronglySorted_app. split; [|split; [done|split; [|split; [|done]]]].
  - intros x y Hx [Hy|Hy]%elem_of_app.
    + destruct Hn as [->|[e ->]]; [by apply elem_of_nil in Hy|]. apply list_elem_of_singleton in Hy as ->. by apply Hb.
    + apply H12; [done|]. apply elem_of_app. by right.
  - intros x y Hx Hy. destruct Hn as [->|[e ->]]; [by apply elem_of_nil in Hx|].
    apply list_elem_of_singleton in Hx as ->. by apply Ha.
  - destruct Hn as [->|[e ->]]; repeat constructor.
Qed.

Lemma place_lookup {A} (es : list (Z * A)) id l1 mid l2 new k :
  place_of es id l1 mid l2 -> new = [] \/ (exists e, new = [(id, e)]) ->
  (list_to_map (l1 ++ new ++ l2) : gmap Z A) !! k =
    if decide (k = id) then snd <$> head new else (list_to_map es : gmap Z A) !! k.
Proof.
  intros [-> Hb Ha Hm] Hn. rewrite !list_to_map_app.
  assert ((list_to_map l1 : gmap Z A) !! id = None) as E1.
  { apply not_elem_of_list_to_map_1. intros Hin. specialize (Hb _ Hin). lia. }
  assert ((list_to_map l2 : gmap Z A) !! id = None) as E2.
  { apply not_elem_of_list_to_map_1. intros Hin. specialize (Ha _ Hin). lia. }
  case_decide as Hk; [subst k|].
  - rewrite lookup_union_r by done. destruct Hn as [->|[e ->]]; simpl.
    + by rewrite lookup_union_r.
    + apply lookup_union_Some_l. by rewrite lookup_insert_eq.
  - assert (forall l : list (Z * A), l = [] \/ (exists e, l = [(id, e)]) ->
      (list_to_map l : gmap Z A) !! k = None) as Hone.
    { intros ? [->|[e ->]]; [done|]. simpl. by rewrite lookup_insert_ne. }
    by rewrite !lookup_union, (Hone new Hn), (Hone mid Hm).
Qed.

Lemma page_get_map p id : sorted_page p -> page_get p id = page_map p !! id.
Proof.
  intros Hs. destruct (page_place p id Hs) as (l1 & mid & l2 & Hp & -> & _ & _). unfold page_map.
  rewrite (po_split _ _ _ _ _ Hp). rewrite (place_lookup (entries p) id l1 mid l2) by (done || apply Hp).
  by rewrite decide_True.
Qed.

Lemma upsert_entry_map p id e : sorted_page p ->
  sorted_page (upsert_entry id e p) /\ page_map (upsert_entry id e p) = <[id := e]> (page_map p) /\
  struct_id (upsert_entry id e p) = struct_id p /\ version (upsert_entry id e p) = version p.
Proof.
  intros Hs. destruct (page_place p id Hs) as (l1 & mid & l2 & Hp & _ & -> & _). unfold sorted_page, page_map. simpl.
  change ((id, e) :: l2) with ([(id, e)] ++ l2). split; [eapply place_sorted; eauto|]. split; [|done].
  apply map_eq. intros k. rewrite (place_lookup (entries p) id l1 mid l2) by eauto.
  case_decide as Hk; [subst k; by rewrite lookup_insert_eq|by rewrite lookup_insert_ne].
Qed.

Lemma page_remove_map p id : sorted_page p ->
  exists p' b, page_remove id p = (p', b) /\ sorted_page p' /\ page_map p' = delete id (page_map p) /\
    b = bool_decide (is_Some (page_map p !! id)) /\ struct_id p' = struct_id p /\ version p' = version p.
Proof.
  intros Hs. destruct (page_place p id Hs) as (l1 & mid & l2 & Hp & Hg & _ & ->).
  eexists _, _. split; [done|]. unfold sorted_page, page_map. simpl.
  change (l1 ++ l2) with (l1 ++ [] ++ l2). split; [eapply place_sorted; eauto|]. split.
  { apply map_eq. intros k. rewrite (place_lookup (entries p) id l1 mid l2) by eauto.
    case_decide as Hk; [subst k; by rewrite lookup_delete_eq|by rewrite lookup_delete_ne]. }
  split; [|done]. change (list_to_map (entries p) : gmap Z Entry) with (page_map p). rewrite <- page_get_map, Hg by done.
  destruct (po_mid _ _ _ _ _ Hp) as [->|[e ->]]; done.
Qed.

(** ** The image *)

Definition entry_fits (r : Z * Entry) : Prop :=
  fits 128 r.1 /\ match r.2 with Inline b => fits 32 (zlen b) | Heap h => fits 128 h end.

Record page_fits (p : SlotPage) : Prop := {
  pf_sid : fits 32 (struct_id p);
  pf_version : fits 8 (version p);
  pf_entries : Forall entry_fits (entries p);
  pf_records : records_len p <= 2 ^ 31
}.

(** The two kinds of record have the same shape. *)
Definition entry_kind (e : Entry) : Z := match e with Inline _ => KIND_INLINE | Heap _ => KIND_HEAP end.
Definition entry_payload (e : Entry) : list byte := match e with Inline b => b | Heap h => le_bytes 16 h end.
Definition record_image (r : Z * Entry) : list byte :=
  le_bytes 16 r.1 ++ le_bytes 1 (entry_kind r.2) ++ le_bytes 4 (zlen (entry_payload r.2)) ++ entry_payload r.2.

Lemma record_bytes_image r : entry_fits r -> record_bytes r = Done (record_image r).
Proof.
  destruct r as [id [b|h]]; intros [_ Hf]; unfold record_bytes, record_image; simpl in *.
  - by rewrite (proj2 (fitsb_spec 32 (zlen b))).
  - by rewrite zlen_le_bytes.
Qed.

Lemma zlen_record_image r : zlen (record_image r) = ENTRY_HEADER_LEN + payload_len r.2.
Proof.
  unfold record_image. rewrite !zlen_app, !zlen_le_bytes. destruct r as [id [b|h]]; simpl; [|rewrite zlen_le_bytes];
    change ENTRY_HEADER_LEN with 21; lia.
Qed.

Lemma records_image p : Forall entry_fits (entries p) ->
  records_bytes p = Done (concat (map record_image (entries p))) /\
  zlen (concat (map record_image (entries p))) = records_len p.
Proof.
  intros H. unfold records_bytes, records_len. induction H as [|r es Hr _ [IH1 IH2]]; [done|].
  destruct (omapM record_bytes es) as [rs|?|] eqn:E; simpl in IH1; [|done|done]. injection IH1 as IH1. simpl.
  rewrite record_bytes_image, E by done. simpl. split; [by rewrite IH1|].
  destruct r as [id e]. rewrite zlen_app, zlen_record_image, IH2. simpl. lia.
Qed.

Lemma records_count p : zlen (entries p) * ENTRY_HEADER_LEN <= records_len p.
Proof.
  unfold records_len, zlen, ENTRY_HEADER_LEN. induction (entries p) as [|[id e] es IH]; [done|].
  simpl. assert (0 <= payload_len e) by (destruct e; simpl; [apply zlen_nonneg|done]). lia.
Qed.

Lemma decode_entries_image es off records :
  Forall entry_fits es -> stands records off (concat (map record_image es)) ->
  decode_entries (length es) off records = Done es.
Proof.
  intros H. revert off. induction H as [|[id e] es [Hid He] _ IH]; intros off Hs; [done|].
  simpl in Hs, Hid, He. apply stands_app in Hs as [Hr Hs].
  pose proof (stands_bound _ _ _ Hr) as [H0 Hb]. rewrite zlen_record_image in Hs, Hb. simpl in Hs, Hb.
  unfold record_image in Hr. simpl in Hr. fields Hr.
  assert (zlen (entry_payload e) = payload_len e) as El by (destruct e; simpl; [done|by rewrite zlen_le_bytes]).
  assert (fits 32 (payload_len e)) as Hf by (destruct e; done). unfold ENTRY_HEADER_LEN in *.
  cbn [length decode_entries]. unfold ENTRY_HEADER_LEN. assert (0 <= payload_len e) by (unfold fits in Hf; lia).
  replace (zlen records <? off + 21) with false by lia.
  rewrite El in F1. replace (off + Z.of_nat 16 + Z.of_nat 1) with (off + 17) in F1 by lia.
  change (Z.of_nat 16) with 16 in F0.
  change (u_at off 16 records) with (u_at off (Z.of_nat 16) records).
  change (u_at (off + 16) 1 records) with (u_at (off + 16) (Z.of_nat 1) records).
  change (u_at (off + 17) 4 records) with (u_at (off + 17) (Z.of_nat 4) records).
  rewrite (u_at_stands _ _ _ _ F), (u_at_stands _ _ _ _ F0), (u_at_stands _ _ _ _ F1) by (done || by destruct e).
  cbn [obind]. cbv zeta. replace (zlen records <? off + 21 + payload_len e) with false by lia.
  replace (off + Z.of_nat 16 + Z.of_nat 1 + Z.of_nat 4) with (off + 21) in Hr by lia.
  rewrite (stands_sub _ _ _ _ Hr) by lia. cbn [expect obind]. 
  replace (off + (21 + payload_len e)) with (off + 21 + payload_len e) in Hs by lia.
  destruct e as [b|h]; simpl in *; rewrite IH by done; [done|]. simpl. by rewrite le_val_bytes.
Qed.

Section roundtrip.
Context `{CodecLaws}.

(** The dictionary a page is encoded with: an empty one is no dictionary. *)
Definition effective (dict : option (list byte * DictRef)) : option (list byte * DictRef) :=
  match dict with Some (_ :: _, _) => dict | _ => None end.

Definition effective_ref (dict : option (list byte * DictRef)) : DictRef := from_option snd NONE (effective dict).

(** The fields of an image, and what they say. *)
Lemma encode_image p dict :
  page_fits p -> exists payload codec,
    let raw := concat (map record_image (entries p)) in
    encode p dict = Done (sealed (le_bytes 4 (HEADER_LEN + zlen payload) ++ le_bytes 4 (struct_id p) ++
      le_bytes 1 (version p) ++ le_bytes 1 codec ++ le_bytes 8 (effective_ref dict) ++ le_bytes 4 (zlen raw) ++
      le_bytes 4 (zlen (entries p)) ++ payload)) /\
    zlen payload <= compress_bound (records_len p) /\ fits 8 codec /\
    (if codec =? CODEC_RAW then Done payload
     else if codec =? CODEC_DICT then
       let* d := ok_or (fst <$> effective dict) (Other "dict page needs a dictionary") in
       decode_with_dict payload d (zlen raw)
     else Fail (Other "unknown page codec")) = Done raw.
Proof.
  intros Hp. destruct (records_image p (pf_entries _ Hp)) as [Er El]. pose proof (records_count p) as Hc.
  pose proof (pf_records _ Hp) as Hr. unfold encode. rewrite Er. cbn [obind]. cbv zeta.
  set (raw := concat _) in *. pose proof (zlen_nonneg raw). pose proof (zlen_nonneg (entries p)).
  assert (forall codec r payload, zlen payload <= compress_bound (records_len p) ->
    (let total := HEADER_LEN + zlen payload in
     do* guard (fitsb 32 total) in do* guard (fitsb 32 (zlen raw)) in do* guard (fitsb 32 (zlen (entries p))) in
     Done (sealed (le_bytes 4 total ++ le_bytes 4 (struct_id p) ++ le_bytes 1 (version p) ++ le_bytes 1 codec ++
       le_bytes 8 r ++ le_bytes 4 (zlen raw) ++ le_bytes 4 (zlen (entries p)) ++ payload))) =
    Done (E := StorageError) (sealed (le_bytes 4 (HEADER_LEN + zlen payload) ++ le_bytes 4 (struct_id p) ++ le_bytes 1 (version p) ++
      le_bytes 1 codec ++ le_bytes 8 r ++ le_bytes 4 (zlen raw) ++ le_bytes 4 (zlen (entries p)) ++ payload))) as Hlast.
  { intros codec r payload Hpay. unfold HEADER_LEN, ENTRY_HEADER_LEN, compress_bound in *. pose proof (zlen_nonneg payload).
    cbv zeta. rewrite !(proj2 (fitsb_spec 32 _)); [done|unfold fits; Z.to_euclidean_division_equations; lia..]. }
  assert (zlen raw <= compress_bound (records_len p)) as Hraw.
  { unfold compress_bound. pose proof (Z.div_pos (records_len p) 256). lia. }
  destruct dict as [[[|d0 d] r]|]; cbn [obind].
  - exists raw, CODEC_RAW. rewrite Hlast by done. split_and!; done.
  - destruct (with_dict_codes raw (d0 :: d)) as (c & -> & Hd & Hl). cbn [obind]. exists c, CODEC_DICT.
    rewrite El in Hl. rewrite Hlast by done. by split_and!.
  - exists raw, CODEC_RAW. rewrite Hlast by done. split_and!; done.
Qed.

(** The length of an image. *)
Definition image_bound (p : SlotPage) : Z := HEADER_LEN + compress_bound (records_len p).

Lemma page_image_ok p dict :
  page_fits p -> fits 64 (effective_ref dict) ->
  exists image, encode p dict = Done image /\ HEADER_LEN <= zlen image <= image_bound p /\
    forall pad, decode (image ++ pad) (fst <$> effective dict) = Done p /\
      dict_ref_of (image ++ pad) = Done (effective_ref dict).
Proof.
  intros Hp Hr. destruct (encode_image p dict Hp) as (payload & codec & -> & Hl & Hc & Hres).
  set (raw := concat _) in *. set (body := le_bytes 4 (HEADER_LEN + _) ++ _).
  assert (zlen body = 26 + zlen payload) as Eb by (unfold body; rewrite !zlen_app, !zlen_le_bytes; lia).
  destruct (records_image p (pf_entries _ Hp)) as [_ El]. fold raw in El. pose proof (records_count p) as Hn.
  pose proof (pf_records _ Hp) as Hrec. pose proof (zlen_nonneg payload). pose proof (zlen_nonneg (entries p)).
  pose proof (zlen_nonneg raw). unfold image_bound, HEADER_LEN, ENTRY_HEADER_LEN in *.
  eexists. split; [done|]. rewrite zlen_sealed. split; [lia|]. intros pad. set (b := sealed body ++ pad).
  pose proof (sealed_body body pad) as Hs. fold b in Hs. unfold body in Hs. fields Hs.
  assert (zlen b = 30 + zlen payload + zlen pad) as Elb by (unfold b; rewrite zlen_app, zlen_sealed; lia).
  pose proof (zlen_nonneg pad). assert (fits 32 (30 + zlen payload)) as Hfit.
  { unfold fits, compress_bound in *. Z.to_euclidean_division_equations; lia. }
  assert (fits 32 (zlen raw) /\ fits 32 (zlen (entries p))) as [Hraw Hcnt] by (unfold fits; lia).
  unfold decode, dict_ref_of, HEADER_LEN. replace (zlen b <? 30) with false by lia.
  change (u_at 14 8 b) with (u_at 14 (Z.of_nat 8) b). rewrite (u_at_stands _ _ _ _ F3) by done. split; [|done].
  change (u_at 4 4 b) with (u_at 4 (Z.of_nat 4) b). change (u_at 8 4 b) with (u_at 8 (Z.of_nat 4) b).
  change (u_at 12 1 b) with (u_at 12 (Z.of_nat 1) b). change (u_at 13 1 b) with (u_at 13 (Z.of_nat 1) b).
  change (u_at 22 4 b) with (u_at 22 (Z.of_nat 4) b). change (u_at 26 4 b) with (u_at 26 (Z.of_nat 4) b).
  destruct Hp as [Hsid Hver Hes _].
  rewrite (u_at_stands _ _ _ _ F), (u_at_stands _ _ _ _ F0), (u_at_stands _ _ _ _ F1), (u_at_stands _ _ _ _ F2),
    (u_at_stands _ _ _ _ F4), (u_at_stands _ _ _ _ F5) by done. cbn [obind].
  replace (30 + zlen payload <? 30) with false by lia. replace (zlen b <? 30 + zlen payload) with false by lia. cbn [orb].
  assert (check_seal (30 + zlen payload) b = Done tt) as -> by (apply check_sealed; lia). cbn [obind].
  rewrite (stands_sub b 30 payload _ Hs) by lia. cbn [expect obind]. rewrite Hres. cbn [obind].
  replace (Z.to_nat (zlen (entries p))) with (length (entries p)) by (unfold zlen; lia).
  rewrite decode_entries_image; [by destruct p|done|]. split; [done|]. exists [], []. by rewrite app_nil_r.
Qed.

(** An entry written to a sorted page survives the page's image: whatever dictionary the page is compressed with and however the run pads the image, the decoded page finds the new entry under its id and every other id as before *)
Theorem page_image_lookup p id e dict :
  sorted_page p -> page_fits (upsert_entry id e p) -> fits 64 (effective_ref dict) ->
  exists image, encode (upsert_entry id e p) dict = Done image /\
    forall pad, exists p', decode (image ++ pad) (fst <$> effective dict) = Done p' /\
      forall id', page_get p' id' = if decide (id' = id) then Some e else page_get p id'.
Proof.
  intros Hs Hp Hr. destruct (page_image_ok _ dict Hp Hr) as (image & E & _ & Hd). exists image. split; [done|].
  intros pad. destruct (Hd pad) as [Hdec _]. eexists. split; [done|]. intros id'.
  destruct (upsert_entry_map p id e Hs) as (Hs' & Hm & _). rewrite !page_get_map, Hm by done.
  case_decide as Hid; [subst; by rewrite lookup_insert_eq|by rewrite lookup_insert_ne].
Qed.
End roundtrip.

(** The theorem on an empty page, uncompressed. *)
Lemma page_image_lookup_witness :
  let p := page_new 7 2 in
  exists image, encode (H := plain_codecs) (upsert_entry 5 (Inline [Byte.x61]) p) None = Done image /\
    forall pad, exists p', decode (H := plain_codecs) (image ++ pad) None = Done p' /\
      forall id', page_get p' id' = if decide (id' = 5) then Some (Inline [Byte.x61]) else page_get p id'.
Proof.
  cbv zeta. apply (page_image_lookup (H := plain_codecs) (H0 := plain_codec_laws) (page_new 7 2) 5 (Inline [Byte.x61]) None).
  - constructor.
  - constructor; [by vm_compute|by vm_compute| |by vm_compute]. repeat constructor; by vm_compute.
  - by vm_compute.
Defined.
