(* ===== verification/Directory.v ===== *)
(** * The page directory (wavedb-storage: file/directory.rs)

    A directory routes each id to a slot; a slot's descriptor locates the page of
    its records.  Pages are replaced, never changed in place: write the new page,
    swap the descriptor, free the old run. *)
From S2P Require Import Prelude Ordered Wire Errors Hash BlockAlloc BlockFile Regions PageDir Codec Dict HeapStore SlotPage.

Definition INITIAL_PAGE_BLOCKS : Z := 1.
Definition PAGE_GROW_OCCUPATION : Z := 48.
Definition HEAP_SPILL_THRESHOLD : Z := 64 * 1024.

(** The mix of an id that routing uses. *)
Definition id_mix (id : Z) : Z :=
  mix64 (Z.lxor (wrap 64 id) (rotate_left (wrap 64 (Z.shiftr id 64)) 32)).

Definition slot_for (id slot_count : Z) : nat := Z.to_nat (id_mix id mod slot_count).

Record SlotCommit : Type := {
  descriptor : PageDescriptor;
  allocated : option BlockRun;
  freed : option BlockRun;
  heap_allocated : list BlockRun;
  heap_freed : list BlockRun
}.

Record PageDirectory : Type := {
  dir_struct_id : Z;
  dir_version : Z;
  dicts : DictStore;
  slots : list PageDescriptor
}.

Abbreviation M := (ST (PageDirectory * BlockFile) StorageError).

Definition with_dicts (s : DictStore) (d : PageDirectory) : PageDirectory :=
  {| dir_struct_id := dir_struct_id d; dir_version := dir_version d; dicts := s; slots := slots d |}.
Definition with_slots (l : list PageDescriptor) (d : PageDirectory) : PageDirectory :=
  {| dir_struct_id := dir_struct_id d; dir_version := dir_version d; dicts := dicts d; slots := l |}.

Definition on_dicts {A} (m : ST (DictStore * BlockFile) StorageError A) : M A :=
  fun '(d, f) => let '(r, (s, f)) := m (dicts d, f) in (r, (with_dicts s d, f)).

Definition dir_new (sid ver slot_count : Z) : StorageResult PageDirectory :=
  do* guard (0 <? slot_count) in
  Done {| dir_struct_id := sid; dir_version := ver; dicts := dicts_new;
          slots := replicate (Z.to_nat slot_count) DESC_EMPTY |}.

Definition from_slots (sid ver : Z) (l : list PageDescriptor) : StorageResult PageDirectory :=
  do* guard (negb (zlen l =? 0)) in
  Done {| dir_struct_id := sid; dir_version := ver; dicts := dicts_new; slots := l |}.

Definition slot_count (d : PageDirectory) : Z := zlen (slots d).
Definition slot_of (d : PageDirectory) (id : Z) : nat := slot_for id (slot_count d).
Definition allocated_slots (d : PageDirectory) : list PageDescriptor := filter (fun p => is_allocated p = true) (slots d).
Definition used_runs (d : PageDirectory) : list BlockRun := map desc_run (allocated_slots d).
Definition has_dictionary (d : PageDirectory) : bool := negb (is_none (current (dicts d))).
Definition empty_page (d : PageDirectory) : SlotPage := page_new (dir_struct_id d) (dir_version d).

Section directory.
Context `{Codecs}.

Definition install_dictionary (dict : list byte) : M DictRef := on_dicts (install dict).

(** ** Pages *)

Definition read_run_page (r : BlockRun) : M SlotPage :=
  let! bytes := on_file (read_run r) in
  let! dict_ref := st_lift (dict_ref_of bytes) in
  if is_none dict_ref then st_lift (decode bytes None)
  else
    let! dict := on_dicts (load dict_ref) in
    st_lift (decode bytes (Some dict)).

Definition read_slot (desc : PageDescriptor) : M SlotPage :=
  if is_allocated desc then read_run_page (desc_run desc)
  else on_self (st_gets empty_page).

Definition place_page (p : SlotPage) (dict : option (list byte * DictRef)) : BF PageDescriptor :=
  let! image := st_lift (encode p dict) in
  let need := zlen image in
  let min_blocks := blocks_for_bytes need in
  if MAX_BLOCK_COUNT <? min_blocks then st_lift (Fail (Other "page exceeds max blocks"))
  else
    let doubled := Z.min (blocks_for_bytes need * 2) (2 ^ 64 - 1) in
    let target := Z.max (Z.min (Z.max doubled INITIAL_PAGE_BLOCKS) MAX_BLOCK_COUNT) min_blocks in
    let! r := block_allocate target in
    do! write_run r image in
    let! len := st_lift (byte_len r) in
    st_lift (desc_from_run r (occupation_for need len)).

Definition current_dict : M (option (list byte * DictRef)) :=
  let! r := on_self (st_gets (fun d => current (dicts d))) in
  if is_none r then st_ret None
  else let! bytes := on_dicts (load r) in st_ret (Some (bytes, r)).

Definition place (p : SlotPage) : M PageDescriptor :=
  let! dict := current_dict in
  on_file (place_page p dict).

(** ** Scans *)

Definition push_ref (refs : list DictRef) (r : DictRef) : list DictRef :=
  if negb (is_none r) && negb (bool_decide (r ∈ refs)) then refs ++ [r] else refs.

Definition page_dict_refs : M (list DictRef) :=
  let! pages := on_self (st_gets allocated_slots) in
  st_foldl (fun refs desc =>
    let! bytes := on_file (read_run (desc_run desc)) in
    let! r := st_lift (dict_ref_of bytes) in
    st_ret (push_ref refs r)) [] pages.

Definition adopt_dictionary_from_pages : M unit :=
  let! refs := page_dict_refs in
  match refs with
  | [] => st_ret tt
  | r :: _ => on_self (st_modify (fun d => with_dicts (adopt r (dicts d)) d))
  end.

Definition dict_runs_in_use : M (list DictRef) :=
  let! refs := page_dict_refs in
  let! c := on_self (st_gets (fun d => current (dicts d))) in
  st_ret (push_ref refs c).

(** The inline payloads of one page, up to [max] in all; [true] when that many. *)
Fixpoint take_samples (max : Z) (samples : list (list byte)) (es : list (Z * Entry)) : list (list byte) * bool :=
  match es with
  | [] => (samples, false)
  | (_, Heap _) :: es => take_samples max samples es
  | (_, Inline payload) :: es =>
    let samples := samples ++ [payload] in
    if max <=? zlen samples then (samples, true) else take_samples max samples es
  end.

Fixpoint sample_pages (max : Z) (samples : list (list byte)) (pages : list PageDescriptor) : M (list (list byte)) :=
  match pages with
  | [] => st_ret samples
  | desc :: pages =>
    let! page := read_run_page (desc_run desc) in
    let '(samples, full) := take_samples max samples (entries page) in
    if full then st_ret samples else sample_pages max samples pages
  end.

Definition sample_payloads (max : Z) : M (list (list byte)) :=
  let! pages := on_self (st_gets allocated_slots) in sample_pages max [] pages.

Definition heap_runs_of (p : SlotPage) : list BlockRun := omap (fun r => heap_run <$> heap_ref r.2) (entries p).

Definition heap_runs_in_use : M (list BlockRun) :=
  let! pages := on_self (st_gets allocated_slots) in
  st_foldl (fun runs desc =>
    let! page := read_run_page (desc_run desc) in
    st_ret (runs ++ heap_runs_of page)) [] pages.

(** ** Reads and writes *)

(** [self.slots[i]]. *)
Definition slot_at (i : nat) : M PageDescriptor :=
  let! l := on_self (st_gets slots) in st_lift (expect (l !! i)).

Definition dir_get (id : Z) : M (option (list byte)) :=
  let! i := on_self (st_gets (fun d => slot_of d id)) in
  let! desc := slot_at i in
  if negb (is_allocated desc) then st_ret None
  else
    let! page := read_run_page (desc_run desc) in
    match page_get page id with
    | None => st_ret None
    | Some (Inline bytes) => st_ret (Some bytes)
    | Some (Heap r) => let! v := on_file (heap_get r) in st_ret (Some v)
    end.

(** A page under change, and the extents taken and orphaned on the way. *)
Definition Edit : Type := SlotPage * list BlockRun * list BlockRun.

Definition apply_mutation (id : Z) (value : option (list byte)) (s : Edit) : BF Edit :=
  let '(page, taken, orphaned) := s in
  let orphaned := match page_get page id with
                  | Some (Heap old) => orphaned ++ [heap_run old]
                  | _ => orphaned
                  end in
  match value with
  | None => st_ret ((page_remove id page).1, taken, orphaned)
  | Some bytes =>
    if HEAP_SPILL_THRESHOLD <? zlen bytes then
      let! r := heap_put bytes in
      st_ret (upsert_entry id (Heap r) page, taken ++ [heap_run r], orphaned)
    else st_ret (upsert_entry id (Inline bytes) page, taken, orphaned)
  end.

Definition commit_page (slot : nat) (old : PageDescriptor) (s : Edit) : M SlotCommit :=
  let '(page, taken, orphaned) := s in
  let! new_desc := (if page_is_empty page then st_ret DESC_EMPTY else place page) in
  let allocated := if is_allocated new_desc then Some (desc_run new_desc) else None in
  let freed := if is_allocated old then Some (desc_run old) else None in
  do! match freed with Some r => on_file (block_free r) | None => st_ret tt end in
  do! st_iter (fun r => on_file (block_free r)) orphaned in
  do! on_self (st_modify (fun d => with_slots (<[slot := new_desc]> (slots d)) d)) in
  st_ret {| descriptor := new_desc; allocated := allocated; freed := freed;
            heap_allocated := taken; heap_freed := orphaned |}.

Definition dir_put (id : Z) (payload : list byte) : M unit :=
  let! i := on_self (st_gets (fun d => slot_of d id)) in
  let! desc := slot_at i in
  let! page := read_slot desc in
  let! s := on_file (apply_mutation id (Some payload) (page, [], [])) in
  do! commit_page i desc s in
  st_ret tt.

Definition dir_remove (id : Z) : M bool :=
  let! i := on_self (st_gets (fun d => slot_of d id)) in
  let! desc := slot_at i in
  if negb (is_allocated desc) then st_ret false
  else
    let! page := read_slot desc in
    match page_get page id with
    | None => st_ret false
    | Some _ =>
      let! s := on_file (apply_mutation id None (page, [], [])) in
      do! commit_page i desc s in
      st_ret true
    end.

Definition commit_slot (slot : nat) (mutations : gmap Z (option (list byte))) : M SlotCommit :=
  let! desc := slot_at slot in
  let! page := read_slot desc in
  let! s := st_foldl (fun s '(id, m) => on_file (apply_mutation id m s)) (page, [], []) (by_key mutations) in
  commit_page slot desc s.

(** ** Growth *)

Definition is_hot (p : PageDescriptor) : bool :=
  is_allocated p && (PAGE_GROW_OCCUPATION <=? occupation p) && (MAX_BLOCK_COUNT <=? PageDir.block_count p * 2).

Definition needs_grow (d : PageDirectory) : bool :=
  slot_count d * 3 <=? zlen (filter (fun p => is_hot p = true) (slots d)) * 4.

(** One page's records, into the buckets of the new layout. *)
Definition rebucket (new_count : Z) (buckets : list SlotPage) (es : list (Z * Entry)) : list SlotPage :=
  foldl (fun bs '(id, e) => alter (upsert_entry id e) (slot_for id new_count) bs) buckets es.

Definition place_bucket (new_slots : list PageDescriptor) (page : SlotPage) : M (list PageDescriptor) :=
  if page_is_empty page then st_ret (new_slots ++ [DESC_EMPTY])
  else let! desc := place page in st_ret (new_slots ++ [desc]).

Definition dir_grow_to (new_count : Z) : M (list BlockRun) :=
  let! d := on_self (st_gets (fun d => d)) in
  do! st_lift (guard (slot_count d <=? new_count)) in
  let old_runs := used_runs d in
  let! buckets := st_foldl (fun bs r =>
    let! page := read_run_page r in
    st_ret (rebucket new_count bs (entries page))) (replicate (Z.to_nat new_count) (empty_page d)) old_runs in
  let! new_slots := st_foldl place_bucket [] buckets in
  do! on_self (st_modify (with_slots new_slots)) in
  do! st_iter (fun r => on_file (block_free r)) old_runs in
  st_ret old_runs.

Definition dir_grow : M (list BlockRun) :=
  let! n := on_self (st_gets slot_count) in dir_grow_to (Z.min (n * 2) (2 ^ 64 - 1)).
End directory.
