(* ===== verification/DirectoryOk.v ===== *)
(** * A page directory refines a map

    What a directory owns: the pages of its dictionaries, and for each slot the page
    the descriptor names with the extents its records point to. *)
From stdpp Require Import sorting.
From S2P Require Import Prelude Ordered Wire Errors Hash BlockAlloc BlockAllocOk BlockFile Regions PageDir Codec Dict HeapStore SlotPage SlotPageOk Directory.

Abbreviation Values := (gmap Z (list byte)).
Abbreviation apply_all s0 l0 := (st_foldl (fun s '(id, m) => on_file (apply_mutation id m s)) s0 l0).

(** ** One page *)

Section own.
Context `{Codecs}.

(** A record and its value: in the page, or in an extent. *)
Definition entry_own (t : Z * (Entry * list byte)) (x : Regions) : Prop :=
  fits 128 t.1 /\
  match t.2.1 with
  | Inline b => x = ∅ /\ t.2.2 = b /\ zlen b <= HEAP_SPILL_THRESHOLD
  | Heap r => extent_at r t.2.2 x /\ HEAP_SPILL_THRESHOLD < zlen t.2.2
  end.

Definition to_entry (t : Z * (Entry * list byte)) : Z * Entry := (t.1, t.2.1).
Definition to_value (t : Z * (Entry * list byte)) : Z * list byte := (t.1, t.2.2).

Definition page_own (p : SlotPage) (kv : Values) (x : Regions) : Prop :=
  exists ts, entries p = map to_entry ts /\ sorted_page p /\ kv = list_to_map (map to_value ts) /\ owns entry_own ts x.

Definition run_own (r : BlockRun) (x : Regions) : Prop :=
  exists bs, x = {[run_start r := bs]} /\ zlen bs = run_len r * DATA_BLOCK_SIZE.
End own.

(** The bytes a value takes in a page. *)
Definition record_cost (v : list byte) : Z :=
  ENTRY_HEADER_LEN + (if HEAP_SPILL_THRESHOLD <? zlen v then 16 else zlen v).
Definition cost (kv : Values) : Z := msum record_cost kv.

Section pages.
Context `{CodecLaws}.

Lemma page_own_empty sid ver : page_own (page_new sid ver) ∅ ∅.
Proof. exists []. unfold sorted_page. simpl. split_and!; try done. constructor. Qed.

Lemma page_own_fst ts : map fst (map to_entry ts) = map fst ts /\ map fst (map to_value ts) = map fst ts.
Proof. rewrite !map_map. done. Qed.

Lemma place_map {A B} (f : Z * A -> Z * B) ts id l1 mid l2 :
  (forall t, (f t).1 = t.1) -> place_of (map f ts) id l1 mid l2 ->
  exists t1 tm t2, place_of ts id t1 tm t2 /\ l1 = map f t1 /\ mid = map f tm /\ l2 = map f t2.
Proof.
  intros Hf [Es Hb Ha Hm]. apply map_eq_app in Es as (t1 & t' & -> & <- & Es').
  apply map_eq_app in Es' as (tm & t2 & -> & <- & <-).
  assert (forall l, map fst (map f l) = map fst l) as Hk.
  { intros l. rewrite map_map. apply map_ext. intros. apply Hf. }
  rewrite Hk in Hb, Ha. exists t1, tm, t2. split; [|done]. constructor; [done|done|done|].
  destruct Hm as [Hm|[e Hm]]; destruct tm as [|[k a] [|]]; simpl in Hm; try done; [by left|].
  right. exists a. injection Hm as Hm. specialize (Hf (k, a)). rewrite Hm in Hf. simpl in Hf. by subst.
Qed.

(** Taking the record of an id out of a page, and putting another in. *)
Lemma page_own_take p kv x id : page_own p kv x ->
  page_get p id = page_map p !! id /\ (page_map p !! id = None <-> kv !! id = None) /\
  exists xm r, x = xm ∪ r /\ xm ##ₘ r /\
    match page_get p id with
    | Some (Heap h) => run_own (heap_run h) xm /\ exists v, kv !! id = Some v /\ extent_at h v xm
    | Some (Inline b) => xm = ∅ /\ kv !! id = Some b
    | None => xm = ∅
    end /\
    page_own (page_remove id p).1 (delete id kv) r /\
    forall e v y, entry_own (id, (e, v)) y -> y ##ₘ r -> page_own (upsert_entry id e p) (<[id := v]> kv) (y ∪ r).
Proof.
  intros (ts & Ees & Hs & -> & Ho). split; [by apply page_get_map|].
  destruct (page_place p id Hs) as (l1 & mid & l2 & Hp & Hg & Hu & Hr).
  pose proof Hp as Hp'. rewrite Ees in Hp'. apply place_map in Hp' as (t1 & tm & t2 & Ht & -> & -> & ->); [|by intros []].
  destruct (page_own_fst ts) as [_ Ek].
  assert (place_of (map to_value ts) id (map to_value t1) (map to_value tm) (map to_value t2)) as Hv.
  { destruct Ht as [-> Hb Ha Hm]. constructor; [by rewrite !map_app|by rewrite map_map|by rewrite map_map|].
    destruct Hm as [->|[e ->]]; [by left|by right; eexists]. }
  assert (forall new : list (Z * (Entry * list byte)), new = [] \/ (exists e, new = [(id, e)]) ->
    forall p' : SlotPage, entries p' = map to_entry (t1 ++ new ++ t2) -> sorted_page p') as Hsort.
  { intros new Hn p' E. unfold sorted_page. rewrite E, (map_app to_entry t1), (map_app to_entry new). unfold sorted_page in Hs.
    eapply place_sorted; [exact Hs|exact Hp|]. destruct Hn as [->|[e ->]]; [by left|by right; eexists]. }
  assert (forall new : list (Z * (Entry * list byte)), new = [] \/ (exists e, new = [(id, e)]) -> forall k,
    (list_to_map (map to_value (t1 ++ new ++ t2)) : Values) !! k =
    if decide (k = id) then snd <$> head (map to_value new) else (list_to_map (map to_value ts) : Values) !! k) as Hlk.
  { intros new Hn k. rewrite !map_app. eapply place_lookup; [exact Hv|]. destruct Hn as [->|[e ->]]; [by left|by right; eexists]. }
  pose proof (po_split _ _ _ _ _ Ht) as Ets. pose proof (po_mid _ _ _ _ _ Ht) as Hmid.
  assert ((list_to_map (map to_value ts) : Values) !! id = snd <$> head (map to_value tm)) as Hkv.
  { rewrite Ets at 1. by rewrite Hlk, decide_True by done. }
  rewrite <- page_get_map, Hg, Hkv by done. split; [by destruct Hmid as [->|[e ->]]|].
  rewrite Ets in Ho. apply owns_perm with (l' := tm ++ t1 ++ t2) in Ho; [|by rewrite Permutation_app_swap_app].
  apply owns_app in Ho as (xm & r & -> & Hd & Hm & Hrest). exists xm, r. split; [done|]. split; [done|]. split; [|split].
  - destruct Hmid as [->|[[e v] ->]]; simpl; [done|]. apply owns_one in Hm as [_ Hm]. simpl in Hm.
    destruct e as [b|h]; [by destruct Hm as (-> & -> & _)|]. destruct Hm as [Hx _]. split; [|by exists v].
    destruct Hx as (_ & _ & _ & im & pd & _ & -> & Hl). by exists (im ++ pd).
  - exists (t1 ++ t2). rewrite Hr. simpl. rewrite map_app. split; [done|].
    split; [apply (Hsort []); [by left|simpl; by rewrite map_app]|]. split; [|done].
    apply map_eq. intros k. change (t1 ++ t2) with (t1 ++ [] ++ t2). rewrite (Hlk []) by by left.
    case_decide as Hk; [subst k; by rewrite lookup_delete_eq|by rewrite lookup_delete_ne].
  - intros e v y Hy Hyr. exists (t1 ++ [(id, (e, v))] ++ t2). rewrite Hu. simpl. split; [by rewrite !map_app|].
    split; [apply (Hsort [(id, (e, v))]); [by right; eexists|simpl; by rewrite !map_app]|]. split.
    + apply map_eq. intros k. change ((id, (e, v)) :: t2) with ([(id, (e, v))] ++ t2). rewrite Hlk by (right; by eexists).
      case_decide as Hk; [subst k; by rewrite lookup_insert_eq|by rewrite lookup_insert_ne].
    + apply (owns_focus entry_own t1 (id, (e, v)) t2). by exists y, r.
Qed.

(** *** Editing a page *)

(** A run a journal record can hold. *)
Definition run64 (r : BlockRun) : Prop := fits 64 (run_start r) /\ fits 64 (run_len r).

Lemma heap_run64 h : run64 (heap_run h).
Proof.
  split; simpl; [by apply wrap_fits|]. unfold heap_count. eapply (fits_mono 32); [done|by apply wrap_fits].
Qed.

Lemma desc_run64 d : run64 (desc_run d).
Proof.
  split; simpl.
  - unfold PageDir.start_block, PageDir.START_MASK. change (Z.shiftl 1 START_BLOCK_BITS - 1) with (Z.ones 48).
    rewrite Z.land_ones by done. eapply (fits_mono 48); [done|by apply wrap_fits].
  - unfold PageDir.block_count. eapply (fits_mono 8); [done|by apply wrap_fits].
Qed.

Lemma ref_run64 r : run64 (ref_run r).
Proof.
  split; simpl.
  - unfold Dict.start_block, Dict.START_MASK. change (Z.shiftl 1 Dict.START_BITS - 1) with (Z.ones 48).
    rewrite Z.land_ones by done. eapply (fits_mono 48); [done|by apply wrap_fits].
  - unfold Dict.block_count. eapply (fits_mono 16); [done|by apply wrap_fits].
Qed.

Definition commit_run64 (c : SlotCommit) : Prop := Forall run64 (heap_allocated c) /\ Forall run64 (heap_freed c) /\
  Forall run64 (option_list (freed c)).

Definition edit_own (sid ver : Z) (s : Edit) (kv : Values) (x : Regions) : Prop :=
  let '(p, taken, orphaned) := s in
  struct_id p = sid /\ version p = ver /\ Forall run64 taken /\ Forall run64 orphaned /\
  exists hx ox, x = hx ∪ ox /\ hx ##ₘ ox /\ page_own p kv hx /\ owns run_own orphaned ox.

(** The blocks a mutation may take. *)
Definition mutation_blocks (value : option (list byte)) : Z :=
  match value with Some v => zlen v / DATA_BLOCK_SIZE + 2 | None => 0 end.

Definition value_small (value : option (list byte)) : Prop := forall v, value = Some v -> zlen v < 2 ^ 40.

Lemma mutation_blocks_nonneg value : 0 <= mutation_blocks value.
Proof. destruct value as [v|]; simpl; [|done]. pose proof (Z.div_pos (zlen v) DATA_BLOCK_SIZE (zlen_nonneg v)). unfold DATA_BLOCK_SIZE in *. lia. Qed.

Lemma upsert_stamp id e p : struct_id (upsert_entry id e p) = struct_id p /\ version (upsert_entry id e p) = version p.
Proof. unfold upsert_entry. by destruct (page_find p id). Qed.

Lemma remove_stamp id p : struct_id (page_remove id p).1 = struct_id p /\ version (page_remove id p).1 = version p.
Proof. unfold page_remove. by destruct (page_find p id). Qed.

Lemma apply_mutation_spec {S} (u : S) sid ver s kv x id value :
  edit_own sid ver s kv x -> fits 128 id -> value_small value ->
  triple u x (on_file (apply_mutation id value s)) (mutation_blocks value) (returns (fun s' u' x' l =>
    u' = u /\ edit_own sid ver s' (partial_alter (fun _ => value) id kv) x' /\ x ⊆ x' /\
    exists new old, s'.1.2 = s.1.2 ++ new /\ s'.2 = s.2 ++ old /\ l = map Took new)).
Proof.
  destruct s as [[p taken] orphaned]. intros (Hsid & Hver & Htk & Hor & hx & ox & -> & Hd & Hp & Ho) Hid Hv.
  destruct (page_own_take p kv hx id Hp) as (Hg & _ & xm & r & -> & Hmr & Hm & Hrem & Hup).
  apply map_disjoint_union_l in Hd as [Hmo Hro]. unfold apply_mutation.
  set (old := match page_get p id with Some (Heap h) => [heap_run h] | _ => [] end).
  set (orphaned' := match page_get p id with Some (Heap h) => orphaned ++ [heap_run h] | _ => orphaned end).
  assert (orphaned' = orphaned ++ old) as Eo.
  { unfold orphaned', old. destruct (page_get p id) as [[b|h]|]; [by rewrite app_nil_r|done|by rewrite app_nil_r]. }
  assert (Forall run64 orphaned') as Hor'.
  { rewrite Eo. apply Forall_app_2; [done|]. unfold old. destruct (page_get p id) as [[b|h]|]; repeat constructor; apply heap_run64. }
  assert (owns run_own orphaned' (xm ∪ ox)) as Hox.
  { rewrite Eo. apply (owns_perm run_own (old ++ orphaned)); [apply Permutation_app_comm|]. apply owns_app.
    exists xm, ox. split; [done|]. split; [done|]. split; [|done]. unfold old.
    destruct (page_get p id) as [[b|h]|]; [by destruct Hm as [-> _]|apply owns_one, Hm|done]. }
  assert (forall y p', y ##ₘ xm -> y ##ₘ r -> y ##ₘ ox -> struct_id p' = sid -> version p' = ver ->
    page_own p' (partial_alter (fun _ => value) id kv) (y ∪ r) ->
    forall t, Forall run64 t -> edit_own sid ver (p', t, orphaned') (partial_alter (fun _ => value) id kv) (y ∪ (xm ∪ r ∪ ox))) as Hfin.
  { intros y p' H1 H2 H3 Es Ev Hp' t Ht. do 4 (split; [done|]). exists (y ∪ r), (xm ∪ ox). split.
    { rewrite (map_union_comm xm r) by done. by rewrite !(assoc_L (∪)). }
    split; [|done]. apply map_disjoint_union_l. split; apply map_disjoint_union_r; done. }
  destruct (remove_stamp id p) as [Er1 Er2].
  destruct value as [v|]; simpl mutation_blocks.
  - specialize (Hv v eq_refl). destruct (Z.ltb_spec HEAP_SPILL_THRESHOLD (zlen v)) as [Hbig|Hsmall].
    + eapply triple_steps; [eapply triple_file_seq; [by apply (heap_put_spec u)|apply Z.le_refl|]|lia].
      intros h ? ? l (-> & -> & y & -> & Hdy & Hy). apply map_disjoint_union_r in Hdy as [[Hdm Hdr]%map_disjoint_union_r Hdo].
      destruct (upsert_stamp id (Heap h) p). apply (triple_file_lift u _ (Done _)). unfold after, returns. split; [done|]. split.
      * apply Hfin; [done..|congruence|congruence| |].
        -- apply Hup; [|done]. by split.
        -- apply Forall_app_2; [done|]. repeat constructor; apply heap_run64.
      * split; [|exists [heap_run h], old; by split]. apply map_union_subseteq_r. repeat (apply map_disjoint_union_r; split); done.
    + destruct (upsert_stamp id (Inline v) p). eapply triple_steps; [apply (triple_file_lift u _ (Done _))|].
      * unfold returns. split; [done|]. split.
        -- pose proof (Hfin ∅ (upsert_entry id (Inline v) p)) as HF. rewrite !(left_id_L ∅ (∪)) in HF.
           apply HF; try apply map_disjoint_empty_l; [congruence|congruence| |done].
           rewrite <- (left_id_L ∅ (∪) r). apply Hup; [by split|apply map_disjoint_empty_l].
        -- split; [done|]. exists [], old. by rewrite app_nil_r.
      * pose proof (mutation_blocks_nonneg (Some v)). done.
  - apply (triple_file_lift u _ (Done _)). unfold returns. split; [done|]. split.
    + pose proof (Hfin ∅ (page_remove id p).1) as HF. rewrite !(left_id_L ∅ (∪)) in HF.
      apply HF; try apply map_disjoint_empty_l; [congruence|congruence|exact Hrem|done].
    + split; [done|]. exists [], old. by rewrite app_nil_r.
Qed.
End pages.

(** ** One slot *)

Section slots.
Context `{CodecLaws}.

Lemma owns_elem {T} (P : T -> Regions -> Prop) l m t : t ∈ l -> owns P l m -> exists x, P t x /\ x ⊆ m.
Proof.
  intros (l1 & l2 & ->)%list_elem_of_split (x & r & -> & Hd & Ht & _)%owns_focus. exists x. split; [done|].
  apply map_union_subseteq_l.
Qed.

(** The size of a page is that of its records. *)
Lemma page_own_fits p kv x :
  page_own p kv x -> fits 32 (struct_id p) -> fits 8 (version p) ->
  records_len p = cost kv /\ (cost kv <= 2 ^ 31 -> page_fits p).
Proof.
  intros (ts & Ees & Hs & -> & Ho) Hsid Hver.
  assert (Forall (fun t => entry_fits (to_entry t) /\ ENTRY_HEADER_LEN + payload_len t.2.1 = record_cost t.2.2) ts) as Hall.
  { apply Forall_forall. intros [id [e v]] Hin. destruct (owns_elem _ _ _ _ Hin Ho) as (y & [Hid He] & _). simpl in *.
    unfold entry_fits, record_cost, to_entry; simpl. destruct e as [b|h].
    - destruct He as (_ & <- & Hl). pose proof (zlen_nonneg v). replace (HEAP_SPILL_THRESHOLD <? zlen v) with false by lia.
      split; [|done]. split; [done|]. unfold fits, HEAP_SPILL_THRESHOLD in *. simpl. lia.
    - destruct He as ((_ & Hh & _) & Hl). by replace (HEAP_SPILL_THRESHOLD <? zlen v) with true by lia. }
  assert (records_len p = cost (list_to_map (map to_value ts))) as El.
  { unfold cost, msum, records_len. rewrite Ees, (lsum_perm _ _ (map to_value ts)).
    - clear -Hall. induction Hall as [|[id [e v]] ts [_ Ht] _ IH]; [done|]. simpl in *. lia.
    - apply map_to_list_to_map. destruct (page_own_fst ts) as [E1 E2].
      change ((map to_value ts).*1) with (map fst (map to_value ts)). rewrite E2, <- E1, <- Ees. by apply sorted_nodup. }
  split; [done|]. intros Hc. constructor; [done|done| |lia]. rewrite Ees, Forall_map. by eapply Forall_impl; [exact Hall|intros ? []].
Qed.

(** A dictionary of the store, or none. *)
Definition dict_in (D : gmap Z (list byte)) (dict : option (list byte * DictRef)) : Prop :=
  match effective dict with Some (d, r) => D !! r = Some d /\ is_none r = false /\ fits 64 r | None => True end.

Lemma dict_in_ref D dict : dict_in D dict -> fits 64 (effective_ref dict).
Proof. unfold dict_in, effective_ref. destruct (effective dict) as [[d r]|]; simpl; [tauto|done]. Qed.

(** The page of a slot: its image in its run, its records' extents beside. *)
Record page_at (D : gmap Z (list byte)) (sid ver : Z) (desc : PageDescriptor) (p : SlotPage)
    (bs : list byte) (hx x : Regions) (kv : Values) : Prop := {
  pa_run : run_fits (desc_run desc);
  pa_flag : is_in_journal desc = false /\ fits 64 desc;
  pa_stamp : struct_id p = sid /\ version p = ver;
  pa_fits : page_fits p;
  pa_image : exists image pad dict, bs = image ++ pad /\ encode p dict = Done image /\ dict_in D dict;
  pa_len : zlen bs = run_len (desc_run desc) * DATA_BLOCK_SIZE;
  pa_split : x = {[run_start (desc_run desc) := bs]} ∪ hx /\ hx !! run_start (desc_run desc) = None;
  pa_own : page_own p kv hx
}.

Definition slot_own (D : gmap Z (list byte)) (sid ver : Z) (t : PageDescriptor * Values) (x : Regions) : Prop :=
  if is_allocated t.1 then exists p bs hx, page_at D sid ver t.1 p bs hx x t.2
  else t.1 = DESC_EMPTY /\ x = ∅ /\ t.2 = ∅.

Lemma page_at_holds D sid ver desc p bs hx x kv : page_at D sid ver desc p bs hx x kv -> holds x (desc_run desc) bs.
Proof. intros Hp. destruct (pa_split _ _ _ _ _ _ _ _ _ Hp) as [-> _]. split; [|apply Hp]. apply lookup_union_Some_l. by rewrite lookup_singleton_eq. Qed.

(** Reads change the dictionary cache at most. *)
Definition same_dir (D : gmap Z (list byte)) (d d' : PageDirectory) : Prop :=
  exists s, d' = with_dicts s d /\ dicts_ok s D /\ current s = current (dicts d).

Lemma same_dir_refl D d : dicts_ok (dicts d) D -> same_dir D d d.
Proof. intros Hd. exists (dicts d). by destruct d. Qed.

Lemma same_dir_trans D d1 d2 d3 : same_dir D d1 d2 -> same_dir D d2 d3 -> same_dir D d1 d3.
Proof. intros (s & -> & Hs & E) (s' & -> & Hs' & E'). exists s'. split; [done|]. split; [done|]. simpl in E'. congruence. Qed.

Lemma triple_dicts {A} (d : PageDirectory) x (m : ST (DictStore * BlockFile) StorageError A) n Q :
  triple (dicts d) x m n Q ->
  triple d x (on_dicts m) n (fun r d' x' l => exists s', d' = with_dicts s' d /\ Q r s' x' l).
Proof.
  intros Hm f mf Hf Hd Hc. destruct (Hm f mf Hf Hd Hc) as (r & s' & f' & x' & l & E & Hf' & Hd' & Hc' & Hl & Hq).
  unfold on_dicts. rewrite E. exists r, (with_dicts s' d), f', x', l. split_and!; try done; try lia. by exists s'.
Qed.

Lemma load_dir_spec D (d : PageDirectory) xD y r dict :
  dicts_ok (dicts d) D -> dicts_at D xD -> D !! r = Some dict -> xD ##ₘ y ->
  triple d (xD ∪ y) (on_dicts (load r)) 0 (returns (fun a d' x' l => a = dict /\ x' = xD ∪ y /\ l = [] /\ same_dir D d d')).
Proof.
  intros Hs Hx Hr Hxy. eapply triple_weaken; [apply triple_dicts, (load_spec _ D xD y); done|done|].
  intros [a|?|] d' x' l (s' & -> & Hq); [|done|done]. destruct Hq as (-> & -> & -> & Hs' & Ec). simpl.
  split_and!; try done. by exists s'.
Qed.

Lemma read_run_page_spec D (d : PageDirectory) xD y sid ver desc p bs hx x kv :
  dicts_ok (dicts d) D -> dicts_at D xD -> xD ##ₘ y -> page_at D sid ver desc p bs hx x kv -> x ⊆ y ->
  triple d (xD ∪ y) (read_run_page (desc_run desc)) 0 (returns (fun a d' x' l =>
    a = p /\ x' = xD ∪ y /\ l = [] /\ same_dir D d d')).
Proof.
  intros Hs Hx Hxy Hp Hxs. unfold read_run_page. pose proof (page_at_holds _ _ _ _ _ _ _ _ _ Hp) as [Hh Hl].
  eapply triple_step; [apply (triple_read _ _ _ bs)|done|].
  { split; [|done]. apply lookup_union_Some_r; [done|]. by eapply lookup_weaken. }
  intros ? ? ? ? (-> & -> & -> & ->). destruct (pa_image _ _ _ _ _ _ _ _ _ Hp) as (image & pad & dict & -> & Henc & Hin).
  destruct (page_image_ok p dict (pa_fits _ _ _ _ _ _ _ _ _ Hp) (dict_in_ref _ _ Hin)) as (image' & E & _ & Hdec).
  rewrite Henc in E. injection E as <-. destruct (Hdec pad) as [Hd Hr].
  eapply triple_done; [exact Hr|]. unfold effective_ref, dict_in in *. destruct (effective dict) as [[dd r]|]; simpl in *.
  - destruct Hin as (HDr & Hn & _). rewrite Hn. eapply triple_step; [by eapply load_dir_spec|done|].
    intros ? d' ? ? (-> & -> & -> & Hd'). rewrite Hd. by apply triple_lift.
  - rewrite Hd. apply triple_lift. simpl. by repeat (split; [done|]); apply same_dir_refl.
Qed.

Lemma read_slot_spec D (d : PageDirectory) xD y sid ver t x :
  dicts_ok (dicts d) D -> dicts_at D xD -> xD ##ₘ y -> slot_own D sid ver t x -> x ⊆ y ->
  dir_struct_id d = sid -> dir_version d = ver ->
  triple d (xD ∪ y) (read_slot t.1) 0 (returns (fun p d' x' l =>
    struct_id p = sid /\ version p = ver /\ x' = xD ∪ y /\ l = [] /\ same_dir D d d' /\
    exists pg hx, x = pg ∪ hx /\ pg ##ₘ hx /\ page_own p t.2 hx /\
      if is_allocated t.1 then run_own (desc_run t.1) pg else pg = ∅)).
Proof.
  intros Hs Hx Hxy Ho Hsub Hsid Hver. unfold slot_own in Ho. unfold read_slot. destruct (is_allocated t.1).
  - destruct Ho as (p & bs & hx & Hp). eapply triple_weaken; [by eapply read_run_page_spec|done|].
    intros [a|?|] d' x' l Hq; [|done|done]. destruct Hq as (-> & -> & -> & Hd'). simpl.
    split; [apply Hp|]. split; [apply Hp|]. split; [done|]. split; [done|]. split; [done|].
    destruct (pa_split _ _ _ _ _ _ _ _ _ Hp) as [-> Hn]. eexists _, hx. split; [done|].
    split; [by apply map_disjoint_singleton_l|]. split; [apply Hp|]. exists bs. split; [done|apply Hp].
  - destruct Ho as (_ & -> & ->). apply (triple_self d _ (st_gets empty_page)). simpl. split; [done|]. split; [done|].
    split; [done|]. split; [done|]. split; [by apply same_dir_refl|]. exists ∅, ∅. rewrite (left_id_L ∅ (∪)).
    split; [done|]. split; [apply map_disjoint_empty_l|]. split; [apply page_own_empty|done].
Qed.

(** *** Placing a page *)

Lemma desc_from_run_ok r o : run_fits r -> run_len r <= 255 -> fits 6 o ->
  exists desc, desc_from_run r o = Done desc /\ desc_run desc = r /\ is_allocated desc = true /\
    is_in_journal desc = false /\ fits 64 desc.
Proof.
  intros (H1 & H2 & H3) Hl Ho. rewrite desc_from_run_spec by (done || (unfold fits; lia)).
  destruct (desc_view (run_start r) (run_len r) o 0 0) as (Hf & Es & Ec & _ & Ej & _).
  { constructor; (done || (unfold fits; lia)). }
  eexists. split; [done|]. unfold desc_run, is_allocated. rewrite Es, Ec. split; [by destruct r|].
  replace (run_len r =? 0) with false by lia. done.
Qed.

(** A page that fits 255 blocks whatever the compressor does. *)
Definition roomy (kv : Values) : Prop := HEADER_LEN + compress_bound (cost kv) <= MAX_BLOCK_COUNT * DATA_BLOCK_SIZE.

Lemma roomy_cost kv : roomy kv -> cost kv <= 2 ^ 31.
Proof.
  unfold roomy, HEADER_LEN, compress_bound, MAX_BLOCK_COUNT, DATA_BLOCK_SIZE. intros Hr.
  destruct (Z.le_gt_cases (cost kv) 0); [lia|]. pose proof (Z.div_pos (cost kv) 256). lia.
Qed.

Lemma place_page_spec {S} (u : S) x p dict :
  page_fits p -> fits 64 (effective_ref dict) ->
  triple u x (on_file (place_page p dict)) MAX_BLOCK_COUNT (fun r u' x' l => u' = u /\
    match r with
    | Done desc => is_allocated desc = true /\ is_in_journal desc = false /\ fits 64 desc /\ run_fits (desc_run desc) /\
        x !! run_start (desc_run desc) = None /\ l = [Took (desc_run desc)] /\
        exists image pad, encode p dict = Done image /\ x' = <[run_start (desc_run desc) := image ++ pad]> x /\
          zlen (image ++ pad) = run_len (desc_run desc) * DATA_BLOCK_SIZE
    | Fail _ => x' = x /\ l = [] /\ MAX_BLOCK_COUNT * DATA_BLOCK_SIZE < image_bound p
    | Fault => False
    end).
Proof.
  intros Hp Hr. destruct (page_image_ok p dict Hp Hr) as (image & Henc & Hl & _). unfold HEADER_LEN in Hl.
  unfold place_page. eapply triple_file_done; [exact Henc|]. cbv zeta.
  pose proof (blocks_for_bytes_spec (zlen image) ltac:(lia)) as Hb. set (n := blocks_for_bytes (zlen image)) in *.
  unfold MAX_BLOCK_COUNT in *. destruct (Z.ltb_spec 255 n) as [Hbig|Hsmall].
  { eapply triple_steps; [apply triple_file_lift|done]. split; [done|]. split; [done|]. split; [done|].
    unfold DATA_BLOCK_SIZE in *. lia. }
  set (target := Z.max _ n). assert (0 < n <= target /\ target <= 255) as Ht.
  { unfold target, INITIAL_PAGE_BLOCKS, DATA_BLOCK_SIZE in *. lia. }
  eapply triple_steps; [eapply triple_file_seq; [apply (triple_allocate u x target); lia|apply Z.le_refl|]|lia].
  intros r ? ? ? (-> & El & Hrun & Hx & -> & bs & -> & Hbs). change 0 with (0 + 0).
  eapply triple_file_seq; [apply (triple_write u _ r bs)|done|].
  { split; [by rewrite lookup_insert_eq|by rewrite El]. }
  { unfold DATA_BLOCK_SIZE in *. lia. }
  intros [] ? ? ? (-> & -> & pad & -> & Hpad). rewrite insert_insert_eq.
  destruct (run_bytes r) as [_ Elen]; [unfold run_fits in Hrun; lia..|].
  eapply triple_file_done; [exact Elen|]. apply triple_file_lift.
  assert (fits 6 (occupation_for (zlen image) (run_len r * DATA_BLOCK_SIZE))) as Hocc.
  { apply occupation_for_fits; unfold fits, DATA_BLOCK_SIZE in *; lia. }
  destruct (desc_from_run_ok r _ Hrun ltac:(lia) Hocc) as (desc & -> & Er & Ha & Hj & Hf). unfold after.
  rewrite Er. split_and!; try done. exists image, pad. split; [done|]. split; [done|]. by rewrite Hpad, El.
Qed.

(** Placing with the directory's dictionary. *)
Lemma place_spec D (d : PageDirectory) xD y p :
  dicts_ok (dicts d) D -> dicts_at D xD -> xD ##ₘ y -> page_fits p ->
  triple d (xD ∪ y) (place p) MAX_BLOCK_COUNT (fun r d' x' l => same_dir D d d' /\
    match r with
    | Done desc => is_allocated desc = true /\ xD !! run_start (desc_run desc) = None /\
        y !! run_start (desc_run desc) = None /\ l = [Took (desc_run desc)] /\
        exists bs, x' = xD ∪ <[run_start (desc_run desc) := bs]> y /\
          forall kv hx, page_own p kv hx -> hx ⊆ y ->
            page_at D (struct_id p) (version p) desc p bs hx ({[run_start (desc_run desc) := bs]} ∪ hx) kv
    | Fail _ => x' = xD ∪ y /\ l = [] /\ MAX_BLOCK_COUNT * DATA_BLOCK_SIZE < image_bound p
    | Fault => False
    end).
Proof.
  intros Hs Hx Hxy Hp. unfold place, current_dict.
  assert (triple d (xD ∪ y) current_dict 0 (returns (fun o d' x' l => x' = xD ∪ y /\ l = [] /\ same_dir D d d' /\ dict_in D o))) as Hc.
  { unfold current_dict. apply triple_gets. destruct (is_none (current (dicts d))) eqn:En.
    { apply triple_ret. simpl. by repeat (split; [done|]); split; [apply same_dir_refl|]. }
    destruct (do_current _ _ Hs) as [E|[dd E]]; [by rewrite E in En|].
    eapply triple_step; [by eapply load_dir_spec|done|]. intros ? d' ? ? (-> & -> & -> & Hd'). apply triple_ret.
    unfold after; simpl. split; [done|]. split; [done|]. split; [done|]. unfold dict_in, effective.
    destruct dd; [done|]. split; [done|]. split; [done|]. by apply (da_page _ _ Hx _ _ E). }
  replace MAX_BLOCK_COUNT with (0 + MAX_BLOCK_COUNT) by done. eapply triple_seq; [exact Hc|done|].
  intros dict d' ? ? (-> & -> & Hd' & Hin). pose proof (dict_in_ref _ _ Hin) as Href.
  eapply triple_weaken; [by apply place_page_spec|done|].
  intros r ? x' l [-> Hq]. unfold after; simpl. split; [done|]. destruct r as [desc|e|]; [|done|done].
  destruct Hq as (Ha & Hj & Hf & Hrun & [Hn1 Hn2]%lookup_union_None & -> & image & pad & Henc & -> & Hl).
  split; [done|]. split; [done|]. split; [done|]. split; [done|]. exists (image ++ pad).
  split; [by rewrite insert_union_r|]. intros kv hx Hown Hsub. constructor; try done.
  - by exists image, pad, dict.
  - split; [done|]. by eapply lookup_weaken_None.
Qed.

(** *** Freeing *)

Lemma free_own {S} (u : S) r x y : run_own r x -> x ##ₘ y ->
  triple u (x ∪ y) (on_file (block_free r)) 0 (returns (fun _ u' x' l => u' = u /\ x' = y /\ l = [Gave r])).
Proof.
  intros (bs & -> & Hl) Hd. apply map_disjoint_singleton_l in Hd. eapply triple_weaken; [apply (triple_free u _ r bs)|done|].
  - split; [apply lookup_union_Some_l; by rewrite lookup_singleton_eq|done].
  - intros [[]|?|] ? ? ? Hq; [|done|done]. destruct Hq as (-> & -> & ->). simpl. split; [done|]. split; [|done].
    by rewrite delete_union, delete_singleton_eq, (left_id_L ∅ (∪)), delete_id.
Qed.

Lemma free_runs_spec {S} (u : S) runs x y : owns run_own runs x -> x ##ₘ y ->
  triple u (x ∪ y) (st_iter (fun r => on_file (block_free r)) runs) 0 (returns (fun _ u' x' l =>
    u' = u /\ x' = y /\ l = map Gave runs)).
Proof.
  revert x. induction runs as [|r runs IH]; intros x; simpl.
  - intros -> _. rewrite (left_id_L ∅ (∪)). by apply triple_ret.
  - intros (x1 & r1 & -> & Hd & Hr & Ho) [Hd1 Hd2]%map_disjoint_union_l. rewrite <- (assoc_L (∪)).
    eapply triple_step; [apply (free_own u r x1 (r1 ∪ y) Hr); by apply map_disjoint_union_r|done|].
    intros [] ? ? ? (-> & -> & ->). eapply triple_weaken; [by apply IH|done|].
    intros [[]|?|] ? ? ? Hq; [|done|done]. destruct Hq as (-> & -> & ->). done.
Qed.

(** *** Committing *)

Definition opt_run (desc : PageDescriptor) : option BlockRun := if is_allocated desc then Some (desc_run desc) else None.

(** The pages and extents a commit took and gave back, in the order it did. *)
Definition commit_events (c : SlotCommit) : list Event :=
  map Took (heap_allocated c) ++ map Took (option_list (allocated c)) ++
  map Gave (option_list (freed c)) ++ map Gave (heap_freed c).

Definition old_own (desc : PageDescriptor) (x : Regions) : Prop :=
  if is_allocated desc then run_own (desc_run desc) x else x = ∅.

Lemma page_own_nil p kv x : page_is_empty p = true -> page_own p kv x -> kv = ∅ /\ x = ∅.
Proof.
  unfold page_is_empty. intros He (ts & E & _ & -> & Ho). rewrite E in He. by destruct ts.
Qed.

Lemma commit_page_spec D (d : PageDirectory) xD pg ex i old s kv :
  dicts_ok (dicts d) D -> dicts_at D xD -> xD ##ₘ pg ∪ ex -> pg ##ₘ ex -> old_own old pg ->
  fits 32 (dir_struct_id d) -> fits 8 (dir_version d) ->
  edit_own (dir_struct_id d) (dir_version d) s kv ex -> cost kv <= 2 ^ 31 ->
  triple d (xD ∪ (pg ∪ ex)) (commit_page i old s) MAX_BLOCK_COUNT (fun r d' x' l =>
    match r with
    | Done c => exists d1 x1, same_dir D d d1 /\ d' = with_slots (<[i := descriptor c]> (slots d1)) d1 /\
        x' = xD ∪ x1 /\ xD ##ₘ x1 /\ slot_own D (dir_struct_id d) (dir_version d) (descriptor c, kv) x1 /\
        map Took s.1.2 ++ l = commit_events c /\ allocated c = opt_run (descriptor c) /\ commit_run64 c
    | Fail _ => same_dir D d d' /\ x' = xD ∪ (pg ∪ ex) /\ l = [] /\ ~ roomy kv
    | Fault => False
    end).
Proof.
  destruct s as [[p taken] orphaned]. intros Hs Hx Hd Hpe Hold Hfs Hfv (Hsid & Hver & Htk & Hor & hx & ox & -> & Hho & Hp & Ho) Hcost.
  rewrite <- Hsid, <- Hver in *. destruct (page_own_fits p kv hx Hp Hfs Hfv) as [Elen Hfit].
  unfold commit_page. apply map_disjoint_union_r in Hd as [Hdp [Hdh Hdo]%map_disjoint_union_r].
  apply map_disjoint_union_r in Hpe as [Hph Hpo].
  replace MAX_BLOCK_COUNT with (MAX_BLOCK_COUNT + 0) by done.
  apply (triple_bind _ _ _ _ _ _ (fun r d' x' l => same_dir D d d' /\
    match r with
    | Done desc => exists y, x' = pg ∪ (ox ∪ (xD ∪ y)) /\ pg ##ₘ (ox ∪ (xD ∪ y)) /\ ox ##ₘ (xD ∪ y) /\ xD ##ₘ y /\
        slot_own D (struct_id p) (version p) (desc, kv) y /\ l = map Took (option_list (opt_run desc))
    | Fail _ => x' = xD ∪ (pg ∪ (hx ∪ ox)) /\ l = [] /\ ~ roomy kv
    | Fault => False
    end)); [|done|].
  { assert (xD ∪ (pg ∪ (hx ∪ ox)) = pg ∪ (ox ∪ (xD ∪ hx))) as Eshuffle.
    { rewrite (map_union_comm hx ox) by done. rewrite !(assoc_L (∪)). f_equal.
      rewrite (map_union_comm xD pg) by done. rewrite <- !(assoc_L (∪)). f_equal. by apply map_union_comm. }
    destruct (page_is_empty p) eqn:Ee.
    - destruct (page_own_nil p kv hx Ee Hp) as [-> ->].
      eapply triple_steps; [apply triple_ret|done]. split; [by apply same_dir_refl|]. exists ∅. rewrite Eshuffle.
      rewrite (right_id_L ∅ (∪)). split; [done|]. split; [by apply map_disjoint_union_r|]. split; [done|].
      split; [apply map_disjoint_empty_r|]. done.
    - eapply triple_weaken; [apply (place_spec D d xD (pg ∪ (hx ∪ ox)) p)|done|]; [done|done| |by apply Hfit|].
      { apply map_disjoint_union_r. split; [done|]. by apply map_disjoint_union_r. }
      intros [desc|e|] d' x' l [Hd' Hq]; (split; [done|]); [|destruct Hq as (-> & -> & Hb)|done].
      + destruct Hq as (Ha & HnD & Hn & -> & bs & -> & Hpage). apply lookup_union_None in Hn as [Hnp [Hnh Hno]%lookup_union_None].
        specialize (Hpage kv hx Hp). exists ({[run_start (desc_run desc) := bs]} ∪ hx).
        assert (forall m, m !! run_start (desc_run desc) = None -> {[run_start (desc_run desc) := bs]} ##ₘ m) as Hone
          by (intros; by apply map_disjoint_singleton_l).
        split_and!.
        * rewrite insert_union_singleton_l. set (z := {[_ := _]}) in *.
          rewrite (assoc_L (∪) xD z), (assoc_L (∪) xD z hx). rewrite (map_union_comm xD z) by (symmetry; by apply Hone).
          rewrite <- !(assoc_L (∪)), Eshuffle. rewrite (assoc_L (∪) z pg). rewrite (map_union_comm z pg) by by apply Hone.
          rewrite <- (assoc_L (∪)). f_equal. rewrite !(assoc_L (∪)). f_equal. f_equal. apply map_union_comm. by apply Hone.
        * apply map_disjoint_union_r. split; [done|]. apply map_disjoint_union_r. split; [done|].
          apply map_disjoint_union_r. split; [symmetry; by apply Hone|done].
        * apply map_disjoint_union_r. split; [done|]. apply map_disjoint_union_r. split; [symmetry; by apply Hone|done].
        * apply map_disjoint_union_r. split; [symmetry; by apply Hone|done].
        * unfold slot_own. simpl. rewrite Ha. exists p, bs, hx. apply Hpage.
          transitivity (hx ∪ ox); [apply map_union_subseteq_l|by apply map_union_subseteq_r, map_disjoint_union_r].
        * unfold opt_run. by rewrite Ha.
      + split; [done|]. split; [done|]. unfold roomy, image_bound in *. rewrite Elen in Hb. lia. }
  intros [desc|e|] d1 x' l [Hd1 Hq]; [|destruct Hq as (-> & -> & ?); done|done].
  destruct Hq as (y & -> & H1 & H2 & H3 & Hslot & ->).
  fold (opt_run desc) (opt_run old). set (dd := match opt_run old with Some _ => _ | None => _ end).
  assert (triple d1 (pg ∪ (ox ∪ (xD ∪ y))) dd 0 (returns (fun _ d' x' l =>
    d' = d1 /\ x' = ox ∪ (xD ∪ y) /\ l = map Gave (option_list (opt_run old))))) as Hfree.
  { unfold dd, opt_run, old_own in *. destruct (is_allocated old).
    - by apply free_own.
    - subst pg. rewrite (left_id_L ∅ (∪)). by apply triple_ret. }
  eapply triple_step; [exact Hfree|done|]. intros [] ? ? ? (-> & -> & ->).
  eapply triple_step; [by apply free_runs_spec|done|]. intros [] ? ? ? (-> & -> & ->). apply triple_modify, triple_ret.
  unfold after. exists d1, y. split_and!; try done; [unfold commit_events; simpl; by rewrite app_nil_r|].
  split_and!; simpl; try done. unfold opt_run. destruct (is_allocated old); repeat constructor; apply desc_run64.
Qed.

(** *** Several mutations of one page *)

(** What mutations make of the values. *)
Definition overlay (muts : gmap Z (option (list byte))) (kv : Values) : Values :=
  merge (fun m o => match m with Some m => m | None => o end) muts kv.

Lemma lookup_overlay muts kv id :
  overlay muts kv !! id = match muts !! id with Some m => m | None => kv !! id end.
Proof. unfold overlay. rewrite lookup_merge. unfold diag_None. by destruct (muts !! id), (kv !! id). Qed.

Definition mutate (kv : Values) (m : Z * option (list byte)) : Values := partial_alter (fun _ => m.2) m.1 kv.

Lemma lookup_mutates l kv id : NoDup (map fst l) ->
  foldl mutate kv l !! id = match (list_to_map l : gmap Z (option (list byte))) !! id with Some m => m | None => kv !! id end.
Proof.
  revert kv. induction l as [|[k m] l IH]; intros kv; simpl; [done|]. intros [Hk Hn]%NoDup_cons. rewrite IH by done.
  destruct (decide (id = k)) as [->|Hne].
  - rewrite lookup_insert_eq, not_elem_of_list_to_map_1 by done. unfold mutate. simpl. by rewrite lookup_partial_alter_eq.
  - rewrite lookup_insert_ne by done. destruct (_ !! id); [done|]. unfold mutate. simpl. by rewrite lookup_partial_alter_ne.
Qed.

Lemma mutates_overlay muts kv : foldl mutate kv (by_key muts) = overlay muts kv.
Proof.
  apply map_eq. intros id. rewrite lookup_mutates by apply NoDup_ordered. by rewrite ordered_list_to_map, lookup_overlay.
Qed.

Definition muts_blocks (l : list (Z * option (list byte))) : Z := foldr (fun m n => mutation_blocks m.2 + n) 0 l.

Definition muts_ok (l : list (Z * option (list byte))) : Prop := Forall (fun m => fits 128 m.1 /\ value_small m.2) l.

Lemma muts_blocks_nonneg l : 0 <= muts_blocks l.
Proof. induction l as [|m l IH]; simpl; [done|]. pose proof (mutation_blocks_nonneg m.2). lia. Qed.

Lemma apply_all_spec {S} (u : S) sid ver l s kv x :
  edit_own sid ver s kv x -> muts_ok l ->
  triple u x (apply_all s l) (muts_blocks l) (returns (fun s' u' x' log =>
    u' = u /\ edit_own sid ver s' (foldl mutate kv l) x' /\ x ⊆ x' /\
    exists new, s'.1.2 = s.1.2 ++ new /\ log = map Took new)).
Proof.
  revert s kv x. induction l as [|[id m] l IH]; intros s kv x Hs Hl; simpl.
  - apply triple_ret. split; [done|]. split; [done|]. split; [done|]. exists []. by rewrite app_nil_r.
  - apply Forall_cons in Hl as [[Hid Hm] Hl]. eapply triple_seq; [by apply apply_mutation_spec|apply muts_blocks_nonneg|].
    intros s1 ? x1 ? (-> & Hs1 & Hsub & new & old & Et & _ & ->). eapply triple_weaken; [by apply IH|done|].
    intros [s2|?|] ? x2 log Hq; [|done|done]. destruct Hq as (-> & Hs2 & Hsub2 & new2 & Et2 & ->). unfold after, returns.
    split; [done|]. split; [done|]. split; [by transitivity x1|]. exists (new ++ new2).
    rewrite Et2, Et, map_app. by rewrite (assoc_L (++)).
Qed.

(** ** A directory *)

Record dir_own (D : gmap Z (list byte)) (d : PageDirectory) (kvs : list Values) (x : Regions) : Prop := {
  dw_stamp : fits 32 (dir_struct_id d) /\ fits 8 (dir_version d);
  dw_count : length kvs = length (slots d);
  dw_dicts : dicts_ok (dicts d) D;
  dw_split : exists xD xs, x = xD ∪ xs /\ xD ##ₘ xs /\ dicts_at D xD /\
    owns (slot_own D (dir_struct_id d) (dir_version d)) (zip (slots d) kvs) xs
}.

Lemma same_dir_own D d d' kvs x : same_dir D d d' -> dir_own D d kvs x -> dir_own D d' kvs x.
Proof. intros (s & -> & Hs & _) []. by constructor. Qed.

(** Focusing on a slot. *)
Lemma dir_own_slot D d kvs x i desc kv :
  dir_own D d kvs x -> slots d !! i = Some desc -> kvs !! i = Some kv ->
  exists xD xi r, x = xD ∪ (xi ∪ r) /\ xD ##ₘ xi ∪ r /\ xi ##ₘ r /\ dicts_at D xD /\
    slot_own D (dir_struct_id d) (dir_version d) (desc, kv) xi /\
    forall d1 desc' kv' xi', same_dir D d d1 -> xD ##ₘ xi' ∪ r -> xi' ##ₘ r ->
      slot_own D (dir_struct_id d) (dir_version d) (desc', kv') xi' ->
      dir_own D (with_slots (<[i := desc']> (slots d1)) d1) (<[i := kv']> kvs) (xD ∪ (xi' ∪ r)).
Proof.
  intros [Hst Hc Hd (xD & xs & -> & Hdis & Hx & Ho)] Hi Hk.
  apply list_elem_of_split_length in Hi as (s1 & s2 & Es & Ei). apply list_elem_of_split_length in Hk as (k1 & k2 & Ek & Eik).
  assert (forall a b, zip (s1 ++ a :: s2) (k1 ++ b :: k2) = zip s1 k1 ++ (a, b) :: zip s2 k2) as Ez.
  { intros a b. rewrite zip_with_app; [done|congruence]. }
  rewrite Es, Ek, Ez in Ho. apply owns_focus in Ho as (xi & r & -> & Hir & Hxi & Hrest).
  exists xD, xi, r. do 5 (split; [done|]). intros d1 desc' kv' xi' (s & -> & Hs & _) Hdis' Hir' Hxi'. constructor; simpl; try done.
  - by rewrite !length_insert.
  - exists xD, (xi' ∪ r). split; [done|]. split; [done|]. split; [done|].
    rewrite Es, Ek, Ei. rewrite <- (Nat.add_0_r (length s1)) at 1. rewrite insert_app_r, <- Ei, Eik.
    rewrite <- (Nat.add_0_r (length k1)), insert_app_r. simpl. rewrite Ez. apply owns_focus. by exists xi', r.
Qed.

(** The commit of a list of mutations to a slot; [commit_slot] is the case of an
    ordered map, [dir_put] and [dir_remove] that of one. *)
Definition commit_list (slot : nat) (l : list (Z * option (list byte))) : M SlotCommit :=
  let! desc := slot_at slot in
  let! page := read_slot desc in
  let! s := apply_all (page, [], []) l in
  commit_page slot desc s.

(** What is known once a slot's page has been read. *)
Record slot_read (D : gmap Z (list byte)) (d : PageDirectory) (i : nat) (desc : PageDescriptor) (kv : Values)
    (kvs : list Values) (p : SlotPage) (xD pg hx r : Regions) : Prop := {
  sr_disj : xD ##ₘ pg ∪ hx ∪ r /\ pg ##ₘ hx /\ pg ##ₘ r /\ hx ##ₘ r;
  sr_dicts : dicts_at D xD /\ dicts_ok (dicts d) D;
  sr_stamp : struct_id p = dir_struct_id d /\ version p = dir_version d /\ fits 32 (dir_struct_id d) /\ fits 8 (dir_version d);
  sr_page : page_own p kv hx /\ old_own desc pg;
  sr_back : forall d1 desc' kv' xi', same_dir D d d1 -> xD ##ₘ xi' ∪ r -> xi' ##ₘ r ->
    slot_own D (dir_struct_id d) (dir_version d) (desc', kv') xi' ->
    dir_own D (with_slots (<[i := desc']> (slots d1)) d1) (<[i := kv']> kvs) (xD ∪ (xi' ∪ r))
}.

Lemma slot_read_spec D d kvs x i desc kv :
  dir_own D d kvs x -> slots d !! i = Some desc -> kvs !! i = Some kv ->
  triple d x (read_slot desc) 0 (returns (fun p d' x' l => x' = x /\ l = [] /\ same_dir D d d' /\
    exists xD pg hx r, x = xD ∪ (pg ∪ hx ∪ r) /\ slot_read D d' i desc kv kvs p xD pg hx r)).
Proof.
  intros Hd Hi Hk. destruct (dir_own_slot _ _ _ _ _ _ _ Hd Hi Hk) as (xD & xi & r & -> & Hdis & Hir & Hx & Hxi & Hback).
  pose proof (dw_stamp _ _ _ _ Hd) as [Hfs Hfv]. pose proof (dw_dicts _ _ _ _ Hd) as Hds.
  eapply triple_weaken;
    [apply (read_slot_spec D d xD (xi ∪ r) (dir_struct_id d) (dir_version d) (desc, kv) xi); try done; apply map_union_subseteq_l|done|].
  intros [p|?|] d1 x' l Hq; [|done|done].
  destruct Hq as (Hsid & Hver & -> & -> & Hd1 & pg & hx & -> & Hph & Hp & Hold). unfold returns.
  split; [done|]. split; [done|]. split; [done|]. exists xD, pg, hx, r. split; [done|].
  apply map_disjoint_union_l in Hir as [Hpr Hhr]. destruct Hd1 as (s & -> & Hs & E). constructor; try done.
  intros d2 desc' kv' xi' (s2 & -> & Hs2 & E2) H1 H2 H3. apply (Hback (with_dicts s2 (with_dicts s d))); try done.
  exists s2. simpl in E2. by split_and!; [..|congruence].
Qed.

Lemma commit_from_spec D d i desc kv kvs p xD pg hx r l :
  slot_read D d i desc kv kvs p xD pg hx r -> muts_ok l -> cost (foldl mutate kv l) <= 2 ^ 31 ->
  triple d (xD ∪ (pg ∪ hx ∪ r)) (let! s := apply_all (p, [], []) l in commit_page i desc s) (muts_blocks l + MAX_BLOCK_COUNT)
    (fun res d' x' log =>
    match res with
    | Done c => dir_own D d' (<[i := foldl mutate kv l]> kvs) x' /\ log = commit_events c /\
        (exists d1, same_dir D d d1 /\ d' = with_slots (<[i := descriptor c]> (slots d1)) d1) /\
        allocated c = opt_run (descriptor c) /\ commit_run64 c
    | Fail _ => same_dir D d d' /\ xD ∪ (pg ∪ hx ∪ r) ⊆ x' /\ ~ roomy (foldl mutate kv l)
    | Fault => False
    end).
Proof.
  intros [[[[HDp HDh]%map_disjoint_union_r HDr]%map_disjoint_union_r (Hph & Hpr & Hhr)] [Hx Hds] (Hsid & Hver & Hfs & Hfv) [Hp Hold] Hback] Hl Hcost.
  assert (xD ∪ (pg ∪ hx ∪ r) = hx ∪ (xD ∪ (pg ∪ r))) as ->.
  { rewrite (map_union_comm pg hx) by done. rewrite !(assoc_L (∪)). f_equal. f_equal. by apply map_union_comm. }
  eapply triple_bind; [apply (triple_frame d hx (xD ∪ (pg ∪ r)))|done|].
  { apply (apply_all_spec d (struct_id p) (version p) l (p, [], []) kv hx); [|done].
    do 2 (split; [done|]). do 2 (split; [by constructor|]). exists hx, ∅. rewrite (right_id_L ∅ (∪)). split_and!; try done. apply map_disjoint_empty_r. }
  { repeat (apply map_disjoint_union_r; split; [done|]); done. }
  intros [s|?|] ? ? log (ex & -> & Hex & Hq); [|done|done]. destruct Hq as (-> & Hs & Hsub & new & Et & ->). simpl in Et.
  apply map_disjoint_union_r in Hex as [HexD [Hexp Hexr]%map_disjoint_union_r].
  assert (ex ∪ (xD ∪ (pg ∪ r)) = (xD ∪ (pg ∪ ex)) ∪ r) as E2.
  { rewrite (map_union_comm pg ex) by done. rewrite !(assoc_L (∪)). f_equal. f_equal. by apply map_union_comm. }
  rewrite E2, Hsid, Hver in *.
  eapply triple_weaken; [apply (triple_frame d (xD ∪ (pg ∪ ex)) r)|done|].
  { apply (commit_page_spec D d xD pg ex i desc s (foldl mutate kv l)); try done. by apply map_disjoint_union_r. }
  { repeat (apply map_disjoint_union_l; split; [done|]); done. }
  intros [c|e|] d' ? log (x0 & -> & Hx0r & Hq); unfold after; [|destruct Hq as (Hd2 & -> & -> & Hroom)|done].
  - destruct Hq as (d2 & x1 & Hd2 & -> & -> & HDx1 & Hslot & Hev & Hal). apply map_disjoint_union_l in Hx0r as [_ Hx1r].
    rewrite <- (assoc_L (∪)). split; [apply Hback; [done|by apply map_disjoint_union_r|done|done]|].
    split; [by rewrite <- Hev, Et|]. split; [by exists d2|done].
  - split; [done|]. split; [|done].
    rewrite <- E2. apply map_union_mono_r; [by repeat (apply map_disjoint_union_r; split; [done|])|done].
Qed.

Lemma slot_at_spec D d kvs x i kv :
  dir_own D d kvs x -> kvs !! i = Some kv ->
  exists desc, slots d !! i = Some desc /\
    triple d x (slot_at i) 0 (returns (fun a d' x' l => a = desc /\ d' = d /\ x' = x /\ l = [])).
Proof.
  intros Hd Hk. destruct (slots d !! i) as [desc|] eqn:Ei.
  2:{ apply lookup_lt_Some in Hk. apply lookup_ge_None in Ei. rewrite (dw_count _ _ _ _ Hd) in Hk. lia. }
  exists desc. split; [done|]. apply triple_gets. rewrite Ei. by apply triple_lift.
Qed.

Lemma commit_list_spec D d kvs x i kv l :
  dir_own D d kvs x -> kvs !! i = Some kv -> muts_ok l -> cost (foldl mutate kv l) <= 2 ^ 31 ->
  triple d x (commit_list i l) (muts_blocks l + MAX_BLOCK_COUNT) (fun r d' x' log =>
    match r with
    | Done c => dir_own D d' (<[i := foldl mutate kv l]> kvs) x' /\ log = commit_events c /\
        (exists d1, same_dir D d d1 /\ d' = with_slots (<[i := descriptor c]> (slots d1)) d1) /\
        allocated c = opt_run (descriptor c) /\ commit_run64 c
    | Fail _ => same_dir D d d' /\ x ⊆ x' /\ ~ roomy (foldl mutate kv l)
    | Fault => False
    end).
Proof.
  intros Hd Hk Hl Hcost. destruct (slot_at_spec _ _ _ _ _ _ Hd Hk) as (desc & Ei & Hat).
  assert (0 <= muts_blocks l + MAX_BLOCK_COUNT) by (apply Z.add_nonneg_nonneg; [apply muts_blocks_nonneg|done]).
  unfold commit_list. eapply triple_step; [exact Hat|done|]. intros ? ? ? ? (-> & -> & -> & ->).
  eapply triple_step; [by eapply slot_read_spec|done|].
  intros p d1 ? ? (-> & -> & Hd1 & xD & pg & hx & r & -> & Hread).
  eapply triple_weaken; [by eapply commit_from_spec|done|].
  intros [c|e|] d' x' log Hq; unfold after; [|destruct Hq as (Hd2 & ? & ?)|done].
  - destruct Hq as (Ho & -> & (d2 & Hd2 & ->) & Ha). split; [done|]. split; [done|]. split; [|done].
    exists d2. split; [by eapply same_dir_trans|done].
  - split; [by eapply same_dir_trans|done].
Qed.
End slots.
