(* ===== verification/DirectoryMap.v ===== *)
(** * The map a directory holds

    Routing puts every record in one slot, so the slots together are one map;
    reading, writing, removing and committing a batch act on it as a map's
    operations would. *)
From stdpp Require Import sorting.
From S2P Require Import Prelude Ordered Wire Errors Hash BlockAlloc BlockAllocOk BlockFile Regions PageDir Codec Dict HeapStore SlotPage SlotPageOk Directory DirectoryOk.

(** ** Routing *)

Lemma slot_for_bound id n : 0 < n -> (slot_for id n < Z.to_nat n)%nat.
Proof. intros Hn. unfold slot_for. pose proof (Z.mod_pos_bound (id_mix id) n Hn). lia. Qed.

#[global] Opaque slot_for.

(** *** Any routing of ids to slots *)

Section routing.
Context {route : Z -> Z -> nat}.

Definition routed_by (kvs : list Values) : Prop :=
  forall i kv id v, kvs !! i = Some kv -> kv !! id = Some v -> i = route id (zlen kvs).

Definition view_by (kvs : list Values) (id : Z) : option (list byte) :=
  match kvs !! route id (zlen kvs) with Some kv => kv !! id | None => None end.

(** The values of one slot. *)
Definition values_at (m : Values) (n : Z) (i : nat) : Values := filter (fun '(id, _) => route id n = i) m.

Lemma slot_values_eq kvs m i kv :
  routed_by kvs -> (forall id, m !! id = view_by kvs id) -> kvs !! i = Some kv -> values_at m (zlen kvs) i = kv.
Proof.
  intros Hr Hm Hi. apply map_eq. intros id. apply option_eq. intros v. unfold values_at.
  rewrite map_lookup_filter_Some, Hm. unfold view_by. split.
  - intros [Hv E]. by rewrite E, Hi in Hv.
  - intros Hv. pose proof (Hr _ _ _ _ Hi Hv) as <-. by rewrite Hi.
Qed.

(** Changing one slot by mutations of its own ids. *)
Lemma view_mutate kvs m i kv l :
  routed_by kvs -> (forall id, m !! id = view_by kvs id) -> kvs !! i = Some kv -> NoDup (map fst l) ->
  (forall id, id ∈ map fst l -> route id (zlen kvs) = i) ->
  let kvs' := <[i := foldl mutate kv l]> kvs in
  routed_by kvs' /\ forall id, foldl mutate m l !! id = view_by kvs' id.
Proof.
  intros Hr Hm Hi Hn Hl kvs'. assert (zlen kvs' = zlen kvs) as El by (unfold kvs', zlen; by rewrite length_insert).
  pose proof (lookup_lt_Some _ _ _ Hi) as Hlt. split.
  - intros j kv' id v Hj Hv. rewrite El. unfold kvs' in Hj. rewrite list_lookup_insert in Hj. case_decide as Hc.
    + destruct Hc as [<- _]. injection Hj as <-. rewrite lookup_mutates in Hv by done.
      destruct (_ !! id) as [mm|] eqn:E.
      * symmetry. apply Hl. apply elem_of_list_to_map_2 in E. apply list_elem_of_fmap. by exists (id, mm).
      * by eapply Hr.
    + by eapply Hr.
  - intros id. rewrite lookup_mutates by done. unfold view_by. rewrite El. unfold kvs'. rewrite list_lookup_insert.
    case_decide as Hc.
    + destruct Hc as [Hc _]. rewrite lookup_mutates by done. destruct (_ !! id); [done|]. rewrite Hm. unfold view_by. by rewrite <- Hc, Hi.
    + rewrite not_elem_of_list_to_map_1; [apply Hm|]. intros Hin. apply Hc. split; [symmetry; by apply Hl|done].
Qed.

Lemma slot_values_mutates m l n i :
  NoDup (map fst l) -> (forall id, id ∈ map fst l -> route id n = i) ->
  values_at (foldl mutate m l) n i = foldl mutate (values_at m n i) l.
Proof.
  intros Hn Hl. apply map_eq. intros id. rewrite lookup_mutates by done. apply option_eq. intros v. unfold values_at.
  rewrite map_lookup_filter_Some, lookup_mutates by done. destruct (_ !! id) as [mm|] eqn:E.
  - split; [by intros [-> _]|]. intros ->. split; [done|]. apply Hl. apply elem_of_list_to_map_2 in E.
    apply list_elem_of_fmap. by exists (id, Some v).
  - by rewrite map_lookup_filter_Some.
Qed.
End routing.
Arguments routed_by : clear implicits.
Arguments view_by : clear implicits.
Arguments values_at : clear implicits.

Abbreviation routed := (routed_by slot_for).
Abbreviation view := (view_by slot_for).
Abbreviation slot_values := (values_at slot_for).

(** A part of the records costs no more. *)
Lemma cost_filter (P : Z * list byte -> Prop) `{!forall e, Decision (P e)} kv : cost (filter P kv) <= cost kv.
Proof.
  unfold cost. induction kv as [|k v kv Hk IH] using map_ind; [by rewrite map_filter_empty|].
  assert (0 <= record_cost v) by (unfold record_cost, ENTRY_HEADER_LEN; pose proof (zlen_nonneg v); destruct (_ <? _); lia).
  rewrite map_filter_insert, (msum_insert_new _ kv) by done. case_decide.
  - rewrite msum_insert_new; [lia|]. apply map_lookup_filter_None. by left.
  - rewrite delete_id by done. lia.
Qed.

Section map.
Context `{CodecLaws}.

Definition dir_holds (d : PageDirectory) (m : Values) (x : Regions) : Prop :=
  exists D kvs, dir_own D d kvs x /\ routed kvs /\ kvs <> [] /\ forall id, m !! id = view kvs id.

Lemma dir_holds_count d m x : dir_holds d m x -> 0 < slot_count d.
Proof.
  intros (D & kvs & Hd & _ & Hn & _). unfold slot_count, zlen. rewrite <- (dw_count _ _ _ _ Hd).
  destruct kvs; [done|simpl; lia].
Qed.

Lemma dir_holds_same D d d' kvs x m :
  same_dir D d d' -> dir_own D d kvs x -> routed kvs -> kvs <> [] -> (forall id, m !! id = view kvs id) -> dir_holds d' m x.
Proof. intros Hs Hd Hr Hn Hm. exists D, kvs. split; [by eapply same_dir_own|done]. Qed.

(** The outcome of committing mutations to a slot of a directory of [m]; what was
    spilled before a refusal stays allocated. *)
Definition committed (d : PageDirectory) (m m' : Values) (i : nat) (x : Regions)
    (r : outcome StorageError SlotCommit) (d' : PageDirectory) (x' : Regions) (log : list Event) : Prop :=
  dir_struct_id d' = dir_struct_id d /\ dir_version d' = dir_version d /\
  match r with
  | Done c => dir_holds d' m' x' /\ log = commit_events c /\ allocated c = opt_run (descriptor c) /\ commit_run64 c /\
      slots d' = <[i := descriptor c]> (slots d) /\ current (dicts d') = current (dicts d)
  | Fail _ => dir_holds d' m x /\ slots d' = slots d /\ x ⊆ x' /\ ~ roomy (slot_values m' (slot_count d) i)
  | Fault => False
  end.

Lemma commit_list_holds d m x i l :
  dir_holds d m x -> (i < length (slots d))%nat -> NoDup (map fst l) -> muts_ok l ->
  (forall id, id ∈ map fst l -> slot_of d id = i) ->
  cost (slot_values (foldl mutate m l) (slot_count d) i) <= 2 ^ 31 ->
  triple d x (commit_list i l) (muts_blocks l + MAX_BLOCK_COUNT) (committed d m (foldl mutate m l) i x).
Proof.
  intros (D & kvs & Hd & Hr & Hne & Hm) Hi Hn Hl Hrt Hcost.
  assert (slot_count d = zlen kvs) as Ec by (unfold slot_count, zlen; by rewrite (dw_count _ _ _ _ Hd)).
  destruct (kvs !! i) as [kv|] eqn:Hk.
  2:{ apply lookup_ge_None in Hk. rewrite (dw_count _ _ _ _ Hd) in Hk. lia. }
  assert (forall id, id ∈ map fst l -> slot_for id (zlen kvs) = i) as Hrt'.
  { intros id Hid. rewrite <- Ec. by apply Hrt. }
  assert (slot_values (foldl mutate m l) (slot_count d) i = foldl mutate kv l) as Ev.
  { rewrite Ec, slot_values_mutates by done. f_equal. by apply slot_values_eq. }
  rewrite Ev in Hcost. eapply triple_weaken; [by eapply commit_list_spec|done|].
  intros [c|e|] d' x' log Hq; unfold committed.
  - destruct Hq as (Hd' & -> & (d1 & (s & -> & _ & Es) & ->) & Ha & Hr64). split; [done|]. split; [done|]. split.
    { destruct (view_mutate kvs m i kv l Hr Hm Hk Hn Hrt') as [Hr' Hm'].
      exists D, (<[i := foldl mutate kv l]> kvs). split; [done|]. split; [done|]. split; [|done].
      intros E. apply (f_equal length) in E. rewrite length_insert in E. by destruct kvs. }
    by split_and!.
  - destruct Hq as (Hsame & Hsub & Hroom). pose proof (dir_holds_same _ _ _ _ _ m Hsame Hd Hr Hne Hm) as Hback.
    destruct Hsame as (s & -> & _ & _). split_and!; try done. by rewrite Ev.
  - done.
Qed.

(** Reading. *)
Lemma dir_get_holds d m x id :
  dir_holds d m x -> triple d x (dir_get id) 0 (returns (fun r d' x' log =>
    r = m !! id /\ x' = x /\ log = [] /\ dir_holds d' m x /\ exists s, d' = with_dicts s d /\ current s = current (dicts d))).
Proof.
  intros Hh. pose proof (dir_holds_count _ _ _ Hh) as Hc. destruct Hh as (D & kvs & Hd & Hr & Hne & Hm).
  assert (slot_count d = zlen kvs) as Ec by (unfold slot_count, zlen; by rewrite (dw_count _ _ _ _ Hd)).
  pose proof (slot_for_bound id (slot_count d) Hc) as Hb. unfold slot_count, zlen in Hb. rewrite Nat2Z.id in Hb.
  unfold dir_get. apply triple_gets. unfold slot_of, slot_at. set (i := slot_for id (slot_count d)) in *.
  destruct (slots d !! i) as [desc|] eqn:Ei; [|apply lookup_ge_None in Ei; unfold i, slot_count, zlen in *; lia].
  destruct (kvs !! i) as [kv|] eqn:Ek.
  2:{ apply lookup_ge_None in Ek. rewrite (dw_count _ _ _ _ Hd) in Ek. unfold i, slot_count, zlen in *; lia. }
  assert (m !! id = kv !! id) as -> by (rewrite Hm; unfold view_by; rewrite <- Ec; fold i; by rewrite Ek).
  destruct (dir_own_slot _ _ _ _ _ _ _ Hd Ei Ek) as (xD & xi & r & -> & Hdis & Hir & Hx & Hxi & _).
  pose proof (dw_dicts _ _ _ _ Hd) as Hds.
  eapply triple_step; [apply triple_gets; rewrite Ei|done|].
  { by apply (triple_lift d _ (Done desc) (returns (fun a d' x' l => a = desc /\ d' = d /\ x' = xD ∪ (xi ∪ r) /\ l = []))). }
  intros ? ? ? ? (-> & -> & -> & ->).
  assert (forall d', same_dir D d d' -> dir_holds d' m (xD ∪ (xi ∪ r)) /\
    exists s, d' = with_dicts s d /\ current s = current (dicts d)) as Hback.
  { intros d' Hs. split; [by eapply dir_holds_same|]. destruct Hs as (s & ? & _ & ?). by exists s. }
  unfold slot_own in Hxi. simpl in Hxi. destruct (is_allocated desc); simpl.
  2:{ destruct Hxi as (_ & _ & ->). apply triple_ret. unfold after, returns. rewrite lookup_empty.
      do 3 (split; [done|]). by apply Hback, same_dir_refl. }
  destruct Hxi as (p & bs & hx & Hp). pose proof (map_union_subseteq_l xi r) as Hsub.
  eapply triple_step; [by eapply read_run_page_spec|done|]. intros ? d' ? ? (-> & -> & -> & Hd').
  pose proof (pa_own _ _ _ _ _ _ _ _ _ Hp) as Hown. destruct (page_own_take p kv hx id Hown) as (Hg & Hnone & xm & r' & Ehx & Hmr & Hcase & _ & _).
  destruct (page_get p id) as [[b|h]|] eqn:Eg.
  - destruct Hcase as [_ ->]. apply triple_ret. unfold after, returns. do 3 (split; [done|]). by apply Hback.
  - destruct Hcase as (_ & v & -> & Hext).
    destruct (pa_split _ _ _ _ _ _ _ _ _ Hp) as [Exi _]. 
    assert (xm ⊆ xD ∪ (xi ∪ r)) as Hxm.
    { transitivity (xi ∪ r); [|by apply map_union_subseteq_r]. transitivity xi; [|done]. rewrite Exi.
      transitivity hx; [rewrite Ehx; apply map_union_subseteq_l|]. apply map_union_subseteq_r.
      apply map_disjoint_singleton_l. apply (pa_split _ _ _ _ _ _ _ _ _ Hp). }
    assert (xD ∪ (xi ∪ r) = xm ∪ (xD ∪ (xi ∪ r)) ∖ xm) as Ex by by rewrite map_difference_union.
    eapply triple_step; [rewrite Ex; apply (heap_get_spec d' xm _ h v Hext), map_disjoint_difference_r1; done|done|].
    intros ? ? ? ? (-> & -> & -> & ->). rewrite <- Ex. apply triple_ret. unfold after, returns. do 3 (split; [done|]). by apply Hback.
  - subst xm. destruct Hnone as [Hnone _]. rewrite Hnone by done. apply triple_ret. unfold after, returns.
    do 3 (split; [done|]). by apply Hback.
Qed.

Lemma muts_map_ok muts :
  (forall id mm, muts !! id = Some mm -> fits 128 id /\ value_small mm) -> muts_ok (by_key muts).
Proof. intros Hm. apply Forall_forall. intros [id mm] Hin. apply elem_of_ordered in Hin. by apply Hm. Qed.

Lemma elem_of_map_keys (muts : gmap Z (option (list byte))) id :
  id ∈ map fst (by_key muts) -> exists mm, muts !! id = Some mm.
Proof. intros ([k mm] & -> & Hin)%list_elem_of_fmap. exists mm. by apply elem_of_ordered in Hin. Qed.

(** Committing a batch. *)
Lemma commit_slot_holds d m x i muts :
  dir_holds d m x -> (i < length (slots d))%nat ->
  (forall id mm, muts !! id = Some mm -> fits 128 id /\ value_small mm /\ slot_of d id = i) ->
  cost (slot_values (overlay muts m) (slot_count d) i) <= 2 ^ 31 ->
  triple d x (commit_slot i muts) (muts_blocks (by_key muts) + MAX_BLOCK_COUNT) (committed d m (overlay muts m) i x).
Proof.
  intros Hd Hi Hm Hc. rewrite <- mutates_overlay in *. apply commit_list_holds; try done.
  - apply NoDup_ordered.
  - apply muts_map_ok. intros id mm Hid. by destruct (Hm _ _ Hid) as (? & ? & ?).
  - intros id (mm & Hid)%elem_of_map_keys. by apply (Hm id mm).
Qed.

Lemma slot_of_lt d m x id : dir_holds d m x -> (slot_of d id < length (slots d))%nat.
Proof.
  intros Hc%dir_holds_count. pose proof (slot_for_bound id (slot_count d) Hc) as Hb. unfold slot_of.
  unfold slot_count, zlen in *. lia.
Qed.

(** Writing one record to a directory with room changes exactly that record of the map the directory holds, inline or spilled to the heap, and frees what the old page and the old value took *)
Theorem dir_put_holds d m x id v :
  dir_holds d m x -> fits 128 id -> zlen v < 2 ^ 40 -> roomy (slot_values (<[id := v]> m) (slot_count d) (slot_of d id)) ->
  triple d x (dir_put id v) (zlen v / DATA_BLOCK_SIZE + 2 + MAX_BLOCK_COUNT) (returns (fun _ d' x' _ =>
    dir_holds d' (<[id := v]> m) x' /\ slot_count d' = slot_count d)).
Proof.
  intros Hd Hid Hv Hroom. pose proof (slot_of_lt _ _ _ id Hd) as Hlt.
  eapply (triple_ext _ _ _ (let! i := on_self (st_gets (fun d => slot_of d id)) in
    let! _ := commit_list i [(id, Some v)] in st_ret tt)).
  { intros [d0 f0]. unfold dir_put, commit_list, st_bind, on_self, st_gets. cbn [st_foldl].
    destruct (slot_at _ _) as [[desc|?|] [d1 f1]]; [|done|done].
    destruct (read_slot _ _) as [[p|?|] [d2 f2]]; [|done|done]. unfold st_bind, on_file.
    destruct (apply_mutation _ _ _ f2) as [[s|?|] f3]; done. }
  apply triple_gets. eapply triple_steps; [eapply triple_bind; [apply (commit_list_holds d m x _ [(id, Some v)]); try done|apply Z.le_refl|]|simpl; lia].
  - by apply NoDup_singleton.
  - constructor; [|constructor]. split; [done|]. by intros ? [= <-].
  - by intros id' ->%list_elem_of_singleton.
  - by apply roomy_cost.
  - intros [c|e|] d' x' log (_ & _ & Hq); [|by destruct Hq as (_ & _ & _ & [])|done].
    destruct Hq as (Hd' & _ & _ & _ & Es & _). apply triple_ret. unfold after, returns. split; [done|].
    unfold slot_count, zlen. by rewrite Es, length_insert.
Qed.

(** Removing a record from a directory answers whether it was there and leaves the map without it, every other record as before *)
Theorem dir_remove_holds d m x id :
  dir_holds d m x -> fits 128 id -> roomy (slot_values (delete id m) (slot_count d) (slot_of d id)) ->
  triple d x (dir_remove id) MAX_BLOCK_COUNT (returns (fun b d' x' _ =>
    b = bool_decide (is_Some (m !! id)) /\ dir_holds d' (delete id m) x' /\ slot_count d' = slot_count d)).
Proof.
  intros Hh Hid Hroom. pose proof (slot_of_lt _ _ _ id Hh) as Hlt. destruct Hh as (D & kvs & Hd & Hr & Hne & Hm).
  assert (slot_count d = zlen kvs) as Ec by (unfold slot_count, zlen; by rewrite (dw_count _ _ _ _ Hd)).
  unfold slot_of in *. set (i := slot_for id (slot_count d)) in *.
  destruct (kvs !! i) as [kv|] eqn:Ek; [|apply lookup_ge_None in Ek; rewrite (dw_count _ _ _ _ Hd) in Ek; lia].
  assert (m !! id = kv !! id) as Emk by (rewrite Hm; unfold view_by; rewrite <- Ec; fold i; by rewrite Ek).
  destruct (slot_at_spec _ _ _ _ _ _ Hd Ek) as (desc & Ei & Hat).
  destruct (view_mutate kvs m i kv [(id, None)] Hr Hm Ek) as [Hr' Hm'].
  { by apply NoDup_singleton. } { intros id' ->%list_elem_of_singleton. by rewrite <- Ec. }
  assert (slot_values (delete id m) (slot_count d) i = foldl mutate kv [(id, None)]) as Ev.
  { pose proof (slot_values_mutates (route := slot_for) m [(id, None)] (slot_count d) i) as E. rewrite Ec, (slot_values_eq kvs m i kv), <- Ec in E by done.
    apply E; [by apply NoDup_singleton|]. by intros id' ->%list_elem_of_singleton. }
  assert (forall d', same_dir D d d' -> kv !! id = None -> dir_holds d' (delete id m) x /\ slot_count d' = slot_count d) as Hsame.
  { intros d' Hs Hn. rewrite delete_id by congruence. split; [by eapply dir_holds_same|]. by destruct Hs as (? & -> & _). }
  unfold dir_remove. apply triple_gets. unfold slot_of. fold i.
  eapply triple_step; [exact Hat|done|]. intros ? ? ? ? (-> & -> & -> & ->). rewrite Emk.
  destruct (is_allocated desc) eqn:Ea; simpl.
  2:{ destruct (dir_own_slot _ _ _ _ _ _ _ Hd Ei Ek) as (? & ? & ? & _ & _ & _ & _ & Hxi & _). unfold slot_own in Hxi. simpl in Hxi.
      rewrite Ea in Hxi. destruct Hxi as (_ & _ & ->).
      eapply triple_steps; [apply triple_ret|done]. unfold after, returns. rewrite lookup_empty. split; [done|].
      apply Hsame; [by apply same_dir_refl, Hd|done]. }
  eapply triple_step; [by eapply slot_read_spec|done|].
  intros p d1 ? ? (-> & -> & Hd1 & xD & pg & hx & r & -> & Hread).
  destruct (page_own_take p kv hx id (proj1 (sr_page _ _ _ _ _ _ _ _ _ _ _ Hread))) as (Hg & Hnone & _).
  rewrite <- Hg in Hnone. destruct (page_get p id) as [e|] eqn:Eg.
  - assert (is_Some (kv !! id)) as Hsome by (destruct (kv !! id); [done|by destruct Hnone as [_ Hnone]; discriminate Hnone]).
    eapply (triple_ext _ _ _ (let! _ := (let! s := apply_all (p, [], []) [(id, None)] in commit_page i desc s) in st_ret true)).
    { intros [d0 f0]. unfold st_bind. cbn [st_foldl]. unfold st_bind, on_file.
      unfold apply_mutation, st_ret. rewrite Eg. cbv beta iota zeta. cbn [app].
      match goal with |- context [commit_page i desc ?a ?b] => by destruct (commit_page i desc a b) as [[c|?|] p4] end. }
    eapply triple_steps; [eapply triple_bind; [eapply (commit_from_spec D d1 i desc kv kvs p xD pg hx r [(id, None)])|apply Z.le_refl|]|done]; try done.
    + constructor; [by split|constructor].
    + apply roomy_cost. by rewrite <- Ev.
    + intros [c|?|] d' x' log Hq; [|by destruct Hq as (_ & _ & []); rewrite <- Ev|done].
      destruct Hq as (Hd' & _ & (d2 & (s2 & -> & _) & ->) & _). apply triple_ret. unfold after, returns.
      rewrite bool_decide_eq_true_2 by done. split; [done|]. destruct Hd1 as (s1 & -> & _). split.
      * exists D, (<[i := foldl mutate kv [(id, None)]]> kvs). split; [done|]. split; [done|]. split; [|done].
        intros E. apply (f_equal length) in E. rewrite length_insert in E. by destruct kvs.
      * unfold slot_count, zlen. simpl. by rewrite length_insert.
  - destruct Hnone as [Hnone _]. rewrite Hnone by done. eapply triple_steps; [apply triple_ret|done]. unfold after, returns.
    split; [done|]. apply Hsame; [done|by apply Hnone].
Qed.

(** Slots without pages. *)
Lemma fresh_dir_own sid ver k : fits 32 sid -> fits 8 ver ->
  dir_own ∅ {| dir_struct_id := sid; dir_version := ver; dicts := dicts_new; slots := replicate k DESC_EMPTY |} (replicate k ∅) ∅.
Proof.
  intros Hs Hv. constructor; simpl; [done|by rewrite !length_replicate|apply dicts_none|].
  exists ∅, ∅. split; [done|]. split; [apply map_disjoint_empty_l|]. split; [apply dicts_none|].
  induction k as [|k IH]; simpl; [done|]. exists ∅, ∅. split; [done|]. split; [apply map_disjoint_empty_l|].
  split; [by unfold slot_own|done].
Qed.

Lemma fresh_view (route : Z -> Z -> nat) k : routed_by route (replicate k ∅) /\ forall id, (∅ : Values) !! id = view_by route (replicate k ∅) id.
Proof.
  split.
  - intros i kv id v Hi Hid. apply lookup_replicate in Hi as [-> _]. done.
  - intros id. unfold view_by. rewrite lookup_empty. destruct (_ !! _) as [kv|] eqn:E; [|done].
    by apply lookup_replicate in E as [-> _].
Qed.

Lemma dir_new_holds sid ver n : fits 32 sid -> fits 8 ver -> 0 < n ->
  exists d, dir_new sid ver n = Done d /\ dir_holds d ∅ ∅ /\ slot_count d = n /\ has_dictionary d = false.
Proof.
  intros Hs Hv Hn. unfold dir_new. replace (0 <? n) with true by lia. eexists. split; [done|].
  unfold slot_count, zlen. simpl. rewrite length_replicate. split; [|split; [lia|done]].
  destruct (fresh_view slot_for (Z.to_nat n)). exists ∅, (replicate (Z.to_nat n) ∅). split; [by apply fresh_dir_own|]. split; [done|]. split; [|done].
  intros E. apply (f_equal length) in E. rewrite length_replicate in E. simpl in E. lia.
Qed.

(** C3: after a batch is committed to its page, a read of any id of the directory finds the batch's value for an id of the batch, deleted ids absent, and every other id as before; a batch that leaves the page too large is refused with the page as it was *)
Theorem directory_commit_get d m x i muts id :
  dir_holds d m x -> (i < length (slots d))%nat ->
  (forall id mm, muts !! id = Some mm -> fits 128 id /\ value_small mm /\ slot_of d id = i) ->
  cost (slot_values (overlay muts m) (slot_count d) i) <= 2 ^ 31 ->
  triple d x (let! _ := commit_slot i muts in dir_get id) (muts_blocks (by_key muts) + MAX_BLOCK_COUNT)
    (fun r d' x' log => match r with
     | Done v => v = match muts !! id with Some mm => mm | None => m !! id end /\ dir_holds d' (overlay muts m) x'
     | Fail _ => slots d' = slots d /\ ~ roomy (slot_values (overlay muts m) (slot_count d) i)
     | Fault => False
     end).
Proof.
  intros Hd Hi Hm Hc. eapply triple_steps; [eapply (triple_bind _ _ _ _ _ 0); [by apply commit_slot_holds|done|]|lia].
  intros [c|e|] d' x' log (_ & _ & Hq); [|by destruct Hq as (_ & ? & _ & ?)|done]. destruct Hq as (Hd' & _).
  eapply triple_weaken; [by apply (dir_get_holds d' (overlay muts m) x' id)|done|].
  intros [v|?|] d2 x2 log2 Hq; [|done|done]. destruct Hq as (-> & -> & _ & Hd2 & _). unfold after.
  by rewrite lookup_overlay.
Qed.
End map.

(** ** The theorems on a new directory of one page *)

Section example.
#[local] Existing Instance plain_codecs.
#[local] Existing Instance plain_codec_laws.

Definition new_directory : PageDirectory := from_option id {| dir_struct_id := 0; dir_version := 0; slots := []; dicts := dicts_new |}
  (match dir_new 7 2 1 with Done d => Some d | _ => None end).
Definition one_value : Values := {[5 := [Byte.x61]]}.

Lemma new_directory_holds : dir_holds new_directory ∅ ∅.
Proof. destruct (dir_new_holds 7 2 1) as (d & E & Hd & _); [by vm_compute..|]. unfold new_directory. by rewrite E. Qed.

Lemma slot_zero id : slot_of new_directory id = O.
Proof. pose proof (slot_for_bound id 1 ltac:(lia)). change (slot_of new_directory id) with (slot_for id 1). lia. Qed.

Lemma one_cost : cost (slot_values one_value 1 0) <= 22.
Proof. unfold one_value, values_at. rewrite map_filter_singleton. case_decide; by vm_compute. Qed.

Lemma directory_commit_get_witness :
  triple new_directory ∅ (let! _ := commit_slot 0 {[5 := Some [Byte.x61]]} in dir_get 5)
    (muts_blocks (by_key {[5 := Some [Byte.x61]]}) + MAX_BLOCK_COUNT)
    (fun r d' x' log => match r with
     | Done v => v = Some [Byte.x61] /\ dir_holds d' (overlay {[5 := Some [Byte.x61]]} ∅) x'
     | Fail _ => slots d' = slots new_directory /\
         ~ roomy (slot_values (overlay {[5 := Some [Byte.x61]]} ∅) (slot_count new_directory) 0)
     | Fault => False
     end).
Proof.
  refine (directory_commit_get new_directory ∅ ∅ 0 {[5 := Some [Byte.x61]]} 5 new_directory_holds _ _ _).
  - by vm_compute.
  - intros id mm [<- <-]%lookup_singleton_Some. split; [by vm_compute|]. split; [by intros v [= <-]|apply slot_zero].
  - change (overlay {[5 := Some [Byte.x61]]} ∅) with one_value. change (slot_count new_directory) with 1.
    pose proof one_cost. lia.
Defined.

Lemma dir_put_holds_witness :
  triple new_directory ∅ (dir_put 5 [Byte.x61]) (zlen [Byte.x61] / DATA_BLOCK_SIZE + 2 + MAX_BLOCK_COUNT)
    (returns (fun _ d' x' _ => dir_holds d' (<[5 := [Byte.x61]]> ∅) x' /\ slot_count d' = slot_count new_directory)).
Proof.
  refine (dir_put_holds new_directory ∅ ∅ 5 [Byte.x61] new_directory_holds _ _ _); [by vm_compute..|].
  rewrite slot_zero. change (<[5 := [Byte.x61]]> ∅) with one_value. change (slot_count new_directory) with 1.
  pose proof one_cost as Hc. unfold roomy, compress_bound. pose proof (Z.div_le_mono _ 22 256 ltac:(lia) Hc) as Hd.
  change (22 / 256) with 0 in Hd. unfold HEADER_LEN, MAX_BLOCK_COUNT, DATA_BLOCK_SIZE. lia.
Defined.

Lemma dir_remove_holds_witness :
  triple new_directory ∅ (dir_remove 5) MAX_BLOCK_COUNT (returns (fun b d' x' _ =>
    b = bool_decide (is_Some ((∅ : Values) !! 5)) /\ dir_holds d' (delete 5 ∅) x' /\ slot_count d' = slot_count new_directory)).
Proof.
  refine (dir_remove_holds new_directory ∅ ∅ 5 new_directory_holds _ _); [by vm_compute|].
  rewrite slot_zero. change (slot_count new_directory) with 1. rewrite delete_empty. unfold values_at. rewrite map_filter_empty.
  by vm_compute.
Defined.
End example.
