(* ===== verification/DirectoryDict.v ===== *)
(** * Dictionaries and runs of a directory

    Installing, sampling, finding the dictionaries again; and the runs in use: the
    pages, the dictionaries they name, and the extents the records spilled to.  A
    dictionary that no page names any more is not among them, and the directory does
    without it. *)
From stdpp Require Import sorting.
From S2P Require Import Prelude Ordered Wire Errors Hash BlockAlloc BlockAllocOk BlockFile Regions PageDir Codec Dict HeapStore SlotPage SlotPageOk Directory DirectoryOk DirectoryMap.

Section dict.
Context `{CodecLaws}.

(** Reading any page of a directory. *)
Lemma dir_page_at D d kvs x desc :
  dir_own D d kvs x -> desc ∈ slots d -> is_allocated desc = true ->
  exists xD xi r kv p bs hx, x = xD ∪ (xi ∪ r) /\ xD ##ₘ xi ∪ r /\ dicts_at D xD /\ xi ⊆ xi ∪ r /\
    page_at D (dir_struct_id d) (dir_version d) desc p bs hx xi kv.
Proof.
  intros Hd (i & Hi)%list_elem_of_lookup_1 Ha.
  destruct (kvs !! i) as [kv|] eqn:Ek.
  2:{ apply lookup_lt_Some in Hi. apply lookup_ge_None in Ek. rewrite (dw_count _ _ _ _ Hd) in Ek. lia. }
  destruct (dir_own_slot _ _ _ _ _ _ _ Hd Hi Ek) as (xD & xi & r & -> & Hdis & Hir & Hx & Hxi & _).
  unfold slot_own in Hxi. simpl in Hxi. rewrite Ha in Hxi. destruct Hxi as (p & bs & hx & Hp).
  exists xD, xi, r, kv, p, bs, hx. split_and!; try done. apply map_union_subseteq_l.
Qed.

Lemma dir_read_page D d kvs x desc :
  dir_own D d kvs x -> desc ∈ slots d -> is_allocated desc = true ->
  triple d x (read_run_page (desc_run desc)) 0 (returns (fun _ d' x' l => x' = x /\ l = [] /\ same_dir D d d')).
Proof.
  intros Hd Hin Ha. destruct (dir_page_at _ _ _ _ _ Hd Hin Ha) as (xD & xi & r & kv & p & bs & hx & -> & Hdis & Hx & Hsub & Hp).
  eapply triple_weaken; [eapply read_run_page_spec; try done; apply Hd|done|].
  intros [?|?|] d' x' l Hq; [|done|done]. by destruct Hq as (_ & -> & -> & Hd').
Qed.

Lemma same_dir_slots D d d' : same_dir D d d' -> slots d' = slots d /\ dir_struct_id d' = dir_struct_id d /\ dir_version d' = dir_version d.
Proof. by intros (s & -> & _). Qed.

Lemma elem_of_allocated d desc : desc ∈ allocated_slots d -> desc ∈ slots d /\ is_allocated desc = true.
Proof. unfold allocated_slots. rewrite list_elem_of_filter. tauto. Qed.

(** Sampling reads only. *)
Lemma sample_pages_spec D d kvs x max samples pages :
  dir_own D d kvs x -> (forall desc, desc ∈ pages -> desc ∈ slots d /\ is_allocated desc = true) ->
  triple d x (sample_pages max samples pages) 0 (returns (fun _ d' x' l => x' = x /\ l = [] /\ same_dir D d d')).
Proof.
  revert d samples. induction pages as [|desc pages IH]; intros d samples Hd Hin; simpl.
  - apply triple_ret. simpl. do 2 (split; [done|]). by apply same_dir_refl, Hd.
  - destruct (Hin desc) as [H1 H2]; [by left|]. eapply triple_step; [by eapply dir_read_page|done|].
    intros p d1 ? ? (-> & -> & Hd1). destruct (take_samples max samples (entries p)) as [samples' full]. destruct full.
    + apply triple_ret. unfold after, returns. done.
    + destruct (same_dir_slots _ _ _ Hd1) as (Es & _). eapply triple_weaken; [apply IH|done|].
      * by eapply same_dir_own.
      * intros desc' Hd'. rewrite Es. apply Hin. by right.
      * intros [?|?|] d' x' l Hq; [|done|done]. destruct Hq as (-> & -> & Hd'). unfold after, returns.
        do 2 (split; [done|]). by eapply same_dir_trans.
Qed.

(** What a reader leaves of a directory. *)
Definition reread (d d' : PageDirectory) : Prop := exists s, d' = with_dicts s d /\ current s = current (dicts d).

Lemma same_reread D d d' : same_dir D d d' -> reread d d'.
Proof. intros (s & -> & _ & E). by exists s. Qed.

Lemma sample_payloads_holds d m x max :
  dir_holds d m x ->
  triple d x (sample_payloads max) 0 (returns (fun _ d' x' l => x' = x /\ l = [] /\ dir_holds d' m x /\ reread d d')).
Proof.
  intros (D & kvs & Hd & Hr & Hn & Hm). unfold sample_payloads. apply triple_gets.
  eapply triple_weaken; [eapply sample_pages_spec; [exact Hd|apply elem_of_allocated]|done|].
  intros [?|?|] d' x' l Hq; [|done|done]. destruct Hq as (-> & -> & Hd'). simpl. do 2 (split; [done|]).
  split; [by eapply dir_holds_same|by eapply same_reread].
Qed.

(** More dictionaries do not disturb the pages. *)
Lemma slot_own_mono D D' sid ver t x : D ⊆ D' -> slot_own D sid ver t x -> slot_own D' sid ver t x.
Proof.
  intros Hsub. unfold slot_own. destruct (is_allocated t.1); [|done]. intros (p & bs & hx & [? ? ? ? (im & pd & di & ? & ? & Hin) ? ? ?]).
  exists p, bs, hx. constructor; try done. exists im, pd, di. do 2 (split; [done|]). unfold dict_in in *.
  destruct (effective di) as [[dd r]|]; [|done]. destruct Hin as (HD & ? & ?). split; [|done]. by eapply lookup_weaken.
Qed.

Lemma install_holds d m x dict :
  dir_holds d m x -> zlen dict <= 2 ^ 27 ->
  triple d x (install_dictionary dict) (zlen dict / DATA_BLOCK_SIZE + 2) (returns (fun r d' x' l =>
    dir_holds d' m x' /\ fits 64 r /\ l = [Took (ref_run r)] /\ exists s, d' = with_dicts s d)).
Proof.
  intros (D & kvs & [Hst Hc Hds (xD & xs & -> & Hdis & Hx & Ho)] & Hr & Hn & Hm) Hl.
  eapply triple_weaken; [by apply triple_dicts, (install_spec (dicts d) D xD xs dict)|done|].
  intros [r|?|] d' x' l (s & -> & Hq); [|done|done]. destruct Hq as (Hnew & Hf & -> & _ & Hs & x1 & -> & Hd1 & Hx1).
  unfold returns. split; [|split; [done|split; [done|by exists s]]]. exists (<[r := dict]> D), kvs. split; [|done].
  constructor; simpl; try done. exists x1, xs. split_and!; try done.
  rewrite <- (map_id (zip (slots d) kvs)). eapply (owns_impl id); [|exact Ho]. intros t y _. apply slot_own_mono.
  by apply insert_subseteq.
Qed.

(** The descriptors of a directory fit their journal records, and none is staged. *)
Lemma dir_holds_desc d m x desc : dir_holds d m x -> desc ∈ slots d -> fits 64 desc /\ is_in_journal desc = false.
Proof.
  intros (D & kvs & Hd & _) Hin. destruct (is_allocated desc) eqn:Ha.
  - destruct (dir_page_at _ _ _ _ _ Hd Hin Ha) as (? & ? & ? & ? & ? & ? & ? & _ & _ & _ & _ & Hp).
    by destruct (pa_flag _ _ _ _ _ _ _ _ _ Hp).
  - apply list_elem_of_lookup_1 in Hin as (i & Hi). destruct (kvs !! i) as [kv|] eqn:Ek.
    2:{ apply lookup_lt_Some in Hi. apply lookup_ge_None in Ek. rewrite (dw_count _ _ _ _ Hd) in Ek. lia. }
    destruct (dir_own_slot _ _ _ _ _ _ _ Hd Hi Ek) as (xD & xi & r & -> & Hdis & Hir & Hx & Hxi & _).
    unfold slot_own in Hxi. simpl in Hxi. rewrite Ha in Hxi. by destruct Hxi as (-> & _).
Qed.

Lemma dir_holds_stamp d m x : dir_holds d m x -> fits 32 (dir_struct_id d) /\ fits 8 (dir_version d).
Proof. intros (D & kvs & Hd & _). apply Hd. Qed.

(** ** The pages name their dictionaries *)

(** The image a slot's page was read from names its dictionary. *)
Lemma page_at_ref D sid ver desc p bs hx x kv :
  page_at D sid ver desc p bs hx x kv ->
  exists r, dict_ref_of bs = Done r /\ (is_none r = false -> exists dd, D !! r = Some dd) /\
    forall D', (is_none r = false -> D' !! r = D !! r) -> page_at D' sid ver desc p bs hx x kv.
Proof.
  intros [? ? ? Hfit (image & pad & dict & -> & Henc & Hin) ? ? ?].
  destruct (page_image_ok p dict Hfit (dict_in_ref _ _ Hin)) as (image' & E & _ & Hdec).
  rewrite Henc in E. injection E as <-. destruct (Hdec pad) as [_ Href]. exists (effective_ref dict). split; [done|].
  unfold dict_in, effective_ref in *. destruct (effective dict) as [[dd r]|] eqn:Ee; simpl.
  - destruct Hin as (HD & Hn & Hf). split; [by exists dd|]. intros D' HD'. constructor; try done. exists image, pad, dict.
    do 2 (split; [done|]). unfold dict_in. rewrite Ee, HD' by done. done.
  - split; [done|]. intros D' _. constructor; try done. exists image, pad, dict. do 2 (split; [done|]). unfold dict_in. by rewrite Ee.
Qed.

Lemma elem_of_push_ref refs r r' : r' ∈ push_ref refs r <-> r' ∈ refs \/ r' = r /\ is_none r = false.
Proof.
  unfold push_ref. destruct (is_none r); simpl; [naive_solver|]. case_bool_decide; simpl; [naive_solver|].
  rewrite elem_of_app, list_elem_of_singleton. naive_solver.
Qed.

(** The references found are of stored dictionaries, and enough for the pages. *)
Lemma page_refs_spec D (d : PageDirectory) sid ver l : forall xs x refs,
  owns (slot_own D sid ver) l xs -> xs ⊆ x -> (forall r, r ∈ refs -> exists dd, D !! r = Some dd) ->
  triple d x (st_foldl (fun refs desc =>
    let! bytes := on_file (read_run (desc_run desc)) in
    let! r := st_lift (dict_ref_of bytes) in
    st_ret (push_ref refs r)) refs (filter (fun p => is_allocated p = true) (map fst l))) 0 (returns (fun refs' d' x' log =>
      x' = x /\ log = [] /\ d' = d /\ (forall r, r ∈ refs' -> exists dd, D !! r = Some dd) /\ (forall r, r ∈ refs -> r ∈ refs') /\
      forall D', (forall r, r ∈ refs' -> D' !! r = D !! r) -> owns (slot_own D' sid ver) l xs)).
Proof.
  induction l as [|[desc kv] l IH]; intros xs x refs Ho Hsub Hrefs; cbn [map fst].
  { apply triple_ret. unfold returns. by do 5 (split; [done|]). }
  destruct Ho as (xi & r & -> & Hdis & Hxi & Ho). pose proof (map_union_subseteq_l xi r) as Hl.
  pose proof (map_union_subseteq_r _ _ Hdis) as Hr. rewrite filter_cons. cbv beta. unfold slot_own in Hxi. cbn [fst snd] in Hxi.
  destruct (is_allocated desc) eqn:Ha.
  - rewrite decide_True by done. cbn [st_foldl]. destruct Hxi as (p & bs & hx & Hp). pose proof (page_at_holds _ _ _ _ _ _ _ _ _ Hp) as [Hh Hb].
    destruct (page_at_ref _ _ _ _ _ _ _ _ _ Hp) as (rf & Ef & HrD & Hmono).
    eapply (triple_step _ _ _ _ _ (fun rs d' x' log => rs = push_ref refs rf /\ x' = x /\ log = [] /\ d' = d)); [|done|].
    + eapply triple_step; [apply (triple_read _ _ _ bs)|done|].
      { split; [|done]. eapply lookup_weaken; [exact Hh|]. by transitivity (xi ∪ r). }
      intros ? ? ? ? (-> & -> & -> & ->). eapply triple_done; [exact Ef|]. by apply triple_ret.
    + intros ? ? ? ? (-> & -> & -> & ->). eapply triple_weaken; [apply (IH r x (push_ref refs rf) Ho)|done|].
      * by transitivity (xi ∪ r).
      * intros r' [?|[-> ?]]%elem_of_push_ref; [by apply Hrefs|by apply HrD].
      * intros [rs|?|] d' x' log Hq; [|done|done]. destruct Hq as (-> & -> & -> & H1 & H2 & H3). unfold after, returns.
        do 3 (split; [done|]). split; [done|]. split; [intros r' Hr'; apply H2, elem_of_push_ref; by left|].
        intros D' HD'. exists xi, r. do 2 (split; [done|]). split; [|by apply H3]. unfold slot_own. cbn [fst snd]. rewrite Ha.
        exists p, bs, hx. apply Hmono. intros Hn. apply HD', H2, elem_of_push_ref. by right.
  - rewrite decide_False by done. eapply triple_weaken; [apply (IH r x refs Ho); [by transitivity (xi ∪ r)|done]|done|].
    intros [rs|?|] d' x' log Hq; [|done|done]. destruct Hq as (-> & -> & -> & H1 & H2 & H3). unfold returns.
    do 5 (split; [done|]). intros D' HD'. exists xi, r. do 2 (split; [done|]). split; [|by apply H3].
    unfold slot_own. cbn [fst snd]. by rewrite Ha.
Qed.

Lemma zip_slots D d kvs x : dir_own D d kvs x -> map fst (zip (slots d) kvs) = slots d.
Proof. intros Hd. apply (fst_zip (slots d) kvs). rewrite (dw_count _ _ _ _ Hd). done. Qed.

(** The references of a directory's pages. *)
Lemma page_dict_refs_spec D d kvs x :
  dir_own D d kvs x ->
  triple d x page_dict_refs 0 (returns (fun refs d' x' log => x' = x /\ log = [] /\ d' = d /\
    (forall r, r ∈ refs -> exists dd, D !! r = Some dd) /\
    exists xD xs, x = xD ∪ xs /\ xD ##ₘ xs /\ dicts_at D xD /\
      forall D', (forall r, r ∈ refs -> D' !! r = D !! r) ->
        owns (slot_own D' (dir_struct_id d) (dir_version d)) (zip (slots d) kvs) xs)).
Proof.
  intros Hd. pose proof (zip_slots _ _ _ _ Hd) as Hz. destruct Hd as [_ _ _ (xD & xs & -> & Hdis & Hx & Ho)].
  unfold page_dict_refs. apply triple_gets. unfold allocated_slots. rewrite <- Hz at 1.
  eapply triple_weaken; [apply (page_refs_spec D d _ _ _ xs (xD ∪ xs) [] Ho); [by apply map_union_subseteq_r|by intros ? ?%elem_of_nil]|done|].
  intros [rs|?|] d' x' log Hq; [|done|done]. destruct Hq as (-> & -> & -> & H1 & _ & H3). unfold returns.
  do 4 (split; [done|]). by exists xD, xs.
Qed.

Lemma adopt_spec D d kvs x :
  dir_own D d kvs x ->
  triple d x adopt_dictionary_from_pages 0 (returns (fun _ d' x' l => x' = x /\ l = [] /\ dir_own D d' kvs x /\
    exists s, d' = with_dicts s d)).
Proof.
  intros Hd. unfold adopt_dictionary_from_pages.
  eapply triple_step; [by eapply page_dict_refs_spec|done|].
  intros refs ? ? ? (-> & -> & -> & Hrefs & _). destruct refs as [|r refs].
  - apply triple_ret. unfold after, returns. do 3 (split; [done|]). exists (dicts d). by destruct d.
  - apply (triple_self d x (st_modify _)). unfold after, returns; simpl. do 2 (split; [done|]). split.
    + destruct Hd as [? ? [Hc _] ?]. constructor; simpl; try done. constructor; simpl; [done|]. right. apply Hrefs. by left.
    + by eexists.
Qed.

Lemma adopt_holds d m x :
  dir_holds d m x ->
  triple d x adopt_dictionary_from_pages 0 (returns (fun _ d' x' l => x' = x /\ l = [] /\ dir_holds d' m x /\
    exists s, d' = with_dicts s d)).
Proof.
  intros (D & kvs & Hd & Hr & Hn & Hm). eapply triple_weaken; [by eapply adopt_spec|done|].
  intros [?|?|] d' x' l Hq; [|done|done]. destruct Hq as (-> & -> & Hd' & Hs). unfold returns. do 2 (split; [done|]).
  split; [|done]. by exists D, kvs.
Qed.

(** The directory of the same slots holds the same map, with no dictionary loaded. *)
Lemma from_slots_holds d m x :
  dir_holds d m x -> exists d', from_slots (dir_struct_id d) (dir_version d) (slots d) = Done d' /\ dir_holds d' m x /\
    slots d' = slots d /\ dir_struct_id d' = dir_struct_id d /\ dir_version d' = dir_version d.
Proof.
  intros Hh. pose proof (dir_holds_count _ _ _ Hh) as Hc. destruct Hh as (D & kvs & [Hst Hcnt Hds Hsp] & Hr & Hn & Hm).
  unfold from_slots. unfold slot_count in Hc. replace (zlen (slots d) =? 0) with false by lia. eexists. split; [done|].
  split; [|done]. exists D, kvs. split; [|done]. constructor; simpl; try done. constructor; [intros ? ? ? _ E; simpl in E; by rewrite lookup_empty in E|by left].
Qed.
End dict.

(** ** Runs that cover a heap of regions *)

Definition covers (rs : list BlockRun) (x : Regions) : Prop :=
  (forall r, r ∈ rs -> lens x !! run_start r = Some (run_len r)) /\ (forall b, is_Some (x !! b) -> exists r, r ∈ rs /\ run_start r = b).

Lemma lens_union x y : lens (x ∪ y) = lens x ∪ lens y.
Proof. apply map_fmap_union. Qed.

Lemma covers_nil : covers [] ∅.
Proof. split; [by intros r ?%elem_of_nil|]. intros b [bs Hb]. by rewrite lookup_empty in Hb. Qed.

Lemma covers_app rs1 rs2 x1 x2 : covers rs1 x1 -> covers rs2 x2 -> x1 ##ₘ x2 -> covers (rs1 ++ rs2) (x1 ∪ x2).
Proof.
  intros [H1 K1] [H2 K2] Hd. split.
  - intros r. rewrite lens_union. intros [Hr|Hr]%elem_of_app; [apply lookup_union_Some_l; by apply H1|].
    apply lookup_union_Some_r; [by apply map_disjoint_fmap|by apply H2].
  - intros b [bs [Hb|Hb]%(lookup_union_Some _ _ _ _ Hd)].
    + destruct (K1 b) as (r & ? & ?); [by exists bs|]. exists r. rewrite elem_of_app. auto.
    + destruct (K2 b) as (r & ? & ?); [by exists bs|]. exists r. rewrite elem_of_app. auto.
Qed.

Lemma covers_same rs rs' x : (forall r, r ∈ rs <-> r ∈ rs') -> covers rs x -> covers rs' x.
Proof.
  intros E [H1 H2]. split; [intros r Hr; by apply H1, E|]. intros b Hb. destruct (H2 b Hb) as (r & Hr & <-). exists r. by rewrite <- E.
Qed.

Lemma covers_run r x : run_own r x -> covers [r] x.
Proof.
  intros (bs & -> & El). split.
  - intros r' ->%list_elem_of_singleton. unfold lens. rewrite map_fmap_singleton, lookup_singleton_eq. f_equal. by apply region_len.
  - intros b [bs' [<- _]%lookup_singleton_Some]. exists r. by rewrite list_elem_of_singleton.
Qed.

(** A ledger of such runs, in any order, is the lengths of the regions. *)
Lemma covers_ledger rs x : covers rs x -> replay_events (map Took rs) ∅ = lens x.
Proof.
  intros [H1 H2].
  assert (forall L, L ⊆ lens x -> replay_events (map Took rs) L ⊆ lens x /\ L ⊆ replay_events (map Took rs) L /\
    forall r, r ∈ rs -> is_Some (replay_events (map Took rs) L !! run_start r)) as Hrep.
  { clear H2. induction rs as [|r rs IH]; intros L HL; cbn [map replay_events foldl].
    - split; [done|]. split; [done|]. by intros r ?%elem_of_nil.
    - destruct (IH ltac:(intros r' Hr'; apply H1; by right) (replay_event L (Took r))) as (I1 & I2 & I3).
      { simpl. apply insert_subseteq_l; [apply H1; by left|done]. }
      split; [done|]. split.
      + etransitivity; [|exact I2]. simpl. apply map_subseteq_spec. intros b n Hb.
        destruct (decide (b = run_start r)) as [->|Hne]; [|by rewrite lookup_insert_ne].
        rewrite lookup_insert_eq. pose proof (lookup_weaken _ _ _ _ Hb HL) as Hx. rewrite (H1 r) in Hx by by left. done.
      + intros r' [->|Hr']%elem_of_cons; [|by apply I3]. exists (run_len r). eapply lookup_weaken; [|exact I2]. apply lookup_insert_eq. }
  destruct (Hrep ∅ (map_empty_subseteq _)) as (I1 & _ & I3). apply map_eq. intros b.
  destruct (lens x !! b) as [n|] eqn:E.
  - unfold lens in E. rewrite lookup_fmap in E. destruct (x !! b) as [bs|] eqn:Ex; [|done].
    destruct (H2 b) as (r & Hr & <-); [by exists bs|]. destruct (I3 r Hr) as [n' En]. rewrite En.
    pose proof (lookup_weaken _ _ _ _ En I1) as Hn. unfold lens in Hn. rewrite lookup_fmap, Ex in Hn. by rewrite <- Hn, <- E.
  - destruct (replay_events _ _ !! b) as [n|] eqn:En; [|done]. by rewrite (lookup_weaken _ _ _ _ En I1) in E.
Qed.

Section runs.
Context `{CodecLaws}.

(** ** Extents *)

Lemma extent_run h v x : extent_at h v x -> run_own (heap_run h) x.
Proof. intros (_ & _ & _ & im & pd & _ & -> & Hl). by exists (im ++ pd). Qed.

Lemma page_own_covers p kv x : page_own p kv x -> covers (heap_runs_of p) x /\ Forall run64 (heap_runs_of p).
Proof.
  intros (ts & Ees & _ & _ & Ho). unfold heap_runs_of. rewrite Ees. clear Ees. revert x Ho.
  induction ts as [|[id [e v]] ts IH]; intros x; cbn [owns map omap list_omap].
  - intros ->. split; [apply covers_nil|constructor].
  - intros (y & r & -> & Hd & [_ He] & Ho). destruct (IH r Ho) as [Hc Hf]. cbn [to_entry fst snd heap_ref] in *. destruct e as [b|h]; simpl.
    + destruct He as (-> & _). by rewrite (left_id_L ∅ (∪)).
    + destruct He as [He%extent_run _]. split; [|constructor; [apply heap_run64|done]].
      by apply (covers_app [heap_run h]); [apply covers_run| |].
Qed.

(** ** Dictionaries *)

(** The dictionaries that [refs] name, and their regions. *)
Definition only_refs (refs : list DictRef) (D : gmap Z (list byte)) : gmap Z (list byte) := filter (fun t => t.1 ∈ refs) D.
Definition only_starts (refs : list DictRef) (x : Regions) : Regions := filter (fun t => t.1 ∈ map start_block refs) x.

Lemma lookup_only_refs refs D r : r ∈ refs -> only_refs refs D !! r = D !! r.
Proof.
  intros Hr. apply option_eq. intros d. unfold only_refs. rewrite map_lookup_filter_Some. simpl. tauto.
Qed.

Lemma only_refs_ok refs s D :
  dicts_ok s D -> (current s = NONE \/ current s ∈ refs) -> dicts_ok s (only_refs refs D).
Proof.
  intros [Hc Hr] Hin. constructor.
  - intros r d d' [Hd _]%map_lookup_filter_Some. by apply Hc.
  - destruct Hin as [?|Hin]; [by left|]. destruct Hr as [?|Hr]; [by left|right]. by rewrite lookup_only_refs.
Qed.

Lemma only_refs_at refs D x :
  dicts_at D x -> (forall r, r ∈ refs -> exists d, D !! r = Some d) ->
  dicts_at (only_refs refs D) (only_starts refs x) /\ covers (map ref_run refs) (only_starts refs x).
Proof.
  intros [Hp Ha Ho] Hrefs.
  assert (forall r d, D !! r = Some d -> r ∈ refs -> exists image pad, encode_dict_page d = Done image /\
    holds (only_starts refs x) (ref_run r) (image ++ pad)) as Hhold.
  { intros r d Hr Hin. destruct (Hp r d Hr) as (_ & _ & _ & im & pad & E & Hh & Hl). exists im, pad. split; [done|]. split; [|done].
    apply map_lookup_filter_Some. split; [done|]. simpl. apply list_elem_of_fmap. by exists r. }
  split; [constructor|split].
  - intros r d [Hr Hin]%map_lookup_filter_Some. destruct (Hp r d Hr) as (? & ? & ? & _). do 3 (split; [done|]). by apply Hhold.
  - intros r d r' d' [Hr _]%map_lookup_filter_Some [Hr' _]%map_lookup_filter_Some. by eapply Ha.
  - intros b bs [Hb (r & Eb & Hr)%list_elem_of_fmap]%map_lookup_filter_Some. simpl in Eb. subst b. destruct (Hrefs r Hr) as [d Hd].
    exists r, d. split; [by rewrite lookup_only_refs|done].
  - intros b (r & -> & Hr)%list_elem_of_fmap. destruct (Hrefs r Hr) as [d Hd]. destruct (Hhold r d Hd Hr) as (im & pad & _ & Hh & Hl).
    unfold lens. rewrite lookup_fmap, Hh. simpl. f_equal. by apply region_len.
  - intros b [bs [Hb (r & Eb & Hr)%list_elem_of_fmap]%map_lookup_filter_Some]. exists (ref_run r). simpl in Eb. split; [|done].
    apply list_elem_of_fmap. by exists r.
Qed.

Lemma only_starts_split refs x : exists k, x = only_starts refs x ∪ k /\ only_starts refs x ##ₘ k.
Proof.
  exists (filter (fun t => ~ t.1 ∈ map start_block refs) x). split; [symmetry; apply map_filter_union_complement|apply map_disjoint_filter_complement].
Qed.

(** ** Scans *)

(** A directory whose dictionaries are those that [refs] name. *)
Definition dicts_named (refs : list DictRef) (d : PageDirectory) (m : Values) (y : Regions) : Prop :=
  exists D kvs xD xs, y = xD ∪ xs /\ xD ##ₘ xs /\ dicts_at D xD /\ covers (map ref_run refs) xD /\
    owns (slot_own D (dir_struct_id d) (dir_version d)) (zip (slots d) kvs) xs /\
    dir_own D d kvs y /\ routed kvs /\ kvs <> [] /\ forall id, m !! id = view kvs id.

Lemma dicts_named_holds refs d m y : dicts_named refs d m y -> dir_holds d m y.
Proof. intros (D & kvs & xD & xs & _ & _ & _ & _ & _ & Hd & Hr). by exists D, kvs. Qed.

(** The dictionaries in use; what other dictionaries there were is not missed. *)
Lemma dict_runs_holds d m x :
  dir_holds d m x ->
  triple d x dict_runs_in_use 0 (returns (fun refs d' x' log => x' = x /\ log = [] /\ d' = d /\
    exists y k, x = y ∪ k /\ y ##ₘ k /\ dicts_named refs d m y)).
Proof.
  intros (D & kvs & Hd & Hr). unfold dict_runs_in_use. eapply triple_step; [by eapply page_dict_refs_spec|done|].
  intros refs ? ? ? (-> & -> & -> & Hrefs & xD & xs & -> & Hdis & Hx & Hpages). apply triple_gets, triple_ret. unfold after, returns.
  do 3 (split; [done|]). set (rs := push_ref refs (current (dicts d))).
  assert (forall r, r ∈ rs -> exists dd, D !! r = Some dd) as Hrs.
  { intros r [?|[-> Hn]]%elem_of_push_ref; [by apply Hrefs|]. destruct (do_current _ _ (dw_dicts _ _ _ _ Hd)) as [E|?]; [by rewrite E in Hn|done]. }
  destruct (only_refs_at rs D xD Hx Hrs) as [Hx' Hcov]. destruct (only_starts_split rs xD) as (k & Ek & Hk).
  rewrite Ek in Hdis. apply map_disjoint_union_l in Hdis as [Hd1 Hd2]. set (xD' := only_starts rs xD) in *.
  assert (owns (slot_own (only_refs rs D) (dir_struct_id d) (dir_version d)) (zip (slots d) kvs) xs) as Ho.
  { apply Hpages. intros r Hin. apply lookup_only_refs, elem_of_push_ref. by left. }
  exists (xD' ∪ xs), k. split; [rewrite Ek; rewrite <- !(assoc_L (∪)); by rewrite (map_union_comm k xs)|].
  split; [by apply map_disjoint_union_l|]. exists (only_refs rs D), kvs, xD', xs. do 5 (split; [done|]). split; [|done].
  destruct Hd as [Hst Hct Hds _]. constructor; try done; [|by exists xD', xs].
  apply only_refs_ok; [done|]. destruct (do_current _ _ Hds) as [E|[dd E]]; [by left|].
  destruct (is_none (current (dicts d))) eqn:En; [left; by apply Z.eqb_eq in En|]. right. apply elem_of_push_ref. by right.
Qed.

(** The page of a descriptor is read, and its extents found. *)
Lemma heap_pages_spec D sid ver xD l : forall (d : PageDirectory) xs y runs,
  dicts_ok (dicts d) D -> dicts_at D xD -> xD ##ₘ y -> owns (slot_own D sid ver) l xs -> xs ⊆ y ->
  triple d (xD ∪ y) (st_foldl (fun runs desc =>
    let! page := read_run_page (desc_run desc) in
    st_ret (runs ++ heap_runs_of page)) runs (filter (fun p => is_allocated p = true) (map fst l))) 0 (returns (fun runs' d' x' log =>
      x' = xD ∪ y /\ log = [] /\ same_dir D d d' /\ exists hs, runs' = runs ++ hs /\ Forall run64 hs /\
        covers (map desc_run (filter (fun p => is_allocated p = true) (map fst l)) ++ hs) xs)).
Proof.
  induction l as [|[desc kv] l IH]; intros d xs y runs Hs Hx Hxy Ho Hsub; cbn [map fst].
  { apply triple_ret. unfold returns. do 2 (split; [done|]). split; [by apply same_dir_refl|]. exists []. rewrite app_nil_r.
    split; [done|]. split; [constructor|]. simpl in Ho. subst xs. apply covers_nil. }
  destruct Ho as (xi & r & -> & Hdis & Hxi & Ho). pose proof (map_union_subseteq_l xi r) as Hl.
  pose proof (map_union_subseteq_r _ _ Hdis) as Hr. rewrite filter_cons. cbv beta. unfold slot_own in Hxi. cbn [fst snd] in Hxi.
  destruct (is_allocated desc) eqn:Ha.
  - rewrite decide_True by done. cbn [st_foldl map]. destruct Hxi as (p & bs & hx & Hp).
    eapply (triple_step _ _ _ _ _ (fun rs d' x' log => rs = runs ++ heap_runs_of p /\ x' = xD ∪ y /\ log = [] /\ same_dir D d d')); [|done|].
    + eapply triple_step; [eapply read_run_page_spec; try done; by transitivity (xi ∪ r)|done|].
      intros ? d1 ? ? (-> & -> & -> & Hd1). by apply triple_ret.
    + intros ? d1 ? ? (-> & -> & -> & Hd1). pose proof Hd1 as (s1 & -> & Hs1 & _).
      eapply triple_weaken; [apply (IH (with_dicts s1 d) r y (runs ++ heap_runs_of p)); try done; by transitivity (xi ∪ r)|done|].
      intros [rs|?|] d' x' log Hq; [|done|done]. destruct Hq as (-> & -> & Hd' & hs & -> & Hf & Hc). unfold after, returns.
      do 2 (split; [done|]). split; [by eapply same_dir_trans|]. exists (heap_runs_of p ++ hs).
      destruct (page_own_covers _ _ _ (pa_own _ _ _ _ _ _ _ _ _ Hp)) as [Hcp Hfp].
      split; [by rewrite (assoc_L (++))|]. split; [by apply Forall_app_2|].
      destruct (pa_split _ _ _ _ _ _ _ _ _ Hp) as [-> Hn].
      apply (covers_same (([desc_run desc] ++ heap_runs_of p) ++ (map desc_run (filter (fun p => is_allocated p = true) (map fst l)) ++ hs))).
      * intros r'. cbn [map]. rewrite !elem_of_app, !elem_of_cons, elem_of_nil. tauto.
      * apply covers_app; [apply (covers_app [desc_run desc]); [apply covers_run|exact Hcp|]|exact Hc|done].
        -- exists bs. split; [done|apply Hp].
        -- by apply map_disjoint_singleton_l.
  - rewrite decide_False by done. destruct Hxi as (_ & -> & _). rewrite (left_id_L ∅ (∪)) in *. by apply IH.
Qed.

(** All the runs in use together cover what the directory owns. *)
Lemma heap_runs_holds refs d m y :
  dicts_named refs d m y ->
  triple d y heap_runs_in_use 0 (returns (fun hs d' x' log => x' = y /\ log = [] /\ dir_holds d' m y /\ reread d d' /\
    Forall run64 hs /\ covers (used_runs d ++ map ref_run refs ++ hs) y)).
Proof.
  intros (D & kvs & xD & xs & -> & Hdis & Hx & Hcov & Ho & Hd & Hr & Hn & Hm). unfold heap_runs_in_use. apply triple_gets.
  pose proof (zip_slots _ _ _ _ Hd) as Hz. unfold used_runs, allocated_slots. rewrite <- Hz.
  eapply triple_weaken; [apply (heap_pages_spec D (dir_struct_id d) (dir_version d) xD (zip (slots d) kvs) d xs xs []); try done; apply Hd|done|].
  intros [hs|?|] d' x' log Hq; [|done|done]. destruct Hq as (-> & -> & Hd' & hs' & -> & Hf & Hc). unfold returns.
  do 2 (split; [done|]). split; [by eapply dir_holds_same|]. split; [by eapply same_reread|]. split; [done|].
  refine (covers_same _ _ _ _ (covers_app _ _ _ _ Hcov Hc Hdis)). intros r. rewrite !elem_of_app, elem_of_nil. tauto.
Qed.
End runs.
