(* ===== verification/DirectoryGrow.v ===== *)
(** * Growing a directory

    [dir_grow_to] routes every record into the buckets of a larger layout, writes a
    page per bucket that has records, swaps the slots and frees the old pages.  The
    directory holds the same map afterwards; extents stay where they are. *)
From stdpp Require Import sorting.
From S2P Require Import Prelude Ordered Wire Errors Hash BlockAlloc BlockAllocOk BlockFile Regions PageDir Codec Dict HeapStore SlotPage SlotPageOk Directory DirectoryOk DirectoryMap DirectoryDict.

Section grow.
Context `{CodecLaws}.

(** ** Buckets *)

(** A bucket's page and its values, with the extents they point to. *)
Definition bucket_own (sid ver : Z) (t : SlotPage * Values) (x : Regions) : Prop :=
  struct_id t.1 = sid /\ version t.1 = ver /\ page_own t.1 t.2 x.

(** The values of [M] by bucket. *)
Definition buckets_of (n : Z) (M : Values) : list Values := map (slot_values M n) (seq 0 (Z.to_nat n)).

Lemma lookup_buckets n M i : (i < Z.to_nat n)%nat -> buckets_of n M !! i = Some (slot_values M n i).
Proof. intros Hi. unfold buckets_of. rewrite list_lookup_fmap, lookup_seq_lt by done. done. Qed.

Lemma length_buckets n M : length (buckets_of n M) = Z.to_nat n.
Proof. unfold buckets_of. by rewrite length_map, length_seq. Qed.

Lemma slot_values_insert M n id v i : M !! id = None ->
  slot_values (<[id := v]> M) n i = if decide (slot_for id n = i) then <[id := v]> (slot_values M n i) else slot_values M n i.
Proof.
  intros Hid. unfold values_at. case_decide as Hd; [by rewrite map_filter_insert_True|].
  rewrite map_filter_insert_False by done. by rewrite delete_id.
Qed.

Lemma buckets_insert n M id v : 0 < n -> M !! id = None ->
  buckets_of n (<[id := v]> M) = <[slot_for id n := <[id := v]> (slot_values M n (slot_for id n))]> (buckets_of n M).
Proof.
  intros Hn Hid. pose proof (slot_for_bound id n Hn) as Hb. apply list_eq. intros i.
  destruct (decide (i < Z.to_nat n)%nat) as [Hi|Hi].
  - rewrite lookup_buckets, slot_values_insert by done. case_decide as Hd.
    + subst i. by rewrite list_lookup_insert_eq by by rewrite length_buckets.
    + rewrite list_lookup_insert_ne by done. by rewrite lookup_buckets.
  - rewrite !lookup_ge_None_2; [done|rewrite length_insert|]; rewrite length_buckets; lia.
Qed.

Lemma slot_none M n i id : M !! id = None -> slot_values M n i !! id = None.
Proof. intros Hid. apply map_lookup_filter_None. by left. Qed.

(** One record into its bucket. *)
Lemma rebucket_entry sid ver n bs M X id e v y :
  0 < n -> length bs = Z.to_nat n -> owns (bucket_own sid ver) (zip bs (buckets_of n M)) X -> M !! id = None ->
  entry_own (id, (e, v)) y -> y ##ₘ X ->
  owns (bucket_own sid ver) (zip (alter (upsert_entry id e) (slot_for id n) bs) (buckets_of n (<[id := v]> M))) (y ∪ X).
Proof.
  intros Hn Hl Ho Hid He Hd. pose proof (slot_for_bound id n Hn) as Hb. rewrite buckets_insert by done. set (i := slot_for id n) in *.
  destruct (bs !! i) as [p|] eqn:Ep; [|apply lookup_ge_None in Ep; lia].
  pose proof (lookup_buckets n M i Hb) as Ek. apply list_elem_of_split_length in Ep as (b1 & b2 & Eb & Ei).
  apply list_elem_of_split_length in Ek as (k1 & k2 & Ekk & Eik).
  assert (forall a b, zip (b1 ++ a :: b2) (k1 ++ b :: k2) = zip b1 k1 ++ (a, b) :: zip b2 k2) as Ez.
  { intros a b. rewrite zip_with_app; [done|congruence]. }
  assert (alter (upsert_entry id e) i bs = b1 ++ upsert_entry id e p :: b2) as ->.
  { rewrite Eb, Ei, <- (Nat.add_0_r (length b1)), alter_app_r. done. }
  assert (<[i := <[id := v]> (slot_values M n i)]> (buckets_of n M) = k1 ++ <[id := v]> (slot_values M n i) :: k2) as ->.
  { rewrite Ekk at 1. rewrite Eik, <- (Nat.add_0_r (length k1)), insert_app_r. done. }
  rewrite Eb, Ekk, Ez in Ho. rewrite Ez. apply owns_focus in Ho as (xi & r & -> & Hir & (Hs & Hv & Hp) & Hrest). cbn [fst snd] in *.
  apply map_disjoint_union_r in Hd as [Hyi Hyr].
  destruct (page_own_take p _ xi id Hp) as (Hg & [Hnone _] & xm & r' & -> & Hmr & Hcase & _ & Hup).
  assert (page_get p id = None) as Eg.
  { rewrite Hg. destruct (page_map p !! id) as [e0|] eqn:E; [|done]. exfalso.
    destruct (page_own_take p _ _ id Hp) as (_ & [_ Hback] & _). by rewrite Hback in E by by apply slot_none. }
  rewrite Eg in Hcase. subst xm. rewrite (left_id_L ∅ (∪)) in *. destruct (upsert_stamp id e p) as [Hus Huv].
  apply owns_focus. exists (y ∪ r'), r. split; [by rewrite (assoc_L (∪))|]. split; [by apply map_disjoint_union_l|]. split; [|done].
  split; [cbn [fst]; congruence|]. split; [cbn [fst]; congruence|]. by apply Hup.
Qed.

(** One page's records. *)
Lemma rebucket_page sid ver n p kv hx : forall bs M X,
  0 < n -> length bs = Z.to_nat n -> owns (bucket_own sid ver) (zip bs (buckets_of n M)) X ->
  page_own p kv hx -> kv ##ₘ M -> hx ##ₘ X ->
  owns (bucket_own sid ver) (zip (rebucket n bs (entries p)) (buckets_of n (kv ∪ M))) (hx ∪ X) /\
  length (rebucket n bs (entries p)) = Z.to_nat n.
Proof.
  intros bs M X Hn Hl Ho (ts & Ees & Hs & -> & Hts) Hd Hx. unfold sorted_page in Hs. apply sorted_nodup in Hs.
  destruct (page_own_fst ts) as [Ek Ek2]. rewrite Ees, Ek in Hs. rewrite Ees. clear Ees Ek p. unfold rebucket.
  revert bs M X hx Hl Ho Hts Hd Hx. induction ts as [|[id [e v]] ts IH]; intros bs M X hx Hl Ho Hts Hd Hx.
  - cbn [owns] in Hts. subst hx. change (list_to_map (map to_value [])) with (∅ : Values). cbn [map foldl]. by rewrite !(left_id_L ∅ (∪)).
  - destruct Hts as (y & r & -> & Hyr & He & Hts). apply NoDup_cons in Hs as [Hid Hs]. cbn [fst] in Hid.
    cbn [map foldl to_entry to_value list_to_map fst snd] in *. change (to_value (id, (e, v))) with (id, v) in *. rewrite list_to_map_cons in Hd. apply map_disjoint_insert_l in Hd as [HMid Hd].
    apply map_disjoint_union_l in Hx as [Hxy Hxr]. destruct (page_own_fst ts) as [_ Ek2'].
    destruct (IH Hs Ek2' (alter (upsert_entry id e) (slot_for id n) bs) (<[id := v]> M) (y ∪ X) r) as [Ho' Hl']; try done.
    + by rewrite length_alter.
    + by apply rebucket_entry.
    + apply map_disjoint_insert_r. split; [|done]. apply not_elem_of_list_to_map_1. change (id ∉ map fst (map to_value ts)). by rewrite Ek2'.
    + apply map_disjoint_union_r. by split.
    + split; [|done]. rewrite list_to_map_cons, <- insert_union_l, insert_union_r.
      * rewrite (assoc_L (∪)), (map_union_comm r y) in Ho' by (symmetry; done). exact Ho'.
      * apply not_elem_of_list_to_map_1. change (id ∉ map fst (map to_value ts)). by rewrite Ek2'.
Qed.
(** ** Reading every page *)

(** Slots whose values have no id in common, nor with [M]. *)
Fixpoint apart (l : list (PageDescriptor * Values)) (M : Values) : Prop :=
  match l with [] => True | t :: l => t.2 ##ₘ M /\ apart l (t.2 ∪ M) end.

Definition gathered (l : list (PageDescriptor * Values)) (M : Values) : Values := foldl (fun M t => t.2 ∪ M) M l.

Abbreviation taken l := (map desc_run (filter (fun p => is_allocated p = true) (map fst l))).

Lemma regroup_spec D sid ver n xD l : forall (d : PageDirectory) xs y bs M X0,
  0 < n -> dicts_ok (dicts d) D -> dicts_at D xD -> xD ##ₘ y -> owns (slot_own D sid ver) l xs -> xs ⊆ y ->
  length bs = Z.to_nat n -> owns (bucket_own sid ver) (zip bs (buckets_of n M)) X0 -> X0 ##ₘ xs -> apart l M ->
  triple d (xD ∪ y) (st_foldl (fun bs r =>
    let! page := read_run_page r in
    st_ret (rebucket n bs (entries page))) bs (taken l)) 0 (returns (fun bs' d' x' log =>
      x' = xD ∪ y /\ log = [] /\ same_dir D d d' /\ length bs' = Z.to_nat n /\
      exists P X, xs = P ∪ X /\ P ##ₘ X /\ owns run_own (taken l) P /\
        owns (bucket_own sid ver) (zip bs' (buckets_of n (gathered l M))) (X ∪ X0))).
Proof.
  induction l as [|[desc kv] l IH]; intros d xs y bs M X0 Hn Hs Hx Hxy Ho Hsub Hl Hb Hx0 Ha; cbn [map fst].
  { apply triple_ret. unfold returns. simpl in Ho. subst xs. do 2 (split; [done|]). split; [by apply same_dir_refl|]. split; [done|].
    exists ∅, ∅. rewrite !(left_id_L ∅ (∪)). split; [done|]. split; [apply map_disjoint_empty_l|done]. }
  destruct Ho as (xi & r & -> & Hdis & Hxi & Ho). pose proof (map_union_subseteq_l xi r) as Hsl.
  pose proof (map_union_subseteq_r _ _ Hdis) as Hsr. rewrite filter_cons. cbv beta. unfold slot_own in Hxi. cbn [fst snd] in Hxi.
  destruct Ha as [Ha1 Ha2]. cbn [snd] in Ha1, Ha2. apply map_disjoint_union_r in Hx0 as [H0i H0r].
  destruct (is_allocated desc) eqn:Hal.
  - rewrite decide_True by done. cbn [st_foldl map]. destruct Hxi as (p & b & hx & Hp).
    destruct (pa_split _ _ _ _ _ _ _ _ _ Hp) as [Exi Hrun]. set (pg := {[run_start (desc_run desc) := b]}) in *.
    assert (pg ##ₘ hx) as Hpg by by apply map_disjoint_singleton_l.
    assert (run_own (desc_run desc) pg) as Hown by (exists b; split; [done|apply Hp]).
    eapply (triple_step _ _ _ _ _ (fun bs' d' x' log => bs' = rebucket n bs (entries p) /\ x' = xD ∪ y /\ log = [] /\ same_dir D d d')); [|done|].
    + eapply triple_step; [eapply read_run_page_spec; try done; by transitivity (xi ∪ r)|done|].
      intros ? d1 ? ? (-> & -> & -> & Hd1). by apply triple_ret.
    + intros ? d1 ? ? (-> & -> & -> & Hd1). pose proof Hd1 as (s1 & -> & Hs1 & _). subst xi.
      apply map_disjoint_union_l in Hdis as [Hpr Hhr]. apply map_disjoint_union_r in H0i as [H0p H0h].
      destruct (rebucket_page sid ver n p kv hx bs M X0 Hn Hl Hb (pa_own _ _ _ _ _ _ _ _ _ Hp) Ha1) as [Hb' Hl']; [done|].
      eapply triple_weaken; [apply (IH (with_dicts s1 d) r y _ (kv ∪ M) (hx ∪ X0)); try done|done|].
      * by transitivity (pg ∪ hx ∪ r).
      * by apply map_disjoint_union_l.
      * intros [bs'|?|] d' x' log Hq; [|done|done]. destruct Hq as (-> & -> & Hd' & Hl2 & P & X & -> & HPX & HP & HB). unfold after, returns.
        do 2 (split; [done|]). split; [by eapply same_dir_trans|]. split; [done|].
        apply map_disjoint_union_r in Hpr as [HpP HpX]. apply map_disjoint_union_r in Hhr as [HhP HhX].
        exists (pg ∪ P), (hx ∪ X). split; [|split; [|split]].
        -- rewrite <- !(assoc_L (∪)). f_equal. rewrite !(assoc_L (∪)). f_equal. by apply map_union_comm.
        -- apply map_disjoint_union_l; split; apply map_disjoint_union_r; by split.
        -- by exists pg, P.
        -- rewrite (map_union_comm hx X) by done. rewrite <- (assoc_L (∪)). exact HB.
  - rewrite decide_False by done. destruct Hxi as (_ & -> & ->). rewrite !(left_id_L ∅ (∪)) in *.
    change (gathered ((desc, ∅) :: l) M) with (gathered l (∅ ∪ M)). rewrite (left_id_L ∅ (∪)). by apply IH.
Qed.
(** ** Writing every bucket *)

Lemma place_bucket_spec D (d : PageDirectory) sid ver xD z t h r acc :
  dicts_ok (dicts d) D -> dicts_at D xD -> xD ##ₘ z ∪ (h ∪ r) -> z ##ₘ h ∪ r -> h ##ₘ r -> fits 32 sid -> fits 8 ver ->
  bucket_own sid ver t h -> roomy t.2 ->
  triple d (xD ∪ (z ∪ (h ∪ r))) (place_bucket acc t.1) MAX_BLOCK_COUNT (returns (fun l' d' x' log => same_dir D d d' /\
    exists desc y, l' = acc ++ [desc] /\ x' = xD ∪ ((z ∪ y) ∪ r) /\ xD ##ₘ (z ∪ y) ∪ r /\ z ∪ y ##ₘ r /\ z ##ₘ y /\
      slot_own D sid ver (desc, t.2) y /\ log = map Took (option_list (opt_run desc)))).
Proof.
  destruct t as [p kv]. intros Hs Hx Hd Hz Hhr Hfs Hfv (<- & <- & Hp) Hroom. cbn [fst snd] in *.
  destruct (page_own_fits p kv h Hp Hfs Hfv) as [Elen Hfit]. unfold place_bucket.
  pose proof Hd as [Hdz [Hdh Hdr]%map_disjoint_union_r]%map_disjoint_union_r. pose proof Hz as [Hzh Hzr]%map_disjoint_union_r.
  destruct (page_is_empty p) eqn:Ee.
  - destruct (page_own_nil p kv h Ee Hp) as [-> ->]. eapply triple_steps; [apply triple_ret|done]. unfold returns.
    split; [by apply same_dir_refl|]. exists DESC_EMPTY, ∅. rewrite (left_id_L ∅ (∪)), (right_id_L ∅ (∪)).
    split; [done|]. split; [done|]. split; [by apply map_disjoint_union_r|]. split; [done|]. split; [apply map_disjoint_empty_r|done].
  - replace MAX_BLOCK_COUNT with (MAX_BLOCK_COUNT + 0) by done.
    eapply triple_bind; [apply (place_spec D d xD (z ∪ (h ∪ r)) p); try done; by apply Hfit, roomy_cost|done|].
    intros [desc|e|] d' x' l [Hd' Hq]; [|destruct Hq as (_ & _ & Hb); unfold roomy, image_bound in *; rewrite Elen in Hb; lia|done].
    destruct Hq as (Ha & HnD & [Hnz [Hnh Hnr]%lookup_union_None]%lookup_union_None & -> & bs & -> & Hpage). specialize (Hpage kv h Hp).
    apply triple_ret. unfold after, returns. split; [done|]. exists desc, ({[run_start (desc_run desc) := bs]} ∪ h).
    assert (forall m, m !! run_start (desc_run desc) = None -> {[run_start (desc_run desc) := bs]} ##ₘ m) as Hone
      by (intros; by apply map_disjoint_singleton_l).
    set (w := {[_ := _]}) in *. split; [done|]. split; [|split; [|split; [|split; [|split]]]].
    + f_equal. rewrite insert_union_singleton_l. fold w. rewrite !(assoc_L (∪)). f_equal. f_equal. apply map_union_comm. by apply Hone.
    + repeat (apply map_disjoint_union_r; split); try done. symmetry. by apply Hone.
    + repeat (apply map_disjoint_union_l; split); try done. by apply Hone.
    + apply map_disjoint_union_r. split; [symmetry; by apply Hone|done].
    + unfold slot_own. cbn [fst snd]. rewrite Ha. exists p, bs, h. apply Hpage.
      transitivity (h ∪ r); [apply map_union_subseteq_l|by apply map_union_subseteq_r].
    + unfold opt_run. rewrite Ha. done.
Qed.

Lemma place_buckets_spec D sid ver xD bl : forall (d : PageDirectory) z X acc,
  dicts_ok (dicts d) D -> dicts_at D xD -> xD ##ₘ z ∪ X -> z ##ₘ X -> fits 32 sid -> fits 8 ver ->
  owns (bucket_own sid ver) bl X -> Forall (fun t => roomy t.2) bl ->
  triple d (xD ∪ (z ∪ X)) (st_foldl place_bucket acc (map fst bl)) (zlen bl * MAX_BLOCK_COUNT) (returns (fun l' d' x' log => same_dir D d d' /\
    exists ds N, l' = acc ++ ds /\ length ds = length bl /\ x' = xD ∪ (z ∪ N) /\ xD ##ₘ z ∪ N /\ z ##ₘ N /\
      owns (slot_own D sid ver) (zip ds (map snd bl)) N /\ log = map Took (map desc_run (filter (fun p => is_allocated p = true) ds)))).
Proof.
  induction bl as [|t bl IH]; intros d z X acc Hs Hx Hd Hz Hfs Hfv Ho Hroom.
  - simpl in Ho. subst X. eapply triple_steps; [apply triple_ret|unfold MAX_BLOCK_COUNT; done]. unfold returns.
    split; [by apply same_dir_refl|]. exists [], ∅. rewrite app_nil_r. done.
  - destruct Ho as (h & r & -> & Hhr & Ht & Ho). apply Forall_cons in Hroom as [Hr1 Hroom]. cbn [map st_foldl].
    eapply triple_steps; [eapply triple_seq; [by apply place_bucket_spec| |]|].
    3:{ unfold zlen. simpl length. rewrite Nat2Z.inj_succ. unfold Z.succ. rewrite Z.add_comm, Z.mul_add_distr_r. apply Z.eq_le_incl. f_equal. }
    { pose proof (zlen_nonneg bl). unfold MAX_BLOCK_COUNT. lia. }
    intros l1 d1 ? ? (Hd1 & desc & y & -> & -> & Hd' & Hz' & Hzy & Hy & ->). pose proof Hd1 as (s1 & -> & Hs1 & _).
    eapply triple_weaken; [apply (IH (with_dicts s1 d) (z ∪ y) r (acc ++ [desc])); try done|apply Z.le_refl|].
    intros [l'|?|] d' x' log Hq; [|done|done]. destruct Hq as (Hd2 & ds & N & -> & El & -> & HdN & HzN & HN & ->). unfold after, returns.
    split; [by eapply same_dir_trans|]. pose proof HzN as [HzN1 HyN]%map_disjoint_union_l.
    exists (desc :: ds), (y ∪ N). split; [by rewrite <- (assoc_L (++))|]. split; [simpl; by rewrite El|].
    rewrite <- (assoc_L (∪)) in HdN |- *. split; [done|]. split; [done|]. split; [by apply map_disjoint_union_r|]. split.
    + exists y, N. done.
    + cbn [map fst]. rewrite filter_cons. cbv beta. unfold opt_run. destruct (is_allocated desc); [rewrite decide_True by done|rewrite decide_False by done]; done.
Qed.
(** ** The values gathered are the directory's *)

Lemma lookup_gathered l M id v : apart l M ->
  (gathered l M !! id = Some v <-> M !! id = Some v \/ exists t, t ∈ l /\ t.2 !! id = Some v).
Proof.
  revert M. induction l as [|t l IH]; intros M; cbn [apart gathered foldl]; [set_solver|]. intros [Hd Ha].
  change (foldl _ (t.2 ∪ M) l) with (gathered l (t.2 ∪ M)). rewrite IH, lookup_union_Some by done. set_solver.
Qed.

Lemma apart_pairwise l M :
  (forall t, t ∈ l -> t.2 ##ₘ M) -> (forall i j t u, (i < j)%nat -> l !! i = Some t -> l !! j = Some u -> t.2 ##ₘ u.2) -> apart l M.
Proof.
  revert M. induction l as [|t l IH]; intros M HM Hij; [done|]. split; [apply HM; by left|]. apply IH.
  - intros u Hu. apply map_disjoint_union_r. split; [|apply HM; by right]. apply list_elem_of_lookup_1 in Hu as [j Hj].
    symmetry. by apply (Hij O (S j)); [lia| |].
  - intros i j t1 t2 Hl Hi Hj. by apply (Hij (S i) (S j)); [lia| |].
Qed.

Lemma routed_gathered kvs ds m : length ds = length kvs -> routed kvs -> (forall id, m !! id = view kvs id) ->
  apart (zip ds kvs) ∅ /\ gathered (zip ds kvs) ∅ = m.
Proof.
  intros Hl Hr Hm.
  assert (forall i t, zip ds kvs !! i = Some t -> kvs !! i = Some t.2) as Hz.
  { intros i [a b] (?&?&[= <- <-]&_&Hb)%lookup_zip_with_Some. done. }
  assert (apart (zip ds kvs) ∅) as Ha.
  { apply apart_pairwise; [intros; apply map_disjoint_empty_r|]. intros i j t u Hij Hi%Hz Hj%Hz. apply map_disjoint_spec.
    intros id v v' Hv Hv'. pose proof (Hr _ _ _ _ Hi Hv). pose proof (Hr _ _ _ _ Hj Hv'). lia. }
  split; [done|]. apply map_eq. intros id. apply option_eq. intros v. rewrite lookup_gathered, lookup_empty, Hm by done. unfold view_by. split.
  - intros [?|(t & (i & Hi%Hz)%list_elem_of_lookup_1 & Hv)]; [done|]. pose proof (Hr _ _ _ _ Hi Hv) as <-. by rewrite Hi.
  - destruct (kvs !! slot_for id (zlen kvs)) as [kv|] eqn:E; [|done]. intros Hv. right.
    destruct (lookup_lt_is_Some_2 ds (slot_for id (zlen kvs))) as [a Hds]; [rewrite Hl; by eapply lookup_lt_Some|].
    exists (a, kv). split; [|done]. eapply list_elem_of_lookup_2, lookup_zip_with_Some. by exists a, kv.
Qed.

Lemma buckets_view n m : 0 < n -> routed (buckets_of n m) /\ buckets_of n m <> [] /\ forall id, m !! id = view (buckets_of n m) id.
Proof.
  intros Hn. assert (zlen (buckets_of n m) = n) as El by (unfold zlen; rewrite length_buckets; lia). split; [|split].
  - intros i kv id v Hi Hv. rewrite El. assert (i < Z.to_nat n)%nat as Hb by (rewrite <- (length_buckets n m); by eapply lookup_lt_Some).
    rewrite lookup_buckets in Hi by done. injection Hi as <-. by apply map_lookup_filter_Some in Hv as [_ <-].
  - intros E. rewrite E in El. change (zlen []) with 0 in El. lia.
  - intros id. unfold view_by. rewrite El, lookup_buckets by by apply slot_for_bound. apply option_eq. intros v. unfold values_at.
    rewrite map_lookup_filter_Some. tauto.
Qed.

Lemma empty_buckets sid ver n d : struct_id (empty_page d) = sid -> version (empty_page d) = ver ->
  owns (bucket_own sid ver) (zip (replicate (Z.to_nat n) (empty_page d)) (buckets_of n ∅)) ∅.
Proof.
  intros Hs Hv. unfold buckets_of. replace (replicate (Z.to_nat n)) with (replicate (A := SlotPage) (length (seq 0 (Z.to_nat n)))) by by rewrite length_seq.
  generalize (seq 0 (Z.to_nat n)). induction l as [|i l IH]; [done|].
  exists ∅, ∅. rewrite (left_id_L ∅ (∪)). split; [done|]. split; [apply map_disjoint_empty_l|]. split; [|done].
  split; [done|]. split; [done|]. cbn [fst snd]. unfold values_at. rewrite map_filter_empty. apply page_own_empty.
Qed.

(** ** Growing *)

Definition grow_events (d d' : PageDirectory) : list Event := map Took (used_runs d') ++ map Gave (used_runs d).

Lemma dir_grow_holds d m x n :
  dir_holds d m x -> slot_count d <= n -> (forall i, roomy (slot_values m n i)) ->
  triple d x (dir_grow_to n) (n * MAX_BLOCK_COUNT) (returns (fun freed d' x' log =>
    freed = used_runs d /\ dir_holds d' m x' /\ slot_count d' = n /\ log = grow_events d d' /\
    dir_struct_id d' = dir_struct_id d /\ dir_version d' = dir_version d)).
Proof.
  intros Hh Hn Hroom. pose proof (dir_holds_count d m x Hh) as Hpos. destruct Hh as (D & kvs & Hd & Hr & Hne & Hm).
  pose proof (zip_slots _ _ _ _ Hd) as Hz. destruct Hd as [[Hfs Hfv] Hc Hs (xD & xs & -> & Hdis & Hx & Ho)].
  destruct (routed_gathered kvs (slots d) m ltac:(done) Hr Hm) as [Hap Hg].
  unfold dir_grow_to. apply triple_gets. replace (slot_count d <=? n) with true by lia. eapply triple_done; [done|]. cbv zeta.
  unfold used_runs, allocated_slots. rewrite <- Hz at 1.
  eapply triple_step; [apply (regroup_spec D (dir_struct_id d) (dir_version d) n xD (zip (slots d) kvs) d xs xs (replicate (Z.to_nat n) (empty_page d)) ∅ ∅)| |];
    try done; [lia|by rewrite length_replicate|by apply empty_buckets|apply map_disjoint_empty_l|unfold MAX_BLOCK_COUNT; lia|].
  intros bs d1 ? ? (-> & -> & Hd1 & Hlb & P & X & -> & HPX & HP & HB). rewrite Hg, (right_id_L ∅ (∪)), Hz in *. pose proof Hd1 as (s1 & -> & Hs1 & _).
  assert (length bs = length (buckets_of n m)) as Hlen by by rewrite length_buckets.
  assert (map fst (zip bs (buckets_of n m)) = bs) as Efst by (apply (fst_zip bs); lia).
  assert (map snd (zip bs (buckets_of n m)) = buckets_of n m) as Esnd by (apply (snd_zip bs); lia).
  replace (n * MAX_BLOCK_COUNT) with (zlen (zip bs (buckets_of n m)) * MAX_BLOCK_COUNT + 0)
    by (unfold zlen; rewrite length_zip_with, Hlen, length_buckets; lia).
  eapply triple_seq; [rewrite <- Efst at 1; apply (place_buckets_spec D (dir_struct_id d) (dir_version d) xD (zip bs (buckets_of n m)) (with_dicts s1 d) P X [])| |];
    try done.
  { apply Forall_forall. intros [p kv] Hin. cbn [snd]. apply (list_elem_of_fmap_2 snd) in Hin. change (kv ∈ map snd (zip bs (buckets_of n m))) in Hin.
    rewrite Esnd in Hin. apply list_elem_of_fmap in Hin as (i & -> & _). apply Hroom. }
  intros l' d2 ? ? (Hd2 & ds & N & -> & Elds & -> & HdN & HPN & HN & ->). rewrite Esnd in HN. cbn [app]. pose proof Hd2 as (s2 & -> & Hs2 & _).
  apply map_disjoint_union_r in HdN as [HDP HDN].
  apply triple_modify. assert (xD ∪ (P ∪ N) = P ∪ (xD ∪ N)) as ->.
  { rewrite !(assoc_L (∪)). f_equal. by apply map_union_comm. }
  eapply triple_step; [apply free_runs_spec; [exact HP|by apply map_disjoint_union_r]|done|].
  intros [] ? ? ? (-> & -> & ->). apply triple_ret. unfold after, returns. rewrite !app_nil_r.
  assert (length ds = Z.to_nat n) as Elen by (rewrite Elds, length_zip_with, Hlen, length_buckets; lia).
  destruct (buckets_view n m) as (Hr' & Hne' & Hm'); [lia|].
  split; [done|]. split; [|split; [|done]].
  - exists D, (buckets_of n m). split; [|done]. constructor; cbn; try done; [by rewrite length_buckets|]. by exists xD, N.
  - unfold slot_count, zlen. cbn. lia.
Qed.
End grow.
