(* ===== verification/PageJournal.v ===== *)
(** * The journal of the page store (wavedb-storage: file/page_journal.rs)

    An append-only log of staged pages, directory changes, pending records and the
    ledger of block allocations; opening replays it. *)
From S2P Require Import Prelude Ordered Wire Errors BlockAlloc BlockFile PageDir.

Definition TAG_STAGE : Z := 0.
Definition TAG_SET_DESC : Z := 1.
Definition TAG_RESIZE : Z := 2.
Definition TAG_CHECKPOINT : Z := 3.
Definition TAG_WRITE_REC : Z := 4.
Definition TAG_DELETE_REC : Z := 5.
Definition TAG_ALLOC : Z := 6.
Definition TAG_FREE : Z := 7.
Definition STAGE_HEADER : Z := 1 + 8 + 4.

Abbreviation DirKey := (Z * Z)%type.
Abbreviation BlockOwner := (Z * Z * Z)%type.
Abbreviation Mutations := (gmap Z (option (list byte))).
Abbreviation PendingRecords := (gmap DirKey Mutations).

Record ReplayState : Type := {
  directories : gmap DirKey (list PageDescriptor);
  pending : PendingRecords;
  allocated_runs : list BlockRun;
  block_owners : gmap Z BlockOwner
}.

(** [self.directories.values().flatten()]. *)
Definition all_descriptors (s : ReplayState) : list PageDescriptor := concat (map snd (by_pair (directories s))).

Definition data_runs (s : ReplayState) : list BlockRun :=
  map desc_run (filter (fun d => is_allocated d && negb (is_in_journal d) = true) (all_descriptors s)).

Definition journal_addrs (s : ReplayState) : list Z :=
  map journal_addr (filter (fun d => is_allocated d && is_in_journal d = true) (all_descriptors s)).

(** ** The log *)

Record PageJournal : Type := {
  j_backing : Backing;
  j_len : Z;
  next_addr : Z;
  staged : gmap Z (Z * Z)
}.

Abbreviation JM := (ST PageJournal StorageError).

Definition j_new (b : Backing) : PageJournal := {| j_backing := b; j_len := 0; next_addr := 0; staged := ∅ |}.
Definition journal_in_memory : PageJournal := j_new (Memory []).
Definition journal_create : PageJournal := j_new (Disk []).

Definition append (bytes : list byte) : JM unit := fun j =>
  match (match j_backing j with
         | Memory v => Done (Memory (v ++ bytes))
         | Disk v => backing_write (j_len j) bytes (Disk v)
         end) with
  | Done b => (Done tt, {| j_backing := b; j_len := j_len j + zlen bytes; next_addr := next_addr j; staged := staged j |})
  | Fail e => (Fail e, j)
  | Fault => (Fault, j)
  end.

Definition journal_len (j : PageJournal) : Z := j_len j.
Definition journal_is_empty (j : PageJournal) : bool := j_len j =? 0.
Definition staged_count (j : PageJournal) : nat := size (staged j).

Definition stage_page (image : list byte) : JM Z :=
  let! addr := st_gets next_addr in
  do! st_lift (guard (addr <=? MAX_START_BLOCK)) in
  if negb (fitsb 32 (zlen image)) then st_lift (Fail (Other "staged page exceeds u32"))
  else
    let! len := st_gets j_len in
    let image_off := len + STAGE_HEADER in
    do! append (le_bytes 1 TAG_STAGE ++ le_bytes 8 addr ++ le_bytes 4 (zlen image) ++ image) in
    do! st_modify (fun j => {| j_backing := j_backing j; j_len := j_len j; next_addr := next_addr j + 1;
                               staged := <[addr := (image_off, zlen image)]> (staged j) |}) in
    st_ret addr.

Definition read_page (addr : Z) : JM (list byte) := fun j =>
  (let* (off, len) := ok_or (staged j !! addr) (Other "no staged page") in
   backing_read off len (j_backing j), j).

Definition set_descriptor (sid ver slot d : Z) : JM unit :=
  append (le_bytes 1 TAG_SET_DESC ++ le_bytes 4 sid ++ le_bytes 1 ver ++ le_bytes 4 slot ++ le_bytes 8 d).

Definition resize_directory (sid ver slot_count : Z) : JM unit :=
  append (le_bytes 1 TAG_RESIZE ++ le_bytes 4 sid ++ le_bytes 1 ver ++ le_bytes 4 slot_count).

Definition allocate_block (sid ver slot : Z) (r : BlockRun) : JM unit :=
  append (le_bytes 1 TAG_ALLOC ++ le_bytes 4 sid ++ le_bytes 1 ver ++ le_bytes 4 slot ++
          le_bytes 8 (run_start r) ++ le_bytes 8 (run_len r)).

Definition free_block (r : BlockRun) : JM unit :=
  append (le_bytes 1 TAG_FREE ++ le_bytes 8 (run_start r) ++ le_bytes 8 (run_len r)).

Definition write_record (sid ver id : Z) (payload : list byte) : JM unit :=
  if negb (fitsb 32 (zlen payload)) then st_lift (Fail (Other "record exceeds u32"))
  else append (le_bytes 1 TAG_WRITE_REC ++ le_bytes 4 sid ++ le_bytes 1 ver ++ le_bytes 16 id ++
               le_bytes 4 (zlen payload) ++ payload).

Definition delete_record (sid ver id : Z) : JM unit :=
  append (le_bytes 1 TAG_DELETE_REC ++ le_bytes 4 sid ++ le_bytes 1 ver ++ le_bytes 16 id).

Definition checkpoint (sequence : Z) : JM unit :=
  append (le_bytes 1 TAG_CHECKPOINT ++ le_bytes 8 sequence).

(** ** Replay *)

Record Replay : Type := {
  r_staged : gmap Z (Z * Z);
  r_directories : gmap DirKey (list PageDescriptor);
  r_pending : PendingRecords;
  r_next_addr : Z;
  r_allocated : gmap Z (Z * BlockOwner)
}.

Definition replay_new : Replay :=
  {| r_staged := ∅; r_directories := ∅; r_pending := ∅; r_next_addr := 0; r_allocated := ∅ |}.

Definition journal_take (data : list byte) (cursor n : Z) : StorageResult (list byte * Z) :=
  if zlen data <? cursor + n then Fail (Other "journal record truncated")
  else let* s := expect (sub cursor (cursor + n) data) in Done (s, cursor + n).

(** [le_u32(take(data, &mut c, 4)?)] and the like. *)
Definition take_u (n : Z) (data : list byte) (c : Z) : StorageResult (Z * Z) :=
  let* (b, c) := journal_take data c n in Done (le_val b, c).

(** [Vec::resize] to a longer length, with empty descriptors. *)
Definition extend_to (n : Z) (dir : list PageDescriptor) : list PageDescriptor :=
  dir ++ replicate (Z.to_nat (n - zlen dir)) DESC_EMPTY.

Definition replay_stage (addr off len : Z) (s : Replay) : StorageResult Replay :=
  let* next := uadd 64 addr 1 in
  Done {| r_staged := <[addr := (off, len)]> (r_staged s); r_directories := r_directories s;
          r_pending := r_pending s; r_next_addr := Z.max (r_next_addr s) next; r_allocated := r_allocated s |}.

Definition with_directory (k : DirKey) (f : list PageDescriptor -> list PageDescriptor) (s : Replay) : Replay :=
  {| r_staged := r_staged s; r_directories := <[k := f (default [] (r_directories s !! k))]> (r_directories s);
     r_pending := r_pending s; r_next_addr := r_next_addr s; r_allocated := r_allocated s |}.

Definition with_pending (p : PendingRecords) (s : Replay) : Replay :=
  {| r_staged := r_staged s; r_directories := r_directories s; r_pending := p;
     r_next_addr := r_next_addr s; r_allocated := r_allocated s |}.

Definition with_allocated (a : gmap Z (Z * BlockOwner)) (s : Replay) : Replay :=
  {| r_staged := r_staged s; r_directories := r_directories s; r_pending := r_pending s;
     r_next_addr := r_next_addr s; r_allocated := a |}.

(** A mutation noted in a pending buffer. *)
Definition note (k : DirKey) (id : Z) (m : option (list byte)) (p : PendingRecords) : PendingRecords :=
  <[k := <[id := m]> (default ∅ (p !! k))]> p.

(** One record, from its tag on. *)
Definition replay_record (data : list byte) (c : Z) (s : Replay) : StorageResult (Z * Replay) :=
  let* (tag, c) := take_u 1 data c in
  if tag =? TAG_STAGE then
    let* (addr, c) := take_u 8 data c in
    let* (image_len, c) := take_u 4 data c in
    let image_off := c in
    let* (_, c) := journal_take data c image_len in
    let* s := replay_stage addr image_off image_len s in
    Done (c, s)
  else if tag =? TAG_SET_DESC then
    let* (sid, c) := take_u 4 data c in
    let* (ver, c) := take_u 1 data c in
    let* (slot, c) := take_u 4 data c in
    let* (d, c) := take_u 8 data c in
    Done (c, with_directory (sid, ver) (fun dir => <[Z.to_nat slot := d]> (extend_to (slot + 1) dir)) s)
  else if tag =? TAG_RESIZE then
    let* (sid, c) := take_u 4 data c in
    let* (ver, c) := take_u 1 data c in
    let* (n, c) := take_u 4 data c in
    Done (c, with_directory (sid, ver) (extend_to n) s)
  else if tag =? TAG_WRITE_REC then
    let* (sid, c) := take_u 4 data c in
    let* (ver, c) := take_u 1 data c in
    let* (id, c) := take_u 16 data c in
    let* (len, c) := take_u 4 data c in
    let* (payload, c) := journal_take data c len in
    Done (c, with_pending (note (sid, ver) id (Some payload) (r_pending s)) s)
  else if tag =? TAG_DELETE_REC then
    let* (sid, c) := take_u 4 data c in
    let* (ver, c) := take_u 1 data c in
    let* (id, c) := take_u 16 data c in
    Done (c, with_pending (note (sid, ver) id None (r_pending s)) s)
  else if tag =? TAG_CHECKPOINT then
    let* (_, c) := journal_take data c 8 in
    Done (c, with_pending ∅ s)
  else if tag =? TAG_ALLOC then
    let* (sid, c) := take_u 4 data c in
    let* (ver, c) := take_u 1 data c in
    let* (slot, c) := take_u 4 data c in
    let* (start, c) := take_u 8 data c in
    let* (len, c) := take_u 8 data c in
    Done (c, with_allocated (<[start := (len, (sid, ver, slot))]> (r_allocated s)) s)
  else if tag =? TAG_FREE then
    let* (start, c) := take_u 8 data c in
    let* (_, c) := take_u 8 data c in
    Done (c, with_allocated (delete start (r_allocated s)) s)
  else Fail (Other "unknown journal tag").

(** Every record takes a byte at least, so the length of the log is fuel enough. *)
Fixpoint replay_loop (fuel : nat) (data : list byte) (c : Z) (s : Replay) : StorageResult Replay :=
  if zlen data <=? c then Done s
  else match fuel with
       | O => Fault
       | S fuel => let* (c, s) := replay_record data c s in replay_loop fuel data c s
       end.

Definition replay (data : list byte) : StorageResult Replay := replay_loop (length data) data 0 replay_new.

Definition replay_state (r : Replay) : ReplayState :=
  {| directories := r_directories r; pending := r_pending r;
     allocated_runs := map (fun '(start, (len, _)) => {| run_start := start; run_len := len |}) (by_key (r_allocated r));
     block_owners := snd <$> r_allocated r |}.

Definition journal_open (file : list byte) : StorageResult (PageJournal * ReplayState) :=
  let* r := replay file in
  Done ({| j_backing := Disk file; j_len := zlen file; next_addr := r_next_addr r; staged := r_staged r |}, replay_state r).
