(* ===== verification/PageJournalOk.v ===== *)
(** * The journal as a list of records

    The bytes of a log are those of its records in order; replaying them folds the
    records, and a log cut inside a record does not open. *)
From S2P Require Import Prelude Ordered Wire Errors BlockAlloc BlockFile PageDir Codec PageJournal.

Inductive Rec : Type :=
  | Staged (addr : Z) (image : list byte)
  | SetDesc (sid ver slot d : Z)
  | Resized (sid ver n : Z)
  | Checkpoint (sequence : Z)
  | Wrote (sid ver id : Z) (payload : list byte)
  | Deleted (sid ver id : Z)
  | Alloc (sid ver slot : Z) (r : BlockRun)
  | Freed (r : BlockRun).

Definition rec_bytes (r : Rec) : list byte :=
  match r with
  | Staged addr image => le_bytes 1 TAG_STAGE ++ le_bytes 8 addr ++ le_bytes 4 (zlen image) ++ image
  | SetDesc sid ver slot d => le_bytes 1 TAG_SET_DESC ++ le_bytes 4 sid ++ le_bytes 1 ver ++ le_bytes 4 slot ++ le_bytes 8 d
  | Resized sid ver n => le_bytes 1 TAG_RESIZE ++ le_bytes 4 sid ++ le_bytes 1 ver ++ le_bytes 4 n
  | Checkpoint q => le_bytes 1 TAG_CHECKPOINT ++ le_bytes 8 q
  | Wrote sid ver id payload => le_bytes 1 TAG_WRITE_REC ++ le_bytes 4 sid ++ le_bytes 1 ver ++ le_bytes 16 id ++
      le_bytes 4 (zlen payload) ++ payload
  | Deleted sid ver id => le_bytes 1 TAG_DELETE_REC ++ le_bytes 4 sid ++ le_bytes 1 ver ++ le_bytes 16 id
  | Alloc sid ver slot r => le_bytes 1 TAG_ALLOC ++ le_bytes 4 sid ++ le_bytes 1 ver ++ le_bytes 4 slot ++
      le_bytes 8 (run_start r) ++ le_bytes 8 (run_len r)
  | Freed r => le_bytes 1 TAG_FREE ++ le_bytes 8 (run_start r) ++ le_bytes 8 (run_len r)
  end.

Definition log_bytes (rs : list Rec) : list byte := concat (map rec_bytes rs).

Definition owner_fits (sid ver : Z) : Prop := fits 32 sid /\ fits 8 ver.

Definition rec_fits (r : Rec) : Prop :=
  match r with
  | Staged addr image => 0 <= addr < 2 ^ 48 /\ fits 32 (zlen image)
  | SetDesc sid ver slot d => owner_fits sid ver /\ fits 32 slot /\ fits 64 d
  | Resized sid ver n => owner_fits sid ver /\ fits 32 n
  | Checkpoint q => fits 64 q
  | Wrote sid ver id payload => owner_fits sid ver /\ fits 128 id /\ fits 32 (zlen payload)
  | Deleted sid ver id => owner_fits sid ver /\ fits 128 id
  | Alloc sid ver slot r => owner_fits sid ver /\ fits 32 slot /\ fits 64 (run_start r) /\ fits 64 (run_len r)
  | Freed r => fits 64 (run_start r) /\ fits 64 (run_len r)
  end.

(** What a record at offset [c] does to the replayed state. *)
Definition apply_rec (c : Z) (s : Replay) (r : Rec) : Replay :=
  match r with
  | Staged addr image =>
    {| r_staged := <[addr := (c + STAGE_HEADER, zlen image)]> (r_staged s); r_directories := r_directories s;
       r_pending := r_pending s; r_next_addr := Z.max (r_next_addr s) (addr + 1); r_allocated := r_allocated s |}
  | SetDesc sid ver slot d => with_directory (sid, ver) (fun dir => <[Z.to_nat slot := d]> (extend_to (slot + 1) dir)) s
  | Resized sid ver n => with_directory (sid, ver) (extend_to n) s
  | Checkpoint _ => with_pending ∅ s
  | Wrote sid ver id payload => with_pending (note (sid, ver) id (Some payload) (r_pending s)) s
  | Deleted sid ver id => with_pending (note (sid, ver) id None (r_pending s)) s
  | Alloc sid ver slot r => with_allocated (<[run_start r := (run_len r, (sid, ver, slot))]> (r_allocated s)) s
  | Freed r => with_allocated (delete (run_start r) (r_allocated s)) s
  end.

Fixpoint apply_recs (c : Z) (s : Replay) (rs : list Rec) : Replay :=
  match rs with
  | [] => s
  | r :: rs => apply_recs (c + zlen (rec_bytes r)) (apply_rec c s r) rs
  end.

Definition truncated {A} : StorageResult A := Fail (Other "journal record truncated").

(** ** Reading a log cut after [m] bytes *)

Section cut.
Context (full : list byte) (m : Z) (Hm : 0 <= m <= zlen full).

Abbreviation data := (take (Z.to_nat m) full).

Lemma zlen_cut : zlen data = m.
Proof. unfold zlen in *. rewrite length_take. lia. Qed.

Lemma take_cut c n xs : stands full c xs -> zlen xs = n ->
  journal_take data c n = if c + n <=? m then Done (xs, c + n) else truncated.
Proof.
  intros Hs <-. unfold journal_take. rewrite zlen_cut. destruct (Z.leb_spec (c + zlen xs) m) as [Hle|Hgt].
  - replace (m <? c + zlen xs) with false by lia.
    assert (sub c (c + zlen xs) data = Some xs) as ->; [|done]. apply sub_stands. split; [|done].
    pose proof (resize_keeps m full c xs Hs Hle) as Hk. unfold resize in Hk.
    replace (Z.to_nat (m - zlen full)) with O in Hk by lia. simpl in Hk. by rewrite app_nil_r in Hk.
  - by replace (m <? c + zlen xs) with true by lia.
Qed.

Lemma take_u_cut n c k v : n = Z.of_nat k -> stands full c (le_bytes k v) -> fits (8 * n) v ->
  take_u n data c = if c + n <=? m then Done (v, c + n) else truncated.
Proof.
  intros -> Hs Hf. unfold take_u. rewrite (take_cut c (Z.of_nat k) (le_bytes k v) Hs (zlen_le_bytes k v)).
  destruct (_ <=? m); [|done]. simpl. by rewrite le_val_bytes.
Qed.

(** One field of a record: read, or cut short. *)
Ltac lits := change (Z.of_nat 1) with 1 in *; change (Z.of_nat 4) with 4 in *; change (Z.of_nat 8) with 8 in *;
  change (Z.of_nat 16) with 16 in *.
Ltac cut_here :=
  match goal with |- context [?p <=? m] => destruct (Z.leb_spec p m) end;
  [cbn [obind]|match goal with |- _ = (if ?q <=? m then _ else _) => replace (q <=? m) with false by lia end; done].
Ltac field_fits :=
  match goal with
  | H : fits _ ?v |- fits _ ?v => exact H
  | |- fits _ ?v => first [is_var v; split; lia|by vm_compute]
  end.
Ltac field_cut :=
  match goal with
  | F : stands full ?c (le_bytes ?k ?v) |- context [take_u ?n data ?c] =>
    rewrite (take_u_cut n c k v eq_refl F) by field_fits
  | F : stands full ?c (le_bytes ?k ?v) |- context [journal_take data ?c ?n] => rewrite (take_cut c n (le_bytes k v) F eq_refl)
  | F : stands full ?c ?xs |- context [journal_take data ?c (zlen ?xs)] => rewrite (take_cut c (zlen xs) xs F eq_refl)
  end; cut_here.
Ltac whole :=
  match goal with |- context [if ?q <=? m then _ else _] => replace (q <=? m) with true by lia end;
  f_equal; f_equal; lia.

(** A record read whole, or found cut. *)
Lemma replay_record_cut c s r :
  rec_fits r -> stands full c (rec_bytes r) ->
  replay_record data c s =
    if c + zlen (rec_bytes r) <=? m then Done (c + zlen (rec_bytes r), apply_rec c s r) else truncated.
Proof.
  intros Hf Hs. pose proof (stands_bound _ _ _ Hs) as [Hc _]. unfold replay_record.
  destruct r; cbn [rec_bytes rec_fits] in *; unfold owner_fits in Hf; rewrite ?zlen_app, ?zlen_le_bytes; fields Hs; lits;
    destruct_and? Hf;
    try pose proof (zlen_nonneg image); try pose proof (zlen_nonneg payload); field_cut;
    repeat match goal with |- context [if ?a =? ?b then _ else _] =>
      let v := eval cbv in (a =? b) in change (a =? b) with v; cbv iota end.
  - do 3 field_cut. unfold replay_stage. rewrite uadd_done by (unfold fits in *; lia).
    match goal with |- context [if ?q <=? m then _ else _] => replace (q <=? m) with true by lia end.
    cbn [obind]. f_equal. f_equal; [lia|]. unfold apply_rec, STAGE_HEADER. f_equal. f_equal. f_equal. lia.
  - do 4 field_cut. whole.
  - do 3 field_cut. whole.
  - field_cut. whole.
  - do 5 field_cut. whole.
  - do 3 field_cut. whole.
  - do 5 field_cut. whole.
  - do 2 field_cut. whole.
Qed.
End cut.

Lemma rec_bytes_pos r : 0 < zlen (rec_bytes r).
Proof.
  assert (forall n v bs, 0 < zlen (le_bytes (S n) v ++ bs)) as H.
  { intros n v bs. rewrite zlen_app, zlen_le_bytes. pose proof (zlen_nonneg bs). lia. }
  destruct r; apply H.
Qed.

Lemma take_all_id {A} (l : list A) : take (Z.to_nat (zlen l)) l = l.
Proof. unfold zlen. rewrite Nat2Z.id. apply firstn_all. Qed.

(** A whole log, and a log cut anywhere inside its next record. *)
Lemma replay_loop_cut full m fuel c s rs r :
  Forall rec_fits rs -> rec_fits r -> stands full c (log_bytes rs ++ rec_bytes r) ->
  c + zlen (log_bytes rs) <= m -> m < c + zlen (log_bytes rs) + zlen (rec_bytes r) -> m <= zlen full -> m - c <= Z.of_nat fuel ->
  replay_loop fuel (take (Z.to_nat m) full) c s =
    if m =? c + zlen (log_bytes rs) then Done (apply_recs c s rs) else truncated.
Proof.
  intros Hrs Hr. revert fuel c s. induction Hrs as [|r1 rs Hr1 _ IH]; intros fuel c s Hs Hle Hlt Hfull Hf;
    pose proof (stands_bound _ _ _ Hs) as [Hc _].
  - change (zlen (log_bytes [])) with 0 in *. rewrite Z.add_0_r in *.
    destruct fuel as [|fuel]; cbn [replay_loop]; rewrite zlen_cut by lia.
    + replace (m <=? c) with true by lia. by replace (m =? c) with true by lia.
    + destruct (Z.leb_spec m c); [by replace (m =? c) with true by lia|].
      rewrite (replay_record_cut full m ltac:(lia) c s r Hr Hs). replace (c + zlen (rec_bytes r) <=? m) with false by lia.
      by replace (m =? c) with false by lia.
  - change (log_bytes (r1 :: rs)) with (rec_bytes r1 ++ log_bytes rs) in *. rewrite <- (assoc_L (++)) in Hs.
    apply stands_app in Hs as [Hs1 Hs]. rewrite zlen_app in *. pose proof (rec_bytes_pos r1). pose proof (zlen_nonneg (log_bytes rs)).
    destruct fuel as [|fuel]; [lia|]. cbn [replay_loop]. rewrite zlen_cut by lia. replace (m <=? c) with false by lia.
    rewrite (replay_record_cut full m ltac:(lia) c s r1 Hr1 Hs1). replace (c + zlen (rec_bytes r1) <=? m) with true by lia.
    cbn [obind apply_recs]. rewrite IH by (done || lia). by replace (c + zlen (rec_bytes r1) + zlen (log_bytes rs)) with (c + (zlen (rec_bytes r1) + zlen (log_bytes rs))) by lia.
Qed.

(** Replaying the bytes of a log folds its records. *)
Lemma replay_log rs : Forall rec_fits rs -> replay (log_bytes rs) = Done (apply_recs 0 replay_new rs).
Proof.
  intros Hrs. set (r := Checkpoint 0). set (full := log_bytes rs ++ rec_bytes r).
  assert (take (Z.to_nat (zlen (log_bytes rs))) full = log_bytes rs) as E.
  { unfold full, zlen. rewrite Nat2Z.id. by apply take_app_length. }
  unfold replay. rewrite <- E at 2. pose proof (rec_bytes_pos r). pose proof (zlen_nonneg (log_bytes rs)).
  rewrite (replay_loop_cut full _ _ 0 replay_new rs r); [by rewrite Z.eqb_refl|done|by vm_compute| |lia..| |].
  - split; [done|]. exists [], []. by rewrite app_nil_r.
  - unfold full. rewrite zlen_app. lia.
  - unfold zlen. lia.
Qed.

(** ** A journal and its records *)

Record j_ok (j : PageJournal) (rs : list Rec) : Prop := {
  jo_bytes : backing_bytes (j_backing j) = log_bytes rs;
  jo_len : j_len j = zlen (log_bytes rs);
  jo_staged : staged j = r_staged (apply_recs 0 replay_new rs);
  jo_next : next_addr j = r_next_addr (apply_recs 0 replay_new rs);
  jo_fits : Forall rec_fits rs
}.

Lemma log_bytes_app rs1 rs2 : log_bytes (rs1 ++ rs2) = log_bytes rs1 ++ log_bytes rs2.
Proof. unfold log_bytes. by rewrite map_app, concat_app. Qed.

Lemma log_bytes_one r : log_bytes [r] = rec_bytes r.
Proof. unfold log_bytes. simpl. apply app_nil_r. Qed.

Lemma apply_recs_app c s rs1 rs2 :
  apply_recs c s (rs1 ++ rs2) = apply_recs (c + zlen (log_bytes rs1)) (apply_recs c s rs1) rs2.
Proof.
  revert c s. induction rs1 as [|r rs1 IH]; intros c s; simpl.
  - by rewrite Z.add_0_r.
  - rewrite IH. change (log_bytes (r :: rs1)) with (rec_bytes r ++ log_bytes rs1). rewrite zlen_app. f_equal. lia.
Qed.

Lemma append_bytes j rs bytes :
  j_ok j rs -> exists j', append bytes j = (Done tt, j') /\ backing_bytes (j_backing j') = log_bytes rs ++ bytes /\
    j_len j' = j_len j + zlen bytes /\ staged j' = staged j /\ next_addr j' = next_addr j.
Proof.
  intros [Hb Hl _ _ _]. unfold append. pose proof (zlen_nonneg (log_bytes rs)). destruct (j_backing j) as [v|v]; simpl in Hb.
  - eexists. split; [done|]. simpl. by rewrite Hb.
  - assert (backing_write (j_len j) bytes (Disk v) = Done (Disk (v ++ bytes))) as ->.
    { unfold backing_write. rewrite Hl, Hb. pose proof (zlen_nonneg bytes).
      assert (resize (Z.max (zlen (log_bytes rs)) (zlen (log_bytes rs) + zlen bytes)) (log_bytes rs) =
        log_bytes rs ++ replicate (length bytes) Byte.x00) as ->.
      { unfold resize. rewrite take_ge by (unfold zlen; lia). f_equal. f_equal. unfold zlen. lia. }
      rewrite put_some by (rewrite ?zlen_app; unfold zlen; rewrite ?length_replicate; lia). simpl. f_equal. f_equal.
      replace (Z.to_nat (zlen (log_bytes rs))) with (length (log_bytes rs)) by (unfold zlen; lia).
      rewrite <- (app_nil_r (replicate _ _)), splice_mid by by rewrite length_replicate. by rewrite app_nil_r. }
    eexists. split; [done|]. simpl. by rewrite Hb.
Qed.

(** A record that stages no page. *)
Definition plain (r : Rec) : Prop := match r with Staged _ _ => False | _ => True end.

Lemma plain_staged c s r : plain r -> r_staged (apply_rec c s r) = r_staged s /\ r_next_addr (apply_rec c s r) = r_next_addr s.
Proof. by destruct r. Qed.

Lemma append_rec_spec j rs r : j_ok j rs -> rec_fits r -> plain r ->
  exists j', append (rec_bytes r) j = (Done tt, j') /\ j_ok j' (rs ++ [r]).
Proof.
  intros Hj Hr Hp. destruct (append_bytes j rs (rec_bytes r) Hj) as (j' & -> & Hb & Hl & Hs & Hn). exists j'. split; [done|].
  destruct Hj. destruct (plain_staged (zlen (log_bytes rs)) (apply_recs 0 replay_new rs) r Hp).
  constructor; rewrite ?log_bytes_app, ?log_bytes_one, ?apply_recs_app; simpl; rewrite ?Z.add_0_l, ?zlen_app; try congruence.
  apply Forall_app_2; [done|]. by constructor.
Qed.

Lemma stage_page_spec j rs image :
  j_ok j rs -> fits 32 (zlen image) -> 0 <= next_addr j < 2 ^ 48 ->
  exists j', stage_page image j = (Done (next_addr j), j') /\ j_ok j' (rs ++ [Staged (next_addr j) image]).
Proof.
  intros Hj Hi Hn. set (a := next_addr j) in *.
  destruct (append_bytes j rs (rec_bytes (Staged a image)) Hj) as (j' & E & Hb & Hl & Hs & Hnx).
  unfold stage_page, st_bind, st_gets, st_modify, st_lift, st_ret. fold a. unfold MAX_START_BLOCK, START_MASK.
  change (Z.shiftl 1 START_BLOCK_BITS - 1) with (2 ^ 48 - 1). replace (a <=? 2 ^ 48 - 1) with true by lia. simpl guard. cbv iota beta.
  rewrite (proj2 (fitsb_spec 32 (zlen image))) by done. simpl negb. cbv iota beta.
  change (append (le_bytes 1 TAG_STAGE ++ le_bytes 8 a ++ le_bytes 4 (zlen image) ++ image) j = (Done tt, j')) in E.
  cbn [negb]. cbv beta iota. rewrite E. eexists. split; [done|].
  destruct Hj. constructor; simpl; rewrite ?log_bytes_app, ?log_bytes_one, ?apply_recs_app; simpl; rewrite ?Z.add_0_l.
  - done.
  - rewrite Hl, jo_len0, zlen_app. done.
  - by rewrite Hs, jo_staged0, jo_len0.
  - rewrite Hnx, <- jo_next0. fold a. lia.
  - apply Forall_app_2; [done|]. constructor; [by split|constructor].
Qed.

(** The staged index finds the page wherever later records go. *)
Lemma staged_kept c s rs addr : Forall plain rs ->
  r_staged (apply_recs c s rs) !! addr = r_staged s !! addr.
Proof.
  intros H. revert c s. induction H as [|r rs Hr _ IH]; intros c s; simpl; [done|].
  rewrite IH. by destruct (plain_staged c s r Hr) as [-> _].
Qed.

Lemma read_page_spec j rs addr image rs' :
  j_ok j (rs ++ Staged addr image :: rs') -> Forall plain rs' -> read_page addr j = (Done image, j).
Proof.
  intros [Hb Hl Hs _ _] Hp. unfold read_page. rewrite Hs, apply_recs_app. cbn [apply_recs]. rewrite staged_kept by done.
  cbn [apply_rec r_staged]. rewrite lookup_insert_eq. cbn [ok_or obind]. rewrite Z.add_0_l.
  change (Staged addr image :: rs') with ([Staged addr image] ++ rs') in *. rewrite !log_bytes_app, log_bytes_one in Hb.
  assert (stands (backing_bytes (j_backing j)) (zlen (log_bytes rs) + STAGE_HEADER) image) as Hst.
  { rewrite Hb. pose proof (stands_whole (log_bytes rs ++ rec_bytes (Staged addr image)) (log_bytes rs')) as Hw.
    rewrite <- (assoc_L (++)) in Hw. apply stands_app in Hw as [_ Hw]. rewrite Z.add_0_l in Hw. cbn [rec_bytes] in Hw. fields Hw.
    unfold STAGE_HEADER. replace (zlen (log_bytes rs) + (1 + 8 + 4)) with (zlen (log_bytes rs) + Z.of_nat 1 + Z.of_nat 8 + Z.of_nat 4); [exact Hw|].
    change (Z.of_nat 1) with 1. change (Z.of_nat 8) with 8. change (Z.of_nat 4) with 4. lia. }
  assert (sub (zlen (log_bytes rs) + STAGE_HEADER) (zlen (log_bytes rs) + STAGE_HEADER + zlen image) (backing_bytes (j_backing j)) = Some image) as E
    by by apply sub_stands.
  unfold backing_read. by destruct (j_backing j); simpl in E; rewrite E.
Qed.

(** Reopening what was written. *)
Lemma journal_open_spec j rs : j_ok j rs ->
  exists j', journal_open (backing_bytes (j_backing j)) = Done (j', replay_state (apply_recs 0 replay_new rs)) /\ j_ok j' rs.
Proof.
  intros [Hb Hl Hs Hn Hf]. unfold journal_open. rewrite Hb, replay_log by done. eexists. split; [done|]. by constructor.
Qed.

Lemma journal_new_ok : j_ok journal_in_memory [] /\ j_ok journal_create [].
Proof. split; constructor; done. Qed.

(** ** Logs on disk *)

(** C4: a page journal reopens to what was journalled: opening the bytes of any records that fit their fields gives the fold of the records in order, and the journal goes on after them *)
Theorem journal_replays rs :
  Forall rec_fits rs ->
  exists j, journal_open (log_bytes rs) = Done (j, replay_state (apply_recs 0 replay_new rs)) /\
    journal_len j = zlen (log_bytes rs) /\ forall r, rec_fits r -> exists j', append (rec_bytes r) j = (Done tt, j') /\
      exists j'', journal_open (backing_bytes (j_backing j')) = Done (j'', replay_state (apply_recs 0 replay_new (rs ++ [r]))).
Proof.
  intros Hrs. unfold journal_open. rewrite replay_log by done. eexists. split; [done|]. split; [done|]. intros r Hr.
  match goal with |- context [append _ ?j] => assert (j_ok j rs) as Hj by by constructor end.
  destruct (append_bytes _ rs (rec_bytes r) Hj) as (j' & -> & Hb & _). exists j'. split; [done|].
  rewrite Hb, <- (log_bytes_one r), <- log_bytes_app, replay_log; [by eexists|]. by apply Forall_app_2; [|constructor].
Qed.

Definition sample_log : list Rec := [Resized 7 2 1; Alloc 7 2 0 {| run_start := 0; run_len := 1 |}; SetDesc 7 2 0 4097; Wrote 7 2 5 [Byte.x61]].

Lemma sample_fits : Forall rec_fits sample_log.
Proof. repeat constructor; by vm_compute. Qed.

Lemma journal_replays_witness :
  exists j, journal_open (log_bytes sample_log) = Done (j, replay_state (apply_recs 0 replay_new sample_log)) /\
    journal_len j = zlen (log_bytes sample_log) /\ forall r, rec_fits r -> exists j', append (rec_bytes r) j = (Done tt, j') /\
      exists j'', journal_open (backing_bytes (j_backing j')) = Done (j'', replay_state (apply_recs 0 replay_new (sample_log ++ [r]))).
Proof. apply (journal_replays sample_log), sample_fits. Defined.

(** C24: a page journal cut inside its last record, wherever the cut falls, does not open: the open fails as truncated, so the whole records before the cut are not recovered either *)
Theorem journal_torn_refused rs r m :
  Forall rec_fits rs -> rec_fits r -> zlen (log_bytes rs) < m < zlen (log_bytes rs) + zlen (rec_bytes r) ->
  journal_open (take (Z.to_nat m) (log_bytes rs ++ rec_bytes r)) = Fail (Other "journal record truncated").
Proof.
  intros Hrs Hr Hm. unfold journal_open, replay. set (full := log_bytes rs ++ rec_bytes r).
  assert (zlen full = zlen (log_bytes rs) + zlen (rec_bytes r)) as El by apply zlen_app.
  pose proof (zlen_nonneg (log_bytes rs)). rewrite (replay_loop_cut full m _ 0 replay_new rs r); try lia; try done.
  - by replace (m =? 0 + zlen (log_bytes rs)) with false by lia.
  - split; [done|]. exists [], []. by rewrite app_nil_r.
  - rewrite length_take. unfold zlen in *. lia.
Qed.

Lemma journal_torn_refused_witness :
  journal_open (take 60 (log_bytes sample_log ++ rec_bytes (Checkpoint 1))) = Fail (Other "journal record truncated") /\
  is_done (journal_open (log_bytes sample_log)) = true.
Proof.
  split; [|by vm_compute].
  refine (journal_torn_refused [Resized 7 2 1; Alloc 7 2 0 {| run_start := 0; run_len := 1 |}; SetDesc 7 2 0 4097] (Wrote 7 2 5 [Byte.x61]) 60 _ _ _).
  - repeat constructor; by vm_compute.
  - repeat constructor; by vm_compute.
  - by vm_compute.
Defined.

Lemma appends_spec rs later j :
  j_ok j rs -> Forall rec_fits later -> Forall plain later ->
  exists j', st_iter (fun r => append (rec_bytes r)) later j = (Done tt, j') /\ j_ok j' (rs ++ later).
Proof.
  intros Hj Hf. revert rs j Hj. induction Hf as [|r later Hr _ IH]; intros rs j Hj Hp; simpl.
  - exists j. by rewrite app_nil_r.
  - inversion Hp; subst. destruct (append_rec_spec j rs r Hj Hr) as (j1 & E & Hj1); [done|]. unfold st_bind. rewrite E.
    destruct (IH (rs ++ [r]) j1 Hj1) as (j' & E' & Hj'); [done|]. exists j'. rewrite <- (assoc_L (++)) in Hj'. done.
Qed.

(** A staged page is read back by the address its staging returned, after any later directory, record and ledger entries, and again from the reopened journal *)
Theorem staged_page_survives j rs image later :
  j_ok j rs -> fits 32 (zlen image) -> 0 <= next_addr j < 2 ^ 48 -> Forall rec_fits later -> Forall plain later ->
  exists j1 j2 j3 st, stage_page image j = (Done (next_addr j), j1) /\ st_iter (fun r => append (rec_bytes r)) later j1 = (Done tt, j2) /\
    read_page (next_addr j) j2 = (Done image, j2) /\ journal_open (backing_bytes (j_backing j2)) = Done (j3, st) /\
    read_page (next_addr j) j3 = (Done image, j3).
Proof.
  intros Hj Hi Hn Hf Hp. destruct (stage_page_spec j rs image Hj Hi Hn) as (j1 & E1 & Hj1).
  destruct (appends_spec _ later j1 Hj1 Hf Hp) as (j2 & E2 & Hj2). rewrite <- (assoc_L (++)) in Hj2.
  destruct (journal_open_spec j2 _ Hj2) as (j3 & E3 & Hj3). exists j1, j2, j3. eexists. do 2 (split; [done|]).
  split; [by eapply read_page_spec|]. split; [done|]. by eapply read_page_spec.
Qed.

Lemma staged_page_survives_witness :
  exists j1 j2 j3 st, stage_page [Byte.x61; Byte.x62] journal_create = (Done 0, j1) /\
    st_iter (fun r => append (rec_bytes r)) sample_log j1 = (Done tt, j2) /\ read_page 0 j2 = (Done [Byte.x61; Byte.x62], j2) /\
    journal_open (backing_bytes (j_backing j2)) = Done (j3, st) /\ read_page 0 j3 = (Done [Byte.x61; Byte.x62], j3).
Proof.
  apply (staged_page_survives journal_create [] [Byte.x61; Byte.x62] sample_log).
  - apply journal_new_ok.
  - by vm_compute.
  - by vm_compute.
  - apply sample_fits.
  - by repeat constructor.
Defined.
