(* ===== verification/PagedStore.v ===== *)
(** * The page store (wavedb-storage: file/paged_store.rs)

    Writes go to the journal and a pending buffer; a drain settles the buffer into
    the pages of one directory per type and version, journals what changed, and
    checkpoints.  Opening replays the journal.  [sync] has no effect on this state:
    the bytes written are the bytes found. *)
From S2P Require Import Prelude Ordered Wire Errors BlockAlloc BlockFile Regions PageDir Codec Dict HeapStore SlotPage Directory PageJournal.

Definition DEFAULT_DIRECTORY_SLOTS : Z := 1.
Definition JOURNAL_COMPACT_THRESHOLD : Z := 8 * 1024 * 1024.
Definition DICT_TRAIN_MIN_RECORDS : Z := 256.
Definition DICT_SAMPLE_CAP : Z := 4096.
Definition DICT_MAX_BYTES : Z := 8 * 1024.
Definition DICT_MIN_SAMPLES : Z := 64.
Definition DICT_OWNER_SLOT : Z := 2 ^ 32 - 1.

Record PagedStore : Type := {
  ps_data : BlockFile;
  ps_journal : PageJournal;
  ps_dirs : gmap DirKey PageDirectory;
  ps_pending : PendingRecords;
  drained_counts : gmap DirKey Z;
  default_slots : Z;
  drain_seq : Z
}.

Abbreviation PM := (ST PagedStore StorageError).

Definition with_data (f : BlockFile) (s : PagedStore) : PagedStore :=
  {| ps_data := f; ps_journal := ps_journal s; ps_dirs := ps_dirs s; ps_pending := ps_pending s;
     drained_counts := drained_counts s; default_slots := default_slots s; drain_seq := drain_seq s |}.
Definition with_journal (j : PageJournal) (s : PagedStore) : PagedStore :=
  {| ps_data := ps_data s; ps_journal := j; ps_dirs := ps_dirs s; ps_pending := ps_pending s;
     drained_counts := drained_counts s; default_slots := default_slots s; drain_seq := drain_seq s |}.
Definition with_dirs (d : gmap DirKey PageDirectory) (s : PagedStore) : PagedStore :=
  {| ps_data := ps_data s; ps_journal := ps_journal s; ps_dirs := d; ps_pending := ps_pending s;
     drained_counts := drained_counts s; default_slots := default_slots s; drain_seq := drain_seq s |}.
Definition with_pend (p : PendingRecords) (s : PagedStore) : PagedStore :=
  {| ps_data := ps_data s; ps_journal := ps_journal s; ps_dirs := ps_dirs s; ps_pending := p;
     drained_counts := drained_counts s; default_slots := default_slots s; drain_seq := drain_seq s |}.
Definition with_counts (c : gmap DirKey Z) (s : PagedStore) : PagedStore :=
  {| ps_data := ps_data s; ps_journal := ps_journal s; ps_dirs := ps_dirs s; ps_pending := ps_pending s;
     drained_counts := c; default_slots := default_slots s; drain_seq := drain_seq s |}.
Definition with_seq (q : Z) (s : PagedStore) : PagedStore :=
  {| ps_data := ps_data s; ps_journal := ps_journal s; ps_dirs := ps_dirs s; ps_pending := ps_pending s;
     drained_counts := drained_counts s; default_slots := default_slots s; drain_seq := q |}.

(** The methods of the parts, on the store. *)
Definition on_journal {A} (m : JM A) : PM A :=
  fun s => let '(r, j) := m (ps_journal s) in (r, with_journal j s).

(** A method of the directory at [k], which is there. *)
Definition on_dir {A} (k : DirKey) (m : ST (PageDirectory * BlockFile) StorageError A) : PM A := fun s =>
  match ps_dirs s !! k with
  | None => (Fault, s)
  | Some d => let '(r, (d, f)) := m (d, ps_data s) in
              (r, with_dirs (<[k := d]> (ps_dirs s)) (with_data f s))
  end.

Definition u32_of (n : Z) : StorageResult Z := do* guard (fitsb 32 n) in Done n.

Definition store_of (f : BlockFile) (j : PageJournal) : PagedStore :=
  {| ps_data := f; ps_journal := j; ps_dirs := ∅; ps_pending := ∅; drained_counts := ∅;
     default_slots := DEFAULT_DIRECTORY_SLOTS; drain_seq := 0 |}.

Definition ps_create_in_memory : PagedStore := store_of create_in_memory journal_in_memory.
Definition ps_create : PagedStore := store_of block_create journal_create.

Definition set_default_slots (n : Z) : PM unit :=
  do! st_lift (guard (0 <? n)) in
  st_modify (fun s => {| ps_data := ps_data s; ps_journal := ps_journal s; ps_dirs := ps_dirs s; ps_pending := ps_pending s;
                         drained_counts := drained_counts s; default_slots := n; drain_seq := drain_seq s |}).

Definition pending_len (s : PagedStore) : nat := foldr (fun '(_, m) n => (size m + n)%nat) O (by_pair (ps_pending s)).

Section store.
Context `{Codecs}.

(** ** Reads and writes *)

Definition ps_get (sid ver id : Z) : PM (option (list byte)) :=
  let! s := st_gets (fun s => s) in
  match (t ← ps_pending s !! (sid, ver); t !! id) with
  | Some mutation => st_ret mutation
  | None =>
    match ps_dirs s !! (sid, ver) with
    | None => st_ret None
    | Some _ => on_dir (sid, ver) (dir_get id)
    end
  end.

Definition hold (sid ver id : Z) (m : option (list byte)) : PM unit :=
  st_modify (fun s => with_pend (note (sid, ver) id m (ps_pending s)) s).

Definition ps_put (sid ver id : Z) (payload : list byte) : PM unit :=
  do! on_journal (write_record sid ver id payload) in
  hold sid ver id (Some payload).

Definition ps_remove (sid ver id : Z) : PM unit :=
  do! on_journal (delete_record sid ver id) in
  hold sid ver id None.

(** ** Drain *)

Record Drained : Type := {
  resizes : list (DirKey * Z);
  commits : list (DirKey * Z * SlotCommit);
  added : list (DirKey * Z)
}.

(** A type's pending records by target slot. *)
Definition by_slot (d : PageDirectory) (muts : Mutations) : gmap Z Mutations :=
  foldl (fun bs '(id, m) => let k := Z.of_nat (slot_of d id) in <[k := <[id := m]> (default ∅ (bs !! k))]> bs)
    ∅ (by_key muts).

Definition upserts (muts : Mutations) : Z := zlen (filter (fun '(_, m) => is_Some m) (by_key muts)).

Definition drain_slot (k : DirKey) (acc : Drained) (sm : Z * Mutations) : PM Drained :=
  let! c := on_dir k (commit_slot (Z.to_nat sm.1) sm.2) in
  st_ret {| resizes := resizes acc; commits := commits acc ++ [(k, sm.1, c)]; added := added acc |}.

(** [self.dirs.entry(key).or_insert_with(..)]: the directory, and whether it is new. *)
Definition entry_dir (k : DirKey) : PM (PageDirectory * bool) :=
  let! s := st_gets (fun s => s) in
  match ps_dirs s !! k with
  | Some d => st_ret (d, false)
  | None =>
    let! d := st_lift (dir_new k.1 k.2 (default_slots s)) in
    do! st_modify (with_dirs (<[k := d]> (ps_dirs s))) in
    st_ret (d, true)
  end.

Definition drain_type (acc : Drained) (t : DirKey * Mutations) : PM Drained :=
  let '(k, muts) := t in
  let! (d, is_new) := entry_dir k in
  let acc := {| resizes := if is_new : bool then resizes acc ++ [(k, slot_count d)] else resizes acc;
                commits := commits acc; added := added acc ++ [(k, upserts muts)] |} in
  st_foldl (drain_slot k) acc (by_key (by_slot d muts)).

(** Training, once per type, when it first crosses the record threshold. *)
Definition train_due (installs : list (DirKey * DictRef)) (a : DirKey * Z) : PM (list (DirKey * DictRef)) :=
  let '(k, n) := a in
  let! s := st_gets (fun s => s) in
  let old := default 0 (drained_counts s !! k) in
  let! new := st_lift (uadd 64 old n) in
  do! st_modify (with_counts (<[k := new]> (drained_counts s))) in
  if (DICT_TRAIN_MIN_RECORDS <=? old) || (new <? DICT_TRAIN_MIN_RECORDS) then st_ret installs
  else
    let! d := st_lift (expect (ps_dirs s !! k)) in
    if has_dictionary d then st_ret installs
    else
      let! samples := on_dir k (sample_payloads DICT_SAMPLE_CAP) in
      if zlen samples <? DICT_MIN_SAMPLES then st_ret installs
      else match train_dictionary samples DICT_MAX_BYTES with
           | Done [] | Fail _ => st_ret installs
           | Fault => st_lift Fault
           | Done dict =>
             let! r := on_dir k (install_dictionary dict) in
             st_ret (installs ++ [(k, r)])
           end.

Definition train_due_dictionaries (added : list (DirKey * Z)) : PM (list (DirKey * DictRef)) :=
  st_foldl train_due [] added.

(** The journal records of one commit: allocations, the descriptor, frees. *)
Definition journal_commit (c : DirKey * Z * SlotCommit) : PM unit :=
  let '((sid, ver), slot, c) := c in
  let! slot := st_lift (u32_of slot) in
  do! st_iter (fun r => on_journal (allocate_block sid ver slot r)) (heap_allocated c) in
  do! match allocated c with Some r => on_journal (allocate_block sid ver slot r) | None => st_ret tt end in
  do! on_journal (set_descriptor sid ver slot (descriptor c)) in
  do! match freed c with Some r => on_journal (free_block r) | None => st_ret tt end in
  st_iter (fun r => on_journal (free_block r)) (heap_freed c).

(** ** Compaction: a fresh journal of the state *)

Abbreviation CM := (ST (PagedStore * PageJournal) StorageError).

Definition on_store {A} (m : PM A) : CM A := fun '(s, j) => let '(r, s) := m s in (r, (s, j)).
Definition on_fresh {A} (m : JM A) : CM A := fun '(s, j) => let '(r, j) := m j in (r, (s, j)).

Definition compact_slot (k : DirKey) (t : nat * PageDescriptor) : CM unit :=
  let '(i, desc) := t in
  let! slot := st_lift (u32_of (Z.of_nat i)) in
  do! (if is_allocated desc then on_fresh (allocate_block k.1 k.2 slot (desc_run desc)) else st_ret tt) in
  on_fresh (set_descriptor k.1 k.2 slot desc).

Definition compact_dir (t : DirKey * PageDirectory) : CM unit :=
  let '(k, d) := t in
  let! n := st_lift (u32_of (slot_count d)) in
  do! on_fresh (resize_directory k.1 k.2 n) in
  do! st_iter (compact_slot k) (imap (fun i d => (i, d)) (slots d)) in
  let! refs := on_store (on_dir k dict_runs_in_use) in
  do! st_iter (fun r => on_fresh (allocate_block k.1 k.2 DICT_OWNER_SLOT (ref_run r))) refs in
  let! runs := on_store (on_dir k heap_runs_in_use) in
  st_iter (fun r => on_fresh (allocate_block k.1 k.2 DICT_OWNER_SLOT r)) runs.

Definition compact_pending (t : DirKey * Mutations) : CM unit :=
  let '(k, muts) := t in
  st_iter (fun '(id, m) => on_fresh (match m with
                                     | Some payload => write_record k.1 k.2 id payload
                                     | None => delete_record k.1 k.2 id
                                     end)) (by_key muts).

Definition is_memory (j : PageJournal) : bool := match j_backing j with Memory _ => true | Disk _ => false end.

Definition compact_into : CM unit :=
  let! s := on_store (st_gets (fun s => s)) in
  do! st_iter compact_dir (by_pair (ps_dirs s)) in
  do! on_fresh (checkpoint (drain_seq s)) in
  st_iter compact_pending (by_pair (ps_pending s)).

Definition has_staged (s : PagedStore) : bool :=
  existsb (fun '(_, d) => existsb is_in_journal (slots d)) (by_pair (ps_dirs s)).

Definition compact : PM unit :=
  let! s := st_gets (fun s => s) in
  if has_staged s then st_lift (Fail (Other "journal compaction with staged pages is unsupported"))
  else
    let in_memory := is_memory (ps_journal s) in
    let! fresh := (fun s => let '(r, (s, j)) := compact_into (s, if in_memory then journal_in_memory else journal_create) in
                            (match r with Done _ => Done j | Fail e => Fail e | Fault => Fault end, s)) in
    let! j := st_lift (if in_memory then Done fresh
                       else let* (j, _) := journal_open (backing_bytes (j_backing fresh)) in Done j) in
    st_modify (with_journal j).

(** The part of a drain that settles records into pages. *)
Definition settle (p : PendingRecords) : PM Drained :=
  st_foldl drain_type {| resizes := []; commits := []; added := [] |} (by_pair p).

(** The part that journals it. *)
Definition journal_drain (dr : Drained) (installs : list (DirKey * DictRef)) : PM unit :=
  do! st_iter (fun '(k, n) => let! n := st_lift (u32_of n) in on_journal (resize_directory k.1 k.2 n)) (resizes dr) in
  do! st_iter journal_commit (commits dr) in
  st_iter (fun '(k, r) => on_journal (allocate_block k.1 k.2 DICT_OWNER_SLOT (ref_run r))) installs.

(** Everything but the compaction at the end. *)
Definition drain_pages : PM unit :=
  let! p := st_gets ps_pending in
  do! st_modify (with_pend ∅) in
  let! dr := settle p in
  let! installs := train_due_dictionaries (added dr) in
  do! journal_drain dr installs in
  let! q := st_gets drain_seq in
  let! q := st_lift (uadd 64 q 1) in
  do! st_modify (with_seq q) in
  on_journal (checkpoint q).

Definition ps_drain : PM unit :=
  let! p := st_gets ps_pending in
  if decide (p = ∅) then st_ret tt
  else
    do! drain_pages in
    let! j := st_gets ps_journal in
    if JOURNAL_COMPACT_THRESHOLD <=? journal_len j then compact else st_ret tt.

Definition ps_has_dictionary (sid ver : Z) (s : PagedStore) : bool :=
  match ps_dirs s !! (sid, ver) with Some d => has_dictionary d | None => false end.

(** ** Growth *)

Definition grow_directory (sid ver new_slot_count : Z) : PM bool :=
  let k := (sid, ver) in
  let! s := st_gets (fun s => s) in
  match ps_dirs s !! k with
  | None => st_ret false
  | Some _ =>
    let! freed := on_dir k (dir_grow_to new_slot_count) in
    let! s := st_gets (fun s => s) in
    let! d := st_lift (expect (ps_dirs s !! k)) in
    let! n := st_lift (u32_of (slot_count d)) in
    do! on_journal (resize_directory sid ver n) in
    do! st_iter (fun '(i, desc) =>
      let! slot := st_lift (u32_of (Z.of_nat i)) in
      do! (if is_allocated desc then on_journal (allocate_block sid ver slot (desc_run desc)) else st_ret tt) in
      on_journal (set_descriptor sid ver slot desc)) (imap (fun i d => (i, d)) (slots d)) in
    do! st_iter (fun r => on_journal (free_block r)) freed in
    st_ret true
  end.

Definition maybe_grow (sid ver : Z) : PM bool :=
  let! s := st_gets (fun s => s) in
  match ps_dirs s !! (sid, ver) with
  | Some d => if needs_grow d then grow_directory sid ver (Z.min (slot_count d * 2) (2 ^ 64 - 1)) else st_ret false
  | None => st_ret false
  end.

(** ** Opening *)

(** The directories, each with the dictionary its pages use. *)
Fixpoint adopt_all (ds : list (DirKey * PageDirectory)) (f : BlockFile) : StorageResult (gmap DirKey PageDirectory) :=
  match ds with
  | [] => Done ∅
  | (k, d) :: ds =>
    match adopt_dictionary_from_pages (d, f) with
    | (Done _, (d, f)) => let* m := adopt_all ds f in Done (<[k := d]> m)
    | (Fail e, _) => Fail e
    | (Fault, _) => Fault
    end
  end.

Definition directory_of (t : DirKey * list PageDescriptor) : StorageResult (DirKey * PageDirectory) :=
  let '(k, l) := t in let* d := from_slots k.1 k.2 l in Done (k, d).

Definition ps_open (journal_file data_file : list byte) : StorageResult PagedStore :=
  let* (j, st) := journal_open journal_file in
  let* f := block_open data_file (allocated_runs st) in
  let* ds := omapM directory_of (by_pair (directories st)) in
  let* dirs := adopt_all ds f in
  Done {| ps_data := f; ps_journal := j; ps_dirs := dirs; ps_pending := pending st; drained_counts := ∅;
          default_slots := DEFAULT_DIRECTORY_SLOTS; drain_seq := 0 |}.
End store.
