(* ===== verification/StoreParts.v ===== *)
(** * The parts of a page store

    The directories of a store own disjoint regions of its file; the journal is a
    list of records.  An operation of one part leaves the others alone. *)
From stdpp Require Import sorting.
From S2P Require Import Prelude Ordered Wire Errors Hash BlockAlloc BlockAllocOk BlockFile Regions PageDir Codec Dict HeapStore SlotPage SlotPageOk Directory DirectoryOk DirectoryMap DirectoryDict PageJournal PageJournalOk PagedStore.

(** Each type's directory with the map it holds. *)
Abbreviation Holdings := (gmap DirKey (PageDirectory * Values)).

Section parts.
Context `{CodecLaws}.

Definition dir_at (t : DirKey * (PageDirectory * Values)) (x : Regions) : Prop :=
  dir_holds t.2.1 t.2.2 x /\ dir_struct_id t.2.1 = t.1.1 /\ dir_version t.2.1 = t.1.2 /\ slot_count t.2.1 < 2 ^ 32.

(** A store whose directories' regions satisfy [P]. *)
Record pages_own (P : DirKey * (PageDirectory * Values) -> Regions -> Prop) (s : PagedStore) (G : Holdings) (x : Regions) : Prop := {
  po_dirs : ps_dirs s = fst <$> G;
  po_own : owns P (map_to_list G) x;
  po_file : bf_ok (ps_data s) x
}.
#[global] Arguments po_dirs {P} s G x _.
#[global] Arguments po_own {P} s G x _.
#[global] Arguments po_file {P} s G x _.

Definition pages_ok : PagedStore -> Holdings -> Regions -> Prop := pages_own dir_at.

(** What an operation on the pages keeps. *)
Record same_rest (s s' : PagedStore) : Prop := {
  sm_journal : ps_journal s' = ps_journal s;
  sm_pending : ps_pending s' = ps_pending s;
  sm_slots : default_slots s' = default_slots s;
  sm_seq : drain_seq s' = drain_seq s
}.

#[export] Instance same_rest_preorder : PreOrder same_rest.
Proof. split; [by constructor|]. intros s1 s2 s3 [] []. constructor; congruence. Qed.

Definition used_blocks (s : PagedStore) : Z := capacity_blocks (ps_data s).

(** A file with regions in use has the use of any of them. *)
Lemma bf_ok_less f x y : bf_ok f x -> y ⊆ x -> bf_ok f y.
Proof.
  intros [? ? ? Hr Ha] Hsub. constructor; try done.
  - intros b bs Hb. by apply Hr, (lookup_weaken _ _ _ _ Hb).
  - intros b bs b' bs' Hb Hb'. by apply Ha with bs'; eapply lookup_weaken.
Qed.

(** One directory's operation, on the store; regions [e] of it may be given up. *)
Lemma on_dir_owned {A} P s G x k d m (op : ST (PageDirectory * BlockFile) StorageError A) n Q :
  pages_own P s G x -> G !! k = Some (d, m) -> used_blocks s + n <= 2 ^ 48 ->
  (forall xd, P (k, (d, m)) xd -> triple d xd op n (Q xd)) ->
  exists r d' s' xd0 xd xr log, P (k, (d, m)) xd0 /\ on_dir k op s = (r, s') /\ same_rest s s' /\ drained_counts s' = drained_counts s /\
    used_blocks s <= used_blocks s' <= used_blocks s + n /\
    lens (xd ∪ xr) = replay_events log (lens x) /\ Q xd0 r d' xd log /\ bf_ok (ps_data s') (xd ∪ xr) /\
    ps_dirs s' = <[k := d']> (ps_dirs s) /\
    forall P' m' y e, (forall t z, t.1 <> k -> P t z -> P' t z) -> xd = y ∪ e -> y ##ₘ e -> P' (k, (d', m')) y -> pages_own P' s' (<[k := (d', m')]> G) (y ∪ xr).
Proof.
  intros [Hd Ho Hf] Hk Hc Hop. pose proof (map_to_list_delete G k (d, m) Hk) as Hp.
  eapply owns_perm in Ho; [|symmetry; exact Hp]. destruct Ho as (xd & xr & -> & Hdis & Hat & Hrest).
  destruct (Hop xd Hat (ps_data s) xr Hf Hdis Hc) as (r & d' & f' & xd' & log & E & Hf' & Hdis' & Hcap & Hl & HQ).
  unfold on_dir. rewrite Hd, lookup_fmap, Hk. cbn [fmap option_fmap option_map fst]. rewrite E.
  eexists r, d', _, xd, xd', xr, log. split; [done|]. split; [done|]. split; [by constructor|]. split; [done|]. split; [done|].
  split; [done|]. split; [done|]. split; [done|]. split; [done|]. intros P' m' y e HP -> Hye Hat'. apply map_disjoint_union_l in Hdis' as [Hy He].
  constructor; simpl.
  - by rewrite fmap_insert.
  - eapply owns_perm; [symmetry; rewrite <- insert_delete_eq; apply map_to_list_insert, lookup_delete_eq|]. exists y, xr. do 3 (split; [done|]).
    rewrite <- (map_id (map_to_list _)). eapply owns_impl; [|exact Hrest]. intros [k' t] z Hin. apply HP. simpl. intros ->.
    apply elem_of_map_to_list in Hin. by rewrite lookup_delete_eq in Hin.
  - eapply bf_ok_less; [exact Hf'|]. apply map_union_mono_r; [by apply map_disjoint_union_l|]. apply map_union_subseteq_l.
Qed.

Lemma on_dir_run {A} s G x k d m (op : ST (PageDirectory * BlockFile) StorageError A) n Q :
  pages_ok s G x -> G !! k = Some (d, m) -> used_blocks s + n <= 2 ^ 48 ->
  (forall xd, dir_at (k, (d, m)) xd -> triple d xd op n (Q xd)) ->
  exists r d' s' xd0 xd xr log, dir_at (k, (d, m)) xd0 /\ on_dir k op s = (r, s') /\ same_rest s s' /\ drained_counts s' = drained_counts s /\
    used_blocks s <= used_blocks s' <= used_blocks s + n /\
    lens (xd ∪ xr) = replay_events log (lens x) /\ Q xd0 r d' xd log /\ bf_ok (ps_data s') (xd ∪ xr) /\
    ps_dirs s' = <[k := d']> (ps_dirs s) /\
    forall m', dir_at (k, (d', m')) xd -> pages_ok s' (<[k := (d', m')]> G) (xd ∪ xr).
Proof.
  intros Hp Hk Hc Hop. destruct (on_dir_owned dir_at s G x k d m op n Q Hp Hk Hc Hop) as (r & d' & s' & xd0 & xd & xr & log & H1 & H2 & H3 & H4 & H5 & H6 & H7 & H8 & H9 & Hback).
  exists r, d', s', xd0, xd, xr, log. do 9 (split; [done|]). intros m' Hat. apply (Hback dir_at m' xd ∅); [done|by rewrite (right_id_L ∅ (∪))|apply map_disjoint_empty_r|done].
Qed.

(** A new, empty directory. *)
Lemma pages_ok_new s G x k :
  pages_ok s G x -> G !! k = None -> fits 32 k.1 -> fits 8 k.2 -> 0 < default_slots s < 2 ^ 32 ->
  exists d, dir_new k.1 k.2 (default_slots s) = Done d /\ slot_count d = default_slots s /\
    slots d = replicate (Z.to_nat (default_slots s)) DESC_EMPTY /\
    pages_ok (with_dirs (<[k := d]> (ps_dirs s)) s) (<[k := (d, ∅)]> G) x.
Proof.
  intros [Hd Ho Hf] Hk Hsid Hver Hs. destruct (dir_new_holds k.1 k.2 (default_slots s)) as (d & E & Hh & Hc & _); [done|done|lia|].
  exists d. split; [done|]. split; [done|]. unfold dir_new in E. replace (0 <? default_slots s) with true in E by lia.
  injection E as <-. split; [done|]. constructor; simpl.
  - by rewrite fmap_insert, Hd.
  - eapply owns_perm; [symmetry; by apply map_to_list_insert|]. exists ∅, x. rewrite (left_id_L ∅ (∪)).
    split; [done|]. split; [apply map_disjoint_empty_l|]. split; [|done]. split; [done|]. split; [done|]. split; [done|]. cbn [snd fst]. rewrite Hc. lia.
  - done.
Qed.

(** ** Journal steps *)

(** A state with a journal in it. *)
Class HasJournal (T : Type) := {
  the_journal : T -> PageJournal;
  put_journal : PageJournal -> T -> T;
  the_put j s : the_journal (put_journal j s) = j;
  put_the s : put_journal (the_journal s) s = s;
  put_put j j' s : put_journal j (put_journal j' s) = put_journal j s
}.

#[export] Program Instance store_journal : HasJournal PagedStore := {| the_journal := ps_journal; put_journal := with_journal |}.
Solve Obligations with by intros; try match goal with s : PagedStore |- _ => destruct s end.

(** The state of a compaction: the store beside the fresh journal. *)
#[export] Program Instance fresh_journal : HasJournal (PagedStore * PageJournal) := {| the_journal := snd; put_journal j s := (s.1, j) |}.
Solve Obligations with by intros; try match goal with s : PagedStore * PageJournal |- _ => destruct s end.

(** [op] appends the records [new] to the journal and does nothing else. *)
Definition journals `{HasJournal T} (op : ST T StorageError unit) (new : list Rec) : Prop :=
  forall s rs, j_ok (the_journal s) rs ->
  exists j, op s = (Done tt, put_journal j s) /\ j_ok j (rs ++ new).

Lemma journals_append `{HasJournal T} r (op : ST T StorageError unit) :
  (forall s, op s = let '(a, j) := append (rec_bytes r) (the_journal s) in (a, put_journal j s)) -> rec_fits r -> plain r -> journals op [r].
Proof. intros E Hr Hp s rs Hj. rewrite E. destruct (append_rec_spec _ _ r Hj Hr Hp) as (j & -> & Hj'). by exists j. Qed.

Lemma journals_one r (op : JM unit) :
  op = append (rec_bytes r) -> rec_fits r -> plain r -> journals (on_journal op) [r].
Proof. intros -> Hr Hp. by apply journals_append. Qed.

Lemma journals_fresh r (op : JM unit) :
  op = append (rec_bytes r) -> rec_fits r -> plain r -> journals (on_fresh op) [r].
Proof. intros -> Hr Hp. apply journals_append; [|done..]. by intros [s j]. Qed.

Section steps.
Context `{HJ : HasJournal T}.
Implicit Types (op : ST T StorageError unit).

Lemma journals_ret : journals (T := T) (st_ret tt) [].
Proof. intros s rs Hj. exists (the_journal s). by rewrite app_nil_r, put_the. Qed.

Lemma journals_bind op1 op2 l1 l2 : journals op1 l1 -> journals op2 l2 -> journals (do! op1 in op2) (l1 ++ l2).
Proof.
  intros H1 H2 s rs Hj. destruct (H1 s rs Hj) as (j1 & E1 & Hj1). destruct (H2 (put_journal j1 s) (rs ++ l1)) as (j2 & E2 & Hj2); [by rewrite the_put|].
  exists j2. unfold st_bind. rewrite E1, E2, put_put. rewrite (assoc_L (++)). done.
Qed.

Lemma journals_iter {A} (f : A -> ST T StorageError unit) (g : A -> list Rec) l :
  (forall a, a ∈ l -> journals (f a) (g a)) -> journals (st_iter f l) (concat (map g l)).
Proof.
  induction l as [|a l IH]; intros Hf; simpl; [apply journals_ret|].
  apply journals_bind; [apply Hf; by left|]. apply IH. intros b Hb. apply Hf. by right.
Qed.

Lemma journals_u32 n (k : Z -> ST T StorageError unit) l : fits 32 n -> journals (k n) l -> journals (let! m := st_lift (u32_of n) in k m) l.
Proof.
  intros Hn Hk s rs Hj. unfold st_bind, st_lift, u32_of. rewrite (proj2 (fitsb_spec 32 n)) by done. by apply Hk.
Qed.

Lemma journals_opt (o : option BlockRun) (f : BlockRun -> ST T StorageError unit) g :
  (forall r, o = Some r -> journals (f r) [g r]) ->
  journals (match o with Some r => f r | None => st_ret tt end) (map g (option_list o)).
Proof. destruct o as [r|]; simpl; intros Hf; [by apply Hf|apply journals_ret]. Qed.

End steps.

Lemma concat_singletons {A B} (f : A -> B) l : concat (map (fun a => [f a]) l) = map f l.
Proof. induction l; simpl; congruence. Qed.

(** The records of a commit. *)
Definition commit_recs (t : DirKey * Z * SlotCommit) : list Rec :=
  let '((sid, ver), slot, c) := t in
  map (Alloc sid ver slot) (heap_allocated c) ++ map (Alloc sid ver slot) (option_list (allocated c)) ++
  [SetDesc sid ver slot (descriptor c)] ++ map Freed (option_list (freed c)) ++ map Freed (heap_freed c).

Definition key_fits (k : DirKey) : Prop := owner_fits k.1 k.2.

Lemma journal_commit_recs k slot c :
  key_fits k -> fits 32 slot -> commit_run64 c -> allocated c = opt_run (descriptor c) -> fits 64 (descriptor c) ->
  journals (journal_commit (k, slot, c)) (commit_recs (k, slot, c)).
Proof.
  destruct k as [sid ver]. intros Hk Hs (H1 & H2 & H3) Ha Hd. unfold journal_commit, commit_recs.
  rewrite Forall_forall in H1, H2, H3.
  apply journals_u32; [done|]. apply journals_bind.
  { rewrite <- concat_singletons. apply journals_iter. intros r Hr. apply journals_one; [done| |done]. split; [done|]. split; [done|]. by apply H1. }
  apply journals_bind.
  { apply (journals_opt _ (fun r => on_journal (allocate_block sid ver slot r))). intros r Hr. apply journals_one; [done| |done].
    split; [done|]. split; [done|]. rewrite Ha in Hr. unfold opt_run in Hr. destruct (is_allocated _); [|done]. injection Hr as <-. apply desc_run64. }
  apply journals_bind.
  { by apply (journals_one (SetDesc sid ver slot (descriptor c))). }
  apply journals_bind.
  { apply (journals_opt _ (fun r => on_journal (free_block r))). intros r Hr. apply journals_one; [done| |done]. apply H3. rewrite Hr. by left. }
  rewrite <- concat_singletons. apply journals_iter. intros r Hr. apply journals_one; [done| |done]. by apply H2.
Qed.

(** ** What the records say of the ledger and the directories *)

Definition rec_event (r : Rec) : option Event :=
  match r with Alloc _ _ _ run => Some (Took run) | Freed run => Some (Gave run) | _ => None end.

Definition ledger (s : Replay) : gmap Z Z := fst <$> r_allocated s.

Lemma apply_recs_ledger c s rs : ledger (apply_recs c s rs) = replay_events (omap rec_event rs) (ledger s).
Proof.
  revert c s. induction rs as [|r rs IH]; intros c s; [done|]. cbn [apply_recs]. rewrite IH.
  destruct r; cbn [omap list_omap rec_event apply_rec]; unfold replay_events; simpl; try done;
    f_equal; unfold ledger; simpl; [by rewrite fmap_insert|by rewrite fmap_delete].
Qed.

Lemma omap_map_some {A B C} (f : B -> option C) (g : A -> B) (h : A -> C) l :
  (forall a, f (g a) = Some (h a)) -> omap f (map g l) = map h l.
Proof. intros Hf. induction l as [|a l IH]; [done|]. cbn [map omap list_omap]. rewrite Hf. f_equal. exact IH. Qed.

Lemma commit_recs_events k slot c : omap rec_event (commit_recs (k, slot, c)) = commit_events c.
Proof.
  destruct k as [sid ver]. unfold commit_recs, commit_events. rewrite !omap_app.
  rewrite !(omap_map_some rec_event (Alloc sid ver slot) Took), !(omap_map_some rec_event Freed Gave) by done. done.
Qed.
End parts.
