(* ===== verification/StoreDrain.v ===== *)
(** * Settling the pending records of a store

    A drain groups each type's pending records by page and commits page by page;
    what it journals tells exactly the directories and the space in use it leaves. *)
From stdpp Require Import sorting.
From S2P Require Import Prelude Ordered Wire Errors Hash BlockAlloc BlockAllocOk BlockFile Regions PageDir Codec Dict HeapStore SlotPage SlotPageOk Directory DirectoryOk DirectoryMap DirectoryDict PageJournal PageJournalOk PagedStore StoreParts.

(** ** Grouping by page *)

Section group.
Context (n : Z).

Definition group (bs : gmap Z Mutations) (t : Z * option (list byte)) : gmap Z Mutations :=
  let '(id, m) := t in let k := Z.of_nat (slot_for id n) in <[k := <[id := m]> (default ∅ (bs !! k))]> bs.

Definition group_at (bs : gmap Z Mutations) (k id : Z) : option (option (list byte)) := t ← bs !! k; t !! id.

Lemma group_at_insert bs k t k' id :
  group_at (<[k := t]> bs) k' id = if decide (k' = k) then t !! id else group_at bs k' id.
Proof. unfold group_at. case_decide as Hk; [subst; by rewrite lookup_insert_eq|by rewrite lookup_insert_ne]. Qed.

Lemma group_spec l bs k id : NoDup (map fst l) ->
  group_at (foldl group bs l) k id =
    if decide (k = Z.of_nat (slot_for id n)) then
      match (list_to_map l : Mutations) !! id with Some m => Some m | None => group_at bs k id end
    else group_at bs k id.
Proof.
  revert bs. induction l as [|[id0 m0] l IH]; intros bs; simpl; [by case_decide|]. intros [Hn Hl]%NoDup_cons.
  rewrite IH by done. rewrite group_at_insert.
  assert (default ∅ (bs !! Z.of_nat (slot_for id0 n)) !! id = group_at bs (Z.of_nat (slot_for id0 n)) id) as E
    by (unfold group_at; by destruct (bs !! _)).
  destruct (decide (id = id0)) as [->|Hne].
  - rewrite lookup_insert_eq, not_elem_of_list_to_map_1 by done. rewrite lookup_insert_eq. by repeat case_decide.
  - rewrite (lookup_insert_ne (list_to_map l)) by done. rewrite (lookup_insert_ne _ id0) by done. rewrite E.
    destruct ((list_to_map l : Mutations) !! id); repeat case_decide; congruence.
Qed.

Lemma group_keys l bs k sm : foldl group bs l !! k = Some sm ->
  is_Some (bs !! k) \/ exists id, id ∈ map fst l /\ k = Z.of_nat (slot_for id n).
Proof.
  revert bs. induction l as [|[id0 m0] l IH]; intros bs; simpl; [by left|]. intros Hk.
  destruct (IH _ Hk) as [[t Ht]|(id & Hid & ->)]; [|right; exists id; split; [by right|done]].
  apply lookup_insert_Some in Ht as [[<- _]|[_ Ht]]; [right; exists id0; split; [by left|done]|by left].
Qed.

(** The grouped mutations cost what they did together. *)
Definition one_budget : Z := 2 ^ 21.
Definition group_size (sm : Mutations) : Z := Z.of_nat (size sm).

Lemma group_total l bs : NoDup (map fst l) -> (forall id, id ∈ map fst l -> group_at bs (Z.of_nat (slot_for id n)) id = None) ->
  msum group_size (foldl group bs l) = msum group_size bs + zlen l.
Proof.
  revert bs. induction l as [|[id0 m0] l IH]; intros bs; simpl; [intros; unfold zlen; simpl; lia|].
  intros [Hn Hl]%NoDup_cons Hnew. rewrite IH; [|done|].
  - rewrite msum_insert. specialize (Hnew id0 ltac:(by left)). unfold group_at in Hnew. unfold zlen. simpl length.
    destruct (bs !! Z.of_nat (slot_for id0 n)) as [t|] eqn:E; simpl in *; unfold group_size.
    + rewrite map_size_insert_None by done. lia.
    + rewrite map_size_insert_None by done. rewrite map_size_empty. lia.
  - intros id Hid. rewrite group_at_insert. assert (id <> id0) by congruence.
    specialize (Hnew id ltac:(by right)). unfold group_at in Hnew. case_decide as Hk; [|done]. rewrite Hk in Hnew.
    rewrite lookup_insert_ne by done. by destruct (bs !! _).
Qed.
End group.

Lemma by_slot_group d muts : by_slot d muts = foldl (group (slot_count d)) ∅ (by_key muts).
Proof. unfold by_slot, group, slot_of. done. Qed.

Lemma by_slot_spec d muts k sm id mm :
  by_slot d muts !! k = Some sm -> (sm !! id = Some mm <-> muts !! id = Some mm /\ Z.of_nat (slot_of d id) = k).
Proof.
  rewrite by_slot_group. intros Hk. pose proof (group_spec (slot_count d) (by_key muts) ∅ k id (NoDup_ordered _ _)) as E.
  rewrite ordered_list_to_map in E. unfold group_at in E. rewrite Hk, lookup_empty in E. simpl in E. rewrite E. unfold slot_of.
  destruct (decide (k = Z.of_nat (slot_for id (slot_count d)))) as [->|Hne].
  - destruct (muts !! id) as [m'|]; [|by split; [|intros []]]. split; [by intros [= ->]|by intros [[= ->] _]].
  - split; [done|]. intros [_ <-]. done.
Qed.

Lemma by_slot_cover d muts id mm : muts !! id = Some mm ->
  exists sm, by_slot d muts !! Z.of_nat (slot_of d id) = Some sm /\ sm !! id = Some mm.
Proof.
  intros Hm. rewrite by_slot_group. pose proof (group_spec (slot_count d) (by_key muts) ∅ (Z.of_nat (slot_of d id)) id (NoDup_ordered _ _)) as E.
  rewrite decide_True, ordered_list_to_map, Hm in E by done. unfold group_at in E.
  destruct (foldl _ _ _ !! _) as [sm|]; [|done]. by exists sm.
Qed.

Lemma by_slot_range d muts k sm : 0 < slot_count d -> by_slot d muts !! k = Some sm -> 0 <= k < slot_count d.
Proof.
  intros Hc. rewrite by_slot_group. intros [[? Hs]|(id & _ & ->)]%group_keys; [by rewrite lookup_empty in Hs|].
  pose proof (slot_for_bound id (slot_count d) Hc). lia.
Qed.

Lemma by_slot_total d muts : msum group_size (by_slot d muts) = Z.of_nat (size muts).
Proof.
  rewrite by_slot_group, group_total; [|apply NoDup_ordered|done]. rewrite msum_empty. unfold zlen.
  rewrite (Permutation_length (ordered_perm Z.leb muts)), length_map_to_list. lia.
Qed.

(** The batches of the pages together are the batch. *)
Definition overlays (m : Values) (L : list (Z * Mutations)) : Values := foldl (fun m t => overlay t.2 m) m L.

Lemma lookup_overlays m L id :
  (forall t mm, t ∈ L -> t.2 !! id = Some mm -> forall t' mm', t' ∈ L -> t'.2 !! id = Some mm' -> mm' = mm) ->
  overlays m L !! id = match list_find (fun t => is_Some (t.2 !! id)) L with
                       | Some (_, t) => match t.2 !! id with Some mm => mm | None => m !! id end
                       | None => m !! id
                       end.
Proof.
  revert m. induction L as [|t L IH]; intros m Hu; [done|]. cbn [overlays foldl]. change (foldl _ (overlay t.2 m) L) with (overlays (overlay t.2 m) L).
  rewrite IH by (intros t1 mm H1 H2 t2 mm' H3 H4; apply (Hu t1 mm ltac:(by right) H2 t2 mm' ltac:(by right) H4)). cbn [list_find]. rewrite lookup_overlay. case_decide as Hs.
  - destruct Hs as [mm Hmm]. rewrite Hmm. destruct (list_find _ L) as [[i t']|] eqn:E; [|done].
    apply list_find_Some in E as (Hi & [mm' Hm'] & _). simpl. rewrite Hm'.
    eapply Hu; [by left|done|right; by eapply list_elem_of_lookup_2|done].
  - destruct (t.2 !! id) eqn:E; [by destruct Hs|]. by destruct (list_find _ L) as [[i t']|].
Qed.

Lemma overlays_by_slot d muts m : overlays m (by_key (by_slot d muts)) = overlay muts m.
Proof.
  apply map_eq. intros id. rewrite lookup_overlay, lookup_overlays.
  - destruct (list_find _ _) as [[i [k sm]]|] eqn:E.
    + apply list_find_Some in E as (Hi%list_elem_of_lookup_2%elem_of_ordered & [mm Hmm] & _). simpl in *. rewrite Hmm.
      apply (by_slot_spec d muts k sm id mm Hi) in Hmm as [-> _]. done.
    + destruct (muts !! id) as [mm|] eqn:Em; [|done]. destruct (by_slot_cover d muts id mm Em) as (sm & Hk & Hsm).
      apply list_find_None in E. rewrite Forall_forall in E. apply (elem_of_ordered Z.leb) in Hk. exfalso. apply (E _ Hk). by exists mm.
  - intros [k sm] mm H1%elem_of_ordered Hm [k' sm'] mm' H2%elem_of_ordered Hm'. simpl in *.
    apply (by_slot_spec d muts k sm id mm H1) in Hm as [Hm _]. apply (by_slot_spec d muts k' sm' id mm' H2) in Hm' as [Hm' _]. congruence.
Qed.

(** ** Committing the pages of a type *)

Section settle.
Context `{CodecLaws}.

Definition commit_ok (t : DirKey * Z * SlotCommit) : Prop :=
  key_fits t.1.1 /\ fits 32 t.1.2 /\ commit_run64 t.2 /\ allocated t.2 = opt_run (descriptor t.2) /\ fits 64 (descriptor t.2).

(** The directories' descriptors, and a commit's effect on them. *)
Abbreviation Layout := (gmap DirKey (list PageDescriptor)).
Definition layout (G : Holdings) : Layout := (fun t => slots t.1) <$> G.
Definition commit_desc (SM : Layout) (t : DirKey * Z * SlotCommit) : Layout :=
  alter (<[Z.to_nat t.1.2 := descriptor t.2]>) t.1.1 SM.
Definition commits_events (cs : list (DirKey * Z * SlotCommit)) : list Event := concat (map (fun t => commit_events t.2) cs).

(** From [s] with holdings [G] to [s'] with [G'], through the commits [cs]. *)
Record settled (s : PagedStore) (G : Holdings) (x : Regions) (s' : PagedStore) (G' : Holdings) (x' : Regions)
    (cs : list (DirKey * Z * SlotCommit)) (budget : Z) : Prop := {
  se_rest : same_rest s s';
  se_counts : drained_counts s' = drained_counts s;
  se_pages : pages_ok s' G' x';
  se_used : used_blocks s <= used_blocks s' <= used_blocks s + budget;
  se_commits : Forall commit_ok cs;
  se_layout : layout G' = foldl commit_desc (layout G) cs;
  se_ledger : lens x' = replay_events (commits_events cs) (lens x)
}.

Lemma settled_refl s G x : pages_ok s G x -> settled s G x s G x [] 0.
Proof. intros Hp. constructor; try done; lia. Qed.

Lemma settled_trans s1 G1 x1 s2 G2 x2 s3 G3 x3 cs1 cs2 b1 b2 :
  settled s1 G1 x1 s2 G2 x2 cs1 b1 -> settled s2 G2 x2 s3 G3 x3 cs2 b2 -> settled s1 G1 x1 s3 G3 x3 (cs1 ++ cs2) (b1 + b2).
Proof.
  intros [] []. constructor; try done; try lia; try congruence.
  - by etransitivity.
  - by apply Forall_app_2.
  - rewrite foldl_app. congruence.
  - unfold commits_events in *. rewrite map_app, concat_app, replay_events_app. congruence.
Qed.

Definition value_fits (mm : option (list byte)) : Prop := forall v, mm = Some v -> fits 32 (zlen v).

Lemma value_fits_small mm : value_fits mm -> value_small mm.
Proof. intros Hv v E. specialize (Hv v E). unfold fits in Hv. lia. Qed.

Lemma batch_budget sm : 0 < group_size sm -> (forall id mm, sm !! id = Some mm -> value_fits mm) ->
  muts_blocks (by_key sm) + MAX_BLOCK_COUNT <= group_size sm * one_budget.
Proof.
  intros Hs Hv. assert (muts_blocks (by_key sm) <= Z.of_nat (length (by_key sm)) * (2 ^ 20 + 2)) as Hb.
  { assert (Forall (fun t => value_fits t.2) (by_key sm)) as Hall.
    { apply Forall_forall. intros [id mm] Hin%elem_of_ordered. by eapply Hv. }
    induction Hall as [|t l Ht _ IH]; simpl; [lia|]. assert (mutation_blocks t.2 <= 2 ^ 20 + 2); [|lia].
    destruct t.2 as [v|]; simpl; [|lia]. specialize (Ht v eq_refl). unfold fits, DATA_BLOCK_SIZE in *.
    pose proof (Z.div_le_mono (zlen v) (2 ^ 32) 4096). change (2 ^ 32 / 4096) with (2 ^ 20) in *. lia. }
  rewrite (Permutation_length (ordered_perm Z.leb sm)), length_map_to_list in Hb. unfold group_size, one_budget, MAX_BLOCK_COUNT in *. lia.
Qed.

(** A batch for one page, whose records the page's counters can describe. *)
Definition batch_ok (d : PageDirectory) (m : Values) (t : Z * Mutations) : Prop :=
  0 <= t.1 < slot_count d /\ 0 < group_size t.2 /\
  (forall id mm, t.2 !! id = Some mm -> fits 128 id /\ value_fits mm /\ Z.of_nat (slot_of d id) = t.1) /\
  cost (slot_values (overlay t.2 m) (slot_count d) (Z.to_nat t.1)) <= 2 ^ 31.

(** Where a drain that fails stops: nothing but the pages has changed. *)
Definition gave_up (s s' : PagedStore) (G' : Holdings) : Prop := same_rest s s' /\ exists x', pages_ok s' G' x'.

Lemma drain_slot_run s G x k d m acc t :
  pages_ok s G x -> G !! k = Some (d, m) -> batch_ok d m t ->
  used_blocks s + group_size t.2 * one_budget <= 2 ^ 48 ->
  exists r s' d', drain_slot k acc t s = (r, s') /\ slot_count d' = slot_count d /\
  match r with
  | Done acc' => exists x' c,
      acc' = {| resizes := resizes acc; commits := commits acc ++ [(k, t.1, c)]; added := added acc |} /\
      settled s G x s' (<[k := (d', overlay t.2 m)]> G) x' [(k, t.1, c)] (group_size t.2 * one_budget)
  | Fail _ => gave_up s s' (<[k := (d', m)]> G) /\
      ~ roomy (slot_values (overlay t.2 m) (slot_count d) (Z.to_nat t.1))
  | Fault => False
  end.
Proof.
  intros Hp Hk (Hi & Hsz & Hids & Hcost) Hb. destruct t as [i sm]. cbn [fst snd] in *.
  destruct (on_dir_owned dir_at s G x k d m (commit_slot (Z.to_nat i) sm) (group_size sm * one_budget)
    (committed d m (overlay sm m) (Z.to_nat i)) Hp Hk Hb)
    as (r & d' & s' & xd0 & xd & xr & log & Hat & E & Hrest & Hcnt & Hused & Hl & HQ & Hf & Hdirs & Hback).
  { intros xd (Hh & _ & _ & Hc). eapply triple_steps; [apply commit_slot_holds; try done|].
    - cbn [fst snd] in *. unfold slot_count, zlen in Hi. lia.
    - intros id mm Hm. destruct (Hids id mm Hm) as (? & ?%value_fits_small & ?). split_and!; try done. lia.
    - apply batch_budget; [done|]. intros id mm Hm. by destruct (Hids id mm Hm) as (_ & ? & _). }
  destruct Hat as (Hh0 & Hs0 & Hv0 & Hc0). cbn [fst snd] in *. destruct HQ as (Es & Ev & Hr).
  assert (Z.to_nat i < length (slots d))%nat as Hlt by (unfold slot_count, zlen in Hi; lia).
  unfold drain_slot, st_bind; cbn [fst snd]; rewrite E. destruct r as [c|e|]; [| |done].
  - destruct Hr as (Hh' & -> & Hal & H64 & Hsl & _).
    assert (slot_count d' = slot_count d) as Ec by (unfold slot_count, zlen; by rewrite Hsl, length_insert).
    eexists (Done _), s', d'. split; [done|]. split; [done|]. exists (xd ∪ xr), c. split; [done|].
    assert (key_fits k) as Hkf by (rewrite (surjective_pairing k), <- Hs0, <- Hv0; by apply (dir_holds_stamp d m xd0)).
    constructor; try done.
    + apply (Hback dir_at _ xd ∅); [done|by rewrite (right_id_L ∅ (∪))|apply map_disjoint_empty_r|].
      split; [done|]. cbn [fst snd]. rewrite Es, Ev, Ec. done.
    + apply Forall_singleton. unfold commit_ok. cbn [fst snd]. split; [done|]. split; [unfold fits; lia|]. do 2 (split; [done|]).
      apply (dir_holds_desc d' (overlay sm m) xd); [done|]. rewrite Hsl. by apply list_elem_of_insert.
    + unfold layout, commit_desc. rewrite fmap_insert. simpl. rewrite Hsl. symmetry.
      apply map_eq. intros k'. destruct (decide (k' = k)) as [->|Hne].
      * rewrite lookup_alter_eq, lookup_insert_eq, lookup_fmap, Hk. done.
      * by rewrite lookup_alter_ne, lookup_insert_ne.
    + unfold commits_events. simpl. by rewrite app_nil_r.
  - destruct Hr as (Hh' & Hsl & Hsub & Hroom).
    assert (slot_count d' = slot_count d) as Ec by (unfold slot_count; by rewrite Hsl).
    exists (Fail e), s', d'. split; [done|]. split; [done|]. split; [|done]. split; [done|]. exists (xd0 ∪ xr).
    apply (Hback dir_at m xd0 (xd ∖ xd0)); [done|by rewrite map_difference_union|by apply map_disjoint_difference_r1|].
    split; [done|]. cbn [fst snd]. by rewrite Es, Ev, Ec.
Qed.

Lemma overlay_slot_other sm m n i j : (forall id mm, sm !! id = Some mm -> Z.of_nat (slot_for id n) = i) -> i <> Z.of_nat j ->
  slot_values (overlay sm m) n j = slot_values m n j.
Proof.
  intros Hs Hne. apply map_eq. intros id. apply option_eq. intros v. unfold values_at. rewrite !map_lookup_filter_Some, lookup_overlay.
  destruct (sm !! id) as [mm|] eqn:E; [|done]. specialize (Hs id mm E). split; intros [_ Hj]; exfalso; lia.
Qed.

Lemma overlay_slot_ext sm m m' n j : slot_values m n j = slot_values m' n j -> slot_values (overlay sm m) n j = slot_values (overlay sm m') n j.
Proof.
  intros Hs. apply map_eq. intros id. apply (f_equal (fun f : Values => f !! id)) in Hs. apply option_eq. intros v.
  unfold values_at in *. rewrite !map_lookup_filter_Some, !lookup_overlay. destruct (sm !! id); [done|].
  pose proof (map_lookup_filter_Some (fun '(id, _) => slot_for id n = j) m id v) as E1.
  pose proof (map_lookup_filter_Some (fun '(id, _) => slot_for id n = j) m' id v) as E2. rewrite <- E1, <- E2. by rewrite Hs.
Qed.

(** The pages of a type, one after the other. *)
Lemma drain_slots_run k L : forall s G x d m acc,
  pages_ok s G x -> G !! k = Some (d, m) -> NoDup (map fst L) -> (forall t, t ∈ L -> batch_ok d m t) ->
  used_blocks s + lsum group_size L * one_budget <= 2 ^ 48 ->
  exists r s' d', st_foldl (drain_slot k) acc L s = (r, s') /\ slot_count d' = slot_count d /\
  match r with
  | Done acc' => exists x' cs, acc' = {| resizes := resizes acc; commits := commits acc ++ cs; added := added acc |} /\
      settled s G x s' (<[k := (d', overlays m L)]> G) x' cs (lsum group_size L * one_budget) /\
      Forall (fun c => c.1.1 = k /\ 0 <= c.1.2 < slot_count d) cs
  | Fail _ => exists L1 t L2, L = L1 ++ t :: L2 /\ gave_up s s' (<[k := (d', overlays m L1)]> G) /\
      ~ roomy (slot_values (overlay t.2 m) (slot_count d) (Z.to_nat t.1))
  | Fault => False
  end.
Proof.
  induction L as [|t L IH]; intros s G x d m acc Hp Hk Hn Hall Hb; simpl.
  - exists (Done acc), s, d. do 2 (split; [done|]). exists x, []. rewrite app_nil_r, insert_id by done.
    split; [by destruct acc|]. split; [by apply settled_refl|done].
  - apply NoDup_cons in Hn as [Hnt Hn]. change (lsum group_size (t :: L)) with (group_size t.2 + lsum group_size L) in *.
    pose proof (Hall t ltac:(by left)) as Ht.
    assert (0 <= lsum group_size L) as Hpos.
    { clear. induction L as [|u L IH]; simpl; [done|]. unfold group_size at 1. lia. }
    assert (forall u, u ∈ L -> u.1 <> t.1) as Hnew by (intros u Hu E; apply Hnt, list_elem_of_fmap; by exists u).
    pose proof Ht as (Hti & _ & Hids & _). unfold slot_of in Hids.
    assert (forall u, u ∈ L -> slot_values (overlay t.2 m) (slot_count d) (Z.to_nat u.1) = slot_values m (slot_count d) (Z.to_nat u.1)) as Hother.
    { intros u Hu. apply (overlay_slot_other _ _ _ t.1); [intros id mm Hm; by destruct (Hids id mm Hm) as (_ & _ & ?)|].
      destruct (Hall u ltac:(by right)) as (? & _). specialize (Hnew u Hu). lia. }
    destruct (drain_slot_run s G x k d m acc t Hp Hk Ht) as (r1 & s1 & d1 & E1 & Ec1 & H1); [unfold one_budget in *; lia|].
    unfold st_bind. rewrite E1. destruct r1 as [acc1|e|]; [| |done].
    + destruct H1 as (x1 & c & -> & H1).
      destruct (IH s1 (<[k := (d1, overlay t.2 m)]> G) x1 d1 (overlay t.2 m)
        {| resizes := resizes acc; commits := commits acc ++ [(k, t.1, c)]; added := added acc |}) as (r & s' & d' & E2 & Ec2 & H2).
      * by apply H1.
      * by rewrite lookup_insert_eq.
      * done.
      * intros u Hu. destruct (Hall u ltac:(by right)) as (Hi & Hsz & Hids' & Hcost). unfold batch_ok, slot_of. rewrite Ec1.
        split; [done|]. split; [done|]. split; [exact Hids'|]. erewrite overlay_slot_ext; [exact Hcost|]. by apply Hother.
      * pose proof (se_used _ _ _ _ _ _ _ _ H1). lia.
      * exists r, s', d'. split; [exact E2|]. split; [congruence|]. destruct r as [acc'|e|]; [| |done].
        -- destruct H2 as (x' & cs & -> & H2 & Hcs). exists x', ((k, t.1, c) :: cs). cbn [resizes commits added].
           rewrite <- (assoc_L (++)). split; [done|]. rewrite insert_insert_eq in H2. split.
           ++ pose proof (settled_trans _ _ _ _ _ _ _ _ _ _ _ _ _ H1 H2) as H3. rewrite <- Z.mul_add_distr_r in H3. exact H3.
           ++ constructor; [by split; [|apply Ht]|]. eapply Forall_impl; [exact Hcs|]. intros c'. by rewrite Ec1.
        -- destruct H2 as (L1 & u & L2 & -> & [Hsame Hpo] & Hnr). rewrite insert_insert_eq in Hpo. rewrite Ec1 in Hnr.
           exists (t :: L1), u, L2. split; [done|]. split; [split; [transitivity s1; [apply H1|done]|done]|].
           intros Hroom. apply Hnr. erewrite overlay_slot_ext; [exact Hroom|]. apply Hother, elem_of_app. right. by left.
    + destruct H1 as [Hg Hnr]. exists (Fail e), s1, d1. split; [done|]. split; [done|]. by exists [], t, L.
Qed.

(** ** Settling every type *)

Definition vals (G : Holdings) (k : DirKey) : Values := from_option snd ∅ (G !! k).
Definition add_dir (SM : Layout) (t : DirKey * Z) : Layout := <[t.1 := replicate (Z.to_nat t.2) DESC_EMPTY]> SM.

(** No directory goes or changes size. *)
Definition grown (G G' : Holdings) : Prop :=
  forall k t, G !! k = Some t -> exists t', G' !! k = Some t' /\ slot_count t'.1 = slot_count t.1.

#[export] Instance grown_preorder : PreOrder grown.
Proof.
  split; [by intros G k t Hk; exists t|]. intros G1 G2 G3 H1 H2 k t Hk. destruct (H1 k t Hk) as (t2 & Hk2 & <-). by apply H2.
Qed.

Definition in_range (G : Holdings) (c : DirKey * Z * SlotCommit) : Prop :=
  exists t, G !! c.1.1 = Some t /\ 0 <= c.1.2 < slot_count t.1.

Lemma in_range_grown G G' c : grown G G' -> in_range G c -> in_range G' c.
Proof. intros Hg (t & Ht & Hr). destruct (Hg _ _ Ht) as (t' & Ht' & E). exists t'. by rewrite E. Qed.

(** The work of a drain between two states, with what it adds to the account. *)
Record drains (s : PagedStore) (G : Holdings) (x : Regions) (s' : PagedStore) (G' : Holdings) (x' : Regions)
    (dr : Drained) (budget : Z) : Prop := {
  ds_rest : same_rest s s';
  ds_counts : drained_counts s' = drained_counts s;
  ds_pages : pages_ok s' G' x';
  ds_used : used_blocks s <= used_blocks s' <= used_blocks s + budget;
  ds_commits : Forall commit_ok (commits dr);
  ds_known : Forall (in_range G') (commits dr);
  ds_resizes : Forall (fun t => key_fits t.1 /\ fits 32 t.2 /\ G !! t.1 = None /\ is_Some (G' !! t.1)) (resizes dr);
  ds_fresh : NoDup (map fst (resizes dr));
  ds_grows : grown G G';
  ds_layout : layout G' = foldl commit_desc (foldl add_dir (layout G) (resizes dr)) (commits dr);
  ds_ledger : lens x' = replay_events (commits_events (commits dr)) (lens x)
}.

Definition drained_app (a b : Drained) : Drained :=
  {| resizes := resizes a ++ resizes b; commits := commits a ++ commits b; added := added a ++ added b |}.

Lemma add_commit_comm SM t c : t.1 <> c.1.1 -> add_dir (commit_desc SM c) t = commit_desc (add_dir SM t) c.
Proof.
  intros Hne. unfold add_dir, commit_desc. apply map_eq. intros k.
  destruct (decide (k = t.1)) as [->|H1].
  - by rewrite lookup_insert_eq, lookup_alter_ne, lookup_insert_eq by congruence.
  - rewrite lookup_insert_ne by congruence. destruct (decide (k = c.1.1)) as [->|H2].
    + by rewrite !lookup_alter_eq, lookup_insert_ne by congruence.
    + by rewrite !lookup_alter_ne, lookup_insert_ne by congruence.
Qed.

Lemma adds_commits_comm SM rs cs : (forall t c, t ∈ rs -> c ∈ cs -> t.1 <> c.1.1) ->
  foldl add_dir (foldl commit_desc SM cs) rs = foldl commit_desc (foldl add_dir SM rs) cs.
Proof.
  revert SM. induction rs as [|t rs IH]; intros SM Hne; simpl; [done|]. rewrite <- IH.
  - f_equal. clear IH. revert SM. induction cs as [|c cs IHc]; intros SM; simpl; [done|].
    rewrite IHc by (intros; apply Hne; [done|by right]). f_equal. apply add_commit_comm. apply Hne; by left.
  - intros t' c Ht' Hc. apply Hne; [by right|done].
Qed.

Lemma drains_trans s1 G1 x1 s2 G2 x2 s3 G3 x3 d1 d2 b1 b2 :
  drains s1 G1 x1 s2 G2 x2 d1 b1 -> drains s2 G2 x2 s3 G3 x3 d2 b2 -> drains s1 G1 x1 s3 G3 x3 (drained_app d1 d2) (b1 + b2).
Proof.
  intros [R1 C1 P1 U1 K1 N1 Z1 F1 W1 L1 E1] [R2 C2 P2 U2 K2 N2 Z2 F2 W2 L2 E2].
  rewrite Forall_forall in N1. rewrite Forall_forall in Z1. rewrite Forall_forall in Z2.
  constructor; simpl; try done; try lia; try congruence.
  - by etransitivity.
  - by apply Forall_app_2.
  - apply Forall_app_2; [|done]. apply Forall_forall. intros c Hc. eapply in_range_grown; [exact W2|by apply N1].
  - apply Forall_app_2; apply Forall_forall; intros t Ht.
    + destruct (Z1 t Ht) as (? & ? & ? & [u Hu]). split_and!; try done. destruct (W2 _ _ Hu) as (u' & Hu' & _). by eexists.
    + destruct (Z2 t Ht) as (? & ? & Hn & ?). split_and!; try done. destruct (G1 !! t.1) as [u|] eqn:E; [|done].
      destruct (W1 _ _ E) as (? & ? & _). congruence.
  - rewrite map_app. apply NoDup_app. split; [done|]. split; [|done].
    intros k (t & -> & Ht)%list_elem_of_fmap (t' & E & Ht')%list_elem_of_fmap.
    destruct (Z1 t Ht) as (_ & _ & _ & [u Hu]). destruct (Z2 t' Ht') as (_ & _ & Hn & _). congruence.
  - by etransitivity.
  - rewrite !foldl_app, <- (adds_commits_comm _ (resizes d2)); [by rewrite L2, L1|].
    intros t c Ht Hc E. destruct (N1 c Hc) as (u & Hg & _).
    destruct (Z2 t Ht) as (_ & _ & Hg' & _). rewrite E in Hg'. congruence.
  - unfold commits_events in *. rewrite map_app, concat_app, replay_events_app. congruence.
Qed.

Definition type_ok (s : PagedStore) (G : Holdings) (t : DirKey * Mutations) : Prop :=
  key_fits t.1 /\ (forall id mm, t.2 !! id = Some mm -> fits 128 id /\ value_fits mm) /\
  let n := match G !! t.1 with Some (d, _) => slot_count d | None => default_slots s end in
  forall i, cost (slot_values (overlay t.2 (vals G t.1)) n i) <= 2 ^ 31.

(** Every page of the type has room for what it will hold. *)
Definition type_roomy (s : PagedStore) (G : Holdings) (t : DirKey * Mutations) : Prop :=
  let n := match G !! t.1 with Some (d, _) => slot_count d | None => default_slots s end in
  forall i, roomy (slot_values (overlay t.2 (vals G t.1)) n i).

(** What a type is left with when one of its pages is too large: that page, of a
    pending record, as it was, and every record as it was or as it should be. *)
Definition stopped (n : Z) (muts : Mutations) (m m' : Values) : Prop :=
  (forall id, m' !! id = m !! id \/ m' !! id = overlay muts m !! id) /\
  exists id, is_Some (muts !! id) /\ ~ roomy (slot_values (overlay muts m) n (slot_for id n)) /\
    forall id', slot_for id' n = slot_for id n -> m' !! id' = m !! id'.

Lemma by_slot_values d muts m i sm : by_slot d muts !! Z.of_nat i = Some sm ->
  slot_values (overlay sm m) (slot_count d) i = slot_values (overlay muts m) (slot_count d) i.
Proof.
  intros Hs. apply map_eq. intros id. apply option_eq. intros v. unfold values_at.
  rewrite !map_lookup_filter_Some, !lookup_overlay. pose proof (fun mm => by_slot_spec d muts (Z.of_nat i) sm id mm Hs) as Hsp.
  unfold slot_of in Hsp. split; intros [Hv Hi]; (split; [|done]); rewrite <- Hi in Hsp.
  - destruct (sm !! id) as [mm|]; [by destruct (proj1 (Hsp mm) eq_refl) as [-> _]|].
    destruct (muts !! id) as [mm|]; [|done]. by pose proof (proj2 (Hsp mm) (conj eq_refl eq_refl)).
  - destruct (sm !! id) as [mm|]; [by destruct (proj1 (Hsp mm) eq_refl) as [E _]; rewrite E in Hv|].
    destruct (muts !! id) as [mm|]; [|done]. by pose proof (proj2 (Hsp mm) (conj eq_refl eq_refl)).
Qed.

Lemma by_slot_batches d muts m :
  0 < slot_count d -> (forall id mm, muts !! id = Some mm -> fits 128 id /\ value_fits mm) ->
  (forall i, cost (slot_values (overlay muts m) (slot_count d) i) <= 2 ^ 31) ->
  forall t, t ∈ by_key (by_slot d muts) -> batch_ok d m t.
Proof.
  intros Hc Hm Hroom [k sm] Hin%elem_of_ordered. pose proof (by_slot_range d muts k sm Hc Hin) as Hk. unfold batch_ok. cbn [fst snd].
  split; [done|]. split; [|split].
  - rewrite by_slot_group in Hin. pose proof Hin as Hin'. apply group_keys in Hin' as [[? Hs]|(id & Hid & Ek)]; [by rewrite lookup_empty in Hs|].
    apply elem_of_map_keys in Hid as (mm & Hmm). destruct (by_slot_cover d muts id mm Hmm) as (sm' & Hs & Hsm).
    unfold slot_of in Hs. rewrite <- Ek, by_slot_group, Hin in Hs. injection Hs as <-. unfold group_size.
    destruct (decide (sm = ∅)) as [->|Hne]; [by rewrite lookup_empty in Hsm|].
    assert (size sm <> O) by (intros E%map_size_empty_iff; done). lia.
  - intros id mm Hid. apply (by_slot_spec d muts k sm id mm Hin) in Hid as [Hid Hs]. by destruct (Hm id mm Hid).
  - replace k with (Z.of_nat (Z.to_nat k)) in Hin by lia. by rewrite (by_slot_values d muts m _ sm Hin).
Qed.

(** A type whose batches stop at one page. *)
Lemma batches_stop d muts m L1 t L2 :
  0 < slot_count d -> by_key (by_slot d muts) = L1 ++ t :: L2 -> 0 < group_size t.2 ->
  ~ roomy (slot_values (overlay t.2 m) (slot_count d) (Z.to_nat t.1)) ->
  stopped (slot_count d) muts m (overlays m L1).
Proof.
  intros Hc EL Hsz Hnr. pose proof (NoDup_ordered Z.leb (by_slot d muts)) as Hnd. rewrite EL, map_app in Hnd.
  apply NoDup_app in Hnd as (_ & Hnd & _).
  assert (forall u, u ∈ L1 ++ t :: L2 -> by_slot d muts !! u.1 = Some u.2) as Hin.
  { intros [k sm]. rewrite <- EL. by intros ?%elem_of_ordered. }
  assert (forall u, u ∈ L1 -> by_slot d muts !! u.1 = Some u.2) as Hin1 by (intros u Hu; apply Hin, elem_of_app; by left).
  pose proof (Hin t ltac:(apply elem_of_app; right; by left)) as Ht.
  assert (forall id, overlays m L1 !! id = match list_find (fun t => is_Some (t.2 !! id)) L1 with
      | Some (_, t) => match t.2 !! id with Some mm => mm | None => m !! id end | None => m !! id end) as Hl.
  { intros id. apply lookup_overlays. intros u mm Hu Hm u' mm' Hu' Hm'.
    apply (by_slot_spec d muts u.1 u.2 id mm (Hin1 u Hu)) in Hm as [Hm _].
    apply (by_slot_spec d muts u'.1 u'.2 id mm' (Hin1 u' Hu')) in Hm' as [Hm' _]. congruence. }
  assert (forall id j u, list_find (fun t : Z * Mutations => is_Some (t.2 !! id)) L1 = Some (j, u) ->
      u ∈ L1 /\ exists mm, u.2 !! id = Some mm /\ muts !! id = Some mm /\ Z.of_nat (slot_of d id) = u.1) as Hf.
  { intros id j u (Hj%list_elem_of_lookup_2 & [mm Hmm] & _)%list_find_Some. split; [done|]. exists mm. split; [done|].
    by apply (by_slot_spec d muts u.1 u.2 id mm (Hin1 u Hj)). }
  split.
  - intros id. rewrite Hl. destruct (list_find _ L1) as [[j u]|] eqn:E; [|by left].
    destruct (Hf id j u E) as (_ & mm & -> & Hm & _). right. by rewrite lookup_overlay, Hm.
  - destruct (map_choose t.2) as (id & mm & Hid); [intros E; rewrite E in Hsz; by vm_compute in Hsz|].
    apply (by_slot_spec d muts t.1 t.2 id mm Ht) in Hid as [Hid Hs]. unfold slot_of in Hs.
    exists id. split; [by exists mm|]. rewrite <- Hs, Nat2Z.id in Hnr. split.
    + rewrite <- (by_slot_values d muts m _ t.2); [done|]. by rewrite Hs.
    + intros id' Hid'. rewrite Hl. destruct (list_find _ L1) as [[j u]|] eqn:E; [|done].
      destruct (Hf id' j u E) as (Hu & _ & _ & _ & Hs'). unfold slot_of in Hs'. rewrite Hid', Hs in Hs'.
      exfalso. apply (Hnd t.1); [apply list_elem_of_fmap; by exists u|by left].
Qed.

Lemma drain_type_run s G x acc t :
  pages_ok s G x -> 0 < default_slots s < 2 ^ 32 -> type_ok s G t -> 
  used_blocks s + Z.of_nat (size t.2) * one_budget <= 2 ^ 48 ->
  exists r s' G', drain_type acc t s = (r, s') /\ (forall k, k <> t.1 -> G' !! k = G !! k) /\
  match r with
  | Done acc' => exists x' dr, acc' = drained_app acc dr /\
      drains s G x s' G' x' dr (Z.of_nat (size t.2) * one_budget) /\ added dr = [(t.1, upserts t.2)] /\
      (forall k, vals G' k = if decide (k = t.1) then overlay t.2 (vals G k) else vals G k) /\
      is_Some (G' !! t.1)
  | Fail _ => gave_up s s' G' /\
      stopped (match G !! t.1 with Some (d, _) => slot_count d | None => default_slots s end) t.2 (vals G t.1) (vals G' t.1)
  | Fault => False
  end.
Proof.
  intros Hp Hs (Hk & Hm & Hroom) Hb. destruct t as [k muts]. cbn [fst snd] in *.
  (* the directory, there or new *)
  assert (exists s1 G1 d m (new : bool), entry_dir k s = (Done (d, new), s1) /\ pages_ok s1 G1 x /\ G1 !! k = Some (d, m) /\
    m = vals G k /\ same_rest s s1 /\ drained_counts s1 = drained_counts s /\ used_blocks s1 = used_blocks s /\
    (forall k', k' <> k -> G1 !! k' = G !! k') /\ 0 < slot_count d < 2 ^ 32 /\
    (match G !! k with Some (d, _) => slot_count d | None => default_slots s end) = slot_count d /\
    (if new then G !! k = None /\ layout G1 = add_dir (layout G) (k, slot_count d) else G1 = G)) as
    (s1 & G1 & d & m & new & E1 & Hp1 & Hk1 & -> & Hr1 & Hc1 & Hu1 & Ho1 & Hcnt & En & Hnew).
  { unfold entry_dir, st_bind, st_gets. unfold vals. rewrite (po_dirs _ _ _ Hp), lookup_fmap.
    destruct (G !! k) as [[d m]|] eqn:EG.
    - exists s, G, d, m, false. simpl. split; [done|]. split; [done|]. split; [done|]. split; [done|]. split; [done|].
      do 3 (split; [done|]). split; [|done]. pose proof (po_own _ _ _ Hp) as Ho.
      destruct (owns_elem dir_at (map_to_list G) x (k, (d, m))) as (xd & (Hh & _ & _ & Hc) & _); [by apply elem_of_map_to_list|done|].
      split; [by eapply dir_holds_count|done].
    - destruct (pages_ok_new s G x k Hp EG) as (d & Ed & Ec & Esl & Hp1); [apply Hk|apply Hk|done|].
      rewrite <- (po_dirs _ _ _ Hp). cbn [fmap option_fmap option_map]. unfold st_lift, st_modify, st_ret. rewrite Ed.
      exists (with_dirs (<[k := d]> (ps_dirs s)) s), (<[k := (d, ∅)]> G), d, ∅, true.
      split; [done|]. split; [done|]. split; [by rewrite lookup_insert_eq|]. split; [done|]. split; [by constructor|].
      do 2 (split; [done|]). split; [intros k' Hne; by rewrite lookup_insert_ne|]. rewrite Ec. split; [done|]. split; [done|].
      split; [done|]. unfold layout, add_dir. rewrite fmap_insert. simpl. by rewrite Esl. }
  rewrite En in Hroom. unfold drain_type. unfold st_bind at 1. rewrite E1. cbn [fst snd].
  set (acc1 := {| resizes := _ |}).
  pose proof (by_slot_batches d muts (vals G k) (proj1 Hcnt) Hm Hroom) as Hbatch.
  assert (lsum group_size (by_key (by_slot d muts)) = Z.of_nat (size muts)) as Etot by by rewrite msum_ordered, by_slot_total.
  destruct (drain_slots_run k (by_key (by_slot d muts)) s1 G1 x d (vals G k) acc1 Hp1 Hk1) as (r & s' & d' & E2 & Ec2 & H2).
  { apply NoDup_ordered. } { exact Hbatch. } { rewrite Etot, Hu1. done. }
  rewrite E2. destruct r as [acc'|e|]; [| |done].
  - destruct H2 as (x' & cs & -> & H2 & Hcs). rewrite overlays_by_slot, Etot in *. destruct H2 as [].
    eexists (Done _), s', (<[k := (d', overlay muts (vals G k))]> G1). split; [done|].
    split; [intros k' Hne; by rewrite lookup_insert_ne, Ho1 by congruence|].
    exists x', {| resizes := if new then [(k, slot_count d)] else []; commits := cs; added := [(k, upserts muts)] |}.
    split; [|split; [|split; [done|split]]].
    + unfold drained_app, acc1. simpl. destruct new; [done|by rewrite app_nil_r].
    + constructor; simpl; try done; try lia; try congruence.
      * by transitivity s1.
      * eapply Forall_impl; [exact Hcs|]. intros c [E Hr]. exists (d', overlay muts (vals G k)). rewrite E, lookup_insert_eq. simpl. by rewrite Ec2.
      * destruct new; [|done]. apply Forall_singleton. simpl. rewrite lookup_insert_eq. split; [done|]. split; [unfold fits; lia|]. split; [apply Hnew|done].
      * destruct new; [apply NoDup_singleton|apply NoDup_nil_2].
      * intros k' t' Hk'. destruct (decide (k' = k)) as [->|Hne].
        -- rewrite lookup_insert_eq. eexists. split; [done|]. rewrite Hk' in En. destruct t' as [d0 m0]. simpl in *. congruence.
        -- rewrite lookup_insert_ne, Ho1 by congruence. by exists t'.
      * rewrite se_layout0. destruct new; [by destruct Hnew as [_ ->]|by subst].
    + intros k'. unfold vals at 1. case_decide as Hd; [subst; by rewrite lookup_insert_eq|].
      rewrite lookup_insert_ne, Ho1 by congruence. done.
    + by rewrite lookup_insert_eq.
  - destruct H2 as (L1 & u & L2 & EL & [Hsame Hpo] & Hnr).
    exists (Fail e), s', (<[k := (d', overlays (vals G k) L1)]> G1). split; [done|].
    split; [intros k' Hne; by rewrite lookup_insert_ne, Ho1 by congruence|].
    split; [by split; [transitivity s1|]|]. unfold vals at 2. rewrite lookup_insert_eq, En. cbn [from_option snd].
    apply (batches_stop d muts (vals G k) L1 u L2); [apply Hcnt|done| |done].
    apply (Hbatch u). rewrite EL. apply elem_of_app. right. by left.
Qed.

(** ** Settling all types *)

Abbreviation no_drained := {| resizes := []; commits := []; added := [] |}.

Lemma drains_refl s G x : pages_ok s G x -> drains s G x s G x no_drained 0.
Proof. intros Hp. constructor; simpl; try done; [lia|apply NoDup_nil_2]. Qed.

Definition settled_vals (p : PendingRecords) (G : Holdings) (k : DirKey) : Values :=
  match p !! k with Some muts => overlay muts (vals G k) | None => vals G k end.

Definition muts_size (muts : Mutations) : Z := Z.of_nat (size muts).

Lemma lsum_nonneg {K A} (f : A -> Z) (l : list (K * A)) : (forall a, 0 <= f a) -> 0 <= lsum f l.
Proof. intros Hf. induction l as [|t l IH]; simpl; [done|]. specialize (Hf t.2). lia. Qed.

(** What the types are left with when one of them stops. *)
Definition types_stopped (L : list (DirKey * Mutations)) (n : DirKey -> Z) (G G' : Holdings) : Prop :=
  (forall k id, vals G' k !! id = vals G k !! id \/ vals G' k !! id = settled_vals (list_to_map L) G k !! id) /\
  exists t, t ∈ L /\ stopped (n t.1) t.2 (vals G t.1) (vals G' t.1).

(** The slots a type's directory has, or will have. *)
Definition slots_of (s : PagedStore) (G : Holdings) (k : DirKey) : Z :=
  match G !! k with Some (d, _) => slot_count d | None => default_slots s end.

Lemma settle_types_run L : forall s G x acc,
  pages_ok s G x -> 0 < default_slots s < 2 ^ 32 -> NoDup (map fst L) -> (forall t, t ∈ L -> type_ok s G t) ->
  used_blocks s + lsum muts_size L * one_budget <= 2 ^ 48 ->
  exists r s' G', st_foldl drain_type acc L s = (r, s') /\
  match r with
  | Done acc' => exists x' dr, acc' = drained_app acc dr /\
      drains s G x s' G' x' dr (lsum muts_size L * one_budget) /\ added dr = map (fun t => (t.1, upserts t.2)) L /\
      (forall k, vals G' k = settled_vals (list_to_map L) G k) /\
      (forall k, k ∈ map fst L -> is_Some (G' !! k))
  | Fail _ => gave_up s s' G' /\ types_stopped L (slots_of s G) G G'
  | Fault => False
  end.
Proof.
  induction L as [|t L IH]; intros s G x acc Hp Hs Hn Hall Hb; simpl.
  - exists (Done acc), s, G. split; [done|]. exists x, no_drained. split; [|split; [by apply drains_refl|split; [done|split; [done|]]]].
    + unfold drained_app. simpl. rewrite !app_nil_r. by destruct acc.
    + by intros k ?%elem_of_nil.
  - apply NoDup_cons in Hn as [Hnt Hn]. change (lsum muts_size (t :: L)) with (muts_size t.2 + lsum muts_size L) in *.
    assert (0 <= lsum muts_size L) as Hpos by (apply lsum_nonneg; unfold muts_size; lia). unfold muts_size at 1 in Hb.
    assert (forall u, u ∈ L -> u.1 <> t.1) as Hne by (intros u Hu E; apply Hnt, list_elem_of_fmap; by exists u).
    assert (forall k, settled_vals (list_to_map (t :: L)) G k = if decide (k = t.1) then overlay t.2 (vals G k) else settled_vals (list_to_map L) G k) as Hcons.
    { intros k. unfold settled_vals. destruct t as [kt muts]. cbn [list_to_map foldr fst snd]. case_decide as Hd; [subst; by rewrite lookup_insert_eq|by rewrite lookup_insert_ne]. }
    unfold st_bind. destruct (drain_type_run s G x acc t Hp Hs (Hall t ltac:(by left))) as (r1 & s1 & G1 & E1 & O1 & H1);
      [unfold one_budget in *; lia|]. rewrite E1.
    assert (forall k, k <> t.1 -> vals G1 k = vals G k) as V0 by (intros k Hk; unfold vals; by rewrite O1).
    destruct r1 as [acc1|e|]; [| |done].
    2:{ destruct H1 as [Hg Hst]. exists (Fail e), s1, G1. split; [done|]. split; [done|]. split.
        - intros k id. rewrite Hcons. case_decide as Hd; [subst; apply Hst|]. left. by rewrite V0.
        - exists t. split; [by left|]. exact Hst. }
    destruct H1 as (x1 & dr1 & -> & H1 & A1 & V1 & K1).
    pose proof (ds_rest _ _ _ _ _ _ _ _ H1) as Hr. pose proof (ds_used _ _ _ _ _ _ _ _ H1) as Hu.
    destruct (IH s1 G1 x1 (drained_app acc dr1)) as (r & s' & G' & E2 & H2); try done.
    + by apply H1.
    + by rewrite (sm_slots _ _ Hr).
    + intros u Hu'. destruct (Hall u ltac:(by right)) as (Hk & Hm & Hroom). split; [done|]. split; [done|].
      rewrite O1, (sm_slots _ _ Hr), V0 by by apply Hne. exact Hroom.
    + lia.
    + assert (forall k, k <> t.1 -> settled_vals (list_to_map L) G1 k = settled_vals (list_to_map L) G k) as Hsv
        by (intros k Hk; unfold settled_vals; by rewrite V0).
      assert (settled_vals (list_to_map L) G1 t.1 = overlay t.2 (vals G t.1)) as Hst.
      { unfold settled_vals. rewrite not_elem_of_list_to_map_1 by done. by rewrite V1, decide_True. }
      exists r, s', G'. split; [exact E2|]. destruct r as [acc'|e|]; [| |done].
      * destruct H2 as (x' & dr2 & -> & H2 & A2 & V2 & K2). exists x', (drained_app dr1 dr2). split; [|split; [|split; [|split]]].
        -- unfold drained_app. simpl. by rewrite <- !(assoc_L (++)).
        -- pose proof (drains_trans _ _ _ _ _ _ _ _ _ _ _ _ _ H1 H2) as H3. rewrite <- Z.mul_add_distr_r in H3. exact H3.
        -- simpl. by rewrite A1, A2.
        -- intros k. rewrite V2, Hcons. case_decide as Hd; [by subst|by apply Hsv].
        -- intros k [->|Hk]%elem_of_cons; [|by apply K2].
           destruct K1 as [u Huk]. destruct (ds_grows _ _ _ _ _ _ _ _ H2 _ _ Huk) as (u' & Huk' & _). by eexists.
      * destruct H2 as [[Hsame Hpo] [Hany (u & Hu' & Hstop)]]. split; [by split; [transitivity s1|]|]. split.
        -- intros k id. rewrite Hcons. destruct (Hany k id) as [E|E]; case_decide as Hd.
           ++ subst k. rewrite E, V1, decide_True by done. by right.
           ++ left. by rewrite E, V0.
           ++ subst k. right. by rewrite E, Hst.
           ++ right. by rewrite E, Hsv.
        -- exists u. split; [by right|]. pose proof (Hne u Hu') as Hk. rewrite V0 in Hstop by done. unfold slots_of in *.
           by rewrite O1, (sm_slots _ _ Hr) in Hstop.
Qed.

Lemma settle_run s G x p :
  pages_ok s G x -> 0 < default_slots s < 2 ^ 32 -> (forall k muts, p !! k = Some muts -> type_ok s G (k, muts)) ->
  used_blocks s + msum muts_size p * one_budget <= 2 ^ 48 ->
  exists r s' G', settle p s = (r, s') /\
  match r with
  | Done dr => exists x', drains s G x s' G' x' dr (msum muts_size p * one_budget) /\
      added dr = map (fun t => (t.1, upserts t.2)) (by_pair p) /\
      (forall k, vals G' k = settled_vals p G k) /\ (forall k, is_Some (p !! k) -> is_Some (G' !! k))
  | Fail _ => gave_up s s' G' /\
      (forall k id, vals G' k !! id = vals G k !! id \/ vals G' k !! id = settled_vals p G k !! id) /\
      exists k muts, p !! k = Some muts /\ stopped (slots_of s G k) muts (vals G k) (vals G' k)
  | Fault => False
  end.
Proof.
  intros Hp Hs Hall Hb. rewrite <- (msum_ordered muts_size pair_le) in Hb.
  destruct (settle_types_run (by_pair p) s G x no_drained) as (r & s' & G' & E & H1); try done.
  - apply NoDup_ordered.
  - intros [k muts] Hin%elem_of_ordered. by apply Hall.
  - assert (forall k, settled_vals (list_to_map (by_pair p)) G k = settled_vals p G k) as Hsv
      by (intros k; by rewrite ordered_list_to_map).
    exists r, s', G'. split; [exact E|]. destruct r as [dr|e|]; [| |done].
    + destruct H1 as (x' & dr' & -> & H1 & A1 & V1 & K1). exists x'. rewrite <- (msum_ordered muts_size pair_le).
      replace (drained_app no_drained dr') with dr' by by destruct dr'.
      split; [done|]. split; [done|]. split; [intros k; by rewrite V1|].
      intros k [muts Hk]. apply K1. apply list_elem_of_fmap. exists (k, muts). split; [done|]. by apply elem_of_ordered.
    + destruct H1 as (Hg & Hany & [k muts] & Hin & Hst). split; [done|]. split; [intros k' id; rewrite <- Hsv; apply Hany|].
      apply elem_of_ordered in Hin. by exists k, muts.
Qed.
End settle.
