(* ===== verification/StoreTrain.v ===== *)
(** * Training dictionaries after a drain

    Training reads the pages and writes one new page; the records stay as they
    were. *)
From S2P Require Import Prelude Ordered Wire Errors BlockAlloc BlockAllocOk BlockFile Regions PageDir Codec Dict HeapStore SlotPage SlotPageOk Directory DirectoryOk DirectoryMap DirectoryDict PageJournal PageJournalOk PagedStore StoreParts StoreDrain.

Section train.
Context `{CodecLaws}.

(** The most blocks one dictionary takes. *)
Definition dict_budget : Z := 4.

Definition install_events (l : list (DirKey * DictRef)) : list Event := map (fun t => Took (ref_run t.2)) l.

(** The work of training between two states: [inst] was installed. *)
Record trains (s : PagedStore) (G : Holdings) (x : Regions) (s' : PagedStore) (G' : Holdings) (x' : Regions)
    (inst : list (DirKey * DictRef)) (budget : Z) : Prop := {
  tr_rest : same_rest s s';
  tr_pages : pages_ok s' G' x';
  tr_used : used_blocks s <= used_blocks s' <= used_blocks s + budget;
  tr_installs : Forall (fun t => key_fits t.1 /\ fits 64 t.2) inst;
  tr_layout : layout G' = layout G;
  tr_vals : forall k, vals G' k = vals G k;
  tr_ledger : lens x' = replay_events (install_events inst) (lens x)
}.

Lemma trains_refl s G x : pages_ok s G x -> trains s G x s G x [] 0.
Proof. intros Hp. constructor; try done; lia. Qed.

Lemma trains_trans s1 G1 x1 s2 G2 x2 s3 G3 x3 i1 i2 b1 b2 :
  trains s1 G1 x1 s2 G2 x2 i1 b1 -> trains s2 G2 x2 s3 G3 x3 i2 b2 -> trains s1 G1 x1 s3 G3 x3 (i1 ++ i2) (b1 + b2).
Proof.
  intros [R1 P1 U1 I1 L1 V1 E1] [R2 P2 U2 I2 L2 V2 E2]. constructor; try done; try lia; try congruence.
  - by etransitivity.
  - by apply Forall_app_2.
  - unfold install_events in *. rewrite map_app, replay_events_app. congruence.
Qed.

Lemma trains_steps s G x s' G' x' inst b b' : trains s G x s' G' x' inst b -> b <= b' -> trains s G x s' G' x' inst b'.
Proof. intros [] Hb. constructor; try done; lia. Qed.

(** Changing what is not on the pages. *)
Lemma pages_ok_counts s G x c : pages_ok s G x -> pages_ok (with_counts c s) G x.
Proof. intros []. by constructor. Qed.

Lemma trains_counts s G x s' G' x' inst b c : trains (with_counts c s) G x s' G' x' inst b -> trains s G x s' G' x' inst b.
Proof. intros [[] ? ? ? ? ? ?]. by repeat (constructor; try done). Qed.

(** A directory's dictionaries changed. *)
Lemma trains_dir s G x s' xd x' k d m s0 inst b :
  pages_ok s G x -> G !! k = Some (d, m) -> dir_at (k, (d, m)) xd ->
  same_rest s s' -> pages_ok s' (<[k := (with_dicts s0 d, m)]> G) x' ->
  used_blocks s <= used_blocks s' <= used_blocks s + b -> Forall (fun t => key_fits t.1 /\ fits 64 t.2) inst ->
  lens x' = replay_events (install_events inst) (lens x) ->
  trains s G x s' (<[k := (with_dicts s0 d, m)]> G) x' inst b.
Proof.
  intros Hp Hk Hat Hr Hp' Hu Hi Hl. constructor; try done.
  - unfold layout. rewrite fmap_insert. cbn [fst]. apply insert_id. by rewrite lookup_fmap, Hk.
  - intros k'. unfold vals. destruct (decide (k' = k)) as [->|Hne]; [by rewrite lookup_insert_eq, Hk|by rewrite lookup_insert_ne].
Qed.

Lemma dir_at_key k d m xd : dir_at (k, (d, m)) xd -> key_fits k.
Proof. intros (Hh & E1 & E2 & _). rewrite (surjective_pairing k). cbn [fst snd] in *. rewrite <- E1, <- E2. exact (dir_holds_stamp d m xd Hh). Qed.

(** An operation that only reads. *)
Lemma reader_run {A} s G x k d m (op : ST (PageDirectory * BlockFile) StorageError A) P :
  pages_ok s G x -> G !! k = Some (d, m) ->
  (forall xd, dir_holds d m xd -> triple d xd op 0 (returns (fun r d' x' l =>
     P r /\ x' = xd /\ l = [] /\ dir_holds d' m xd /\ reread d d'))) ->
  exists r s' G' x' d', on_dir k op s = (Done r, s') /\ P r /\
    trains s G x s' G' x' [] 0 /\ drained_counts s' = drained_counts s /\ G' !! k = Some (d', m).
Proof.
  intros Hp Hk Hop. destruct (on_dir_run s G x k d m op 0
    (fun xd => returns (fun r d' x' l => P r /\ x' = xd /\ l = [] /\ dir_holds d' m xd /\ reread d d')) Hp Hk)
    as (r & d' & s' & xd0 & xd & xr & log & Hat & E & Hrest & Hcnt & Hused & Hl & HQ & Hf & Hdirs & Hback).
  { pose proof (bo_limit _ _ (po_file _ _ _ Hp)). unfold used_blocks, capacity_blocks. lia. }
  { intros xd (Hh & _). by apply Hop. }
  destruct r as [r|e|]; [|done|done]. destruct HQ as (HP & -> & -> & Hh' & s0 & -> & _).
  exists r, s', (<[k := (with_dicts s0 d, m)]> G), (xd0 ∪ xr), (with_dicts s0 d).
  split; [done|]. split; [done|]. split; [|split; [done|by rewrite lookup_insert_eq]].
  eapply trains_dir; try done. apply Hback. destruct Hat as (_ & ? & ? & ?). by split.
Qed.

Lemma install_run s G x k d m dict :
  pages_ok s G x -> G !! k = Some (d, m) -> zlen dict <= DICT_MAX_BYTES -> used_blocks s + dict_budget <= 2 ^ 48 ->
  exists r s' G' x', on_dir k (install_dictionary dict) s = (Done r, s') /\
    trains s G x s' G' x' [(k, r)] dict_budget /\ drained_counts s' = drained_counts s.
Proof.
  intros Hp Hk Hl0 Hb. pose proof (zlen_nonneg dict).
  assert (zlen dict / DATA_BLOCK_SIZE + 2 <= dict_budget) as Hblocks.
  { unfold DATA_BLOCK_SIZE, DICT_MAX_BYTES, dict_budget in *. pose proof (Z.div_le_mono (zlen dict) (8 * 1024) 4096).
    change (8 * 1024 / 4096) with 2 in *. lia. }
  destruct (on_dir_run s G x k d m (install_dictionary dict) dict_budget
    (fun xd => returns (fun r d' x' l => dir_holds d' m x' /\ fits 64 r /\ l = [Took (ref_run r)] /\ exists s, d' = with_dicts s d)) Hp Hk Hb)
    as (r & d' & s' & xd0 & xd & xr & log & Hat & E & Hrest & Hcnt & Hused & Hl & HQ & Hf & Hdirs & Hback).
  { intros xd (Hh & _). eapply triple_steps; [apply install_holds; [done|]|done].
    unfold DICT_MAX_BYTES in *. lia. }
  destruct r as [r|e|]; [|done|done]. destruct HQ as (Hh' & Hr & -> & s0 & ->).
  exists r, s', (<[k := (with_dicts s0 d, m)]> G), (xd ∪ xr).
  split; [done|]. split; [|done]. eapply trains_dir; try done.
  - apply Hback. destruct Hat as (_ & ? & ? & ?). by split.
  - apply Forall_singleton. split; [by eapply dir_at_key|done].
Qed.

Lemma layout_same G G' k : layout G' = layout G -> is_Some (G !! k) -> is_Some (G' !! k).
Proof.
  intros E [t Hk]. apply (f_equal (fun l => l !! k)) in E. unfold layout in E. rewrite !lookup_fmap, Hk in E.
  by destruct (G' !! k).
Qed.

(** One type's training. *)
Lemma train_due_run s G x installs k n :
  pages_ok s G x -> is_Some (G !! k) -> 0 <= default 0 (drained_counts s !! k) -> 0 <= n ->
  default 0 (drained_counts s !! k) + n < 2 ^ 64 -> used_blocks s + dict_budget <= 2 ^ 48 ->
  exists s' G' x' inst, train_due installs (k, n) s = (Done (installs ++ inst), s') /\
    trains s G x s' G' x' inst dict_budget /\
    drained_counts s' = <[k := default 0 (drained_counts s !! k) + n]> (drained_counts s).
Proof.
  intros Hp [[d m] Hk] Hold Hn Hsum Hb. unfold train_due, st_bind at 1, st_gets at 1.
  set (old := default 0 _) in *. rewrite uadd_done by (unfold fits; lia). unfold st_lift at 1, st_bind at 1, st_modify at 1.
  unfold st_bind at 1. set (s1 := with_counts _ s).
  pose proof (pages_ok_counts s G x (<[k := old + n]> (drained_counts s)) Hp) as Hp1. fold s1 in Hp1.
  set (ends := fun r : outcome StorageError (list (DirKey * DictRef)) * PagedStore => exists s' G' x' inst,
    r = (Done (installs ++ inst), s') /\ trains s1 G x s' G' x' inst dict_budget /\ drained_counts s' = drained_counts s1).
  enough (forall r, r = r -> ends r -> exists s' G' x' inst, r = (Done (installs ++ inst), s') /\
    trains s G x s' G' x' inst dict_budget /\ drained_counts s' = <[k := old + n]> (drained_counts s)) as Hends.
  2:{ intros r _ (s' & G' & x' & inst & -> & Ht & Hc). exists s', G', x', inst. split; [done|]. split; [by eapply trains_counts|by rewrite Hc]. }
  apply Hends; [done|]. clear Hends.
  assert (forall s' G' x', trains s1 G x s' G' x' [] 0 -> drained_counts s' = drained_counts s1 -> ends (Done installs, s')) as Hstop.
  { intros s' G' x' Ht Hc. exists s', G', x', []. rewrite app_nil_r. split; [done|]. split; [by eapply trains_steps|done]. }
  destruct (_ || _); [eapply Hstop; [by apply trains_refl|done]|].
  assert (ps_dirs s1 !! k = Some d) as Hd by by rewrite (po_dirs _ _ _ Hp1), lookup_fmap, Hk.
  change (ps_dirs s !! k) with (ps_dirs s1 !! k). rewrite Hd. cbn [expect]. unfold st_bind at 1, st_lift at 1.
  destruct (has_dictionary d); [eapply Hstop; [by apply trains_refl|done]|].
  destruct (reader_run s1 G x k d m (sample_payloads DICT_SAMPLE_CAP) (fun _ => True) Hp1 Hk)
    as (samples & s2 & G2 & x2 & d2 & E2 & _ & Ht2 & Hc2 & Hk2).
  { intros xd Hh. eapply triple_weaken; [by apply sample_payloads_holds|done|].
    intros [?|?|] d' x' l Hq; [|done|done]. destruct Hq as (-> & -> & ? & ?). by unfold returns. }
  unfold st_bind at 1. rewrite E2. destruct (_ <? _); [by eapply Hstop|].
  pose proof (from_samples_ends samples DICT_MAX_BYTES) as He. pose proof (from_samples_len samples DICT_MAX_BYTES) as Hlen.
  unfold train_dictionary. destruct (from_samples _ _) as [[|b dict]|e|]; cbn [omap_err]; [by eapply Hstop| |by eapply Hstop|done].
  pose proof (tr_used _ _ _ _ _ _ _ _ Ht2) as Hu. change (used_blocks s1) with (used_blocks s) in Hu.
  destruct (install_run s2 G2 x2 k d2 m (b :: dict)) as (r & s3 & G3 & x3 & E3 & Ht3 & Hc3); [apply Ht2|done|by apply Hlen|lia|].
  unfold st_bind. rewrite E3. exists s3, G3, x3, [(k, r)]. split; [done|]. split; [|congruence].
  change dict_budget with (0 + dict_budget). exact (trains_trans _ _ _ _ _ _ _ _ _ _ _ _ _ Ht2 Ht3).
Qed.

(** The records drained so far, with one type's more. *)
Definition count_drained (c : gmap DirKey Z) (t : DirKey * Z) : gmap DirKey Z := <[t.1 := default 0 (c !! t.1) + t.2]> c.

(** Every type's training. *)
Lemma train_run L : forall s G x installs,
  pages_ok s G x -> NoDup (map fst L) ->
  (forall k n, (k, n) ∈ L -> is_Some (G !! k) /\ 0 <= n /\ 0 <= default 0 (drained_counts s !! k) /\
     default 0 (drained_counts s !! k) + n < 2 ^ 64) ->
  used_blocks s + zlen L * dict_budget <= 2 ^ 48 ->
  exists s' G' x' inst, st_foldl train_due installs L s = (Done (installs ++ inst), s') /\
    trains s G x s' G' x' inst (zlen L * dict_budget) /\
    drained_counts s' = foldl count_drained (drained_counts s) L.
Proof.
  induction L as [|[k n] L IH]; intros s G x installs Hp Hn Hall Hb; cbn [st_foldl foldl].
  - exists s, G, x, []. rewrite app_nil_r. split; [done|]. split; [by apply trains_refl|done].
  - apply NoDup_cons in Hn as [Hnk Hn]. assert (zlen ((k, n) :: L) = 1 + zlen L) as Ez by (unfold zlen; simpl length; lia).
    rewrite Ez, Z.mul_add_distr_r, Z.mul_1_l in *. pose proof (zlen_nonneg L).
    destruct (Hall k n ltac:(by left)) as (Hk & Hn0 & Hc0 & Hc1).
    destruct (train_due_run s G x installs k n Hp Hk Hc0 Hn0 Hc1) as (s1 & G1 & x1 & i1 & E1 & T1 & C1); [unfold dict_budget in *; lia|].
    pose proof (tr_used _ _ _ _ _ _ _ _ T1) as Hu.
    destruct (IH s1 G1 x1 (installs ++ i1)) as (s2 & G2 & x2 & i2 & E2 & T2 & C2); [apply T1|done| |lia|].
    + intros k' n' Hin. destruct (Hall k' n' ltac:(by right)) as (Hk' & ? & ? & ?).
      assert (k' <> k) as Hne. { intros ->. apply Hnk. apply list_elem_of_fmap. by exists (k, n'). }
      rewrite C1, lookup_insert_ne by done. split; [|done]. eapply layout_same; [apply T1|done].
    + exists s2, G2, x2, (i1 ++ i2). unfold st_bind. rewrite E1, E2, (assoc_L (++)). split; [done|]. split; [|by rewrite C2, C1].
      exact (trains_trans _ _ _ _ _ _ _ _ _ _ _ _ _ T1 T2).
Qed.
End train.
