(* ===== verification/StoreOk.v ===== *)
(** * The page store keeps its records

    A page store represents, per type and version, a map of records: what its pages
    hold, under what is pending.  Its journal, replayed, tells the pending records,
    the directories and the space in use exactly.  Reading, writing, removing,
    draining and reopening are the operations of that map. *)
From stdpp Require Import sorting.
From S2P Require Import Prelude Ordered Wire Errors Hash BlockAlloc BlockAllocOk BlockFile Regions PageDir Codec Dict HeapStore SlotPage SlotPageOk Directory DirectoryOk DirectoryMap DirectoryDict PageJournal PageJournalOk PagedStore StoreParts StoreDrain StoreTrain.

(** ** What records say of the directories and of what is pending *)

Abbreviation replayed rs := (apply_recs 0 replay_new rs).
Abbreviation Layout := (gmap DirKey (list PageDescriptor)).

Definition dir_rec (SM : Layout) (r : Rec) : Layout :=
  match r with
  | SetDesc sid ver slot d =>
    <[(sid, ver) := <[Z.to_nat slot := d]> (extend_to (slot + 1) (default [] (SM !! (sid, ver))))]> SM
  | Resized sid ver n => <[(sid, ver) := extend_to n (default [] (SM !! (sid, ver)))]> SM
  | _ => SM
  end.

Definition pend_rec (p : PendingRecords) (r : Rec) : PendingRecords :=
  match r with
  | Wrote sid ver id payload => note (sid, ver) id (Some payload) p
  | Deleted sid ver id => note (sid, ver) id None p
  | Checkpoint _ => ∅
  | _ => p
  end.

Lemma apply_recs_dirs c s rs : r_directories (apply_recs c s rs) = foldl dir_rec (r_directories s) rs.
Proof. revert c s. induction rs as [|r rs IH]; intros c s; [done|]. cbn [apply_recs foldl]. rewrite IH. by destruct r. Qed.

Lemma apply_recs_pend c s rs : r_pending (apply_recs c s rs) = foldl pend_rec (r_pending s) rs.
Proof. revert c s. induction rs as [|r rs IH]; intros c s; [done|]. cbn [apply_recs foldl]. rewrite IH. by destruct r. Qed.

(** What more records say. *)
Lemma replayed_dirs rs rs' : r_directories (replayed (rs ++ rs')) = foldl dir_rec (r_directories (replayed rs)) rs'.
Proof. by rewrite !apply_recs_dirs, foldl_app. Qed.

Lemma replayed_pend rs rs' : r_pending (replayed (rs ++ rs')) = foldl pend_rec (r_pending (replayed rs)) rs'.
Proof. by rewrite !apply_recs_pend, foldl_app. Qed.

Lemma replayed_ledger rs rs' : ledger (replayed (rs ++ rs')) = replay_events (omap rec_event rs') (ledger (replayed rs)).
Proof. by rewrite !apply_recs_ledger, omap_app, replay_events_app. Qed.

(** Records of the allocations only. *)
Lemma dirs_still SM rs : (forall r, r ∈ rs -> forall SM, dir_rec SM r = SM) -> foldl dir_rec SM rs = SM.
Proof. revert SM. induction rs as [|r rs IH]; intros SM Hr; [done|]. cbn [foldl]. rewrite Hr by by left. apply IH. intros r' Hin. apply Hr. by right. Qed.

Lemma dirs_resizes SM rs :
  NoDup (map fst rs) -> (forall t, t ∈ rs -> SM !! t.1 = None) ->
  foldl dir_rec SM (map (fun t : DirKey * Z => Resized t.1.1 t.1.2 t.2) rs) = foldl add_dir SM rs.
Proof.
  revert SM. induction rs as [|[[sid ver] n] rs IH]; intros SM; [done|]. intros [Hk Hn]%NoDup_cons Hnone. cbn [map foldl].
  cbn [fst snd dir_rec]. pose proof (Hnone _ ltac:(by left)) as E. cbn [fst] in E. rewrite E. cbn [default from_option id].
  unfold extend_to at 1. cbn [app]. change (zlen []) with 0. rewrite Z.sub_0_r. apply IH; [done|].
  intros t Ht. unfold add_dir. cbn [fst snd]. rewrite lookup_insert_ne; [apply Hnone; by right|]. intros Eq. apply Hk. rewrite Eq. apply list_elem_of_fmap. by exists t.
Qed.

Definition desc_range (SM : Layout) (c : DirKey * Z * SlotCommit) : Prop :=
  exists dir, SM !! c.1.1 = Some dir /\ 0 <= c.1.2 < zlen dir.

Lemma desc_range_commit SM c c' : desc_range (commit_desc SM c) c' <-> desc_range SM c'.
Proof.
  unfold desc_range, commit_desc. destruct (decide (c'.1.1 = c.1.1)) as [E|Hne].
  - rewrite E, lookup_alter_eq. destruct (SM !! c.1.1) as [dir|]; simpl; [|done].
    split; intros (dir' & [= <-] & Hr); (eexists; split; [done|]); unfold zlen in *; rewrite length_insert in *; done.
  - by rewrite lookup_alter_ne by congruence.
Qed.

Lemma desc_range_commits SM cs c : desc_range (foldl commit_desc SM cs) c <-> desc_range SM c.
Proof. revert SM. induction cs as [|c' cs IH]; intros SM; [done|]. cbn [foldl]. by rewrite IH, desc_range_commit. Qed.

Lemma dirs_commit SM c : desc_range SM c -> foldl dir_rec SM (commit_recs c) = commit_desc SM c.
Proof.
  destruct c as [[[sid ver] slot] c]. intros (dir & Hd & Hr). cbn [fst snd] in *. unfold commit_recs. rewrite !foldl_app.
  rewrite (dirs_still SM) by (intros r (? & -> & _)%list_elem_of_fmap; done).
  rewrite (dirs_still SM) by (intros r (? & -> & _)%list_elem_of_fmap; done).
  cbn [foldl dir_rec]. rewrite dirs_still by (intros r (? & -> & _)%list_elem_of_fmap; done).
  rewrite dirs_still by (intros r (? & -> & _)%list_elem_of_fmap; done). rewrite Hd. cbn [default from_option id].
  assert (extend_to (slot + 1) dir = dir) as ->.
  { unfold extend_to. replace (Z.to_nat (slot + 1 - zlen dir)) with O by lia. apply app_nil_r. }
  unfold commit_desc. cbn [fst snd]. apply map_eq. intros k. destruct (decide (k = (sid, ver))) as [->|Hne].
  - by rewrite lookup_insert_eq, lookup_alter_eq, Hd.
  - by rewrite lookup_insert_ne, lookup_alter_ne.
Qed.

Lemma dirs_commits SM cs : (forall c, c ∈ cs -> desc_range SM c) ->
  foldl dir_rec SM (concat (map commit_recs cs)) = foldl commit_desc SM cs.
Proof.
  revert SM. induction cs as [|c cs IH]; intros SM Hc; [done|]. cbn [map concat]. rewrite foldl_app, dirs_commit by (apply Hc; by left).
  cbn [foldl]. apply IH. intros c' Hc'. apply desc_range_commit, Hc. by right.
Qed.

Section store.
Context `{CodecLaws}.

(** ** The records of a drain *)

Definition drain_recs (dr : Drained) (inst : list (DirKey * DictRef)) : list Rec :=
  map (fun t => Resized t.1.1 t.1.2 t.2) (resizes dr) ++ concat (map commit_recs (commits dr)) ++
  map (fun t => Alloc t.1.1 t.1.2 DICT_OWNER_SLOT (ref_run t.2)) inst.

Lemma journal_drain_recs dr inst :
  Forall (fun t => key_fits t.1 /\ fits 32 t.2) (resizes dr) -> Forall commit_ok (commits dr) ->
  Forall (fun t => key_fits t.1 /\ fits 64 t.2) inst -> journals (journal_drain dr inst) (drain_recs dr inst).
Proof.
  intros Hr Hc Hi. rewrite Forall_forall in Hr. rewrite Forall_forall in Hc. rewrite Forall_forall in Hi.
  unfold journal_drain, drain_recs. apply journals_bind.
  { rewrite <- concat_singletons. apply journals_iter. intros [k n] Hin. destruct (Hr _ Hin) as [Hk Hn]. cbn [fst snd] in *.
    apply journals_u32; [done|]. by apply journals_one. }
  apply journals_bind.
  { apply journals_iter. intros [[k slot] c] Hin. destruct (Hc _ Hin) as (H1 & H2 & H3 & H4 & H5). by apply journal_commit_recs. }
  rewrite <- concat_singletons. apply journals_iter. intros [k r] Hin. destruct (Hi _ Hin) as [Hk Hn]. cbn [fst snd] in *.
  apply journals_one; [done| |done]. split; [done|]. split; [by vm_compute|]. apply ref_run64.
Qed.

Lemma drain_recs_events dr inst :
  omap rec_event (drain_recs dr inst) = commits_events (commits dr) ++ install_events inst.
Proof.
  unfold drain_recs, install_events, commits_events. rewrite !omap_app.
  assert (forall l : list (DirKey * Z), omap rec_event (map (fun t => Resized t.1.1 t.1.2 t.2) l) = []) as ->.
  { induction l; [done|]. cbn [map omap list_omap rec_event]. done. }
  cbn [app]. f_equal.
  - induction (commits dr) as [|[[k slot] c] cs IH]; [done|]. cbn [map concat]. by rewrite omap_app, commit_recs_events, IH.
  - by rewrite (omap_map_some rec_event _ (fun t => Took (ref_run t.2))).
Qed.

Lemma drain_recs_dirs s G x s' G' x' dr b inst :
  drains s G x s' G' x' dr b -> foldl dir_rec (layout G) (drain_recs dr inst) = layout G'.
Proof.
  intros [_ _ _ _ _ N Z F _ L _]. rewrite Forall_forall in N. rewrite Forall_forall in Z. unfold drain_recs. rewrite !foldl_app.
  rewrite dirs_resizes; [|done|].
  2:{ intros t Ht. destruct (Z t Ht) as (_ & _ & E & _). unfold layout. by rewrite lookup_fmap, E. }
  rewrite dirs_commits, <- L.
  - apply dirs_still. intros r (? & -> & _)%list_elem_of_fmap. done.
  - intros c Hc. apply (desc_range_commits _ (commits dr)). rewrite <- L. destruct (N c Hc) as (t & Ht & Hr).
    exists (slots t.1). split; [|done]. unfold layout. by rewrite lookup_fmap, Ht.
Qed.

Lemma drain_recs_pend p dr inst : foldl pend_rec p (drain_recs dr inst) = p.
Proof.
  assert (forall p rs, (forall r, r ∈ rs -> forall p, pend_rec p r = p) -> foldl pend_rec p rs = p) as Hstill.
  { intros p0 rs. revert p0. induction rs as [|r rs IH]; intros p0 Hr; [done|]. cbn [foldl]. rewrite Hr by by left. apply IH. intros r' Hin. apply Hr. by right. }
  apply Hstill. intros r. unfold drain_recs. rewrite !elem_of_app.
  intros [(? & -> & _)%list_elem_of_fmap|[Hc|(? & -> & _)%list_elem_of_fmap]] p0; [done| |done].
  apply list_elem_of_In, in_concat in Hc as (l & Hl & Hr). apply list_elem_of_In in Hl, Hr. apply list_elem_of_fmap in Hl as ([[[sid ver] slot] c] & -> & _).
  unfold commit_recs in Hr. rewrite !elem_of_app in Hr. rewrite list_elem_of_singleton in Hr.
  by destruct Hr as [(? & -> & _)%list_elem_of_fmap|[(? & -> & _)%list_elem_of_fmap|[-> |[(? & -> & _)%list_elem_of_fmap|(? & -> & _)%list_elem_of_fmap]]]].
Qed.

(** ** The invariant *)

Record store_ok (s : PagedStore) (G : Holdings) (x : Regions) (rs : list Rec) : Prop := {
  so_pages : pages_ok s G x;
  so_journal : j_ok (ps_journal s) rs;
  so_pending : r_pending (replayed rs) = ps_pending s;
  so_dirs : r_directories (replayed rs) = layout G;
  so_ledger : ledger (replayed rs) = lens x;
  so_muts : forall k muts, ps_pending s !! k = Some muts ->
    key_fits k /\ forall id mm, muts !! id = Some mm -> fits 128 id /\ value_fits mm;
  so_slots : 0 < default_slots s < 2 ^ 32;
  so_counts : forall k, 0 <= default 0 (drained_counts s !! k);
  so_noted : forall k, ps_pending s !! k <> Some ∅
}.

(** The records of a store, by type and version, then by id. *)
Definition Contents : Type := DirKey -> Values.

Definition represents (s : PagedStore) (c : Contents) : Prop :=
  exists G x rs, store_ok s G x rs /\ forall k, c k = settled_vals (ps_pending s) G k.

Definition with_value (k : DirKey) (m : Values) (c : Contents) : Contents := fun k' => if decide (k' = k) then m else c k'.

(** Reading moves nothing. *)
Lemma store_ok_read s G x rs s' G' x' b :
  store_ok s G x rs -> trains s G x s' G' x' [] b -> drained_counts s' = drained_counts s ->
  store_ok s' G' x' rs /\ forall k, settled_vals (ps_pending s') G' k = settled_vals (ps_pending s) G k.
Proof.
  intros [? ? ? ? ? ? ? ? ?] [[Ej Ep Es Eq] ? ? ? El Ev Eled] Ec. split.
  - constructor; rewrite ?Ej, ?Ep, ?Es, ?Ec; try done; [by rewrite El|]. by rewrite Eled.
  - intros k. unfold settled_vals. by rewrite Ep, Ev.
Qed.

(** A read of a record that is not pending gives what its page holds. *)
Lemma pages_get s G x sid ver id :
  pages_ok s G x -> ps_pending s !! (sid, ver) ≫= (fun t => t !! id) = None ->
  exists s' G' x', ps_get sid ver id s = (Done (vals G (sid, ver) !! id), s') /\
    trains s G x s' G' x' [] 0 /\ drained_counts s' = drained_counts s.
Proof.
  intros Hp Em. unfold ps_get, st_bind, st_gets. cbn [fst snd]. rewrite Em. unfold vals. rewrite (po_dirs _ _ _ Hp), lookup_fmap.
  destruct (G !! (sid, ver)) as [[d m]|] eqn:Ed; simpl.
  2:{ exists s, G, x. rewrite lookup_empty. split; [done|]. split; [by apply trains_refl|done]. }
  destruct (reader_run s G x (sid, ver) d m (dir_get id) (fun r => r = m !! id) Hp Ed)
    as (r & s' & G' & x' & d' & E & -> & Ht & Hcnt & _).
  { intros xd Hh. eapply triple_weaken; [by apply dir_get_holds|done|].
    intros [?|?|] d' x' l Hq; [|done|done]. destruct Hq as (-> & -> & -> & ? & s0 & ? & ?). unfold returns.
    do 3 (split; [done|]). split; [done|]. by exists s0. }
  by exists s', G', x'.
Qed.

Lemma get_ok s c sid ver id : represents s c ->
  exists s', ps_get sid ver id s = (Done (c (sid, ver) !! id), s') /\ represents s' c /\ same_rest s s'.
Proof.
  intros (G & x & rs & Hs & Hc). rewrite Hc. unfold settled_vals.
  destruct (ps_pending s !! (sid, ver) ≫= (fun t => t !! id)) as [mm|] eqn:Em.
  { unfold ps_get, st_bind, st_gets. cbn [fst snd]. rewrite Em.
    unfold st_ret, st_lift. destruct (ps_pending s !! (sid, ver)) as [muts|]; [|done]. simpl in Em. rewrite lookup_overlay, Em.
    exists s. split; [done|]. split; [by exists G, x, rs|by constructor]. }
  assert (match ps_pending s !! (sid, ver) with Some muts => overlay muts (vals G (sid, ver)) | None => vals G (sid, ver) end !! id =
    vals G (sid, ver) !! id) as ->.
  { destruct (ps_pending s !! (sid, ver)) as [muts|]; [|done]. simpl in Em. by rewrite lookup_overlay, Em. }
  destruct (pages_get s G x sid ver id (so_pages _ _ _ _ Hs) Em) as (s' & G' & x' & E & Ht & Hcnt).
  destruct (store_ok_read _ _ _ _ _ _ _ _ Hs Ht Hcnt) as [Hs' Hv]. exists s'. split; [done|]. split; [|apply Ht].
  exists G', x', rs. split; [done|]. intros k. by rewrite Hv.
Qed.

(** ** Writing *)

Lemma overlay_insert id mm muts m : overlay (<[id := mm]> muts) m = mutate (overlay muts m) (id, mm).
Proof.
  apply map_eq. intros id'. rewrite lookup_overlay. unfold mutate. cbn [fst snd]. destruct (decide (id' = id)) as [->|Hne].
  - by rewrite lookup_insert_eq, lookup_partial_alter_eq.
  - by rewrite lookup_insert_ne, lookup_partial_alter_ne, lookup_overlay.
Qed.

Lemma overlay_empty m : overlay ∅ m = m.
Proof. apply map_eq. intros id. by rewrite lookup_overlay, lookup_empty. Qed.

Lemma settled_note k id mm p G k' :
  settled_vals (note k id mm p) G k' = if decide (k' = k) then mutate (settled_vals p G k) (id, mm) else settled_vals p G k'.
Proof.
  unfold settled_vals, note. case_decide as Hk; [subst; rewrite lookup_insert_eq|by rewrite lookup_insert_ne].
  rewrite overlay_insert. by destruct (p !! k); simpl; [|rewrite overlay_empty].
Qed.

(** Journalling a mutation and holding it. *)
Lemma hold_ok s G x rs sid ver id mm r :
  store_ok s G x rs -> key_fits (sid, ver) -> fits 128 id -> value_fits mm -> rec_fits r -> plain r ->
  (forall p, pend_rec p r = note (sid, ver) id mm p) -> (forall SM, dir_rec SM r = SM) -> rec_event r = None ->
  exists s', (do! on_journal (append (rec_bytes r)) in hold sid ver id mm) s = (Done tt, s') /\
    store_ok s' G x (rs ++ [r]) /\ ps_pending s' = note (sid, ver) id mm (ps_pending s).
Proof.
  intros [Hp Hj Hpd Hd Hl Hm Hs Hc Hne0] Hk Hid Hv Hr Hpl Ep Ed Ee.
  destruct (journals_one r _ eq_refl Hr Hpl s rs Hj) as (j & E & Hj'). unfold st_bind. rewrite E. eexists. split; [done|].
  split; [|done]. constructor; simpl; try done.
  - destruct Hp. by constructor.
  - rewrite replayed_pend, Hpd. cbn [foldl]. by rewrite Ep.
  - rewrite replayed_dirs, Hd. cbn [foldl]. by rewrite Ed.
  - rewrite replayed_ledger, Hl. cbn [omap list_omap]. by rewrite Ee.
  - intros k muts. unfold note. intros [[<- <-]|[Hne Hk']]%lookup_insert_Some; [|by apply Hm]. split; [done|].
    intros id' mm' [[<- <-]|[Hne Hid']]%lookup_insert_Some; [done|].
    destruct (ps_pending s !! (sid, ver)) as [muts|] eqn:Eq; simpl in Hid'; [|by rewrite lookup_empty in Hid']. by apply (Hm _ _ Eq).
  - intros k. unfold note. intros [[_ E0]|[_ E0]]%lookup_insert_Some; [|by eapply Hne0]. by apply insert_non_empty in E0.
Qed.

Lemma mutate_ok s c sid ver id mm r :
  represents s c -> key_fits (sid, ver) -> fits 128 id -> value_fits mm -> rec_fits r -> plain r ->
  (forall p, pend_rec p r = note (sid, ver) id mm p) -> (forall SM, dir_rec SM r = SM) -> rec_event r = None ->
  exists s', (do! on_journal (append (rec_bytes r)) in hold sid ver id mm) s = (Done tt, s') /\
    represents s' (with_value (sid, ver) (mutate (c (sid, ver)) (id, mm)) c) /\
    ps_pending s' = note (sid, ver) id mm (ps_pending s).
Proof.
  intros (G & x & rs & Hs & Hc) Hk Hid Hv Hr Hp Ep Ed Ee.
  destruct (hold_ok s G x rs sid ver id mm r Hs Hk Hid Hv Hr Hp Ep Ed Ee) as (s' & E & Hs' & En).
  exists s'. split; [done|]. split; [|done]. exists G, x, (rs ++ [r]). split; [done|].
  intros k. rewrite En, settled_note. unfold with_value. by rewrite !Hc.
Qed.

Lemma put_ok s c sid ver id payload :
  represents s c -> key_fits (sid, ver) -> fits 128 id -> fits 32 (zlen payload) ->
  exists s', ps_put sid ver id payload s = (Done tt, s') /\
    represents s' (with_value (sid, ver) (<[id := payload]> (c (sid, ver))) c) /\
    ps_pending s' = note (sid, ver) id (Some payload) (ps_pending s).
Proof.
  intros Hr Hk Hid Hp.
  destruct (mutate_ok s c sid ver id (Some payload) (Wrote sid ver id payload) Hr Hk Hid) as (s' & E & H'); try done.
  { by intros v [= <-]. }
  exists s'. split; [|done]. rewrite <- E. unfold ps_put, write_record. by rewrite (proj2 (fitsb_spec 32 (zlen payload))).
Qed.

Lemma put_too_long s sid ver id payload :
  ~ fits 32 (zlen payload) -> ps_put sid ver id payload s = (Fail (Other "record exceeds u32"), s).
Proof.
  intros Hp. unfold ps_put, write_record, st_bind, on_journal, st_lift. destruct (fitsb 32 (zlen payload)) eqn:E; [by apply fitsb_spec in E|].
  simpl. by destruct s.
Qed.

Lemma remove_ok s c sid ver id :
  represents s c -> key_fits (sid, ver) -> fits 128 id ->
  exists s', ps_remove sid ver id s = (Done tt, s') /\ represents s' (with_value (sid, ver) (delete id (c (sid, ver))) c) /\
    ps_pending s' = note (sid, ver) id None (ps_pending s).
Proof.
  intros Hr Hk Hid.
  by destruct (mutate_ok s c sid ver id None (Deleted sid ver id) Hr Hk Hid) as (s' & E & H'); [..|exists s'].
Qed.
End store.
