(* ===== verification/StoreLife.v ===== *)
(** * Draining and reopening the page store

    A drain settles every pending record and empties the buffer, and the store
    reopens from its two files as it was. *)
From stdpp Require Import sorting.
From S2P Require Import Prelude Ordered Wire Errors Hash BlockAlloc BlockAllocOk BlockFile Regions PageDir Codec Dict HeapStore SlotPage SlotPageOk Directory DirectoryOk DirectoryMap DirectoryDict PageJournal PageJournalOk PagedStore StoreParts StoreDrain StoreTrain StoreOk.

Section life.
Context `{CodecLaws}.

(** The slots of a type's directory, there or to come. *)
Definition dir_slots (s : PagedStore) (k : DirKey) : Z :=
  match ps_dirs s !! k with Some d => slot_count d | None => default_slots s end.

(** Room for a drain: on every page, on the device, and in the counters. *)
Record drain_room (s : PagedStore) (c : Contents) : Prop := {
  dm_pages : forall k muts i, ps_pending s !! k = Some muts -> roomy (slot_values (c k) (dir_slots s k) i);
  dm_blocks : used_blocks s + msum muts_size (ps_pending s) * one_budget +
    Z.of_nat (size (ps_pending s)) * dict_budget <= 2 ^ 48;
  dm_counts : forall k muts, ps_pending s !! k = Some muts -> default 0 (drained_counts s !! k) + muts_size muts < 2 ^ 64;
  dm_seq : 0 <= drain_seq s < 2 ^ 64 - 1
}.

(** What a drain needs to settle what the pages have room for: page counters that
    can describe its records, room on the device, and in the counters. *)
Record drain_budget (s : PagedStore) (c : Contents) : Prop := {
  db_pages : forall k muts i, ps_pending s !! k = Some muts -> cost (slot_values (c k) (dir_slots s k) i) <= 2 ^ 31;
  db_blocks : used_blocks s + msum muts_size (ps_pending s) * one_budget +
    Z.of_nat (size (ps_pending s)) * dict_budget <= 2 ^ 48;
  db_counts : forall k muts, ps_pending s !! k = Some muts -> default 0 (drained_counts s !! k) + muts_size muts < 2 ^ 64;
  db_seq : 0 <= drain_seq s < 2 ^ 64 - 1
}.

Lemma room_budget s c : drain_room s c -> drain_budget s c.
Proof. intros [Hp ? ? ?]. constructor; try done. intros k muts i Hk. by eapply roomy_cost, Hp. Qed.

Lemma upserts_bound muts : 0 <= upserts muts <= muts_size muts.
Proof.
  unfold upserts, muts_size, zlen. split; [lia|].
  rewrite <- length_map_to_list, <- (Permutation_length (ordered_perm Z.leb muts)). pose proof (length_filter (fun '(_, m) => is_Some m) (by_key muts)). lia.
Qed.

Lemma store_types_ok s G x rs c k muts :
  store_ok s G x rs -> (forall k, c k = settled_vals (ps_pending s) G k) -> drain_budget s c ->
  ps_pending s !! k = Some muts -> type_ok (with_pend ∅ s) G (k, muts).
Proof.
  intros Hs Hc Hroom Hk. destruct (so_muts _ _ _ _ Hs k muts Hk) as [Hkf Hm]. split; [done|]. split; [done|]. cbn [fst snd].
  intros i. pose proof (db_pages _ _ Hroom k muts i Hk) as Hr. rewrite Hc in Hr. unfold settled_vals in Hr. rewrite Hk in Hr.
  unfold dir_slots in Hr. rewrite (po_dirs _ _ _ (so_pages _ _ _ _ Hs)), lookup_fmap in Hr.
  by destruct (G !! k) as [[d m]|].
Qed.

Lemma length_by_pair {A} (p : gmap DirKey A) : zlen (by_pair p) = Z.of_nat (size p).
Proof. unfold zlen. by rewrite (Permutation_length (ordered_perm pair_le p)), length_map_to_list. Qed.

Lemma counts_nonneg L c0 k :
  Forall (fun t : DirKey * Z => 0 <= t.2) L -> (forall k, 0 <= default 0 (c0 !! k)) -> 0 <= default 0 (foldl count_drained c0 L !! k).
Proof.
  intros HL. revert c0. induction HL as [|[k0 n0] L Hn _ IH]; intros c0 Hc; simpl; [done|]. apply IH. intros k'. unfold count_drained. simpl.
  destruct (decide (k' = k0)) as [->|Hne]; [rewrite lookup_insert_eq; simpl in *; specialize (Hc k0); lia|by rewrite lookup_insert_ne].
Qed.

(** The pending records of a drain that stopped: none is kept.  One page was too large;
    it is as it was, and every other record is as it was on its page or settled. *)
Definition forgotten (s s' : PagedStore) (c : Contents) : Prop :=
  exists G G' x', pages_ok s' G' x' /\ (exists x, pages_ok s G x) /\ ps_pending s' = ∅ /\
    (forall k id, vals G' k !! id = vals G k !! id \/ vals G' k !! id = c k !! id) /\
    exists k muts id, ps_pending s !! k = Some muts /\ is_Some (muts !! id) /\
      let n := dir_slots s k in
      ~ roomy (slot_values (c k) n (slot_for id n)) /\
      forall id', slot_for id' n = slot_for id n -> vals G' k !! id' = vals G k !! id'.

(** A drain within its budget settles every record, or stops at a page with no room. *)
Lemma drain_pages_run s c :
  represents s c -> drain_budget s c ->
  exists r s', drain_pages s = (r, s') /\ ps_pending s' = ∅ /\
  match r with
  | Done _ => represents s' c /\ drain_seq s' = drain_seq s + 1 /\
      default_slots s' = default_slots s /\ used_blocks s <= used_blocks s'
  | Fail _ => forgotten s s' c
  | Fault => False
  end.
Proof.
  intros (G & x & rs & Hs & Hc) Hroom. set (p := ps_pending s).
  assert (pages_ok (with_pend ∅ s) G x) as Hp0 by (destruct (so_pages _ _ _ _ Hs); by constructor).
  assert (0 <= Z.of_nat (size p) * dict_budget) as Hpos by (unfold dict_budget; lia).
  pose proof (db_blocks _ _ Hroom) as Hb. fold p in Hb.
  destruct (settle_run (with_pend ∅ s) G x p Hp0) as (r & s1 & G1 & E1 & H1).
  { apply Hs. } { intros k muts Hk. by eapply store_types_ok. } { change (used_blocks (with_pend ∅ s)) with (used_blocks s). lia. }
  destruct r as [dr|e|]; [|destruct H1 as ([R1 [x1 P1]] & Hany & k & muts & Hk & Hall & id & Hid & Hnr & Hpage)|done].
  2:{ exists (Fail e), s1. split; [unfold drain_pages, st_bind, st_gets, st_modify; cbn beta iota; fold p; by rewrite E1|].
      pose proof (sm_pending _ _ R1) as Ep. split; [done|]. exists G, G1, x1. split; [done|].
      split; [exists x; apply Hs|]. split; [done|]. split; [intros k' id'; rewrite Hc; apply Hany|].
      exists k, muts, id. split; [done|]. split; [done|].
      assert (slots_of (with_pend ∅ s) G k = dir_slots s k) as En.
      { unfold slots_of, dir_slots. rewrite (po_dirs _ _ _ (so_pages _ _ _ _ Hs)), lookup_fmap. by destruct (G !! k) as [[d m]|]. }
      rewrite En in Hnr, Hpage. split; [|done]. rewrite Hc. unfold settled_vals. fold p. by rewrite Hk. }
  destruct H1 as (x1 & H1 & A1 & V1 & K1).
  pose proof H1 as [R1 C1 P1 U1 O1 N1 Z1 F1 W1 L1 D1]. change (used_blocks (with_pend ∅ s)) with (used_blocks s) in U1.
  assert (zlen (added dr) = Z.of_nat (size p)) as Ea by (rewrite A1; unfold zlen; rewrite length_map; apply length_by_pair).
  destruct (train_run (added dr) s1 G1 x1 [] P1) as (s2 & G2 & x2 & inst & E2 & H2 & C2).
  { rewrite A1, map_map. apply NoDup_ordered. }
  { intros k n Hin. rewrite A1 in Hin. apply list_elem_of_fmap in Hin as ([k' muts] & [= -> ->] & Hin%elem_of_ordered).
    pose proof (upserts_bound muts). pose proof (db_counts _ _ Hroom _ _ Hin). pose proof (so_counts _ _ _ _ Hs k').
    split; [by apply K1|]. rewrite C1. cbn [drained_counts with_pend]. lia. }
  { rewrite Ea. lia. }
  rewrite app_nil_l in E2. pose proof H2 as [R2 P2 U2 I2 L2 V2 D2].
  pose proof (sm_journal _ _ R1) as J1. pose proof (sm_journal _ _ R2) as J2.
  assert (j_ok (ps_journal s2) rs) as Hj2 by (rewrite J2, J1; apply Hs).
  destruct (journal_drain_recs dr inst) with (s := s2) (rs := rs) as (j3 & E3 & Hj3); try done.
  { eapply Forall_impl; [exact Z1|]. by intros t (? & ? & _). }
  change (put_journal j3 s2) with (with_journal j3 s2) in E3.
  assert (drain_seq s2 = drain_seq s) as Eq by by rewrite (sm_seq _ _ R2), (sm_seq _ _ R1).
  pose proof (db_seq _ _ Hroom) as Hq.
  destruct (append_rec_spec j3 _ (Checkpoint (drain_seq s + 1)) Hj3) as (j4 & E4 & Hj4); [simpl; unfold fits; lia|done|].
  eexists (Done tt), (with_journal j4 (with_seq (drain_seq s + 1) (with_journal j3 s2))). split; [|split; [|split; [|split; [done|split]]]].
  - unfold drain_pages, train_due_dictionaries, st_bind, st_gets, st_modify, st_lift. cbn beta iota. fold p. rewrite E1. cbn beta iota. rewrite E2. cbn beta iota. rewrite E3. cbn beta iota. cbn [drain_seq with_journal].
    rewrite Eq, uadd_done by (unfold fits; lia). cbn beta iota. unfold on_journal, checkpoint. cbn [ps_journal with_seq with_journal].
    unfold rec_bytes in E4. by rewrite E4.
  - cbn [ps_pending with_journal with_seq]. by rewrite (sm_pending _ _ R2), (sm_pending _ _ R1).
  - exists G2, x2, ((rs ++ drain_recs dr inst) ++ [Checkpoint (drain_seq s + 1)]). split.
    + destruct Hs as [S1 S2 S3 S4 S5 S6 S7 S8 S9]. constructor.
      * destruct P2. by constructor.
      * done.
      * rewrite replayed_pend. cbn [foldl pend_rec ps_pending with_journal with_seq]. by rewrite (sm_pending _ _ R2), (sm_pending _ _ R1).
      * rewrite replayed_dirs. cbn [foldl dir_rec]. rewrite replayed_dirs, S4, L2. by eapply drain_recs_dirs.
      * rewrite replayed_ledger. cbn [omap list_omap rec_event]. change (replay_events [] ?l) with l.
        rewrite replayed_ledger, drain_recs_events, replay_events_app, S5, D2, D1. done.
      * cbn [ps_pending with_journal with_seq]. rewrite (sm_pending _ _ R2), (sm_pending _ _ R1). cbn [ps_pending with_pend]. by intros k muts; rewrite lookup_empty.
      * cbn [default_slots with_journal with_seq]. by rewrite (sm_slots _ _ R2), (sm_slots _ _ R1).
      * cbn [drained_counts with_journal with_seq]. intros k. rewrite C2, C1. apply counts_nonneg; [|done]. rewrite A1.
        apply Forall_fmap, Forall_forall. intros [k' muts] _. simpl. apply upserts_bound.
      * cbn [ps_pending with_journal with_seq]. rewrite (sm_pending _ _ R2), (sm_pending _ _ R1). by intros k; cbn [ps_pending with_pend]; rewrite lookup_empty.
    + intros k. rewrite Hc. unfold settled_vals at 2. cbn [ps_pending with_journal with_seq].
      rewrite (sm_pending _ _ R2), (sm_pending _ _ R1). cbn [ps_pending with_pend]. by rewrite lookup_empty, V2, V1.
  - cbn [default_slots with_journal with_seq]. by rewrite (sm_slots _ _ R2), (sm_slots _ _ R1).
  - change (used_blocks (with_journal _ _)) with (used_blocks s2). lia.
Qed.

(** With room on every page a drain keeps every record, and leaves none pending. *)
Lemma drain_pages_ok s c :
  represents s c -> drain_room s c ->
  exists s', drain_pages s = (Done tt, s') /\ represents s' c /\ ps_pending s' = ∅ /\ drain_seq s' = drain_seq s + 1 /\
    default_slots s' = default_slots s /\ used_blocks s <= used_blocks s'.
Proof.
  intros Hr Hroom. destruct (drain_pages_run s c Hr (room_budget s c Hroom)) as (r & s' & E & Hp & H1).
  destruct r as [[]|e|]; [|destruct H1 as (G & G' & x' & _ & _ & _ & _ & k & muts & id & Hk & _ & Hnr & _)|done].
  - exists s'. split; [done|]. destruct H1 as (? & ? & ? & ?). by split_and!.
  - destruct Hnr. by eapply dm_pages.
Qed.

(** What a record's page holds, whatever is pending. *)
Definition on_page (s : PagedStore) (sid ver id : Z) : StorageResult (option (list byte)) :=
  (ps_get sid ver id (with_pend ∅ s)).1.

Lemma on_page_vals s G x sid ver id : pages_ok s G x -> on_page s sid ver id = Done (vals G (sid, ver) !! id).
Proof.
  intros Hp. assert (pages_ok (with_pend ∅ s) G x) as Hp0 by (destruct Hp; by constructor).
  destruct (pages_get (with_pend ∅ s) G x sid ver id Hp0) as (? & ? & ? & E & _); [by cbn [ps_pending with_pend]; rewrite lookup_empty|].
  unfold on_page. by rewrite E.
Qed.

Lemma forgotten_reads s s' c : represents s c -> forgotten s s' c ->
  (forall sid ver id, (ps_get sid ver id s').1 = on_page s sid ver id \/ (ps_get sid ver id s').1 = (ps_get sid ver id s).1) /\
  exists sid ver muts id, ps_pending s !! (sid, ver) = Some muts /\ is_Some (muts !! id) /\
    let n := dir_slots s (sid, ver) in
    ~ roomy (slot_values (c (sid, ver)) n (slot_for id n)) /\
    forall id', slot_for id' n = slot_for id n -> (ps_get sid ver id' s').1 = on_page s sid ver id'.
Proof.
  intros Hr (G & G' & x' & Hp' & [x Hp] & Hpend & Hany & [sid ver] & muts & id & Hk & Hid & Hnr & Hpage).
  assert (forall sid ver id, (ps_get sid ver id s').1 = Done (vals G' (sid, ver) !! id)) as Hget.
  { intros sid' ver' id'. destruct (pages_get s' G' x' sid' ver' id' Hp') as (? & ? & ? & E & _); [by rewrite Hpend, lookup_empty|].
    by rewrite E. }
  split.
  - intros sid' ver' id'. rewrite Hget, (on_page_vals _ _ _ _ _ _ Hp).
    destruct (get_ok s c sid' ver' id' Hr) as (? & -> & _). cbn [fst].
    destruct (Hany (sid', ver') id') as [->| ->]; [by left|by right].
  - exists sid, ver, muts, id. do 2 (split; [done|]). split; [done|].
    intros id' Hid'. by rewrite Hget, (on_page_vals _ _ _ _ _ _ Hp), Hpage.
Qed.

(** ** Reopening *)

(** The same directory on the same slots, its dictionary in hand or not. *)
Definition same_slots (t t' : DirKey * (PageDirectory * Values)) : Prop :=
  t'.1 = t.1 /\ t'.2.2 = t.2.2 /\ slots t'.2.1 = slots t.2.1.

Lemma same_slots_at t d' x : dir_at t x -> dir_holds d' t.2.2 x -> slots d' = slots t.2.1 ->
  dir_struct_id d' = dir_struct_id t.2.1 -> dir_version d' = dir_version t.2.1 -> dir_at (t.1, (d', t.2.2)) x.
Proof. intros (_ & E1 & E2 & E3) Hh Es Ei Ev. split; [done|]. cbn [fst snd]. unfold slot_count. rewrite Es, Ei, Ev. done. Qed.

Lemma lookup_same_slots L L' (k : DirKey) : Forall2 same_slots L L' ->
  option_Forall2 (fun t t' => t'.2 = t.2 /\ slots t'.1 = slots t.1) ((list_to_map L : Holdings) !! k)
    ((list_to_map L' : Holdings) !! k).
Proof.
  induction 1 as [|[k0 t] [k1 t'] L L' (Ek & Em & Es) _ IH]; [constructor|]. simpl in *. subst k1.
  destruct (decide (k = k0)) as [->|Hne]; [rewrite !lookup_insert_eq; by constructor|by rewrite !lookup_insert_ne].
Qed.

Lemma same_slots_keys L L' : Forall2 same_slots L L' -> map fst L' = map fst L.
Proof. induction 1 as [|t t' L L' (Ek & _) _ IH]; simpl; congruence. Qed.

Lemma same_slots_trans L1 L2 L3 : Forall2 same_slots L1 L2 -> Forall2 same_slots L2 L3 -> Forall2 same_slots L1 L3.
Proof.
  intros H12. revert L3. induction H12 as [|t1 t2 L1 L2 (? & ? & ?) _ IH]; intros L3 H23; inversion H23 as [|? t3 ? ? (? & ? & ?)]; subst; constructor.
  - unfold same_slots. split_and!; congruence.
  - by apply IH.
Qed.

Abbreviation dirs_of L := (map (fun t : DirKey * (PageDirectory * Values) => (t.1, t.2.1)) L).

Lemma directories_ok L x : owns dir_at L x ->
  exists L', omapM directory_of (map (fun t : DirKey * (PageDirectory * Values) => (t.1, slots t.2.1)) L) = Done (dirs_of L') /\
    Forall2 same_slots L L' /\ owns dir_at L' x.
Proof.
  revert x. induction L as [|[k [d m]] L IH]; intros x; simpl.
  - intros ->. exists []. split; [done|]. split; [constructor|done].
  - intros (y & r & -> & Hdis & Hat & Ho). destruct (IH r Ho) as (L' & E & H2 & Ho').
    pose proof Hat as (Hh & Ei & Ev & Ec). cbn [fst snd] in *. destruct (from_slots_holds d m y Hh) as (d' & Ef & Hh' & Es & Ei' & Ev').
    exists ((k, (d', m)) :: L'). rewrite <- Ei, <- Ev, Ef. cbn [obind]. rewrite E. simpl. split; [done|]. split; [by constructor|].
    exists y, r. split; [done|]. split; [done|]. split; [|done]. by apply (same_slots_at (k, (d, m))).
Qed.

Lemma adopt_all_ok L : forall f x mf,
  owns dir_at L x -> x ##ₘ mf -> bf_ok f (x ∪ mf) ->
  exists L', adopt_all (dirs_of L) f = Done (list_to_map (dirs_of L')) /\ Forall2 same_slots L L' /\ owns dir_at L' x.
Proof.
  induction L as [|[k [d m]] L IH]; intros f x mf; simpl.
  - intros -> _ _. exists []. split; [done|]. split; [constructor|done].
  - intros (y & r & -> & Hdis & Hat & Ho) [Hy Hr]%map_disjoint_union_l Hf. pose proof Hat as (Hh & _). cbn [fst snd] in *.
    rewrite <- (assoc_L (∪)) in Hf.
    destruct (adopt_holds d m y Hh f (r ∪ mf) Hf) as (o & d' & f' & y' & log & E & Hf' & Hd' & _ & _ & Hq).
    { by apply map_disjoint_union_r. } { pose proof (bo_limit _ _ Hf). unfold capacity_blocks. lia. }
    rewrite E. destruct o as [[]|e|]; [|done|done]. destruct Hq as (-> & _ & Hh' & s0 & ->).
    destruct (IH f' r (y ∪ mf) Ho) as (L' & E' & H2 & Ho').
    { by apply map_disjoint_union_r. }
    { rewrite (assoc_L (∪)) in Hf' |- *. by rewrite (map_union_comm r y). }
    exists ((k, (with_dicts s0 d, m)) :: L'). rewrite E'. simpl. split; [done|]. split; [by constructor|].
    exists y, r. split; [done|]. split; [done|]. split; [|done]. by apply (same_slots_at (k, (d, m))).
Qed.

(** The ledger lists the regions. *)
Lemma ledger_lists f x r :
  bf_ok f x -> ledger r = lens x -> lists_runs (allocated_runs (replay_state r)) x.
Proof.
  intros Hf Hl. unfold replay_state. cbn [allocated_runs]. set (g := fun t : Z * (Z * BlockOwner) => {| run_start := t.1; run_len := t.2.1 |}).
  assert (map (fun '(start, (len, _)) => {| run_start := start; run_len := len |}) (by_key (r_allocated r)) = map g (by_key (r_allocated r))) as ->.
  { apply map_ext. by intros [? [? ?]]. }
  split.
  - apply (NoDup_fmap_1 run_start). rewrite <- list_fmap_compose. apply (NoDup_ordered Z.leb (r_allocated r)).
  - intros b. assert (b ∈ map g (by_key (r_allocated r)) <-> lens x !! run_start b = Some (run_len b)) as ->.
    { rewrite <- Hl. unfold ledger. rewrite lookup_fmap. split.
      - intros ([k [n o]] & -> & Hin%elem_of_ordered)%list_elem_of_fmap. simpl. by rewrite Hin.
      - destruct (r_allocated r !! run_start b) as [[n o]|] eqn:E; simpl; [|done]. intros [= En].
        apply list_elem_of_fmap. exists (run_start b, (n, o)). split; [destruct b; simpl in *; unfold g; simpl; by rewrite En|].
        by apply elem_of_ordered. }
    unfold lens. rewrite lookup_fmap. destruct (x !! run_start b) as [bs|] eqn:E; simpl.
    + destruct (bo_region _ _ Hf _ _ E) as (l & _ & El & _). rewrite (region_len _ _ El). split.
      * intros [= ->]. by exists bs.
      * intros (bs' & [= <-] & El'). f_equal. unfold DATA_BLOCK_SIZE in *. lia.
    + split; [done|]. by intros (? & ? & _).
Qed.

(** Reopening the two files finds the same records and the same pending ones. *)
Lemma open_ok s c :
  represents s c ->
  exists s', ps_open (backing_bytes (j_backing (ps_journal s))) (backing_bytes (backing (ps_data s))) = Done s' /\
    represents s' c /\ ps_pending s' = ps_pending s.
Proof.
  intros (G & x & rs & [[Hd Ho Hf] Hj Hpd Hdr Hl Hm Hs Hc0 Hne0] & Hc). unfold ps_open.
  destruct (journal_open_spec _ _ Hj) as (j & -> & Hj'). cbn [obind].
  destruct (block_open_spec _ _ (allocated_runs (replay_state (replayed rs))) Hf) as (f & -> & Hf' & _).
  { by eapply ledger_lists. }
  cbn [obind]. unfold replay_state at 1. cbn [directories]. rewrite Hdr.
  assert (by_pair (layout G) ≡ₚ map (fun t : DirKey * (PageDirectory * Values) => (t.1, slots t.2.1)) (map_to_list G)) as HP.
  { rewrite (ordered_perm pair_le). unfold layout. rewrite map_to_list_fmap. done. }
  apply Permutation_map_inv in HP as (L0 & EL & HL0). rewrite EL.
  pose proof (owns_perm _ _ _ _ HL0 Ho) as Ho0.
  destruct (directories_ok L0 x Ho0) as (L1 & -> & H01 & Ho1). cbn [obind].
  destruct (adopt_all_ok L1 f x ∅ Ho1) as (L2 & -> & H12 & Ho2); [apply map_disjoint_empty_r|by rewrite (right_id_L ∅ (∪))|]. cbn [obind].
  eexists. split; [done|]. split; [|done].
  pose proof (same_slots_trans _ _ _ H01 H12) as H02. pose proof (same_slots_keys _ _ H02) as Ek.
  assert (NoDup (map fst L0)) as Hn0 by (rewrite <- HL0; apply NoDup_fst_map_to_list).
  assert (G = list_to_map L0) as EG by (rewrite <- (list_to_map_to_list G); by apply list_to_map_proper; [apply NoDup_fst_map_to_list|]).
  set (G' := list_to_map L2 : Holdings).
  assert (forall k, option_Forall2 (fun t t' => t'.2 = t.2 /\ slots t'.1 = slots t.1) (G !! k) (G' !! k)) as Hk.
  { intros k. rewrite EG. by apply lookup_same_slots. }
  exists G', x, rs. split.
  - constructor; simpl; try done.
    + constructor; simpl; [| |done].
      * unfold G'. rewrite <- list_to_map_fmap. done.
      * eapply owns_perm; [|exact Ho2]. symmetry. apply map_to_list_to_map. change (NoDup (map fst L2)). by rewrite Ek.
    + rewrite Hdr. apply map_eq. intros k. unfold layout. rewrite !lookup_fmap.
      destruct (Hk k) as [t t' [_ E]|]; simpl; [by rewrite E|done].
    + by rewrite Hpd.
    + by rewrite Hpd.
  - intros k. rewrite Hc. unfold settled_vals. cbn [ps_pending pending replay_state]. rewrite Hpd. unfold vals.
    by destruct (Hk k) as [t t' [E _]|]; simpl; [rewrite E|].
Qed.

(** ** The empty store *)

Lemma store_of_ok f j : bf_ok f ∅ -> j_ok j [] -> represents (store_of f j) (fun _ => ∅).
Proof.
  intros Hf Hj. exists ∅, ∅, []. split; [|done]. constructor; simpl; try done.
Qed.

Lemma created_ok : represents ps_create (fun _ => ∅) /\ represents ps_create_in_memory (fun _ => ∅).
Proof.
  split; apply store_of_ok; try apply journal_new_ok; by apply block_new_ok.
Qed.
End life.
