(* ===== verification/StoreUpkeep.v ===== *)
(** * Upkeep of a page store: compaction and growth

    A compaction writes a fresh journal of the state as it stands: each directory
    with its descriptors and the runs it has in use, a checkpoint, then the pending
    records.  The store goes on with it and represents the same records; runs that
    nothing names any more are left out.

    A growth lays a directory out anew on more slots; the journal is told the new
    length, every descriptor, the runs taken and the runs freed, so a reopened store
    finds the new layout and the same records. *)
From stdpp Require Import sorting.
From S2P Require Import Prelude Ordered Wire Errors Hash BlockAlloc BlockAllocOk BlockFile Regions PageDir Codec Dict HeapStore SlotPage SlotPageOk Directory DirectoryOk DirectoryMap DirectoryDict DirectoryGrow PageJournal PageJournalOk PagedStore StoreParts StoreDrain StoreTrain StoreOk.

(** ** Inserting a list of keys *)

Lemma foldl_inserts `{Countable K} {A B} (f : A -> B) (l : list (K * A)) (m : gmap K B) : NoDup (map fst l) ->
  foldl (fun m t => <[t.1 := f t.2]> m) m l = (f <$> (list_to_map l : gmap K A)) ∪ m.
Proof.
  revert m. induction l as [|[k a] l IH]; intros m; simpl; [by rewrite fmap_empty, (left_id_L ∅ (∪))|]. intros [Hk Hn]%NoDup_cons.
  rewrite IH, fmap_insert by done. rewrite <- insert_union_r, <- insert_union_l; [done|].
  rewrite lookup_fmap, not_elem_of_list_to_map_1; [done|exact Hk].
Qed.

(** ** The records of a slot and of a directory *)

Definition slot_recs (k : DirKey) (t : nat * PageDescriptor) : list Rec :=
  map (Alloc k.1 k.2 (Z.of_nat t.1)) (option_list (opt_run t.2)) ++ [SetDesc k.1 k.2 (Z.of_nat t.1) t.2].

Definition dir_recs (k : DirKey) (l : list PageDescriptor) (refs : list DictRef) (hs : list BlockRun) : list Rec :=
  [Resized k.1 k.2 (zlen l)] ++ concat (map (slot_recs k) (imap (fun i d => (i, d)) l)) ++
  map (fun r => Alloc k.1 k.2 DICT_OWNER_SLOT (ref_run r)) refs ++ map (Alloc k.1 k.2 DICT_OWNER_SLOT) hs.

Definition mut_rec (k : DirKey) (t : Z * option (list byte)) : Rec :=
  match t.2 with Some payload => Wrote k.1 k.2 t.1 payload | None => Deleted k.1 k.2 t.1 end.

Definition pending_recs (p : PendingRecords) : list Rec := concat (map (fun t => map (mut_rec t.1) (by_key t.2)) (by_pair p)).

Lemma slot_recs_dirs k dir0 e rest d SM :
  SM !! k = Some (dir0 ++ e :: rest) ->
  foldl dir_rec SM (slot_recs k (length dir0, d)) = <[k := dir0 ++ d :: rest]> SM.
Proof.
  destruct k as [sid ver]. intros Hk. unfold slot_recs. rewrite foldl_app, (dirs_still SM) by (intros r (? & -> & _)%list_elem_of_fmap; done).
  cbn [foldl dir_rec fst snd]. rewrite Hk. cbn [default from_option id].
  unfold extend_to. replace (Z.to_nat (Z.of_nat (length dir0) + 1 - zlen (dir0 ++ e :: rest))) with O
    by (rewrite zlen_app; unfold zlen; simpl length; lia).
  rewrite app_nil_r, Nat2Z.id. f_equal. rewrite <- (Nat.add_0_r (length dir0)), insert_app_r. done.
Qed.

(** The descriptors replace as many there were. *)
Lemma slots_recs_dirs k l : forall dir0 rest SM,
  SM !! k = Some (dir0 ++ rest) -> length rest = length l ->
  foldl dir_rec SM (concat (map (slot_recs k) (imap (fun i d => ((length dir0 + i)%nat, d)) l))) = <[k := dir0 ++ l]> SM.
Proof.
  induction l as [|d l IH]; intros dir0 [|e rest] SM Hk Hl; try done; cbn [imap map concat].
  - simpl in Hk. by rewrite insert_id.
  - rewrite foldl_app, Nat.add_0_r, (slot_recs_dirs k dir0 e rest) by done.
    assert (imap ((fun i d => ((length dir0 + i)%nat, d)) ∘ S) l = imap (fun i e => ((length (dir0 ++ [d]) + i)%nat, e)) l) as ->.
    { apply imap_ext. intros i d' _. simpl. f_equal. rewrite length_app. simpl. lia. }
    rewrite (IH (dir0 ++ [d]) rest) by (rewrite ?lookup_insert_eq, <- ?(assoc_L (++)); auto). by rewrite insert_insert_eq, <- (assoc_L (++)).
Qed.

(** What the records of a directory say: its descriptors, nothing pending, and its runs. *)
Lemma dir_recs_dirs k l refs hs SM : SM !! k = None -> foldl dir_rec SM (dir_recs k l refs hs) = <[k := l]> SM.
Proof.
  intros Hk. unfold dir_recs. rewrite !foldl_app.
  rewrite (dirs_still _ (map (Alloc k.1 k.2 DICT_OWNER_SLOT) hs)) by (intros r (? & -> & _)%list_elem_of_fmap; done).
  rewrite (dirs_still _ (map (fun r => Alloc k.1 k.2 DICT_OWNER_SLOT (ref_run r)) refs)) by (intros r (? & -> & _)%list_elem_of_fmap; done).
  destruct k as [sid ver]. cbn [foldl dir_rec fst snd]. rewrite Hk. cbn [default from_option id]. unfold extend_to. cbn [app].
  change (zlen []) with 0. rewrite Z.sub_0_r. unfold zlen. rewrite Nat2Z.id.
  pose proof (slots_recs_dirs (sid, ver) l [] (replicate (length l) DESC_EMPTY) (<[(sid, ver) := replicate (length l) DESC_EMPTY]> SM)) as E. cbn [length Nat.add app] in E.
  rewrite E by (rewrite ?lookup_insert_eq, ?length_replicate; done). by rewrite insert_insert_eq.
Qed.

Lemma pend_still p rs : (forall r, r ∈ rs -> forall p, pend_rec p r = p) -> foldl pend_rec p rs = p.
Proof. revert p. induction rs as [|r rs IH]; intros p Hr; [done|]. cbn [foldl]. rewrite Hr by by left. apply IH. intros r' Hin. apply Hr. by right. Qed.

Lemma slot_recs_events k t : omap rec_event (slot_recs k t) = map Took (option_list (opt_run t.2)).
Proof.
  unfold slot_recs. rewrite omap_app, (omap_map_some rec_event _ Took) by done. cbn [omap list_omap rec_event]. by rewrite app_nil_r.
Qed.

Lemma slots_recs_events k l : forall f, omap rec_event (concat (map (slot_recs k) (imap (fun i d => (f i, d)) l))) =
  map Took (map desc_run (filter (fun p => is_allocated p = true) l)).
Proof.
  induction l as [|d l IH]; intros f; [done|]. cbn [imap map concat]. rewrite omap_app, slot_recs_events. cbn [snd].
  change (imap ((fun i d => (f i, d)) ∘ S) l) with (imap (fun i d => ((f ∘ S) i, d)) l). rewrite IH, filter_cons. unfold opt_run.
  destruct (is_allocated d); [by rewrite decide_True|by rewrite decide_False].
Qed.

Lemma dir_recs_events k l refs hs :
  omap rec_event (dir_recs k l refs hs) = map Took (map desc_run (filter (fun p => is_allocated p = true) l) ++ map ref_run refs ++ hs).
Proof.
  unfold dir_recs. rewrite !omap_app, (slots_recs_events k l (fun i => i)). cbn [omap list_omap rec_event]. rewrite app_nil_l, !map_app. f_equal.
  rewrite (omap_map_some rec_event _ (fun r => Took (ref_run r))), (omap_map_some rec_event _ Took), map_map by done. done.
Qed.

Lemma dir_recs_pend k l refs hs p : foldl pend_rec p (dir_recs k l refs hs) = p.
Proof.
  apply pend_still. intros r. unfold dir_recs, slot_recs. rewrite !elem_of_app, list_elem_of_singleton.
  intros [->|[Hin|[(? & -> & _)%list_elem_of_fmap|(? & -> & _)%list_elem_of_fmap]]] q; [done| |done|done].
  apply list_elem_of_In, in_concat in Hin as (rs & Hrs & Hr). apply list_elem_of_In in Hrs, Hr. apply list_elem_of_fmap in Hrs as (t & -> & _).
  rewrite elem_of_app, list_elem_of_singleton in Hr. by destruct Hr as [(? & -> & _)%list_elem_of_fmap| ->].
Qed.

(** *** The pending records *)

Lemma mut_recs_pend k l : forall p, l <> [] -> NoDup (map fst l) ->
  foldl pend_rec p (map (mut_rec k) l) = <[k := list_to_map l ∪ default ∅ (p !! k)]> p.
Proof.
  assert (forall l (p : PendingRecords) (t : Mutations), p !! k = Some t -> NoDup (map fst l) ->
    foldl pend_rec p (map (mut_rec k) l) = <[k := list_to_map l ∪ t]> p) as Hl.
  { clear l. induction l as [|[id m] l IH]; intros p t Hp; simpl.
    - intros _. by rewrite (left_id_L ∅ (∪)), insert_id.
    - intros [Hid Hn]%NoDup_cons.
      assert (pend_rec p (mut_rec k (id, m)) = <[k := <[id := m]> t]> p) as ->.
      { unfold mut_rec. cbn [fst snd]. destruct k as [sid ver], m; simpl; unfold note; by rewrite Hp. }
      rewrite (IH _ (<[id := m]> t)) by (rewrite ?lookup_insert_eq; done). rewrite insert_insert_eq. f_equal.
      rewrite <- insert_union_r, <- insert_union_l; [done|]. by apply not_elem_of_list_to_map_1. }
  destruct l as [|[id m] l]; [done|]. intros p _ [Hid Hn]%NoDup_cons. cbn [map foldl].
  assert (pend_rec p (mut_rec k (id, m)) = <[k := <[id := m]> (default ∅ (p !! k))]> p) as ->.
  { unfold mut_rec. cbn [fst snd]. by destruct k as [sid ver], m. }
  rewrite (Hl l _ (<[id := m]> (default ∅ (p !! k)))) by (rewrite ?lookup_insert_eq; done). rewrite insert_insert_eq. f_equal.
  rewrite list_to_map_cons. rewrite <- insert_union_r, <- insert_union_l; [done|]. by apply not_elem_of_list_to_map_1.
Qed.

Lemma pending_recs_pend p : (forall k, p !! k <> Some ∅) -> foldl pend_rec ∅ (pending_recs p) = p.
Proof.
  intros Hp. unfold pending_recs.
  assert (forall (L : list (DirKey * Mutations)) q, NoDup (map fst L) -> (forall t, t ∈ L -> t.2 <> ∅ /\ q !! t.1 = None) ->
    foldl pend_rec q (concat (map (fun t => map (mut_rec t.1) (by_key t.2)) L)) = foldl (fun q t => <[t.1 := id t.2]> q) q L) as HL.
  { induction L as [|[k muts] L IH]; intros q; simpl; [done|]. intros [Hk Hn]%NoDup_cons HL.
    destruct (HL (k, muts) ltac:(by left)) as [Hne Hq]. cbn [fst snd] in *. rewrite foldl_app, mut_recs_pend, Hq.
    - simpl. rewrite (right_id_L ∅ (∪)), ordered_list_to_map. apply IH; [done|]. intros t Ht.
      destruct (HL t ltac:(by right)). split; [done|]. rewrite lookup_insert_ne; [done|]. intros ->. apply Hk, list_elem_of_fmap. by exists t.
    - intros E. apply Hne. rewrite <- (ordered_list_to_map Z.leb muts), E. done.
    - apply NoDup_ordered. }
  pose proof (NoDup_ordered pair_le p) as Hn.
  rewrite HL, (foldl_inserts (fun t => id t)), ordered_list_to_map, (right_id_L ∅ (∪)); [by rewrite map_fmap_id|done|done|].
  intros [k muts] Hin%elem_of_ordered. split; [|by rewrite lookup_empty]. cbn [snd]. intros ->. by apply (Hp k).
Qed.

Lemma pending_recs_still p r : r ∈ pending_recs p -> (forall SM, dir_rec SM r = SM) /\ rec_event r = None.
Proof.
  unfold pending_recs. intros Hin. apply list_elem_of_In, in_concat in Hin as (rs & Hrs & Hr). apply list_elem_of_In in Hrs, Hr.
  apply list_elem_of_fmap in Hrs as (t & -> & _). apply list_elem_of_fmap in Hr as ([id [m|]] & -> & _); done.
Qed.

Lemma events_none rs : (forall r, r ∈ rs -> rec_event r = None) -> omap rec_event rs = [].
Proof. induction rs as [|r rs IH]; intros Hr; [done|]. cbn [omap list_omap]. rewrite Hr by by left. apply IH. intros r' Hin. apply Hr. by right. Qed.

Section compact.
Context `{CodecLaws}.

(** ** Writing the records *)

Lemma compact_slot_recs k i d : key_fits k -> fits 32 (Z.of_nat i) -> fits 64 d -> journals (compact_slot k (i, d)) (slot_recs k (i, d)).
Proof.
  intros Hk Hi Hd. unfold compact_slot, slot_recs. cbn [fst snd]. apply journals_u32; [done|]. apply journals_bind.
  - unfold opt_run. destruct (is_allocated d); [|apply journals_ret]. apply (journals_fresh (Alloc k.1 k.2 (Z.of_nat i) (desc_run d))); [done| |done].
    split; [done|]. split; [done|]. apply desc_run64.
  - by apply (journals_fresh (SetDesc k.1 k.2 (Z.of_nat i) d)).
Qed.

Lemma allocs_recs k {A} (f : A -> BlockRun) l : key_fits k -> (forall a, a ∈ l -> run64 (f a)) ->
  journals (st_iter (fun a => on_fresh (allocate_block k.1 k.2 DICT_OWNER_SLOT (f a))) l) (map (fun a => Alloc k.1 k.2 DICT_OWNER_SLOT (f a)) l).
Proof.
  intros Hk Hf. rewrite <- concat_singletons. apply journals_iter. intros a Ha.
  apply (journals_fresh (Alloc k.1 k.2 DICT_OWNER_SLOT (f a))); [done| |done]. split; [done|]. split; [by vm_compute|by apply Hf].
Qed.

Lemma compact_pending_recs p :
  (forall k muts, p !! k = Some muts -> key_fits k /\ forall id mm, muts !! id = Some mm -> fits 128 id /\ value_fits mm) ->
  journals (st_iter compact_pending (by_pair p)) (pending_recs p).
Proof.
  intros Hp. apply journals_iter. intros [k muts] Hin%elem_of_ordered. destruct (Hp k muts Hin) as [Hk Hm]. cbn [fst snd].
  unfold compact_pending. rewrite <- concat_singletons. apply journals_iter. intros [id mm] Hin'%elem_of_ordered.
  destruct (Hm id mm Hin') as [Hid Hv]. apply journals_fresh; [|unfold mut_rec; cbn [fst snd]..].
  - unfold mut_rec. cbn [fst snd]. destruct mm as [payload|]; [|done]. unfold write_record. by rewrite (proj2 (fitsb_spec 32 (zlen payload))) by by apply Hv.
  - destruct mm as [payload|]; [|done]. split; [done|]. split; [done|by apply Hv].
  - by destruct mm.
Qed.

(** ** The directories *)

(** The directories whose runs are listed in [R] own those runs. *)
Definition listed (R : gmap DirKey (list BlockRun)) (t : DirKey * (PageDirectory * Values)) (x : Regions) : Prop :=
  dir_at t x /\ forall rs, R !! t.1 = Some rs -> covers rs x.

Definition listed_named (R : gmap DirKey (list BlockRun)) (k : DirKey) (refs : list DictRef) (t : DirKey * (PageDirectory * Values)) (x : Regions) : Prop :=
  listed R t x /\ (t.1 = k -> dicts_named refs t.2.1 t.2.2 x).

(** The store a step of the compaction leaves, seen from outside. *)
Record kept (s : PagedStore) (G : Holdings) (s' : PagedStore) (G' : Holdings) : Prop := {
  kp_rest : same_rest s s';
  kp_counts : drained_counts s' = drained_counts s;
  kp_used : used_blocks s' = used_blocks s;
  kp_layout : layout G' = layout G;
  kp_vals : forall k, vals G' k = vals G k
}.

Lemma kept_trans s1 G1 s2 G2 s3 G3 : kept s1 G1 s2 G2 -> kept s2 G2 s3 G3 -> kept s1 G1 s3 G3.
Proof. intros [] []. constructor; try congruence. by etransitivity. Qed.

Lemma kept_dir s G s' k d m s0 :
  G !! k = Some (d, m) -> same_rest s s' -> drained_counts s' = drained_counts s -> used_blocks s' = used_blocks s ->
  kept s G s' (<[k := (with_dicts s0 d, m)]> G).
Proof.
  intros Hk ? ? ?. constructor; try done.
  - unfold layout. rewrite fmap_insert. cbn [fst]. apply insert_id. by rewrite lookup_fmap, Hk.
  - intros k'. unfold vals. destruct (decide (k' = k)) as [->|Hne]; [by rewrite lookup_insert_eq, Hk|by rewrite lookup_insert_ne].
Qed.

Lemma file_limit P s G x : pages_own P s G x -> used_blocks s + 0 <= 2 ^ 48.
Proof. intros Hp. pose proof (bo_limit _ _ (po_file _ _ _ Hp)). unfold used_blocks, capacity_blocks. lia. Qed.

(** The two scans of a directory. *)
Lemma scan_dicts_run R s G x k d m :
  pages_own (listed R) s G x -> G !! k = Some (d, m) -> R !! k = None ->
  exists refs s' x', on_dir k dict_runs_in_use s = (Done refs, s') /\ kept s G s' G /\ pages_own (listed_named R k refs) s' G x' /\
    ps_dirs s' = ps_dirs s.
Proof.
  intros Hp Hk HR. destruct (on_dir_owned (listed R) s G x k d m dict_runs_in_use 0
    (fun xd => returns (fun refs d' x' log => x' = xd /\ log = [] /\ d' = d /\ exists y e, xd = y ∪ e /\ y ##ₘ e /\ dicts_named refs d m y)) Hp Hk)
    as (r & d' & s' & xd0 & xd & xr & log & [Hat _] & E & Hrest & Hcnt & Hused & _ & HQ & _ & Hdirs & Hback).
  { by eapply file_limit. }
  { intros xd [(Hh & _) _]. by apply dict_runs_holds. }
  destruct r as [refs|e|]; [|done|done]. destruct HQ as (-> & _ & -> & y & e & Ey & Hye & Hn).
  assert (<[k := (d, m)]> G = G) as EG by by apply insert_id.
  specialize (Hback (listed_named R k refs) m y e). rewrite EG in Hback.
  exists refs, s', (y ∪ xr). split; [done|]. split; [|split].
  - constructor; try done. lia.
  - apply Hback; [intros t z Hne ?; by split|done|done|]. split; [split|].
    + destruct Hat as (_ & ? & ? & ?). split; [by eapply dicts_named_holds|done].
    + intros rs. cbn [fst]. by rewrite HR.
    + done.
  - rewrite Hdirs. apply insert_id. by rewrite (po_dirs _ _ _ Hp), lookup_fmap, Hk.
Qed.

Lemma scan_heap_run R s G x k d m refs :
  pages_own (listed_named R k refs) s G x -> G !! k = Some (d, m) ->
  exists hs s' G' x' d', on_dir k heap_runs_in_use s = (Done hs, s') /\ kept s G s' G' /\ Forall run64 hs /\
    pages_own (listed (<[k := used_runs d ++ map ref_run refs ++ hs]> R)) s' G' x' /\ ps_dirs s' = <[k := d']> (ps_dirs s) /\
    G' = <[k := (d', m)]> G.
Proof.
  intros Hp Hk. destruct (on_dir_owned (listed_named R k refs) s G x k d m heap_runs_in_use 0
    (fun y => returns (fun hs d' x' log => x' = y /\ log = [] /\ dir_holds d' m y /\ reread d d' /\
      Forall run64 hs /\ covers (used_runs d ++ map ref_run refs ++ hs) y)) Hp Hk)
    as (r & d' & s' & xd0 & xd & xr & log & [[Hat _] _] & E & Hrest & Hcnt & Hused & _ & HQ & _ & Hdirs & Hback).
  { by eapply file_limit. }
  { intros xd [_ Hn]. apply heap_runs_holds. by apply Hn. }
  destruct r as [hs|e|]; [|done|done]. destruct HQ as (-> & _ & Hh & (s0 & -> & _) & Hf & Hc).
  exists hs, s', (<[k := (with_dicts s0 d, m)]> G), (xd0 ∪ xr), (with_dicts s0 d). split; [done|]. split; [|split; [done|split; [|done]]].
  - apply kept_dir; try done. lia.
  - apply (Hback _ m xd0 ∅); [|by rewrite (right_id_L ∅ (∪))|apply map_disjoint_empty_r|].
    + intros t z Hne [[? Hz] _]. split; [done|]. intros rs. rewrite lookup_insert_ne by done. apply Hz.
    + destruct Hat as (_ & ? & ? & ?). split; [by split|]. intros rs. cbn [fst]. rewrite lookup_insert_eq. by intros [= <-].
Qed.

Lemma dir_desc_fits P s G x k d m : (forall t y, P t y -> dir_at t y) -> pages_own P s G x -> G !! k = Some (d, m) ->
  key_fits k /\ slot_count d < 2 ^ 32 /\ forall desc, desc ∈ slots d -> fits 64 desc /\ is_in_journal desc = false.
Proof.
  intros HP Hp Hk. destruct (owns_elem P (map_to_list G) x (k, (d, m))) as (xd & Hat%HP & _); [by apply elem_of_map_to_list|apply Hp|].
  split; [by eapply dir_at_key|]. destruct Hat as (Hh & _ & _ & Hc). split; [done|]. intros desc. by eapply dir_holds_desc.
Qed.

(** One directory: its records, and what is known of its runs from then on. *)
Lemma compact_dir_run R s j G x k d m rs :
  pages_own (listed R) s G x -> j_ok j rs -> G !! k = Some (d, m) -> R !! k = None ->
  exists s' j' G' x' refs hs d', compact_dir (k, d) (s, j) = (Done tt, (s', j')) /\ kept s G s' G' /\
    pages_own (listed (<[k := used_runs d ++ map ref_run refs ++ hs]> R)) s' G' x' /\
    j_ok j' (rs ++ dir_recs k (slots d) refs hs) /\ ps_dirs s' = <[k := d']> (ps_dirs s) /\ G' = <[k := (d', m)]> G.
Proof.
  intros Hp Hj Hk HR. destruct (dir_desc_fits (listed R) s G x k d m ltac:(by intros ? ? []) Hp Hk) as (Hkf & Hct & Hdesc).
  destruct (scan_dicts_run R s G x k d m Hp Hk HR) as (refs & s1 & x1 & E1 & K1 & P1 & D1).
  destruct (scan_heap_run R s1 G x1 k d m refs P1 Hk) as (hs & s2 & G2 & x2 & d' & E2 & K2 & Hf & P2 & D2 & EG).
  assert (fits 32 (slot_count d)) as Hct' by (split; [apply zlen_nonneg|done]).
  set (head := do! on_fresh (resize_directory k.1 k.2 (slot_count d)) in st_iter (compact_slot k) (imap (fun i d => (i, d)) (slots d))).
  assert (journals head ([Resized k.1 k.2 (slot_count d)] ++ concat (map (slot_recs k) (imap (fun i d => (i, d)) (slots d))))) as Hhead.
  { apply journals_bind; [by apply (journals_fresh (Resized k.1 k.2 (slot_count d)))|]. apply journals_iter. intros [i desc] Hin.
    apply elem_of_lookup_imap in Hin as (i' & desc' & [= -> ->] & Hi). apply compact_slot_recs; [done| |].
    - apply lookup_lt_Some in Hi. unfold slot_count, zlen, fits in *. lia.
    - apply Hdesc. by eapply list_elem_of_lookup_2. }
  destruct (Hhead (s, j) rs Hj) as (j1 & F1 & Hj1).
  destruct (allocs_recs k ref_run refs Hkf (fun r _ => ref_run64 r) (s1, j1) _ Hj1) as (j2 & F2 & Hj2).
  rewrite Forall_forall in Hf.
  destruct (allocs_recs k (fun r => r) hs Hkf Hf (s2, j2) _ Hj2) as (j3 & F3 & Hj3).
  exists s2, j3, G2, x2, refs, hs, d'. split; [|split; [by eapply kept_trans|split; [done|split]]].
  - unfold compact_dir, st_bind at 1, st_lift at 1, u32_of. rewrite (proj2 (fitsb_spec 32 (slot_count d))) by done. cbn [guard obind].
    change (put_journal j1 (s, j)) with (s, j1) in F1. change (put_journal j2 (s1, j1)) with (s1, j2) in F2.
    change (put_journal j3 (s2, j2)) with (s2, j3) in F3.
    assert (forall k0 : ST (PagedStore * PageJournal) StorageError unit, (do! on_fresh (resize_directory k.1 k.2 (slot_count d)) in
      do! st_iter (compact_slot k) (imap (fun i d => (i, d)) (slots d)) in k0) (s, j) = k0 (s, j1)) as Hsplit.
    { intros k0. unfold head, st_bind in F1. unfold st_bind. destruct (on_fresh _ (s, j)) as [[[]|e|] t]; [|done|done]. by rewrite F1. }
    rewrite Hsplit. unfold st_bind at 1, on_store at 1. rewrite E1. unfold st_bind at 1. rewrite F2.
    unfold st_bind, on_store. rewrite E2. exact F3.
  - unfold dir_recs. rewrite <- !(assoc_L (++)) in Hj3. exact Hj3.
  - split; [by rewrite D2, D1|done].
Qed.

(** Every directory. *)
Lemma compact_dirs_run L : forall R s j G x rs,
  pages_own (listed R) s G x -> j_ok j rs -> NoDup (map fst L) ->
  (forall t, t ∈ L -> ps_dirs s !! t.1 = Some t.2 /\ R !! t.1 = None) ->
  exists s' j' G' x' R' new, st_iter compact_dir L (s, j) = (Done tt, (s', j')) /\ kept s G s' G' /\
    pages_own (listed R') s' G' x' /\ j_ok j' (rs ++ new) /\ (forall k, is_Some (R !! k) \/ k ∈ map fst L -> is_Some (R' !! k)) /\
    (forall SM, (forall t, t ∈ L -> SM !! t.1 = None) -> foldl dir_rec SM new = foldl (fun SM t => <[t.1 := slots t.2]> SM) SM L) /\
    exists runs, omap rec_event new = map Took runs /\
      (forall r, r ∈ runs -> exists k rs, R' !! k = Some rs /\ r ∈ rs /\ k ∈ map fst L) /\
      (forall k rs, R' !! k = Some rs -> R !! k = Some rs \/ forall r, r ∈ rs -> r ∈ runs) /\ (forall k rs, R !! k = Some rs -> R' !! k = Some rs).
Proof.
  induction L as [|[k d] L IH]; intros R s j G x rs Hp Hj Hn HL; cbn [st_iter map].
  - exists s, j, G, x, R, []. rewrite app_nil_r. split; [done|]. split; [by constructor|]. do 2 (split; [done|]).
    split; [intros k [?|?%elem_of_nil]; done|]. split; [done|]. exists []. split; [done|]. split; [by intros r ?%elem_of_nil|]. split; [by left|done].
  - apply NoDup_cons in Hn as [Hk Hn]. destruct (HL (k, d) ltac:(by left)) as [Hd HR]. cbn [fst snd] in *.
    assert (exists m, G !! k = Some (d, m)) as [m HG].
    { rewrite (po_dirs _ _ _ Hp), lookup_fmap in Hd. destruct (G !! k) as [[d0 m]|]; [|done]. injection Hd as ->. by exists m. }
    destruct (compact_dir_run R s j G x k d m rs Hp Hj HG HR) as (s1 & j1 & G1 & x1 & refs & hs & d' & E1 & K1 & P1 & J1 & D1 & _).
    set (own := used_runs d ++ map ref_run refs ++ hs) in *.
    assert (forall t, t ∈ L -> t.1 <> k) as Hne by (intros t Ht <-; apply Hk, list_elem_of_fmap; by exists t).
    destruct (IH (<[k := own]> R) s1 j1 G1 x1 _ P1 J1 Hn) as (s2 & j2 & G2 & x2 & R' & new & E2 & K2 & P2 & J2 & A2 & L2 & runs & V2 & W2 & X2 & Y2).
    { intros t Ht. destruct (HL t ltac:(by right)). rewrite D1, !lookup_insert_ne by (apply not_eq_sym; by apply Hne). done. }
    pose proof (Y2 k own (lookup_insert_eq _ _ _)) as Hown.
    exists s2, j2, G2, x2, R', (dir_recs k (slots d) refs hs ++ new). unfold st_bind. rewrite E1, E2, (assoc_L (++)).
    split; [done|]. split; [by eapply kept_trans|]. do 2 (split; [done|]). split; [|split].
    + intros k' [[rs' Hk']|Hin]; [|apply elem_of_cons in Hin as [->|Hin]; [by eexists|apply A2; by right]].
      apply A2. left. destruct (decide (k' = k)) as [->|Hne']; [rewrite lookup_insert_eq|rewrite lookup_insert_ne by done]; by eexists.
    + intros SM HSM. rewrite foldl_app, dir_recs_dirs by (apply (HSM (k, d)); by left). apply L2. intros t Ht.
      rewrite lookup_insert_ne by (apply not_eq_sym; by apply Hne). apply HSM. by right.
    + exists (own ++ runs). rewrite omap_app, dir_recs_events, V2, <- map_app. split; [done|]. split; [|split].
      * intros r [Hr|Hr]%elem_of_app; [exists k, own; by do 2 (split; [done|]); left|].
        destruct (W2 r Hr) as (k' & rs' & ? & ? & ?). exists k', rs'. do 2 (split; [done|]). by right.
      * intros k' rs' Hk'. destruct (X2 k' rs' Hk') as [[[<- <-]|[? ?]]%lookup_insert_Some|Hall].
        -- right. intros r Hr. apply elem_of_app. by left.
        -- by left.
        -- right. intros r Hr. apply elem_of_app. right. by apply Hall.
      * intros k' rs' Hk'. apply Y2. rewrite lookup_insert_ne; [done|]. intros ->. congruence.
Qed.

(** All the runs together are what the store has in use. *)
Lemma listed_covers R L x : owns (listed R) L x -> (forall t, t ∈ L -> is_Some (R !! t.1)) ->
  covers (concat (map (fun t => default [] (R !! t.1)) L)) x.
Proof.
  revert x. induction L as [|t L IH]; intros x; simpl; [intros -> _; apply covers_nil|]. intros (y & r & -> & Hd & [_ Hc] & Ho) HR.
  destruct (HR t ltac:(by left)) as [rs Hrs]. rewrite Hrs. simpl. apply covers_app; [by apply Hc|apply IH; [done|]|done].
  intros u Hu. apply HR. by right.
Qed.

Lemma none_staged s G x : pages_ok s G x -> has_staged s = false.
Proof.
  intros Hp. unfold has_staged. apply not_true_iff_false. rewrite existsb_exists. intros ([k d] & Hin%list_elem_of_In%elem_of_ordered & Hs).
  rewrite (po_dirs _ _ _ Hp), lookup_fmap in Hin. destruct (G !! k) as [[d0 m]|] eqn:E; [|done]. injection Hin as ->.
  apply existsb_exists in Hs as (desc & Hd%list_elem_of_In & Hj).
  destruct (dir_desc_fits dir_at s G x k d m ltac:(done) Hp E) as (_ & _ & Hf). destruct (Hf desc Hd). congruence.
Qed.

Lemma pages_listed s G x : pages_ok s G x -> pages_own (listed ∅) s G x.
Proof.
  intros [Hd Ho Hf]. constructor; [done| |done]. rewrite <- (map_id (map_to_list G)). eapply owns_impl; [|exact Ho].
  intros t y _ Hat. split; [done|]. intros rs. by rewrite lookup_empty.
Qed.

Lemma listed_pages R s G x : pages_own (listed R) s G x -> pages_ok s G x.
Proof.
  intros [Hd Ho Hf]. constructor; [done| |done]. rewrite <- (map_id (map_to_list G)). eapply owns_impl; [|exact Ho]. by intros t y _ [].
Qed.

(** ** The compaction *)

Lemma compact_into_run s G x rs j :
  store_ok s G x rs -> fits 64 (drain_seq s) -> j_ok j [] ->
  exists s' j' G' x' rs', compact_into (s, j) = (Done tt, (s', j')) /\ kept s G s' G' /\ pages_ok s' G' x' /\ j_ok j' rs' /\
    r_pending (replayed rs') = ps_pending s /\ r_directories (replayed rs') = layout G /\ ledger (replayed rs') = lens x'.
Proof.
  intros [Hp _ _ _ _ Hm _ _ Hne] Hq Hj.
  destruct (compact_dirs_run (by_pair (ps_dirs s)) ∅ s j G x [] (pages_listed _ _ _ Hp) Hj (NoDup_ordered _ _))
    as (s1 & j1 & G1 & x1 & R & new & E1 & K1 & P1 & J1 & A1 & L1 & runs & V1 & W1 & X1 & _).
  { intros [k d] Hin%elem_of_ordered. split; [done|apply lookup_empty]. }
  assert (Forall rec_fits [Checkpoint (drain_seq s)]) as Hcf by (constructor; [done|constructor]).
  destruct (journals_fresh (Checkpoint (drain_seq s)) (checkpoint (drain_seq s)) eq_refl Hq I (s1, j1) _ J1) as (j2 & E2 & J2).
  destruct (compact_pending_recs (ps_pending s) Hm (s1, j2) _ J2) as (j3 & E3 & J3).
  change (put_journal j2 (s1, j1)) with (s1, j2) in E2. change (put_journal j3 (s1, j2)) with (s1, j3) in E3.
  exists s1, j3, G1, x1. eexists. split; [|split; [done|split; [by eapply listed_pages|split; [exact J3|split; [|split]]]]].
  - unfold compact_into. unfold st_bind at 1, on_store at 1, st_gets at 1. unfold st_bind at 1. rewrite E1. unfold st_bind. rewrite E2. exact E3.
  - rewrite apply_recs_pend, foldl_app, foldl_app. cbn [foldl pend_rec]. by apply pending_recs_pend.
  - rewrite apply_recs_dirs, foldl_app, foldl_app. rewrite dirs_still by (intros r Hr; by apply (pending_recs_still _ _ Hr)).
    cbn [foldl dir_rec app]. change (r_directories replay_new) with (∅ : Layout). rewrite L1 by (intros; apply lookup_empty).
    rewrite foldl_inserts, ordered_list_to_map, (right_id_L ∅ (∪)) by apply NoDup_ordered. rewrite (po_dirs _ _ _ Hp). unfold layout. by rewrite <- map_fmap_compose.
  - rewrite apply_recs_ledger, !omap_app. rewrite (events_none (pending_recs _)) by (intros r Hr; by apply (pending_recs_still _ _ Hr)).
    cbn [omap list_omap rec_event app]. rewrite !app_nil_r, V1. change (ledger replay_new) with (∅ : gmap Z Z). apply covers_ledger.
    assert (forall k t, G1 !! k = Some t -> is_Some (R !! k)) as HR.
    { intros k t Hk. apply A1. right. assert (is_Some (G !! k)) as [[d m] HG] by (eapply layout_same; [symmetry; apply K1|by eexists]).
      apply list_elem_of_fmap. exists (k, d). split; [done|]. apply elem_of_ordered. by rewrite (po_dirs _ _ _ Hp), lookup_fmap, HG. }
    eapply covers_same; [|apply (listed_covers R (map_to_list G1) x1 (po_own _ _ _ P1))].
    + intros r. rewrite list_elem_of_In, in_concat. split.
      * intros (l & Hl & Hr). apply list_elem_of_In in Hl, Hr. apply list_elem_of_fmap in Hl as ([k t] & -> & Hin%elem_of_map_to_list).
        destruct (HR k t Hin) as [rs' Hrs']. cbn [fst] in Hr. rewrite Hrs' in Hr.
        destruct (X1 k rs' Hrs') as [Hno|Hall]; [by rewrite lookup_empty in Hno|by apply Hall].
      * intros (k & rs' & Hrs' & Hr & ([k' d] & -> & Hin%elem_of_ordered)%list_elem_of_fmap)%W1. exists rs'. cbn [fst] in Hrs'. rewrite <- !list_elem_of_In. split; [|done]. apply list_elem_of_fmap.
        rewrite (po_dirs _ _ _ Hp), lookup_fmap in Hin. destruct (G !! k') as [t0|] eqn:HG; [|done].
        destruct (layout_same G G1 k') as [t Ht]; [apply K1|by eexists|]. exists (k', t). cbn [fst]. rewrite Hrs'. split; [done|]. by apply elem_of_map_to_list.
    + intros [k t] Hin%elem_of_map_to_list. by eapply HR.
Qed.

(** A compaction keeps every record, settled or pending. *)
Lemma compact_ok s c :
  represents s c -> fits 64 (drain_seq s) ->
  exists s', compact s = (Done tt, s') /\ represents s' c /\ ps_pending s' = ps_pending s.
Proof.
  intros (G & x & rs & Hs & Hc) Hq. unfold compact, st_bind at 1, st_gets at 1. rewrite (none_staged s G x) by apply Hs.
  destruct (compact_into_run s G x rs (if is_memory (ps_journal s) then journal_in_memory else journal_create) Hs Hq)
    as (s1 & j1 & G1 & x1 & rs1 & E1 & K1 & P1 & J1 & Pd & Dr & Lg); [destruct (is_memory _); apply journal_new_ok|].
  assert (exists j2, (if is_memory (ps_journal s) then Done j1 else let* (j, _) := journal_open (backing_bytes (j_backing j1)) in Done j) = Done j2 /\
    j_ok j2 rs1) as (j2 & E2 & J2).
  { destruct (is_memory _); [by exists j1|]. destruct (journal_open_spec j1 rs1 J1) as (j2 & -> & J2). by exists j2. }
  unfold st_bind. rewrite E1. cbv beta iota zeta. rewrite E2. eexists. split; [done|]. destruct K1 as [[_ Ep Es _] Ec _ Ely Ev].
  split; [|exact Ep]. exists G1, x1, rs1. destruct Hs as [_ _ _ _ _ Hm Hsl Hct Hne]. split.
  - constructor; cbn [ps_journal ps_pending drained_counts default_slots with_journal]; rewrite ?Ep, ?Es, ?Ec; try done.
    + destruct P1 as [Hd Ho Hf]. by constructor.
    + by rewrite Dr, Ely.
  - intros k. rewrite Hc. unfold settled_vals. cbn [ps_pending with_journal]. by rewrite Ep, Ev.
Qed.
End compact.

(** ** Growth *)

Section grow.
Context `{CodecLaws}.

(** What the pages of a type hold, beneath the pending records. *)
Definition on_pages (s : PagedStore) (k : DirKey) (m : Values) : Prop := forall id, (on_dir k (dir_get id) s).1 = Done (m !! id).

(** Room to grow: more slots, that fit their field; a page for each bucket; blocks for the pages. *)
Record grow_room (s : PagedStore) (k : DirKey) (n : Z) : Prop := {
  gr_slots : forall d, ps_dirs s !! k = Some d -> slot_count d <= n;
  gr_fits : n < 2 ^ 32;
  gr_pages : forall m i, on_pages s k m -> roomy (slot_values m n i);
  gr_blocks : used_blocks s + n * MAX_BLOCK_COUNT <= 2 ^ 48
}.

Lemma pages_on s G x k d m : pages_ok s G x -> G !! k = Some (d, m) -> on_pages s k m.
Proof.
  intros Hp Hk id. destruct (reader_run s G x k d m (dir_get id) (fun r => r = m !! id) Hp Hk) as (r & s' & G' & x' & d' & E & -> & _).
  { intros xd Hh. eapply triple_weaken; [by apply dir_get_holds|done|].
    intros [?|?|] d' x' l Hq; [|done|done]. destruct Hq as (-> & -> & -> & ? & s0 & ? & ?). unfold returns.
    do 3 (split; [done|]). split; [done|]. by exists s0. }
  by rewrite E.
Qed.

Definition grow_recs (k : DirKey) (l : list PageDescriptor) (freed : list BlockRun) : list Rec :=
  [Resized k.1 k.2 (zlen l)] ++ concat (map (slot_recs k) (imap (fun i d => (i, d)) l)) ++ map Freed freed.

Lemma grow_recs_dirs k l freed old SM : SM !! k = Some old -> zlen old <= zlen l -> foldl dir_rec SM (grow_recs k l freed) = <[k := l]> SM.
Proof.
  intros Hk Hl. unfold grow_recs. rewrite !foldl_app.
  rewrite (dirs_still _ (map Freed freed)) by (intros r (? & -> & _)%list_elem_of_fmap; done).
  destruct k as [sid ver]. cbn [foldl dir_rec fst snd]. rewrite Hk. cbn [default from_option id].
  pose proof (slots_recs_dirs (sid, ver) l [] (extend_to (zlen l) old) (<[(sid, ver) := extend_to (zlen l) old]> SM)) as E. cbn [length Nat.add app] in E.
  rewrite E; [by rewrite insert_insert_eq|by rewrite lookup_insert_eq|]. unfold extend_to. rewrite length_app, length_replicate. unfold zlen in *. lia.
Qed.

Lemma grow_recs_pend k l freed p : foldl pend_rec p (grow_recs k l freed) = p.
Proof.
  apply pend_still. intros r. unfold grow_recs, slot_recs. rewrite !elem_of_app, list_elem_of_singleton.
  intros [->|[Hin|(? & -> & _)%list_elem_of_fmap]] q; [done| |done].
  apply list_elem_of_In, in_concat in Hin as (rs & Hrs & Hr). apply list_elem_of_In in Hrs, Hr. apply list_elem_of_fmap in Hrs as (t & -> & _).
  rewrite elem_of_app, list_elem_of_singleton in Hr. by destruct Hr as [(? & -> & _)%list_elem_of_fmap| ->].
Qed.

Lemma grow_recs_events k d d' : omap rec_event (grow_recs k (slots d') (used_runs d)) = grow_events d d'.
Proof.
  unfold grow_recs, grow_events. rewrite !omap_app, (slots_recs_events k (slots d') (fun i => i)), (omap_map_some rec_event Freed Gave) by done. done.
Qed.

(** The journalling of a growth. *)
Lemma grow_journals k n l freed :
  key_fits k -> n = zlen l -> fits 32 n -> (forall desc, desc ∈ l -> fits 64 desc) -> Forall run64 freed ->
  journals (do! on_journal (resize_directory k.1 k.2 n) in
    do! st_iter (fun '(i, desc) =>
      let! slot := st_lift (u32_of (Z.of_nat i)) in
      do! (if is_allocated desc then on_journal (allocate_block k.1 k.2 slot (desc_run desc)) else st_ret tt) in
      on_journal (set_descriptor k.1 k.2 slot desc)) (imap (fun i d => (i, d)) l) in
    st_iter (fun r => on_journal (free_block r)) freed) (grow_recs k l freed).
Proof.
  intros Hk -> Hn Hl Hf. unfold grow_recs. rewrite Forall_forall in Hf. apply journals_bind.
  { by apply (journals_one (Resized k.1 k.2 (zlen l))). }
  apply journals_bind.
  - apply journals_iter. intros [i desc] Hin. apply elem_of_lookup_imap in Hin as (i' & desc' & [= -> ->] & Hi).
    assert (fits 32 (Z.of_nat i')) as Hi32 by (apply lookup_lt_Some in Hi; unfold zlen, fits in *; lia).
    apply journals_u32; [done|]. unfold slot_recs. cbn [fst snd]. apply journals_bind.
    + unfold opt_run. destruct (is_allocated desc'); [|apply journals_ret]. apply (journals_one (Alloc k.1 k.2 (Z.of_nat i') (desc_run desc'))); [done| |done].
      split; [done|]. split; [done|]. apply desc_run64.
    + apply (journals_one (SetDesc k.1 k.2 (Z.of_nat i') desc')); [done| |done]. split; [done|]. split; [done|]. apply Hl. by eapply list_elem_of_lookup_2.
  - rewrite <- concat_singletons. apply journals_iter. intros r Hr. apply (journals_one (Freed r)); [done| |done]. by apply Hf.
Qed.

Lemma three_then {S E A} (a b c : ST S E unit) (k : ST S E A) s s' :
  (do! a in do! b in c) s = (Done tt, s') -> (do! a in do! b in do! c in k) s = k s'.
Proof.
  unfold st_bind. destruct (a s) as [[[]|e|] s1]; [|done|done]. destruct (b s1) as [[[]|e|] s2]; [|done|done].
  destruct (c s2) as [[[]|e|] s3]; [|done|done]. by intros [= ->].
Qed.

(** Growing keeps every record. *)
Lemma grow_ok s c sid ver n :
  represents s c -> grow_room s (sid, ver) n ->
  exists s', grow_directory sid ver n s = (Done (bool_decide (is_Some (ps_dirs s !! (sid, ver)))), s') /\ represents s' c /\
    ps_pending s' = ps_pending s.
Proof.
  intros (G & x & rs & Hs & Hc) [Hle Hn Hpages Hblocks]. pose proof (so_pages _ _ _ _ Hs) as Hp. set (k := (sid, ver)) in *.
  unfold grow_directory, st_bind at 1, st_gets at 1. fold k.
  destruct (ps_dirs s !! k) as [d|] eqn:Ed.
  2:{ exists s. rewrite bool_decide_eq_false_2 by by intros [? ?]. split; [done|]. split; [|done]. by exists G, x, rs. }
  rewrite bool_decide_eq_true_2 by done. specialize (Hle d eq_refl).
  pose proof Ed as Hd0. rewrite (po_dirs _ _ _ Hp), lookup_fmap in Hd0. destruct (G !! k) as [[d0 m]|] eqn:Ek; [|done]. injection Hd0 as ->.
  destruct (on_dir_run s G x k d m (dir_grow_to n) (n * MAX_BLOCK_COUNT)
    (fun xd => returns (fun freed d' x' log => freed = used_runs d /\ dir_holds d' m x' /\ slot_count d' = n /\ log = grow_events d d' /\
      dir_struct_id d' = dir_struct_id d /\ dir_version d' = dir_version d)) Hp Ek Hblocks)
    as (r & d' & s1 & xd0 & xd & xr & log & Hat & E & [Rj Rp Rs Rq] & Rc & _ & Hl & HQ & _ & Hdirs & Hback).
  { intros xd (Hh & _). apply dir_grow_holds; [done|done|]. intros i. apply Hpages. by eapply pages_on. }
  destruct r as [freed|e|]; [|done|done]. destruct HQ as (-> & Hh' & Hct & -> & Es & Ev).
  pose proof (dir_at_key _ _ _ _ Hat) as Hkf. destruct Hat as (Hh & Ei1 & Ei2 & _). cbn [fst snd] in *.
  assert (dir_at (k, (d', m)) xd) as Hat' by (split; [done|]; cbn [fst snd]; rewrite Es, Ev; by split_and!; [..|lia]).
  specialize (Hback m Hat'). unfold st_bind at 1. rewrite E. unfold st_bind at 1, st_gets at 1. rewrite Hdirs, lookup_insert_eq. cbn [expect].
  assert (fits 32 n) as Hn32 by (pose proof (dir_holds_count _ _ _ Hh); unfold fits; lia).
  unfold st_bind at 1, st_lift at 1. unfold st_bind at 1, st_lift at 1, u32_of. rewrite Hct, (proj2 (fitsb_spec 32 n)) by done. cbn [guard obind].
  destruct (grow_journals k n (slots d') (used_runs d) Hkf) with (s := s1) (rs := rs) as (j & Ej & Hj); [done|done| | | |].
  { intros desc Hin. by eapply dir_holds_desc. }
  { unfold used_runs. apply Forall_fmap, Forall_forall. intros desc _. apply desc_run64. }
  { change (j_ok (ps_journal s1) rs). rewrite Rj. apply Hs. }
  exists (with_journal j s1). split; [exact (three_then _ _ _ _ _ _ Ej)|]. split; [|done].
  exists (<[k := (d', m)]> G), (xd ∪ xr). eexists. destruct Hs as [_ Sj Sp Sd Sl Sm Ss Sc Sn]. split.
  - constructor; cbn [ps_journal ps_pending drained_counts default_slots with_journal]; rewrite ?Rp, ?Rs, ?Rc; try done.
    + destruct Hback. by constructor.
    + rewrite replayed_pend, grow_recs_pend. done.
    + rewrite replayed_dirs, Sd, (grow_recs_dirs k _ _ (slots d)).
      * unfold layout. by rewrite fmap_insert.
      * unfold layout. by rewrite lookup_fmap, Ek.
      * unfold slot_count in *. lia.
    + by rewrite replayed_ledger, grow_recs_events, Sl, Hl.
  - intros k'. rewrite Hc. unfold settled_vals. cbn [ps_pending with_journal]. rewrite Rp.
    assert (vals (<[k := (d', m)]> G) k' = vals G k') as ->; [|done]. unfold vals.
    destruct (decide (k' = k)) as [->|Hne]; [by rewrite lookup_insert_eq, Ek|by rewrite lookup_insert_ne].
Qed.

(** With nothing pending, the pages hold the records. *)
Lemma on_pages_content s c k m : represents s c -> ps_pending s !! k = None -> on_pages s k m -> m = c k.
Proof.
  intros Hr Hp Hm. apply map_eq. intros id. destruct k as [sid ver]. destruct (get_ok s c sid ver id Hr) as (s' & E & _ & _).
  unfold ps_get, st_bind, st_gets in E. rewrite Hp in E. cbn [mbind option_bind] in E. specialize (Hm id). unfold on_dir in *.
  destruct (ps_dirs s !! (sid, ver)) as [d|] eqn:Ed; [|done]. rewrite Ed in E. destruct (dir_get id (d, ps_data s)) as [r [d' f]]. cbn [fst] in Hm. subst r.
  by apply (f_equal (fun t => match t.1 with Done v => v | _ => None end)) in E.
Qed.
End grow.
