(* ===== verification/StoreRun.v ===== *)
(** * The page store against its specification

    The operations of a page store, run in any order with reopenings between them,
    answer as the operations of a map of records do. *)
From S2P Require Import Prelude Ordered Wire Errors Hash BlockAlloc BlockFile Regions PageDir Codec Dict HeapStore SlotPage Directory DirectoryOk DirectoryMap PageJournal PageJournalOk PagedStore StoreParts StoreDrain StoreTrain StoreOk StoreLife StoreUpkeep.

Inductive StoreOp : Type :=
  | OpPut (sid ver id : Z) (payload : list byte)
  | OpRemove (sid ver id : Z)
  | OpGet (sid ver id : Z)
  | OpDrain
  | OpCompact
  | OpGrow (sid ver slots : Z)
  | OpReopen.

(** What an operation answers. *)
Abbreviation Answer := (StorageResult (option (list byte))).

(** The specification: a map of records per type and version. *)
Definition spec_op (o : StoreOp) (c : Contents) : Answer * Contents :=
  match o with
  | OpPut sid ver id payload =>
    if fitsb 32 (zlen payload) then (Done None, with_value (sid, ver) (<[id := payload]> (c (sid, ver))) c)
    else (Fail (Other "record exceeds u32"), c)
  | OpRemove sid ver id => (Done None, with_value (sid, ver) (delete id (c (sid, ver))) c)
  | OpGet sid ver id => (Done (c (sid, ver) !! id), c)
  | OpDrain | OpCompact | OpGrow _ _ _ | OpReopen => (Done None, c)
  end.

Section run.
Context `{CodecLaws}.

Definition unit_op {A} (r : StorageResult A * PagedStore) : Answer * PagedStore :=
  (match r.1 with Done _ => Done None | Fail e => Fail e | Fault => Fault end, r.2).

(** Reopening the store's two files. *)
Definition reopen (s : PagedStore) : Answer * PagedStore :=
  match ps_open (backing_bytes (j_backing (ps_journal s))) (backing_bytes (backing (ps_data s))) with
  | Done s' => (Done None, s')
  | Fail e => (Fail e, s)
  | Fault => (Fault, s)
  end.

Definition run_op (o : StoreOp) (s : PagedStore) : Answer * PagedStore :=
  match o with
  | OpPut sid ver id payload => unit_op (ps_put sid ver id payload s)
  | OpRemove sid ver id => unit_op (ps_remove sid ver id s)
  | OpGet sid ver id => ps_get sid ver id s
  | OpDrain => unit_op (ps_drain s)
  | OpCompact => unit_op (compact s)
  | OpGrow sid ver n => unit_op (grow_directory sid ver n s)
  | OpReopen => reopen s
  end.

Fixpoint run_ops (ops : list StoreOp) (s : PagedStore) : list Answer * PagedStore :=
  match ops with
  | [] => ([], s)
  | o :: ops => let '(a, s) := run_op o s in let '(l, s) := run_ops ops s in (a :: l, s)
  end.

Fixpoint spec_ops (ops : list StoreOp) (c : Contents) : list Answer * Contents :=
  match ops with
  | [] => ([], c)
  | o :: ops => let '(a, c) := spec_op o c in let '(l, c) := spec_ops ops c in (a :: l, c)
  end.

(** The arguments fit their types, and a drain or a growth has room. *)
Definition admits (o : StoreOp) (s : PagedStore) (c : Contents) : Prop :=
  match o with
  | OpPut sid ver id _ | OpRemove sid ver id => key_fits (sid, ver) /\ fits 128 id
  | OpGet _ _ _ | OpReopen => True
  | OpDrain => ps_pending s = ∅ \/ drain_room s c
  | OpCompact => fits 64 (drain_seq s)
  | OpGrow sid ver n => grow_room s (sid, ver) n
  end.

Fixpoint admitted (ops : list StoreOp) (s : PagedStore) (c : Contents) : Prop :=
  match ops with
  | [] => True
  | o :: ops => admits o s c /\ admitted ops (run_op o s).2 (spec_op o c).2
  end.

Lemma drain_ok s c :
  represents s c -> ps_pending s = ∅ \/ drain_room s c ->
  exists s', ps_drain s = (Done tt, s') /\ represents s' c /\ ps_pending s' = ∅.
Proof.
  intros Hr Hroom. unfold ps_drain, st_bind at 1, st_gets at 1. destruct (decide (ps_pending s = ∅)) as [He|He]; [by exists s|].
  destruct Hroom as [?|Hroom]; [done|]. destruct (drain_pages_ok s c Hr Hroom) as (s' & E & Hr' & Hp & Eq & _).
  unfold st_bind. rewrite E. unfold st_gets. destruct (_ <=? _); [|by exists s'].
  destruct (compact_ok s' c Hr') as (s'' & E'' & Hr'' & Hp''); [rewrite Eq; pose proof (dm_seq _ _ Hroom); unfold fits; lia|].
  exists s''. by rewrite Hp''.
Qed.

Lemma run_op_ok o s c : represents s c -> admits o s c ->
  (run_op o s).1 = (spec_op o c).1 /\ represents (run_op o s).2 (spec_op o c).2.
Proof.
  intros Hr Ha. destruct o as [sid ver id payload|sid ver id|sid ver id| | |sid ver n|]; simpl in *.
  - destruct Ha as [Hk Hid]. destruct (fitsb 32 (zlen payload)) eqn:E.
    + apply fitsb_spec in E. by destruct (put_ok s c sid ver id payload Hr Hk Hid E) as (s' & -> & Hr' & _).
    + rewrite put_too_long; [done|]. intros Hf%fitsb_spec. congruence.
  - destruct Ha as [Hk Hid]. by destruct (remove_ok s c sid ver id Hr Hk Hid) as (s' & -> & Hr' & _).
  - by destruct (get_ok s c sid ver id Hr) as (s' & -> & Hr' & _).
  - by destruct (drain_ok s c Hr Ha) as (s' & -> & Hr' & _).
  - by destruct (compact_ok s c Hr Ha) as (s' & -> & Hr' & _).
  - by destruct (grow_ok s c sid ver n Hr Ha) as (s' & -> & Hr' & _).
  - unfold reopen. by destruct (open_ok s c Hr) as (s' & -> & Hr' & _).
Qed.

Lemma run_ops_ok ops s c :
  represents s c -> admitted ops s c ->
  (run_ops ops s).1 = (spec_ops ops c).1 /\ represents (run_ops ops s).2 (spec_ops ops c).2.
Proof.
  revert s c. induction ops as [|o ops IH]; intros s c Hr; simpl; [done|]. intros [Ha Hops].
  destruct (run_op_ok o s c Hr Ha) as [E Hr']. destruct (run_op o s) as [a s1], (spec_op o c) as [a' c1]. simpl in *. subst a'.
  destruct (IH s1 c1 Hr' Hops) as [E2 Hr2]. destruct (run_ops ops s1), (spec_ops ops c1). simpl in *. by subst.
Qed.

(** C1: any run of puts, removes, reads, drains, journal compactions, directory growths and reopenings of a page store answers as the map of records per type and version does, and leaves the store representing that map: nothing is lost, nothing stale is read, and an oversized record is refused with the store unchanged.  The arguments fit their types, and each drain and growth of the run has room on its pages and on the device ([admitted]) *)
Theorem store_run_refines ops s c :
  represents s c -> admitted ops s c ->
  (run_ops ops s).1 = (spec_ops ops c).1 /\ represents (run_ops ops s).2 (spec_ops ops c).2.
Proof. apply run_ops_ok. Qed.

(** C2: a drain with room settles every pending record: it returns, leaves none pending, and every record reads back the same afterwards, also from a store reopened on the files the drain left *)
Theorem drain_settles s c :
  represents s c -> ps_pending s = ∅ \/ drain_room s c ->
  exists s' s'', ps_drain s = (Done tt, s') /\ ps_pending s' = ∅ /\ reopen s' = (Done None, s'') /\ ps_pending s'' = ∅ /\
    forall sid ver id, (ps_get sid ver id s').1 = (ps_get sid ver id s).1 /\ (ps_get sid ver id s'').1 = (ps_get sid ver id s).1.
Proof.
  intros Hr Hroom. destruct (drain_ok s c Hr Hroom) as (s' & E & Hr' & Hp).
  destruct (open_ok s' c Hr') as (s'' & E2 & Hr'' & Hp''). exists s', s''. unfold reopen. rewrite E2, Hp''.
  do 4 (split; [done|]). intros sid ver id.
  destruct (get_ok s c sid ver id Hr) as (? & -> & _). destruct (get_ok s' c sid ver id Hr') as (? & -> & _).
  by destruct (get_ok s'' c sid ver id Hr'') as (? & -> & _).
Qed.
End run.

(** ** A drain that fails *)

Section forgets.
Context `{CodecLaws}.

(** C23: a drain takes the pending buffer before it settles anything and never puts it back.  Within its budget (page counters that can describe the records, room on the device) it either settles every record, or fails at a page that has no room for its records; then nothing is pending any more, so the records written to that page since the last drain, one at least, read as the page held them before: acknowledged writes are forgotten.  Every other record reads as before the drain or as its page held it before *)
Theorem failed_drain_forgets s c :
  represents s c -> drain_budget s c ->
  exists r s', ps_drain s = (r, s') /\ ps_pending s' = ∅ /\
  match r with
  | Done _ => forall sid ver id, (ps_get sid ver id s').1 = (ps_get sid ver id s).1
  | Fail _ =>
      (forall sid ver id, (ps_get sid ver id s').1 = on_page s sid ver id \/ (ps_get sid ver id s').1 = (ps_get sid ver id s).1) /\
      exists sid ver muts id, ps_pending s !! (sid, ver) = Some muts /\ is_Some (muts !! id) /\
        let n := dir_slots s (sid, ver) in
        ~ roomy (slot_values (c (sid, ver)) n (slot_for id n)) /\
        forall id', slot_for id' n = slot_for id n -> (ps_get sid ver id' s').1 = on_page s sid ver id'
  | Fault => False
  end.
Proof.
  intros Hr Hb. unfold ps_drain, st_bind at 1, st_gets at 1.
  destruct (decide (ps_pending s = ∅)) as [He|He]; [by exists (Done tt), s|].
  destruct (drain_pages_run s c Hr Hb) as (r & s' & E & Hp & H1). unfold st_bind at 1. rewrite E.
  assert (forall s1, represents s1 c -> forall sid ver id, (ps_get sid ver id s1).1 = (ps_get sid ver id s).1) as Hsame.
  { intros s1 Hr1 sid ver id. destruct (get_ok s c sid ver id Hr) as (? & -> & _). by destruct (get_ok s1 c sid ver id Hr1) as (? & -> & _). }
  destruct r as [[]|e|]; [|exists (Fail e), s'; split; [done|]; split; [done|]; by apply forgotten_reads|done].
  destruct H1 as (Hr' & Eq & _). unfold st_bind, st_gets. destruct (_ <=? _).
  - destruct (compact_ok s' c Hr') as (s2 & E2 & Hr2 & Hp2); [rewrite Eq; pose proof (db_seq _ _ Hb); unfold fits; lia|].
    exists (Done tt), s2. split; [exact E2|]. split; [congruence|]. by apply Hsame.
  - exists (Done tt), s'. split; [done|]. split; [done|]. by apply Hsame.
Qed.
End forgets.

(** ** Examples *)

Section example.
#[local] Existing Instance plain_codecs.
#[local] Existing Instance plain_codec_laws.

Definition text (s : string) : list byte := String.list_byte_of_string s.

Definition one_put : list StoreOp := [OpPut 7 2 5 (text "five")].
Definition one_store : PagedStore := (run_ops one_put ps_create).2.
Definition one_content : Contents := (spec_ops one_put (fun _ => ∅)).2.

Lemma one_fits : key_fits (7, 2) /\ fits 128 5.
Proof. unfold key_fits, owner_fits, fits. simpl. lia. Qed.

(** The one record has room on any layout. *)
Lemma one_roomy n i : roomy (slot_values (one_content (7, 2)) n i).
Proof.
  assert (cost (slot_values (one_content (7, 2)) n i) <= cost {[5 := text "five"]}) as Hc.
  { change (one_content (7, 2)) with ({[5 := text "five"]} : Values). unfold values_at.
    rewrite map_filter_singleton. case_decide; [done|]. by vm_compute. }
  assert (cost {[5 := text "five"]} = 25) as E by by vm_compute. rewrite E in Hc. unfold roomy, compress_bound.
  pose proof (Z.div_le_mono (cost (slot_values (one_content (7, 2)) n i)) 25 256 ltac:(lia) Hc) as Hd.
  change (25 / 256) with 0 in Hd. unfold SlotPage.HEADER_LEN, MAX_BLOCK_COUNT, DATA_BLOCK_SIZE. lia.
Qed.

(** A drain of the one record has room. *)
Lemma one_room : drain_room one_store one_content.
Proof.
  assert (ps_pending one_store = {[(7, 2) := {[5 := Some (text "five")]}]}) as Ep by by vm_compute.
  constructor; rewrite ?Ep.
  - intros k muts i [<- <-]%lookup_singleton_Some. apply one_roomy.
  - by vm_compute.
  - intros k muts [<- <-]%lookup_singleton_Some. by vm_compute.
  - by vm_compute.
Qed.

Lemma one_represents : represents one_store one_content.
Proof.
  destruct (put_ok ps_create (fun _ => ∅) 7 2 5 (text "five") (proj1 created_ok)) as (s' & E & Hr & _);
    [apply one_fits|apply one_fits|by vm_compute|].
  unfold one_store, one_put. cbn [run_ops run_op]. rewrite E. exact Hr.
Qed.

(** Its directory has room for sixteen slots. *)
Definition drained_store : PagedStore := (run_op OpDrain one_store).2.

Lemma drained_room : grow_room drained_store (7, 2) 16.
Proof.
  assert (represents drained_store one_content) as Hr by (apply (run_op_ok OpDrain); [apply one_represents|right; apply one_room]).
  constructor.
  - assert (match ps_dirs drained_store !! (7, 2) with Some d => slot_count d <=? 16 | None => true end = true) as E by by vm_compute.
    intros d Ed. rewrite Ed in E. lia.
  - done.
  - intros m i Hm. rewrite (on_pages_content _ _ _ _ Hr ltac:(by vm_compute) Hm). apply one_roomy.
  - by vm_compute.
Qed.

Lemma store_run_refines_witness :
  let ops := one_put ++ [OpDrain; OpGrow 7 2 16; OpGet 7 2 5; OpCompact; OpReopen; OpGet 7 2 5; OpGet 7 2 6] in
  (run_ops ops ps_create).1 = [Done None; Done None; Done None; Done (Some (text "five")); Done None; Done None; Done (Some (text "five")); Done None].
Proof.
  cbv zeta. etransitivity.
  - refine (proj1 (store_run_refines _ ps_create (fun _ => ∅) (proj1 created_ok) _)).
    split; [exact one_fits|]. split; [right; exact one_room|]. split; [exact drained_room|]. split; [done|]. split; [by vm_compute|]. done.
  - by vm_compute.
Defined.

Lemma drain_settles_witness :
  exists s' s'', ps_drain one_store = (Done tt, s') /\ ps_pending s' = ∅ /\ reopen s' = (Done None, s'') /\ ps_pending s'' = ∅ /\
    forall sid ver id, (ps_get sid ver id s').1 = (ps_get sid ver id one_store).1 /\ (ps_get sid ver id s'').1 = (ps_get sid ver id one_store).1.
Proof. apply (drain_settles one_store one_content); [apply one_represents|right; apply one_room]. Defined.

(** ** A page that overflows *)

(** Sixteen records of 64 KiB in the one page of a type: the records of a page fill at
    most 255 blocks of 4 KiB. *)
Definition wide_value : list byte := replicate (Z.to_nat 65536) Byte.x2a.
Definition wide_ids : list Z := seqZ 1 16.
Definition wide_key : DirKey := (7, 2).
Definition wide_put (v : list byte) (s : PagedStore) (i : Z) : PagedStore := (ps_put wide_key.1 wide_key.2 i v s).2.
Definition single_slot : PagedStore := (set_default_slots 1 ps_create).2.
Definition wide_store : PagedStore := foldl (wide_put wide_value) single_slot wide_ids.

Definition wide_pending (v : list byte) (ids : list Z) (p : PendingRecords) : PendingRecords :=
  foldl (fun p i => note wide_key i (Some v) p) p ids.
Definition wide_content (v : list byte) (ids : list Z) (m : Values) : Values := foldl (fun m i => <[i := v]> m) m ids.

Lemma put_shape s c i v : represents s c -> fits 128 i -> fits 32 (zlen v) ->
  exists j, wide_put v s i = with_journal j (with_pend (note wide_key i (Some v) (ps_pending s)) s) /\
    represents (wide_put v s i) (with_value wide_key (<[i := v]> (c wide_key)) c).
Proof.
  intros Hr Hi Hv. destruct (put_ok s c wide_key.1 wide_key.2 i v Hr) as (s' & E & Hr' & _); [by vm_compute|done|done|].
  unfold wide_put. rewrite E. cbn [snd]. revert E. unfold ps_put, st_bind, on_journal, hold, st_modify.
  destruct (write_record _ _ _ _ _) as [[[]|e|] j]; intros E; [|done|done]. exists j. split; [|exact Hr'].
  apply (f_equal snd) in E. symmetry in E. exact E.
Qed.

Lemma wide_puts v ids : Forall (fits 128) ids -> fits 32 (zlen v) -> forall s c, represents s c ->
  exists j c', foldl (wide_put v) s ids = with_journal j (with_pend (wide_pending v ids (ps_pending s)) s) /\
    represents (foldl (wide_put v) s ids) c' /\ c' wide_key = wide_content v ids (c wide_key).
Proof.
  intros Hids Hv. induction Hids as [|i ids Hi _ IH]; intros s c Hr; cbn [foldl].
  - exists (ps_journal s), c. split; [by destruct s|done].
  - destruct (put_shape s c i v Hr Hi Hv) as (j & E & Hr'). destruct (IH _ _ Hr') as (j' & c' & E' & Hr2 & Ec).
    exists j', c'. rewrite E'. split; [by rewrite E|]. split; [by rewrite <- E'|]. rewrite Ec. unfold with_value. by rewrite decide_True.
Qed.

Lemma wide_cost v ids : zlen v <= HEAP_SPILL_THRESHOLD -> cost (wide_content v ids ∅) <= zlen ids * (ENTRY_HEADER_LEN + HEAP_SPILL_THRESHOLD).
Proof.
  intros Hv. assert (forall m, cost (wide_content v ids m) <= cost m + zlen ids * (ENTRY_HEADER_LEN + HEAP_SPILL_THRESHOLD)) as H.
  2:{ etransitivity; [apply H|]. unfold cost. rewrite msum_empty. lia. }
  assert (0 <= zlen v) as H0 by apply zlen_nonneg.
  assert (forall w, 0 <= record_cost w) as Hpos by (intros w; unfold record_cost, ENTRY_HEADER_LEN; pose proof (zlen_nonneg w); case_match; lia).
  induction ids as [|i ids IH]; intros m; cbn [wide_content foldl]; [unfold zlen; simpl; lia|].
  etransitivity; [apply IH|]. unfold cost. rewrite msum_insert. fold (cost m).
  assert (record_cost v <= ENTRY_HEADER_LEN + HEAP_SPILL_THRESHOLD).
  { unfold record_cost. destruct (Z.ltb_spec HEAP_SPILL_THRESHOLD (zlen v)); lia. }
  assert (0 <= from_option record_cost 0 (m !! i)) by (destruct (m !! i); [apply Hpos|done]).
  unfold zlen. simpl length. lia.
Qed.

Lemma single_represents : represents single_slot (fun _ => ∅).
Proof.
  destruct (proj1 created_ok) as (G & x & rs & [S1 S2 S3 S4 S5 S6 S7 S8 S9] & Hc). exists G, x, rs. split; [|done].
  by constructor; try done; destruct S1; constructor.
Qed.

Lemma wide_pending_at v k muts : wide_pending v wide_ids ∅ !! k = Some muts ->
  k = wide_key /\ muts_size muts = 16 /\ forall id mm, muts !! id = Some mm -> mm = Some v.
Proof.
  assert (wide_pending v wide_ids ∅ = {[wide_key := foldl (fun m i => <[i := Some v]> m) ∅ wide_ids]}) as -> by by vm_compute.
  intros [<- <-]%lookup_singleton_Some. split; [done|]. split; [by vm_compute|].
  assert (forall ids (m : Mutations), (forall id mm, m !! id = Some mm -> mm = Some v) ->
    forall id mm, foldl (fun m i => <[i := Some v]> m) m ids !! id = Some mm -> mm = Some v) as H.
  2:{ apply H. intros id mm. by rewrite lookup_empty. }
  intros ids. induction ids as [|i ids IH]; intros m Hm; [done|]. cbn [foldl]. apply IH.
  intros id mm [[_ <-]|[_ E]]%lookup_insert_Some; [done|by eapply Hm].
Qed.

Lemma wide_sizes v : msum muts_size (wide_pending v wide_ids ∅) = 16 /\ size (wide_pending v wide_ids ∅) = 1%nat.
Proof. split; by vm_compute. Qed.

Lemma wide_pending_some v : is_Some (wide_pending v wide_ids ∅ !! wide_key).
Proof. vm_compute. by eexists. Qed.

(** The drain stops, whatever the journal. *)
Lemma wide_settle j : match settle (wide_pending wide_value wide_ids ∅) (with_journal j (with_pend ∅ single_slot)) with (Fail _, _) => true | _ => false end = true.
Proof. vm_compute. reflexivity. Qed.

Lemma settle_fails s e s' : ps_pending s <> ∅ -> settle (ps_pending s) (with_pend ∅ s) = (Fail e, s') -> ps_drain s = (Fail e, s').
Proof.
  intros Hp E. unfold ps_drain, st_bind at 1, st_gets at 1. rewrite decide_False by done.
  unfold st_bind at 1, drain_pages, st_bind at 1, st_gets at 1. unfold st_bind at 1, st_modify at 1. unfold st_bind at 1. by rewrite E.
Qed.

Lemma wide_value_length : zlen wide_value = HEAP_SPILL_THRESHOLD.
Proof. unfold wide_value, zlen. rewrite length_replicate. by vm_compute. Qed.

#[local] Opaque wide_value.

Lemma wide_drain_fails j : exists e s', ps_drain (with_journal j (with_pend (wide_pending wide_value wide_ids ∅) single_slot)) = (Fail e, s').
Proof.
  pose proof (wide_settle j) as Hs. destruct (settle _ _) as [[?|e|] s'] eqn:E; [done| |done]. exists e, s'. apply settle_fails; [|exact E].
  intros E0. apply (f_equal (fun p : PendingRecords => p !! wide_key)) in E0.
  destruct (wide_pending_some wide_value) as [muts Hm].
  cbn [ps_pending with_journal with_pend] in E0. by rewrite Hm, lookup_empty in E0.
Qed.

(** Acknowledged, read back, and forgotten by the drain. *)
Lemma failed_drain_forgets_witness :
  exists e s' id, ps_drain wide_store = (Fail e, s') /\ ps_pending s' = ∅ /\
    (ps_get 7 2 id wide_store).1 = Done (Some wide_value) /\ (ps_get 7 2 id s').1 = Done None.
Proof.
  destruct (wide_puts wide_value wide_ids) with (s := single_slot) (c := fun _ : DirKey => (∅ : Values)) as (j & c & E & Hr & Ec).
  { apply Forall_seqZ. unfold fits. lia. } { rewrite wide_value_length. by vm_compute. } { exact single_represents. }
  change (ps_pending single_slot) with (∅ : PendingRecords) in E.
  change (foldl (wide_put wide_value) single_slot wide_ids) with wide_store in E, Hr.
  assert (ps_pending wide_store = wide_pending wide_value wide_ids ∅) as Ep by by rewrite E.
  assert (drain_budget wide_store c) as Hb.
  { constructor; rewrite ?Ep.
    - intros k muts i [-> _]%wide_pending_at. rewrite Ec. etransitivity; [apply cost_filter|].
      etransitivity; [apply wide_cost; rewrite wide_value_length; done|]. by vm_compute.
    - rewrite E. destruct (wide_sizes wide_value) as [-> ->]. unfold used_blocks. cbn [ps_data with_journal with_pend]. clear. by vm_compute.
    - intros k muts (_ & -> & _)%wide_pending_at. rewrite E. cbn [drained_counts with_journal with_pend]. clear. by vm_compute.
    - rewrite E. cbn [drain_seq with_journal with_pend]. clear. by vm_compute. }
  destruct (failed_drain_forgets wide_store c Hr Hb) as (r & s' & Ed & Hp & H1).
  destruct (wide_drain_fails j) as (e & s0 & Ef). rewrite <- E, Ed in Ef. injection Ef as -> _.
  destruct H1 as (_ & sid & ver & muts & id & Hm & [mm Hmm] & _ & Hpage). exists e, s', id.
  pose proof Hm as Hm'. rewrite Ep in Hm. apply wide_pending_at in Hm as (Ek & _ & Hall). injection Ek as -> ->.
  pose proof (Hall id mm Hmm) as ->. split; [exact Ed|]. split; [exact Hp|]. split.
  - unfold ps_get, st_bind, st_gets. rewrite Hm'. cbn. by rewrite Hmm.
  - rewrite (Hpage id eq_refl). unfold on_page. rewrite E. reflexivity.
Defined.

(** ** A crash in the middle of a drain *)

(** Two types with a settled record each, and one more pending each. *)
Definition two_types : list StoreOp :=
  [OpPut 7 2 1 (text "seven"); OpPut 8 2 1 (text "eight"); OpDrain; OpPut 7 2 2 (text "more"); OpPut 8 2 2 (text "more")].
Definition two_store : PagedStore := (run_ops two_types ps_create).2.

(** The files when the pages are written and nothing of it is journalled. *)
Definition crash_in_drain (s : PagedStore) : StorageResult PagedStore :=
  ps_open (backing_bytes (j_backing (ps_journal s)))
    (backing_bytes (backing (ps_data (settle (ps_pending s) (with_pend ∅ s)).2))).

(** A drain reuses the runs it frees before the descriptors that replace them are journalled: after a crash between the two, the old descriptor of one type points at the page another type's commit wrote over it, and a record that was settled and read back before the drain now reads as the other type's record, without an error *)
Lemma crash_mid_drain_misreads :
  Forall (fun a => a = Done None) (run_ops two_types ps_create).1 /\
  (ps_get 7 2 1 two_store).1 = Done (Some (text "seven")) /\
  exists s', crash_in_drain two_store = Done s' /\ (ps_get 7 2 1 s').1 = Done (Some (text "eight")).
Proof.
  split; [by repeat constructor|]. split; [by vm_compute|].
  assert (match crash_in_drain two_store with Done s' => (ps_get 7 2 1 s').1 = Done (Some (text "eight")) | _ => False end) as H by by vm_compute.
  destruct (crash_in_drain two_store) as [s'|?|]; [|done|done]. by exists s'.
Qed.
End example.
