(* ===== verification/Ring.v ===== *)
(** * The consistent-hash ring (wavedb-quick-node: ring.rs)

    Every node stands at 150 positions of a circle of 64-bit words; a partition
    belongs to the first node clockwise from its hash, and is copied to the next
    distinct ones.

    Adding or removing a node moves only the partitions it takes or gives up; the
    replicas of a partition are distinct nodes led by its owner, and when the owner
    leaves, the next replica owns the partition. *)
From stdpp Require Import sorting.
From S2P Require Import Prelude Ordered Hash.

Abbreviation NodeId := Z.

Definition VIRTUAL_NODES : nat := 150.
Definition FNV_OFFSET : Z := 0xcbf29ce484222325.
Definition FNV_PRIME : Z := 0x00000100000001b3.

(** FNV-1a over bytes, from a running hash. *)
Definition fnv1a (h : Z) (bs : list byte) : Z := foldl (fun h b => mul64 (Z.lxor h (byte_val b)) FNV_PRIME) h bs.

Definition ring_hash (node_id : NodeId) (vn : Z) : Z := fnv1a (fnv1a FNV_OFFSET (le_bytes 8 node_id)) (le_bytes 4 vn).
Definition partition_hash (tenant shard : Z) : Z := fnv1a (fnv1a FNV_OFFSET (le_bytes 8 tenant)) (le_bytes 2 shard).

Record ConsistentRing : Type := { ring : gmap Z NodeId; addrs : gmap NodeId (list byte) }.

Definition ring_new : ConsistentRing := {| ring := ∅; addrs := ∅ |}.

Definition virtual_nodes : list Z := map Z.of_nat (seq 0 VIRTUAL_NODES).

Lemma elem_of_virtual vn : vn ∈ virtual_nodes <-> 0 <= vn < 150.
Proof.
  unfold virtual_nodes, VIRTUAL_NODES. rewrite list_elem_of_fmap. split.
  - intros (k & -> & Hk%elem_of_seq). lia.
  - intros H. exists (Z.to_nat vn). rewrite elem_of_seq. lia.
Qed.

Definition add_node (id : NodeId) (addr : list byte) (r : ConsistentRing) : ConsistentRing :=
  {| ring := foldl (fun m vn => <[ring_hash id vn := id]> m) (ring r) virtual_nodes; addrs := <[id := addr]> (addrs r) |}.

Definition remove_node (id : NodeId) (r : ConsistentRing) : ConsistentRing * bool :=
  match addrs r !! id with
  | None => (r, false)
  | Some _ =>
    ({| ring := foldl (fun m vn => delete (ring_hash id vn) m) (ring r) virtual_nodes; addrs := delete id (addrs r) |}, true)
  end.

Definition owner_of (tenant shard : Z) (r : ConsistentRing) : option NodeId :=
  if decide (ring r = ∅) then None
  else
    let key := partition_hash tenant shard in
    match range_from key (ring r) with
    | Some (_, id) => Some id
    | None => snd <$> first_entry (ring r)
    end.

(** The walk of [replicas_of], one entry after the other. *)
Fixpoint collect (n total : Z) (out : list NodeId) (l : list (Z * NodeId)) : list NodeId :=
  match l with
  | [] => out
  | (_, id) :: l =>
    if bool_decide (id ∈ out) then collect n total out l
    else
      let out := out ++ [id] in
      if (zlen out =? n) || (zlen out =? total) then out else collect n total out l
  end.

Definition node_count (r : ConsistentRing) : Z := Z.of_nat (size (addrs r)).
Definition ring_is_empty (r : ConsistentRing) : bool := bool_decide (addrs r = ∅).
Definition addr_of (id : NodeId) (r : ConsistentRing) : option (list byte) := addrs r !! id.

(** A HashMap's iteration order is not specified; this is one of them. *)
Definition nodes (r : ConsistentRing) : list NodeId := map fst (map_to_list (addrs r)).

(** [ring.range(key..).chain(ring.iter())]. *)
Definition clockwise (key : Z) (m : gmap Z NodeId) : list (Z * NodeId) :=
  filter (fun t => (key <=? t.1) = true) (by_key m) ++ by_key m.

Definition replicas_of (tenant shard n : Z) (r : ConsistentRing) : list NodeId :=
  if (n =? 0) || bool_decide (ring r = ∅) then []
  else collect n (node_count r) [] (clockwise (partition_hash tenant shard) (ring r)).

(** ** Positions *)

Definition positions (id : NodeId) : list Z := map (ring_hash id) virtual_nodes.

Lemma inserts_lookup (f : Z -> Z) (id : NodeId) l (m : gmap Z NodeId) pos :
  foldl (fun m vn => <[f vn := id]> m) m l !! pos = if decide (pos ∈ map f l) then Some id else m !! pos.
Proof.
  revert m. induction l as [|vn l IH]; intros m; cbn [foldl map].
  - by rewrite decide_False by apply not_elem_of_nil.
  - rewrite IH. destruct (decide (pos ∈ map f l)) as [Hl|Hl].
    + rewrite decide_True; [done|]. by right.
    + destruct (decide (pos = f vn)) as [->|Hne].
      * rewrite lookup_insert_eq, decide_True; [done|]. by left.
      * rewrite lookup_insert_ne by done. rewrite decide_False; [done|]. by intros [?|?]%elem_of_cons.
Qed.

Lemma deletes_lookup (f : Z -> Z) l (m : gmap Z NodeId) pos :
  foldl (fun m vn => delete (f vn) m) m l !! pos = if decide (pos ∈ map f l) then None else m !! pos.
Proof.
  revert m. induction l as [|vn l IH]; intros m; cbn [foldl map].
  - by rewrite decide_False by apply not_elem_of_nil.
  - rewrite IH. destruct (decide (pos ∈ map f l)) as [Hl|Hl].
    + rewrite decide_True; [done|]. by right.
    + destruct (decide (pos = f vn)) as [->|Hne].
      * rewrite lookup_delete_eq, decide_True; [done|]. by left.
      * rewrite lookup_delete_ne by done. rewrite decide_False; [done|]. by intros [?|?]%elem_of_cons.
Qed.

Lemma add_lookup id addr r pos :
  ring (add_node id addr r) !! pos = if decide (pos ∈ positions id) then Some id else ring r !! pos.
Proof. apply inserts_lookup. Qed.

Lemma remove_lookup id r pos : is_Some (addrs r !! id) ->
  ring (remove_node id r).1 !! pos = if decide (pos ∈ positions id) then None else ring r !! pos.
Proof. intros [a Ha]. unfold remove_node. rewrite Ha. apply deletes_lookup. Qed.

(** No two of these nodes share a position. *)
Definition apart (ids : gset NodeId) : Prop :=
  forall i j pos, i ∈ ids -> j ∈ ids -> pos ∈ positions i -> pos ∈ positions j -> i = j.

(** The ring is the positions of its nodes. *)
Record ring_ok (r : ConsistentRing) : Prop := {
  ro_apart : apart (dom (addrs r));
  ro_ring : forall pos id, ring r !! pos = Some id <-> id ∈ dom (addrs r) /\ pos ∈ positions id
}.

Lemma apart_subset ids ids' : ids ⊆ ids' -> apart ids' -> apart ids.
Proof. intros Hs Ha i j pos Hi Hj. apply Ha; by apply Hs. Qed.

Lemma ring_new_ok : ring_ok ring_new.
Proof.
  constructor; simpl; rewrite dom_empty_L; [by intros i j pos ?%elem_of_empty|]. intros pos id. rewrite lookup_empty. split; [done|].
  by intros [?%elem_of_empty _].
Qed.

(** Adding a node that collides with none. *)
Lemma add_node_ok id addr r :
  ring_ok r -> apart ({[id]} ∪ dom (addrs r)) -> ring_ok (add_node id addr r).
Proof.
  intros [Ha Hr] Hap. assert (dom (addrs (add_node id addr r)) = {[id]} ∪ dom (addrs r)) as Ed by (simpl; by rewrite dom_insert_L).
  constructor; rewrite Ed; [done|]. intros pos id'. rewrite add_lookup. case_decide as Hp.
  - split; [intros [= <-]; split; [set_solver|done]|]. intros [Hid' Hp']. f_equal. apply (Hap id id' pos); [set_solver|done..].
  - rewrite Hr. split; [intros []; split; [set_solver|done]|]. intros [[->%elem_of_singleton|?]%elem_of_union ?]; done.
Qed.

Lemma remove_node_ok id r : ring_ok r -> ring_ok (remove_node id r).1.
Proof.
  intros Hok. pose proof Hok as [Ha Hr]. destruct (addrs r !! id) as [a|] eqn:E; [|unfold remove_node; by rewrite E].
  assert (dom (addrs (remove_node id r).1) = dom (addrs r) ∖ {[id]}) as Ed by (unfold remove_node; rewrite E; simpl; by rewrite dom_delete_L).
  constructor; rewrite Ed.
  - eapply apart_subset; [|exact Ha]. set_solver.
  - intros pos id'. rewrite remove_lookup by done. assert (id ∈ dom (addrs r)) as Hid by (apply elem_of_dom; by eexists).
    case_decide as Hp.
    + split; [done|]. intros [Hd Hp']. assert (id = id') by (eapply Ha; [done| |done..]; set_solver). set_solver.
    + rewrite Hr. split; [|set_solver]. intros [Hd Hp']. split; [|done]. apply elem_of_difference. split; [done|]. intros ->%elem_of_singleton. done.
Qed.

(** ** The owner *)

(** The first entry clockwise from a key. *)
Definition first_clockwise (key : Z) (m : gmap Z NodeId) : option (Z * NodeId) :=
  match range_from key m with Some t => Some t | None => first_entry m end.

Lemma owner_first t s r : owner_of t s r = snd <$> first_clockwise (partition_hash t s) (ring r).
Proof.
  unfold owner_of, first_clockwise. case_decide as He; [by rewrite He|]. destruct (range_from _ _) as [[? ?]|]; done.
Qed.

(** [p] comes no later than [q] on the way clockwise from [key]. *)
Definition before (key p q : Z) : Prop :=
  if decide (key <= p) then q < key \/ p <= q else q < key /\ p <= q.

Lemma first_clockwise_spec key m :
  match first_clockwise key m with
  | Some (p, id) => m !! p = Some id /\ forall q id', m !! q = Some id' -> before key p q
  | None => m = ∅
  end.
Proof.
  unfold first_clockwise, before. pose proof (range_from_spec key m) as H1. destruct (range_from key m) as [[p id]|]; simpl in H1.
  - destruct H1 as (Hp & Hk & Hmin). split; [done|]. intros q id' Hq. rewrite decide_True by lia.
    destruct (Z.lt_ge_cases q key); [by left|right]. specialize (Hmin q id' Hq). lia.
  - pose proof (first_entry_spec m) as H2. destruct (first_entry m) as [[p id]|]; simpl in H2.
    + destruct H2 as (Hp & _ & Hmin). split; [done|]. intros q id' Hq. pose proof (H1 p id Hp) as Hkp. pose proof (H1 q id' Hq) as Hkq.
      rewrite decide_False by lia. specialize (Hmin q id' Hq eq_refl). simpl in *. lia.
    + apply map_eq. intros q. rewrite lookup_empty. destruct (m !! q) as [id|] eqn:E; [|done]. specialize (H2 q id E). done.
Qed.

Lemma before_antisym key p q : before key p q -> before key q p -> p = q.
Proof. unfold before. repeat case_decide; lia. Qed.

Lemma first_clockwise_is key m p id :
  m !! p = Some id -> (forall q id', m !! q = Some id' -> before key p q) -> first_clockwise key m = Some (p, id).
Proof.
  intros Hp Hmin. pose proof (first_clockwise_spec key m) as Hs. destruct (first_clockwise key m) as [[p' id']|].
  - destruct Hs as [Hp' Hmin']. assert (p = p') as <- by (eapply before_antisym; eauto). congruence.
  - subst. by rewrite lookup_empty in Hp.
Qed.

(** Rings of the same members are the same, in whatever order they joined. *)
Lemma same_members_ring r r' : ring_ok r -> ring_ok r' -> dom (addrs r) = dom (addrs r') -> ring r = ring r'.
Proof.
  intros [_ Hr] [_ Hr'] Ed. apply map_eq. intros pos. apply option_eq. intros id. by rewrite Hr, Hr', Ed.
Qed.

Lemma same_members_owner t s r r' : ring_ok r -> ring_ok r' -> dom (addrs r) = dom (addrs r') -> owner_of t s r = owner_of t s r'.
Proof. intros H1 H2 Ed. rewrite !owner_first. by rewrite (same_members_ring r r'). Qed.

(** A ring with a member gives every partition to one. *)
Lemma owner_member t s r id : ring_ok r -> id ∈ dom (addrs r) -> exists o, owner_of t s r = Some o /\ o ∈ dom (addrs r).
Proof.
  intros [_ Hr] Hid. rewrite owner_first. pose proof (first_clockwise_spec (partition_hash t s) (ring r)) as Hs.
  destruct (first_clockwise _ _) as [[p o]|].
  - destruct Hs as [Hs _]. exists o. split; [done|]. by apply Hr in Hs as [? _].
  - assert (ring r !! ring_hash id 0 = Some id) as E.
    { apply Hr. split; [done|]. apply list_elem_of_fmap. exists 0. split; [done|]. by apply elem_of_virtual. }
    by rewrite Hs, lookup_empty in E.
Qed.

(** ** One lap *)

Definition lap (key : Z) (m : gmap Z NodeId) : list (Z * NodeId) :=
  filter (fun t => (key <=? t.1) = true) (by_key m) ++ filter (fun t => (t.1 <? key) = true) (by_key m).

Lemma by_key_sorted (m : gmap Z NodeId) : StronglySorted (fun x y => (x.1 <=? y.1) = true) (by_key m).
Proof. apply ordered_sorted; intros; lia. Qed.

Lemma sorted_split key (l : list (Z * NodeId)) : StronglySorted (fun x y => (x.1 <=? y.1) = true) l ->
  l = filter (fun t => (t.1 <? key) = true) l ++ filter (fun t => (key <=? t.1) = true) l.
Proof.
  induction 1 as [|a l Hs IH Ha]; [done|]. rewrite Forall_forall in Ha. rewrite !filter_cons. destruct (Z.ltb_spec a.1 key) as [Hlt|Hge].
  - rewrite decide_True, decide_False by lia. simpl. by rewrite <- IH.
  - rewrite decide_False, decide_True by lia. rewrite IH at 1.
    assert (filter (fun t => (t.1 <? key) = true) l = []) as ->; [|done].
    apply elem_of_nil_inv. intros t [Hk Ht]%list_elem_of_filter. specialize (Ha t Ht). lia.
Qed.

Lemma elem_of_lap key m p id : (p, id) ∈ lap key m <-> m !! p = Some id.
Proof.
  unfold lap. rewrite <- (elem_of_ordered Z.leb), elem_of_app, !list_elem_of_filter. simpl. destruct (Z.leb_spec key p), (Z.ltb_spec p key); (tauto || lia).
Qed.

Lemma lap_sorted key m : StronglySorted (fun x y => before key x.1 y.1) (lap key m).
Proof.
  assert (forall P `{!forall t : Z * NodeId, Decision (P t)}, StronglySorted (fun x y => x.1 <= y.1) (filter P (by_key m))) as Hf.
  { intros P HP. pose proof (by_key_sorted m) as Hs. induction Hs as [|a l Hs IH Ha]; [constructor|]. rewrite filter_cons.
    case_decide; [|done]. constructor; [done|]. rewrite Forall_forall in Ha |- *. intros t [_ Ht]%list_elem_of_filter. specialize (Ha t Ht). lia. }
  assert (forall (P : Z * NodeId -> Prop) (l : list (Z * NodeId)), (forall x y, P x -> P y -> x.1 <= y.1 -> before key x.1 y.1) ->
    Forall P l -> StronglySorted (fun x y => x.1 <= y.1) l -> StronglySorted (fun x y => before key x.1 y.1) l) as Hmono.
  { intros P l Hb HP Hs. induction Hs as [|a l Hs IH Ha]; [constructor|]. inversion HP; subst. constructor; [by apply IH|].
    rewrite !Forall_forall in *. intros t Ht. apply Hb; [done|by match goal with H : forall x, x ∈ l -> P x |- _ => apply H end|by apply Ha]. }
  unfold lap. apply StronglySorted_app. split; [|split].
  - intros x y [Hx _]%list_elem_of_filter [Hy _]%list_elem_of_filter. unfold before. rewrite decide_True by lia. left. lia.
  - apply (Hmono (fun t => key <= t.1)); [|apply Forall_forall; intros t [Ht _]%list_elem_of_filter; lia|apply Hf].
    intros x y Hx Hy Hle. unfold before. rewrite decide_True by lia. by right.
  - apply (Hmono (fun t => t.1 < key)); [|apply Forall_forall; intros t [Ht _]%list_elem_of_filter; lia|apply Hf].
    intros x y Hx Hy Hle. unfold before. rewrite decide_False by lia. done.
Qed.

(** The first entry of a lap that satisfies [P], when the ring is cut down to those. *)
Lemma lap_first key (m m' : gmap Z NodeId) l1 p id l2 :
  lap key m = l1 ++ (p, id) :: l2 -> (forall q i, m' !! q = Some i -> m !! q = Some i) -> m' !! p = Some id ->
  (forall t, t ∈ l1 -> m' !! t.1 = None) -> first_clockwise key m' = Some (p, id).
Proof.
  intros El Hsub Hp Hnone. apply first_clockwise_is; [done|]. intros q i Hq.
  pose proof (lap_sorted key m) as Hs. rewrite El in Hs. apply StronglySorted_app in Hs as (_ & _ & Hs). inversion Hs as [|? ? _ Hall]; subst.
  assert ((q, i) ∈ lap key m) as Hin by by apply elem_of_lap, Hsub. rewrite El in Hin.
  apply elem_of_app in Hin as [Hin|[[= -> ->]|Hin]%elem_of_cons].
  - specialize (Hnone _ Hin). simpl in Hnone. congruence.
  - unfold before. case_decide; lia.
  - rewrite Forall_forall in Hall. apply (Hall (q, i) Hin).
Qed.

Lemma first_lap key m : first_clockwise key m = head (lap key m).
Proof.
  destruct (lap key m) as [|[p id] l] eqn:El; simpl.
  - pose proof (first_clockwise_spec key m) as Hs. destruct (first_clockwise key m) as [[p id]|]; [|done]. destruct Hs as [Hp _].
    apply elem_of_lap with (key := key) in Hp. rewrite El in Hp. by apply elem_of_nil in Hp.
  - eapply (lap_first key m m [] p id l); [done|done| |by intros ? ?%elem_of_nil]. apply (elem_of_lap key). rewrite El. by left.
Qed.

(** ** The distinct nodes of a walk *)

Fixpoint uniques (out : list NodeId) (l : list (Z * NodeId)) : list NodeId :=
  match l with
  | [] => []
  | (_, id) :: l => if bool_decide (id ∈ out) then uniques out l else id :: uniques (out ++ [id]) l
  end.

Lemma uniques_app out l1 l2 : uniques out (l1 ++ l2) = uniques out l1 ++ uniques (out ++ uniques out l1) l2.
Proof.
  revert out. induction l1 as [|[p id] l1 IH]; intros out; simpl; [by rewrite app_nil_r|].
  case_bool_decide; simpl; [apply IH|]. rewrite IH. f_equal. f_equal. f_equal. by rewrite <- (assoc_L (++)).
Qed.

Lemma elem_of_uniques out l id : id ∈ out \/ id ∈ uniques out l <-> id ∈ out \/ id ∈ map snd l.
Proof.
  revert out. induction l as [|[p i] l IH]; intros out; simpl; [done|]. rewrite (elem_of_cons (map snd l)). case_bool_decide as Hi.
  - rewrite IH. naive_solver.
  - rewrite elem_of_cons. specialize (IH (out ++ [i])). rewrite elem_of_app, list_elem_of_singleton in IH. naive_solver.
Qed.

Lemma uniques_none out l : (forall t, t ∈ l -> t.2 ∈ out) -> uniques out l = [].
Proof.
  induction l as [|[p i] l IH]; intros Hl; simpl; [done|]. rewrite bool_decide_eq_true_2 by (apply (Hl (p, i)); by left). apply IH. intros t Ht. apply Hl. by right.
Qed.

Lemma uniques_nodup out l : NoDup out -> NoDup (out ++ uniques out l).
Proof.
  revert out. induction l as [|[p i] l IH]; intros out Hn; simpl; [by rewrite app_nil_r|]. case_bool_decide as Hi; [by apply IH|].
  change (i :: uniques (out ++ [i]) l) with ([i] ++ uniques (out ++ [i]) l). rewrite (assoc_L (++)). apply IH.
  apply NoDup_app. split; [done|]. split; [|apply NoDup_singleton]. by intros x Hx ->%list_elem_of_singleton.
Qed.

Lemma uniques_first out l p u : uniques out l = p :: u ->
  exists l1 pos l2, l = l1 ++ (pos, p) :: l2 /\ (forall t, t ∈ l1 -> t.2 ∈ out) /\ p ∉ out.
Proof.
  revert u. induction l as [|[q i] l IH]; intros u; simpl; [done|]. case_bool_decide as Hi.
  - intros (l1 & pos & l2 & -> & Hl & Hp)%IH. exists ((q, i) :: l1), pos, l2. split; [done|]. split; [|done]. by intros t [->|Ht]%elem_of_cons; [|apply Hl].
  - intros [= -> _]. exists [], q, l. split; [done|]. split; [by intros ? ?%elem_of_nil|done].
Qed.

(** A walk collects the first distinct nodes. *)
Lemma collect_uniques n total out l :
  zlen out < n -> zlen out < total ->
  collect n total out l = out ++ take (Z.to_nat (Z.min n total - zlen out)) (uniques out l).
Proof.
  revert out. induction l as [|[p i] l IH]; intros out Hn Ht; simpl; [by rewrite take_nil, app_nil_r|].
  case_bool_decide as Hi; [by apply IH|]. assert (zlen (out ++ [i]) = zlen out + 1) as El by (rewrite zlen_app; done).
  rewrite El. destruct (Z.eqb_spec (zlen out + 1) n) as [En|En]; simpl.
  - replace (Z.to_nat (Z.min n total - zlen out)) with 1%nat by lia. done.
  - destruct (Z.eqb_spec (zlen out + 1) total) as [Et|Et].
    + replace (Z.to_nat (Z.min n total - zlen out)) with 1%nat by lia. done.
    + rewrite IH, El by lia. replace (Z.to_nat (Z.min n total - zlen out)) with (S (Z.to_nat (Z.min n total - (zlen out + 1)))) by lia.
      simpl. by rewrite <- (assoc_L (++)).
Qed.

Lemma uniques_clockwise key m : uniques [] (clockwise key m) = uniques [] (lap key m).
Proof.
  assert (clockwise key m = lap key m ++ filter (fun t => (key <=? t.1) = true) (by_key m)) as ->.
  { unfold clockwise, lap. rewrite <- (assoc_L (++)). f_equal. by apply sorted_split, by_key_sorted. }
  rewrite uniques_app. cbn [app]. rewrite (uniques_none (uniques [] (lap key m))); [apply app_nil_r|].
  intros [p i] Hin. simpl. pose proof (elem_of_uniques [] (lap key m) i) as [_ He]. destruct He as [?%elem_of_nil|?]; [|done..].
  right. apply list_elem_of_fmap. exists (p, i). split; [done|]. unfold lap. apply elem_of_app. by left.
Qed.

Lemma ring_inhabited r : ring_ok r -> ring r = ∅ <-> addrs r = ∅.
Proof.
  intros [_ Hr]. split; intros E.
  - apply map_eq. intros id. rewrite lookup_empty. destruct (addrs r !! id) as [a|] eqn:Ea; [|done].
    assert (ring r !! ring_hash id 0 = Some id) as H; [|by rewrite E, lookup_empty in H]. apply Hr. split; [apply elem_of_dom; by eexists|].
    apply list_elem_of_fmap. exists 0. split; [done|]. by apply elem_of_virtual.
  - apply map_eq. intros p. rewrite lookup_empty. destruct (ring r !! p) as [id|] eqn:Ep; [|done].
    apply Hr in Ep as [Hd _]. rewrite E, dom_empty_L in Hd. by apply elem_of_empty in Hd.
Qed.

Lemma replicas_uniques t s n r : 0 <= n -> ring_ok r ->
  replicas_of t s n r = take (Z.to_nat (Z.min n (node_count r))) (uniques [] (lap (partition_hash t s) (ring r))).
Proof.
  intros Hn Hok. pose proof (ring_inhabited r Hok) as He. unfold replicas_of. destruct (Z.eqb_spec n 0) as [->|Hne]; simpl.
  - rewrite Z.min_l by (unfold node_count; lia). done.
  - case_bool_decide as Hr.
    + unfold node_count. rewrite (proj1 He Hr), map_size_empty. by rewrite Z.min_r by lia.
    + assert (size (addrs r) <> O) as Hs by (intros E%map_size_empty_iff; apply Hr; tauto). unfold node_count.
      rewrite collect_uniques by (change (zlen []) with 0; lia). by rewrite uniques_clockwise, Z.sub_0_r.
Qed.

Lemma elem_of_lap_nodes key r id : ring_ok r -> id ∈ uniques [] (lap key (ring r)) <-> id ∈ dom (addrs r).
Proof.
  intros [_ Hr]. pose proof (elem_of_uniques [] (lap key (ring r)) id) as He.
  assert (id ∈ uniques [] (lap key (ring r)) <-> id ∈ map snd (lap key (ring r))) as ->.
  { rewrite elem_of_nil in He. tauto. }
  rewrite list_elem_of_fmap. split.
  - intros ([p i] & -> & Hin%elem_of_lap). by apply Hr in Hin as [? _].
  - intros Hd. exists (ring_hash id 0, id). split; [done|]. apply elem_of_lap, Hr. split; [done|].
    apply list_elem_of_fmap. exists 0. split; [done|]. by apply elem_of_virtual.
Qed.

(** A lap meets every node once. *)
Lemma lap_nodes key r : ring_ok r -> length (uniques [] (lap key (ring r))) = size (addrs r).
Proof.
  intros Hok. rewrite <- size_dom.
  assert (list_to_set (uniques [] (lap key (ring r))) = dom (addrs r)) as <-.
  { apply set_eq. intros id. rewrite elem_of_list_to_set. by apply elem_of_lap_nodes. }
  rewrite size_list_to_set; [done|]. apply (uniques_nodup []), NoDup_nil_2.
Qed.

Lemma uniques_head l : head (uniques [] l) = snd <$> head l.
Proof. by destruct l as [|[p i] l]. Qed.

(** What is left of the ring when a node goes. *)
Lemma remove_rest id r : ring_ok r ->
  (forall q i, ring (remove_node id r).1 !! q = Some i <-> ring r !! q = Some i /\ i <> id).
Proof.
  intros Hok q i. pose proof Hok as [Ha Hr]. destruct (addrs r !! id) as [a|] eqn:Ea.
  - rewrite remove_lookup by by eexists. case_decide as Hd.
    + split; [done|]. intros [Hq Hne]. exfalso. apply Hne. symmetry. apply Hr in Hq as [Hi Hpi].
      eapply Ha; [|done..]. apply elem_of_dom. by eexists.
    + split; [|by intros []]. intros Hq. split; [done|]. intros ->. by apply Hr in Hq as [_ ?].
  - unfold remove_node. rewrite Ea. split; [|by intros []]. intros Hq. split; [done|]. intros ->.
    apply Hr in Hq as [[? Hd]%elem_of_dom _]. congruence.
Qed.

(** ** Properties *)

(** A node that joins the ring takes partitions for itself only: every partition is then owned by the new node or by the node that owned it before, whatever positions collide *)
Theorem add_node_moves id addr r t s :
  owner_of t s (add_node id addr r) = Some id \/ owner_of t s (add_node id addr r) = owner_of t s r.
Proof.
  rewrite !owner_first. set (key := partition_hash t s). pose proof (first_clockwise_spec key (ring (add_node id addr r))) as Hs.
  destruct (first_clockwise key (ring (add_node id addr r))) as [[p i]|].
  - destruct Hs as [Hp Hmin]. rewrite add_lookup in Hp. case_decide as Hd; [injection Hp as ->; by left|]. right.
    rewrite (first_clockwise_is key (ring r) p i); [done|done|]. intros q i' Hq.
    destruct (decide (q ∈ positions id)) as [Hpos|Hpos]; eapply Hmin; rewrite add_lookup; [by rewrite decide_True|rewrite decide_False; done].
  - right. assert (ring (add_node id addr r) !! ring_hash id 0 = Some id) as H; [|by rewrite Hs, lookup_empty in H].
    rewrite add_lookup, decide_True; [done|]. apply list_elem_of_fmap. exists 0. split; [done|]. by apply elem_of_virtual.
Qed.

(** C30: a node that leaves the ring gives up its own partitions and no other: it owns nothing afterwards, every partition it did not own keeps its owner, and a partition it did own passes to the node that was the next replica *)
Theorem remove_node_moves id r t s :
  ring_ok r ->
  let r' := (remove_node id r).1 in
  owner_of t s r' <> Some id /\
  (owner_of t s r <> Some id -> owner_of t s r' = owner_of t s r) /\
  (forall next, replicas_of t s 2 r = [id; next] -> owner_of t s r' = Some next).
Proof.
  intros Hok r'. subst r'. set (key := partition_hash t s). pose proof (remove_rest id r Hok) as Hrest.
  rewrite !owner_first. fold key. split; [|split].
  - pose proof (first_clockwise_spec key (ring (remove_node id r).1)) as Hs. destruct (first_clockwise _ _) as [[p i]|]; [|done].
    destruct Hs as [Hp _]. apply Hrest in Hp as [_ Hne]. simpl. congruence.
  - intros Hne. pose proof (first_clockwise_spec key (ring r)) as Hs. destruct (first_clockwise key (ring r)) as [[p i]|].
    + destruct Hs as [Hp Hmin]. simpl in Hne. rewrite (first_clockwise_is key _ p i); [done| |].
      * apply Hrest. split; [exact Hp|]. intros ->. by apply Hne.
      * intros q j Hq. apply Hrest in Hq as [Hq _]. by eapply Hmin.
    + pose proof (first_clockwise_spec key (ring (remove_node id r).1)) as Hs2. destruct (first_clockwise _ _) as [[p i]|]; [|done].
      destruct Hs2 as [Hp _]. apply Hrest in Hp as [Hp _]. by rewrite Hs, lookup_empty in Hp.
  - intros next E. rewrite replicas_uniques in E by done. fold key in E. destruct (uniques [] (lap key (ring r))) as [|o u] eqn:Eu.
    { by rewrite take_nil in E. }
    destruct (Z.to_nat _) as [|[|k]]; [done|done|]. destruct u as [|p' u]; [done|]. simpl in E. injection E as -> -> _.
    destruct (lap key (ring r)) as [|[p0 i0] l] eqn:Elap; [done|]. simpl in Eu. injection Eu as -> Eu.
    apply uniques_first in Eu as (l1 & pos & l2 & -> & Hl1 & Hnext). rewrite list_elem_of_singleton in Hnext.
    assert (forall p i, (p, i) ∈ (p0, id) :: l1 ++ (pos, next) :: l2 -> ring r !! p = Some i) as Hin.
    { intros p i Hpi. apply (elem_of_lap key). by rewrite Elap. }
    rewrite (lap_first key (ring r) _ ((p0, id) :: l1) pos next l2); [done|done| | |].
    + intros q i Hq. by apply Hrest in Hq as [? _].
    + apply Hrest. split; [|done]. apply Hin. set_solver.
    + intros [q i] Hq. simpl. destruct (ring (remove_node id r).1 !! q) as [j|] eqn:Ej; [|done]. exfalso. apply Hrest in Ej as [Hj Hne]. apply Hne.
      assert (i = id) as ->.
      { apply elem_of_cons in Hq as [[= _ ->]|Hq]; [done|]. specialize (Hl1 _ Hq). by apply list_elem_of_singleton in Hl1. }
      assert (ring r !! q = Some id); [|congruence]. apply Hin. set_solver.
Qed.

(** C31: the replicas of a partition are as many distinct nodes of the ring as were asked for, or all of them when there are fewer; the owner leads them, and asking for more only appends *)
Theorem replicas_of_spec t s n r :
  0 <= n -> ring_ok r ->
  zlen (replicas_of t s n r) = Z.min n (node_count r) /\ NoDup (replicas_of t s n r) /\
  (forall id, id ∈ replicas_of t s n r -> is_Some (addr_of id r)) /\
  (0 < n -> head (replicas_of t s n r) = owner_of t s r) /\
  (forall n', n <= n' -> replicas_of t s n r `prefix_of` replicas_of t s n' r).
Proof.
  intros Hn Hok. pose proof (lap_nodes (partition_hash t s) r Hok) as Hlen. rewrite replicas_uniques by done.
  pose proof (fun id => elem_of_lap_nodes (partition_hash t s) r id Hok) as Hdom.
  set (u := uniques [] (lap (partition_hash t s) (ring r))) in *. split; [|split; [|split; [|split]]].
  - unfold zlen, node_count in *. rewrite length_take. lia.
  - apply (sublist_NoDup _ u); [|apply sublist_take]. apply (uniques_nodup []), NoDup_nil_2.
  - intros id Hin. unfold addr_of. apply elem_of_dom, Hdom. rewrite <- (take_drop (Z.to_nat (Z.min n (node_count r))) u). apply elem_of_app. by left.
  - intros Hpos. rewrite owner_first, first_lap, <- uniques_head. fold u. unfold node_count. rewrite <- Hlen.
    destruct u as [|i u0]; [by rewrite take_nil|]. simpl length. replace (Z.to_nat _) with (S (Z.to_nat (Z.min n (Z.of_nat (S (length u0))) - 1))) by lia. done.
  - intros n' Hle. rewrite replicas_uniques by (done || lia). fold u. eexists (drop _ _).
    assert (take (Z.to_nat (Z.min n (node_count r))) u = take (Z.to_nat (Z.min n (node_count r))) (take (Z.to_nat (Z.min n' (node_count r))) u)) as ->.
    { rewrite take_take. f_equal. lia. }
    symmetry. apply take_drop.
Qed.

(** ** Examples: three nodes *)

Definition three_nodes : ConsistentRing := foldr (fun id => add_node id [Byte.x6e]) ring_new [1; 2; 3].

(** Distinct positions, told by computing them. *)
Lemma apart_list (l : list NodeId) : NoDup (concat (map positions l)) -> apart (list_to_set l).
Proof.
  intros Hn i j pos Hi%elem_of_list_to_set Hj%elem_of_list_to_set Hpi Hpj. induction l as [|k l IH]; [by apply elem_of_nil in Hi|].
  cbn [map concat] in Hn. apply NoDup_app in Hn as (_ & Hdis & Hn).
  assert (forall x, x ∈ l -> pos ∈ positions x -> pos ∈ concat (map positions l)) as Hc.
  { intros x Hx Hp. apply list_elem_of_In, in_concat. exists (positions x). split; apply list_elem_of_In; [|done]. apply list_elem_of_fmap. by exists x. }
  apply elem_of_cons in Hi as [->|Hi]; apply elem_of_cons in Hj as [->|Hj]; [done| | |by apply IH]; exfalso; eapply Hdis; eauto.
Qed.

Lemma three_ok : ring_ok three_nodes.
Proof.
  assert (apart (list_to_set [1; 2; 3])) as Ha.
  { apply apart_list. apply (bool_decide_unpack _). by vm_compute. }
  unfold three_nodes. cbn [foldr]. repeat apply add_node_ok; [apply ring_new_ok|..]; (eapply apart_subset; [|exact Ha]);
    cbn [addrs add_node ring_new list_to_set]; rewrite ?dom_insert_L, ?dom_empty_L; set_solver.
Qed.

Lemma remove_node_moves_witness :
  replicas_of 7 0 2 three_nodes = [1; 3] /\ owner_of 7 0 (remove_node 1 three_nodes).1 = Some 3.
Proof.
  assert (replicas_of 7 0 2 three_nodes = [1; 3]) as E by by vm_compute. split; [exact E|].
  by apply (remove_node_moves 1 three_nodes 7 0 three_ok).
Defined.

Lemma three_count : node_count three_nodes = 3.
Proof.
  unfold node_count.
  assert (addrs three_nodes = <[1:=[Byte.x6e]]> (<[2:=[Byte.x6e]]> (<[3:=[Byte.x6e]]> ∅))) as E by exact eq_refl.
  rewrite E. clear E.
  rewrite map_size_insert_None by (rewrite lookup_insert_None; rewrite lookup_insert_None; rewrite lookup_empty; split_and?; done).
  rewrite map_size_insert_None by (rewrite lookup_insert_None; rewrite lookup_empty; split_and?; done).
  rewrite map_size_insert_None by (rewrite lookup_empty; done).
  rewrite map_size_empty.
  reflexivity.
Qed.

Lemma replicas_of_spec_witness :
  zlen (replicas_of 7 0 5 three_nodes) = 3 /\ head (replicas_of 7 0 5 three_nodes) = owner_of 7 0 three_nodes.
Proof.
  destruct (replicas_of_spec 7 0 5 three_nodes ltac:(lia) three_ok) as (E & _ & _ & Hh & _).
  rewrite three_count in E.
  split; [exact E|]. apply Hh. lia.
Defined.
