(* ===== verification/Auth.v ===== *)
(** * Node tokens (wavedb-net: auth.rs)

    A token is a MAC over the sender, the time and the purpose.  HMAC-SHA256 is
    code of the hmac and sha2 crates and a parameter of the functions below; the
    clock is an argument. *)
From S2P Require Import Prelude Wire WireOk Page.

Definition WINDOW_SECS : Z := 30.

Inductive TokenPurpose : Type := PGossip | PFlush | PMonitor | PReplicate.

#[export] Instance TokenPurpose_eq_dec : EqDecision TokenPurpose.
Proof. solve_decision. Defined.

(** The discriminants, [purpose as u8]. *)
Definition purpose_byte (p : TokenPurpose) : Z :=
  match p with PGossip => 0x01 | PFlush => 0x02 | PMonitor => 0x03 | PReplicate => 0x04 end.

Record NodeToken : Type := { tk_node_id : Z; timestamp_secs : Z; tag : list byte }.

#[export] Instance NodeToken_eq_dec : EqDecision NodeToken.
Proof. solve_decision. Defined.

(** The 32 bytes of [ClusterKey]. *)
Abbreviation ClusterKey := (list byte).

Definition hex_nibble (b : byte) : outcome string Z :=
  let v := byte_val b in
  if (0x30 <=? v) && (v <=? 0x39) then Done (v - 0x30)
  else if (0x61 <=? v) && (v <=? 0x66) then Done (v - 0x61 + 10)
  else if (0x41 <=? v) && (v <=? 0x46) then Done (v - 0x41 + 10)
  else Fail "invalid hex character in cluster key".

(** [chunks(2)]: the last chunk may hold one byte. *)
Fixpoint chunks2 (l : list byte) : list (list byte) :=
  match l with
  | a :: b :: l => [a; b] :: chunks2 l
  | [a] => [[a]]
  | [] => []
  end.

Definition hex_byte (chunk : list byte) : outcome string byte :=
  let* a := expect (chunk !! 0%nat) in
  let* hi := hex_nibble a in
  let* b := expect (chunk !! 1%nat) in
  let* lo := hex_nibble b in
  Done (byte_of (Z.lor (wrap 8 (Z.shiftl hi 4)) lo)).

Definition from_hex (hex : list byte) : outcome string ClusterKey :=
  if negb (zlen hex =? 64) then Fail "cluster key must be exactly 64 hex characters (32 bytes)"
  else omapM hex_byte (chunks2 hex).

Section auth.
(** The MAC of a key and a message: 32 bytes. *)
Variable hmac_sha256 : list byte -> list byte -> list byte.

Definition compute_tag (key : ClusterKey) (node_id ts : Z) (purpose : TokenPurpose) : list byte :=
  hmac_sha256 key (le_bytes 8 node_id ++ le_bytes 8 ts ++ [byte_of (purpose_byte purpose)]).

Definition mint_at (key : ClusterKey) (node_id : Z) (purpose : TokenPurpose) (ts : Z) : NodeToken :=
  {| tk_node_id := node_id; timestamp_secs := ts; tag := compute_tag key node_id ts purpose |}.

(** The difference of two tags, accumulated over all their bytes. *)
Definition tag_diff (expected found : list byte) : Z :=
  foldl (fun diff ab => Z.lor diff (Z.lxor (byte_val ab.1) (byte_val ab.2))) 0 (zip expected found).

Definition verify_at (key : ClusterKey) (token : NodeToken) (purpose : TokenPurpose) (now_secs : Z) : bool :=
  let ts := timestamp_secs token in
  let skew := Z.max now_secs ts - Z.min now_secs ts in
  if WINDOW_SECS <? skew then false
  else tag_diff (compute_tag key (tk_node_id token) ts purpose) (tag token) =? 0.

End auth.

(** ** Wire layouts *)

Definition purposes : list TokenPurpose := [PGossip; PFlush; PMonitor; PReplicate].

Definition purpose_tag (p : TokenPurpose) : nat :=
  match p with PGossip => 0 | PFlush => 1 | PMonitor => 2 | PReplicate => 3 end.

Definition wire_purpose : Wire TokenPurpose := wire_unit_enum "TokenPurpose" purposes purpose_tag.

#[export] Instance purpose_ok : WireOk wire_purpose (fun _ => True).
Proof. apply unit_enum_ok; [by apply Nat.leb_le | by intros []]. Defined.

Definition token_fields (t : NodeToken) : Z * (Z * list byte) := (tk_node_id t, (timestamp_secs t, tag t)).

Definition token_build (x : Z * (Z * list byte)) : NodeToken :=
  let '(n, (ts, tg)) := x in {| tk_node_id := n; timestamp_secs := ts; tag := tg |}.

Definition wire_token : Wire NodeToken :=
  wire_struct token_fields token_build (wire_pair (wire_uint 8) (wire_pair (wire_uint 8) (wire_array 32 wire_u8))).

Definition token_wf (t : NodeToken) : Prop :=
  fits 64 (tk_node_id t) /\ fits 64 (timestamp_secs t) /\ length (tag t) = 32%nat.

#[export] Instance token_ok : WireOk wire_token token_wf.
Proof.
  eapply struct_ok; [apply _|..].
  - intros [n ts tg] (H1 & H2 & H3). simpl in *. split_and!; try done. by apply Forall_forall.
  - intros (n & ts & tg) (H1 & H2 & _ & H3). by split_and!.
  - by intros [].
Defined.

(** ** Tokens and keys *)

Lemma lor_zero a b : 0 <= a -> 0 <= b -> Z.lor a b = 0 <-> a = 0 /\ b = 0.
Proof. intros Ha Hb. apply Z.lor_eq_0_iff. Qed.

Lemma tag_diff_zero l : forall d, 0 <= d ->
  foldl (fun diff ab => Z.lor diff (Z.lxor (byte_val ab.1) (byte_val ab.2))) d l = 0 <->
  d = 0 /\ Forall (fun ab => ab.1 = ab.2) l.
Proof.
  induction l as [|[a b] l IH]; intros d Hd; cbn [foldl].
  - split; [by intros ->|by intros []].
  - pose proof (byte_val_range a). pose proof (byte_val_range b).
    assert (0 <= Z.lxor (byte_val a) (byte_val b)) by (apply Z.lxor_nonneg; lia).
    rewrite IH by (by apply Z.lor_nonneg). cbn [fst snd]. rewrite lor_zero by done. rewrite Forall_cons. cbn [fst snd].
    rewrite Z.lxor_eq_0_iff.
    assert (byte_val a = byte_val b <-> a = b) as ->; [|tauto].
    split; [|congruence]. intros E. by rewrite <- (byte_of_val a), <- (byte_of_val b), E.
Qed.

Lemma tag_diff_eq (x y : list byte) : length x = length y -> tag_diff x y = 0 <-> x = y.
Proof.
  intros Hl. unfold tag_diff. rewrite tag_diff_zero by done. split.
  - intros [_ Hf]. revert y Hl Hf. induction x as [|a x IH]; intros [|b y] Hl Hf; try done.
    simpl in Hf. apply Forall_cons in Hf as [E Hf]. simpl in E. f_equal; [done|]. apply IH; [simpl in Hl; lia|done].
  - intros ->. split; [done|]. clear Hl. induction y as [|a y IH]; simpl; constructor; done.
Qed.

(** C32: a token verifies exactly when it is the one its sender, time and purpose mint under the same key and its time is within thirty seconds of the verifier's clock, either way *)
Theorem verify_at_iff hmac key token purpose now :
  (forall k m, length (hmac k m) = 32%nat) -> length (tag token) = 32%nat ->
  verify_at hmac key token purpose now = true <->
  token = mint_at hmac key (tk_node_id token) purpose (timestamp_secs token) /\
  Z.abs (now - timestamp_secs token) <= WINDOW_SECS.
Proof.
  intros Hh Hl. unfold verify_at, mint_at.
  assert (Z.max now (timestamp_secs token) - Z.min now (timestamp_secs token) = Z.abs (now - timestamp_secs token)) as -> by lia.
  destruct (Z.ltb_spec WINDOW_SECS (Z.abs (now - timestamp_secs token))) as [Hw|Hw]; [split; [done|lia]|].
  rewrite Z.eqb_eq, tag_diff_eq by (unfold compute_tag; rewrite Hh; lia). split.
  - intros E. split; [|done]. destruct token as [n ts tg]. cbn in *. by rewrite E.
  - intros [E _]. destruct token as [n ts tg]. cbn in *. by injection E.
Qed.

(** A MAC for the examples: the first bytes of key and message. *)
Definition demo_mac (key msg : list byte) : list byte := resize 32 (msg ++ key).

Lemma demo_mac_length k m : length (demo_mac k m) = 32%nat.
Proof. pose proof (zlen_resize 32 (m ++ k)) as H. unfold zlen in H. unfold demo_mac. lia. Qed.

Lemma verify_at_iff_witness :
  verify_at demo_mac [Byte.x01] (mint_at demo_mac [Byte.x01] 7 PFlush 100) PFlush 130 = true.
Proof.
  apply (verify_at_iff demo_mac [Byte.x01] (mint_at demo_mac [Byte.x01] 7 PFlush 100) PFlush 130).
  - exact demo_mac_length.
  - apply demo_mac_length.
  - split; [done|]. by vm_compute.
Defined.
