(* ===== verification/Cluster.v ===== *)
(** * Cluster bookkeeping
    (wavedb-quick-node: ownership.rs, replication.rs, gossip.rs)

    Each handle is a lock around a value; a lock is taken for one operation, so
    the values below are the states between operations. *)
From S2P Require Import Prelude Ordered Ring Auth.

(** ** Partition ownership *)

Record ShardRange : Type := { sr_start : Z; sr_end : Z }.

#[export] Instance ShardRange_eq_dec : EqDecision ShardRange.
Proof. solve_decision. Defined.

Definition range_contains (r : ShardRange) (shard : Z) : bool := (sr_start r <=? shard) && (shard <=? sr_end r).
Definition range_len (r : ShardRange) : Z := if sr_end r <? sr_start r then 0 else sr_end r - sr_start r + 1.
Definition range_is_empty (r : ShardRange) : bool := sr_end r <? sr_start r.

Record PartitionOwnership : Type := { po_tenant : Z; po_range : ShardRange }.

#[export] Instance PartitionOwnership_eq_dec : EqDecision PartitionOwnership.
Proof. solve_decision. Defined.

Abbreviation OwnershipMap := (list PartitionOwnership).

(** [Vec::swap_remove]. *)
Definition swap_remove {A} (i : nat) (l : list A) : list A :=
  match last l with Some x => take (length l - 1) (<[i := x]> l) | None => l end.

Definition own_add (tenant : Z) (range : ShardRange) (m : OwnershipMap) : OwnershipMap :=
  m ++ [{| po_tenant := tenant; po_range := range |}].

Definition own_remove (tenant : Z) (range : ShardRange) (m : OwnershipMap) : OwnershipMap * bool :=
  match list_find (fun p => p = {| po_tenant := tenant; po_range := range |}) m with
  | Some (pos, _) => (swap_remove pos m, true)
  | None => (m, false)
  end.

Definition map_owns (tenant shard : Z) (m : OwnershipMap) : bool :=
  existsb (fun p => (po_tenant p =? tenant) && range_contains (po_range p) shard) m.

Definition own_all (m : OwnershipMap) : list PartitionOwnership := m.
Definition own_len (m : OwnershipMap) : Z := zlen m.
Definition own_is_empty (m : OwnershipMap) : bool := bool_decide (m = []).

Inductive TransferState : Type := Pending | Accepted | Complete | Rejected.

#[export] Instance TransferState_eq_dec : EqDecision TransferState.
Proof. solve_decision. Defined.

Record TransferRecord : Type := {
  tr_ownership : PartitionOwnership;
  from_node : NodeId;
  to_node : NodeId;
  tr_state : TransferState
}.

Record TransferTracker : Type := { transfers : gmap Z TransferRecord; next_id : Z }.

Definition tracker_new : TransferTracker := {| transfers := ∅; next_id := 0 |}.

Definition begin_transfer (o : PartitionOwnership) (from to : NodeId) (t : TransferTracker) : TransferTracker * Z :=
  let id := next_id t in
  ({| transfers := <[id := {| tr_ownership := o; from_node := from; to_node := to; tr_state := Pending |}]> (transfers t);
      next_id := wrap 64 (next_id t + 1) |}, id).

Definition advance_transfer (id : Z) (state : TransferState) (t : TransferTracker) : TransferTracker * bool :=
  match transfers t !! id with
  | Some rec =>
    ({| transfers := <[id := {| tr_ownership := tr_ownership rec; from_node := from_node rec; to_node := to_node rec;
                                tr_state := state |}]> (transfers t);
        next_id := next_id t |}, true)
  | None => (t, false)
  end.

Definition state_of (id : Z) (t : TransferTracker) : option TransferState := tr_state <$> transfers t !! id.

Definition finish_transfer (id : Z) (t : TransferTracker) : TransferTracker * option TransferRecord :=
  ({| transfers := delete id (transfers t); next_id := next_id t |}, transfers t !! id).

Definition active_transfers (t : TransferTracker) : list (Z * TransferRecord) := map_to_list (transfers t).

(** ** Replication *)

Record ReplicaRecord : Type := { rr_id : Z; rr_data : list byte }.

Record ReplicateBatch : Type := {
  rb_origin : NodeId;
  rb_write_seq : Z;
  rb_records : list ReplicaRecord;
  rb_token : option NodeToken
}.

Record ReplicateAck : Type := { ack_write_seq : Z }.

Record PeerState : Type := { acked : Z; sent : Z }.

Definition peer_new : PeerState := {| acked := 0; sent := 0 |}.
Definition peer_record_send (seq : Z) (s : PeerState) : PeerState := {| acked := acked s; sent := Z.max (sent s) seq |}.
Definition peer_record_ack (seq : Z) (s : PeerState) : PeerState := {| acked := Z.max (acked s) seq; sent := sent s |}.
Definition lag (s : PeerState) : Z := Z.max 0 (sent s - acked s).

Record ReplicationWatermark : Type := { rep_peers : gmap NodeId PeerState; local_seq : Z }.

Definition watermark_new : ReplicationWatermark := {| rep_peers := ∅; local_seq := 0 |}.

Definition with_peers (ps : gmap NodeId PeerState) (w : ReplicationWatermark) : ReplicationWatermark :=
  {| rep_peers := ps; local_seq := local_seq w |}.

(** [entry(peer).or_insert_with]. *)
Definition add_peer (peer : NodeId) (w : ReplicationWatermark) : ReplicationWatermark :=
  match rep_peers w !! peer with
  | Some _ => w
  | None => with_peers (<[peer := peer_new]> (rep_peers w)) w
  end.

Definition remove_peer (peer : NodeId) (w : ReplicationWatermark) : ReplicationWatermark :=
  with_peers (delete peer (rep_peers w)) w.

(** The counter wraps; the sum of the returned value is checked. *)
Definition next_seq {E} : ST ReplicationWatermark E Z := fun w =>
  (uadd 64 (local_seq w) 1, {| rep_peers := rep_peers w; local_seq := wrap 64 (local_seq w + 1) |}).

Definition current_seq (w : ReplicationWatermark) : Z := local_seq w.

Definition record_send (peer : NodeId) (seq : Z) (w : ReplicationWatermark) : ReplicationWatermark :=
  with_peers (alter (peer_record_send seq) peer (rep_peers w)) w.

Definition record_ack (peer : NodeId) (seq : Z) (w : ReplicationWatermark) : ReplicationWatermark :=
  with_peers (alter (peer_record_ack seq) peer (rep_peers w)) w.

Definition acked_by (peer : NodeId) (w : ReplicationWatermark) : option Z := acked <$> rep_peers w !! peer.
Definition lag_for (peer : NodeId) (w : ReplicationWatermark) : option Z := lag <$> rep_peers w !! peer.

Definition is_fully_replicated (seq : Z) (w : ReplicationWatermark) : bool :=
  if bool_decide (rep_peers w = ∅) then true
  else forallb (fun s => seq <=? acked s) (map snd (map_to_list (rep_peers w))).

Definition is_caught_up (w : ReplicationWatermark) : bool := is_fully_replicated (current_seq w) w.

Definition watermark_snapshot (w : ReplicationWatermark) : list (NodeId * Z) :=
  map (fun t => (t.1, acked t.2)) (by_key (rep_peers w)).

(** ** Gossip *)

Inductive GossipKind : Type := Announce | Withdraw.

#[export] Instance GossipKind_eq_dec : EqDecision GossipKind.
Proof. solve_decision. Defined.

Record GossipMessage : Type := {
  gm_epoch : Z;
  gm_origin : NodeId;
  gm_addr : list byte;
  gm_kind : GossipKind;
  gm_token : option NodeToken
}.

Inductive GossipResponse : Type := Ack | NodeList (nodes : list (NodeId * list byte)).

Record GossipState : Type := { seen : gset (NodeId * Z); epoch : Z }.

Definition gossip_new : GossipState := {| seen := ∅; epoch := 0 |}.

Definition next_epoch {E} : ST GossipState E Z := fun g =>
  (uadd 64 (epoch g) 1, {| seen := seen g; epoch := wrap 64 (epoch g + 1) |}).

Definition mark_seen (origin : NodeId) (ep : Z) (g : GossipState) : GossipState * bool :=
  ({| seen := {[(origin, ep)]} ∪ seen g; epoch := epoch g |}, bool_decide ((origin, ep) ∉ seen g)).

(** FNV-1a over the address. *)
Definition addr_to_node_id (addr : list byte) : NodeId := fnv1a FNV_OFFSET addr.
