(* ===== verification/Request.v ===== *)
(** * Requests, responses, frames and endpoints (wavedb-net: request.rs, frame.rs,
    metrics.rs; the handlers of the two nodes' server.rs)

    The messages with their layouts and the frames they travel in; then what every
    HTTP endpoint does around its own work: a body that is absent or does not decode is
    refused, a token is asked for where a cluster key is configured, and a response
    that does not encode is an internal error. *)
From S2P Require Import Prelude Wire WireOk Auth Page.

(** The bytes of a string literal. *)
Definition str (s : string) : list byte := String.list_byte_of_string s.

(** ** Messages *)

Inductive RequestKind : Type :=
  | Connect (user tenant : Z)
  | SearchUnique (struct_id user tenant : Z)
  | QueryNonUnique (struct_id user tenant : Z) (filter : list byte)
  | WriteReq (struct_id user tenant : Z) (payload : list byte)
  | DeleteReq (id user tenant : Z)
  | Disconnect (user tenant : Z).

Record TransportRequest : Type := { req_seq : Z; req_kind : RequestKind }.

Definition request_new (seq : Z) (kind : RequestKind) : TransportRequest := {| req_seq := seq; req_kind := kind |}.

Inductive ErrorCode : Type :=
  UnknownHeader | MalformedPayload | ValidationFailed | PreprocessFailed | CStorage | Unsupported.

#[export] Instance ErrorCode_eq_dec : EqDecision ErrorCode.
Proof. solve_decision. Defined.

Record NodeError : Type := {
  ne_code : ErrorCode;
  ne_struct_id : Z;
  ne_field : option (list byte);
  ne_message : list byte
}.

Record Notification : Type := {
  nt_anchor_id : Z;
  nt_deleted : bool;
  nt_payload : option (list byte)
}.

Record TransportResponse : Type := {
  rs_seq : Z;
  rs_payload : list byte;
  owner_url : option (list byte);
  backup_url : option (list byte);
  notifications : list Notification;
  rs_error : option NodeError
}.

Definition resp_ok (seq : Z) (payload : list byte) : TransportResponse :=
  {| rs_seq := seq; rs_payload := payload; owner_url := None; backup_url := None; notifications := []; rs_error := None |}.

Definition resp_err (seq : Z) (error : NodeError) : TransportResponse :=
  {| rs_seq := seq; rs_payload := []; owner_url := None; backup_url := None; notifications := []; rs_error := Some error |}.

(** ** Wire layouts, as derived *)

Abbreviation u64 := (wire_uint 8).
Abbreviation u32 := (wire_uint 4).

Definition request_cases (k : RequestKind) :
    (Z * Z) + ((Z * (Z * Z)) + ((Z * (Z * (Z * list byte))) + ((Z * (Z * (Z * list byte))) + ((Z * (Z * Z)) + (Z * Z))))) :=
  match k with
  | Connect u t => inl (u, t)
  | SearchUnique s u t => inr (inl (s, (u, t)))
  | QueryNonUnique s u t f => inr (inr (inl (s, (u, (t, f)))))
  | WriteReq s u t p => inr (inr (inr (inl (s, (u, (t, p))))))
  | DeleteReq i u t => inr (inr (inr (inr (inl (i, (u, t))))))
  | Disconnect u t => inr (inr (inr (inr (inr (u, t)))))
  end.

Definition request_build (x : (Z * Z) + ((Z * (Z * Z)) + ((Z * (Z * (Z * list byte))) +
    ((Z * (Z * (Z * list byte))) + ((Z * (Z * Z)) + (Z * Z)))))) : RequestKind :=
  match x with
  | inl (u, t) => Connect u t
  | inr (inl (s, (u, t))) => SearchUnique s u t
  | inr (inr (inl (s, (u, (t, f))))) => QueryNonUnique s u t f
  | inr (inr (inr (inl (s, (u, (t, p)))))) => WriteReq s u t p
  | inr (inr (inr (inr (inl (i, (u, t)))))) => DeleteReq i u t
  | inr (inr (inr (inr (inr (u, t))))) => Disconnect u t
  end.

Definition wire_request_kind : Wire RequestKind :=
  wire_enum "RequestKind" request_cases request_build
    (variant_or (wire_pair u64 u64)
    (variant_or (wire_pair u32 (wire_pair u64 u64))
    (variant_or (wire_pair u32 (wire_pair u64 (wire_pair u64 wire_bytes)))
    (variant_or (wire_pair u32 (wire_pair u64 (wire_pair u64 wire_bytes)))
    (variant_or (wire_pair (wire_uint 16) (wire_pair u64 u64))
    (variant (wire_pair u64 u64))))))).

Definition wire_request : Wire TransportRequest :=
  wire_struct (fun r => (req_seq r, req_kind r)) (fun x => {| req_seq := x.1; req_kind := x.2 |})
    (wire_pair u64 wire_request_kind).

Definition error_codes : list ErrorCode :=
  [UnknownHeader; MalformedPayload; ValidationFailed; PreprocessFailed; CStorage; Unsupported].

Definition error_code_tag (c : ErrorCode) : nat :=
  match c with
  | UnknownHeader => 0 | MalformedPayload => 1 | ValidationFailed => 2
  | PreprocessFailed => 3 | CStorage => 4 | Unsupported => 5
  end.

Definition wire_error_code : Wire ErrorCode := wire_unit_enum "ErrorCode" error_codes error_code_tag.

Definition error_fields (e : NodeError) : ErrorCode * (Z * (option (list byte) * list byte)) :=
  (ne_code e, (ne_struct_id e, (ne_field e, ne_message e))).

Definition error_build (x : ErrorCode * (Z * (option (list byte) * list byte))) : NodeError :=
  let '(c, (s, (f, m))) := x in {| ne_code := c; ne_struct_id := s; ne_field := f; ne_message := m |}.

Definition wire_node_error : Wire NodeError :=
  wire_struct error_fields error_build
    (wire_pair wire_error_code (wire_pair u32 (wire_pair (wire_option wire_string) wire_string))).

Definition notification_fields (n : Notification) : Z * (bool * option (list byte)) :=
  (nt_anchor_id n, (nt_deleted n, nt_payload n)).

Definition notification_build (x : Z * (bool * option (list byte))) : Notification :=
  let '(a, (d, p)) := x in {| nt_anchor_id := a; nt_deleted := d; nt_payload := p |}.

Definition wire_notification : Wire Notification :=
  wire_struct notification_fields notification_build
    (wire_pair (wire_uint 16) (wire_pair wire_bool (wire_option wire_bytes))).

Definition response_fields (r : TransportResponse) :
    Z * (list byte * (option (list byte) * (option (list byte) * (list Notification * option NodeError)))) :=
  (rs_seq r, (rs_payload r, (owner_url r, (backup_url r, (notifications r, rs_error r))))).

Definition response_build (x : Z * (list byte * (option (list byte) * (option (list byte) *
    (list Notification * option NodeError))))) : TransportResponse :=
  let '(s, (p, (o, (b, (n, e))))) := x in
  {| rs_seq := s; rs_payload := p; owner_url := o; backup_url := b; notifications := n; rs_error := e |}.

Definition wire_response : Wire TransportResponse :=
  wire_struct response_fields response_build
    (wire_pair u64 (wire_pair wire_bytes (wire_pair (wire_option wire_string) (wire_pair (wire_option wire_string)
      (wire_pair (wire_vec wire_notification) (wire_option wire_node_error)))))).

(** ** Well-formed messages *)

Definition kind_wf (k : RequestKind) : Prop :=
  match k with
  | Connect u t | Disconnect u t => fits 64 u /\ fits 64 t
  | SearchUnique s u t | QueryNonUnique s u t _ | WriteReq s u t _ => fits 32 s /\ fits 64 u /\ fits 64 t
  | DeleteReq i u t => fits 128 i /\ fits 64 u /\ fits 64 t
  end.

Definition request_wf (r : TransportRequest) : Prop := fits 64 (req_seq r) /\ kind_wf (req_kind r).

Definition text_wf (o : option (list byte)) : Prop :=
  forall s, o = Some s -> utf8_valid s = true.

Definition node_error_wf (e : NodeError) : Prop :=
  fits 32 (ne_struct_id e) /\ text_wf (ne_field e) /\ utf8_valid (ne_message e) = true.

Definition notification_wf (n : Notification) : Prop := fits 128 (nt_anchor_id n).

Definition response_wf (r : TransportResponse) : Prop :=
  fits 64 (rs_seq r) /\ text_wf (owner_url r) /\ text_wf (backup_url r) /\
  Forall notification_wf (notifications r) /\
  (forall e, rs_error r = Some e -> node_error_wf e).

Lemma any_bytes (l : list byte) : Forall (fun _ => True) l.
Proof. by apply Forall_forall. Qed.

#[export] Hint Resolve any_bytes : core.

#[export] Instance request_kind_ok : WireOk wire_request_kind kind_wf.
Proof.
  eapply enum_ok; [apply _|by apply Nat.leb_le|..].
  - intros []; simpl; intuition auto.
  - intros [[]|[(? & ? & ?)|[(? & ? & ? & ?)|[(? & ? & ? & ?)|[(? & ? & ?)|[]]]]]]; simpl; tauto.
  - by intros [].
Defined.

#[export] Instance request_ok : WireOk wire_request request_wf.
Proof. eapply struct_ok; [apply _|by intros []..]. Defined.

#[export] Instance error_code_ok : WireOk wire_error_code (fun _ => True).
Proof. apply unit_enum_ok; [by apply Nat.leb_le | by intros []]. Defined.

#[export] Instance node_error_ok : WireOk wire_node_error node_error_wf.
Proof.
  eapply struct_ok; [apply _|..].
  - intros [c s f m] (H1 & H2 & H3); cbn in *; split_and!; done.
  - intros (c & s & f & m) (_ & H1 & H2 & H3); cbn in *; split_and!; done.
  - by intros [].
Defined.

#[export] Instance notification_ok : WireOk wire_notification notification_wf.
Proof.
  eapply struct_ok; [apply _|..].
  - intros [a d p] H; cbn in *; split_and!; auto.
  - by intros (a & d & p) (H & _).
  - by intros [].
Defined.

#[export] Instance notification_sized : Sized wire_notification.
Proof. done. Qed.

#[export] Instance response_ok : WireOk wire_response response_wf.
Proof.
  eapply struct_ok; [apply _|..].
  - intros [s p o b n e] (H1 & H2 & H3 & H4 & H5); cbn in *. split_and!; auto.
  - intros (s & p & o & b & n & e) (H1 & _ & H2 & H3 & H4 & H5); cbn in *. split_and!; auto.
  - by intros [].
Defined.

(** ** Frames *)

Definition LENGTH_PREFIX_BYTES : nat := 4.

Section frame.
Context {T : Type} (c : Wire T).

(** The length is truncated to 32 bits. *)
Definition frame_encode (value : T) : WireResult (list byte) :=
  let* payload := to_wire c value in
  Done (le_bytes 4 (wrap 32 (zlen payload)) ++ payload).

(** One frame off the front of the buffer, when all of it is there; a frame that
    does not decode is consumed. *)
Definition frame_decode : ST (list byte) WireError (option T) := fun buf =>
  if (length buf <? LENGTH_PREFIX_BYTES)%nat then (Done None, buf)
  else
    let len := le_val (take 4 buf) in
    if zlen buf <? 4 + len then (Done None, buf)
    else
      let rest := drop 4 buf in
      let payload := take (Z.to_nat len) rest in
      ((let* v := from_wire c payload in Done (Some v)), drop (Z.to_nat len) rest).

Definition decode_payload (payload : list byte) : WireResult T := from_wire c payload.
Definition encode_payload (value : T) : WireResult (list byte) := to_wire c value.
End frame.

Lemma take_le_bytes n z (l : list byte) : take n (le_bytes n z ++ l) = le_bytes n z.
Proof. rewrite <- (length_le_bytes n z) at 1. apply take_app_length. Qed.

Lemma drop_le_bytes n z (l : list byte) : drop n (le_bytes n z ++ l) = l.
Proof. rewrite <- (length_le_bytes n z) at 1. apply drop_app_length. Qed.

Section frames.
Context {T : Type} (c : Wire T) (wf : T -> Prop) `{!WireOk c wf}.

Lemma frame_encode_done v :
  wf v -> slots_fit c v = true -> fits 32 (zlen (enc c v)) ->
  frame_encode c v = Done (le_bytes 4 (zlen (enc c v)) ++ enc c v).
Proof. intros Hv Hf Hl. unfold frame_encode. rewrite (to_wire_enc c wf v Hv Hf). simpl. by rewrite wrap_small. Qed.

(** Frames can be read off a stream as they arrive: a buffer that starts with a message's frame gives that message and keeps exactly the bytes behind the frame, and a buffer that holds only part of the frame gives nothing and is left as it was *)
Theorem frame_decode_stream v rest n :
  wf v -> slots_fit c v = true -> fits 32 (zlen (enc c v)) ->
  exists frame, frame_encode c v = Done frame /\
    frame_decode c (frame ++ rest) = (Done (Some v), rest) /\
    ((n < length frame)%nat -> frame_decode c (take n frame) = (Done None, take n frame)).
Proof.
  intros Hv Hf Hl. eexists. split; [by apply frame_encode_done|]. set (p := enc c v) in *.
  assert (le_val (le_bytes 4 (zlen p)) = zlen p) as El by (by apply le_val_bytes). split.
  - unfold frame_decode, LENGTH_PREFIX_BYTES. rewrite <- (assoc_L (++)).
    destruct (Nat.ltb_spec (length (le_bytes 4 (zlen p) ++ p ++ rest)) 4); [len|].
    rewrite take_le_bytes, El, drop_le_bytes.
    destruct (Z.ltb_spec (zlen (le_bytes 4 (zlen p) ++ p ++ rest)) (4 + zlen p)); [unfold zlen in *; len|].
    unfold zlen. rewrite Nat2Z.id, take_app_length, drop_app_length. unfold p. by rewrite (from_wire_enc c wf v Hv Hf).
  - intros Hn. unfold frame_decode, LENGTH_PREFIX_BYTES. rewrite length_take. match goal with |- context [(?a <? 4)%nat] => destruct (Nat.ltb_spec a 4) as [|Hge] end; [done|].
    rewrite take_take. replace (4 `min` n)%nat with 4%nat by lia. rewrite take_le_bytes, El.
    destruct (Z.ltb_spec (zlen (take n (le_bytes 4 (zlen p) ++ p))) (4 + zlen p)) as [|Hge2]; [done|].
    unfold zlen in Hge2. rewrite length_take in Hge2. len.
Qed.
End frames.

Definition demo_request : TransportRequest := request_new 3 (WriteReq 9 1 2 [Byte.x01; Byte.xff]).

Lemma frame_decode_stream_witness :
  exists frame, frame_encode wire_request demo_request = Done frame /\
    frame_decode wire_request (frame ++ [Byte.x07]) = (Done (Some demo_request), [Byte.x07]) /\
    ((5 < length frame)%nat -> frame_decode wire_request (take 5 frame) = (Done None, take 5 frame)).
Proof.
  apply (frame_decode_stream wire_request request_wf demo_request [Byte.x07] 5).
  - by vm_compute.
  - by vm_compute.
  - by vm_compute.
Defined.

(** ** Endpoints *)

Inductive StatusCode : Type := SOk | SBadRequest | SForbidden | SInternal.

#[export] Instance StatusCode_eq_dec : EqDecision StatusCode.
Proof. solve_decision. Defined.

(** An endpoint over the state [S] of its server. *)
Abbreviation Answer S := (ST S Empty_set (StatusCode * list byte)).

(** A request for a metrics snapshot (metrics.rs). *)
Record MetricsRequest : Type := { mr_token : option NodeToken }.

Definition wire_metrics_request : Wire MetricsRequest :=
  wire_struct mr_token (fun t => {| mr_token := t |}) (wire_option wire_token).

Section token.
(** The MAC of tokens, the clock in seconds and the configured cluster key. *)
Variable hmac : list byte -> list byte -> list byte.
Variable now_secs : Z.
Variable auth_key : option ClusterKey.

(** No key admits everyone; a key asks for a valid token. *)
Definition admitted (token : option NodeToken) (purpose : TokenPurpose) : bool :=
  match auth_key with
  | None => true
  | Some key => match token with Some t => verify_at hmac key t purpose now_secs | None => false end
  end.

End token.

Section answers.
Context {S : Type}.

(** The request in a body; what does not decode is refused. *)
Definition with_body {T} (c : Wire T) (body : list byte) (k : T -> Answer S) : Answer S :=
  match body with
  | [] => st_ret (SBadRequest, [])
  | _ =>
    match decode_payload c body with
    | Done req => k req
    | Fail _ => st_ret (SBadRequest, [])
    | Fault => fun s => (Fault, s)
    end
  end.

Definition reply {T} (c : Wire T) (resp : T) : Answer S :=
  match encode_payload c resp with
  | Done b => st_ret (SOk, b)
  | Fail _ => st_ret (SInternal, [])
  | Fault => fun s => (Fault, s)
  end.

(** An endpoint that reads its request and writes its response. *)
Lemma with_body_done {T} (c : Wire T) (body : list byte) (req : T) (k : T -> Answer S) s :
  body <> [] -> decode_payload c body = Done req -> with_body c body k s = k req s.
Proof. intros Hb E. unfold with_body. destruct body; [done|]. by rewrite E. Qed.

Lemma reply_done {T} (c : Wire T) (resp : T) b (s : S) : encode_payload c resp = Done b -> reply c resp s = (Done (SOk, b), s).
Proof. intros E. unfold reply. by rewrite E. Qed.
End answers.
