(* ===== verification/Registry.v ===== *)
(** * Object descriptors and the registry
    (wavedb-core: registry.rs, error.rs; the layout of wavedb-macros: descriptor.rs)

    A descriptor is plain data; a reference to one of its fields is the field's
    index.  The lookup, validation and preprocessing functions of a registry are
    generated from the application's declarations: values of the model. *)
From S2P Require Import Prelude Wire Ids.

(** ** Errors of the core crate *)

Record ValidationError : Type := { ve_field : option (list byte); ve_message : list byte }.

Definition validation_new (message : list byte) : ValidationError := {| ve_field := None; ve_message := message |}.
Definition validation_field (field message : list byte) : ValidationError :=
  {| ve_field := Some field; ve_message := message |}.

Inductive CoreError : Type :=
  | EIo (msg : list byte)
  | EWire (e : WireError)
  | StructIdOverflow (n : Z)
  | TenantIdOverflow (n : Z)
  | ShardIdOverflow (n : Z)
  | CreatedAtOverflow (n : Z)
  | EOrphanSecondary
  | EChecksumMismatch (expected actual : Z)
  | EPageFull
  | ENotFound
  | PermissionDenied (user tenant : Z)
  | ENoMigrationPath (from to : Z)
  | MigrationSer (msg : list byte)
  | MigrationDe (msg : list byte)
  | Validation (struct_id : Z) (source : ValidationError)
  | EUnknownHeader (header : Z)
  | Transport (msg : list byte)
  | EOther (msg : list byte).

(** ** Descriptors *)

Inductive FieldKind : Type :=
  | KU8 | KU16 | KU32 | KU64 | KU128 | KI8 | KI16 | KI32 | KI64 | KI128 | KF32 | KF64
  | KBool | KChar | KId | KStr | KBytes | KList | KOption | KOther.

#[export] Instance FieldKind_eq_dec : EqDecision FieldKind.
Proof. solve_decision. Defined.

Record FieldDescriptor : Type := {
  fd_name : list byte;
  stack_offset : nat;
  fd_stack_size : nat;
  heapable : bool;
  fd_kind : FieldKind
}.

Record ObjectDescriptor : Type := {
  od_header : Z;
  od_struct_id : Z;
  od_version : Z;
  od_shape : Shape;
  type_name : list byte;
  od_stack_size : nat;
  od_fixed : bool;
  fields : list FieldDescriptor;
  heap_fields : list (list byte)
}.

Definition desc_field (d : ObjectDescriptor) (name : list byte) : option nat :=
  fst <$> list_find (fun f => fd_name f = name) (fields d).

Record ObjectRegistry : Type := {
  descriptors : list ObjectDescriptor;
  find_fn : Z -> option ObjectDescriptor;
  validate_fn : Z -> list byte -> outcome CoreError unit;
  preprocess_fn : Z -> list byte -> outcome CoreError (option (list byte))
}.

Definition reg_find (r : ObjectRegistry) (header : Z) : option ObjectDescriptor := find_fn r header.
Definition reg_contains (r : ObjectRegistry) (header : Z) : bool := bool_decide (is_Some (reg_find r header)).
Definition reg_validate (r : ObjectRegistry) (header : Z) (body : list byte) : outcome CoreError unit :=
  validate_fn r header body.
Definition reg_preprocess (r : ObjectRegistry) (header : Z) (body : list byte) : outcome CoreError (option (list byte)) :=
  preprocess_fn r header body.

(** ** The layout a declaration gets *)

(** What the macro knows of a field: its name, its kind and the constants of its
    codec; [fs_listed] is the syntactic test of [heap_fields]. *)
Record FieldShape : Type := {
  fs_name : list byte;
  fs_kind : FieldKind;
  fs_size : nat;
  fs_fixed : bool;
  fs_listed : bool
}.

(** Each field's slot starts behind those of the fields before it. *)
Fixpoint field_entries (offset : nat) (l : list FieldShape) : list FieldDescriptor :=
  match l with
  | [] => []
  | f :: l =>
    {| fd_name := fs_name f; stack_offset := offset; fd_stack_size := fs_size f;
       heapable := negb (fs_fixed f); fd_kind := fs_kind f |} :: field_entries (offset + fs_size f) l
  end.

Definition build_descriptor (struct_id version : Z) (shape : Shape) (name : list byte)
    (l : list FieldShape) : ObjectDescriptor :=
  {| od_header := pack_header struct_id version; od_struct_id := struct_id; od_version := version;
     od_shape := shape; type_name := name;
     od_stack_size := sum_list (map fs_size l); od_fixed := forallb fs_fixed l;
     fields := field_entries 0 l;
     heap_fields := map fs_name (filter (fun f => fs_listed f = true) l) |}.

Lemma field_entries_lookup off l i :
  field_entries off l !! i =
  (fun f => {| fd_name := fs_name f; stack_offset := off + sum_list (map fs_size (take i l)); fd_stack_size := fs_size f;
               heapable := negb (fs_fixed f); fd_kind := fs_kind f |}) <$> l !! i.
Proof.
  revert off i. induction l as [|f l IH]; intros off [|i]; cbn [field_entries]; [done|done|..].
  - cbn. by rewrite Nat.add_0_r.
  - cbn [lookup list_lookup take map sum_list fold_right]. rewrite IH. destruct (l !! i) as [g|]; [|done].
    cbn. do 2 f_equal. lia.
Qed.
