(* ===== verification/Query.v ===== *)
(** * The query language (wavedb-core: query.rs)

    An expression is evaluated on the wire bytes of a record through the offsets
    of its descriptor.  Floats are their bit patterns; their comparison is IEEE
    754's, from the Standard Library's [SpecFloat] at the precision of [f64]. *)
From Stdlib Require Import SpecFloat.
From S2P Require Import Prelude Wire WireOk Page Registry.

(** ** Expressions *)

Inductive Value : Type :=
  | VU8 (v : Z) | VU16 (v : Z) | VU32 (v : Z) | VU64 (v : Z) | VU128 (v : Z)
  | VI8 (v : Z) | VI16 (v : Z) | VI32 (v : Z) | VI64 (v : Z) | VI128 (v : Z)
  | VF32 (bits : Z) | VF64 (bits : Z)
  | VStr (v : list byte) | VBool (v : bool) | VBytes (v : list byte).

#[export] Instance Value_eq_dec : EqDecision Value.
Proof. solve_decision. Defined.

Inductive Expr : Type :=
  | EAll
  | EEq (field : list byte) (value : Value)
  | ENe (field : list byte) (value : Value)
  | EGt (field : list byte) (value : Value)
  | EGte (field : list byte) (value : Value)
  | ELt (field : list byte) (value : Value)
  | ELte (field : list byte) (value : Value)
  | EAnd (l r : Expr)
  | EOr (l r : Expr)
  | ENot (e : Expr).

Definition is_all (e : Expr) : bool := match e with EAll => true | _ => false end.

(** ** Numbers *)

Definition F64_PREC : Z := 53.
Definition F64_EMAX : Z := 1024.

(** The value of a bit pattern of sign, [ew] exponent bits and [mw] mantissa bits,
    as an [f64]. *)
Definition float_of_bits (mw ew u : Z) : spec_float :=
  let s := Z.testbit u (mw + ew) in
  let e := Z.land (Z.shiftr u mw) (Z.ones ew) in
  let m := Z.land u (Z.ones mw) in
  let signed (x : Z) := if s then - x else x in
  if e =? Z.ones ew then (if m =? 0 then S754_infinity s else S754_nan)
  else if e =? 0 then binary_normalize F64_PREC F64_EMAX (signed m) (2 - 2 ^ (ew - 1) - mw) s
  else binary_normalize F64_PREC F64_EMAX (signed (m + 2 ^ mw)) (e + 1 - 2 ^ (ew - 1) - mw) s.

Definition f64_of_bits : Z -> spec_float := float_of_bits 52 11.
(** [f64::from(f32)]. *)
Definition f64_of_f32 : Z -> spec_float := float_of_bits 23 8.
(** [x as f64]: the nearest, ties to even. *)
Definition f64_of_int (z : Z) : spec_float := binary_normalize F64_PREC F64_EMAX z 0 false.

Inductive Numeric : Type := NInt (v : Z) | NBigUint (v : Z) | NFloat (f : spec_float).

(** [i128::try_from] of a [u128]. *)
Definition numeric_u128 (x : Z) : Numeric := if x <? 2 ^ 127 then NInt x else NBigUint x.

Definition from_value (v : Value) : option Numeric :=
  match v with
  | VU8 x | VU16 x | VU32 x | VU64 x => Some (NInt x)
  | VU128 x => Some (numeric_u128 x)
  | VI8 x | VI16 x | VI32 x | VI64 x | VI128 x => Some (NInt x)
  | VF32 x => Some (NFloat (f64_of_f32 x))
  | VF64 x => Some (NFloat (f64_of_bits x))
  | VStr _ | VBool _ | VBytes _ => None
  end.

Definition as_f64 (n : Numeric) : spec_float :=
  match n with NInt x | NBigUint x => f64_of_int x | NFloat f => f end.

Definition numeric_cmp (a b : Numeric) : option comparison :=
  match a, b with
  | NInt a, NInt b => Some (Z.compare a b)
  | NBigUint a, NBigUint b => Some (Z.compare a b)
  | NBigUint _, NInt _ => Some Gt
  | NInt _, NBigUint _ => Some Lt
  | a, b => SFcompare (as_f64 a) (as_f64 b)
  end.

(** [slot.try_into()] to an array of [n] bytes. *)
Definition le_exact (n : nat) (slot : list byte) : option Z := if decide (length slot = n) then Some (le_val slot) else None.

Definition le_signed (n : nat) (slot : list byte) : option Z := sign_of (8 * Z.of_nat n) <$> le_exact n slot.

Definition read_numeric (kind : FieldKind) (slot : list byte) : option Numeric :=
  match kind with
  | KU8 => NInt <$> le_exact 1 slot
  | KU16 => NInt <$> le_exact 2 slot
  | KU32 => NInt <$> le_exact 4 slot
  | KU64 => NInt <$> le_exact 8 slot
  | KU128 => numeric_u128 <$> le_exact 16 slot
  | KI8 => NInt <$> le_signed 1 slot
  | KI16 => NInt <$> le_signed 2 slot
  | KI32 => NInt <$> le_signed 4 slot
  | KI64 => NInt <$> le_signed 8 slot
  | KI128 => NInt <$> le_signed 16 slot
  | KF32 => (fun u => NFloat (f64_of_f32 u)) <$> le_exact 4 slot
  | KF64 => (fun u => NFloat (f64_of_bits u)) <$> le_exact 8 slot
  | _ => None
  end.

(** ** Locating a field *)

(** [body.get(a..b)]. *)
Definition get_range (body : list byte) (a b : nat) : option (list byte) :=
  if decide (a <= b <= length body)%nat then Some (slice a (b - a) body) else None.

Definition region_len (body : list byte) (fd : FieldDescriptor) : option nat :=
  slot ← get_range body (stack_offset fd) (stack_offset fd + 4);
  Some (Z.to_nat (le_val slot)).

Definition hoppable (fd : FieldDescriptor) : bool :=
  match fd_kind fd with KStr | KBytes | KList => true | _ => false end.

(** What a walk comes to: the answer of the function, or nothing yet. *)
Inductive Walk : Type := Found (r : option (list byte)) | Passed.

Fixpoint forward (body : list byte) (target i : nat) (cursor : option nat) (l : list FieldDescriptor) : Walk :=
  match l with
  | [] => Passed
  | fd :: l =>
    if negb (heapable fd) then forward body target (S i) cursor l
    else if decide (i = target) then
      match cursor with
      | Some start => Found (len ← region_len body fd; get_range body start (start + len))
      | None => Passed
      end
    else
      match cursor with
      | Some c =>
        if hoppable fd then
          match region_len body fd with
          | Some len => forward body target (S i) (Some (c + len)%nat) l
          | None => Found None
          end
        else forward body target (S i) None l
      | None => forward body target (S i) None l
      end
  end.

(** Over the fields in reverse, [i] one past the index of the first. *)
Fixpoint backward (body : list byte) (target i fin : nat) (l : list FieldDescriptor) : option (list byte) :=
  match l with
  | [] => None
  | fd :: l =>
    if negb (heapable fd) then backward body target (pred i) fin l
    else if decide (pred i = target) then
      len ← region_len body fd;
      if decide (len <= fin)%nat then get_range body (fin - len) fin else None
    else if negb (hoppable fd) then None
    else
      len ← region_len body fd;
      if decide (len <= fin)%nat then backward body target (pred i) (fin - len) l else None
  end.

Definition heap_bytes (desc : ObjectDescriptor) (body : list byte) (target : nat) : option (list byte) :=
  match forward body target 0 (Some (od_stack_size desc)) (fields desc) with
  | Found r => r
  | Passed => backward body target (length (fields desc)) (length body) (rev (fields desc))
  end.

(** ** Evaluation *)

(** The order of slices and, on UTF-8 bytes, of strings. *)
Fixpoint bytes_cmp (a b : list byte) : comparison :=
  match a, b with
  | [], [] => Eq
  | [], _ => Lt
  | _, [] => Gt
  | x :: a, y :: b => match Z.compare (byte_val x) (byte_val y) with Eq => bytes_cmp a b | c => c end
  end.

Definition bool_cmp (a b : bool) : comparison :=
  match a, b with false, true => Lt | true, false => Gt | _, _ => Eq end.

Definition compare_field (desc : ObjectDescriptor) (body : list byte) (field : list byte) (value : Value) : option comparison :=
  i ← desc_field desc field;
  fd ← fields desc !! i;
  if decide (length body < od_stack_size desc)%nat then None
  else
    slot ← get_range body (stack_offset fd) (stack_offset fd + fd_stack_size fd);
    match fd_kind fd with
    | KStr =>
      bytes ← heap_bytes desc body i;
      if utf8_valid bytes then match value with VStr v => Some (bytes_cmp bytes v) | _ => None end else None
    | KBytes =>
      bytes ← heap_bytes desc body i;
      match value with VBytes v => Some (bytes_cmp bytes v) | _ => None end
    | KBool =>
      b ← head slot;
      match value with VBool v => Some (bool_cmp (negb (byte_val b =? 0)) v) | _ => None end
    | kind =>
      field_num ← read_numeric kind slot;
      value_num ← from_value value;
      numeric_cmp field_num value_num
    end.

Fixpoint eval (desc : ObjectDescriptor) (body : list byte) (expr : Expr) : bool :=
  match expr with
  | EAll => true
  | EAnd l r => eval desc body l && eval desc body r
  | EOr l r => eval desc body l || eval desc body r
  | ENot inner => negb (eval desc body inner)
  | EEq field value => match compare_field desc body field value with Some Eq => true | _ => false end
  | ENe field value => match compare_field desc body field value with Some Eq | None => false | Some _ => true end
  | EGt field value => match compare_field desc body field value with Some Gt => true | _ => false end
  | EGte field value => match compare_field desc body field value with Some (Gt | Eq) => true | _ => false end
  | ELt field value => match compare_field desc body field value with Some Lt => true | _ => false end
  | ELte field value => match compare_field desc body field value with Some (Lt | Eq) => true | _ => false end
  end.

(** ** Building expressions *)

(** The types with a [From] into [Value]. *)
Inductive HostValue : Type :=
  | HU8 (v : Z) | HU16 (v : Z) | HU32 (v : Z) | HU64 (v : Z) | HU128 (v : Z)
  | HI8 (v : Z) | HI16 (v : Z) | HI32 (v : Z) | HI64 (v : Z) | HI128 (v : Z)
  | HF32 (bits : Z) | HF64 (bits : Z) | HBool (v : bool) | HString (v : list byte)
  | HUsize (v : Z) | HIsize (v : Z)
  | HStr (v : list byte) | HStringRef (v : list byte) | HVec (v : list byte) | HSlice (v : list byte).

(** [Value::from]: machine words as 64 bits, borrowed text and bytes copied. *)
Definition value_from (h : HostValue) : Value :=
  match h with
  | HU8 v => VU8 v | HU16 v => VU16 v | HU32 v => VU32 v | HU64 v => VU64 v | HU128 v => VU128 v
  | HI8 v => VI8 v | HI16 v => VI16 v | HI32 v => VI32 v | HI64 v => VI64 v | HI128 v => VI128 v
  | HF32 v => VF32 v | HF64 v => VF64 v | HBool v => VBool v | HString v => VStr v
  | HUsize v => VU64 v
  | HIsize v => VI64 v
  | HStr v | HStringRef v => VStr v
  | HVec v | HSlice v => VBytes v
  end.

Record Field : Type := field_new { field_name : list byte }.

Class IntoField (A : Type) := into_field : A -> Field.
#[export] Instance field_into : IntoField Field := fun f => f.
#[export] Instance str_into : IntoField (list byte) := field_new.

Section expr.
Context `{IntoField A}.
Implicit Types (f : A) (v : HostValue).

Definition expr_eq f v : Expr := EEq (field_name (into_field f)) (value_from v).
Definition expr_ne f v : Expr := ENe (field_name (into_field f)) (value_from v).
Definition expr_gt f v : Expr := EGt (field_name (into_field f)) (value_from v).
Definition expr_gte f v : Expr := EGte (field_name (into_field f)) (value_from v).
Definition expr_lt f v : Expr := ELt (field_name (into_field f)) (value_from v).
Definition expr_lte f v : Expr := ELte (field_name (into_field f)) (value_from v).
End expr.

Definition expr_all : Expr := EAll.
Definition expr_and (l r : Expr) : Expr := EAnd l r.
Definition expr_or (l r : Expr) : Expr := EOr l r.
Definition expr_negate (e : Expr) : Expr := ENot e.
Definition expr_field (name : list byte) : Field := field_new name.

(** The operators [&], [|] and [!]. *)
Definition expr_bitand (l r : Expr) : Expr := expr_and l r.
Definition expr_bitor (l r : Expr) : Expr := expr_or l r.
Definition expr_not (e : Expr) : Expr := expr_negate e.

(** A column's own comparisons go through its name. *)
Definition field_eq (f : Field) (v : HostValue) : Expr := expr_eq (field_name f) v.
Definition field_ne (f : Field) (v : HostValue) : Expr := expr_ne (field_name f) v.
Definition field_gt (f : Field) (v : HostValue) : Expr := expr_gt (field_name f) v.
Definition field_gte (f : Field) (v : HostValue) : Expr := expr_gte (field_name f) v.
Definition field_lt (f : Field) (v : HostValue) : Expr := expr_lt (field_name f) v.
Definition field_lte (f : Field) (v : HostValue) : Expr := expr_lte (field_name f) v.
