(* ===== verification/QueryWire.v ===== *)
(** * Expressions on the wire (wavedb-core: query.rs, the derived codecs)

    The derived codec of a recursive type calls itself through its box.  Here it
    is built level by level: each level of an expression is read from a region at
    least five bytes shorter than the one around it, so as many levels as the input
    has bytes are enough, and more read the same. *)
From S2P Require Import Prelude Wire WireOk Page Registry Query.

(** ** Values *)

(** A number, a string, a flag or bytes, numbered as the variants are. *)
Definition ValueCases : Type := Z + (Z + (Z + (Z + (Z + (Z + (Z + (Z + (Z + (Z + (Z + (Z + (list byte + (bool + list byte))))))))))))).

Definition value_cases (v : Value) : ValueCases :=
  match v with
  | VU8 x => inl x
  | VU16 x => inr (inl x)
  | VU32 x => inr (inr (inl x))
  | VU64 x => inr (inr (inr (inl x)))
  | VU128 x => inr (inr (inr (inr (inl x))))
  | VI8 x => inr (inr (inr (inr (inr (inl x)))))
  | VI16 x => inr (inr (inr (inr (inr (inr (inl x))))))
  | VI32 x => inr (inr (inr (inr (inr (inr (inr (inl x)))))))
  | VI64 x => inr (inr (inr (inr (inr (inr (inr (inr (inl x))))))))
  | VI128 x => inr (inr (inr (inr (inr (inr (inr (inr (inr (inl x)))))))))
  | VF32 x => inr (inr (inr (inr (inr (inr (inr (inr (inr (inr (inl x))))))))))
  | VF64 x => inr (inr (inr (inr (inr (inr (inr (inr (inr (inr (inr (inl x)))))))))))
  | VStr x => inr (inr (inr (inr (inr (inr (inr (inr (inr (inr (inr (inr (inl x))))))))))))
  | VBool x => inr (inr (inr (inr (inr (inr (inr (inr (inr (inr (inr (inr (inr (inl x)))))))))))))
  | VBytes x => inr (inr (inr (inr (inr (inr (inr (inr (inr (inr (inr (inr (inr (inr x)))))))))))))
  end.

Definition value_build (x : ValueCases) : Value :=
  match x with
  | inl x => VU8 x
  | inr (inl x) => VU16 x
  | inr (inr (inl x)) => VU32 x
  | inr (inr (inr (inl x))) => VU64 x
  | inr (inr (inr (inr (inl x)))) => VU128 x
  | inr (inr (inr (inr (inr (inl x))))) => VI8 x
  | inr (inr (inr (inr (inr (inr (inl x)))))) => VI16 x
  | inr (inr (inr (inr (inr (inr (inr (inl x))))))) => VI32 x
  | inr (inr (inr (inr (inr (inr (inr (inr (inl x)))))))) => VI64 x
  | inr (inr (inr (inr (inr (inr (inr (inr (inr (inl x))))))))) => VI128 x
  | inr (inr (inr (inr (inr (inr (inr (inr (inr (inr (inl x)))))))))) => VF32 x
  | inr (inr (inr (inr (inr (inr (inr (inr (inr (inr (inr (inl x))))))))))) => VF64 x
  | inr (inr (inr (inr (inr (inr (inr (inr (inr (inr (inr (inr (inl x)))))))))))) => VStr x
  | inr (inr (inr (inr (inr (inr (inr (inr (inr (inr (inr (inr (inr (inl x))))))))))))) => VBool x
  | inr (inr (inr (inr (inr (inr (inr (inr (inr (inr (inr (inr (inr (inr x))))))))))))) => VBytes x
  end.

Definition wire_value : Wire Value :=
  wire_enum "Value" value_cases value_build
    (variant_or (wire_uint 1) (variant_or (wire_uint 2) (variant_or (wire_uint 4) (variant_or (wire_uint 8)
    (variant_or (wire_uint 16) (variant_or (wire_sint 1) (variant_or (wire_sint 2) (variant_or (wire_sint 4)
    (variant_or (wire_sint 8) (variant_or (wire_sint 16) (variant_or (wire_uint 4) (variant_or (wire_uint 8)
    (variant_or wire_string (variant_or wire_bool (variant wire_bytes))))))))))))))).

Definition value_wf (v : Value) : Prop :=
  match v with
  | VU8 x => fits 8 x | VU16 x => fits 16 x | VU32 x => fits 32 x | VU64 x => fits 64 x | VU128 x => fits 128 x
  | VI8 x => sfits 8 x | VI16 x => sfits 16 x | VI32 x => sfits 32 x | VI64 x => sfits 64 x | VI128 x => sfits 128 x
  | VF32 x => fits 32 x | VF64 x => fits 64 x
  | VStr s => utf8_valid s = true
  | VBool _ | VBytes _ => True
  end.

#[export] Instance value_ok : WireOk wire_value value_wf.
Proof.
  eapply enum_ok; [apply _|by apply Nat.leb_le|..].
  - intros []; simpl; try done. intros _. by apply Forall_true.
  - intros x H. do 14 (destruct x as [x|x]; [exact H|]). exact I.
  - by intros [].
Defined.

(** ** Expressions *)

Definition Arm : Type := list byte * Value.

Definition ExprCases : Type :=
  unit + (Arm + (Arm + (Arm + (Arm + (Arm + (Arm + ((Expr * Expr) + ((Expr * Expr) + Expr)))))))).

Definition expr_cases (e : Expr) : ExprCases :=
  match e with
  | EAll => inl tt
  | EEq f v => inr (inl (f, v))
  | ENe f v => inr (inr (inl (f, v)))
  | EGt f v => inr (inr (inr (inl (f, v))))
  | EGte f v => inr (inr (inr (inr (inl (f, v)))))
  | ELt f v => inr (inr (inr (inr (inr (inl (f, v))))))
  | ELte f v => inr (inr (inr (inr (inr (inr (inl (f, v)))))))
  | EAnd l r => inr (inr (inr (inr (inr (inr (inr (inl (l, r))))))))
  | EOr l r => inr (inr (inr (inr (inr (inr (inr (inr (inl (l, r)))))))))
  | ENot e => inr (inr (inr (inr (inr (inr (inr (inr (inr e))))))))
  end.

Definition expr_build (x : ExprCases) : Expr :=
  match x with
  | inl _ => EAll
  | inr (inl (f, v)) => EEq f v
  | inr (inr (inl (f, v))) => ENe f v
  | inr (inr (inr (inl (f, v)))) => EGt f v
  | inr (inr (inr (inr (inl (f, v))))) => EGte f v
  | inr (inr (inr (inr (inr (inl (f, v)))))) => ELt f v
  | inr (inr (inr (inr (inr (inr (inl (f, v))))))) => ELte f v
  | inr (inr (inr (inr (inr (inr (inr (inl (l, r)))))))) => EAnd l r
  | inr (inr (inr (inr (inr (inr (inr (inr (inl (l, r))))))))) => EOr l r
  | inr (inr (inr (inr (inr (inr (inr (inr (inr e)))))))) => ENot e
  end.

(** The arms of the enum, over the codec of the boxed expressions. *)
Definition expr_arms (c : Wire Expr) : Variants ExprCases :=
  let arm := wire_pair wire_string wire_value in
  let both := wire_pair (wire_box c) (wire_box c) in
  variant_or wire_unit
    (variant_or arm (variant_or arm (variant_or arm (variant_or arm (variant_or arm (variant_or arm
    (variant_or both (variant_or both (variant (wire_box c)))))))))).

Definition expr_level (c : Wire Expr) : Wire Expr := wire_enum "Expr" expr_cases expr_build (expr_arms c).

(** Where the levels end; no input reaches it. *)
Definition expr_floor : Wire Expr := {|
  STACK_SIZE := 1 + 4;
  FIXED := false;
  heap_size _ := 0%nat;
  write_stack _ _ := Fail (InvalidTag "Expr" 0);
  read _ := Fail (InvalidTag "Expr" 0)
|}.

Fixpoint wire_expr (n : nat) : Wire Expr :=
  match n with O => expr_level expr_floor | S n => expr_level (wire_expr n) end.

Fixpoint depth (e : Expr) : nat :=
  match e with
  | EAnd l r | EOr l r => S (Nat.max (depth l) (depth r))
  | ENot e => S (depth e)
  | _ => 0
  end.

Definition to_bytes (e : Expr) : WireResult (list byte) := to_wire (wire_expr (depth e)) e.

Definition from_bytes (bs : list byte) : WireResult Expr := from_wire (wire_expr (length bs)) bs.

Fixpoint expr_wf (e : Expr) : Prop :=
  match e with
  | EAll => True
  | EEq f v | ENe f v | EGt f v | EGte f v | ELt f v | ELte f v => utf8_valid f = true /\ value_wf v
  | EAnd l r | EOr l r => expr_wf l /\ expr_wf r
  | ENot e => expr_wf e
  end.

(** Well formed, with room for it below. *)
Definition expr_fits (n : nat) (e : Expr) : Prop := expr_wf e /\ (depth e <= n)%nat.

#[export] Instance expr_floor_ok : WireOk expr_floor (fun _ => False).
Proof.
  refine {| enc_stack _ := []; enc_heap _ := []; slots_fit _ := true |}; try done.
  simpl. lia.
Defined.

Definition below (wf : Expr -> Prop) (e : Expr) : Prop :=
  match e with
  | EAnd l r | EOr l r => wf l /\ wf r
  | ENot e => wf e
  | _ => expr_wf e
  end.

#[export] Instance expr_level_ok (c : Wire Expr) wf `{!WireOk c wf} : WireOk (expr_level c) (below wf).
Proof.
  eapply enum_ok; [apply _|by apply Nat.leb_le|..].
  - intros []; simpl; tauto.
  - intros x H. destruct x as [x|x]; [exact I|]. do 8 (destruct x as [[]|x]; [exact H|]). exact H.
  - by intros [].
Defined.

(** A codec's contract for an equivalent well-formedness. *)
Definition wf_equiv {T} (c : Wire T) wf wf' `{!WireOk c wf} (E : forall v, wf' v <-> wf v) : WireOk c wf'.
Proof.
  refine {| enc_stack := enc_stack c; enc_heap := enc_heap c; slots_fit := slots_fit c |}.
  - intros v Hv%E. by apply ok_stack.
  - intros v Hv%E. by apply ok_heap.
  - intros H v Hv%E. by apply (ok_fixed (c := c) H).
  - apply (ok_dynamic (c := c)).
  - intros v pre post Hv%E. by apply ok_write.
  - intros v pre post Hv%E. by apply ok_unfit.
  - intros v r Hv%E. by apply ok_read.
  - intros r Hr. pose proof (ok_total r Hr) as H. destruct (read c r) as [[v r']| |]; simpl in *; [|done..]. by rewrite E.
Defined.

Lemma below_floor e : expr_fits 0 e <-> below (fun _ => False) e.
Proof. destruct e; unfold expr_fits; simpl; intuition lia. Qed.

Lemma below_level n e : expr_fits (S n) e <-> below (expr_fits n) e.
Proof. destruct e; unfold expr_fits; simpl; intuition lia. Qed.

#[export] Instance wire_expr_ok n : WireOk (wire_expr n) (expr_fits n).
Proof.
  induction n as [|n IH].
  - exact (wf_equiv (expr_level expr_floor) _ _ below_floor).
  - exact (wf_equiv (expr_level (wire_expr n)) _ _ (below_level n)).
Defined.

(** ** Levels that are not needed change nothing *)

Definition children (e : Expr) : list Expr :=
  match e with EAnd l r | EOr l r => [l; r] | ENot e => [e] | _ => [] end.

Lemma wire_expr_stack n : STACK_SIZE (wire_expr n) = 5%nat.
Proof. by destruct n. Qed.

Lemma depth_children n e e' : (depth e <= S n)%nat -> e' ∈ children e -> (depth e' <= n)%nat.
Proof. destruct e; simpl; rewrite ?elem_of_cons, ?elem_of_nil; intros H E; destruct_or? E; subst; lia. Qed.

Lemma leaf_children e : depth e = 0%nat -> children e = [].
Proof. by destruct e. Qed.

(** Two codecs write alike below [e]. *)
Definition write_alike (c c' : Wire Expr) (e : Expr) : Prop :=
  heap_size c e = heap_size c' e /\ forall w, write_stack c e w = write_stack c' e w.

(** Only the arms of the boxed variants depend on the codec of the boxes. *)
Lemma arms_writes (c c' : Wire Expr) e :
  STACK_SIZE c = STACK_SIZE c' -> (forall e', e' ∈ children e -> write_alike c c' e') ->
  let x := expr_cases e in
  v_tag (expr_arms c) x = v_tag (expr_arms c') x /\ v_stack (expr_arms c) x = v_stack (expr_arms c') x /\
  v_heap (expr_arms c) x = v_heap (expr_arms c') x /\
  forall w, v_write (expr_arms c) x w = v_write (expr_arms c') x w.
Proof.
  intros Hs Hc. destruct e as [|f v|f v|f v|f v|f v|f v|l r|l r|e]; cbn [expr_cases expr_arms v_tag v_stack v_heap v_write variant_or variant].
  1,2,3,4,5,6,7: split_and!; reflexivity.
  1,2: destruct (Hc l) as [Hl Wl]; [by left|]; destruct (Hc r) as [Hr Wr]; [right; by left|];
    cbn [STACK_SIZE heap_size write_stack wire_pair wire_box fst snd]; rewrite Hs, Hl, Hr; split_and!; [done..|]; intros w; rewrite Wl;
    destruct (write_stack c' l w) as [w3| |]; [apply Wr|reflexivity..].
  destruct (Hc e) as [He We]; [by left|]. cbn [STACK_SIZE heap_size write_stack wire_box]. rewrite Hs, He. by split_and!.
Qed.

Lemma level_writes (c c' : Wire Expr) e :
  STACK_SIZE c = STACK_SIZE c' -> (forall e', e' ∈ children e -> write_alike c c' e') ->
  write_alike (expr_level c) (expr_level c') e.
Proof.
  intros Hs Hc. destruct (arms_writes c c' e Hs Hc) as (Ht & Hst & Hh & Hw).
  unfold write_alike, expr_level. cbn [heap_size write_stack wire_enum]. generalize dependent (expr_arms c).
  generalize (expr_arms c'). intros a' a Ht Hst Hh Hw. split; [by rewrite Hst, Hh|]. intros w. cbv zeta. rewrite Ht, Hst, Hh.
  destruct (write_stack (wire_uint 1) _ w) as [w1| |]; [|done..]. cbn [obind].
  destruct (put_len_slot _ w1) as [w2| |]; [|done..]. cbn [obind]. unfold with_unit. by rewrite Hw.
Qed.

Lemma wire_expr_writes n : forall e, (depth e <= n)%nat -> write_alike (wire_expr n) (wire_expr (S n)) e.
Proof.
  induction n as [|n IH]; intros e He.
  - apply level_writes; [done|]. intros e' H. rewrite leaf_children in H by lia. by apply elem_of_nil in H.
  - apply level_writes; [by rewrite !wire_expr_stack|]. intros e' H. apply IH. by eapply depth_children.
Qed.

Lemma write_alike_trans c1 c2 c3 e : write_alike c1 c2 e -> write_alike c2 c3 e -> write_alike c1 c3 e.
Proof. intros [H1 W1] [H2 W2]. split; [congruence|]. intros w. by rewrite W1. Qed.

Lemma wire_expr_writes_le n m e : (depth e <= n)%nat -> (n <= m)%nat -> write_alike (wire_expr n) (wire_expr m) e.
Proof.
  intros He. induction 1 as [|m Hm IH]; [by split|]. eapply write_alike_trans; [exact IH|]. apply wire_expr_writes. lia.
Qed.

(** ** Levels that the input has no bytes for read nothing *)

Definition avail (r : WireReader) : nat := length (rbuf r) - hpos r.

Lemma region_len_avail r region r' : sane r ->
  take_len_slot_region r = Done (region, r') -> (length region <= avail r)%nat.
Proof.
  intros Hr E. unfold take_len_slot_region, read_uint, take_stack in E. destruct (decide _) as [H1|]; [|done]. cbn [obind] in E.
  unfold take_heap in E. cbn [hpos rbuf] in E. destruct (decide _) as [H2|]; [|done]. injection E as <- _.
  pose proof (le_val_fits (slice (rpos r) 4 (rbuf r))) as Hf. unfold fits in Hf. unfold avail.
  rewrite length_slice; lia.
Qed.

Definition read_alike (k : nat) (c c' : Wire Expr) : Prop :=
  forall r, sane r -> (avail r < k)%nat -> read c r = read c' r.

Lemma variant_alike {A} (c c' : Wire A) region k :
  STACK_SIZE c = STACK_SIZE c' -> (length region < k + STACK_SIZE c)%nat ->
  (forall r, sane r -> (avail r < k)%nat -> read c r = read c' r) ->
  read_variant c region = read_variant c' region.
Proof.
  intros Hs Hl Hr. unfold read_variant, for_unit. rewrite <- Hs. case_decide as Hd; [done|]. cbn [obind].
  rewrite Hr; [done| |]; unfold sane, avail; simpl; lia.
Qed.

Lemma both_alike (c c' : Wire Expr) wf `{!WireOk c wf} k r :
  read_alike k c c' -> sane r -> (avail r < k)%nat ->
  read (wire_pair (wire_box c) (wire_box c)) r = read (wire_pair (wire_box c') (wire_box c')) r.
Proof.
  intros Ha Hr Hk. cbn [read wire_pair wire_box]. rewrite <- (Ha r) by done. pose proof (ok_total (c := c) r Hr) as H.
  destruct (read c r) as [[x r']| |]; cbn [obind]; [|done..]. destruct H as (_ & Eb & Ep & Hp & Hh & Hh').
  rewrite <- (Ha r'); [done| |]; unfold sane, avail in *; rewrite Eb; lia.
Qed.

Lemma level_reads (c c' : Wire Expr) wf k `{!WireOk c wf} :
  STACK_SIZE c = 5%nat -> STACK_SIZE c' = 5%nat -> read_alike k c c' -> read_alike (k + 5) (expr_level c) (expr_level c').
Proof.
  intros Hs Hs' Ha r Hr Hk. cbn [read expr_level wire_enum wire_uint]. pose proof (read_uint_reads 1 r Hr) as Ht.
  destruct (read_uint 1 r) as [[tag r1]| |]; cbn [obind]; [|done..]. destruct Ht as [_ Hadv].
  pose proof (advance_sane _ _ _ Hadv) as Hr1. destruct Hadv as (Eb & _ & _ & Hh & _).
  destruct (take_len_slot_region r1) as [[region r2]| |] eqn:Er; cbn [obind]; [|done..].
  apply region_len_avail in Er; [|done]. assert (length region < k + 5)%nat as Hl by (unfold avail in *; rewrite Eb in Er; lia).
  assert (v_read (expr_arms c) (Z.to_nat tag) region = v_read (expr_arms c') (Z.to_nat tag) region) as ->; [|done].
  assert (read_variant (wire_pair (wire_box c) (wire_box c)) region = read_variant (wire_pair (wire_box c') (wire_box c')) region) as Hboth.
  { apply (variant_alike _ _ region k); cbn [STACK_SIZE wire_pair wire_box]; rewrite ?Hs, ?Hs'; [done|lia|]. intros r' ? ?. by eapply both_alike. }
  assert (read_variant (wire_box c) region = read_variant (wire_box c') region) as Hbox.
  { apply (variant_alike _ _ region k); cbn [STACK_SIZE wire_box]; rewrite ?Hs, ?Hs'; [done|lia|]. intros r' ? ?. cbn [read wire_box]. by rewrite Ha. }
  unfold expr_arms. cbn [v_read variant_or variant]. by rewrite Hboth, Hbox.
Qed.

Lemma wire_expr_reads n : read_alike (5 * S n) (wire_expr n) (wire_expr (S n)).
Proof.
  induction n as [|n IH].
  - apply (level_reads expr_floor (wire_expr 0) (fun _ => False) 0); [done|done|]. intros r _ H. lia.
  - replace (5 * S (S n))%nat with (5 * S n + 5)%nat by lia.
    exact (level_reads (wire_expr n) (wire_expr (S n)) (expr_fits n) _ (wire_expr_stack n) (wire_expr_stack (S n)) IH).
Qed.

Lemma wire_expr_reads_le n m r : sane r -> (avail r < 5 * S n)%nat -> (n <= m)%nat ->
  read (wire_expr n) r = read (wire_expr m) r.
Proof.
  intros Hr Ha. induction 1 as [|m Hm IH]; [done|]. rewrite IH. apply wire_expr_reads; [done|lia].
Qed.

(** As many levels as there are bytes are enough. *)
Lemma from_bytes_enough m bs : (length bs <= m)%nat -> from_wire (wire_expr m) bs = from_bytes bs.
Proof.
  intros Hm. unfold from_bytes, from_wire, read_unit. rewrite !wire_expr_stack. case_decide as Hd; [|done].
  rewrite (wire_expr_reads_le (length bs) m); [done|..]; unfold sane, avail; simpl in *; lia.
Qed.

Lemma depth_heap n : forall e, (depth e <= n)%nat -> (depth e <= heap_size (wire_expr n) e)%nat.
Proof.
  induction n as [|n IH]; intros e He; [lia|]. assert (STACK_SIZE (wire_expr n) = 5%nat) as Hs by apply wire_expr_stack.
  destruct e as [| | | | | | |l r|l r|e]; simpl in He; try (simpl; lia).
  1,2: pose proof (IH l ltac:(lia)); pose proof (IH r ltac:(lia));
    cbn [depth heap_size wire_expr expr_level wire_enum expr_cases expr_arms v_stack v_heap variant_or variant wire_pair wire_box
         STACK_SIZE fst snd]; lia.
  pose proof (IH e ltac:(lia)).
  cbn [depth heap_size wire_expr expr_level wire_enum expr_cases expr_arms v_stack v_heap variant_or variant wire_box STACK_SIZE]; lia.
Qed.

Lemma to_wire_alike n m e : write_alike (wire_expr n) (wire_expr m) e -> to_wire (wire_expr n) e = to_wire (wire_expr m) e.
Proof. intros [Hh Hw]. unfold to_wire. by rewrite !wire_expr_stack, Hh, Hw. Qed.

(** The bytes of an expression, at any level that has room for it. *)
Lemma to_bytes_level e bs : expr_wf e -> to_bytes e = Done bs ->
  (depth e <= length bs)%nat /\ forall n, (depth e <= n)%nat -> slots_fit (wire_expr n) e = true /\ bs = enc (wire_expr n) e.
Proof.
  intros Hwf E. split.
  - apply (to_wire_done (wire_expr (depth e)) (expr_fits (depth e))) in E as [_ ->]; [|by split].
    rewrite (length_enc _ (expr_fits (depth e))) by (by split). pose proof (depth_heap (depth e) e (le_n _)). lia.
  - intros n Hn. apply (to_wire_done (wire_expr n) (expr_fits n)); [by split|].
    rewrite <- (to_wire_alike (depth e) n); [exact E|]. by apply wire_expr_writes_le.
Qed.

(** C29: a query expression survives the wire: what its encoder writes decodes to it, however deeply it nests, and reading it with more levels than it has bytes changes nothing *)
Theorem expr_roundtrip e bs :
  expr_wf e -> to_bytes e = Done bs ->
  from_bytes bs = Done e /\ forall m, (length bs <= m)%nat -> from_wire (wire_expr m) bs = Done e.
Proof.
  intros Hwf E. destruct (to_bytes_level e bs Hwf E) as [Hd Hl].
  assert (from_bytes bs = Done e) as Hb.
  { destruct (Hl (length bs) Hd) as [Hf Eb]. unfold from_bytes. rewrite Eb at 2.
    apply (from_wire_enc (wire_expr (length bs)) (expr_fits (length bs)) e); [by split|done]. }
  split; [done|]. intros m Hm. by rewrite from_bytes_enough.
Qed.

(** Any bytes decode to a well-formed expression or to an error. *)
Lemma from_bytes_total bs :
  match from_bytes bs with Done e => expr_wf e | Fail _ => True | Fault => False end.
Proof.
  pose proof (from_wire_ok (wire_expr (length bs)) (expr_fits (length bs)) bs) as H. unfold from_bytes.
  destruct (from_wire _ bs); [by destruct H|done..].
Qed.

Definition demo_expr : Expr :=
  ENot (EAnd (EGte [Byte.x61] (VU32 7)) (EOr (EEq [Byte.x62] (VStr [Byte.x63])) EAll)).

Lemma expr_roundtrip_witness :
  exists bs, to_bytes demo_expr = Done bs /\ from_bytes bs = Done demo_expr.
Proof.
  destruct (to_bytes demo_expr) as [bs| |] eqn:E; [|by vm_compute in E..]. exists bs. split; [done|].
  assert (expr_wf demo_expr) as Hwf.
  { unfold demo_expr. cbn [expr_wf value_wf]. unfold fits. split_and!; (lia || reflexivity || exact I). }
  exact (proj1 (expr_roundtrip demo_expr bs Hwf E)).
Defined.
