(* ===== verification/QueryOk.v ===== *)
(** * What a query reads of a record

    A record body is its fields' stack slots in declaration order, then their heap
    parts in the same order.  The walks of [heap_bytes] find a field's heap part
    whenever the fields on one side of it show their lengths, and a comparison then
    sees the field's value, integers of every width exactly. *)
From Stdlib Require Import SpecFloat.
From S2P Require Import Prelude Wire WireOk Page Ids Registry Query QueryWire.

(** ** Laid-out records *)

Record FieldVal : Type := { fv_shape : FieldShape; fv_stack : list byte; fv_heap : list byte }.

Definition fv_kind (f : FieldVal) : FieldKind := fs_kind (fv_shape f).
Definition hop_kind (k : FieldKind) : bool := match k with KStr | KBytes | KList => true | _ => false end.

Record field_wf (f : FieldVal) : Prop := {
  fw_size : length (fv_stack f) = fs_size (fv_shape f);
  fw_fixed : fs_fixed (fv_shape f) = true -> fv_heap f = [];
  fw_hop : hop_kind (fv_kind f) = true ->
    fs_fixed (fv_shape f) = false /\ fits 32 (zlen (fv_heap f)) /\ fv_stack f = le_bytes 4 (zlen (fv_heap f))
}.

Definition stacks_of (l : list FieldVal) : list byte := concat (map fv_stack l).
Definition heaps_of (l : list FieldVal) : list byte := concat (map fv_heap l).
Definition body_of (l : list FieldVal) : list byte := stacks_of l ++ heaps_of l.

Definition described (l : list FieldVal) : ObjectDescriptor := build_descriptor 0 0 NonUnique [] (map fv_shape l).

(** The fields with heap parts that show no length. *)
Definition opaque (f : FieldVal) : bool := negb (fs_fixed (fv_shape f)) && negb (hop_kind (fv_kind f)).

(** The field at [i] can be reached from the front or from the back. *)
Definition locatable (l : list FieldVal) (i : nat) : bool :=
  forallb (fun f => negb (opaque f)) (take i l) || forallb (fun f => negb (opaque f)) (drop (S i) l).

Lemma stacks_size l : Forall field_wf l -> length (stacks_of l) = sum_list (map fs_size (map fv_shape l)).
Proof. induction 1 as [|f l Hf _ IH]; [done|]. unfold stacks_of in *. cbn. by rewrite length_app, IH, (fw_size f Hf). Qed.

Lemma described_size l : Forall field_wf l -> od_stack_size (described l) = length (stacks_of l).
Proof. intros Hl. by rewrite stacks_size. Qed.

Lemma get_range_mid (pre xs post : list byte) : get_range (pre ++ xs ++ post) (length pre) (length pre + length xs) = Some xs.
Proof.
  unfold get_range. rewrite decide_True by (rewrite !length_app; lia). f_equal. replace (_ - _)%nat with (length xs) by lia. apply slice_mid.
Qed.

Lemma get_range_at body pre xs post a b :
  body = pre ++ xs ++ post -> a = length pre -> b = (length pre + length xs)%nat -> get_range body a b = Some xs.
Proof. intros -> -> ->. apply get_range_mid. Qed.

(** The descriptor of a field at its place. *)
Definition entry_at (pre : list FieldVal) (f : FieldVal) : FieldDescriptor :=
  {| fd_name := fs_name (fv_shape f); stack_offset := length (stacks_of pre); fd_stack_size := fs_size (fv_shape f);
     heapable := negb (fs_fixed (fv_shape f)); fd_kind := fv_kind f |}.

Lemma entries_app off l1 l2 :
  field_entries off (l1 ++ l2) = field_entries off l1 ++ field_entries (off + sum_list (map fs_size l1)) l2.
Proof.
  revert off. induction l1 as [|f l1 IH]; intros off; cbn [app field_entries map sum_list fold_right]; [by rewrite Nat.add_0_r|].
  rewrite IH. simpl. do 2 f_equal. f_equal. unfold sum_list. simpl. lia.
Qed.

Lemma entry_slot l1 f l2 : Forall field_wf (l1 ++ f :: l2) ->
  get_range (body_of (l1 ++ f :: l2)) (stack_offset (entry_at l1 f)) (stack_offset (entry_at l1 f) + fd_stack_size (entry_at l1 f))
  = Some (fv_stack f).
Proof.
  intros Hl. assert (field_wf f) as Hf by (rewrite Forall_app, Forall_cons in Hl; tauto).
  eapply (get_range_at _ (stacks_of l1) (fv_stack f) (stacks_of l2 ++ heaps_of (l1 ++ f :: l2))); [|done|by rewrite (fw_size f Hf)].
  unfold body_of, stacks_of. rewrite map_app, concat_app. cbn [map concat]. by rewrite <- !(assoc_L (++)).
Qed.

Lemma entry_len l1 f l2 : Forall field_wf (l1 ++ f :: l2) -> hop_kind (fv_kind f) = true ->
  region_len (body_of (l1 ++ f :: l2)) (entry_at l1 f) = Some (length (fv_heap f)).
Proof.
  intros Hl Hk. pose proof (entry_slot l1 f l2 Hl) as Hs. assert (field_wf f) as Hf by (rewrite Forall_app, Forall_cons in Hl; tauto).
  destruct (fw_hop f Hf Hk) as (_ & Hfit & Est). unfold region_len.
  assert (fd_stack_size (entry_at l1 f) = 4%nat) as E4 by (simpl; rewrite <- (fw_size f Hf), Est; apply length_le_bytes).
  rewrite E4 in Hs. rewrite Hs. simpl. rewrite Est, le_val_bytes by done. unfold zlen. by rewrite Nat2Z.id.
Qed.

(** ** The walk from the front *)

Definition clear (l : list FieldVal) : bool := forallb (fun f => negb (opaque f)) l.

Lemma clear_app l1 l2 : clear (l1 ++ l2) = clear l1 && clear l2.
Proof. apply forallb_app. Qed.

Definition cursor_at (l l1 : list FieldVal) : option nat :=
  if clear l1 then Some (length (stacks_of l) + length (heaps_of l1))%nat else None.

Lemma heaps_snoc l1 g : length (heaps_of (l1 ++ [g])) = (length (heaps_of l1) + length (fv_heap g))%nat.
Proof. unfold heaps_of. rewrite map_app, concat_app. cbn. by rewrite length_app, app_nil_r. Qed.

Lemma stacks_snoc l1 g : field_wf g -> length (stacks_of (l1 ++ [g])) = (length (stacks_of l1) + fs_size (fv_shape g))%nat.
Proof. intros Hg. unfold stacks_of. rewrite map_app, concat_app. cbn. by rewrite length_app, app_nil_r, (fw_size g Hg). Qed.

Lemma heap_mid l1 f l2 :
  get_range (body_of (l1 ++ f :: l2)) (length (stacks_of (l1 ++ f :: l2)) + length (heaps_of l1))
    (length (stacks_of (l1 ++ f :: l2)) + length (heaps_of l1) + length (fv_heap f)) = Some (fv_heap f).
Proof.
  eapply (get_range_at _ (stacks_of (l1 ++ f :: l2) ++ heaps_of l1) (fv_heap f) (heaps_of l2)); [|by rewrite length_app..].
  unfold body_of, heaps_of. rewrite map_app, concat_app. cbn [map concat]. by rewrite <- !(assoc_L (++)).
Qed.

Lemma entries_cons l1 g l2 :
  field_entries (length (stacks_of l1)) (map fv_shape (g :: l2)) =
  entry_at l1 g :: field_entries (length (stacks_of l1) + fs_size (fv_shape g)) (map fv_shape l2).
Proof. done. Qed.

Lemma snoc_cons {A} (l1 : list A) g l2 : l1 ++ g :: l2 = (l1 ++ [g]) ++ l2.
Proof. by rewrite <- (assoc_L (++)). Qed.

Lemma forward_walk l2 : forall l1 t f, Forall field_wf (l1 ++ l2) -> (length l1 <= t)%nat -> (l1 ++ l2) !! t = Some f ->
  hop_kind (fv_kind f) = true ->
  forward (body_of (l1 ++ l2)) t (length l1) (cursor_at (l1 ++ l2) l1)
    (field_entries (length (stacks_of l1)) (map fv_shape l2)) =
  if clear (take t (l1 ++ l2)) then Found (Some (fv_heap f)) else Passed.
Proof.
  induction l2 as [|g l2 IH]; intros l1 t f Hl Ht Hf Hk.
  { rewrite app_nil_r in Hf. apply lookup_lt_Some in Hf. lia. }
  assert (field_wf g) as Hg by (rewrite Forall_app, Forall_cons in Hl; tauto).
  rewrite entries_cons, <- stacks_snoc by done. cbn [forward heapable entry_at fd_kind hoppable].
  pose proof Hl as Hl'. rewrite snoc_cons in Hl', Hf. pose proof (IH (l1 ++ [g]) t f Hl') as IH'. clear IH.
  assert (length (l1 ++ [g]) = S (length l1)) as El by (rewrite length_app; simpl; lia). rewrite El in IH'.
  destruct (decide (length l1 = t)) as [<-|Hne].
  - rewrite <- snoc_cons, list_lookup_middle in Hf by done. injection Hf as ->.
    destruct (fw_hop f Hg Hk) as (Hnf & _). rewrite Hnf, Bool.negb_involutive. rewrite take_app_length. unfold cursor_at.
    destruct (clear l1); [|done]. rewrite entry_len by done. simpl. by rewrite heap_mid.
  - assert (S (length l1) <= t)%nat as Ht' by lia. specialize (IH' Ht' Hf Hk). rewrite <- !snoc_cons in IH'. rewrite <- IH'. clear IH'.
    unfold cursor_at. rewrite clear_app. cbn [clear forallb]. rewrite heaps_snoc, andb_true_r. unfold opaque.
    destruct (fs_fixed (fv_shape g)) eqn:Efx; cbn [negb andb].
    + rewrite (fw_fixed g Hg Efx), Nat.add_0_r, andb_true_r. done.
    + unfold hoppable. cbn [entry_at fd_kind]. destruct (clear l1); cbn [andb]; [|done].
      destruct (hop_kind (fv_kind g)) eqn:Ek; cbn [negb].
      * rewrite entry_len by done. assert (match fv_kind g with KStr | KBytes | KList => true | _ => false end = true) as -> by done.
        by rewrite Nat.add_assoc.
      * assert (match fv_kind g with KStr | KBytes | KList => true | _ => false end = false) as -> by done. done.
Qed.

(** ** The walk from the back *)

Lemma backward_walk l1 : forall l2 t f, Forall field_wf (l1 ++ l2) -> l1 !! t = Some f -> hop_kind (fv_kind f) = true ->
  backward (body_of (l1 ++ l2)) t (length l1) (length (stacks_of (l1 ++ l2)) + length (heaps_of l1))
    (rev (field_entries 0 (map fv_shape l1))) =
  if clear (drop (S t) l1) then Some (fv_heap f) else None.
Proof.
  induction l1 as [|g l1 IH] using rev_ind; intros l2 t f Hl Hf Hk; [done|].
  pose proof Hl as Hl'. rewrite <- snoc_cons in Hl'. assert (field_wf g) as Hg by (rewrite Forall_app, Forall_cons in Hl'; tauto).
  rewrite map_app, entries_app, rev_app_distr. cbn [map field_entries rev app].
  assert (sum_list (map fs_size (map fv_shape l1)) = length (stacks_of l1)) as Esz.
  { symmetry. apply stacks_size. by apply Forall_app in Hl' as [? _]. }
  rewrite Esz, Nat.add_0_l. fold (fv_kind g). change {| fd_name := _; stack_offset := _; fd_stack_size := _; heapable := _; fd_kind := _ |}
    with (entry_at l1 g).
  assert (length (l1 ++ [g]) = S (length l1)) as El by (rewrite length_app; simpl; lia). rewrite El. cbn [backward pred].
  rewrite <- !snoc_cons, heaps_snoc. cbn [heapable entry_at].
  destruct (decide (length l1 = t)) as [<-|Hne].
  - rewrite list_lookup_middle in Hf by done. injection Hf as ->. destruct (fw_hop f Hg Hk) as (Hnf & _). rewrite Hnf. cbn [negb].
    rewrite entry_len by done. simpl mbind. rewrite decide_True by lia. rewrite drop_ge by (rewrite El; lia).
    replace (_ - _)%nat with (length (stacks_of (l1 ++ f :: l2)) + length (heaps_of l1))%nat by lia.
    rewrite Nat.add_assoc. apply heap_mid.
  - assert (t < length l1)%nat as Ht by (apply lookup_lt_Some in Hf; lia). rewrite lookup_app_l in Hf by done.
    specialize (IH (g :: l2) t f Hl' Hf Hk). rewrite drop_app_le by lia. rewrite clear_app. cbn [clear forallb]. rewrite andb_true_r. unfold opaque.
    destruct (fs_fixed (fv_shape g)) eqn:Efx; cbn [negb andb].
    + rewrite (fw_fixed g Hg Efx), Nat.add_0_r, andb_true_r. exact IH.
    + unfold hoppable. cbn [entry_at fd_kind].
      destruct (hop_kind (fv_kind g)) eqn:Ek; cbn [negb].
      * assert (match fv_kind g with KStr | KBytes | KList => true | _ => false end = true) as -> by done. cbn [negb].
        rewrite entry_len by done. simpl mbind. rewrite decide_True by lia. rewrite andb_true_r, <- IH. f_equal. lia.
      * assert (match fv_kind g with KStr | KBytes | KList => true | _ => false end = false) as -> by done. by rewrite andb_false_r.
Qed.

(** The walks find the heap part of a field exactly when it can be located. *)
Lemma heap_bytes_located l i f : Forall field_wf l -> l !! i = Some f -> hop_kind (fv_kind f) = true ->
  heap_bytes (described l) (body_of l) i = if locatable l i then Some (fv_heap f) else None.
Proof.
  intros Hl Hi Hk. unfold heap_bytes, locatable. cbn [fields described build_descriptor].
  pose proof (forward_walk l [] i f Hl (Nat.le_0_l i) Hi Hk) as Hf. cbn [app length] in Hf.
  rewrite described_size by done. replace (Some (length (stacks_of l))) with (cursor_at l []) by (unfold cursor_at; simpl; f_equal; lia).
  change (stacks_of []) with (@nil byte) in Hf. cbn [length] in Hf. rewrite Hf. fold (clear (take i l)) (clear (drop (S i) l)).
  destruct (clear (take i l)); cbn [orb]; [done|].
  pose proof (backward_walk l [] i f) as Hb. rewrite app_nil_r in Hb. specialize (Hb Hl Hi Hk). rewrite <- Hb.
  f_equal; [|by rewrite <- length_app]. clear. generalize 0%nat. induction l as [|g l IH]; intros n; [done|].
  cbn [map field_entries length]. by rewrite IH.
Qed.

(** ** Comparisons *)

(** What a field holds. *)
Inductive Datum : Type :=
  DInt (z : Z) | DFloat (g : spec_float) | DText (s : list byte) | DBlob (b : list byte) | DFlag (b : bool).

Definition uint_width (k : FieldKind) : option nat :=
  match k with KU8 => Some 1 | KU16 => Some 2 | KU32 => Some 4 | KU64 => Some 8 | KU128 => Some 16 | _ => None end%nat.
Definition sint_width (k : FieldKind) : option nat :=
  match k with KI8 => Some 1 | KI16 => Some 2 | KI32 => Some 4 | KI64 => Some 8 | KI128 => Some 16 | _ => None end%nat.

(** The bytes of a field are the encoding of a datum of its kind. *)
Definition stores (f : FieldVal) (d : Datum) : Prop :=
  match d with
  | DInt z =>
    (exists n, uint_width (fv_kind f) = Some n /\ fits (8 * Z.of_nat n) z /\ fv_stack f = le_bytes n z) \/
    (exists n, sint_width (fv_kind f) = Some n /\ sfits (8 * Z.of_nat n) z /\ fv_stack f = le_bytes n (wrap (8 * Z.of_nat n) z))
  | DFloat g =>
    (fv_kind f = KF32 /\ exists u, fits 32 u /\ fv_stack f = le_bytes 4 u /\ g = f64_of_f32 u) \/
    (fv_kind f = KF64 /\ exists u, fits 64 u /\ fv_stack f = le_bytes 8 u /\ g = f64_of_bits u)
  | DText s => fv_kind f = KStr /\ fv_heap f = s /\ utf8_valid s = true
  | DBlob b => fv_kind f = KBytes /\ fv_heap f = b
  | DFlag b => fv_kind f = KBool /\ fv_stack f = le_bytes 1 (if b then 1 else 0)
  end.

Definition value_int (v : Value) : option Z :=
  match v with
  | VU8 x | VU16 x | VU32 x | VU64 x | VU128 x | VI8 x | VI16 x | VI32 x | VI64 x | VI128 x => Some x
  | _ => None
  end.

Definition value_float (v : Value) : option spec_float :=
  match v with VF32 u => Some (f64_of_f32 u) | VF64 u => Some (f64_of_bits u) | _ => None end.

(** The comparison the query asks for: integers as integers, a number with a
    float as [f64]s, the rest within its kind. *)
Definition datum_cmp (d : Datum) (v : Value) : option comparison :=
  match d with
  | DInt z =>
    match value_int v with
    | Some w => Some (Z.compare z w)
    | None => g ← value_float v; SFcompare (f64_of_int z) g
    end
  | DFloat g =>
    match value_int v with
    | Some w => SFcompare g (f64_of_int w)
    | None => h ← value_float v; SFcompare g h
    end
  | DText s => match v with VStr t => Some (bytes_cmp s t) | _ => None end
  | DBlob b => match v with VBytes c => Some (bytes_cmp b c) | _ => None end
  | DFlag b => match v with VBool c => Some (bool_cmp b c) | _ => None end
  end.

(** How a number stands in the widening. *)
Definition numeric_of (n : Numeric) (z : Z) : Prop :=
  match n with NInt x => x = z /\ z < 2 ^ 127 | NBigUint x => x = z /\ 2 ^ 127 <= z | NFloat _ => False end.

Lemma numeric_u128_of z : numeric_of (numeric_u128 z) z.
Proof. unfold numeric_u128, numeric_of. by destruct (Z.ltb_spec z (2 ^ 127)). Qed.

Lemma le_exact_bytes n z : fits (8 * Z.of_nat n) z -> le_exact n (le_bytes n z) = Some z.
Proof. intros Hz. unfold le_exact. rewrite decide_True by apply length_le_bytes. by rewrite le_val_bytes. Qed.

Lemma read_uint_kind k n z : uint_width k = Some n -> fits (8 * Z.of_nat n) z ->
  exists x, read_numeric k (le_bytes n z) = Some x /\ numeric_of x z.
Proof.
  intros Hk Hz. assert (n <> 16%nat -> z < 2 ^ 127) as Hlt.
  { intros Hn. unfold fits in Hz. assert (2 ^ (8 * Z.of_nat n) <= 2 ^ 127); [|lia]. apply Z.pow_le_mono_r; destruct k; try done; injection Hk as <-; lia. }
  destruct k; try done; injection Hk as <-; cbn [read_numeric]; rewrite le_exact_bytes by done; eexists; split; try done; simpl; auto.
  apply numeric_u128_of.
Qed.

Lemma read_sint_kind k n z : sint_width k = Some n -> sfits (8 * Z.of_nat n) z ->
  exists x, read_numeric k (le_bytes n (wrap (8 * Z.of_nat n) z)) = Some x /\ numeric_of x z.
Proof.
  intros Hk Hz. assert (0 < 8 * Z.of_nat n /\ z < 2 ^ 127) as [H0 Hlt].
  { unfold sfits in Hz. assert (2 ^ (8 * Z.of_nat n - 1) <= 2 ^ 127); [|destruct k; try done; injection Hk as <-; lia].
    apply Z.pow_le_mono_r; destruct k; try done; injection Hk as <-; lia. }
  assert (le_signed n (le_bytes n (wrap (8 * Z.of_nat n) z)) = Some z) as E.
  { unfold le_signed. rewrite le_exact_bytes by (apply wrap_fits; lia). simpl. by rewrite sign_of_wrap. }
  destruct k; try done; injection Hk as <-; cbn [read_numeric]; rewrite E; eexists; split; done.
Qed.

Lemma from_value_int v w : value_wf v -> value_int v = Some w -> exists x, from_value v = Some x /\ numeric_of x w.
Proof.
  intros Hv E. destruct v; try done; injection E as ->; unfold value_wf, fits, sfits in Hv; cbn [from_value];
    (eexists; split; [done|]); try apply numeric_u128_of; split; try done; lia.
Qed.

Lemma from_value_float v g : value_float v = Some g -> from_value v = Some (NFloat g).
Proof. intros E. destruct v; try done; by injection E as <-. Qed.

Lemma from_value_other v : value_int v = None -> value_float v = None -> from_value v = None.
Proof. by destruct v. Qed.

Lemma numeric_cmp_int x z y w : numeric_of x z -> numeric_of y w -> numeric_cmp x y = Some (Z.compare z w).
Proof.
  destruct x, y; simpl; intros Hx Hy; try done; destruct Hx as [-> Hx], Hy as [-> Hy]; try done; f_equal; symmetry.
  - apply Z.compare_lt_iff. lia.
  - apply Z.compare_gt_iff. lia.
Qed.

Lemma numeric_cmp_float x z g : numeric_of x z -> numeric_cmp x (NFloat g) = SFcompare (f64_of_int z) g.
Proof. destruct x; simpl; intros H; try done; by destruct H as [-> _]. Qed.

Lemma float_cmp_numeric x z g : numeric_of x z -> numeric_cmp (NFloat g) x = SFcompare g (f64_of_int z).
Proof. destruct x; simpl; intros H; try done; by destruct H as [-> _]. Qed.

(** A numeric field against a value, once both are read. *)
Lemma number_cmp x z v : value_wf v -> numeric_of x z ->
  (y ← from_value v; numeric_cmp x y) = datum_cmp (DInt z) v.
Proof.
  intros Hv Hx. cbn [datum_cmp]. destruct (value_int v) as [w|] eqn:Ei.
  - destruct (from_value_int v w Hv Ei) as (y & -> & Hy). simpl. by apply numeric_cmp_int.
  - destruct (value_float v) as [g|] eqn:Ef.
    + rewrite (from_value_float v g Ef). simpl. by apply numeric_cmp_float.
    + by rewrite from_value_other.
Qed.

Lemma float_cmp g v : value_wf v -> (y ← from_value v; numeric_cmp (NFloat g) y) = datum_cmp (DFloat g) v.
Proof.
  intros Hv. cbn [datum_cmp]. destruct (value_int v) as [w|] eqn:Ei.
  - destruct (from_value_int v w Hv Ei) as (y & -> & Hy). simpl. by apply float_cmp_numeric.
  - destruct (value_float v) as [h|] eqn:Ef.
    + by rewrite (from_value_float v h Ef).
    + by rewrite from_value_other.
Qed.

Lemma described_field l i f :
  NoDup (map (fun f => fs_name (fv_shape f)) l) -> l !! i = Some f ->
  desc_field (described l) (fs_name (fv_shape f)) = Some i.
Proof.
  intros Hn Hi. unfold desc_field. cbn [fields described build_descriptor].
  assert (list_find (fun fd => fd_name fd = fs_name (fv_shape f)) (field_entries 0 (map fv_shape l)) =
    Some (i, {| fd_name := fs_name (fv_shape f); stack_offset := 0 + sum_list (map fs_size (take i (map fv_shape l)));
                fd_stack_size := fs_size (fv_shape f); heapable := negb (fs_fixed (fv_shape f)); fd_kind := fv_kind f |})) as ->; [|done].
  apply list_find_Some. rewrite field_entries_lookup, list_lookup_fmap, Hi. split; [done|]. split; [done|].
  intros j y Hj Hji E. rewrite field_entries_lookup, list_lookup_fmap in Hj. destruct (l !! j) as [g|] eqn:Hg; [|done].
  injection Hj as <-. cbn in E. assert (i = j) as ->; [|lia].
  apply (NoDup_lookup _ i j (fs_name (fv_shape f)) Hn); rewrite list_lookup_fmap; [by rewrite Hi|rewrite Hg; simpl; by rewrite E].
Qed.

Definition in_heap (d : Datum) : bool := match d with DText _ | DBlob _ => true | _ => false end.

Lemma compare_field_datum l i f d v :
  Forall field_wf l -> NoDup (map (fun f => fs_name (fv_shape f)) l) -> l !! i = Some f -> stores f d -> value_wf v ->
  compare_field (described l) (body_of l) (fs_name (fv_shape f)) v =
  if in_heap d && negb (locatable l i) then None else datum_cmp d v.
Proof.
  intros Hl Hn Hi Hs Hv. unfold compare_field. rewrite (described_field l i f) by done. cbn [mbind option_bind].
  assert (fields (described l) !! i = Some (entry_at (take i l) f)) as Hfd.
  { cbn [fields described build_descriptor]. rewrite field_entries_lookup, list_lookup_fmap, Hi. simpl. unfold entry_at. do 2 f_equal.
    rewrite firstn_map, <- stacks_size; [done|]. by apply Forall_take. }
  rewrite Hfd. cbn [mbind option_bind]. rewrite decide_False.
  2: { rewrite described_size by done. unfold body_of. rewrite length_app. lia. }
  assert (take i l ++ f :: drop (S i) l = l) as El by by apply take_drop_middle.
  pose proof (entry_slot (take i l) f (drop (S i) l)) as Hslot. rewrite El in Hslot. rewrite (Hslot Hl). cbn [mbind option_bind].
  cbn [entry_at fd_kind]. destruct d as [z|g|s|b|b]; cbn [in_heap andb].
  - destruct Hs as [(n & Hk & Hz & ->)|(n & Hk & Hz & ->)].
    + destruct (read_uint_kind _ n z Hk Hz) as (x & Er & Hx). rewrite <- (number_cmp x z v Hv Hx).
      destruct (fv_kind f); try done; by rewrite Er.
    + destruct (read_sint_kind _ n z Hk Hz) as (x & Er & Hx). rewrite <- (number_cmp x z v Hv Hx).
      destruct (fv_kind f); try done; by rewrite Er.
  - rewrite <- (float_cmp g v Hv). destruct Hs as [(-> & u & Hu & -> & ->)|(-> & u & Hu & -> & ->)];
      cbn [read_numeric]; by rewrite le_exact_bytes.
  - destruct Hs as (Hk & Hh & Hu). rewrite (heap_bytes_located l i f Hl Hi) by (by rewrite Hk). rewrite Hk.
    destruct (locatable l i); [|done]. cbn. by rewrite Hh, Hu.
  - destruct Hs as (Hk & Hh). rewrite (heap_bytes_located l i f Hl Hi) by (by rewrite Hk). rewrite Hk.
    destruct (locatable l i); [|done]. cbn. by rewrite Hh.
  - destruct Hs as (-> & ->). destruct b; by vm_compute (head _).
Qed.

(** The comparisons a client builds on an integer column. *)
Definition built (c : comparison -> bool) (o : option comparison) : bool := match o with Some x => c x | None => false end.

Lemma eval_built desc body (f : Field) h :
  let o := compare_field desc body (field_name f) (value_from h) in
  eval desc body (field_eq f h) = built (fun c => bool_decide (c = Eq)) o /\ eval desc body (field_ne f h) = built (fun c => bool_decide (c <> Eq)) o /\
  eval desc body (field_gt f h) = built (fun c => bool_decide (c = Gt)) o /\ eval desc body (field_gte f h) = built (fun c => bool_decide (c <> Lt)) o /\
  eval desc body (field_lt f h) = built (fun c => bool_decide (c = Lt)) o /\ eval desc body (field_lte f h) = built (fun c => bool_decide (c <> Gt)) o.
Proof. intros o. cbn [field_eq field_ne field_gt field_gte field_lt field_lte expr_eq expr_ne expr_gt expr_gte expr_lt expr_lte into_field str_into field_name eval]. fold o. by destruct o as [[]|]. Qed.

(** C28: a comparison of a query sees what the record holds: on a record laid out as its descriptor says, it compares the field's value with the query's, integers of any two widths as integers and text byte by byte, and it says nothing only where the kinds do not compare or the field lies between heap fields of unknown length *)
Theorem compare_reads_field l i f d v :
  Forall field_wf l -> NoDup (map (fun f => fs_name (fv_shape f)) l) -> l !! i = Some f -> stores f d -> value_wf v ->
  compare_field (described l) (body_of l) (fs_name (fv_shape f)) v =
  if in_heap d && negb (locatable l i) then None else datum_cmp d v.
Proof. apply compare_field_datum. Qed.

(** A query that a client builds on an integer column and sends decides the record
    as the integers do: each comparison, a range, and a negation; the value's type
    need not be the column's *)
Theorem built_query_decides l i f z h w h' w' :
  Forall field_wf l -> NoDup (map (fun f => fs_name (fv_shape f)) l) -> l !! i = Some f -> stores f (DInt z) ->
  value_wf (value_from h) -> value_int (value_from h) = Some w -> value_wf (value_from h') -> value_int (value_from h') = Some w' ->
  let col := expr_field (fs_name (fv_shape f)) in let holds := eval (described l) (body_of l) in
  holds (field_eq col h) = (z =? w) /\ holds (field_ne col h) = negb (z =? w) /\
  holds (field_lt col h) = (z <? w) /\ holds (field_lte col h) = (z <=? w) /\
  holds (field_gt col h) = (w <? z) /\ holds (field_gte col h) = (w <=? z) /\
  holds (expr_bitand (field_gte col h) (field_lt col h')) = (w <=? z) && (z <? w') /\
  holds (expr_not (expr_bitor (field_lt col h) (field_gt col h'))) = (w <=? z) && (z <=? w').
Proof.
  intros Hl Hn Hi Hs Hv Hw Hv' Hw' col holds.
  assert (forall h w, value_wf (value_from h) -> value_int (value_from h) = Some w ->
    compare_field (described l) (body_of l) (field_name col) (value_from h) = Some (Z.compare z w)) as Hc.
  { intros h0 w0 H0 E0. cbn [col expr_field field_name]. rewrite (compare_field_datum l i f (DInt z)) by done. cbn [in_heap andb datum_cmp]. by rewrite E0. }
  assert (forall h w, value_wf (value_from h) -> value_int (value_from h) = Some w ->
    holds (field_eq col h) = (z =? w) /\ holds (field_ne col h) = negb (z =? w) /\ holds (field_lt col h) = (z <? w) /\
    holds (field_lte col h) = (z <=? w) /\ holds (field_gt col h) = (w <? z) /\ holds (field_gte col h) = (w <=? z)) as Hall.
  { intros h0 w0 H0 E0. destruct (eval_built (described l) (body_of l) col h0) as (E1 & E2 & E3 & E4 & E5 & E6).
    rewrite (Hc h0 w0 H0 E0) in *. unfold holds. rewrite E1, E2, E3, E4, E5, E6. cbn [built].
    destruct (Z.compare_spec z w0); (split_and!; case_bool_decide; [..]; try done; try congruence; lia). }
  destruct (Hall h w Hv Hw) as (? & ? & ? & ? & ? & ?). destruct (Hall h' w' Hv' Hw') as (? & ? & F3 & ? & F5 & ?).
  do 6 (split; [done|]). unfold expr_bitand, expr_bitor, expr_not, expr_and, expr_or, expr_negate, holds in *. cbn [eval]. split; [congruence|].
  rewrite negb_orb. f_equal; [|rewrite F5; lia]. match goal with E : eval _ _ (field_lt col h) = _ |- _ => rewrite E end. lia.
Qed.

(** ** Examples *)

(** An amount, an optional note and a name. *)
Definition demo_fields : list FieldVal := [
  {| fv_shape := {| fs_name := [Byte.x61]; fs_kind := KU64; fs_size := 8; fs_fixed := true; fs_listed := false |};
     fv_stack := le_bytes 8 300; fv_heap := [] |};
  {| fv_shape := {| fs_name := [Byte.x6f]; fs_kind := KOption; fs_size := 5; fs_fixed := false; fs_listed := true |};
     fv_stack := le_bytes 1 1 ++ le_bytes 4 2; fv_heap := [Byte.x68; Byte.x69] |};
  {| fv_shape := {| fs_name := [Byte.x6e]; fs_kind := KStr; fs_size := 4; fs_fixed := false; fs_listed := true |};
     fv_stack := le_bytes 4 3; fv_heap := [Byte.x62; Byte.x6f; Byte.x62] |} ].

Lemma demo_fields_wf : Forall field_wf demo_fields.
Proof. repeat constructor; done. Qed.

Lemma demo_names : NoDup (map (fun f => fs_name (fv_shape f)) demo_fields).
Proof. apply (bool_decide_unpack _). by vm_compute. Qed.

Lemma compare_reads_field_witness :
  compare_field (described demo_fields) (body_of demo_fields) [Byte.x6e] (VStr [Byte.x62; Byte.x6f]) = Some Gt /\
  compare_field (described demo_fields) (body_of demo_fields) [Byte.x61] (VI8 5) = Some Gt.
Proof.
  split.
  - etransitivity; [refine (compare_reads_field demo_fields 2 _ (DText [Byte.x62; Byte.x6f; Byte.x62])
      (VStr [Byte.x62; Byte.x6f]) demo_fields_wf demo_names eq_refl _ eq_refl)|by vm_compute]. by split.
  - etransitivity; [refine (compare_reads_field demo_fields 0 _ (DInt 300) (VI8 5) demo_fields_wf demo_names eq_refl _ _)|by vm_compute].
    + left. exists 8%nat. by split_and!.
    + by unfold value_wf, sfits.
Defined.

Lemma built_query_decides_witness :
  eval (described demo_fields) (body_of demo_fields) (field_gt (expr_field [Byte.x61]) (HI8 5)) = true /\
  eval (described demo_fields) (body_of demo_fields) (expr_bitand (field_gte (expr_field [Byte.x61]) (HI8 5)) (field_lt (expr_field [Byte.x61]) (HU64 300))) = false.
Proof.
  destruct (built_query_decides demo_fields 0 _ 300 (HI8 5) 5 (HU64 300) 300 demo_fields_wf demo_names eq_refl) as (_ & _ & _ & _ & H5 & _ & H7 & _).
  - left. exists 8%nat. by split_and!.
  - by unfold value_wf, sfits.
  - done.
  - by unfold value_wf, fits.
  - done.
  - split; [exact H5|exact H7].
Defined.

(** Where a field does not compare, a negated comparison holds and its opposite does not. *)
Lemma negation_is_not_opposite :
  let amount := expr_field [Byte.x61] in let holds := eval (described demo_fields) (body_of demo_fields) in
  holds (expr_not (field_eq amount (HStr [Byte.x62]))) = true /\ holds (field_ne amount (HStr [Byte.x62])) = false.
Proof. by vm_compute. Qed.

(** A string behind an optional field is found from the back. *)
Lemma string_after_option : eval (described demo_fields) (body_of demo_fields) (EEq [Byte.x6e] (VStr [Byte.x62; Byte.x6f; Byte.x62])) = true.
Proof. by vm_compute. Qed.

(** Two integers that compare equal to the same float and not to each other. *)
Lemma widening_ties :
  numeric_cmp (NInt (2 ^ 53)) (NFloat (f64_of_bits 0x4340000000000000)) = Some Eq /\
  numeric_cmp (NInt (2 ^ 53 + 1)) (NFloat (f64_of_bits 0x4340000000000000)) = Some Eq /\
  numeric_cmp (NInt (2 ^ 53)) (NInt (2 ^ 53 + 1)) = Some Lt.
Proof. by vm_compute. Qed.
