(* ===== verification/Messages.v ===== *)
(** * Node-to-node messages
    (wavedb-quick-node: gossip.rs, replication.rs; wavedb-slow-node: flush.rs;
    wavedb-net: browse.rs)

    The derived codecs of the messages nodes exchange, and the receipt watermark
    of the slow node. *)
From S2P Require Import Prelude Wire WireOk Page Anchor Auth Ring Cluster Request.

(** ** Gossip *)

Abbreviation wire_node_ref := (wire_pair u64 wire_string).

Definition wire_gossip_kind : Wire GossipKind :=
  wire_unit_enum "GossipKind" [Announce; Withdraw] (fun k => match k with Announce => 0 | Withdraw => 1 end)%nat.

Definition gossip_fields (m : GossipMessage) : Z * (Z * (list byte * (GossipKind * option NodeToken))) :=
  (gm_epoch m, (gm_origin m, (gm_addr m, (gm_kind m, gm_token m)))).

Definition gossip_build (x : Z * (Z * (list byte * (GossipKind * option NodeToken)))) : GossipMessage :=
  let '(e, (o, (a, (k, t)))) := x in
  {| gm_epoch := e; gm_origin := o; gm_addr := a; gm_kind := k; gm_token := t |}.

Definition wire_gossip : Wire GossipMessage :=
  wire_struct gossip_fields gossip_build
    (wire_pair u64 (wire_pair u64 (wire_pair wire_string (wire_pair wire_gossip_kind (wire_option wire_token))))).

Definition wire_gossip_response : Wire GossipResponse :=
  wire_enum "GossipResponse"
    (fun r => match r with Ack => inl tt | NodeList ns => inr ns end)
    (fun x => match x with inl _ => Ack | inr ns => NodeList ns end)
    (variant_or wire_unit (variant (wire_vec wire_node_ref))).

Definition token_opt_wf (t : option NodeToken) : Prop := forall k, t = Some k -> token_wf k.

Definition gossip_wf (m : GossipMessage) : Prop :=
  fits 64 (gm_epoch m) /\ fits 64 (gm_origin m) /\ utf8_valid (gm_addr m) = true /\ token_opt_wf (gm_token m).

Definition node_ref_wf (n : Z * list byte) : Prop := fits 64 n.1 /\ utf8_valid n.2 = true.

Definition gossip_response_wf (r : GossipResponse) : Prop :=
  match r with Ack => True | NodeList ns => Forall node_ref_wf ns end.

#[export] Instance gossip_kind_ok : WireOk wire_gossip_kind (fun _ => True).
Proof. apply unit_enum_ok; [by apply Nat.leb_le | by intros []]. Defined.

#[export] Instance gossip_ok : WireOk wire_gossip gossip_wf.
Proof.
  eapply struct_ok; [apply _|..].
  - intros [e o a k t] (H1 & H2 & H3 & H4); cbn in *; split_and!; done.
  - intros (e & o & a & k & t) (H1 & H2 & H3 & _ & H4); cbn in *; split_and!; done.
  - by intros [].
Defined.

#[export] Instance node_ref_sized : Sized wire_node_ref.
Proof. done. Qed.

#[export] Instance gossip_response_ok : WireOk wire_gossip_response gossip_response_wf.
Proof.
  eapply enum_ok; [apply _|by apply Nat.leb_le|..].
  - by intros [].
  - by intros [[]|ns].
  - by intros [].
Defined.

(** ** Replication *)

Definition wire_replica_record : Wire ReplicaRecord :=
  wire_struct (fun r => (rr_id r, rr_data r)) (fun x => {| rr_id := x.1; rr_data := x.2 |})
    (wire_pair (wire_uint 16) wire_bytes).

Definition batch_fields (b : ReplicateBatch) : Z * (Z * (list ReplicaRecord * option NodeToken)) :=
  (rb_origin b, (rb_write_seq b, (rb_records b, rb_token b))).

Definition batch_build (x : Z * (Z * (list ReplicaRecord * option NodeToken))) : ReplicateBatch :=
  let '(o, (s, (r, t))) := x in {| rb_origin := o; rb_write_seq := s; rb_records := r; rb_token := t |}.

Definition wire_batch : Wire ReplicateBatch :=
  wire_struct batch_fields batch_build
    (wire_pair u64 (wire_pair u64 (wire_pair (wire_vec wire_replica_record) (wire_option wire_token)))).

Definition wire_replicate_ack : Wire ReplicateAck :=
  wire_struct ack_write_seq (fun x => {| ack_write_seq := x |}) u64.

Definition replica_record_wf (r : ReplicaRecord) : Prop := fits 128 (rr_id r).

Definition batch_wf (b : ReplicateBatch) : Prop :=
  fits 64 (rb_origin b) /\ fits 64 (rb_write_seq b) /\ Forall replica_record_wf (rb_records b) /\ token_opt_wf (rb_token b).

#[export] Instance replica_record_ok : WireOk wire_replica_record replica_record_wf.
Proof. eapply struct_ok; [apply _|..]; [intros [i d] H; split; [done|by apply Forall_true]|by intros [i d] [H _]|by intros []]. Defined.

#[export] Instance replica_record_sized : Sized wire_replica_record.
Proof. done. Qed.

#[export] Instance batch_ok : WireOk wire_batch batch_wf.
Proof.
  eapply struct_ok; [apply _|..].
  - intros [o s r t] (H1 & H2 & H3 & H4); cbn in *; split_and!; done.
  - intros (o & s & r & t) (H1 & H2 & H3 & H4); cbn in *; split_and!; done.
  - by intros [].
Defined.

#[export] Instance replicate_ack_ok : WireOk wire_replicate_ack (fun a => fits 64 (ack_write_seq a)).
Proof. eapply struct_ok; [apply _|by intros []..]. Defined.

(** ** Flushes to the slow node *)

Record FlushBatch : Type := {
  fb_write_seq : Z;
  fb_tenant : Z;
  fb_records : list VersionedRecord;
  fb_token : option NodeToken
}.

Record FlushAck : Type := { fa_write_seq : Z }.

Definition flush_fields (b : FlushBatch) : Z * (Z * (list VersionedRecord * option NodeToken)) :=
  (fb_write_seq b, (fb_tenant b, (fb_records b, fb_token b))).

Definition flush_build (x : Z * (Z * (list VersionedRecord * option NodeToken))) : FlushBatch :=
  let '(s, (n, (r, t))) := x in {| fb_write_seq := s; fb_tenant := n; fb_records := r; fb_token := t |}.

Definition wire_flush : Wire FlushBatch :=
  wire_struct flush_fields flush_build
    (wire_pair u64 (wire_pair u64 (wire_pair (wire_vec wire_record) (wire_option wire_token)))).

Definition wire_flush_ack : Wire FlushAck := wire_struct fa_write_seq (fun x => {| fa_write_seq := x |}) u64.

Definition flush_wf (b : FlushBatch) : Prop :=
  fits 64 (fb_write_seq b) /\ fits 64 (fb_tenant b) /\ Forall record_wf (fb_records b) /\ token_opt_wf (fb_token b).

#[export] Instance record_sized : Sized wire_record.
Proof. done. Qed.

#[export] Instance flush_ok : WireOk wire_flush flush_wf.
Proof.
  eapply struct_ok; [apply _|..].
  - intros [o s r t] (H1 & H2 & H3 & H4); cbn in *; split_and!; done.
  - intros (o & s & r & t) (H1 & H2 & H3 & H4); cbn in *; split_and!; done.
  - by intros [].
Defined.

#[export] Instance flush_ack_ok : WireOk wire_flush_ack (fun a => fits 64 (fa_write_seq a)).
Proof. eapply struct_ok; [apply _|by intros []..]. Defined.

(** The highest sequence acknowledged per tenant. *)
Record ReceiptWatermark : Type := { marks : gmap Z Z }.

Definition receipt_new : ReceiptWatermark := {| marks := ∅ |}.

Definition receipt_advance (tenant seq : Z) (w : ReceiptWatermark) : ReceiptWatermark :=
  let entry := default 0 (marks w !! tenant) in
  {| marks := <[tenant := if entry <? seq then seq else entry]> (marks w) |}.

Definition receipt_high_water (tenant : Z) (w : ReceiptWatermark) : Z := default 0 (marks w !! tenant).

(** ** Browsing the history *)

Record BrowseRequest : Type := { br_token : option NodeToken; br_tenant : option Z; max_records : Z }.
Record TenantSummary : Type := { ts_tenant : Z; record_count : Z; total_bytes : Z }.
Record RecordSummary : Type := { rsm_id : Z; data_bytes : Z; rsm_write_seq : Z; rsm_header : Z }.
Record BrowseResponse : Type := { tenants : list TenantSummary; records : list RecordSummary; truncated : bool }.
Record HistoryReadRequest : Type := { hr_tenant : Z; hr_record_id : Z }.
Record HistoryReadResponse : Type := { hr_data : list byte }.
