(* ===== verification/NodeServe.v ===== *)
(** * Serving from a node's storage

    The storage of a serving node: a journal in order, a data file with room, a
    live list per struct and tenant, and every listed record readable.  Each
    storage operation of the request handlers is one lemma. *)
From S2P Require Import Prelude Wire WireOk Errors Ids Page Hash Anchor Journal DataFile DataFileOk Live LiveOk LiveFile Heap NodeStorage NodeStorageOk.

(** The live records of a struct and tenant, oldest first. *)
Abbreviation Table := (Z * Z -> list (Id * list byte)).

Definition PAYLOAD_MAX : Z := 16 + 16 * 256.

(** Records a node gave out under its sequence numbers up to [w]. *)
Definition issued (w : Z) (key : Z * Z) (x : Id * list byte) : Prop :=
  (exists c, 1 <= c <= w /\ x.1 = Id_new key.2 0 key.1 c) /\ zlen x.2 <= PAYLOAD_MAX.

Definition table_ok (w : Z) (A : Table) : Prop := forall k t, key_ok k t ->
  Forall (issued w (k, t)) (A (k, t)) /\ NoDup (map fst (A (k, t))).

Record serving (cap : nat) (w : Z) (A : Table) (st : NodeStorage) : Prop := {
  sv_journal : journal_ok (journal st);
  sv_ready : file_ready cap (data_file st);
  sv_seq : 0 <= w < 2 ^ 48;
  sv_table : table_ok w A;
  sv_lists : forall k t, key_ok k t -> tracks (data_file st) k t w (map fst (A (k, t)));
  sv_records : forall k t id p, key_ok k t -> (id, p) ∈ A (k, t) -> kept_record (data_file st) id (record_new id p)
}.

Definition table_set (key : Z * Z) (l : list (Id * list byte)) (A : Table) : Table :=
  fun key' => if decide (key' = key) then l else A key'.

Lemma new_id_fields k t c : key_ok k t -> fits 48 c ->
  fits 128 (Id_new t 0 k c) /\ tenant_id (Id_new t 0 k c) = t /\ shard_id (Id_new t 0 k c) = 0 /\
  Ids.struct_id (Id_new t 0 k c) = k /\ created_at (Id_new t 0 k c) = c.
Proof.
  intros [Hk Ht] Hc. destruct (Id_new_fields t 0 k c) as (Hf & -> & -> & -> & ->). unfold fits in *.
  rewrite !Z.mod_small by lia. done.
Qed.

Lemma new_id_plain k t c : key_ok k t -> fits 48 c -> 1 <= c -> plain_key (Id_new t 0 k c).
Proof.
  intros Hk Hc H1. destruct (new_id_fields k t c Hk Hc) as (_ & _ & Hs & _ & Hcr). unfold plain_key. rewrite Hs, Hcr.
  split; [done|]. right. lia.
Qed.

Lemma issued_fields w k t x : key_ok k t -> w < 2 ^ 48 -> issued w (k, t) x ->
  fits 128 x.1 /\ plain_key x.1 /\ Ids.struct_id x.1 = k /\ tenant_id x.1 = t /\ 1 <= created_at x.1 <= w.
Proof.
  intros Hk Hw [(c & Hc & E) _]. simpl in E. assert (fits 48 c) as Hf by (unfold fits; lia).
  destruct (new_id_fields k t c Hk Hf) as (H1 & H2 & _ & H3 & H4). rewrite E. split; [done|]. split; [by apply new_id_plain; try lia|].
  rewrite H4. by split_and!; try lia.
Qed.

Lemma issued_mono w w' key x : w <= w' -> issued w key x -> issued w' key x.
Proof. intros Hw [(c & Hc & E) Hl]. split; [|done]. exists c. split; [lia|done]. Qed.

(** ** A record the journal and the data file can take *)

Lemma new_record_small w k t x : key_ok k t -> w < 2 ^ 48 -> issued w (k, t) x -> small_record (record_new x.1 x.2).
Proof. intros Hk Hw Hx. apply record_small; [by eapply issued_fields|apply Hx]. Qed.

Lemma small_record_entry rec : small_record rec -> entry_ok (WriteVersioned rec).
Proof.
  intros (Hwf & bytes & Eb & Hl). unfold record_to_bytes, ser in Eb.
  destruct (to_wire wire_record rec) as [b| |] eqn:E; [|done..]. injection Eb as ->.
  destruct (to_wire_done wire_record record_wf rec bytes Hwf E) as [Hf Ebytes].
  assert (length (enc wire_record rec) = length bytes) as Hlen by by rewrite Ebytes.
  pose proof (length_enc wire_record record_wf rec Hwf) as Hle. unfold zlen, LIVE_VALUE_MAX in Hl.
  assert (entry_wf (WriteVersioned rec)) as Hew by exact Hwf.
  assert (length (enc wire_entry (WriteVersioned rec)) = (5 + length bytes)%nat) as Hel.
  { rewrite (length_enc wire_entry entry_wf) by done. cbn [STACK_SIZE heap_size wire_entry wire_enum entry_cases v_stack v_heap variant_or].
    rewrite <- Hlen, Hle. done. }
  split; [done|]. split; [|unfold fits, zlen; rewrite Hel; lia].
  change (slots_fit wire_entry (WriteVersioned rec)) with
    (fitsb 32 (Z.of_nat (length (enc wire_record rec))) && slots_fit wire_record rec).
  rewrite Hf, andb_true_r, Hlen. apply fitsb_spec. unfold fits. lia.
Qed.

(** ** Writing *)

(** What a plain record's write does to the data file. *)
Lemma plain_write n d rec : file_ready (S n) d -> rec_ok rec ->
  exists d', write_versioned rec d = (Done tt, d') /\ file_ready n d' /\ kept_record d' (vr_id rec) rec /\
    (forall id r, id <> vr_id rec -> kept_record d id r -> kept_record d' id r) /\
    (forall k t, key_ok k t -> slot_view d' (unique_anchor_id k t) = slot_view d (unique_anchor_id k t)) /\
    (forall id, segment_like id -> record_view d' id = record_view d id).
Proof.
  intros Hr [Hsm Hpk].
  destruct (file_write_record n d rec Hr (proj2 Hpk) Hsm) as (d1 & E1 & Hr1 & _ & Hv1 & Hs1 & Hc1 & bytes & Eb & Hst1).
  rewrite Eb in E1. exists (with_cache (put_versioned rec (cache d1)) d1).
  split; [exact (write_versioned_run rec bytes _ _ (plain_route _ Hpk) Eb E1)|]. split; [done|]. split; [|split; [|split]].
  - split; [by rewrite Hc1, decide_True|]. exists bytes. split; [done|]. intros b'. by rewrite (Hst1 (vr_id rec) b'), decide_True.
  - intros id r Hne [Hca (b & Hb & Hst)]. split; [by rewrite Hc1, decide_False|].
    exists b. split; [done|]. intros b'. by rewrite (Hst1 id b'), decide_False.
  - intros k' t' Hk'. apply Hs1. intros Eq. destruct (tracker_fields k' t' Hk') as (_ & H1 & _ & H2). rewrite Eq in H1, H2.
    destruct (proj2 Hpk); congruence.
  - intros id Hid. rewrite Hv1, decide_False; [done|]. intros ->. by destruct Hpk, Hid.
Qed.

Lemma issued_fresh w A k t p id : table_ok w A -> key_ok k t -> (id, p) ∈ A (k, t) -> w + 1 < 2 ^ 48 ->
  forall k' t', key_ok k' t' -> id <> Id_new t' 0 k' (w + 1).
Proof.
  intros HA Hk Hin Hw k' t' Hk' ->. destruct (HA k t Hk) as [Hf _]. rewrite Forall_forall in Hf. specialize (Hf _ Hin).
  destruct (issued_fields w k t _ Hk ltac:(lia) Hf) as (_ & _ & _ & _ & Hc). simpl in Hc.
  assert (0 <= w) by (destruct Hf as [(c & ? & _) _]; lia).
  destruct (new_id_fields k' t' (w + 1) Hk') as (_ & _ & _ & _ & E); [unfold fits; lia|]. lia.
Qed.

Lemma with_data_run {A} (m : DF A) st r d : m (data_file st) = (r, d) -> on_data m st = (r, with_data d st).
Proof. intros E. unfold on_data. by rewrite E. Qed.

(** ** Writing *)

(** A record is committed: journal and data file have it, no list changes. *)
Lemma commit_any cap w A st k t c p :
  serving (S cap) w A st -> key_ok k t -> 1 <= c < 2 ^ 48 -> zlen p <= PAYLOAD_MAX ->
  let id := Id_new t 0 k c in
  exists st', commit_write id p st = (Done tt, st') /\ journal_ok (journal st') /\ file_ready cap (data_file st') /\
    kept_record (data_file st') id (record_new id p) /\
    (forall i r, i <> id -> kept_record (data_file st) i r -> kept_record (data_file st') i r) /\
    (forall k' t', key_ok k' t' -> tracks (data_file st') k' t' w (map fst (A (k', t')))).
Proof.
  intros [Hj Hr Hw HA Hl Hrec] Hk Hc Hp id. set (rec := record_new id p).
  assert (fits 48 c) as Hf by (unfold fits; lia). destruct (new_id_fields k t c Hk Hf) as (Hid & _ & _ & _ & _).
  assert (rec_ok rec) as Hrok by (split; [by apply record_small|apply new_id_plain; try done; lia]).
  destruct (append_ok (journal st) (WriteVersioned rec) Hj (small_record_entry rec (proj1 Hrok))) as [Ej Hj'].
  set (j' := {| file := _; entries := _; sequence := _ |}) in *.
  destruct (plain_write cap (data_file st) rec Hr Hrok) as (d1 & E1 & Hr1 & Hk1 & Hkeep1 & Hs1 & Hv1).
  exists {| data_file := d1; journal := j'; heap_file := heap_file st |}.
  split; [|split; [exact Hj'|split; [exact Hr1|split; [exact Hk1|split; [exact Hkeep1|]]]]].
  - unfold commit_write, commit_versioned_write, journal_append, on_journal, st_bind. fold rec. rewrite Ej. cbn [obind].
    exact (with_data_run _ {| data_file := data_file st; journal := j'; heap_file := heap_file st |} _ _ E1).
  - intros k' t' Hk'. eapply tracks_ext; [exact Hs1|exact Hv1|done|by apply Hl].
Qed.

(** Under a fresh number it is no record of the table. *)
Lemma commit_serves cap w A st k t p :
  serving (S cap) w A st -> key_ok k t -> w + 1 < 2 ^ 48 -> zlen p <= PAYLOAD_MAX ->
  let id := Id_new t 0 k (w + 1) in
  exists st', commit_write id p st = (Done tt, st') /\ serving cap w A st' /\ kept_record (data_file st') id (record_new id p).
Proof.
  intros HS Hk Hw1 Hp id. pose proof HS as [_ _ Hw HA _ Hrec].
  destruct (commit_any cap w A st k t (w + 1) p HS Hk ltac:(lia) Hp) as (st' & E & Hj' & Hr' & Hkr & Hkeep & Hl').
  exists st'. split; [exact E|]. split; [|exact Hkr]. constructor; [done..|].
  intros k' t' i q Hk' Hin. apply Hkeep; [|exact (Hrec k' t' i q Hk' Hin)].
  exact (issued_fresh w A k' t' q i HA Hk' Hin Hw1 k t Hk).
Qed.

(** One list is replaced by another of records the file has. *)
Lemma relist n cap w w' A st d k t l :
  serving n w A st -> key_ok k t -> w <= w' < 2 ^ 48 -> file_ready cap d ->
  others_kept k t (data_file st) d -> tracks d k t w' (map fst l) -> NoDup (map fst l) ->
  (forall i q, (i, q) ∈ l -> issued w' (k, t) (i, q) /\ kept_record (data_file st) i (record_new i q)) ->
  serving cap w' (table_set (k, t) l A) (with_data d st).
Proof.
  intros [Hj Hr Hw HA Hl Hrec] Hk Hw' Hr' Ho Ht Hnd Hnew.
  constructor; cbn [journal data_file with_data]; [exact Hj|exact Hr'|lia|..].
  - intros k' t' Hk'. unfold table_set. case_decide as E.
    + injection E as -> ->. split; [|done]. apply Forall_forall. intros [i q] Hin. by apply Hnew.
    + destruct (HA k' t' Hk') as [Hf Hn]. split; [|done]. eapply Forall_impl; [exact Hf|]. intros x. apply issued_mono. lia.
  - intros k' t' Hk'. unfold table_set. case_decide as E; [by injection E as -> ->|].
    apply (tracks_mono d k' t' w w'); [lia|]. by apply (tracks_others k t (data_file st) d Ho); [|intros [= -> ->]|apply Hl].
  - intros k' t' i q Hk' Hin. unfold table_set in Hin.
    assert (issued w' (k', t') (i, q) /\ kept_record (data_file st) i (record_new i q)) as [Hi Hkr].
    { case_decide as E; [injection E as -> ->; by apply Hnew|]. split; [|by eapply Hrec].
      destruct (HA k' t' Hk') as [Hf _]. rewrite Forall_forall in Hf. eapply issued_mono; [|by apply Hf]. lia. }
    eapply kept_file; [apply Ho|exact (proj1 (proj2 (issued_fields w' k' t' _ Hk' ltac:(lia) Hi)))|exact Hkr].
Qed.

(** The committed record is listed: at the end of the list, or alone for a
    unique struct. *)
Lemma index_serves (unique : bool) cap w A st k t p :
  serving (2 + cap) w A st -> key_ok k t -> w + 1 < 2 ^ 48 -> zlen p <= PAYLOAD_MAX ->
  let id := Id_new t 0 k (w + 1) in
  kept_record (data_file st) id (record_new id p) ->
  exists st', on_data (A := unit) (if unique then live_set_single k t id else live_append k t id) st = (Done tt, st') /\
    serving cap (w + 1) (table_set (k, t) (if unique then [(id, p)] else A (k, t) ++ [(id, p)]) A) st'.
Proof.
  intros HS Hk Hw1 Hp id Hkr. pose proof HS as [Hj Hr Hw HA Hl Hrec].
  assert (fits 48 (w + 1)) as Hf by (unfold fits; lia). destruct (new_id_fields k t (w + 1) Hk Hf) as (Hid & _ & _ & _ & _).
  assert (issued (w + 1) (k, t) (id, p)) as Hiss by (split; [exists (w + 1); split; [lia|done]|done]).
  destruct (Hl k t Hk) as (segs & opn & Hh & Ecat & Hm). destruct unique.
  - destruct (single_spec (S := DataFile) (H0 := file_laws) (1 + cap) (data_file st) k t id Hr Hk Hid) as (d & E & Hr' & Hh' & Ho).
    exists (with_data d st). split; [exact (with_data_run _ st _ _ E)|].
    eapply relist; [exact HS|done|lia|eapply file_ready_le; [|exact Hr']; lia|exact Ho| |apply NoDup_singleton|].
    + exists [], [id]. split; [done|]. split; [done|]. unfold zlen; simpl. lia.
    + intros i q [= -> ->]%list_elem_of_singleton. exact (conj Hiss Hkr).
  - destruct (append_spec (S := DataFile) (H0 := file_laws) cap (data_file st) k t segs opn id Hr Hk Hid Hh ltac:(lia)) as (d & segs' & opn' & E & Hr' & Hh' & Hcat' & Hm' & Ho).
    exists (with_data d st). split; [exact (with_data_run _ st _ _ E)|].
    eapply relist; [exact HS|done|lia|exact Hr'|exact Ho|..].
    + exists segs', opn'. split; [done|]. split; [|lia]. rewrite Hcat', (assoc_L (++)), map_app. f_equal. exact Ecat.
    + rewrite map_app. apply NoDup_app. split; [by apply HA|]. split; [|apply NoDup_singleton].
      intros j ([i q] & -> & Hin)%list_elem_of_fmap Hnew%list_elem_of_singleton. simpl in Hnew.
      exact (issued_fresh w A k t q i HA Hk Hin Hw1 k t Hk Hnew).
    + intros i q [Hin|[= -> ->]%list_elem_of_singleton]%elem_of_app; [|exact (conj Hiss Hkr)]. split; [|by eapply Hrec].
      destruct (HA k t Hk) as [Hall _]. rewrite Forall_forall in Hall. eapply issued_mono; [|by apply Hall]. lia.
Qed.

(** ** Reading *)

Lemma ids_serves cap w A st k t : serving cap w A st -> key_ok k t ->
  on_data (live_ids k t) st = (Done (map fst (A (k, t))), st).
Proof.
  intros [_ Hr _ _ Hl _] Hk. destruct (Hl k t Hk) as (segs & opn & Hh & -> & _).
  rewrite (with_data_run _ st _ _ (ids_spec (S := DataFile) (H0 := file_laws) cap (data_file st) k t segs opn Hr Hk Hh)). by destruct st.
Qed.

Lemma read_serves cap w A st k t id p : serving cap w A st -> key_ok k t -> (id, p) ∈ A (k, t) ->
  on_data (read_versioned id) st = (Done (Some (record_new id p)), st).
Proof.
  intros H Hk Hin. rewrite (with_data_run _ st _ _ (read_cached _ _ _ (proj1 (sv_records _ _ _ _ H k t id p Hk Hin)))). by destruct st.
Qed.

(** ** Removing *)

Lemma drops_filter (l : list (Id * list byte)) id l' : NoDup (map fst l) -> drops id (map fst l) l' ->
  l' = map fst (filter (fun x => x.1 <> id) l).
Proof.
  intros Hn (l1 & l2 & E & ->). revert l1 E. induction l as [|[i p] l IH]; intros l1 E; [by destruct l1|].
  cbn [map fst] in *. apply NoDup_cons in Hn as [Hi Hn]. rewrite filter_cons. cbn [fst]. destruct l1 as [|j l1].
  - injection E as -> <-. rewrite decide_False by (intros H; by apply H). rewrite filter_all; [done|].
    apply Forall_forall. intros [j q] Hj E. simpl in E. apply Hi. apply list_elem_of_fmap. exists (j, q). done.
  - injection E as -> E. rewrite decide_True.
    + cbn [map fst app]. f_equal. by apply IH.
    + intros ->. apply Hi. rewrite E. apply elem_of_app. right. by left.
Qed.

Lemma NoDup_map_filter {A B} (f : A -> B) (P : A -> Prop) `{!forall x, Decision (P x)} l :
  NoDup (map f l) -> NoDup (map f (filter P l)).
Proof.
  induction l as [|x l IH]; [done|]. cbn [map]. intros [Hx Hn]%NoDup_cons. rewrite filter_cons. case_decide; [|by apply IH].
  cbn [map]. apply NoDup_cons. split; [|by apply IH]. intros (y & E & Hy)%list_elem_of_fmap. apply Hx.
  apply list_elem_of_fmap. exists y. split; [done|]. by apply list_elem_of_filter in Hy as [_ ?].
Qed.

Lemma filter_absent (l : list (Id * list byte)) id : id ∉ map fst l -> filter (fun x => x.1 <> id) l = l.
Proof.
  intros Hn. apply filter_all, Forall_forall. intros x Hx E. apply Hn. apply list_elem_of_fmap. by exists x.
Qed.

Lemma remove_serves cap w A st k t id :
  serving (S cap) w A st -> key_ok k t ->
  exists b st', on_data (live_remove k t id) st = (Done b, st') /\
    serving cap w (table_set (k, t) (filter (fun x => x.1 <> id) (A (k, t))) A) st'.
Proof.
  intros HS Hk. pose proof HS as [Hj Hr Hw HA Hl Hrec]. destruct (Hl k t Hk) as (segs & opn & Hh & Ecat & Hm).
  destruct (remove_spec (S := DataFile) (H0 := file_laws) cap (data_file st) k t segs opn id Hr Hk Hh) as (b & d & segs' & opn' & E & Hr' & Hh' & Hlen & Ho & Hb).
  destruct (HA k t Hk) as [Hall Hnd]. rewrite Forall_forall in Hall.
  exists b, (with_data d st). split; [exact (with_data_run _ st _ _ E)|].
  eapply relist; [exact HS|done|lia|exact Hr'|exact Ho| |by apply NoDup_map_filter|].
  - exists segs', opn'. split; [done|]. split; [|unfold zlen in *; lia]. destruct b.
    + symmetry. apply drops_filter; [done|]. by rewrite Ecat.
    + destruct Hb as (Hn & _ & -> & ->). rewrite <- Ecat in Hn. by rewrite filter_absent.
  - intros i q [_ Hin]%list_elem_of_filter. split; [by apply Hall|by eapply Hrec].
Qed.
