(* ===== verification/QuickNode.v ===== *)
(** * The quick node (wavedb-quick-node: node.rs)

    One value of [QuickNode] is the state behind the node's handle between
    operations; a handler runs on it alone.  What a handler sends in the background
    is appended to [spawned]; a request whose reply the node waits for is an
    argument of the function that waits.  Tokens need a MAC and the clock, error
    texts the formatting of the error types: both are parameters. *)
From S2P Require Import Prelude Wire WireOk Errors Ids Page Hash Anchor Journal DataFile Live Heap NodeStorage Ring Auth Cluster Request Registry Query QueryWire Messages.

Definition MIN_REPLICAS : Z := 2.
Definition FLUSH_BATCH_MAX : nat := 512.
Definition MAX_MAP_PAGES : Z := 512.

(** ** State *)

Record Config : Type := {
  listen : list byte;
  peer_addrs : list (list byte);
  slow_node : option (list byte);
  cluster_key : option ClusterKey
}.

Inductive Task : Type :=
  | PostReplicate (peer : NodeId) (addr body : list byte)
  | PostGossip (addr : list byte) (msg : GossipMessage).

Record QuickNode : Type := {
  node_id : NodeId;
  listen_addr : list byte;
  ownership : OwnershipMap;
  qn_transfers : TransferTracker;
  qn_ring : ConsistentRing;
  replication : ReplicationWatermark;
  config : Config;
  gossip : GossipState;
  draining : bool;
  write_count : Z;
  read_count : Z;
  write_bytes : Z;
  rejected_count : Z;
  replicated_count : Z;
  page_bytes : list Z;
  storage : option NodeStorage;
  flush_pending : gmap Z (list VersionedRecord);
  registry : option ObjectRegistry;
  spawned : list Task
}.

(** The fields handlers change, one setter each. *)
Definition with_ring (r : ConsistentRing) (n : QuickNode) : QuickNode :=
  {| node_id := node_id n; listen_addr := listen_addr n; ownership := ownership n; qn_transfers := qn_transfers n; qn_ring := r;
     replication := replication n; config := config n; gossip := gossip n; draining := draining n; write_count := write_count n;
     read_count := read_count n; write_bytes := write_bytes n; rejected_count := rejected_count n;
     replicated_count := replicated_count n; page_bytes := page_bytes n; storage := storage n;
     flush_pending := flush_pending n; registry := registry n; spawned := spawned n |}.
Definition with_replication (w : ReplicationWatermark) (n : QuickNode) : QuickNode :=
  {| node_id := node_id n; listen_addr := listen_addr n; ownership := ownership n; qn_transfers := qn_transfers n; qn_ring := qn_ring n;
     replication := w; config := config n; gossip := gossip n; draining := draining n; write_count := write_count n;
     read_count := read_count n; write_bytes := write_bytes n; rejected_count := rejected_count n;
     replicated_count := replicated_count n; page_bytes := page_bytes n; storage := storage n;
     flush_pending := flush_pending n; registry := registry n; spawned := spawned n |}.
Definition with_gossip (g : GossipState) (d : bool) (n : QuickNode) : QuickNode :=
  {| node_id := node_id n; listen_addr := listen_addr n; ownership := ownership n; qn_transfers := qn_transfers n; qn_ring := qn_ring n;
     replication := replication n; config := config n; gossip := g; draining := d; write_count := write_count n;
     read_count := read_count n; write_bytes := write_bytes n; rejected_count := rejected_count n;
     replicated_count := replicated_count n; page_bytes := page_bytes n; storage := storage n;
     flush_pending := flush_pending n; registry := registry n; spawned := spawned n |}.
(** The counters and the heat map. *)
Definition with_counts (wc rc wb jc pc : Z) (heat : list Z) (n : QuickNode) : QuickNode :=
  {| node_id := node_id n; listen_addr := listen_addr n; ownership := ownership n; qn_transfers := qn_transfers n; qn_ring := qn_ring n;
     replication := replication n; config := config n; gossip := gossip n; draining := draining n; write_count := wc;
     read_count := rc; write_bytes := wb; rejected_count := jc;
     replicated_count := pc; page_bytes := heat; storage := storage n;
     flush_pending := flush_pending n; registry := registry n; spawned := spawned n |}.
Definition with_storage (s : option NodeStorage) (n : QuickNode) : QuickNode :=
  {| node_id := node_id n; listen_addr := listen_addr n; ownership := ownership n; qn_transfers := qn_transfers n; qn_ring := qn_ring n;
     replication := replication n; config := config n; gossip := gossip n; draining := draining n; write_count := write_count n;
     read_count := read_count n; write_bytes := write_bytes n; rejected_count := rejected_count n;
     replicated_count := replicated_count n; page_bytes := page_bytes n; storage := s;
     flush_pending := flush_pending n; registry := registry n; spawned := spawned n |}.
Definition with_flush (f : gmap Z (list VersionedRecord)) (n : QuickNode) : QuickNode :=
  {| node_id := node_id n; listen_addr := listen_addr n; ownership := ownership n; qn_transfers := qn_transfers n; qn_ring := qn_ring n;
     replication := replication n; config := config n; gossip := gossip n; draining := draining n; write_count := write_count n;
     read_count := read_count n; write_bytes := write_bytes n; rejected_count := rejected_count n;
     replicated_count := replicated_count n; page_bytes := page_bytes n; storage := storage n;
     flush_pending := f; registry := registry n; spawned := spawned n |}.
Definition with_spawned (ts : list Task) (n : QuickNode) : QuickNode :=
  {| node_id := node_id n; listen_addr := listen_addr n; ownership := ownership n; qn_transfers := qn_transfers n; qn_ring := qn_ring n;
     replication := replication n; config := config n; gossip := gossip n; draining := draining n; write_count := write_count n;
     read_count := read_count n; write_bytes := write_bytes n; rejected_count := rejected_count n;
     replicated_count := replicated_count n; page_bytes := page_bytes n; storage := storage n;
     flush_pending := flush_pending n; registry := registry n; spawned := ts |}.

(** [QuickNode::build], [opened] being what opening the storage gave. *)
Definition node_build (cfg : Config) (reg : option ObjectRegistry) (opened : option NodeStorage) : QuickNode :=
  let id := addr_to_node_id (listen cfg) in
  let join '(r, w) addr := (add_node (addr_to_node_id addr) addr r, add_peer (addr_to_node_id addr) w) in
  let '(r, w) := foldl join (add_node id (listen cfg) ring_new, watermark_new) (peer_addrs cfg) in
  {| node_id := id; listen_addr := listen cfg; ownership := []; qn_transfers := tracker_new; qn_ring := r;
     replication := w; config := cfg; gossip := gossip_new; draining := false; write_count := 0;
     read_count := 0; write_bytes := 0; rejected_count := 0; replicated_count := 0;
     page_bytes := replicate 512 0; storage := opened; flush_pending := ∅; registry := reg; spawned := [] |}.

(** Handlers turn errors into responses; what is left is a panic. *)
Abbreviation QN := (ST QuickNode Empty_set).

(** The whole state, read. *)
Definition self (n : QuickNode) : QuickNode := n.

Definition modify (f : QuickNode -> QuickNode) : QN unit := st_modify f.

Definition spawn (t : Task) : QN unit := modify (fun n => with_spawned (spawned n ++ [t]) n).

Definition count_read : QN unit := modify (fun n =>
  with_counts (write_count n) (wrap 64 (read_count n + 1)) (write_bytes n) (rejected_count n) (replicated_count n) (page_bytes n) n).
Definition count_rejected : QN unit := modify (fun n =>
  with_counts (write_count n) (read_count n) (write_bytes n) (wrap 64 (rejected_count n + 1)) (replicated_count n) (page_bytes n) n).
Definition count_write (len : Z) : QN unit := modify (fun n =>
  with_counts (wrap 64 (write_count n + 1)) (read_count n) (wrap 64 (write_bytes n + len)) (rejected_count n) (replicated_count n) (page_bytes n) n).
Definition count_replicated (k : Z) : QN unit := modify (fun n =>
  with_counts (write_count n) (read_count n) (write_bytes n) (rejected_count n) (wrap 64 (replicated_count n + k)) (page_bytes n) n).

(** [page_bytes[page_idx].fetch_add]: an index outside the table panics. *)
Definition heat (page_idx len : Z) : QN unit := fun n =>
  match page_bytes n !! Z.to_nat page_idx with
  | Some b => modify (fun n => with_counts (write_count n) (read_count n) (write_bytes n) (rejected_count n) (replicated_count n)
                                 (<[Z.to_nat page_idx := wrap 64 (b + len)]> (page_bytes n)) n) n
  | None => (Fault, n)
  end.

(** An operation of the storage, its error as a value. *)
Definition on_storage {A} (m : NS A) : QN (A + StorageError) := fun n =>
  match storage n with
  | Some s =>
    match m s with
    | (Done a, s) => (Done (inl a), with_storage (Some s) n)
    | (Fail e, s) => (Done (inr e), with_storage (Some s) n)
    | (Fault, s) => (Fault, with_storage (Some s) n)
    end
  | None => (Fault, n)
  end.

Definition on_replication {A} (m : ST ReplicationWatermark Empty_set A) : QN A := fun n =>
  let '(r, w) := m (replication n) in (r, with_replication w n).

Definition new_epoch : QN Z := fun n =>
  let '(r, g) := next_epoch (gossip n) in (r, with_gossip g (draining n) n).

Definition note_seen (origin : NodeId) (ep : Z) : QN bool := fun n =>
  let '(g, fresh) := mark_seen origin ep (gossip n) in (Done fresh, with_gossip g (draining n) n).

(** ** Queries of the ring *)

(** An explicit pin, else the ring. *)
Definition node_owns (n : QuickNode) (tenant shard : Z) : bool :=
  map_owns tenant shard (ownership n) || bool_decide (owner_of tenant shard (qn_ring n) = Some (node_id n)).

Definition route_to (n : QuickNode) (tenant shard : Z) : option (list byte) :=
  owner ← owner_of tenant shard (qn_ring n); addr_of owner (qn_ring n).

(** Another node's address, the first the table lists. *)
Definition other_url (n : QuickNode) : option (list byte) :=
  id ← head (filter (fun id => id <> node_id n) (nodes (qn_ring n)));
  (fun a => str "ws://" ++ a) <$> addr_of id (qn_ring n).

Definition route_to_owner_hint := other_url.
Definition node_backup_url := other_url.

Definition addrs_of (n : QuickNode) (ids : list NodeId) : list (list byte) :=
  omap (fun id => addr_of id (qn_ring n)) ids.

Definition peer_addresses (n : QuickNode) : list (list byte) :=
  addrs_of n (filter (fun id => id <> node_id n) (nodes (qn_ring n))).

Definition peer_addresses_except (n : QuickNode) (skip : NodeId) : list (list byte) :=
  addrs_of n (filter (fun id => id <> node_id n /\ id <> skip) (nodes (qn_ring n))).

Definition known_nodes (n : QuickNode) : list (NodeId * list byte) :=
  omap (fun id => (fun a => (id, a)) <$> addr_of id (qn_ring n)) (nodes (qn_ring n)).

(** ** Responses *)

Definition not_owner_resp (n : QuickNode) (seq tenant : Z) : TransportResponse :=
  {| rs_seq := seq; rs_payload := str "not_owner";
     owner_url := match route_to n tenant 0 with
                  | Some addr => Some (str "ws://" ++ addr ++ str "/ws")
                  | None => route_to_owner_hint n
                  end;
     backup_url := None; notifications := []; rs_error := None |}.

Definition draining_resp (n : QuickNode) (seq : Z) : TransportResponse :=
  {| rs_seq := seq; rs_payload := str "draining"; owner_url := route_to_owner_hint n;
     backup_url := None; notifications := []; rs_error := None |}.

Definition node_error (code : ErrorCode) (struct_id : Z) (message : list byte) : NodeError :=
  {| ne_code := code; ne_struct_id := struct_id; ne_field := None; ne_message := message |}.

(** [{:#010x}]. *)
Definition hex_digit (v : Z) : byte := byte_of (if v <? 10 then 0x30 + v else 0x57 + v).
Definition hex8 (v : Z) : list byte :=
  str "0x" ++ map (fun k => hex_digit (Z.land (Z.shiftr v (4 * Z.of_nat k)) 0xf)) (rev (seq 0 8)).

Section node.
(** The texts of the error types' [Display]. *)
Variable storage_text : StorageError -> list byte.
Variable wire_text : WireError -> list byte.
Variable core_text : CoreError -> list byte.
(** The MAC of tokens, and the clock as a handler reads it. *)
Variable hmac : list byte -> list byte -> list byte.
Variable now_secs : Z.

Definition storage_err (seq struct_id : Z) (e : StorageError) : TransportResponse :=
  resp_err seq (node_error CStorage struct_id (storage_text e)).

Definition to_node_error (e : CoreError) (struct_id : Z) (hook_code : ErrorCode) : NodeError :=
  match e with
  | EUnknownHeader header =>
    node_error UnknownHeader header (str "record header " ++ hex8 header ++ str " not declared in the node's registry")
  | Validation struct_id source =>
    {| ne_code := hook_code; ne_struct_id := struct_id; ne_field := ve_field source; ne_message := ve_message source |}
  | EWire w => node_error MalformedPayload struct_id (wire_text w)
  | other => node_error hook_code struct_id (core_text other)
  end.

Definition mint (n : QuickNode) (purpose : TokenPurpose) : option NodeToken :=
  (fun k => mint_at hmac k (node_id n) purpose now_secs) <$> cluster_key (config n).

(** ** Sessions *)

Definition handle_connect (seq user tenant : Z) : QN TransportResponse :=
  st_gets (fun n => {| rs_seq := seq; rs_payload := []; owner_url := Some (str "ws://" ++ listen_addr n);
                       backup_url := node_backup_url n; notifications := []; rs_error := None |}).

Definition handle_disconnect (seq user tenant : Z) : QN TransportResponse := st_ret (resp_ok seq []).

(** A handler's guards: draining, then ownership. *)
Definition guarded (seq tenant : Z) (body : QN TransportResponse) : QN TransportResponse := fun n =>
  if draining n then (Done (draining_resp n seq), n)
  else if negb (node_owns n tenant 0) then (Done (not_owner_resp n seq tenant), n)
  else body n.

(** ** Reads *)

Definition handle_search_unique (seq struct_id user tenant : Z) : QN TransportResponse :=
  guarded seq tenant (
    do! count_read in
    let! n := st_gets self in
    match storage n with
    | None => st_ret (resp_ok seq [])
    | Some _ =>
      let! live := on_storage (on_data (live_ids struct_id tenant)) in
      match live with
      | inr e => st_ret (storage_err seq struct_id e)
      | inl ids =>
        match last ids with
        | None => st_ret (resp_ok seq [])
        | Some newest =>
          let! rec := on_storage (on_data (read_versioned newest)) in
          match rec with
          | inl (Some rec) => st_ret (resp_ok seq (vr_data rec))
          | inl None => st_ret (resp_ok seq [])
          | inr e => st_ret (storage_err seq struct_id e)
          end
        end
      end
    end).

(** The loop of [handle_query] over the live identifiers. *)
Fixpoint query_loop (struct_id : Z) (reg : option ObjectRegistry) (expr : Expr) (ids : list Z)
    (entries : list (byte * list byte)) : QN (list (byte * list byte) + StorageError) :=
  match ids with
  | [] => st_ret (inl entries)
  | id :: ids =>
    let! r := on_storage (on_data (read_versioned id)) in
    match r with
    | inr e => st_ret (inr e)
    | inl None => query_loop struct_id reg expr ids entries
    | inl (Some rec) =>
      match vr_data rec with
      | [] => query_loop struct_id reg expr ids entries
      | version :: body =>
        let keep :=
          if is_all expr then true
          else match reg with
               | Some reg => match reg_find reg (pack_header struct_id (byte_val version)) with
                             | Some desc => eval desc body expr
                             | None => false
                             end
               | None => false
               end in
        query_loop struct_id reg expr ids (if keep then entries ++ [(version, body)] else entries)
      end
    end
  end.

Definition wire_entries : Wire (list (byte * list byte)) := wire_vec (wire_pair wire_u8 wire_bytes).

Definition handle_query (seq struct_id user tenant : Z) (filter : list byte) : QN TransportResponse :=
  guarded seq tenant (
    do! count_read in
    match from_bytes filter with
    | Fault => fun n => (Fault, n)
    | Fail _ => st_ret (resp_err seq (node_error MalformedPayload struct_id (str "query filter does not decode as an Expr")))
    | Done expr =>
      let! n := st_gets self in
      match storage n with
      | None => st_ret (resp_ok seq [])
      | Some _ =>
        if bool_decide (registry n = None) && negb (is_all expr) then
          st_ret (resp_err seq (node_error Unsupported struct_id
            (str "filtered queries require a schema registry; this node is schema-blind")))
        else
          let! live := on_storage (on_data (live_ids struct_id tenant)) in
          match live with
          | inr e => st_ret (storage_err seq struct_id e)
          | inl ids =>
            let! entries := query_loop struct_id (registry n) expr ids [] in
            match entries with
            | inr e => st_ret (storage_err seq struct_id e)
            | inl entries =>
              match to_wire wire_entries entries with
              | Done payload => st_ret (resp_ok seq payload)
              | Fail e => st_ret (resp_err seq (node_error CStorage struct_id (str "query response encode: " ++ wire_text e)))
              | Fault => fun n => (Fault, n)
              end
            end
          end
      end
    end).

(** ** Writes *)

(** The engine's identifier goes into the record's own [id] field. *)
Definition stamp_engine_id (reg : option ObjectRegistry) (struct_id : Z) (id : Id) (committed : list byte) : list byte :=
  match reg with
  | None => committed
  | Some reg =>
    let id_field :=
      version ← head committed;
      desc ← reg_find reg (pack_header struct_id (byte_val version));
      i ← desc_field desc (str "id");
      fields desc !! i in
    match id_field with
    | Some fd =>
      let start := (1 + stack_offset fd)%nat in
      if bool_decide (fd_stack_size fd = 16%nat /\ (start + 16 <= length committed)%nat)
      then splice start (le_bytes 16 id) committed else committed
    | None => committed
    end
  end.

(** A failure of the tracker is logged and nothing else. *)
Definition index_committed (reg : option ObjectRegistry) (id : Id) (payload : list byte) : QN unit :=
  let unique :=
    match reg with
    | Some reg =>
      match payload with
      | version :: _ =>
        match reg_find reg (pack_header (Ids.struct_id id) (byte_val version)) with
        | Some desc => match od_shape desc with Unique => true | _ => false end
        | None => false
        end
      | [] => false
      end
    | None => false
    end in
  let! _ := on_storage (on_data (
    if unique then live_set_single (Ids.struct_id id) (tenant_id id) id
    else live_append (Ids.struct_id id) (tenant_id id) id)) in
  st_ret tt.

Definition replica_peers (n : QuickNode) (tenant : Z) : list (NodeId * list byte) :=
  omap (fun id => (fun a => (id, a)) <$> addr_of id (qn_ring n))
    (filter (fun id => id <> node_id n) (replicas_of tenant 0 MIN_REPLICAS (qn_ring n))).

Definition post_replica (write_seq : Z) (body : list byte) (peer : NodeId * list byte) : QN unit :=
  do! modify (fun n => with_replication (add_peer peer.1 (replication n)) n) in
  do! modify (fun n => with_replication (record_send peer.1 write_seq (replication n)) n) in
  spawn (PostReplicate peer.1 peer.2 body).

Definition replicate_to_peers (tenant write_seq record_id : Z) (data : list byte) : QN unit :=
  let! n := st_gets self in
  match replica_peers n tenant with
  | [] => st_ret tt
  | peers =>
    let batch := {| rb_origin := node_id n; rb_write_seq := write_seq;
                    rb_records := [{| rr_id := record_id; rr_data := data |}]; rb_token := mint n PReplicate |} in
    match encode_payload wire_batch batch with
    | Done body => st_iter (post_replica write_seq body) peers
    | Fail _ => st_ret tt
    | Fault => fun n => (Fault, n)
    end
  end.

(** What the background task does with the reply to [PostReplicate]. *)
Definition replica_replied (peer : NodeId) (bytes : list byte) : QN unit :=
  match decode_payload wire_replicate_ack bytes with
  | Done ack => modify (fun n => with_replication (record_ack peer (ack_write_seq ack) (replication n)) n)
  | Fail _ => st_ret tt
  | Fault => fun n => (Fault, n)
  end.

(** The bytes to commit, or the response that refuses them. *)
Definition check_schema (seq struct_id : Z) (payload : list byte) : QN (list byte + TransportResponse) :=
  let! n := st_gets self in
  match registry n with
  | None => st_ret (inl payload)
  | Some reg =>
    match payload with
    | [] => st_ret (inr (resp_err seq (node_error MalformedPayload struct_id (str "empty write payload (missing version byte)"))))
    | version :: body =>
      let header := pack_header struct_id (byte_val version) in
      match reg_validate reg header body with
      | Fault => fun n => (Fault, n)
      | Fail e => do! count_rejected in st_ret (inr (resp_err seq (to_node_error e struct_id ValidationFailed)))
      | Done _ =>
        match reg_preprocess reg header body with
        | Fault => fun n => (Fault, n)
        | Done None => st_ret (inl payload)
        | Done (Some new_body) => st_ret (inl (version :: new_body))
        | Fail e => do! count_rejected in st_ret (inr (resp_err seq (to_node_error e struct_id PreprocessFailed)))
        end
      end
    end
  end.

Definition queue_flush (tenant : Z) (rec : VersionedRecord) : QN unit := modify (fun n =>
  with_flush (<[tenant := default [] (flush_pending n !! tenant) ++ [rec]]> (flush_pending n)) n).

(** Commit, index and queue one record; the error is that of the commit. *)
Definition store_record (tenant : Z) (id : Id) (committed : list byte) : QN (option StorageError) :=
  let! n := st_gets self in
  match storage n with
  | None => st_ret None
  | Some _ =>
    let! r := on_storage (commit_write id committed) in
    match r with
    | inr e => st_ret (Some e)
    | inl _ =>
      do! index_committed (registry n) id committed in
      do! (if bool_decide (is_Some (slow_node (config n))) then queue_flush tenant (record_new id committed) else st_ret tt) in
      st_ret None
    end
  end.

Definition handle_write (seq struct_id user tenant : Z) (payload : list byte) : QN TransportResponse :=
  guarded seq tenant (
    let! checked := check_schema seq struct_id payload in
    match checked with
    | inr refusal => st_ret refusal
    | inl committed =>
      let payload_len := zlen committed in
      let! write_seq := on_replication next_seq in
      let id := Id_new tenant 0 struct_id write_seq in
      let! n := st_gets self in
      let committed := stamp_engine_id (registry n) struct_id id committed in
      let! failed := store_record tenant id committed in
      match failed with
      | Some e => st_ret (resp_err seq (node_error CStorage struct_id (storage_text e)))
      | None =>
        do! count_write payload_len in
        do! heat (tuple4_page struct_id tenant 0 write_seq MAX_MAP_PAGES) payload_len in
        do! replicate_to_peers tenant write_seq id committed in
        st_ret (resp_ok seq [])
      end
    end).

Definition handle_delete (seq id user tenant : Z) : QN TransportResponse :=
  guarded seq tenant (
    if negb (tenant_id id =? tenant) then
      st_ret (resp_err seq (node_error MalformedPayload (Ids.struct_id id) (str "record id does not belong to this tenant")))
    else
      let! n := st_gets self in
      match storage n with
      | None => st_ret (resp_ok seq [])
      | Some _ =>
        let! r := on_storage (on_data (live_remove (Ids.struct_id id) tenant id)) in
        match r with
        | inl _ => st_ret (resp_ok seq [])
        | inr e => st_ret (storage_err seq (Ids.struct_id id) e)
        end
      end).

(** A panic of the blocking task of a write is an answer. *)
Definition handle (req : TransportRequest) : QN TransportResponse :=
  let seq := req_seq req in
  match req_kind req with
  | Connect user tenant => handle_connect seq user tenant
  | SearchUnique s user tenant => handle_search_unique seq s user tenant
  | QueryNonUnique s user tenant filter => handle_query seq s user tenant filter
  | WriteReq s user tenant payload => fun n =>
    match handle_write seq s user tenant payload n with
    | (Done r, n) => (Done r, n)
    | (_, n) => (Done (resp_ok seq (str "storage_error")), n)
    end
  | DeleteReq id user tenant => handle_delete seq id user tenant
  | Disconnect user tenant => handle_disconnect seq user tenant
  end.

(** ** Replicas *)

Fixpoint apply_records (write_seq i : Z) (recs : list ReplicaRecord) : QN unit :=
  match recs with
  | [] => st_ret tt
  | rec :: recs =>
    let! n := st_gets self in
    let! r := on_storage (commit_write (rr_id rec) (rr_data rec)) in
    match r with
    | inr _ => apply_records write_seq (i + 1) recs
    | inl _ =>
      do! index_committed (registry n) (rr_id rec) (rr_data rec) in
      do! heat (tuple4_page (Ids.struct_id (rr_id rec)) (tenant_id (rr_id rec)) 0 (wrap 64 (write_seq + i)) MAX_MAP_PAGES)
            (zlen (rr_data rec)) in
      apply_records write_seq (i + 1) recs
    end
  end.

Definition apply_replica (batch : ReplicateBatch) : QN ReplicateAck :=
  let! n := st_gets self in
  do! match storage n with
      | Some _ => apply_records (rb_write_seq batch) 0 (rb_records batch)
      | None => st_ret tt
      end in
  do! count_replicated (zlen (rb_records batch)) in
  st_ret {| ack_write_seq := rb_write_seq batch |}.

(** ** Membership *)

Definition join_peer (id : NodeId) (addr : list byte) : QN unit := modify (fun n =>
  with_replication (add_peer id (replication n)) (with_ring (add_node id addr (qn_ring n)) n)).

Definition evict_peer (peer : NodeId) : QN unit := modify (fun n =>
  with_replication (remove_peer peer (replication n)) (with_ring (remove_node peer (qn_ring n)).1 n)).

(** One task that posts the message to each peer; failures are logged. *)
Definition fanout (msg : GossipMessage) (skip : NodeId) : QN unit :=
  let! n := st_gets self in
  st_iter (fun addr => spawn (PostGossip addr msg)) (peer_addresses_except n skip).

Definition handle_gossip (msg : GossipMessage) : QN GossipResponse :=
  let! fresh := note_seen (gm_origin msg) (gm_epoch msg) in
  if negb fresh then
    match gm_kind msg with
    | Announce => st_gets (fun n => NodeList (known_nodes n))
    | Withdraw => st_ret Ack
    end
  else
    let peer_id := addr_to_node_id (gm_addr msg) in
    match gm_kind msg with
    | Announce =>
      do! join_peer peer_id (gm_addr msg) in
      do! fanout msg peer_id in
      st_gets (fun n => NodeList (known_nodes n))
    | Withdraw =>
      do! fanout msg peer_id in
      do! evict_peer peer_id in
      st_ret Ack
    end.

(** A message of this node, marked as seen. *)
Definition own_message (kind : GossipKind) : QN GossipMessage :=
  let! ep := new_epoch in
  let! n := st_gets self in
  let msg := {| gm_epoch := ep; gm_origin := node_id n; gm_addr := listen_addr n; gm_kind := kind; gm_token := mint n PGossip |} in
  let! _ := note_seen (node_id n) ep in
  st_ret msg.

Definition merge_nodes (l : list (NodeId * list byte)) : QN unit :=
  st_iter (fun p => fun n => if bool_decide (p.1 <> node_id n) then join_peer p.1 p.2 n else (Done tt, n)) l.

Section network.
(** The reply to a message posted to an address; none when it fails. *)
Variable send : list byte -> GossipMessage -> option GossipResponse.

Definition announce_self : QN unit :=
  let! msg := own_message Announce in
  let! n := st_gets self in
  st_iter (fun addr =>
    match send addr msg with
    | Some (NodeList l) => merge_nodes l
    | _ => st_ret tt
    end) (peer_addresses n).

Definition ring_peers (n : QuickNode) : list (NodeId * list byte) :=
  omap (fun id => (fun a => (id, a)) <$> addr_of id (qn_ring n)) (filter (fun id => id <> node_id n) (nodes (qn_ring n))).

(** One peer of [heartbeat_tick], over the counts of missed heartbeats. *)
Definition heartbeat_peer (strikes : Z) (misses : gmap NodeId Z) (peer : NodeId * list byte) : QN (gmap NodeId Z) :=
  let! msg := own_message Announce in
  match send peer.2 msg with
  | Some _ => st_ret (delete peer.1 misses)
  | None =>
    let! k := st_lift (uadd 32 (default 0 (misses !! peer.1)) 1) in
    if strikes <=? k then do! evict_peer peer.1 in st_ret (delete peer.1 misses)
    else st_ret (<[peer.1 := k]> misses)
  end.

Definition heartbeat_tick (strikes : Z) (misses : gmap NodeId Z) : QN (gmap NodeId Z) :=
  let! n := st_gets self in
  st_foldl (heartbeat_peer strikes) misses (ring_peers n).
End network.

(** ** History flushes *)

Section flush.
(** Whether the slow node accepts a batch. *)
Variable post : list byte -> bool.

(** One chunk: the records that must be sent again. *)
Definition flush_chunk (tenant write_seq : Z) (failed : list VersionedRecord) (chunk : list VersionedRecord) : QN (list VersionedRecord) :=
  let! n := st_gets self in
  let batch := {| fb_write_seq := write_seq; fb_tenant := tenant; fb_records := chunk; fb_token := mint n PFlush |} in
  match encode_payload wire_flush batch with
  | Fault => fun n => (Fault, n)
  | Fail _ => st_ret (failed ++ chunk)
  | Done body => st_ret (if post body then failed else failed ++ chunk)
  end.

Fixpoint chunks (fuel k : nat) (l : list VersionedRecord) : list (list VersionedRecord) :=
  match fuel, l with
  | S fuel, _ :: _ => take k l :: chunks fuel k (drop k l)
  | _, _ => []
  end.

Definition flush_tenant (write_seq : Z) (p : Z * list VersionedRecord) : QN unit :=
  let! failed := st_foldl (flush_chunk p.1 write_seq) [] (chunks (length p.2) FLUSH_BATCH_MAX p.2) in
  match failed with
  | [] => st_ret tt
  | _ => modify (fun n => with_flush (<[p.1 := failed ++ default [] (flush_pending n !! p.1)]> (flush_pending n)) n)
  end.

Definition sync_to_slow : QN unit :=
  let! n := st_gets self in
  match slow_node (config n) with
  | None => st_ret tt
  | Some _ =>
    let pending := map_to_list (flush_pending n) in
    do! modify (with_flush ∅) in
    match pending with
    | [] => st_ret tt
    | _ => st_iter (flush_tenant (current_seq (replication n))) pending
    end
  end.

(** The withdraw messages go out to every peer in turn. *)
Definition drain : QN unit :=
  do! modify (fun n => with_gossip (gossip n) true n) in
  do! sync_to_slow in
  let! msg := own_message Withdraw in
  let! n := st_gets self in
  st_iter (fun addr => spawn (PostGossip addr msg)) (peer_addresses n).
End flush.

(** ** The heat map of the metrics *)

Definition heat_slot (busiest b : Z) : Z :=
  if b =? 0 then 0 else Z.max 1 (Z.min 255 (Z.min (2 ^ 64 - 1) (b * 255) / busiest)).

Definition page_map (n : QuickNode) : list Z :=
  let busiest := Z.max 1 (foldr Z.max 0 (page_bytes n)) in map (heat_slot busiest) (page_bytes n).

Definition page_count (n : QuickNode) : Z := zlen (filter (fun o => 0 < o) (page_map n)).
End node.
