(* ===== verification/NodeOk.v ===== *)
(** * What a serving quick node answers

    Requests run through [handle] behave as operations on one list of records per
    struct and tenant: the refinement of the front end, from the request down to
    the bytes of the data file. *)
From S2P Require Import Prelude Wire WireOk Errors Ids Page Hash Anchor Journal DataFile DataFileOk Live LiveOk LiveFile Heap NodeStorage NodeStorageOk.
From S2P Require Import Ring Auth Cluster Request Registry Query QueryWire Messages NodeServe QuickNode.

(** ** What handlers leave alone *)

(** Everything that decides routing and refusals is as before. *)
Record stays (n n' : QuickNode) : Prop := {
  st_node : node_id n' = node_id n;
  st_addr : listen_addr n' = listen_addr n;
  st_own : ownership n' = ownership n;
  st_ring : qn_ring n' = qn_ring n;
  st_config : config n' = config n;
  st_drain : draining n' = draining n;
  st_registry : registry n' = registry n
}.

#[export] Instance stays_preorder : PreOrder stays.
Proof. split; [by split|]. intros a b c [] []. split; congruence. Qed.

(** Nor are the sequence and the size of the heat table changed. *)
Record steady_node (n n' : QuickNode) : Prop := {
  sn_stays : stays n n';
  sn_seq : local_seq (replication n') = local_seq (replication n);
  sn_heat : length (page_bytes n') = length (page_bytes n)
}.

#[export] Instance steady_node_preorder : PreOrder steady_node.
Proof. split; [by split|]. intros a b c [] []. split; [by etransitivity|congruence..]. Qed.

(** The storage is the same too. *)
Definition quiet (n n' : QuickNode) : Prop := steady_node n n' /\ storage n' = storage n.

#[export] Instance quiet_preorder : PreOrder quiet.
Proof. split; [by split|]. intros a b c [H1 E1] [H2 E2]. split; [by etransitivity|congruence]. Qed.

Lemma bind_run {S E A B} (m : ST S E A) (f : A -> ST S E B) s a s' : m s = (Done a, s') -> st_bind m f s = f a s'.
Proof. intros E'. unfold st_bind. by rewrite E'. Qed.

(** [m] gives [a] and changes nothing that matters. *)
Definition silent {A} (m : QN A) (n : QuickNode) (a : A) : Prop := exists n', m n = (Done a, n') /\ quiet n n'.

Lemma silent_ret {A} (a : A) n : silent (st_ret a) n a.
Proof. by exists n. Qed.

Lemma silent_bind {A B} (m : QN A) (f : A -> QN B) n a b : silent m n a -> (forall n', quiet n n' -> silent (f a) n' b) ->
  silent (st_bind m f) n b.
Proof.
  intros (n1 & E1 & Q1) H2. destruct (H2 n1 Q1) as (n2 & E2 & Q2). exists n2. split; [by erewrite bind_run|by etransitivity].
Qed.

Lemma silent_iter {A} (f : A -> QN unit) (l : list A) n : (forall x n', silent (f x) n' tt) -> silent (st_iter f l) n tt.
Proof.
  intros Hf. revert n. induction l as [|x l IH]; intros n; [apply silent_ret|].
  eapply silent_bind; [apply Hf|]. intros n' _. apply IH.
Qed.

Lemma silent_modify f n : quiet n (f n) -> silent (modify f) n tt.
Proof. by exists (f n). Qed.

Lemma quiet_replication w n : local_seq w = local_seq (replication n) -> quiet n (with_replication w n).
Proof. intros E. by split; [split; [split|..]|]. Qed.

Lemma silent_read n : silent count_read n tt.
Proof. apply silent_modify. by split; [split; [split|..]|]. Qed.

Lemma silent_rejected n : silent count_rejected n tt.
Proof. apply silent_modify. by split; [split; [split|..]|]. Qed.

Lemma silent_write len n : silent (count_write len) n tt.
Proof. apply silent_modify. by split; [split; [split|..]|]. Qed.

Lemma silent_flush t rec n : silent (queue_flush t rec) n tt.
Proof. apply silent_modify. by split; [split; [split|..]|]. Qed.

Lemma silent_heat i len n : 0 <= i < MAX_MAP_PAGES -> length (page_bytes n) = 512%nat -> silent (heat i len) n tt.
Proof.
  intros Hi Hl. unfold MAX_MAP_PAGES in Hi. unfold silent, heat.
  destruct (lookup_lt_is_Some_2 (page_bytes n) (Z.to_nat i)) as [b ->]; [lia|].
  eexists. split; [done|]. split; [|done]. split; [by split|done|]. cbn. by rewrite length_insert.
Qed.

Lemma add_peer_seq peer w : local_seq (add_peer peer w) = local_seq w.
Proof. unfold add_peer. by repeat case_match. Qed.

Lemma silent_post seq body p n : silent (post_replica seq body p) n tt.
Proof.
  eapply silent_bind; [apply silent_modify, quiet_replication, add_peer_seq|]. intros n1 _.
  eapply silent_bind; [by apply silent_modify, quiet_replication|]. intros n2 _.
  apply silent_modify. by split; [split; [split|..]|].
Qed.

(** ** Storage steps *)

Lemma on_storage_run {A} (m : NS A) n st a st' : storage n = Some st -> m st = (Done a, st') ->
  on_storage m n = (Done (inl a), with_storage (Some st') n).
Proof. intros E1 E2. unfold on_storage. by rewrite E1, E2. Qed.

Lemma steady_storage s n : steady_node n (with_storage s n).
Proof. by split; [split|..]. Qed.

(** The node serves the table [A], with sequence numbers given out up to [w]
    and room for [cap] more operations of the storage. *)
Record node_ok (cap : nat) (w : Z) (A : Table) (n : QuickNode) : Prop := {
  no_draining : draining n = false;
  no_id : fits 64 (node_id n);
  no_heat : length (page_bytes n) = 512%nat;
  no_seq : local_seq (replication n) = w;
  no_storage : exists st, storage n = Some st /\ serving cap w A st
}.

Lemma serving_weaken cap cap' w A st : (cap' <= cap)%nat -> serving cap w A st -> serving cap' w A st.
Proof. intros Hc []. split; try done. by eapply file_ready_le. Qed.

Lemma node_ok_quiet cap cap' w A n n' : (cap' <= cap)%nat -> node_ok cap w A n -> quiet n n' -> node_ok cap' w A n'.
Proof.
  intros Hc [H1 H2 H3 H4 (st & E & H)] [[[] ? ?] Es]. split; [congruence..|].
  exists st. split; [congruence|by eapply serving_weaken].
Qed.

(** The node after an operation of its storage. *)
Lemma node_ok_storage cap cap' w A w' A' n st' n' : node_ok cap w A n -> serving cap' w' A' st' ->
  stays n n' -> length (page_bytes n') = 512%nat -> local_seq (replication n') = w' -> storage n' = Some st' ->
  node_ok cap' w' A' n'.
Proof.
  intros [H1 H2 H3 H4 _] HS [] Hl Hs Est. split; [congruence..|done|done|]. by exists st'.
Qed.

Section node.
Variable storage_text : StorageError -> list byte.
Variable wire_text : WireError -> list byte.
Variable core_text : CoreError -> list byte.
Variable hmac : list byte -> list byte -> list byte.
Variable now_secs : Z.

(** ** The specification: one list of records per struct and tenant *)

(** A payload against the registry: the bytes to commit, or the refusal. *)
Definition checked (reg : option ObjectRegistry) (seq struct_id : Z) (payload : list byte) : outcome TransportResponse (list byte) :=
  match reg with
  | None => Done payload
  | Some reg =>
    match payload with
    | [] => Fail (resp_err seq (node_error MalformedPayload struct_id (str "empty write payload (missing version byte)")))
    | version :: body =>
      let header := pack_header struct_id (byte_val version) in
      match reg_validate reg header body with
      | Fault => Fault
      | Fail e => Fail (resp_err seq (to_node_error wire_text core_text e struct_id ValidationFailed))
      | Done _ =>
        match reg_preprocess reg header body with
        | Fault => Fault
        | Fail e => Fail (resp_err seq (to_node_error wire_text core_text e struct_id PreprocessFailed))
        | Done None => Done payload
        | Done (Some body) => Done (version :: body)
        end
      end
    end
  end.

(** A unique struct keeps its newest record only. *)
Definition keeps_one (reg : option ObjectRegistry) (struct_id : Z) (payload : list byte) : bool :=
  match reg, payload with
  | Some reg, version :: _ =>
    match reg_find reg (pack_header struct_id (byte_val version)) with
    | Some desc => match od_shape desc with Unique => true | _ => false end
    | None => false
    end
  | _, _ => false
  end.

(** A stored payload as a query returns it, if the filter accepts it. *)
Definition selected (reg : option ObjectRegistry) (struct_id : Z) (e : Expr) (payload : list byte) : option (byte * list byte) :=
  match payload with
  | [] => None
  | version :: body =>
    let keep :=
      if is_all e then true
      else match reg with
           | Some reg => match reg_find reg (pack_header struct_id (byte_val version)) with
                         | Some desc => eval desc body e
                         | None => false
                         end
           | None => false
           end in
    if keep then Some (version, body) else None
  end.

Definition encoded_entries (seq struct_id : Z) (entries : list (byte * list byte)) : TransportResponse :=
  match to_wire wire_entries entries with
  | Done payload => resp_ok seq payload
  | Fail e => resp_err seq (node_error CStorage struct_id (str "query response encode: " ++ wire_text e))
  | Fault => resp_ok seq []
  end.

Definition queried (reg : option ObjectRegistry) (seq struct_id : Z) (filter : list byte) (l : list (Id * list byte)) : TransportResponse :=
  match from_bytes filter with
  | Done e =>
    if bool_decide (reg = None) && negb (is_all e) then
      resp_err seq (node_error Unsupported struct_id
        (str "filtered queries require a schema registry; this node is schema-blind"))
    else encoded_entries seq struct_id (omap (fun x => selected reg struct_id e x.2) l)
  | _ => resp_err seq (node_error MalformedPayload struct_id (str "query filter does not decode as an Expr"))
  end.

(** The response and the lists after a request, [n] giving the ring, the
    registry and the node's name. *)
Definition spec_step (n : QuickNode) (req : TransportRequest) (w : Z) (A : Table) : TransportResponse * (Z * Table) :=
  let seq := req_seq req in
  let owned t (out : TransportResponse * (Z * Table)) :=
    if node_owns n t 0 then out else (not_owner_resp n seq t, (w, A)) in
  match req_kind req with
  | Connect user t =>
    ({| rs_seq := seq; rs_payload := []; owner_url := Some (str "ws://" ++ listen_addr n);
        backup_url := node_backup_url n; notifications := []; rs_error := None |}, (w, A))
  | Disconnect user t => (resp_ok seq [], (w, A))
  | SearchUnique s user t => owned t (resp_ok seq (default [] (snd <$> last (A (s, t)))), (w, A))
  | QueryNonUnique s user t filter => owned t (queried (registry n) seq s filter (A (s, t)), (w, A))
  | WriteReq s user t payload =>
    owned t
      match checked (registry n) seq s payload with
      | Done committed =>
        let id := Id_new t 0 s (w + 1) in
        let stored := stamp_engine_id (registry n) s id committed in
        (resp_ok seq [],
         (w + 1, table_set (s, t) (if keeps_one (registry n) s stored then [(id, stored)] else A (s, t) ++ [(id, stored)]) A))
      | Fail refusal => (refusal, (w, A))
      | Fault => (resp_ok seq (str "storage_error"), (w, A))
      end
  | DeleteReq id user t =>
    owned t
      (if tenant_id id =? t then (resp_ok seq [], (w, table_set (Ids.struct_id id, t) (filter (fun x => x.1 <> id) (A (Ids.struct_id id, t))) A))
       else (resp_err seq (node_error MalformedPayload (Ids.struct_id id) (str "record id does not belong to this tenant")), (w, A)))
  end.

(** What the model asks of a request: identifiers of their widths, and stored
    payloads of at most 4112 bytes. *)
Definition request_ok (reg : option ObjectRegistry) (req : TransportRequest) : Prop :=
  match req_kind req with
  | Connect _ _ | Disconnect _ _ => True
  | SearchUnique s _ t | QueryNonUnique s _ t _ => key_ok s t
  | WriteReq s _ t payload => key_ok s t /\
      forall committed, checked reg (req_seq req) s payload = Done committed -> zlen committed <= PAYLOAD_MAX
  | DeleteReq id _ _ => fits 128 id
  end.

(** ** Each handler against its specification *)

Lemma stays_owns n n' t s : stays n n' -> node_owns n' t s = node_owns n t s.
Proof. intros [E1 _ E2 E3 _ _ _]. unfold node_owns. by rewrite E1, E2, E3. Qed.

(** Past the guards a handler is its body. *)
Lemma guarded_run seq t body n : draining n = false -> node_owns n t 0 = true -> guarded seq t body n = body n.
Proof. intros E1 E2. unfold guarded. by rewrite E1, E2. Qed.

Lemma guarded_refused seq t body n : draining n = false -> node_owns n t 0 = false ->
  guarded seq t body n = (Done (not_owner_resp n seq t), n).
Proof. intros E1 E2. unfold guarded. by rewrite E1, E2. Qed.

(** A storage read leaves the node as it was. *)
Lemma silent_storage {A} (m : NS A) n st a : storage n = Some st -> m st = (Done a, st) -> silent (on_storage m) n (inl a).
Proof.
  intros E1 E2. eexists. split; [by apply (on_storage_run _ _ st)|]. split; [apply steady_storage|]. by rewrite E1.
Qed.

Lemma silent_gets {A} (f : QuickNode -> A) n : silent (st_gets f) n (f n).
Proof. by exists n. Qed.

Lemma silent_guarded cap w A n seq t body r : node_ok cap w A n -> node_owns n t 0 = true -> silent body n r ->
  silent (guarded seq t body) n r.
Proof. intros [Hd _ _ _ _] Ho (n' & E & Q). exists n'. split; [|done]. by rewrite guarded_run. Qed.

Lemma quiet_storage n n' s : quiet n n' -> storage n = s -> storage n' = s.
Proof. intros [_ E]. congruence. Qed.

Lemma quiet_registry n n' : quiet n n' -> registry n' = registry n.
Proof. intros [[[] _ _] _]. done. Qed.

Lemma search_ok cap w A n seq s u t : node_ok cap w A n -> key_ok s t -> node_owns n t 0 = true ->
  silent (handle_search_unique storage_text seq s u t) n (resp_ok seq (default [] (snd <$> last (A (s, t))))).
Proof.
  intros Hn Hk Ho. pose proof Hn as [_ _ _ _ (st & Est & HS)]. eapply silent_guarded; [done..|].
  eapply silent_bind; [apply silent_read|]. intros n1 Q1. eapply silent_bind; [apply silent_gets|]. intros n2 Q2.
  pose proof (quiet_storage n n1 _ Q1 Est) as E1. pose proof (quiet_storage n1 n2 _ Q2 E1) as E2. unfold self. rewrite E1.
  eapply silent_bind; [exact (silent_storage _ n2 st _ E2 (ids_serves cap w A st s t HS Hk))|]. intros n3 Q3. cbn beta iota.
  pose proof (quiet_storage n2 n3 _ Q3 E2) as E3.
  change (map fst ?l) with (fst <$> l). rewrite fmap_last. destruct (last (A (s, t))) as [[id p]|] eqn:El; [|apply silent_ret].
  apply last_Some_elem_of in El.
  eapply silent_bind; [exact (silent_storage _ n3 st _ E3 (read_serves cap w A st s t id p HS Hk El))|]. intros n4 _.
  apply silent_ret.
Qed.

Lemma query_loop_ok cap w A st s t reg e l entries n : serving cap w A st -> key_ok s t -> storage n = Some st -> l ⊆ A (s, t) ->
  silent (query_loop s reg e (map fst l) entries) n (inl (entries ++ omap (fun x => selected reg s e x.2) l)).
Proof.
  intros HS Hk. revert entries n. induction l as [|[id p] l IH]; intros entries n Est Hl.
  - cbn [map query_loop omap list_omap]. rewrite app_nil_r. apply silent_ret.
  - cbn [map query_loop fst]. assert ((id, p) ∈ A (s, t)) as Hin by (apply Hl; by left).
    eapply silent_bind; [exact (silent_storage _ n st _ Est (read_serves cap w A st s t id p HS Hk Hin))|]. intros n1 Q1.
    assert (forall entries, silent (query_loop s reg e (map fst l) entries) n1 (inl (entries ++ omap (fun x => selected reg s e x.2) l))) as IH1.
    { intros es. apply IH; [by eapply quiet_storage|]. intros x Hx. apply Hl. by right. }
    cbn [vr_data record_new].
    assert (omap (fun x => selected reg s e x.2) ((id, p) :: l) =
      match selected reg s e p with Some y => y :: omap (fun x => selected reg s e x.2) l | None => omap (fun x => selected reg s e x.2) l end) as -> by done.
    destruct p as [|v body]; [by apply IH1|]. cbn [selected]. set (keep := if is_all e then true else _). destruct keep; [|by apply IH1].
    pose proof (IH1 (entries ++ [(v, body)])) as H. rewrite <- (assoc_L (++)) in H. exact H.
Qed.

#[local] Instance entry_sized : Sized (wire_pair wire_u8 wire_bytes).
Proof. done. Qed.

#[local] Instance entries_ok : WireOk wire_entries _ := vec_ok (wire_pair wire_u8 wire_bytes) _.

Lemma entries_total l : to_wire wire_entries l <> Fault.
Proof.
  assert (Forall (fun v : byte * list byte => True /\ Forall (fun _ => True) v.2) l) as Hl.
  { apply Forall_true. intros x. split; [done|by apply Forall_true]. }
  destruct (slots_fit wire_entries l) eqn:E.
  - by rewrite (to_wire_enc wire_entries _ l Hl E).
  - by destruct (to_wire_unfit wire_entries _ l Hl E) as [k ->].
Qed.

Lemma query_ok cap w A n seq s u t f : node_ok cap w A n -> key_ok s t -> node_owns n t 0 = true ->
  silent (handle_query storage_text wire_text seq s u t f) n (queried (registry n) seq s f (A (s, t))).
Proof.
  intros Hn Hk Ho. pose proof Hn as [_ _ _ _ (st & Est & HS)]. eapply silent_guarded; [done..|].
  eapply silent_bind; [apply silent_read|]. intros n1 Q1. unfold queried.
  pose proof (from_bytes_total f) as Ht. destruct (from_bytes f) as [e|e|]; [|apply silent_ret|done].
  eapply silent_bind; [apply silent_gets|]. intros n2 Q2. unfold self.
  pose proof (quiet_storage n n1 _ Q1 Est) as E1. pose proof (quiet_storage n1 n2 _ Q2 E1) as E2.
  rewrite E1, (quiet_registry n n1 Q1). destruct (_ && _); [apply silent_ret|].
  eapply silent_bind; [exact (silent_storage _ n2 st _ E2 (ids_serves cap w A st s t HS Hk))|]. intros n3 Q3. cbn beta iota.
  eapply silent_bind; [exact (query_loop_ok cap w A st s t (registry n) e (A (s, t)) [] n3 HS Hk (quiet_storage n2 n3 _ Q3 E2) (reflexivity _))|].
  intros n4 _. cbn beta iota. unfold encoded_entries. change ([] ++ ?x) with x.
  pose proof (entries_total (omap (fun x => selected (registry n) s e x.2) (A (s, t)))) as Hf.
  destruct (to_wire wire_entries _); [apply silent_ret..|done].
Qed.

(** ** Writes *)

Lemma check_ok n seq s payload :
  match checked (registry n) seq s payload with
  | Done committed => silent (check_schema wire_text core_text seq s payload) n (inl committed)
  | Fail refusal => silent (check_schema wire_text core_text seq s payload) n (inr refusal)
  | Fault => check_schema wire_text core_text seq s payload n = (Fault, n)
  end.
Proof.
  assert (forall (f : QuickNode -> QN (list byte + TransportResponse)) r, silent (f n) n r -> silent (let! n := st_gets self in f n) n r) as Hself by done.
  unfold checked, check_schema.
  destruct (registry n) as [reg|] eqn:Ereg; [|apply Hself; rewrite Ereg; apply silent_ret].
  destruct payload as [|v body]; [apply Hself; rewrite Ereg; apply silent_ret|].
  assert (forall r : TransportResponse, silent (A := list byte + TransportResponse) (do! count_rejected in st_ret (inr r)) n (inr r)) as Hrej.
  { intros r. eapply silent_bind; [apply silent_rejected|]. intros n' _. apply silent_ret. }
  destruct (reg_validate _ _ _) eqn:Ev; [|apply Hself; rewrite Ereg, Ev; apply Hrej|by unfold st_bind, st_gets, self; rewrite Ereg, Ev].
  destruct (reg_preprocess _ _ _) as [[new|]| |] eqn:Ep; try (apply Hself; rewrite Ereg, Ev, Ep; first [apply silent_ret|apply Hrej]).
  by unfold st_bind, st_gets, self; rewrite Ereg, Ev, Ep.
Qed.

Lemma stamp_length reg s id committed : zlen (stamp_engine_id reg s id committed) = zlen committed.
Proof.
  unfold stamp_engine_id. destruct reg as [reg|]; [|done].
  match goal with |- context [match ?x with _ => _ end] => destruct x as [fd|] end; [|done].
  case_bool_decide as H; [|done]. unfold zlen. rewrite length_splice; [done|]. rewrite length_le_bytes. lia.
Qed.

(** The storage operation that lists a record. *)
Abbreviation listing reg s t id p := (on_data (A := unit) (if keeps_one reg s p then live_set_single s t id else live_append s t id)).

Lemma index_run n st st' s t c p : key_ok s t -> fits 48 c -> storage n = Some st -> let id := Id_new t 0 s c in
  listing (registry n) s t id p st = (Done tt, st') ->
  index_committed (registry n) id p n = (Done tt, with_storage (Some st') n).
Proof.
  intros Hk Hf Est id E. destruct (new_id_fields s t c Hk Hf) as (_ & Ht & _ & Hs & _). fold id in Ht, Hs.
  unfold index_committed. rewrite Ht, Hs. set (m := on_data _).
  assert (m st = (Done tt, st')) as Em.
  { rewrite <- E. unfold m, keeps_one. by destruct (registry n) as [reg|], p as [|v body]. }
  exact (bind_run _ _ _ _ _ (on_storage_run m n st _ st' Est Em)).
Qed.

(** Commit, then listing. *)
Lemma store_run n st st1 st2 s t c p : key_ok s t -> fits 48 c -> storage n = Some st -> let id := Id_new t 0 s c in
  commit_write id p st = (Done tt, st1) -> listing (registry n) s t id p st1 = (Done tt, st2) ->
  exists n', store_record t id p n = (Done None, n') /\ steady_node n n' /\ storage n' = Some st2.
Proof.
  intros Hk Hf Est id E1 E2. pose proof (index_run (with_storage (Some st1) n) st1 st2 s t c p Hk Hf eq_refl E2) as E2'.
  assert (forall n0, silent (if bool_decide (is_Some (slow_node (config n))) then queue_flush t (record_new id p) else st_ret tt) n0 tt) as Hq.
  { intros n0. destruct (bool_decide _); [apply silent_flush|apply silent_ret]. }
  destruct (Hq (with_storage (Some st2) (with_storage (Some st1) n))) as (n' & E3 & Q3).
  exists n'. split; [|split; [|by eapply quiet_storage]].
  - unfold store_record. rewrite (bind_run _ _ n (self n) n) by done. unfold self. rewrite Est.
    rewrite (bind_run _ _ _ _ _ (on_storage_run _ n st _ st1 Est E1)). cbn beta iota.
    fold id in E2'. rewrite (bind_run _ _ _ _ _ E2'). by rewrite (bind_run _ _ _ _ _ E3).
  - transitivity (with_storage (Some st2) (with_storage (Some st1) n)); [|apply Q3].
    transitivity (with_storage (Some st1) n); apply steady_storage.
Qed.

(** The MAC is 32 bytes, the clock a 64-bit word. *)
Hypothesis hmac_length : forall key msg, length (hmac key msg) = 32%nat.
Hypothesis now_fits : fits 64 now_secs.

Lemma mint_wf n purpose : fits 64 (node_id n) -> token_opt_wf (mint hmac now_secs n purpose).
Proof.
  intros Hn tok E. unfold mint in E. destruct (cluster_key (config n)) as [key|]; [|done]. injection E as <-.
  split; [done|]. split; [done|]. apply hmac_length.
Qed.

Lemma replicate_silent n t seq id data : fits 64 (node_id n) -> fits 64 seq -> fits 128 id ->
  silent (replicate_to_peers hmac now_secs t seq id data) n tt.
Proof.
  intros Hn Hs Hid. unfold replicate_to_peers. eapply silent_bind; [apply silent_gets|]. intros n1 Q1. unfold self.
  destruct (replica_peers n t) as [|peer peers]; [apply silent_ret|].
  set (batch := {| rb_origin := _; rb_write_seq := _; rb_records := _; rb_token := _ |}). unfold encode_payload.
  assert (batch_wf batch) as Hwf.
  { split; [done|]. split; [done|]. split; [by apply Forall_singleton|by apply mint_wf]. }
  destruct (slots_fit wire_batch batch) eqn:Ef.
  - rewrite (to_wire_enc wire_batch _ batch Hwf Ef). apply silent_iter. intros x n'. apply silent_post.
  - destruct (to_wire_unfit wire_batch _ batch Hwf Ef) as [k ->]. apply silent_ret.
Qed.

Lemma tuple4_bound s t sh c n : 0 < n -> 0 <= tuple4_page s t sh c n < n.
Proof. intros Hn. unfold tuple4_page. rewrite reduce_mod by done. by apply Z.mod_pos_bound. Qed.

(** What follows a commit. *)
Lemma written_silent n seq s t c id stored len : length (page_bytes n) = 512%nat -> fits 64 (node_id n) -> fits 64 c -> fits 128 id ->
  silent (do! count_write len in
          do! heat (tuple4_page s t 0 c MAX_MAP_PAGES) len in
          do! replicate_to_peers hmac now_secs t c id stored in st_ret (resp_ok seq [])) n (resp_ok seq []).
Proof.
  intros Hh Hn Hc Hid. eapply silent_bind; [apply silent_write|]. intros n1 [[S1 _ H1] _].
  eapply silent_bind; [apply silent_heat; [|congruence]|].
  { by apply tuple4_bound. }
  intros n2 [[S2 _ H2] _].
  eapply silent_bind; [apply replicate_silent; [|done..]|]; [by rewrite (st_node _ _ S2), (st_node _ _ S1)|].
  intros n3 _. apply silent_ret.
Qed.

(** An accepted write whose record is committed and listed. *)
Lemma write_run n seq s u t payload committed st st1 st2 :
  draining n = false -> fits 64 (node_id n) -> length (page_bytes n) = 512%nat -> node_owns n t 0 = true ->
  key_ok s t -> let c := local_seq (replication n) + 1 in fits 48 c -> storage n = Some st ->
  checked (registry n) seq s payload = Done committed ->
  let id := Id_new t 0 s c in
  let stored := stamp_engine_id (registry n) s id committed in
  commit_write id stored st = (Done tt, st1) -> listing (registry n) s t id stored st1 = (Done tt, st2) ->
  exists n', handle_write storage_text wire_text core_text hmac now_secs seq s u t payload n = (Done (resp_ok seq []), n') /\
    stays n n' /\ length (page_bytes n') = 512%nat /\ local_seq (replication n') = c /\ storage n' = Some st2.
Proof.
  intros Hd Hid Hheat Ho Hk c Hf Est Hck id stored Ec El.
  pose proof (check_ok n seq s payload) as Hc. rewrite Hck in Hc. destruct Hc as (n1 & E1 & Q1).
  set (n2 := with_replication {| rep_peers := rep_peers (replication n1); local_seq := c |} n1).
  assert (fits 64 c) as Hf64 by (unfold fits in *; lia).
  assert (on_replication next_seq n1 = (Done c, n2)) as E2.
  { unfold on_replication, next_seq. rewrite (sn_seq _ _ (proj1 Q1)). fold c. by rewrite uadd_done, (wrap_small _ _ Hf64). }
  assert (registry n2 = registry n) as Ereg by exact (quiet_registry n n1 Q1). rewrite <- Ereg in El.
  destruct (store_run n2 st st1 st2 s t c stored Hk Hf) as (n3 & E3 & S3 & Est3); [by rewrite <- Est; apply Q1|exact Ec|exact El|].
  assert (stays n n3) as St3 by (transitivity n1; [apply Q1|]; transitivity n2; [by split|apply S3]).
  destruct (written_silent n3 seq s t c id stored (zlen committed)) as (n4 & E4 & Q4).
  { rewrite (sn_heat _ _ S3). change (page_bytes n2) with (page_bytes n1). by rewrite (sn_heat _ _ (proj1 Q1)). }
  { by rewrite (st_node _ _ St3). }
  { done. }
  { by destruct (new_id_fields s t c Hk Hf). }
  exists n4. split; [|split; [transitivity n3; [done|apply Q4]|split; [|split]]].
  - unfold handle_write. rewrite guarded_run by done. rewrite (bind_run _ _ _ _ _ E1). cbn beta iota.
    rewrite (bind_run _ _ _ _ _ E2). rewrite (bind_run _ _ n2 (self n2) n2) by done. unfold self. rewrite Ereg.
    fold id. fold stored. rewrite (bind_run _ _ _ _ _ E3). exact E4.
  - rewrite (sn_heat _ _ (proj1 Q4)), (sn_heat _ _ S3). change (page_bytes n2) with (page_bytes n1). by rewrite (sn_heat _ _ (proj1 Q1)).
  - rewrite (sn_seq _ _ (proj1 Q4)). exact (sn_seq _ _ S3).
  - by rewrite (proj2 Q4).
Qed.

Lemma write_ok cap w A n seq s u t payload : node_ok (3 + cap) w A n -> key_ok s t -> node_owns n t 0 = true -> w + 1 < 2 ^ 48 ->
  let run := handle_write storage_text wire_text core_text hmac now_secs seq s u t payload in
  match checked (registry n) seq s payload with
  | Done committed => zlen committed <= PAYLOAD_MAX ->
      let id := Id_new t 0 s (w + 1) in
      let stored := stamp_engine_id (registry n) s id committed in
      exists n', run n = (Done (resp_ok seq []), n') /\ stays n n' /\
        node_ok cap (w + 1) (table_set (s, t) (if keeps_one (registry n) s stored then [(id, stored)] else A (s, t) ++ [(id, stored)]) A) n'
  | Fail refusal => silent run n refusal
  | Fault => run n = (Fault, n)
  end.
Proof.
  intros Hn Hk Ho Hw run. pose proof Hn as [Hd Hid Hheat Hseq (st & Est & HS)].
  pose proof (check_ok n seq s payload) as Hc. destruct (checked (registry n) seq s payload) as [committed|refusal|] eqn:Hck.
  - intros Hlen id stored. assert (zlen stored <= PAYLOAD_MAX) as Hlen' by (unfold stored; by rewrite stamp_length).
    assert (fits 48 (w + 1)) as Hf by (pose proof (sv_seq _ _ _ _ HS); unfold fits; lia).
    destruct (commit_serves (2 + cap) w A st s t stored HS Hk Hw Hlen') as (st1 & E1 & HS1 & Hk1).
    destruct (index_serves (keeps_one (registry n) s stored) cap w A st1 s t stored HS1 Hk Hw Hlen' Hk1) as (st2 & E2 & HS2).
    subst id stored. rewrite <- Hseq in Hf, E1, E2.
    destruct (write_run n seq s u t payload committed st st1 st2) as (n' & E & St & Hh' & Hs' & Est'); [done..|].
    exists n'. split; [exact E|]. split; [exact St|]. rewrite Hseq in Hs'.
    exact (node_ok_storage (3 + cap) cap w A (w + 1) _ n st2 n' Hn HS2 St Hh' Hs' Est').
  - eapply silent_guarded; [done..|]. eapply silent_bind; [exact Hc|]. intros n' _. apply silent_ret.
  - unfold run, handle_write. rewrite guarded_run by done. unfold st_bind at 1. by rewrite Hc.
Qed.

Lemma delete_ok cap w A n seq id u t : node_ok (S cap) w A n -> fits 128 id -> node_owns n t 0 = true ->
  if tenant_id id =? t then
    exists n', handle_delete storage_text seq id u t n = (Done (resp_ok seq []), n') /\ stays n n' /\
      node_ok cap w (table_set (Ids.struct_id id, t) (filter (fun x => x.1 <> id) (A (Ids.struct_id id, t))) A) n'
  else silent (handle_delete storage_text seq id u t) n
         (resp_err seq (node_error MalformedPayload (Ids.struct_id id) (str "record id does not belong to this tenant"))).
Proof.
  intros Hn Hid Ho. pose proof Hn as [Hd _ Hh Hseq (st & Est & HS)]. destruct (tenant_id id =? t) eqn:E.
  - apply Z.eqb_eq in E. assert (key_ok (Ids.struct_id id) t) as Hk by (rewrite <- E; exact (record_key_ok (record_new id []) Hid)).
    destruct (remove_serves cap w A st _ t id HS Hk) as (b & st' & E' & HS').
    exists (with_storage (Some st') n). split; [|split; [apply steady_storage|]].
    + unfold handle_delete. rewrite guarded_run by done. rewrite E, Z.eqb_refl. cbn [negb].
      rewrite (bind_run _ _ n (self n) n) by done. unfold self. rewrite Est.
      by rewrite (bind_run _ _ _ _ _ (on_storage_run _ n st _ st' Est E')).
    + by apply (node_ok_storage (S cap) cap w A w _ n st').
  - eapply silent_guarded; [done..|]. rewrite E. apply silent_ret.
Qed.

(** ** Runs of requests *)

Abbreviation handle_all := (handle storage_text wire_text core_text hmac now_secs).

Fixpoint serve (reqs : list TransportRequest) : QN (list TransportResponse) :=
  match reqs with
  | [] => st_ret []
  | req :: reqs => let! r := handle_all req in let! rs := serve reqs in st_ret (r :: rs)
  end.

Fixpoint spec_run (n : QuickNode) (reqs : list TransportRequest) (w : Z) (A : Table) : list TransportResponse * (Z * Table) :=
  match reqs with
  | [] => ([], (w, A))
  | req :: reqs =>
    let '(r, (w, A)) := spec_step n req w A in
    let '(rs, out) := spec_run n reqs w A in (r :: rs, out)
  end.

Lemma stays_step n n' req w A : stays n n' -> spec_step n' req w A = spec_step n req w A.
Proof.
  intros H. pose proof H as [H1 H2 _ H4 _ _ H7]. unfold spec_step.
  assert (forall t, node_owns n' t 0 = node_owns n t 0) as Ho by (intros; by apply stays_owns).
  assert (other_url n' = other_url n) as Hu by (unfold other_url; by rewrite H1, H4).
  assert (forall seq t, not_owner_resp n' seq t = not_owner_resp n seq t) as Hr.
  { intros. unfold not_owner_resp, route_to, route_to_owner_hint. by rewrite Hu, H4. }
  unfold node_backup_url. rewrite Hu, H2. by destruct (req_kind req); rewrite ?Ho, ?Hr, ?H7.
Qed.

Lemma stays_run n n' reqs w A : stays n n' -> spec_run n' reqs w A = spec_run n reqs w A.
Proof.
  intros H. revert w A. induction reqs as [|req reqs IH]; intros w A; [done|]. cbn [spec_run].
  rewrite (stays_step n n') by done. destruct (spec_step n req w A) as [r [w' A']]. by rewrite IH.
Qed.

(** What a step gives, of the specification and of the node. *)
Definition steps_to (cap : nat) (n : QuickNode) (req : TransportRequest) (w : Z) (out : TransportResponse * (Z * Table)) : Prop :=
  exists n', handle_all req n = (Done out.1, n') /\ stays n n' /\ node_ok cap out.2.1 out.2.2 n' /\ out.2.1 <= w + 1.

Lemma silent_steps cap w A n req r : node_ok (3 + cap) w A n -> silent (handle_all req) n r -> steps_to cap n req w (r, (w, A)).
Proof.
  intros Hn (n' & E & Q). exists n'. split; [done|]. split; [apply Q|]. split; [|cbn; lia].
  eapply node_ok_quiet; [|exact Hn|exact Q]. lia.
Qed.

Lemma refused_steps cap w A n req seq t body : node_ok (3 + cap) w A n -> node_owns n t 0 = false ->
  (forall n', guarded seq t body n = (Done (not_owner_resp n seq t), n') -> handle_all req n = (Done (not_owner_resp n seq t), n')) ->
  steps_to cap n req w (not_owner_resp n seq t, (w, A)).
Proof.
  intros Hn Ho H. apply silent_steps; [done|]. exists n. split; [|done]. apply H, guarded_refused; [apply Hn|done].
Qed.

Lemma handle_step cap w A n req : node_ok (3 + cap) w A n -> request_ok (registry n) req -> w + 1 < 2 ^ 48 ->
  steps_to cap n req w (spec_step n req w A).
Proof.
  intros Hn Hreq Hw. pose proof Hn as [Hd _ _ _ _]. destruct req as [seq kind]. unfold spec_step. cbn [req_seq req_kind].
  unfold request_ok in Hreq. cbn [req_seq req_kind] in Hreq.
  destruct kind as [user t|s user t|s user t f|s user t payload|id user t|user t].
  - apply silent_steps; [done|]. by exists n.
  - destruct (node_owns n t 0) eqn:Ho; [|by eapply refused_steps; [done..|intros n' H; exact H]].
    apply silent_steps; [done|]. by eapply search_ok.
  - destruct (node_owns n t 0) eqn:Ho; [|by eapply refused_steps; [done..|intros n' H; exact H]].
    apply silent_steps; [done|]. by eapply query_ok.
  - destruct (node_owns n t 0) eqn:Ho.
    2: { eapply refused_steps; [done..|]. intros n' H. unfold handle. cbn [req_seq req_kind]. unfold handle_write. by rewrite H. }
    pose proof (write_ok cap w A n seq s user t payload Hn (proj1 Hreq) Ho Hw) as H. cbv zeta in H.
    destruct (checked (registry n) seq s payload) as [committed|refusal|] eqn:Ec.
    + destruct (H (proj2 Hreq committed eq_refl)) as (n' & E & St & Hn'). exists n'. cbn [fst snd].
      split; [unfold handle; cbn [req_seq req_kind]; by rewrite E|]. split; [done|]. split; [done|lia].
    + apply silent_steps; [done|]. destruct H as (n' & E & Q). exists n'. split; [|done].
      unfold handle. cbn [req_seq req_kind]. by rewrite E.
    + apply silent_steps; [done|]. exists n. split; [|done]. unfold handle. cbn [req_seq req_kind]. by rewrite H.
  - destruct (node_owns n t 0) eqn:Ho; [|by eapply refused_steps; [done..|intros n' H; exact H]].
    assert (node_ok (S cap) w A n) as Hn1 by (eapply node_ok_quiet; [|exact Hn|reflexivity]; lia).
    pose proof (delete_ok cap w A n seq id user t Hn1 Hreq Ho) as H. destruct (tenant_id id =? t).
    + destruct H as (n' & E & St & Hn'). exists n'. cbn [fst snd]. split; [done|]. split; [done|]. split; [done|lia].
    + by apply silent_steps.
  - apply silent_steps; [done|]. apply silent_ret.
Qed.

(** C18: A serving node answers a run of requests as the lists of records do, and
    its storage holds the lists the run leaves. *)
Theorem requests_refine_tables (reqs : list TransportRequest) cap w A n :
  node_ok (3 * length reqs + cap) w A n -> Forall (request_ok (registry n)) reqs -> w + zlen reqs < 2 ^ 48 ->
  exists n', serve reqs n = (Done (spec_run n reqs w A).1, n') /\ stays n n' /\
    node_ok cap (spec_run n reqs w A).2.1 (spec_run n reqs w A).2.2 n'.
Proof.
  revert w A n. induction reqs as [|req reqs IH]; intros w A n Hn Hreqs Hw; cbn [serve spec_run length] in *.
  - by exists n.
  - apply Forall_cons in Hreqs as [Hreq Hreqs]. pose proof (zlen_nonneg reqs) as Hz.
    assert (zlen (req :: reqs) = zlen reqs + 1) as Ez by (unfold zlen; cbn [length]; lia). rewrite Ez in Hw.
    assert (node_ok (3 + (3 * length reqs + cap)) w A n) as Hn1 by (eapply node_ok_quiet; [|exact Hn|reflexivity]; lia).
    destruct (handle_step (3 * length reqs + cap) w A n req Hn1 Hreq ltac:(lia)) as (n1 & E1 & S1 & Hn1' & Hle).
    destruct (spec_step n req w A) as [r [w' A']]. cbn [fst snd] in *.
    destruct (IH w' A' n1 Hn1') as (n2 & E2 & S2 & Hn2); [by rewrite (st_registry _ _ S1)|lia|].
    rewrite (stays_run n n1) in E2, Hn2 by done. destruct (spec_run n reqs w' A') as [rs out]. cbn [fst snd] in *.
    exists n2. split; [|split; [by etransitivity|done]].
    by rewrite (bind_run _ _ _ _ _ E1), (bind_run _ _ _ _ _ E2).
Qed.
End node.

(** ** A node just built *)

Lemma fnv1a_fits bs : fits 64 (fnv1a FNV_OFFSET bs).
Proof.
  unfold fnv1a. assert (fits 64 FNV_OFFSET) as H by done. revert H. generalize FNV_OFFSET.
  induction bs as [|b bs IH]; intros h Hh; [done|]. cbn [foldl]. apply IH, mul64_fits.
Qed.

Definition fresh_storage (size count : Z) : NodeStorage :=
  {| data_file := opened size count; journal := {| file := Some []; entries := []; sequence := 0 |}; heap_file := heap_open [] |}.

Lemma fresh_serves size count cap :
  20 + Z.of_nat cap * (LIVE_VALUE_MAX + 32) <= size -> 1076 <= size < 2 ^ 31 ->
  4 * Z.of_nat cap < 3 * count -> 1 <= count < 2 ^ 50 ->
  serving cap 0 (fun _ => []) (fresh_storage size count).
Proof.
  intros H1 H2 H3 H4. constructor; [by split; [|intros ? [= <-]]|by apply opened_ready|lia|..].
  - intros k t _. by split; constructor.
  - intros k t _. apply opened_tracks.
  - intros k t id p _ H. by apply not_elem_of_nil in H.
Qed.

(** Built without its storage's help a node serves nothing yet. *)
Lemma build_fixed cfg reg opened : let n := node_build cfg reg opened in
  draining n = false /\ fits 64 (node_id n) /\ length (page_bytes n) = 512%nat /\ local_seq (replication n) = 0 /\
  storage n = opened /\ registry n = reg.
Proof.
  unfold node_build.
  assert (forall l r w, local_seq (foldl (fun '(r, w) addr => (add_node (addr_to_node_id addr) addr r, add_peer (addr_to_node_id addr) w)) (r, w) l).2 = local_seq w) as H.
  { intros l. induction l as [|a l IH]; intros r w; [done|]. cbn [foldl]. by rewrite IH, add_peer_seq. }
  specialize (H (peer_addrs cfg) (add_node (addr_to_node_id (listen cfg)) (listen cfg) ring_new) watermark_new).
  destruct (foldl _ _ _) as [r w]. cbn [snd] in H. split; [done|]. split; [apply fnv1a_fits|].
  split; [apply length_replicate|]. by split.
Qed.

Lemma build_ok cfg reg st cap A : serving cap 0 A st -> node_ok cap 0 A (node_build cfg reg (Some st)).
Proof.
  intros HS. destruct (build_fixed cfg reg (Some st)) as (H1 & H2 & H3 & H4 & H5 & _). split; [done..|]. by exists st.
Qed.

(** *** A restarted node numbers its writes from one again *)


Section restart.
Variable storage_text : StorageError -> list byte.
Variable wire_text : WireError -> list byte.
Variable core_text : CoreError -> list byte.
Variable hmac : list byte -> list byte -> list byte.
Variable now_secs : Z.
Hypothesis hmac_length : forall key msg, length (hmac key msg) = 32%nat.
Hypothesis now_fits : fits 64 now_secs.

(** C25: A node numbers its writes of all structs and tenants with one counter,
    which starts at zero when the node is built, whatever its storage holds.  A
    write of struct [s] for tenant [t] on a node whose counter stands at [c - 1] and
    whose storage holds a record of [s] and [t] numbered [c], as after a restart,
    answers success and replaces that record: the older value is gone.  The node has
    no registry and is not draining, owns the tenant's partition, and its storage
    serves with room for one write. *)
Theorem restart_overwrites n st cap w A seq s u t p q :
  let c := local_seq (replication n) + 1 in
  let id := Id_new t 0 s c in
  draining n = false -> fits 64 (node_id n) -> length (page_bytes n) = 512%nat -> registry n = None ->
  storage n = Some st -> serving (3 + cap) w A st -> 1 <= c < 2 ^ 48 -> key_ok s t -> (id, p) ∈ A (s, t) ->
  node_owns n t 0 = true -> zlen q <= PAYLOAD_MAX ->
  (forall cfg reg opened, local_seq (replication (node_build cfg reg opened)) = 0) /\
  (on_data (read_versioned id) st).1 = Done (Some (record_new id p)) /\
  exists n' st', handle_write storage_text wire_text core_text hmac now_secs seq s u t q n = (Done (resp_ok seq []), n') /\
    local_seq (replication n') = c /\
    storage n' = Some st' /\ (on_data (read_versioned id) st').1 = Done (Some (record_new id q)).
Proof.
  intros c id Hd Hid Hh Hreg Est HS Hc Hk Hin Ho Hq.
  split; [intros cfg reg opened; apply build_fixed|].
  split; [by rewrite (read_serves _ w A st s t id p HS Hk Hin)|].
  destruct (commit_any (2 + cap) w A st s t c q HS Hk Hc Hq) as (st1 & E1 & _ & Hr1 & Hkr1 & _ & Hl1).
  destruct (Hl1 s t Hk) as (segs & opn & Hhl & _ & Hm). pose proof (sv_seq _ _ _ _ HS) as Hw.
  assert (fits 48 c) as Hf by (unfold fits; lia).
  destruct (new_id_fields s t c Hk Hf) as (Hid128 & Ht & _ & Hsid & _). fold id in E1, Hkr1, Hid128, Ht, Hsid.
  destruct (append_spec (S := DataFile) (H0 := file_laws) cap (data_file st1) s t segs opn id Hr1 Hk Hid128 Hhl ltac:(lia)) as (d2 & _ & _ & E2 & _ & _ & _ & _ & Ho2).
  pose proof (kept_file _ _ _ _ (proj1 Ho2) (new_id_plain s t c Hk Hf ltac:(lia)) Hkr1) as Hkr2.
  destruct (write_run storage_text wire_text core_text hmac now_secs hmac_length now_fits n seq s u t q q st st1 (with_data d2 st1))
    as (n' & E & _ & _ & Es & En'); try done.
  { by rewrite Hreg. }
  { by rewrite Hreg. }
  { rewrite Hreg. by apply with_data_run. }
  exists n', (with_data d2 st1). split; [exact E|]. split; [exact Es|]. split; [exact En'|].
  pose proof (with_data_run _ (with_data d2 st1) _ _ (read_cached d2 _ _ (proj1 Hkr2))) as Er.
  change (Id_new t 0 s c) with id in Er. by rewrite Er.
Qed.
End restart.

Definition demo_config : Config :=
  {| listen := str "10.0.0.1:9000"; peer_addrs := [str "10.0.0.2:9000"]; slow_node := Some (str "10.0.0.9:9000");
     cluster_key := Some (replicate 32 Byte.x07) |}.

Definition demo_quick : QuickNode := node_build demo_config None (Some (fresh_storage 70000 64)).

Definition demo_requests : list TransportRequest :=
  [{| req_seq := 1; req_kind := WriteReq 7 0 1 [Byte.x01; Byte.xaa] |};
   {| req_seq := 2; req_kind := WriteReq 7 0 1 [Byte.x01; Byte.xbb] |};
   {| req_seq := 3; req_kind := DeleteReq (Id_new 1 0 7 1) 0 1 |};
   {| req_seq := 4; req_kind := SearchUnique 7 0 1 |};
   {| req_seq := 5; req_kind := QueryNonUnique 7 0 1 [] |}].

Definition demo_text {E} (_ : E) : list byte := str "error".

Lemma requests_refine_tables_witness :
  exists n', serve demo_text demo_text demo_text demo_mac 1000 demo_requests demo_quick =
      (Done (spec_run demo_text demo_text demo_quick demo_requests 0 (fun _ => [])).1, n') /\ stays demo_quick n' /\
    node_ok 0 (spec_run demo_text demo_text demo_quick demo_requests 0 (fun _ => [])).2.1
      (spec_run demo_text demo_text demo_quick demo_requests 0 (fun _ => [])).2.2 n'.
Proof.
  apply (requests_refine_tables demo_text demo_text demo_text demo_mac 1000).
  - apply demo_mac_length.
  - done.
  - apply build_ok, fresh_serves; cbn [demo_requests length]; unfold LIVE_VALUE_MAX; lia.
  - destruct (build_fixed demo_config None (Some (fresh_storage 70000 64))) as (_ & _ & _ & _ & _ & Hreg).
    fold demo_quick in Hreg. rewrite Hreg.
    repeat apply Forall_cons_2; [..|apply Forall_nil_2]; unfold request_ok; cbn [req_kind req_seq checked].
    + split; [done|]. by intros c [= <-].
    + split; [done|]. by intros c [= <-].
    + done.
    + done.
    + done.
  - done.
Defined.

(** A node restarted on the storage of one that wrote two bytes twice, at its first
    write, and at its second: both records of the earlier run are replaced. *)
Definition demo_alone (st : NodeStorage) : QuickNode :=
  node_build {| listen := str "a:1"; peer_addrs := []; slow_node := None; cluster_key := None |} None (Some st).

Lemma demo_owns st : node_owns (demo_alone st) 1 0 = true.
Proof. vm_compute. reflexivity. Qed.

Lemma demo_owns_later st w : node_owns (with_replication w (demo_alone st)) 1 0 = true.
Proof. vm_compute. reflexivity. Qed.

Lemma restart_overwrites_witness :
  exists st n' st' n'' st'', let id c := Id_new 1 0 7 c in
    (on_data (read_versioned (id 1)) st).1 = Done (Some (record_new (id 1) [Byte.x01; Byte.xaa])) /\
    handle_write demo_text demo_text demo_text demo_mac 1000 9 7 0 1 [Byte.x01; Byte.xbb] (demo_alone st) =
      (Done (resp_ok 9 []), n') /\
    storage n' = Some st' /\ (on_data (read_versioned (id 1)) st').1 = Done (Some (record_new (id 1) [Byte.x01; Byte.xbb])) /\
    (on_data (read_versioned (id 2)) st).1 = Done (Some (record_new (id 2) [Byte.x01; Byte.xcc])) /\
    handle_write demo_text demo_text demo_text demo_mac 1000 10 7 0 1 [Byte.x01; Byte.xdd]
      (with_replication {| rep_peers := ∅; local_seq := 1 |} (demo_alone st)) = (Done (resp_ok 10 []), n'') /\
    storage n'' = Some st'' /\ (on_data (read_versioned (id 2)) st'').1 = Done (Some (record_new (id 2) [Byte.x01; Byte.xdd])).
Proof.
  assert (serving 12 0 (fun _ => []) (fresh_storage 70000 64)) as H0 by (apply fresh_serves; unfold LIVE_VALUE_MAX; lia).
  assert (key_ok 7 1) as Hk by done.
  destruct (commit_serves 11 0 (fun _ => []) _ 7 1 [Byte.x01; Byte.xaa] H0 Hk eq_refl ltac:(vm_compute; discriminate)) as (st1 & _ & H1 & Hr1).
  destruct (index_serves false 9 0 (fun _ => []) st1 7 1 [Byte.x01; Byte.xaa] H1 Hk eq_refl ltac:(vm_compute; discriminate) Hr1) as (st2 & _ & H2).
  destruct (commit_serves 8 1 _ _ 7 1 [Byte.x01; Byte.xcc] H2 Hk eq_refl ltac:(vm_compute; discriminate)) as (st3 & _ & H3 & Hr3).
  destruct (index_serves false 6 1 _ st3 7 1 [Byte.x01; Byte.xcc] H3 Hk eq_refl ltac:(vm_compute; discriminate) Hr3) as (st4 & _ & H4).
  destruct (build_fixed {| listen := str "a:1"; peer_addrs := []; slow_node := None; cluster_key := None |} None (Some st4))
    as (Hd & Hid & Hh & _ & Est & Hreg).
  destruct (restart_overwrites demo_text demo_text demo_text demo_mac 1000 demo_mac_length ltac:(done)
    (demo_alone st4) st4 3 2 _ 9 7 0 1 [Byte.x01; Byte.xaa] [Byte.x01; Byte.xbb] Hd Hid Hh Hreg Est H4 ltac:(done) Hk)
    as (_ & E & n' & st' & E1 & _ & E2 & E3).
  - unfold table_set. rewrite decide_True by done. apply elem_of_app. left. rewrite decide_True by done. by left.
  - apply demo_owns.
  - vm_compute. discriminate.
  - destruct (restart_overwrites demo_text demo_text demo_text demo_mac 1000 demo_mac_length ltac:(done)
      (with_replication {| rep_peers := ∅; local_seq := 1 |} (demo_alone st4)) st4 3 2 _ 10 7 0 1 [Byte.x01; Byte.xcc]
      [Byte.x01; Byte.xdd] Hd Hid Hh Hreg Est H4 ltac:(done) Hk) as (_ & F & n'' & st'' & F1 & _ & F2 & F3).
    + unfold table_set. rewrite decide_True by done. apply elem_of_app. right. by left.
    + apply demo_owns_later.
    + vm_compute. discriminate.
    + exists st4, n', st', n'', st''. exact (conj E (conj E1 (conj E2 (conj E3 (conj F (conj F1 (conj F2 F3))))))).
Defined.
