(* ===== verification/Slow.v ===== *)
(** * The slow node: history store and its endpoints
    (wavedb-slow-node: store.rs, server.rs; wavedb-net: browse.rs, metrics.rs)

    The store's lock is held for a whole operation, so a value of [HistoryStore] is
    the state between operations.  What survives a restart is the journal's file. *)
From S2P Require Import Prelude Wire WireOk Errors Ids Page Anchor Journal Auth Messages Request.

(** ** The store *)

Record HistoryStore : Type := {
  index : gmap (Z * Z) (list byte);
  hist_journal : Journal;
  watermark : ReceiptWatermark;
  flush_count : Z
}.

Abbreviation HS := (ST HistoryStore StorageError).

Definition history_in_memory : HistoryStore :=
  {| index := ∅; hist_journal := journal_in_memory; watermark := receipt_new; flush_count := 0 |}.

(** A record as it is journalled: the batch's tenant and sequence take the place
    of the modification identifiers. *)
Definition journaled (tenant write_seq : Z) (r : VersionedRecord) : VersionedRecord :=
  {| vr_id := vr_id r; vr_data := vr_data r; vr_old_modification_id := tenant; vr_new_modification_id := write_seq |}.

(** One entry of the replay: the index, the watermark and the count. *)
Definition replay_history (acc : gmap (Z * Z) (list byte) * (ReceiptWatermark * Z)) (e : JournalEntry)
    : StorageResult (gmap (Z * Z) (list byte) * (ReceiptWatermark * Z)) :=
  let '(idx, (wm, count)) := acc in
  match e with
  | WriteVersioned rec =>
    let tenant := wrap 64 (vr_old_modification_id rec) in
    let write_seq := wrap 64 (vr_new_modification_id rec) in
    let marked := if 0 <? write_seq then (receipt_advance tenant write_seq wm, Z.max count write_seq) else (wm, count) in
    match record_to_bytes rec with
    | Done bytes => Done (<[(tenant, vr_id rec) := bytes]> idx, marked)
    | Fail _ => Done (idx, marked)
    | Fault => Fault
    end
  | _ => Done acc
  end.

(** [HistoryStore::open] on the bytes of the journal file. *)
Definition history_open (found : list byte) : StorageResult HistoryStore :=
  let* j := journal_open found in
  let* (idx, (wm, count)) := ofold replay_history (∅, (receipt_new, 0)) (entries j) in
  Done {| index := idx; hist_journal := j; watermark := wm; flush_count := count |}.

(** One record of a batch; a failure leaves those before it in place. *)
Definition apply_record (tenant write_seq : Z) (r : VersionedRecord) : HS unit := fun s =>
  let rec := journaled tenant write_seq r in
  match (let* bytes := record_to_bytes rec in
         let* j := append (hist_journal s) (WriteVersioned rec) in Done (bytes, j)) with
  | Done (bytes, j) =>
    (Done tt, {| index := <[(tenant, vr_id r) := bytes]> (index s); hist_journal := j;
                 watermark := watermark s; flush_count := flush_count s |})
  | Fail e => (Fail e, s)
  | Fault => (Fault, s)
  end.

(** The final flush of the journal adds nothing to the syncs of [append]. *)
Definition apply_flush (batch : FlushBatch) : HS Z :=
  do! st_iter (apply_record (fb_tenant batch) (fb_write_seq batch)) (fb_records batch) in
  do! st_modify (fun s =>
    {| index := index s; hist_journal := hist_journal s;
       watermark := receipt_advance (fb_tenant batch) (fb_write_seq batch) (watermark s);
       flush_count := wrap 64 (flush_count s + 1) |}) in
  st_ret (fb_write_seq batch).

Definition history_get (tenant record_id : Z) (s : HistoryStore) : option (list byte) := index s !! (tenant, record_id).
Definition history_high_water (tenant : Z) (s : HistoryStore) : Z := receipt_high_water tenant (watermark s).
Definition history_len (s : HistoryStore) : Z := Z.of_nat (size (index s)).
Definition history_is_empty (s : HistoryStore) : bool := bool_decide (index s = ∅).

Definition tenants_of (s : HistoryStore) : gset Z := set_map fst (dom (index s)).
Definition tenant_count (s : HistoryStore) : Z := Z.of_nat (size (tenants_of s)).

(** The aggregate of each tenant: record count and bytes. *)
Definition tally (acc : gmap Z (Z * Z)) (x : (Z * Z) * list byte) : gmap Z (Z * Z) :=
  let '(n, b) := default (0, 0) (acc !! x.1.1) in <[x.1.1 := (n + 1, b + zlen x.2)]> acc.

Definition tenant_summaries (s : HistoryStore) : list TenantSummary :=
  sort_by (fun a b => ts_tenant a <=? ts_tenant b)
    (map (fun x : Z * (Z * Z) => {| ts_tenant := x.1; record_count := x.2.1; total_bytes := x.2.2 |})
      (map_to_list (foldl tally ∅ (map_to_list (index s))))).

(** One record of the listing; bytes that do not decode are skipped. *)
Definition summarize (id : Z) (bytes : list byte) : option RecordSummary :=
  match record_from_bytes bytes with
  | Done rec =>
    let version := default 0 (byte_val <$> head (vr_data rec)) in
    Some {| rsm_id := id;
            data_bytes := if fitsb 32 (zlen (vr_data rec)) then zlen (vr_data rec) else 2 ^ 32 - 1;
            rsm_write_seq := wrap 64 (vr_new_modification_id rec);
            rsm_header := Z.lor (wrap 32 (Z.shiftl (struct_id id) 8)) version |}
  | _ => None
  end.

Definition record_summaries (tenant : Z) (max : nat) (s : HistoryStore) : list RecordSummary * bool :=
  let records := omap (fun x : (Z * Z) * list byte => if x.1.1 =? tenant then summarize x.1.2 x.2 else None) (map_to_list (index s)) in
  let records := sort_by (fun a b => rsm_id a <=? rsm_id b) records in
  (take max records, bool_decide (max < length records)%nat).

Definition history_journal_bytes (s : HistoryStore) : Z := match file (hist_journal s) with Some b => zlen b | None => 0 end.
Definition index_bytes (s : HistoryStore) : Z :=
  foldr (fun (x : (Z * Z) * list byte) n => zlen x.2 + 24 + n) 0 (map_to_list (index s)).

(** ** Wire layouts *)

Definition wire_browse_request : Wire BrowseRequest :=
  wire_struct (fun r => (br_token r, (br_tenant r, max_records r)))
    (fun '(t, (n, m)) => {| br_token := t; br_tenant := n; max_records := m |})
    (wire_pair (wire_option wire_token) (wire_pair (wire_option u64) (wire_uint 4))).

Definition wire_tenant_summary : Wire TenantSummary :=
  wire_struct (fun r => (ts_tenant r, (record_count r, total_bytes r)))
    (fun '(t, (n, b)) => {| ts_tenant := t; record_count := n; total_bytes := b |})
    (wire_pair u64 (wire_pair u64 u64)).

Definition wire_record_summary : Wire RecordSummary :=
  wire_struct (fun r => (rsm_id r, (data_bytes r, (rsm_write_seq r, rsm_header r))))
    (fun '(i, (d, (w, h))) => {| rsm_id := i; data_bytes := d; rsm_write_seq := w; rsm_header := h |})
    (wire_pair (wire_uint 16) (wire_pair (wire_uint 4) (wire_pair u64 (wire_uint 4)))).

Definition wire_browse_response : Wire BrowseResponse :=
  wire_struct (fun r => (tenants r, (records r, truncated r)))
    (fun '(t, (r, b)) => {| tenants := t; records := r; truncated := b |})
    (wire_pair (wire_vec wire_tenant_summary) (wire_pair (wire_vec wire_record_summary) wire_bool)).

Definition wire_history_request : Wire HistoryReadRequest :=
  wire_struct (fun r => (hr_tenant r, hr_record_id r)) (fun '(t, i) => {| hr_tenant := t; hr_record_id := i |})
    (wire_pair u64 (wire_uint 16)).

Definition wire_history_response : Wire HistoryReadResponse :=
  wire_struct hr_data (fun d => {| hr_data := d |}) wire_bytes.

Record SlowNodeMetrics : Type := {
  sm_record_count : Z;
  sm_tenant_count : Z;
  sm_flush_count : Z;
  sm_uptime_secs : Z;
  sm_journal_bytes : Z;
  sm_index_bytes : Z
}.

(** The node runs on a 64-bit machine. *)
Definition wire_slow_metrics : Wire SlowNodeMetrics :=
  wire_struct
    (fun m => (sm_record_count m, (sm_tenant_count m, (sm_flush_count m, (sm_uptime_secs m, (sm_journal_bytes m, sm_index_bytes m))))))
    (fun '(a, (b, (c, (d, (e, f))))) => {| sm_record_count := a; sm_tenant_count := b; sm_flush_count := c;
                                          sm_uptime_secs := d; sm_journal_bytes := e; sm_index_bytes := f |})
    (wire_pair (wire_usize 64) (wire_pair (wire_usize 64) (wire_pair u64 (wire_pair u64 (wire_pair u64 u64))))).

(** ** The endpoints *)

Abbreviation Reply := (Answer HistoryStore).

Definition BROWSE_MAX_RECORDS : Z := 4096.

Section server.
(** The MAC of tokens, the clock in seconds and the time since the start. *)
Variable hmac : list byte -> list byte -> list byte.
Variable now_secs : Z.
Variable uptime : Z.
(** The configured cluster key. *)
Variable auth_key : option ClusterKey.

Definition handle_flush (body : list byte) : Reply :=
  with_body wire_flush body (fun batch =>
    if admitted hmac now_secs auth_key (fb_token batch) PFlush then fun s =>
      match apply_flush batch s with
      | (Done write_seq, s) => reply wire_flush_ack {| fa_write_seq := write_seq |} s
      | (Fail _, s) => (Done (SInternal, []), s)
      | (Fault, s) => (Fault, s)
      end
    else st_ret (SForbidden, [])).

Definition handle_history (body : list byte) : Reply :=
  with_body wire_history_request body (fun req s =>
    reply wire_history_response {| hr_data := default [] (history_get (hr_tenant req) (hr_record_id req) s) |} s).

Definition handle_metrics (body : list byte) : Reply :=
  with_body wire_metrics_request body (fun req =>
    if admitted hmac now_secs auth_key (mr_token req) PMonitor then fun s =>
      reply wire_slow_metrics
        {| sm_record_count := history_len s; sm_tenant_count := tenant_count s; sm_flush_count := flush_count s;
           sm_uptime_secs := uptime; sm_journal_bytes := history_journal_bytes s; sm_index_bytes := index_bytes s |} s
    else st_ret (SForbidden, [])).

Definition browse_limit (max_records : Z) : nat :=
  Z.to_nat (if max_records =? 0 then BROWSE_MAX_RECORDS else Z.min max_records BROWSE_MAX_RECORDS).

Definition handle_browse (body : list byte) : Reply :=
  with_body wire_browse_request body (fun req =>
    if admitted hmac now_secs auth_key (br_token req) PMonitor then fun s =>
      let '(records, truncated) :=
        match br_tenant req with
        | Some t => record_summaries t (browse_limit (max_records req)) s
        | None => ([], false)
        end in
      reply wire_browse_response {| tenants := tenant_summaries s; records := records; truncated := truncated |} s
    else st_ret (SForbidden, [])).
End server.
