(* ===== verification/SlowOk.v ===== *)
(** * The slow node keeps the history it acknowledges

    A flush is readable at once and after a restart, the latest record of an
    identifier wins, and what a quick node sends is what the slow node stores. *)
From S2P Require Import Prelude Wire WireOk Errors Ids Page Anchor Journal Auth Messages Request Slow.

(** ** Logs of flushed records *)

(** The records of the batches, in order, as they are journalled. *)
Definition flushed (b : FlushBatch) : list VersionedRecord := map (journaled (fb_tenant b) (fb_write_seq b)) (fb_records b).

Definition flush_log (bs : list FlushBatch) : list VersionedRecord := concat (map flushed bs).

(** The latest of a tenant and identifier. *)
Definition latest_flushed (tenant id : Z) (log : list VersionedRecord) : option VersionedRecord :=
  last (filter (fun r => vr_old_modification_id r = tenant /\ vr_id r = id) log).

Lemma latest_snoc t i log r : latest_flushed t i (log ++ [r]) =
  if decide (vr_old_modification_id r = t /\ vr_id r = i) then Some r else latest_flushed t i log.
Proof.
  unfold latest_flushed. rewrite filter_app, filter_cons, filter_nil. case_decide; [by rewrite last_snoc|by rewrite app_nil_r].
Qed.

(** A record the journal takes, of a tenant and sequence of 64 bits. *)
Definition flush_ok (r : VersionedRecord) : Prop :=
  entry_ok (WriteVersioned r) /\ fits 64 (vr_old_modification_id r) /\ fits 64 (vr_new_modification_id r).

Lemma flush_encodes r : flush_ok r -> record_to_bytes r = Done (enc wire_record r) /\ record_from_bytes (enc wire_record r) = Done r.
Proof.
  intros [(Hwf & Hf & _) _]. assert (record_wf r) as Hr by exact Hwf.
  change (slots_fit wire_entry (WriteVersioned r)) with
    (fitsb 32 (Z.of_nat (length (enc wire_record r))) && slots_fit wire_record r) in Hf.
  apply andb_true_iff in Hf as [_ Hf]. unfold record_to_bytes, record_from_bytes.
  by rewrite (to_wire_enc wire_record _ r Hr Hf), (from_wire_enc wire_record _ r Hr Hf).
Qed.

(** *** The index is the log's *)

Definition indexes (idx : gmap (Z * Z) (list byte)) (log : list VersionedRecord) : Prop :=
  forall t i, idx !! (t, i) = enc wire_record <$> latest_flushed t i log.

Lemma indexes_nil : indexes ∅ [].
Proof. intros t i. by rewrite lookup_empty. Qed.

Lemma indexes_snoc idx log r : indexes idx log ->
  indexes (<[(vr_old_modification_id r, vr_id r) := enc wire_record r]> idx) (log ++ [r]).
Proof.
  intros H t i. rewrite latest_snoc. case_decide as E.
  - destruct E as [-> ->]. by rewrite lookup_insert_eq.
  - rewrite lookup_insert_ne; [apply H|]. intros [= E1 E2]. by apply E.
Qed.

(** The highest sequence of a tenant in a log. *)
Definition log_mark (t : Z) (log : list VersionedRecord) : Z :=
  foldr Z.max 0 (map vr_new_modification_id (filter (fun r => vr_old_modification_id r = t) log)).

Lemma high_water_advance t' seq w t : 0 <= receipt_high_water t w ->
  receipt_high_water t (receipt_advance t' seq w) = if decide (t' = t) then Z.max (receipt_high_water t w) seq else receipt_high_water t w.
Proof.
  unfold receipt_high_water, receipt_advance. cbn [marks]. intros H. case_decide as E.
  - subst. rewrite lookup_insert_eq. cbn [default]. destruct (_ <? _) eqn:El; cbn; lia.
  - by rewrite lookup_insert_ne.
Qed.

Lemma max_snoc l x : 0 <= x -> foldr Z.max 0 (l ++ [x]) = Z.max (foldr Z.max 0 l) x.
Proof. intros Hx. induction l as [|y l IH]; cbn [foldr app]; lia. Qed.

Lemma log_mark_snoc t log r : 0 <= vr_new_modification_id r ->
  log_mark t (log ++ [r]) = if decide (vr_old_modification_id r = t) then Z.max (log_mark t log) (vr_new_modification_id r) else log_mark t log.
Proof.
  intros Hr. unfold log_mark. rewrite filter_app, filter_cons, filter_nil, map_app.
  case_decide; cbn [map]; [by apply max_snoc|by rewrite app_nil_r].
Qed.

Lemma log_mark_nonneg t log : 0 <= log_mark t log.
Proof. unfold log_mark. induction (map _ _) as [|x l IH]; cbn [foldr]; lia. Qed.

(** ** Replay *)

Definition marks_log (w : ReceiptWatermark) (log : list VersionedRecord) : Prop := forall t, receipt_high_water t w = log_mark t log.

Lemma replay_history_log log : Forall flush_ok log -> forall idx0 w0 c0 log0, indexes idx0 log0 -> marks_log w0 log0 ->
  exists idx w c, ofold replay_history (idx0, (w0, c0)) (map WriteVersioned log) = Done (idx, (w, c)) /\
    indexes idx (log0 ++ log) /\ marks_log w (log0 ++ log).
Proof.
  induction 1 as [|r log Hr _ IH]; intros idx0 w0 c0 log0 Hi Hw.
  - exists idx0, w0, c0. rewrite app_nil_r. done.
  - destruct (flush_encodes r Hr) as [Eb _]. destruct Hr as (_ & Ht & Hn).
    cbn [map ofold replay_history]. rewrite Eb, (wrap_small _ _ Ht), (wrap_small _ _ Hn).
    set (marked := if 0 <? vr_new_modification_id r then _ else _). destruct marked as [w1 c1] eqn:Em. cbn [obind].
    change (log0 ++ r :: log) with (log0 ++ [r] ++ log). rewrite (assoc_L (++)).
    apply IH; [by apply indexes_snoc|].
    intros t. assert (0 <= vr_new_modification_id r) as H0 by (unfold fits in Hn; lia).
    rewrite log_mark_snoc by done. pose proof (log_mark_nonneg t log0). subst marked.
    destruct (0 <? vr_new_modification_id r) eqn:E; injection Em as <- <-.
    + rewrite high_water_advance by (rewrite Hw; done). rewrite Hw. done.
    + rewrite Hw. case_decide; [|done]. lia.
Qed.

(** ** The store against the log *)

(** [log] has been flushed, [mark] being the sequences acknowledged. *)
Record history_ok (log : list VersionedRecord) (mark : Z -> Z) (s : HistoryStore) : Prop := {
  hi_log : Forall flush_ok log;
  hi_entries : entries (hist_journal s) = map WriteVersioned log;
  hi_journal : journal_ok (hist_journal s);
  hi_disk : is_Some (file (hist_journal s));
  hi_index : indexes (index s) log;
  hi_mark : forall t, history_high_water t s = mark t /\ 0 <= mark t
}.

Lemma apply_record_ok log mark s t w r : history_ok log mark s -> flush_ok (journaled t w r) ->
  exists s', apply_record t w r s = (Done tt, s') /\ history_ok (log ++ [journaled t w r]) mark s' /\ watermark s' = watermark s.
Proof.
  intros [Hl He Hj Hd Hi Hm] Hr. destruct (flush_encodes _ Hr) as [Eb _].
  destruct (append_ok (hist_journal s) (WriteVersioned (journaled t w r)) Hj (proj1 Hr)) as [Ea Hj'].
  eexists. split; [unfold apply_record; by rewrite Eb, Ea|]. split; [|done]. constructor; cbn [hist_journal index entries file].
  - apply Forall_app. split; [done|by apply Forall_singleton].
  - by rewrite He, map_app.
  - done.
  - destruct Hd as [b ->]. by eexists.
  - exact (indexes_snoc _ _ (journaled t w r) Hi).
  - exact Hm.
Qed.

Lemma apply_records_ok t w rs : forall log mark s, history_ok log mark s -> Forall (fun r => flush_ok (journaled t w r)) rs ->
  exists s', st_iter (apply_record t w) rs s = (Done tt, s') /\ history_ok (log ++ map (journaled t w) rs) mark s' /\ watermark s' = watermark s.
Proof.
  induction rs as [|r rs IH]; intros log mark s Hs Hrs.
  - exists s. cbn [map]. by rewrite app_nil_r.
  - apply Forall_cons in Hrs as [Hr Hrs]. destruct (apply_record_ok log mark s t w r Hs Hr) as (s1 & E1 & Hs1 & Hw1).
    destruct (IH _ _ s1 Hs1 Hrs) as (s2 & E2 & Hs2 & Hw2). exists s2. cbn [st_iter map]. unfold st_bind. rewrite E1.
    split; [done|]. split; [by rewrite <- (assoc_L (++)) in Hs2|congruence].
Qed.

(** A batch the store accepts. *)
Definition batch_ok (b : FlushBatch) : Prop := Forall flush_ok (flushed b) /\ fits 64 (fb_write_seq b).

Definition mark_after (b : FlushBatch) (mark : Z -> Z) : Z -> Z :=
  fun t => if decide (fb_tenant b = t) then Z.max (mark t) (fb_write_seq b) else mark t.

Lemma apply_flush_ok log mark s b : history_ok log mark s -> batch_ok b ->
  exists s', apply_flush b s = (Done (fb_write_seq b), s') /\ history_ok (log ++ flushed b) (mark_after b mark) s'.
Proof.
  intros Hs [Hb Hw]. destruct (apply_records_ok (fb_tenant b) (fb_write_seq b) (fb_records b) log mark s Hs) as (s1 & E1 & [H1 H2 H3 H4 H5 H6] & Ew).
  { exact (proj1 (Forall_fmap _ _ _) Hb). }
  eexists. split; [unfold apply_flush, st_bind; rewrite E1; done|].
  constructor; cbn [hist_journal index]; [done..|]. intros t. unfold history_high_water, mark_after. cbn [watermark].
  destruct (H6 t) as [Em Hn]. unfold history_high_water in Em. rewrite high_water_advance by (rewrite Em; done). rewrite Em.
  case_decide; split; lia.
Qed.

Definition marks_of (bs : list FlushBatch) : Z -> Z := foldr mark_after (fun _ => 0) (rev bs).

Fixpoint flush_all (bs : list FlushBatch) : HS (list Z) :=
  match bs with
  | [] => st_ret []
  | b :: bs => let! w := apply_flush b in let! ws := flush_all bs in st_ret (w :: ws)
  end.

Lemma flush_all_ok bs : forall log mark s, history_ok log mark s -> Forall batch_ok bs ->
  exists s', flush_all bs s = (Done (map fb_write_seq bs), s') /\ history_ok (log ++ flush_log bs) (foldr mark_after mark (rev bs)) s'.
Proof.
  induction bs as [|b bs IH]; intros log mark s Hs Hbs.
  - exists s. unfold flush_log. cbn [map concat rev foldr]. by rewrite app_nil_r.
  - apply Forall_cons in Hbs as [Hb Hbs]. destruct (apply_flush_ok log mark s b Hs Hb) as (s1 & E1 & Hs1).
    destruct (IH _ _ s1 Hs1 Hbs) as (s2 & E2 & Hs2). exists s2. cbn [flush_all map]. unfold st_bind. rewrite E1, E2.
    split; [done|]. cbn [rev]. rewrite foldr_app. unfold flush_log in *. cbn [map concat foldr]. by rewrite <- (assoc_L (++)) in Hs2.
Qed.

Lemma latest_in log t i r : Forall flush_ok log -> latest_flushed t i log = Some r -> flush_ok r /\ vr_id r = i.
Proof.
  intros Hl El. unfold latest_flushed in El. apply last_Some_elem_of, list_elem_of_filter in El as [[_ E] Hin].
  rewrite Forall_forall in Hl. split; [by apply Hl|done].
Qed.

(** ** Restarts *)

Lemma marks_of_spec bs t : marks_of bs t = foldr Z.max 0 (map fb_write_seq (filter (fun b => fb_tenant b = t) (rev bs))).
Proof.
  unfold marks_of. induction (rev bs) as [|b l IH]; [done|]. cbn [foldr]. rewrite filter_cons.
  unfold mark_after at 1. case_decide; cbn [map foldr]; [|exact IH]. rewrite IH. lia.
Qed.

Lemma history_fresh : exists s, history_open [] = Done s /\ history_ok [] (fun _ => 0) s.
Proof.
  eexists. split; [reflexivity|]. constructor; cbn [hist_journal entries file index]; [done|done| |by eexists|apply indexes_nil|done].
  split; [done|]. by intros b [= <-].
Qed.

Lemma history_reopen log mark s tail : history_ok log mark s -> torn tail ->
  exists bytes r, file (hist_journal s) = Some bytes /\ history_open (bytes ++ tail) = Done r /\
    index r = index s /\ forall t, history_high_water t r = log_mark t log.
Proof.
  intros [Hl He [Hj Hb] [bytes Ed] Hi _] Ht. pose proof (Hb bytes Ed) as ->. rewrite He in *.
  destruct (replay_history_log log Hl ∅ receipt_new 0 [] indexes_nil) as (idx & w & c & E & Hi' & Hw'); [done|].
  eexists _, _. split; [exact Ed|]. split; [|split].
  - destruct (journal_decode_torn _ tail Hj Ht) as (bytes & Eb & Edec). rewrite (encode_entries_ok _ Hj) in Eb. injection Eb as <-.
    unfold history_open. rewrite (journal_open_done _ _ Edec). cbn [obind entries]. by rewrite E.
  - cbn [index]. apply map_eq. intros [t i]. by rewrite (Hi t i), (Hi' t i).
  - intros t. unfold history_high_water. cbn [watermark]. apply Hw'.
Qed.

(** C22: what the slow node acknowledges it keeps: after any run of flushes the
    history of a tenant's record is the latest flushed one, decodable, and a
    restart on the journal's file, with whatever a crash left of one more append,
    finds the same index; the watermark is the highest acknowledged sequence, after
    a restart the highest of a batch that had records. *)
Theorem history_survives (bs : list FlushBatch) (tail : list byte) :
  Forall batch_ok bs -> torn tail ->
  exists s0 s bytes r, history_open [] = Done s0 /\ flush_all bs s0 = (Done (map fb_write_seq bs), s) /\
    (forall t i, record_from_bytes <$> history_get t i s = Done <$> latest_flushed t i (flush_log bs)) /\
    (forall t, history_high_water t s = foldr Z.max 0 (map fb_write_seq (filter (fun b => fb_tenant b = t) (rev bs)))) /\
    file (hist_journal s) = Some bytes /\ history_open (bytes ++ tail) = Done r /\
    index r = index s /\ forall t, history_high_water t r = log_mark t (flush_log bs).
Proof.
  intros Hbs Ht. destruct history_fresh as (s0 & E0 & H0). destruct (flush_all_ok bs [] (fun _ => 0) s0 H0 Hbs) as (s & E & Hs).
  destruct (history_reopen _ _ s tail Hs Ht) as (bytes & r & Ef & Er & Hi & Hw).
  exists s0, s, bytes, r. split; [done|]. split; [done|]. split; [|split; [|done]].
  - intros t i. unfold history_get. rewrite (hi_index _ _ _ Hs t i). cbn [app].
    destruct (latest_flushed t i (flush_log bs)) as [rec|] eqn:El; [|done]. cbn [fmap option_fmap option_map]. f_equal.
    apply flush_encodes. by apply (latest_in _ t i rec (hi_log _ _ _ Hs)).
  - intros t. rewrite (proj1 (hi_mark _ _ _ Hs t)). apply marks_of_spec.
Qed.

(** ** Listings *)

Lemma summarize_id i b x : summarize i b = Some x -> rsm_id x = i.
Proof. unfold summarize. destruct (record_from_bytes b); [|done..]. by intros [= <-]. Qed.

Abbreviation listed_of t := (fun x : (Z * Z) * list byte => if x.1.1 =? t then summarize x.1.2 x.2 else None).

Lemma elem_of_listed t (l : list ((Z * Z) * list byte)) x : x ∈ omap (listed_of t) l <-> exists i b, ((t, i), b) ∈ l /\ summarize i b = Some x.
Proof.
  rewrite list_elem_of_omap. split.
  - intros ([[t' i] b] & Hin & E). cbn [fst snd] in E. destruct (t' =? t) eqn:Et; [|done]. apply Z.eqb_eq in Et. subst t'. by exists i, b.
  - intros (i & b & Hin & E). exists ((t, i), b). cbn [fst snd]. by rewrite Z.eqb_refl.
Qed.

Lemma listed_nodup t (l : list ((Z * Z) * list byte)) : NoDup (map fst l) -> NoDup (map rsm_id (omap (listed_of t) l)).
Proof.
  induction l as [|[[t' i] b] l IH]; [constructor|]. cbn [map fst]. intros [Hx Hn]%NoDup_cons.
  cbn [omap list_omap fst snd]. destruct (t' =? t) eqn:Et; [|by apply IH]. apply Z.eqb_eq in Et. subst t'.
  destruct (summarize i b) as [x|] eqn:E; [|by apply IH]. cbn [map]. apply NoDup_cons. split; [|by apply IH].
  intros (y & Ey & Hy)%list_elem_of_fmap. apply elem_of_listed in Hy as (j & b' & Hin & E'). apply Hx.
  apply list_elem_of_fmap. exists ((t, j), b'). split; [|done]. cbn [fst]. f_equal. rewrite <- (summarize_id i b x E), Ey. by apply (summarize_id j b').
Qed.

Definition summary_of (r : VersionedRecord) : RecordSummary :=
  {| rsm_id := vr_id r; data_bytes := if fitsb 32 (zlen (vr_data r)) then zlen (vr_data r) else 2 ^ 32 - 1;
     rsm_write_seq := vr_new_modification_id r;
     rsm_header := Z.lor (wrap 32 (Z.shiftl (struct_id (vr_id r)) 8)) (default 0 (byte_val <$> head (vr_data r))) |}.

Lemma summarize_ok i r : flush_ok r -> vr_id r = i -> summarize i (enc wire_record r) = Some (summary_of r).
Proof.
  intros Hr <-. unfold summarize. rewrite (proj2 (flush_encodes r Hr)). by rewrite (wrap_small _ _ (proj2 (proj2 Hr))).
Qed.

(** A listing has one summary per identifier of the tenant, that of its latest
    flushed record, in the order of the identifiers, cut at the limit and marked so. *)
Theorem record_summaries_spec log mark s t max : history_ok log mark s ->
  exists all, record_summaries t max s = (take max all, bool_decide (max < length all)%nat) /\
    StronglySorted (fun a b => (rsm_id a <=? rsm_id b) = true) all /\ NoDup (map rsm_id all) /\
    forall x, x ∈ all <-> exists i r, latest_flushed t i log = Some r /\ x = summary_of r.
Proof.
  intros Hs. set (records := omap (listed_of t) (map_to_list (index s))).
  exists (sort_by (fun a b => rsm_id a <=? rsm_id b) records). split; [done|].
  pose proof (sort_by_perm (fun a b => rsm_id a <=? rsm_id b) records) as Hp. split; [|split].
  - apply sort_by_sorted; intros; lia.
  - rewrite Hp. apply listed_nodup. exact (NoDup_fst_map_to_list (index s)).
  - intros x. rewrite Hp. unfold records. rewrite elem_of_listed. split.
    + intros (i & b & Hin%elem_of_map_to_list & E). rewrite (hi_index _ _ _ Hs t i) in Hin.
      destruct (latest_flushed t i log) as [r|] eqn:El; [|done]. injection Hin as <-. exists i, r. split; [done|].
      destruct (latest_in log t i r (hi_log _ _ _ Hs) El) as [Hr Hid]. rewrite (summarize_ok i r Hr Hid) in E. by injection E.
    + intros (i & r & El & ->). destruct (latest_in log t i r (hi_log _ _ _ Hs) El) as [Hr Hid].
      exists i, (enc wire_record r). split; [|by apply summarize_ok]. apply elem_of_map_to_list. by rewrite (hi_index _ _ _ Hs t i), El.
Qed.

(** ** Two flushes of one tenant *)

Definition demo_batches : list FlushBatch :=
  [{| fb_write_seq := 2; fb_tenant := 1; fb_records := [record_new (Id_new 1 0 7 1) [Byte.x01; Byte.xaa]]; fb_token := None |};
   {| fb_write_seq := 5; fb_tenant := 1; fb_records := [record_new (Id_new 1 0 7 2) [Byte.x01; Byte.xbb]; record_new (Id_new 1 0 7 1) [Byte.x01; Byte.xcc]];
      fb_token := None |}].

Lemma demo_batches_ok : Forall batch_ok demo_batches.
Proof.
  repeat apply Forall_cons_2; try apply Forall_nil_2; (split; [|done]); unfold flushed; cbn [map fb_tenant fb_write_seq fb_records];
    repeat apply Forall_cons_2; try apply Forall_nil_2;
    (split; [|done]); (split; [split; [done|]; split; [by apply Forall_true|done]|]); by vm_compute.
Qed.

Lemma history_survives_witness :
  exists s0 s bytes r, history_open [] = Done s0 /\ flush_all demo_batches s0 = (Done [2; 5], s) /\
    (forall t i, record_from_bytes <$> history_get t i s = Done <$> latest_flushed t i (flush_log demo_batches)) /\
    (forall t, history_high_water t s = foldr Z.max 0 (map fb_write_seq (filter (fun b => fb_tenant b = t) (rev demo_batches)))) /\
    file (hist_journal s) = Some bytes /\ history_open (bytes ++ []) = Done r /\
    index r = index s /\ forall t, history_high_water t r = log_mark t (flush_log demo_batches).
Proof. exact (history_survives demo_batches [] demo_batches_ok torn_nil). Defined.

Lemma record_summaries_spec_witness :
  exists s all, record_summaries 1 1 s = (take 1 all, bool_decide (1 < length all)%nat) /\
    StronglySorted (fun a b => (rsm_id a <=? rsm_id b) = true) all /\ NoDup (map rsm_id all) /\
    forall x, x ∈ all <-> exists i r, latest_flushed 1 i (flush_log demo_batches) = Some r /\ x = summary_of r.
Proof.
  destruct history_fresh as (s0 & _ & H0). destruct (flush_all_ok demo_batches [] (fun _ => 0) s0 H0 demo_batches_ok) as (s & _ & Hs).
  exists s. exact (record_summaries_spec (flush_log demo_batches) _ s 1 1 Hs).
Defined.
