(* ===== verification/FlushOk.v ===== *)
(** * History flushes end to end (quick node: sync_to_slow; slow node: handle_flush)

    Whatever bodies reach the slow node, as long as those it accepted are among
    them, a record that waited for the flush waits again or is in the history. *)
From S2P Require Import Prelude Wire WireOk Errors Ids Page Anchor Journal LiveOk NodeServe Ring Auth Cluster Request Messages QuickNode NodeOk Slow SlowOk.

(** ** Chunks *)

Lemma chunks_concat k : (0 < k)%nat -> forall fuel l, (length l <= fuel)%nat -> concat (chunks fuel k l) = l.
Proof.
  intros Hk. induction fuel as [|fuel IH]; intros [|r l] Hl; cbn [chunks]; try done; [cbn in Hl; lia|].
  cbn [concat]. rewrite IH; [apply take_drop|]. rewrite length_drop. lia.
Qed.

Lemma elem_of_chunks k fuel l c r : c ∈ chunks fuel k l -> r ∈ c -> r ∈ l.
Proof.
  revert l. induction fuel as [|fuel IH]; intros [|x l]; cbn [chunks]; intros Hc; try by apply not_elem_of_nil in Hc.
  apply elem_of_cons in Hc. rewrite <- (take_drop k (x :: l)), elem_of_app. intros Hr.
  destruct Hc as [->|Hc]; [by left|right; by eapply IH].
Qed.

Section delivery.
Variable hmac : list byte -> list byte -> list byte.
Variable now_secs : Z.
Variable post : list byte -> bool.
Hypothesis hmac_length : forall key msg, length (hmac key msg) = 32%nat.
Hypothesis now_fits : fits 64 now_secs.

(** ** What is sent and what waits again *)

Definition flush_batch (n : QuickNode) (seq tenant : Z) (chunk : list VersionedRecord) : FlushBatch :=
  {| fb_write_seq := seq; fb_tenant := tenant; fb_records := chunk; fb_token := mint hmac now_secs n PFlush |}.

Definition accepted (n : QuickNode) (seq tenant : Z) (chunk : list VersionedRecord) : bool :=
  match encode_payload wire_flush (flush_batch n seq tenant chunk) with Done body => post body | _ => false end.

Definition chunks_of (l : list VersionedRecord) : list (list VersionedRecord) := chunks (length l) FLUSH_BATCH_MAX l.

Definition requeued (n : QuickNode) (seq tenant : Z) (l : list VersionedRecord) : list VersionedRecord :=
  concat (filter (fun c => accepted n seq tenant c = false) (chunks_of l)).

(** Records and tenants of their widths. *)
Definition pending_ok (pending : gmap Z (list VersionedRecord)) : Prop :=
  map_Forall (fun t l => fits 64 t /\ Forall record_wf l) pending.

Lemma flush_batch_wf n seq t chunk : fits 64 (node_id n) -> fits 64 seq -> fits 64 t -> Forall record_wf chunk ->
  flush_wf (flush_batch n seq t chunk).
Proof. intros. split; [done|]. split; [done|]. split; [done|]. by apply mint_wf. Qed.

Lemma flush_total b : flush_wf b -> encode_payload wire_flush b <> Fault.
Proof.
  intros Hb. unfold encode_payload. destruct (slots_fit wire_flush b) eqn:E.
  - by rewrite (to_wire_enc wire_flush _ b Hb E).
  - by destruct (to_wire_unfit wire_flush _ b Hb E) as [k ->].
Qed.

(** Only the queue of the node changes. *)
Definition reflushed (n n' : QuickNode) : Prop := exists q, n' = with_flush q n.

Lemma chunk_run n seq t failed c : fits 64 (node_id n) -> fits 64 seq -> fits 64 t -> Forall record_wf c ->
  flush_chunk hmac now_secs post t seq failed c n = (Done (if accepted n seq t c then failed else failed ++ c), n).
Proof.
  intros Hn Hs Ht Hc. pose proof (flush_total _ (flush_batch_wf n seq t c Hn Hs Ht Hc)) as Hf.
  unfold flush_chunk, accepted. unfold st_bind, st_gets, self.
  change {| fb_write_seq := seq; fb_tenant := t; fb_records := c; fb_token := _ |} with (flush_batch n seq t c).
  by destruct (encode_payload wire_flush (flush_batch n seq t c)) as [body| |].
Qed.

Lemma chunks_run n seq t cs : fits 64 (node_id n) -> fits 64 seq -> fits 64 t -> Forall (Forall record_wf) cs -> forall failed,
  st_foldl (flush_chunk hmac now_secs post t seq) failed cs n =
  (Done (failed ++ concat (filter (fun c => accepted n seq t c = false) cs)), n).
Proof.
  intros Hn Hs Ht. induction 1 as [|c cs Hc _ IH]; intros failed; cbn [st_foldl]; [by rewrite app_nil_r|].
  unfold st_bind. rewrite chunk_run by done. rewrite IH, filter_cons. destruct (accepted n seq t c) eqn:E.
  - by rewrite decide_False.
  - rewrite decide_True by done. cbn [concat]. by rewrite (assoc_L (++)).
Qed.

Lemma elem_of_chunks_of l c r : c ∈ chunks_of l -> r ∈ c -> r ∈ l.
Proof. apply elem_of_chunks. Qed.

Lemma concat_chunks_of l : concat (chunks_of l) = l.
Proof. apply chunks_concat; [unfold FLUSH_BATCH_MAX; lia|done]. Qed.

Lemma chunks_wf l : Forall record_wf l -> Forall (Forall record_wf) (chunks_of l).
Proof.
  intros Hl. apply Forall_forall. intros c Hc. apply Forall_forall. intros r Hr. rewrite Forall_forall in Hl.
  by eapply Hl, elem_of_chunks_of.
Qed.

(** The queue after a tenant's chunks. *)
Definition queue_after (n : QuickNode) (seq : Z) (q : gmap Z (list VersionedRecord)) (t : Z) (l : list VersionedRecord) : gmap Z (list VersionedRecord) :=
  match requeued n seq t l with [] => q | f => <[t := f ++ default [] (q !! t)]> q end.

Lemma tenant_run n seq t l : fits 64 (node_id n) -> fits 64 seq -> fits 64 t -> Forall record_wf l ->
  flush_tenant hmac now_secs post seq (t, l) n = (Done tt, with_flush (queue_after n seq (flush_pending n) t l) n).
Proof.
  intros Hn Hs Ht Hl. unfold flush_tenant. cbn [fst snd]. fold (chunks_of l).
  unfold st_bind. rewrite (chunks_run n seq t (chunks_of l) Hn Hs Ht (chunks_wf l Hl)). cbn [app].
  unfold queue_after, requeued. destruct (concat _); [by destruct n|done].
Qed.

Lemma tenants_run n seq ps : fits 64 (node_id n) -> fits 64 seq -> Forall (fun p => fits 64 p.1 /\ Forall record_wf p.2) ps -> forall q,
  st_iter (flush_tenant hmac now_secs post seq) ps (with_flush q n) =
  (Done tt, with_flush (foldl (fun q p => queue_after n seq q p.1 p.2) q ps) n).
Proof.
  intros Hn Hs. induction 1 as [|[t l] ps [Ht Hl] _ IH]; intros q; [done|]. cbn [st_iter foldl fst snd].
  unfold st_bind. rewrite (tenant_run (with_flush q n) seq t l Hn Hs Ht Hl). exact (IH _).
Qed.

Lemma queue_lookup n seq ps : NoDup (map fst ps) -> forall q, (forall t, t ∈ map fst ps -> q !! t = None) ->
  forall t, foldl (fun q p => queue_after n seq q p.1 p.2) q ps !! t =
    match (list_to_map ps : gmap Z (list VersionedRecord)) !! t with
    | Some l => match requeued n seq t l with [] => None | f => Some f end
    | None => q !! t
    end.
Proof.
  induction ps as [|[t' l] ps IH]; intros Hn q Hq t; [by rewrite list_to_map_nil, lookup_empty|].
  cbn [map fst] in Hn, Hq. apply NoDup_cons in Hn as [Ht' Hn]. cbn [foldl fst snd]. rewrite list_to_map_cons.
  assert (forall t2, t2 <> t' -> queue_after n seq q t' l !! t2 = q !! t2) as Ho.
  { intros t2 Hne. unfold queue_after. destruct (requeued n seq t' l); [done|]. by rewrite lookup_insert_ne. }
  rewrite IH; [|done|]. 2: { intros t2 Ht2. rewrite Ho by (intros ->; done). apply Hq. by right. }
  destruct (decide (t = t')) as [->|Hne].
  - rewrite lookup_insert_eq, (not_elem_of_list_to_map_1 ps t' Ht'). unfold queue_after.
    rewrite (Hq t') by (by left). destruct (requeued n seq t' l) eqn:E; [by apply Hq; left|].
    rewrite lookup_insert_eq. cbn [default]. by rewrite app_nil_r.
  - rewrite lookup_insert_ne by done. by rewrite Ho.
Qed.

(** What a sync leaves in the queue: the chunks that were not accepted. *)
Lemma sync_run n : is_Some (slow_node (config n)) -> fits 64 (node_id n) -> fits 64 (current_seq (replication n)) -> pending_ok (flush_pending n) ->
  exists q, sync_to_slow hmac now_secs post n = (Done tt, with_flush q n) /\
    forall t, q !! t = match flush_pending n !! t with
                       | Some l => match requeued n (current_seq (replication n)) t l with [] => None | f => Some f end
                       | None => None
                       end.
Proof.
  intros [addr Ea] Hn Hs Hp. set (ps := map_to_list (flush_pending n)). set (w := current_seq (replication n)) in *.
  exists (foldl (fun q p => queue_after n w q p.1 p.2) ∅ ps). split.
  - unfold sync_to_slow. unfold st_bind at 1, st_gets, self. rewrite Ea. fold ps w.
    unfold st_bind, modify, st_modify. assert (Forall (fun p => fits 64 p.1 /\ Forall record_wf p.2) ps) as Hps.
    { apply Forall_forall. intros [t l] Hin%elem_of_map_to_list. exact (Hp t l Hin). }
    pose proof (tenants_run n w ps Hn Hs Hps ∅) as E. by destruct ps.
  - intros t. rewrite queue_lookup; [|apply NoDup_fst_map_to_list|intros; by rewrite lookup_empty].
    unfold ps. rewrite list_to_map_to_list, lookup_empty. done.
Qed.

(** *** At the slow node *)

(** Records short enough for a frame of the journal. *)
Definition flushable (pending : gmap Z (list VersionedRecord)) : Prop :=
  map_Forall (fun t l => fits 64 t /\ Forall (fun r => record_wf r /\ zlen (vr_data r) <= PAYLOAD_MAX) l) pending.

Lemma flushable_pending q : flushable q -> pending_ok q.
Proof.
  intros H t l E. destruct (H t l E) as [Ht Hl]. split; [done|]. eapply Forall_impl; [exact Hl|]. by intros r [? _].
Qed.

Lemma journaled_ok t w r : record_wf r -> zlen (vr_data r) <= PAYLOAD_MAX -> fits 64 t -> fits 64 w -> flush_ok (journaled t w r).
Proof.
  intros Hr Hl Ht Hw. split; [|done]. apply small_record_entry.
  assert (record_wf (journaled t w r)) as Hwf.
  { destruct Hr as (Hi & Hd & _). split; [done|]. split; [done|]. cbn. split; apply (fits_mono 64); done. }
  unfold PAYLOAD_MAX in Hl. destruct (encodes wire_record record_wf (journaled t w r) Hwf) as (out & E & Hz & _).
  { destruct r. cbn in *. slots_small. }
  split; [done|]. exists out. unfold record_to_bytes. rewrite E. split; [done|]. rewrite Hz. cbn.
  unfold LIVE_VALUE_MAX, zlen in *. lia.
Qed.

(** The slow node: its clock, time since start and key. *)
Variable slow_now : Z.
Variable uptime : Z.
Variable auth_key : option ClusterKey.

Fixpoint deliver (bodies : list (list byte)) : ST HistoryStore Empty_set (list StatusCode) :=
  match bodies with
  | [] => st_ret []
  | b :: bodies => let! r := handle_flush hmac slow_now auth_key b in let! rs := deliver bodies in st_ret (r.1 :: rs)
  end.

(** The slow node trusts the sender: it has no key, or the same one and a clock
    within the window. *)
Definition trusted (n : QuickNode) : Prop :=
  auth_key = None \/ auth_key = cluster_key (config n) /\ Z.abs (slow_now - now_secs) <= WINDOW_SECS.

Lemma trusted_admitted n : trusted n -> admitted hmac slow_now auth_key (mint hmac now_secs n PFlush) PFlush = true.
Proof.
  unfold admitted, mint. intros [->|[-> Hw]]; [done|]. destruct (cluster_key (config n)) as [key|]; [|done].
  cbn [fmap option_fmap option_map]. unfold verify_at, mint_at. cbn [timestamp_secs tag tk_node_id].
  destruct (Z.ltb_spec WINDOW_SECS (Z.max slow_now now_secs - Z.min slow_now now_secs)) as [H|_]; [lia|].
  apply Z.eqb_eq, tag_diff_eq; [by unfold compute_tag|done].
Qed.

(** The bytes of a batch give it back. *)
Lemma flush_decodes b body : flush_wf b -> encode_payload wire_flush b = Done body -> from_wire wire_flush body = Done b /\ body <> [].
Proof.
  intros Hwf Eb. unfold encode_payload in Eb. destruct (slots_fit wire_flush b) eqn:Hfit.
  - destruct (encodes wire_flush _ b Hwf Hfit) as (body' & E1 & Hz & E2). rewrite Eb in E1. injection E1 as <-. split; [done|].
    intros ->. change (zlen (@nil byte)) with 0 in Hz. assert (0 < Z.of_nat (STACK_SIZE wire_flush)) by done. lia.
  - destruct (to_wire_unfit wire_flush _ b Hwf Hfit) as [k E']. congruence.
Qed.

Lemma records_wf n seq t c : fits 64 (node_id n) -> fits 64 seq -> fits 64 t ->
  Forall (fun r => record_wf r /\ zlen (vr_data r) <= PAYLOAD_MAX) c -> flush_wf (flush_batch n seq t c).
Proof. intros Hn Hs Ht Hc. apply flush_batch_wf; try done. eapply Forall_impl; [exact Hc|]. by intros r [? _]. Qed.

(** One batch of the node arrives. *)
Lemma handle_flush_ok n seq t c body log mark s : trusted n -> fits 64 (node_id n) -> fits 64 seq -> fits 64 t ->
  Forall (fun r => record_wf r /\ zlen (vr_data r) <= PAYLOAD_MAX) c ->
  encode_payload wire_flush (flush_batch n seq t c) = Done body -> history_ok log mark s ->
  exists ack s', handle_flush hmac slow_now auth_key body s = (Done (SOk, ack), s') /\
    history_ok (log ++ map (journaled t seq) c) (mark_after (flush_batch n seq t c) mark) s'.
Proof.
  intros Htr Hn Hs Ht Hc Eb Hh. set (b := flush_batch n seq t c) in *.
  assert (flush_wf b) as Hwf by (by apply records_wf).
  destruct (flush_decodes b body Hwf Eb) as [E2 Hne].
  assert (batch_ok b) as Hb.
  { split; [|done]. apply Forall_fmap. eapply Forall_impl; [exact Hc|]. intros r [Hr Hl]. by apply journaled_ok. }
  destruct (apply_flush_ok log mark s b Hh Hb) as (s' & E & Hh').
  assert (exists ack, to_wire wire_flush_ack {| fa_write_seq := seq |} = Done ack) as [ack Ea] by (eexists; by apply (to_wire_enc wire_flush_ack _)).
  change (fb_write_seq b) with seq in E. exists ack, s'. split; [|exact Hh']. unfold handle_flush, with_body. destruct body as [|x body]; [done|].
  unfold decode_payload. rewrite E2. cbn [fb_token b flush_batch]. rewrite (trusted_admitted n Htr), E.
  unfold reply, encode_payload. by rewrite Ea.
Qed.

(** ** The two nodes together *)

(** The batches of a sync, and the bodies it posts. *)
Definition sync_batches (n : QuickNode) : list (Z * list VersionedRecord) :=
  concat (map (fun p => map (fun c => (p.1, c)) (chunks_of p.2)) (map_to_list (flush_pending n))).

Definition body_of (n : QuickNode) (p : Z * list VersionedRecord) : option (list byte) :=
  match encode_payload wire_flush (flush_batch n (current_seq (replication n)) p.1 p.2) with Done body => Some body | _ => None end.

Definition posted (n : QuickNode) : list (list byte) := omap (body_of n) (sync_batches n).

Lemma body_encodes n t c b : body_of n (t, c) = Some b -> encode_payload wire_flush (flush_batch n (current_seq (replication n)) t c) = Done b.
Proof. unfold body_of. cbn [fst snd]. by destruct (encode_payload _ _) as [x| |]; [intros [= ->]|..]. Qed.

Lemma elem_of_batches n t c : (t, c) ∈ sync_batches n <-> exists l, flush_pending n !! t = Some l /\ c ∈ chunks_of l.
Proof.
  unfold sync_batches. rewrite list_elem_of_In, in_concat. split.
  - intros (x & (p & <- & Hp)%in_map_iff & (c' & [= <- <-] & Hc)%in_map_iff). apply list_elem_of_In in Hp, Hc.
    destruct p as [t' l]. exists l. split; [by apply elem_of_map_to_list|done].
  - intros (l & El%elem_of_map_to_list & Hc). apply list_elem_of_In in El, Hc. eexists. split; [by apply in_map|].
    by apply (in_map (fun c => (t, c)) (chunks_of l)).
Qed.

Lemma batches_ok n t c : flushable (flush_pending n) -> (t, c) ∈ sync_batches n ->
  fits 64 t /\ Forall (fun r => record_wf r /\ zlen (vr_data r) <= PAYLOAD_MAX) c.
Proof.
  intros H (l & El & Hc)%elem_of_batches. destruct (H t l El) as [Ht Hl]. split; [done|].
  rewrite Forall_forall in *. intros r Hr. by eapply Hl, elem_of_chunks_of.
Qed.

Lemma deliver_ok n bodies : trusted n -> fits 64 (node_id n) -> fits 64 (current_seq (replication n)) -> flushable (flush_pending n) ->
  bodies ⊆ posted n -> forall log mark s, history_ok log mark s ->
  exists s' log' mark', deliver bodies s = (Done (map (fun _ => SOk) bodies), s') /\ history_ok (log ++ log') mark' s' /\
    forall t c, (t, c) ∈ sync_batches n -> forall body, body_of n (t, c) = Some body -> body ∈ bodies ->
      map (journaled t (current_seq (replication n))) c ⊆ log'.
Proof.
  intros Htr Hn Hs Hf. set (w := current_seq (replication n)) in *.
  induction bodies as [|b bodies IH]; intros Hsub log mark s Hh.
  - exists s, [], mark. rewrite app_nil_r. split; [done|]. split; [done|]. intros t c _ body _ Hb. by apply not_elem_of_nil in Hb.
  - assert (b ∈ posted n) as ([t c] & Hin & Eb)%list_elem_of_omap by (apply Hsub; by left).
    destruct (batches_ok n t c Hf Hin) as [Ht Hc].
    assert (encode_payload wire_flush (flush_batch n w t c) = Done b) as Eb'.
    { by apply body_encodes. }
    destruct (handle_flush_ok n w t c b log mark s Htr Hn Hs Ht Hc Eb' Hh) as (ack & s1 & E1 & Hh1).
    assert (bodies ⊆ posted n) as Hsub' by (intros x Hx; apply Hsub; by right).
    destruct (IH Hsub' _ _ s1 Hh1) as (s2 & log' & mark' & E2 & Hh2 & Hall).
    exists s2, (map (journaled t w) c ++ log'), mark'. split; [|split].
    + cbn [deliver map]. unfold st_bind. by rewrite E1, E2.
    + by rewrite (assoc_L (++)).
    + intros t2 c2 Hin2 body Eb2 Hbody. apply elem_of_cons in Hbody as [->|Hbody].
      * assert (flush_batch n w t c = flush_batch n w t2 c2) as Eq.
        { destruct (batches_ok n t2 c2 Hf Hin2) as [Ht2 Hc2].
          assert (encode_payload wire_flush (flush_batch n w t2 c2) = Done b) as Eb2'.
          { by apply body_encodes. }
          pose proof (proj1 (flush_decodes _ _ (records_wf n w t c Hn Hs Ht Hc) Eb')) as D1.
          pose proof (proj1 (flush_decodes _ _ (records_wf n w t2 c2 Hn Hs Ht2 Hc2) Eb2')) as D2. congruence. }
        injection Eq as -> ->. set_solver.
      * intros x Hx. apply elem_of_app. right. by apply (Hall t2 c2 Hin2 body Eb2 Hbody).
Qed.

Definition waiting (n : QuickNode) (t : Z) : list VersionedRecord := default [] (flush_pending n !! t).

Lemma waits_or_posted n n' t r q : fits 64 (node_id n) -> fits 64 (current_seq (replication n)) -> flushable (flush_pending n) -> n' = with_flush q n ->
  (forall t, q !! t = match flush_pending n !! t with
                      | Some l => match requeued n (current_seq (replication n)) t l with [] => None | f => Some f end
                      | None => None
                      end) ->
  r ∈ waiting n t -> r ∈ waiting n' t \/ exists c body, (t, c) ∈ sync_batches n /\ r ∈ c /\ body_of n (t, c) = Some body /\ post body = true.
Proof.
  intros Hn Hs Hf -> Hq Hr. unfold waiting in *. cbn [flush_pending with_flush]. rewrite Hq.
  destruct (flush_pending n !! t) as [l|] eqn:El; [|by apply not_elem_of_nil in Hr]. cbn [default] in *.
  rewrite <- (concat_chunks_of l) in Hr. apply list_elem_of_In, in_concat in Hr as (c & Hc & Hr). apply list_elem_of_In in Hc, Hr.
  set (w := current_seq (replication n)) in *. destruct (accepted n w t c) eqn:Ea.
  - right. unfold accepted in Ea. destruct (encode_payload _ _) as [body| |] eqn:Eb; [|done..]. exists c, body.
    split; [apply elem_of_batches; by exists l|]. split; [done|]. split; [|done]. unfold body_of. cbn [fst snd]. fold w. by rewrite Eb.
  - left. assert (r ∈ requeued n w t l) as Hin.
    { unfold requeued. apply list_elem_of_In, in_concat. exists c. split; [|by apply list_elem_of_In].
      apply list_elem_of_In, list_elem_of_filter. done. }
    destruct (requeued n w t l); [by apply not_elem_of_nil in Hin|done].
Qed.

(** C21: history shipping is at least once: whatever bodies of a sync reach the slow
    node, in whatever order and however often, those the quick node saw accepted
    among them, all are acknowledged, and every record that waited for the sync
    waits again or is in the slow node's journal and history under its tenant. *)
Theorem sync_delivers n s log mark bodies :
  is_Some (slow_node (config n)) -> fits 64 (node_id n) -> fits 64 (current_seq (replication n)) -> flushable (flush_pending n) ->
  history_ok log mark s -> trusted n ->
  (forall b, b ∈ posted n -> post b = true -> b ∈ bodies) -> bodies ⊆ posted n ->
  exists n' s' log' mark', sync_to_slow hmac now_secs post n = (Done tt, n') /\
    deliver bodies s = (Done (map (fun _ => SOk) bodies), s') /\ history_ok (log ++ log') mark' s' /\
    forall t r, r ∈ waiting n t -> r ∈ waiting n' t \/
      WriteVersioned (journaled t (current_seq (replication n)) r) ∈ entries (hist_journal s') /\ is_Some (history_get t (vr_id r) s').
Proof.
  intros Hslow Hn Hs Hf Hh Htr Hacc Hsub.
  destruct (sync_run n Hslow Hn Hs (flushable_pending _ Hf)) as (q & E & Hq).
  destruct (deliver_ok n bodies Htr Hn Hs Hf Hsub log mark s Hh) as (s' & log' & mark' & E' & Hh' & Hall).
  exists (with_flush q n), s', log', mark'. split; [done|]. split; [done|]. split; [done|]. intros t r Hr.
  destruct (waits_or_posted n _ t r q Hn Hs Hf eq_refl Hq Hr) as [Hw|(c & body & Hin & Hrc & Eb & Hp)]; [by left|right].
  assert (body ∈ posted n) as Hposted by (apply list_elem_of_omap; by exists (t, c)).
  set (jr := journaled t (current_seq (replication n)) r).
  assert (jr ∈ log ++ log') as Hj.
  { apply elem_of_app. right. apply (Hall t c Hin body Eb (Hacc body Hposted Hp)). apply list_elem_of_fmap. by exists r. }
  destruct Hh' as [_ He _ _ Hi _]. split; [rewrite He; apply list_elem_of_fmap; by exists jr|].
  unfold history_get. rewrite (Hi t (vr_id r)). unfold latest_flushed. apply fmap_is_Some, last_is_Some.
  intros Hnil. assert (jr ∈ filter (fun r0 => vr_old_modification_id r0 = t /\ vr_id r0 = vr_id r) (log ++ log')) as Hin'.
  { apply list_elem_of_filter. done. }
  rewrite Hnil in Hin'. by apply not_elem_of_nil in Hin'.
Qed.
End delivery.

(** ** A node with two records waiting *)

Definition demo_waiting : QuickNode :=
  with_flush {[ 1 := [record_new (Id_new 1 0 7 1) [Byte.x01]; record_new (Id_new 1 0 7 2) [Byte.x02]] ]}
    (node_build demo_config None None).

Lemma sync_delivers_witness :
  exists s n' s' log' mark', let post := fun b : list byte => (0 <? zlen b) in
    sync_to_slow demo_mac 1000 post demo_waiting = (Done tt, n') /\
    deliver demo_mac 1010 (cluster_key demo_config) (posted demo_mac 1000 demo_waiting) s =
      (Done (map (fun _ => SOk) (posted demo_mac 1000 demo_waiting)), s') /\ history_ok ([] ++ log') mark' s' /\
    forall t r, r ∈ waiting demo_waiting t -> r ∈ waiting n' t \/
      WriteVersioned (journaled t (current_seq (replication demo_waiting)) r) ∈ entries (hist_journal s') /\
      is_Some (history_get t (vr_id r) s').
Proof.
  destruct history_fresh as (s & _ & Hs). exists s.
  destruct (build_fixed demo_config None None) as (_ & Hid & _ & Hseq & _ & _).
  apply (sync_delivers demo_mac 1000 _ demo_mac_length ltac:(done) 1010 (cluster_key demo_config) demo_waiting s [] (fun _ => 0)).
  - unfold demo_waiting, node_build. destruct (foldl _ _ _). by eexists.
  - exact Hid.
  - unfold current_seq, demo_waiting. cbn [replication with_flush]. by rewrite Hseq.
  - unfold flushable, demo_waiting. cbn [flush_pending with_flush]. apply map_Forall_singleton. split; [done|].
    repeat constructor; by vm_compute.
  - exact Hs.
  - right. split; [|done]. unfold demo_waiting, node_build. by destruct (foldl _ _ _).
  - done.
  - done.
Defined.
