(* ===== verification/Index.v ===== *)
(** * Secondary indexes (wavedb-storage: index/mod.rs, array.rs, btree.rs, adaptive.rs, discrete.rs)

    A [Vec] of entries, a B+ tree whose nodes live in an arena and name each other
    by position, and the index that starts as the first and turns into the second.
    The trait is a class; what an implementation promises is its laws. *)
From S2P Require Import Prelude Errors Anchor SlotPage.

Definition DEFAULT_MAX_NON_UNIQUE_ELEMENTS : Z := 50.

(** [IndexKey(pub u64)]. *)
Abbreviation IndexKey := Z.
Definition KEY_MIN : IndexKey := 0.
Definition KEY_MAX : IndexKey := 2 ^ 64 - 1.

Abbreviation IndexEntries := (list (IndexKey * AnchorKey)).

Class IndexBackend (B : Type) : Type := {
  ix_insert : IndexKey -> AnchorKey -> B -> StorageResult B;
  ix_lookup : IndexKey -> B -> StorageResult (option AnchorKey);
  ix_remove : IndexKey -> B -> StorageResult (B * bool);
  ix_range : IndexKey -> IndexKey -> B -> StorageResult IndexEntries;
  ix_len : B -> Z
}.

Section defaults.
Context `{IndexBackend B}.
Definition ix_is_empty (b : B) : bool := ix_len b =? 0.
Definition ix_all_sorted (b : B) : StorageResult IndexEntries := ix_range KEY_MIN KEY_MAX b.
End defaults.

(** ** Sorted vectors *)

(** [Vec::insert] at the place a search gives, [Vec::remove] of what it finds. *)
Definition place (k : IndexKey) (a : AnchorKey) (es : IndexEntries) : IndexEntries :=
  let pos := match binary_search (map fst es) k with inl i => i | inr i => i end in
  take pos es ++ (k, a) :: drop pos es.

Definition find_entry (k : IndexKey) (es : IndexEntries) : option AnchorKey :=
  match binary_search (map fst es) k with inl i => snd <$> es !! i | inr _ => None end.

Definition unplace (k : IndexKey) (es : IndexEntries) : IndexEntries * bool :=
  match binary_search (map fst es) k with
  | inl i => (take i es ++ drop (S i) es, true)
  | inr _ => (es, false)
  end.

Definition in_range (lo hi : IndexKey) (es : IndexEntries) : IndexEntries :=
  filter (fun e => lo <= e.1 < hi) es.

(** ** The array *)

Record ArrayIndex : Type := { ai_entries : IndexEntries }.

Definition array_new : ArrayIndex := {| ai_entries := [] |}.
Definition from_entries (es : IndexEntries) : ArrayIndex :=
  {| ai_entries := sort_by (fun a b => a.1 <=? b.1) es |}.
Definition into_entries (a : ArrayIndex) : IndexEntries := ai_entries a.

#[export] Instance array_backend : IndexBackend ArrayIndex := {
  ix_insert k a b := Done {| ai_entries := place k a (ai_entries b) |};
  ix_lookup k b := Done (find_entry k (ai_entries b));
  ix_remove k b := let '(es, found) := unplace k (ai_entries b) in Done ({| ai_entries := es |}, found);
  ix_range lo hi b := Done (in_range lo hi (ai_entries b));
  ix_len b := zlen (ai_entries b)
}.

(** ** The B+ tree *)

Definition NODE_PAGE_SIZE : Z := 4096.
Definition MAX_ENTRIES_PER_NODE : nat := Z.to_nat ((NODE_PAGE_SIZE - 64) / 24).

Inductive BTreeNode : Type :=
  | Leaf (entries : IndexEntries)
  | Internal (keys : list IndexKey) (children : list nat).

Record BTreeIndex : Type := { nodes : list BTreeNode; root : nat; count : Z }.

Definition btree_new : BTreeIndex := {| nodes := [Leaf []]; root := 0; count := 0 |}.

(** [slice::chunks]. *)
Fixpoint chunked {A} (fuel k : nat) (l : list A) : list (list A) :=
  match fuel, l with
  | S fuel, _ :: _ => take k l :: chunked fuel k (drop k l)
  | _, _ => []
  end.

Definition chunks_of {A} (k : nat) (l : list A) : list (list A) := chunked (length l) k l.

(** An index out of bounds panics; so does the descent when the fuel ends. *)
Fixpoint first_key_of (fuel : nat) (ns : list BTreeNode) (idx : nat) : StorageResult IndexKey :=
  match fuel with
  | O => Fault
  | S fuel =>
    match ns !! idx with
    | Some (Leaf (e :: _)) => Done e.1
    | Some (Internal _ (c :: _)) => first_key_of fuel ns c
    | _ => Fault
    end
  end.

(** One internal node over a chunk of a level. *)
Definition push_internal (ns : list BTreeNode) (chunk : list nat) : StorageResult (list BTreeNode) :=
  let* keys := omapM (first_key_of (length ns) ns) (tail chunk) in
  Done (ns ++ [Internal keys chunk]).

(** The arena and the level above, built chunk by chunk. *)
Definition build_level (ns : list BTreeNode) (level : list nat) : StorageResult (list BTreeNode * list nat) :=
  ofold (fun '(ns, next) chunk =>
      let* ns' := push_internal ns chunk in Done (ns', next ++ [length ns]))
    (ns, []) (chunks_of MAX_ENTRIES_PER_NODE level).

(** Levels until one node is left. *)
Fixpoint build_levels (fuel : nat) (ns : list BTreeNode) (level : list nat) : StorageResult (list BTreeNode * list nat) :=
  if (1 <? length level)%nat then
    match fuel with
    | O => Fault
    | S fuel => let* (ns, level) := build_level ns level in build_levels fuel ns level
    end
  else Done (ns, level).

Definition from_sorted (es : IndexEntries) : StorageResult BTreeIndex :=
  match es with
  | [] => Done btree_new
  | _ =>
    let ns := map Leaf (chunks_of MAX_ENTRIES_PER_NODE es) in
    let* (ns, level) := build_levels (length ns) ns (seq 0 (length ns)) in
    match level with
    | r :: _ => Done {| nodes := ns; root := r; count := zlen es |}
    | [] => Fault
    end
  end.

(** [partition_point]: the keys are sorted. *)
Fixpoint route_point (key : IndexKey) (keys : list IndexKey) : nat :=
  match keys with
  | k :: keys => if k <=? key then S (route_point key keys) else O
  | [] => O
  end.

Fixpoint find_leaf (fuel : nat) (ns : list BTreeNode) (idx : nat) (key : IndexKey) : StorageResult nat :=
  match fuel with
  | O => Fault
  | S fuel =>
    match ns !! idx with
    | Some (Leaf _) => Done idx
    | Some (Internal keys children) =>
      match children !! Nat.min (route_point key keys) (length children - 1) with
      | Some c => find_leaf fuel ns c key
      | None => Fault
      end
    | None => Fault
    end
  end.

(** The entries of the leaf a key belongs to. *)
Definition leaf_for (key : IndexKey) (b : BTreeIndex) : StorageResult (nat * IndexEntries) :=
  let* i := find_leaf (length (nodes b)) (nodes b) (root b) key in
  match nodes b !! i with
  | Some (Leaf es) => Done (i, es)
  | _ => Fault
  end.

Fixpoint collect_node (fuel : nat) (ns : list BTreeNode) (idx : nat) (out : IndexEntries) : StorageResult IndexEntries :=
  match fuel with
  | O => Fault
  | S fuel =>
    match ns !! idx with
    | Some (Leaf es) => Done (out ++ es)
    | Some (Internal _ children) => ofold (fun out c => collect_node fuel ns c out) out children
    | None => Fault
    end
  end.

Definition collect_all (b : BTreeIndex) : StorageResult IndexEntries := collect_node (length (nodes b)) (nodes b) (root b) [].

Definition btree_insert (k : IndexKey) (a : AnchorKey) (b : BTreeIndex) : StorageResult BTreeIndex :=
  let* (i, es) := leaf_for k b in
  Done {| nodes := <[i := Leaf (place k a es)]> (nodes b); root := root b; count := count b + 1 |}.

Definition btree_remove (k : IndexKey) (b : BTreeIndex) : StorageResult (BTreeIndex * bool) :=
  let* (i, es) := leaf_for k b in
  match unplace k es with
  | (es, true) =>
    let* count := usub (count b) 1 in
    Done ({| nodes := <[i := Leaf es]> (nodes b); root := root b; count := count |}, true)
  | (_, false) => Done (b, false)
  end.

#[export] Instance btree_backend : IndexBackend BTreeIndex := {
  ix_insert := btree_insert;
  ix_lookup k b := let* (_, es) := leaf_for k b in Done (find_entry k es);
  ix_remove := btree_remove;
  ix_range lo hi b := let* es := collect_all b in Done (in_range lo hi es);
  ix_len := count
}.

(** ** The adaptive index *)

Inductive IndexState : Type :=
  | SArray (a : ArrayIndex)
  | SBTree (t : BTreeIndex).

Record AdaptiveIndex : Type := { state : IndexState; threshold : Z; converted : bool }.

Definition with_threshold (threshold : Z) : AdaptiveIndex :=
  {| state := SArray array_new; threshold := threshold; converted := false |}.

Definition adaptive_new : AdaptiveIndex := with_threshold DEFAULT_MAX_NON_UNIQUE_ELEMENTS.

Definition is_tree (x : AdaptiveIndex) : bool := converted x.

(** The replaced state is an empty array when there was no array to take. *)
Definition promote (x : AdaptiveIndex) : StorageResult AdaptiveIndex :=
  match state x with
  | SArray a =>
    let* t := from_sorted (into_entries a) in
    Done {| state := SBTree t; threshold := threshold x; converted := true |}
  | SBTree _ => Done {| state := SArray array_new; threshold := threshold x; converted := converted x |}
  end.

Definition adaptive_len (x : AdaptiveIndex) : Z :=
  match state x with SArray a => ix_len a | SBTree t => ix_len t end.

Definition with_state (s : IndexState) (x : AdaptiveIndex) : AdaptiveIndex :=
  {| state := s; threshold := threshold x; converted := converted x |}.

Definition adaptive_insert (k : IndexKey) (a : AnchorKey) (x : AdaptiveIndex) : StorageResult AdaptiveIndex :=
  let* x := if negb (converted x) && (threshold x <=? adaptive_len x) then promote x else Done x in
  match state x with
  | SArray arr => let* arr := ix_insert k a arr in Done (with_state (SArray arr) x)
  | SBTree t => let* t := ix_insert k a t in Done (with_state (SBTree t) x)
  end.

Definition adaptive_remove (k : IndexKey) (x : AdaptiveIndex) : StorageResult (AdaptiveIndex * bool) :=
  match state x with
  | SArray arr => let* (arr, b) := ix_remove k arr in Done (with_state (SArray arr) x, b)
  | SBTree t => let* (t, b) := ix_remove k t in Done (with_state (SBTree t) x, b)
  end.

#[export] Instance adaptive_backend : IndexBackend AdaptiveIndex := {
  ix_insert := adaptive_insert;
  ix_lookup k x := match state x with SArray arr => ix_lookup k arr | SBTree t => ix_lookup k t end;
  ix_remove := adaptive_remove;
  ix_range lo hi x := match state x with SArray arr => ix_range lo hi arr | SBTree t => ix_range lo hi t end;
  ix_len := adaptive_len
}.

(** ** The discrete index *)

Record DiscreteIndex : Type := { buckets : gmap Z AdaptiveIndex; di_threshold : Z; total_count : Z }.

Definition discrete_with_threshold (threshold : Z) : DiscreteIndex :=
  {| buckets := ∅; di_threshold := threshold; total_count := 0 |}.

Definition discrete_new : DiscreteIndex := discrete_with_threshold DEFAULT_MAX_NON_UNIQUE_ELEMENTS.

Definition discrete_insert (bucket_key : Z) (sort_key : IndexKey) (a : AnchorKey) (d : DiscreteIndex) : StorageResult DiscreteIndex :=
  let* bucket := ix_insert sort_key a (default (with_threshold (di_threshold d)) (buckets d !! bucket_key)) in
  Done {| buckets := <[bucket_key := bucket]> (buckets d); di_threshold := di_threshold d; total_count := total_count d + 1 |}.

Definition lookup_bucket (bucket_key : Z) (d : DiscreteIndex) : StorageResult IndexEntries :=
  match buckets d !! bucket_key with Some b => ix_all_sorted b | None => Done [] end.

Definition discrete_lookup (bucket_key : Z) (sort_key : IndexKey) (d : DiscreteIndex) : StorageResult (option AnchorKey) :=
  match buckets d !! bucket_key with Some b => ix_lookup sort_key b | None => Done None end.

Definition discrete_remove (bucket_key : Z) (sort_key : IndexKey) (d : DiscreteIndex) : StorageResult (DiscreteIndex * bool) :=
  match buckets d !! bucket_key with
  | Some b =>
    let* (b, removed) := ix_remove sort_key b in
    let bs := <[bucket_key := b]> (buckets d) in
    if removed then
      let* n := usub (total_count d) 1 in
      Done ({| buckets := bs; di_threshold := di_threshold d; total_count := n |}, true)
    else Done ({| buckets := bs; di_threshold := di_threshold d; total_count := total_count d |}, false)
  | None => Done (d, false)
  end.

Definition bucket_count (d : DiscreteIndex) : Z := Z.of_nat (size (buckets d)).
