(* ===== verification/IndexOk.v ===== *)
(** * The indexes are finite maps

    Each backend meets one interface: as long as keys are inserted once, it is a
    map from keys to anchors.  The tree is proved over the tree its arena spells;
    the adaptive and the discrete index follow from their parts. *)
From stdpp Require Import sorting.
From S2P Require Import Prelude Ordered Errors Anchor SlotPage SlotPageOk Index.

Abbreviation KeyMap := (gmap Z AnchorKey).

(** The entries of a map in the order of the keys. *)
Definition entries_of (m : KeyMap) : IndexEntries := ordered Z.leb m.

(** What a backend promises about the map it holds. *)
Class IndexLaws (B : Type) `{IndexBackend B} : Type := {
  ix_holds : B -> KeyMap -> Prop;
  insert_law b m k a : ix_holds b m -> m !! k = None -> fits 64 k ->
    exists b', ix_insert k a b = Done b' /\ ix_holds b' (<[k := a]> m);
  lookup_law b m k : ix_holds b m -> fits 64 k -> ix_lookup k b = Done (m !! k);
  remove_law b m k : ix_holds b m -> fits 64 k ->
    exists b', ix_remove k b = Done (b', bool_decide (is_Some (m !! k))) /\ ix_holds b' (delete k m);
  range_law b m lo hi : ix_holds b m -> ix_range lo hi b = Done (in_range lo hi (entries_of m));
  len_law b m : ix_holds b m -> ix_len b = Z.of_nat (size m)
}.

(** ** Sorted entries *)

Definition sorted_entries (es : IndexEntries) : Prop := StronglySorted Z.lt (map fst es).

Definition map_of (es : IndexEntries) : KeyMap := list_to_map es.

Lemma sorted_keys_nodup es : sorted_entries es -> NoDup (map fst es).
Proof. apply sorted_nodup. Qed.

Lemma placed_spec k a es : sorted_entries es -> map_of es !! k = None ->
  sorted_entries (place k a es) /\ map_of (place k a es) = <[k := a]> (map_of es) /\ length (place k a es) = S (length es).
Proof.
  intros Hs Hk. destruct (search_place es k Hs) as (l1 & mid & l2 & Hp & Hf).
  assert (mid = []) as ->.
  { destruct (po_mid _ _ _ _ _ Hp) as [->|[e ->]]; [done|]. exfalso. apply not_elem_of_list_to_map_2 in Hk. apply Hk.
    rewrite (po_split _ _ _ _ _ Hp), !map_app. apply elem_of_app. right. by left. }
  assert (place k a es = l1 ++ [(k, a)] ++ l2) as ->.
  { unfold place. rewrite Hf, (po_split _ _ _ _ _ Hp). cbn [app]. by rewrite take_app_length, drop_app_length. }
  split; [eapply place_sorted; [exact Hs|exact Hp|right; by exists a]|]. split.
  - apply map_eq. intros j. unfold map_of. rewrite (place_lookup es k l1 [] l2) by (done || right; by exists a).
    case_decide as Hj; [subst j; by rewrite lookup_insert_eq|by rewrite lookup_insert_ne].
  - rewrite (po_split _ _ _ _ _ Hp), !length_app. cbn [length]. lia.
Qed.

Lemma place_elem k a es e : e ∈ place k a es -> e ∈ es \/ e.1 = k.
Proof.
  unfold place. set (pos := match binary_search (map fst es) k with inl i => i | inr i => i end).
  rewrite elem_of_app, elem_of_cons. intros [H|[->|H]]; [left|by right|left];
    rewrite <- (take_drop pos es); apply elem_of_app; [by left|by right].
Qed.

Lemma find_entry_spec k es : sorted_entries es -> find_entry k es = map_of es !! k.
Proof.
  intros Hs. destruct (search_place es k Hs) as (l1 & mid & l2 & Hp & Hf). unfold find_entry, map_of. rewrite Hf.
  rewrite (po_split _ _ _ _ _ Hp), (place_lookup _ k l1 mid l2 mid k) by first [by rewrite <- (po_split _ _ _ _ _ Hp)|apply Hp].
  rewrite decide_True by done. destruct (po_mid _ _ _ _ _ Hp) as [->|[e ->]]; [done|]. cbn [app]. by rewrite list_lookup_middle.
Qed.

Lemma unplace_spec k es : sorted_entries es ->
  exists es', unplace k es = (es', bool_decide (is_Some (map_of es !! k))) /\ sorted_entries es' /\ map_of es' = delete k (map_of es) /\
    zlen es' = zlen es - (if bool_decide (is_Some (map_of es !! k)) then 1 else 0) /\ forall e, e ∈ es' -> e ∈ es.
Proof.
  intros Hs. destruct (search_place es k Hs) as (l1 & mid & l2 & Hp & Hf).
  pose proof (place_lookup es k l1 mid l2 mid k Hp (po_mid _ _ _ _ _ Hp)) as Hl. rewrite <- (po_split _ _ _ _ _ Hp), decide_True in Hl by done.
  exists (l1 ++ [] ++ l2). split; [|split; [|split; [|split]]].
  - unfold unplace, map_of. rewrite Hf, Hl. destruct (po_mid _ _ _ _ _ Hp) as [E|[e E]]; subst mid.
    + cbn. by rewrite (po_split _ _ _ _ _ Hp).
    + rewrite bool_decide_true by by eexists. f_equal. rewrite (po_split _ _ _ _ _ Hp). cbn [app].
      rewrite take_app_length. f_equal. change (l1 ++ (k, e) :: l2) with (l1 ++ [(k, e)] ++ l2).
      rewrite (assoc_L (++)), drop_app_length'; [done|]. rewrite length_app. cbn [length]. lia.
  - eapply place_sorted; [exact Hs|exact Hp|by left].
  - apply map_eq. intros j. unfold map_of. rewrite (place_lookup es k l1 mid l2 [] j Hp) by by left.
    case_decide as Hj; [subst j; by rewrite lookup_delete_eq|by rewrite lookup_delete_ne].
  - unfold map_of. rewrite Hl, (po_split _ _ _ _ _ Hp). unfold zlen. destruct (po_mid _ _ _ _ _ Hp) as [->|[e ->]]; cbn [head fmap option_fmap option_map].
    + rewrite bool_decide_false by (by intros []). cbn [app]. lia.
    + rewrite bool_decide_true by by eexists. rewrite !length_app. cbn [length]. lia.
  - intros e He. rewrite (po_split _ _ _ _ _ Hp). set_solver.
Qed.

(** Sorted entries are those of their map. *)
Lemma entries_of_map es : sorted_entries es -> entries_of (map_of es) = es.
Proof.
  intros Hs. pose proof (sorted_keys_nodup es Hs) as Hn. unfold entries_of, map_of.
  apply (StronglySorted_unique_strong (fun x y : Z * AnchorKey => (x.1 <=? y.1) = true)).
  - intros [k1 a1] [k2 a2] H1 H2 L1 L2. cbn [fst] in L1, L2. assert (k1 = k2) as -> by lia. f_equal.
    apply elem_of_ordered in H1. apply (elem_of_list_to_map_1 es k2 a2 Hn) in H2. congruence.
  - apply ordered_sorted; intros; lia.
  - unfold sorted_entries in Hs. clear Hn. induction es as [|e es IH]; [constructor|]. cbn [map] in Hs. inversion Hs as [|? ? Hs' Hf]; subst.
    constructor; [by apply IH|]. apply (proj1 (Forall_fmap _ _ _)) in Hf. eapply Forall_impl; [exact Hf|]. intros x Hx. apply Z.leb_le, Z.lt_le_incl, Hx.
  - rewrite ordered_perm. by rewrite map_to_list_to_map.
Qed.

Lemma size_map_of es : sorted_entries es -> size (map_of es) = length es.
Proof. intros Hs. unfold map_of. by rewrite <- length_map_to_list, map_to_list_to_map by by apply sorted_keys_nodup. Qed.

(** ** The array *)

Definition array_holds (b : ArrayIndex) (m : KeyMap) : Prop := sorted_entries (ai_entries b) /\ map_of (ai_entries b) = m.

#[export] Instance array_laws : IndexLaws ArrayIndex.
Proof.
  refine {| ix_holds := array_holds |}; cbn [ix_insert ix_lookup ix_remove ix_range ix_len array_backend].
  - intros b m k a [Hs <-] Hk _. destruct (placed_spec k a _ Hs Hk) as (H1 & H2 & _). eexists. split; [done|]. by split.
  - intros b m k [Hs <-] _. by rewrite find_entry_spec.
  - intros b m k [Hs <-] _. destruct (unplace_spec k _ Hs) as (es' & E & H1 & H2 & _). rewrite E. eexists. split; [done|]. by split.
  - intros b m lo hi [Hs <-]. by rewrite entries_of_map.
  - intros b m [Hs <-]. by rewrite size_map_of.
Defined.

Lemma array_new_holds : array_holds array_new ∅.
Proof. split; [constructor|done]. Qed.

(** ** The tree an arena spells *)

Inductive tree : Type :=
  | TLeaf (i : nat) (es : IndexEntries)
  | TNode (i : nat) (keys : list IndexKey) (ts : list tree).

Section tree_induction.
Variable P : tree -> Prop.
Hypothesis Hleaf : forall i es, P (TLeaf i es).
Hypothesis Hnode : forall i keys ts, Forall P ts -> P (TNode i keys ts).

Fixpoint tree_induction (t : tree) : P t :=
  match t with
  | TLeaf i es => Hleaf i es
  | TNode i keys ts => Hnode i keys ts
      ((fix all ts : Forall P ts := match ts with [] => Forall_nil_2 P | t :: ts => Forall_cons_2 P t ts (tree_induction t) (all ts) end) ts)
  end.
End tree_induction.

Definition root_of (t : tree) : nat := match t with TLeaf i _ | TNode i _ _ => i end.

Fixpoint ids (t : tree) : list nat :=
  match t with TLeaf i _ => [i] | TNode i _ ts => i :: concat (map ids ts) end.

Fixpoint contents (t : tree) : IndexEntries :=
  match t with TLeaf _ es => es | TNode _ _ ts => concat (map contents ts) end.

Fixpoint height (t : tree) : nat :=
  match t with TLeaf _ _ => 1 | TNode _ _ ts => S (foldr (fun t h => Nat.max (height t) h) 0%nat ts) end.

(** The arena has the nodes of the tree at their places. *)
Fixpoint spells (ns : list BTreeNode) (t : tree) : Prop :=
  match t with
  | TLeaf i es => ns !! i = Some (Leaf es)
  | TNode i keys ts => ns !! i = Some (Internal keys (map root_of ts)) /\ foldr (fun t P => spells ns t /\ P) True ts
  end.

(** The child a key goes to. *)
Section children.
Context {X : Type} (f : tree -> X) (d : X) (key : IndexKey).
Fixpoint routed (keys : list IndexKey) (ts : list tree) {struct ts} : X :=
  match ts with
  | [] => d
  | t :: ts => match keys with k :: keys => if k <=? key then routed keys ts else f t | [] => f t end
  end.
End children.

Section update.
Context (f : tree -> tree) (key : IndexKey).
Fixpoint at_routed (keys : list IndexKey) (ts : list tree) {struct ts} : list tree :=
  match ts with
  | [] => []
  | t :: ts => match keys with k :: keys => if k <=? key then t :: at_routed keys ts else f t :: ts | [] => f t :: ts end
  end.
End update.

(** Children between the separators. *)
Section between.
Context (P : Z -> Z -> tree -> Prop) (hi : Z).
Fixpoint between (lo : Z) (keys : list IndexKey) (ts : list tree) {struct ts} : Prop :=
  match ts with
  | [] => False
  | t :: ts =>
    match keys with
    | [] => ts = [] /\ lo <= hi /\ P lo hi t
    | k :: keys => lo <= k /\ P lo k t /\ between k keys ts
    end
  end.
End between.

(** Search order: every key of the tree in [lo .. hi). *)
Fixpoint within (lo hi : Z) (t : tree) : Prop :=
  match t with
  | TLeaf _ es => sorted_entries es /\ Forall (fun e => lo <= e.1 < hi) es
  | TNode _ keys ts => between (fun lo hi t => within lo hi t) hi lo keys ts
  end.

Fixpoint leaf_of (key : IndexKey) (t : tree) : nat * IndexEntries :=
  match t with TLeaf i es => (i, es) | TNode _ keys ts => routed (leaf_of key) (O, []) key keys ts end.

Fixpoint set_leaf (key : IndexKey) (es : IndexEntries) (t : tree) : tree :=
  match t with TLeaf i _ => TLeaf i es | TNode i keys ts => TNode i keys (at_routed (set_leaf key es) key keys ts) end.

Lemma spells_node ns i keys ts : spells ns (TNode i keys ts) <-> ns !! i = Some (Internal keys (map root_of ts)) /\ Forall (spells ns) ts.
Proof.
  cbn [spells]. assert (foldr (fun t P => spells ns t /\ P) True ts <-> Forall (spells ns) ts) as ->; [|done].
  induction ts as [|t ts IH]; cbn [foldr]; [split; [by constructor|done]|]. by rewrite Forall_cons, IH.
Qed.

(** *** Descending *)

Lemma between_route (P : Z -> Z -> tree -> Prop) hi key ts : forall lo keys, between P hi lo keys ts ->
  length ts = S (length keys) /\ (route_point key keys <= length keys)%nat.
Proof.
  induction ts as [|t ts IH]; intros lo keys H; [done|]. destruct keys as [|k keys]; cbn [between] in H.
  - destruct H as [-> _]. done.
  - destruct H as (_ & _ & H). destruct (IH k keys H) as [E Hr]. cbn [length route_point]. split; [lia|]. destruct (k <=? key); lia.
Qed.

Lemma routed_lookup {X} (f : tree -> X) d key P hi ts : forall lo keys, between P hi lo keys ts ->
  exists t lo' hi', ts !! route_point key keys = Some t /\ routed f d key keys ts = f t /\ P lo' hi' t /\
    (lo <= key < hi -> lo' <= key < hi').
Proof.
  induction ts as [|t ts IH]; intros lo keys H; [done|]. destruct keys as [|k keys]; cbn [between] in H.
  - destruct H as (-> & _ & H). exists t, lo, hi. done.
  - destruct H as (Hk & Ht & H). cbn [route_point routed]. destruct (Z.leb_spec k key) as [Hle|Hlt].
    + destruct (IH k keys H) as (t' & lo' & hi' & E1 & E2 & H1 & H2). exists t', lo', hi'. cbn [lookup list_lookup].
      split; [done|]. split; [done|]. split; [done|]. intros. apply H2. lia.
    + exists t, lo, k. split; [done|]. split; [done|]. split; [done|]. lia.
Qed.

Lemma find_leaf_spec ns key : forall t lo hi, spells ns t -> within lo hi t -> forall fuel, (height t <= fuel)%nat ->
  find_leaf fuel ns (root_of t) key = Done (leaf_of key t).1 /\ ns !! (leaf_of key t).1 = Some (Leaf (leaf_of key t).2).
Proof.
  induction t as [i es|i keys ts IH] using tree_induction; intros lo hi Hs Hw [|fuel] Hf; cbn [height] in Hf; try lia.
  - cbn [spells] in Hs. cbn [find_leaf root_of leaf_of fst snd]. by rewrite Hs.
  - apply spells_node in Hs as [Hi Hs]. cbn [within] in Hw. cbn [find_leaf root_of]. rewrite Hi.
    destruct (between_route _ hi key ts lo keys Hw) as [El Hr]. rewrite length_map, El.
    replace (Nat.min _ _) with (route_point key keys) by lia.
    destruct (routed_lookup (leaf_of key) (O, []) key _ hi ts lo keys Hw) as (t & lo' & hi' & Et & E & Hw' & _).
    rewrite list_lookup_fmap, Et. cbn [fmap option_fmap option_map leaf_of]. rewrite E.
    rewrite Forall_forall in IH, Hs. pose proof (list_elem_of_lookup_2 _ _ _ Et) as Hin.
    apply (IH t Hin lo' hi' (Hs t Hin) Hw'). assert (height t <= foldr (fun t h => Nat.max (height t) h) 0 ts)%nat; [|lia].
    clear -Hin. induction ts as [|t' ts IH]; [by apply not_elem_of_nil in Hin|]. cbn [foldr].
    apply elem_of_cons in Hin as [->|Hin]; [lia|]. specialize (IH Hin). lia.
Qed.

(** *** Contents in order *)

Lemma within_bounds t : forall lo hi, within lo hi t -> Forall (fun e => lo <= e.1 < hi) (contents t).
Proof.
  induction t as [i es|i keys ts IH] using tree_induction; intros lo hi Hw; [apply Hw|]. cbn [within contents] in *.
  assert (forall lo keys, between within hi lo keys ts -> lo <= hi /\ Forall (fun e => lo <= e.1 < hi) (concat (map contents ts))) as H; [|by apply (H lo keys)].
  clear Hw lo keys. induction IH as [|t ts Ht _ IHts]; intros lo keys Hw; [done|].
  destruct keys as [|k keys]; cbn [between map concat] in *.
  - destruct Hw as (-> & Hlo & Hw). cbn [map concat]. rewrite app_nil_r. split; [done|by apply Ht].
  - destruct Hw as (Hk & Hw & Hrest). destruct (IHts k keys Hrest) as [Hkh Hf]. split; [lia|]. apply Forall_app. split.
    + eapply Forall_impl; [by apply Ht|]. intros e He. cbn in He. lia.
    + eapply Forall_impl; [exact Hf|]. intros e He. cbn in He. lia.
Qed.

Lemma between_bounds hi lo keys ts : between within hi lo keys ts -> lo <= hi /\ Forall (fun e => lo <= e.1 < hi) (concat (map contents ts)).
Proof.
  intros Hw. split; [|exact (within_bounds (TNode 0 keys ts) lo hi Hw)].
  revert lo keys Hw. induction ts as [|t ts IH]; intros lo keys Hw; [done|].
  destruct keys as [|k keys]; cbn [between] in Hw; [by destruct Hw as (_ & ? & _)|]. destruct Hw as (Hk & _ & Hw). specialize (IH k keys Hw). lia.
Qed.

Lemma sorted_app l1 l2 mid : sorted_entries l1 -> sorted_entries l2 -> Forall (fun e => e.1 < mid) l1 -> Forall (fun e => mid <= e.1) l2 ->
  sorted_entries (l1 ++ l2).
Proof.
  intros H1 H2 F1 F2. unfold sorted_entries. rewrite map_app. apply StronglySorted_app. split; [|done].
  intros x y (e1 & -> & I1)%list_elem_of_fmap (e2 & -> & I2)%list_elem_of_fmap. rewrite Forall_forall in F1, F2.
  specialize (F1 _ I1). specialize (F2 _ I2). cbn in *. lia.
Qed.

Lemma within_sorted t : forall lo hi, within lo hi t -> sorted_entries (contents t).
Proof.
  induction t as [i es|i keys ts IH] using tree_induction; intros lo hi Hw; [apply Hw|]. cbn [within contents] in *.
  revert lo keys Hw. induction IH as [|t ts Ht _ IHts]; intros lo keys Hw; [done|].
  destruct keys as [|k keys]; cbn [between map concat] in *.
  - destruct Hw as (-> & _ & Hw). cbn [map concat]. rewrite app_nil_r. by eapply Ht.
  - destruct Hw as (Hk & Hw & Hrest). destruct (between_bounds _ _ _ _ Hrest) as [_ Hf].
    apply (sorted_app _ _ k); [by eapply Ht|by eapply IHts|..].
    + eapply Forall_impl; [by apply (within_bounds t lo k)|]. intros e He. cbn in He. lia.
    + eapply Forall_impl; [exact Hf|]. intros e He. cbn in He. lia.
Qed.

(** *** The leaf of a key *)

(** The contents around a leaf, and what may take its place. *)
Record leaf_at (key lo hi : Z) (t : tree) (l1 l2 : IndexEntries) (lo' hi' : Z) : Prop := {
  la_contents : contents t = l1 ++ (leaf_of key t).2 ++ l2;
  la_set : forall es, contents (set_leaf key es t) = l1 ++ es ++ l2;
  la_below : Forall (fun e => e.1 < key) l1;
  la_above : Forall (fun e => key < e.1) l2;
  la_sorted : sorted_entries (leaf_of key t).2;
  la_in : Forall (fun e => lo' <= e.1 < hi') (leaf_of key t).2;
  la_key : lo' <= key < hi';
  la_within : forall es, sorted_entries es -> Forall (fun e => lo' <= e.1 < hi') es -> within lo hi (set_leaf key es t)
}.

Lemma leaf_split key t : forall lo hi, within lo hi t -> lo <= key < hi -> exists l1 l2 lo' hi', leaf_at key lo hi t l1 l2 lo' hi'.
Proof.
  induction t as [i es|i keys ts IH] using tree_induction; intros lo hi Hw Hkey.
  - exists [], [], lo, hi. destruct Hw as [Hs Hf]. constructor; cbn; try done; try (intros; by rewrite app_nil_r); by rewrite app_nil_r.
  - assert (exists l1 l2 lo' hi', leaf_at key lo hi (TNode i keys ts) l1 l2 lo' hi') as H; [|exact H]. cbn [within] in Hw.
    revert lo keys Hw Hkey. induction IH as [|t ts Ht _ IHts]; intros lo keys Hw Hkey; [done|].
    assert (forall hi1 keys', within lo hi1 t -> lo <= key < hi1 -> routed (leaf_of key) (0%nat, []) key keys' (t :: ts) = leaf_of key t ->
      (forall es, at_routed (set_leaf key es) key keys' (t :: ts) = set_leaf key es t :: ts) ->
      Forall (fun e => key < e.1) (concat (map contents ts)) ->
      (forall t', within lo hi1 t' -> between within hi lo keys' (t' :: ts)) ->
      exists l1 l2 lo' hi', leaf_at key lo hi (TNode i keys' (t :: ts)) l1 l2 lo' hi') as Hhere.
    { intros hi1 keys' Hw1 Hk1 Er Eu Hab Hb. destruct (Ht lo hi1 Hw1 Hk1) as (l1 & l2 & lo' & hi' & [H1 H2 H3 H4 H5 H6 H7 H8]).
      exists l1, (l2 ++ concat (map contents ts)), lo', hi'.
      constructor; cbn [contents leaf_of set_leaf map concat within]; rewrite ?Er.
      - rewrite H1. by rewrite <- !(assoc_L (++)).
      - intros es. rewrite Eu. cbn [map concat]. rewrite H2. by rewrite <- !(assoc_L (++)).
      - done.
      - by apply Forall_app.
      - done.
      - done.
      - done.
      - intros es Hes Hf. rewrite Eu. by apply Hb, H8. }
    destruct keys as [|k keys]; cbn [between] in Hw.
    + destruct Hw as (-> & Hlo & Hw). apply (Hhere hi []); done.
    + destruct Hw as (Hk & Hw & Hrest). destruct (Z.leb_spec k key) as [Hle|Hlt].
      * destruct (IHts k keys Hrest ltac:(lia)) as (l1 & l2 & lo' & hi' & [H1 H2 H3 H4 H5 H6 H7 H8]).
        cbn [contents leaf_of set_leaf within] in *.
        exists (contents t ++ l1), l2, lo', hi'. constructor; cbn [contents leaf_of set_leaf map concat routed at_routed within];
          rewrite ?(proj2 (Z.leb_le k key)) by done; try done.
        -- rewrite H1. by rewrite <- !(assoc_L (++)).
        -- intros es. cbn [map concat]. rewrite H2. by rewrite <- !(assoc_L (++)).
        -- apply Forall_app. split; [|done]. eapply Forall_impl; [by apply (within_bounds t lo k)|]. intros e He. cbn in He. lia.
        -- intros es Hes Hf. cbn [between]. split; [done|]. split; [done|]. by apply H8.
      * apply (Hhere k (k :: keys)); try done; try lia.
        -- cbn [routed]. by rewrite (proj2 (Z.leb_gt k key)).
        -- intros es. cbn [at_routed]. by rewrite (proj2 (Z.leb_gt k key)).
        -- destruct (between_bounds _ _ _ _ Hrest) as [_ Hf]. eapply Forall_impl; [exact Hf|]. intros e He. cbn in He. lia.
Qed.

(** *** Changing a leaf of the arena *)

Lemma spells_other ns i x t : i ∉ ids t -> spells ns t -> spells (<[i := x]> ns) t.
Proof.
  induction t as [j es|j keys ts IH] using tree_induction; intros Hi Hs.
  - cbn [ids spells] in *. rewrite list_lookup_insert_ne; [done|]. intros ->. apply Hi. by left.
  - apply spells_node in Hs as [Hj Hs]. cbn [ids] in Hi. apply spells_node. split.
    + rewrite list_lookup_insert_ne; [done|]. intros ->. apply Hi. by left.
    + rewrite Forall_forall in *. intros t Ht. apply IH; [done| |by apply Hs]. intros Hin. apply Hi. right.
      apply list_elem_of_In, in_concat. exists (ids t). split; [by apply in_map, list_elem_of_In|by apply list_elem_of_In].
Qed.

Lemma leaf_of_ids key t : forall lo hi, within lo hi t -> (leaf_of key t).1 ∈ ids t.
Proof.
  induction t as [j es|j keys ts IH] using tree_induction; intros lo hi Hw; [by left|]. cbn [within ids leaf_of] in *. right.
  destruct (routed_lookup (leaf_of key) (O, []) key _ hi ts lo keys Hw) as (t & lo' & hi' & Et & -> & Hw' & _).
  apply list_elem_of_lookup_2 in Et. rewrite Forall_forall in IH. apply list_elem_of_In, in_concat. exists (ids t).
  split; [by apply in_map, list_elem_of_In|]. by eapply list_elem_of_In, IH.
Qed.

Lemma leaf_in_children key hi lo keys ts : between within hi lo keys ts -> (routed (leaf_of key) (0%nat, []) key keys ts).1 ∈ concat (map ids ts).
Proof.
  intros Hw. destruct (routed_lookup (leaf_of key) (O, []) key _ hi ts lo keys Hw) as (t & lo' & hi' & Et & -> & Hw' & _).
  apply list_elem_of_lookup_2 in Et. apply list_elem_of_In, in_concat. exists (ids t).
  split; [by apply in_map, list_elem_of_In|]. by eapply list_elem_of_In, leaf_of_ids.
Qed.

(** What a tree keeps when a leaf changes. *)
Lemma set_leaf_same key es t : root_of (set_leaf key es t) = root_of t /\ ids (set_leaf key es t) = ids t.
Proof.
  induction t as [j es'|j keys ts IH] using tree_induction; [done|]. split; [done|]. cbn [set_leaf ids]. do 2 f_equal.
  revert keys. induction IH as [|t ts [_ Ht] _ IHts]; intros keys; [done|]. cbn [at_routed]. destruct keys as [|k keys].
  - cbn [map]. by rewrite Ht.
  - destruct (k <=? key); cbn [map]; [by rewrite IHts|by rewrite Ht].
Qed.

Lemma set_leaf_spells key es ns t : forall lo hi, within lo hi t -> NoDup (ids t) -> spells ns t ->
  spells (<[(leaf_of key t).1 := Leaf es]> ns) (set_leaf key es t).
Proof.
  induction t as [j es'|j keys ts IH] using tree_induction; intros lo hi Hw Hn Hs.
  - cbn [leaf_of set_leaf spells fst] in *. rewrite list_lookup_insert_eq; [done|]. by eapply lookup_lt_Some.
  - apply spells_node in Hs as [Hj Hs]. cbn [ids] in Hn. apply NoDup_cons in Hn as [Hjn Hn]. cbn [within leaf_of] in *.
    pose proof (leaf_in_children key hi lo keys ts Hw) as Hin.
    cbn [set_leaf]. apply spells_node. split.
    + rewrite list_lookup_insert_ne by (intros E; by rewrite E in Hin). rewrite Hj. do 2 f_equal.
      clear. revert keys. induction ts as [|t ts IH]; intros keys; [done|]. cbn [at_routed]. destruct keys as [|k keys].
      * cbn [map]. by rewrite (proj1 (set_leaf_same key es t)).
      * destruct (k <=? key); cbn [map]; [by rewrite <- IH|by rewrite (proj1 (set_leaf_same key es t))].
    + clear Hj Hjn Hin. revert lo keys Hw. induction IH as [|t ts Ht _ IHts]; intros lo keys Hw; [done|].
      cbn [map concat] in Hn. apply NoDup_app in Hn as (Hnt & Hdis & Hn). apply Forall_cons in Hs as [Hst Hs].
      assert (forall i x, i ∈ ids t -> Forall (spells (<[i := x]> ns)) ts) as Hothers.
      { intros i x Hi. rewrite Forall_forall in *. intros t' Ht'. apply spells_other; [|by apply Hs]. intros Hi'. apply (Hdis i Hi).
        apply list_elem_of_In, in_concat. exists (ids t'). split; [by apply in_map, list_elem_of_In|by apply list_elem_of_In]. }
      destruct keys as [|k keys]; cbn [between routed at_routed] in *.
      * destruct Hw as (-> & _ & Hw). constructor; [by eapply Ht|done].
      * destruct Hw as (_ & Hw & Hrest). destruct (k <=? key).
        -- constructor; [|by eapply IHts]. apply spells_other; [|done]. intros Hi. apply (Hdis _ Hi).
           exact (leaf_in_children key hi k keys ts Hrest).
        -- constructor; [by eapply Ht|]. apply Hothers. by eapply leaf_of_ids.
Qed.

Lemma height_ids t : (height t <= length (ids t))%nat.
Proof.
  induction t as [j es|j keys ts IH] using tree_induction; [done|]. cbn [height ids length]. apply le_n_S.
  induction IH as [|t ts Ht _ IHts]; [done|]. cbn [foldr map concat]. rewrite length_app. lia.
Qed.

Lemma spells_bound ns t : spells ns t -> Forall (fun i => (i < length ns)%nat) (ids t).
Proof.
  induction t as [j es|j keys ts IH] using tree_induction; intros Hs.
  - cbn [spells ids] in *. apply Forall_singleton. by eapply lookup_lt_Some.
  - apply spells_node in Hs as [Hj Hs]. cbn [ids]. constructor; [by eapply lookup_lt_Some|]. clear Hj.
    induction IH as [|t ts Ht _ IHts]; [done|]. apply Forall_cons in Hs as [Hst Hs]. cbn [map concat]. apply Forall_app. split; [by apply Ht|by apply IHts].
Qed.

Lemma height_arena ns t : spells ns t -> NoDup (ids t) -> (height t <= length ns)%nat.
Proof.
  intros Hs Hn. transitivity (length (ids t)); [apply height_ids|]. rewrite <- (length_seq (length ns) 0).
  apply submseteq_length, NoDup_submseteq; [done|]. intros i Hi. pose proof (spells_bound ns t Hs) as Hb. rewrite Forall_forall in Hb.
  apply elem_of_seq. specialize (Hb i Hi). lia.
Qed.

(** Collecting in order gives the contents. *)
Lemma collect_spec ns t : spells ns t -> forall fuel out, (height t <= fuel)%nat ->
  collect_node fuel ns (root_of t) out = Done (out ++ contents t).
Proof.
  induction t as [j es|j keys ts IH] using tree_induction; intros Hs [|fuel] out Hf; cbn [height] in Hf; try lia.
  - cbn [spells collect_node root_of contents] in *. by rewrite Hs.
  - apply spells_node in Hs as [Hj Hs]. cbn [collect_node root_of contents]. rewrite Hj.
    assert (foldr (fun t h => Nat.max (height t) h) 0 ts <= fuel)%nat as Hf' by lia. clear Hj Hf. revert out.
    induction IH as [|t ts Ht _ IHts]; intros out; cbn [map ofold concat]; [by rewrite app_nil_r|].
    apply Forall_cons in Hs as [Hst Hs]. cbn [foldr] in Hf'. rewrite (Ht Hst) by lia. cbn [obind].
    rewrite (IHts Hs) by lia. by rewrite <- (assoc_L (++)).
Qed.

(** ** The B+ tree is a map *)

Definition KEY_END : Z := 2 ^ 64.

Record tree_of (b : BTreeIndex) (t : tree) : Prop := {
  to_root : root b = root_of t;
  to_spells : spells (nodes b) t;
  to_ids : NoDup (ids t);
  to_within : within 0 KEY_END t;
  to_count : count b = zlen (contents t)
}.

Definition tree_holds (b : BTreeIndex) (m : KeyMap) : Prop := exists t, tree_of b t /\ map_of (contents t) = m.

(** The leaf of a key, its surroundings, and a new leaf in its place. *)
Lemma tree_leaf b t key : tree_of b t -> fits 64 key -> exists i es l1 l2,
  leaf_for key b = Done (i, es) /\ contents t = l1 ++ es ++ l2 /\ sorted_entries es /\
  map_of l1 !! key = None /\ map_of l2 !! key = None /\
  forall es' n, sorted_entries es' -> (forall e, e ∈ es' -> e ∈ es \/ e.1 = key) -> n = zlen (l1 ++ es' ++ l2) ->
    exists t', tree_of {| nodes := <[i := Leaf es']> (nodes b); root := root b; count := n |} t' /\ contents t' = l1 ++ es' ++ l2.
Proof.
  intros [Hr Hs Hn Hw Hc] Hk. destruct (leaf_split key t 0 KEY_END Hw Hk) as (l1 & l2 & lo & hi & [H1 H2 H3 H4 H5 H6 H7 H8]).
  destruct (find_leaf_spec (nodes b) key t 0 KEY_END Hs Hw (length (nodes b)) (height_arena _ _ Hs Hn)) as [Ef El].
  exists (leaf_of key t).1, (leaf_of key t).2, l1, l2. split.
  { unfold leaf_for. rewrite Hr, Ef. cbn [obind]. by rewrite El. }
  split; [done|]. split; [done|]. split; [|split].
  - apply not_elem_of_list_to_map_1. intros (e & Ee & He)%list_elem_of_fmap. rewrite Forall_forall in H3. specialize (H3 _ He). lia.
  - apply not_elem_of_list_to_map_1. intros (e & Ee & He)%list_elem_of_fmap. rewrite Forall_forall in H4. specialize (H4 _ He). lia.
  - intros es' n Hes Hin ->. exists (set_leaf key es' t). split; [|by rewrite H2]. destruct (set_leaf_same key es' t) as [E1 E2].
    constructor; cbn [root nodes count]; [congruence|by eapply set_leaf_spells|by rewrite E2| |by rewrite H2].
    apply H8; [done|]. rewrite Forall_forall in *. intros e He. destruct (Hin e He) as [He'| ->]; [by apply H6|done].
Qed.

Lemma map_of_app l1 es l2 : map_of (l1 ++ es ++ l2) = map_of l1 ∪ (map_of es ∪ map_of l2).
Proof. unfold map_of. by rewrite !list_to_map_app. Qed.

Lemma map_of_leaf l1 es l2 key : map_of l1 !! key = None -> map_of l2 !! key = None ->
  map_of (l1 ++ es ++ l2) !! key = map_of es !! key.
Proof. intros H1 H2. rewrite map_of_app, lookup_union_r by done. destruct (map_of es !! key) eqn:E; [by apply lookup_union_Some_l|by rewrite lookup_union_r]. Qed.

#[export] Instance btree_laws : IndexLaws BTreeIndex.
Proof.
  refine {| ix_holds := tree_holds |}; cbn [ix_insert ix_lookup ix_remove ix_range ix_len btree_backend].
  - intros b m k a (t & Ht & <-) Hk Hf. destruct (tree_leaf b t k Ht Hf) as (i & es & l1 & l2 & E & Ec & Hs & H1 & H2 & Hset).
    rewrite Ec, map_of_leaf in Hk by done. destruct (placed_spec k a es Hs Hk) as (Hs' & Em & El).
    destruct (Hset (place k a es) (count b + 1) Hs') as (t' & Ht' & Ec').
    { intros e He. by apply place_elem in He. }
    { rewrite (to_count _ _ Ht), Ec. unfold zlen. rewrite !length_app, El. lia. }
    eexists. split; [unfold btree_insert; by rewrite E|]. exists t'. split; [done|]. rewrite Ec', Ec, !map_of_app, Em.
    by rewrite insert_union_r, insert_union_l by done.
  - intros b m k (t & Ht & <-) Hf. destruct (tree_leaf b t k Ht Hf) as (i & es & l1 & l2 & E & Ec & Hs & H1 & H2 & _).
    rewrite E. cbn [obind]. by rewrite find_entry_spec, Ec, map_of_leaf.
  - intros b m k (t & Ht & <-) Hf. destruct (tree_leaf b t k Ht Hf) as (i & es & l1 & l2 & E & Ec & Hs & H1 & H2 & Hset).
    destruct (unplace_spec k es Hs) as (es' & Eu & Hs' & Em & El & Hin). rewrite Ec, map_of_leaf by done.
    unfold btree_remove. rewrite E. cbn [obind]. rewrite Eu. case_bool_decide as Hb.
    + assert (zlen (l1 ++ es' ++ l2) = count b - 1) as En.
      { rewrite (to_count _ _ Ht), Ec. unfold zlen in *. rewrite !length_app. lia. }
      destruct (Hset es' (count b - 1) Hs') as (t' & Ht' & Ec'); [by intros e He; left; apply Hin|done|].
      rewrite usub_done by (rewrite <- (Z.sub_add 1 (count b)), <- En; pose proof (zlen_nonneg (l1 ++ es' ++ l2)); lia).
      eexists. split; [done|]. exists t'. split; [done|]. rewrite Ec', !map_of_app, Em, !delete_union.
      by rewrite (delete_id (map_of l1)), (delete_id (map_of l2)).
    + exists b. split; [done|]. exists t. split; [done|]. rewrite Ec, delete_id; [done|]. rewrite map_of_leaf by done.
      by apply eq_None_not_Some.
  - intros b m lo hi (t & Ht & <-). unfold collect_all. rewrite (to_root _ _ Ht).
    rewrite (collect_spec _ _ (to_spells _ _ Ht)) by (apply height_arena; apply Ht). cbn [app obind].
    by rewrite (entries_of_map _ (within_sorted t 0 KEY_END (to_within _ _ Ht))).
  - intros b m (t & Ht & <-). rewrite (to_count _ _ Ht). unfold zlen. by rewrite (size_map_of _ (within_sorted t 0 KEY_END (to_within _ _ Ht))).
Defined.

(** ** Bulk loading *)

(** A tree as loading builds it: any bounds of its keys do, and its first key is
    found by descending on the left. *)
Record loaded (t : tree) : Prop := {
  ld_within : forall lo hi, lo <= hi -> Forall (fun e => lo <= e.1 < hi) (contents t) -> within lo hi t;
  ld_first : exists e, head (contents t) = Some e /\
    forall ns fuel, spells ns t -> (height t <= fuel)%nat -> first_key_of fuel ns (root_of t) = Done e.1
}.

Definition first_key (t : tree) : Z := match head (contents t) with Some e => e.1 | None => 0 end.

Lemma first_key_spec ns t : loaded t -> spells ns t -> NoDup (ids t) -> first_key_of (length ns) ns (root_of t) = Done (first_key t).
Proof.
  intros [_ (e & E & H)] Hs Hn. unfold first_key. rewrite E. by apply H, height_arena.
Qed.

Lemma leaf_loaded i es : sorted_entries es -> es <> [] -> loaded (TLeaf i es).
Proof.
  intros Hs Hne. split; [intros lo hi _ Hf; by split|]. destruct es as [|e es]; [done|]. exists e. split; [done|].
  intros ns [|fuel] Hsp Hf; cbn [height] in Hf; [lia|]. cbn [spells first_key_of root_of] in *. by rewrite Hsp.
Qed.

(** Children in order lie between their first keys. *)
Lemma between_first hi ts : forall t lo, lo <= hi -> Forall loaded (t :: ts) -> sorted_entries (concat (map contents (t :: ts))) ->
  Forall (fun e => lo <= e.1 < hi) (concat (map contents (t :: ts))) ->
  between within hi lo (map first_key ts) (t :: ts).
Proof.
  induction ts as [|t2 ts IH]; intros t lo Hlo Hl Hs Hf; apply Forall_cons in Hl as [Ht Hl].
  - cbn [map between concat] in *. rewrite app_nil_r in Hf. split; [done|]. split; [done|]. by apply ld_within.
  - assert (exists e, head (contents t2) = Some e /\ first_key t2 = e.1) as (e & He & Ee).
    { apply Forall_cons in Hl as [[_ (e & E & _)] _]. exists e. unfold first_key. by rewrite E. }
    cbn [map concat] in Hs, Hf. apply Forall_app in Hf as [Hf1 Hf2]. unfold sorted_entries in Hs. rewrite map_app in Hs.
    apply StronglySorted_app in Hs as (Hlt & Hs1 & Hs2).
    assert (e ∈ contents t2 ++ concat (map contents ts)) as Hin.
    { destruct (contents t2) as [|x l]; [done|]. injection He as ->. by left. }
    change (map first_key (t2 :: ts)) with (first_key t2 :: map first_key ts).
    assert (lo <= e.1 < hi) as Hb by (rewrite Forall_forall in Hf2; by apply (Hf2 e)).
    cbn [between]. rewrite Ee. split; [lia|]. split.
    + apply ld_within; [done|lia|]. rewrite Forall_forall in *. intros x Hx. specialize (Hf1 x Hx). split; [lia|].
      apply Hlt; apply list_elem_of_fmap; by eexists.
    + apply (IH t2 e.1); [lia|done|done|]. cbn [map concat]. rewrite Forall_forall in *. intros x Hx. specialize (Hf2 x Hx). split; [|lia].
      destruct (contents t2) as [|y l] eqn:El; [done|]. injection He as ->. unfold sorted_entries in Hs2. cbn [map] in Hs2.
      inversion Hs2 as [|? ? _ Hall]; subst. apply (proj1 (Forall_fmap _ _ _)) in Hall. rewrite Forall_forall in Hall.
      apply elem_of_cons in Hx as [->|Hx]; [lia|]. apply Z.lt_le_incl, (Hall x Hx).
Qed.

Lemma node_loaded i t ts : Forall loaded (t :: ts) -> sorted_entries (concat (map contents (t :: ts))) ->
  loaded (TNode i (map first_key ts) (t :: ts)).
Proof.
  intros Hl Hs. split.
  - intros lo hi Hlo Hf. cbn [within contents] in *. by apply between_first.
  - apply Forall_cons in Hl as [[_ (e & E & H)] _]. exists e. split.
    + cbn [contents map concat]. by destruct (contents t).
    + intros ns [|fuel] Hsp Hf; cbn [height] in Hf; [lia|]. apply spells_node in Hsp as [Hi Hsp]. apply Forall_cons in Hsp as [Hsp _].
      cbn [first_key_of root_of]. rewrite Hi. cbn [map]. apply H; [done|]. cbn [foldr] in Hf. lia.
Qed.

Lemma spells_more ns l t : spells ns t -> spells (ns ++ l) t.
Proof.
  induction t as [j es|j keys ts IH] using tree_induction; intros Hs.
  - cbn [spells] in *. by apply lookup_app_l_Some.
  - apply spells_node in Hs as [Hj Hs]. apply spells_node. split; [by apply lookup_app_l_Some|].
    rewrite Forall_forall in *. intros t Ht. by apply IH, Hs.
Qed.

(** A level: trees side by side in the arena. *)
Record level_ok (ns : list BTreeNode) (ts : list tree) (es : IndexEntries) : Prop := {
  lv_spells : Forall (spells ns) ts;
  lv_ids : NoDup (concat (map ids ts));
  lv_loaded : Forall loaded ts;
  lv_contents : concat (map contents ts) = es
}.

Lemma level_ids_bound ns ts : Forall (spells ns) ts -> length ns ∉ concat (map ids ts).
Proof.
  intros Hs Hin. apply list_elem_of_In, in_concat in Hin as (l & Hl & Hin). apply in_map_iff in Hl as (t & <- & Ht).
  rewrite Forall_forall in Hs. apply list_elem_of_In in Ht. pose proof (spells_bound ns t (Hs t Ht)) as Hb. rewrite Forall_forall in Hb.
  apply list_elem_of_In in Hin. specialize (Hb _ Hin). lia.
Qed.

Lemma first_keys_spec ns ts : Forall loaded ts -> Forall (spells ns) ts -> NoDup (concat (map ids ts)) ->
  omapM (first_key_of (length ns) ns) (map root_of ts) = Done (map first_key ts).
Proof.
  intros Hl Hs Hn. induction ts as [|t ts IH]; [done|]. apply Forall_cons in Hl as [Ht Hl]. apply Forall_cons in Hs as [Hst Hs].
  cbn [map concat] in Hn. apply NoDup_app in Hn as (Hn1 & _ & Hn2). cbn [map omapM]. rewrite first_key_spec by done. cbn [obind].
  by rewrite IH.
Qed.

(** One chunk of a level becomes one tree. *)
Lemma push_spec ns a c b es : c <> [] -> sorted_entries es -> level_ok ns (a ++ c ++ b) es ->
  exists ns' t, push_internal ns (map root_of c) = Done ns' /\ root_of t = length ns /\ level_ok ns' (a ++ [t] ++ b) es.
Proof.
  intros Hc Hes [Hs Hn Hl He]. destruct c as [|t0 ts]; [done|].
  pose proof (level_ids_bound ns _ Hs) as Hfresh.
  apply Forall_app in Hs as [Hsa Hs]. apply Forall_app in Hs as [Hsc Hsb]. apply Forall_app in Hl as [Hla Hl]. apply Forall_app in Hl as [Hlc Hlb].
  rewrite !map_app, !concat_app in Hn, He, Hfresh.
  apply NoDup_app in Hn as (Hna & Hda & Hn). apply NoDup_app in Hn as (Hnc & Hdc & Hnb).
  set (keys := map first_key ts). set (t := TNode (length ns) keys (t0 :: ts)).
  assert (sorted_entries (concat (map contents (t0 :: ts)))) as Hsc'.
  { rewrite <- He in Hes. unfold sorted_entries in *. rewrite !map_app in Hes. apply StronglySorted_app in Hes as (_ & _ & Hes).
    by apply StronglySorted_app in Hes as (_ & Hes & _). }
  exists (ns ++ [Internal keys (map root_of (t0 :: ts))]), t. split; [|split; [done|]].
  - unfold push_internal. cbn [map tail]. rewrite first_keys_spec; [done|by inversion Hlc|by inversion Hsc|].
    cbn [map concat] in Hnc. by apply NoDup_app in Hnc as (_ & _ & Hnc).
  - assert (forall l, Forall (spells ns) l -> Forall (spells (ns ++ [Internal keys (map root_of (t0 :: ts))])) l) as Hmore.
    { intros l Hl. eapply Forall_impl; [exact Hl|]. intros x. apply spells_more. }
    constructor.
    + apply Forall_app. split; [by apply Hmore|]. apply Forall_cons. split; [|by apply Hmore]. apply spells_node.
      split; [by rewrite lookup_app_r, Nat.sub_diag by lia|by apply Hmore].
    + rewrite !map_app, !concat_app. cbn [map concat ids t]. rewrite app_nil_r. apply NoDup_app. split; [done|]. split.
      * intros x Hx [[-> |H]%elem_of_cons|H]%elem_of_app; [apply Hfresh; set_solver|apply (Hda x Hx); set_solver|apply (Hda x Hx); set_solver].
      * cbn [app]. apply NoDup_cons. split; [|apply NoDup_app; by split]. intros H. apply Hfresh. apply elem_of_app. by right.
    + apply Forall_app. split; [done|]. apply Forall_cons. split; [by apply node_loaded|done].
    + rewrite !map_app, !concat_app. cbn [map concat contents t]. by rewrite app_nil_r.
Qed.

Lemma chunked_map {A B} (f : A -> B) k fuel : forall l, chunked fuel k (map f l) = map (map f) (chunked fuel k l).
Proof.
  induction fuel as [|fuel IH]; intros [|x l]; [done|done|done|]. cbn [chunked]. cbn [map]. change (f x :: map f l) with (map f (x :: l)).
  rewrite firstn_map, skipn_map. by rewrite IH.
Qed.

Lemma chunks_of_map {A B} (f : A -> B) k l : chunks_of k (map f l) = map (map f) (chunks_of k l).
Proof. unfold chunks_of. by rewrite length_map, chunked_map. Qed.

(** Chunks: non-empty, in order, and fewer than the elements. *)
Lemma chunked_spec {A} k fuel : (2 <= k)%nat -> forall l : list A, (length l <= fuel)%nat ->
  concat (chunked fuel k l) = l /\ Forall (fun c => c <> []) (chunked fuel k l) /\ (2 * length (chunked fuel k l) <= length l + 1)%nat.
Proof.
  intros Hk. induction fuel as [|fuel IH]; intros [|x l] Hf; [by repeat constructor|cbn in Hf; lia|by repeat constructor|].
  cbn [chunked]. destruct k as [|k]; [lia|].
  destruct (IH (drop (S k) (x :: l))) as (H1 & H2 & H3); [rewrite length_drop; cbn in *; lia|]. split; [|split].
  - cbn [concat]. by rewrite H1, take_drop.
  - by constructor.
  - cbn [length]. destruct (decide (length (x :: l) <= S k)%nat) as [Hs|Hs].
    + rewrite drop_ge in H3 |- * by done. destruct fuel; cbn [chunked length] in *; lia.
    + rewrite length_drop in H3. cbn [length] in *. lia.
Qed.

Lemma max_entries_two : (2 <= MAX_ENTRIES_PER_NODE)%nat.
Proof. vm_compute. lia. Qed.

Lemma level_fold es cs : sorted_entries es -> Forall (fun c => c <> []) cs -> forall ns made, level_ok ns (made ++ concat cs) es ->
  exists ns' ts, ofold (fun '(ns, next) chunk => let* ns' := push_internal ns chunk in Done (ns', next ++ [length ns]))
    (ns, map root_of made) (map (map root_of) cs) = Done (ns', map root_of ts) /\
    level_ok ns' ts es /\ length ts = (length made + length cs)%nat.
Proof.
  intros Hes. induction 1 as [|c cs Hc _ IH]; intros ns made Hl; cbn [map ofold concat] in *.
  - rewrite app_nil_r in Hl. exists ns, made. split; [done|]. split; [done|]. cbn [length]. lia.
  - destruct (push_spec ns made c (concat cs) es Hc Hes Hl) as (ns1 & t & E & Er & Hl1). rewrite E. cbn [obind].
    rewrite (assoc_L (++)) in Hl1. destruct (IH ns1 (made ++ [t]) Hl1) as (ns2 & ts & E2 & Hl2 & El).
    rewrite map_app in E2. cbn [map] in E2. rewrite Er in E2. exists ns2, ts. split; [exact E2|]. split; [done|].
    rewrite length_app in El. cbn [length] in *. lia.
Qed.

Lemma build_level_spec ns ts es : sorted_entries es -> level_ok ns ts es -> (2 <= length ts)%nat ->
  exists ns' ts', build_level ns (map root_of ts) = Done (ns', map root_of ts') /\ level_ok ns' ts' es /\
    (1 <= length ts' < length ts)%nat.
Proof.
  intros Hes Hl H2. unfold build_level. rewrite chunks_of_map.
  destruct (chunked_spec MAX_ENTRIES_PER_NODE (length ts) max_entries_two ts (le_n _)) as (Hc & Hne & Hlen).
  fold (chunks_of MAX_ENTRIES_PER_NODE ts) in *.
  destruct (level_fold es (chunks_of MAX_ENTRIES_PER_NODE ts) Hes Hne ns []) as (ns' & ts' & E & Hl' & El); [by rewrite Hc|].
  exists ns', ts'. split; [exact E|]. split; [done|]. cbn [length] in El. rewrite El. split; [|lia].
  destruct (chunks_of MAX_ENTRIES_PER_NODE ts); [|cbn [length]; lia]. cbn [concat] in Hc. subst ts. cbn [length] in H2. lia.
Qed.

(** As many levels as leaves are enough: every level is shorter than the one below. *)
Lemma build_levels_spec es : sorted_entries es -> forall fuel ns ts, level_ok ns ts es -> (1 <= length ts <= fuel)%nat ->
  exists ns' t, build_levels fuel ns (map root_of ts) = Done (ns', [root_of t]) /\ level_ok ns' [t] es.
Proof.
  intros Hes. induction fuel as [|fuel IH]; intros ns ts Hl Hlen; [lia|]. cbn [build_levels]. rewrite length_map.
  destruct (Nat.ltb_spec 1 (length ts)) as [H|H].
  - destruct (build_level_spec ns ts es Hes Hl H) as (ns' & ts' & E & Hl' & Hlt). rewrite E. cbn [obind]. apply IH; [done|lia].
  - destruct ts as [|t [|t' ts]]; cbn [length] in *; try lia. by exists ns, t.
Qed.

Fixpoint leaves (i : nat) (cs : list IndexEntries) : list tree :=
  match cs with [] => [] | c :: cs => TLeaf i c :: leaves (S i) cs end.

Lemma leaves_level cs : Forall (fun c => c <> []) cs -> sorted_entries (concat cs) -> forall pre,
  level_ok (pre ++ map Leaf cs) (leaves (length pre) cs) (concat cs) /\
  Forall (fun i => (length pre <= i)%nat) (concat (map ids (leaves (length pre) cs))).
Proof.
  induction 1 as [|c cs Hc _ IH]; intros Hs pre; [split; [constructor; [constructor|apply NoDup_nil_2|constructor|done]|constructor]|].
  cbn [concat] in Hs. unfold sorted_entries in Hs. rewrite map_app in Hs. apply StronglySorted_app in Hs as (_ & Hs1 & Hs2).
  destruct (IH Hs2 (pre ++ [Leaf c])) as [[H1 H2 H3 H4] Hi]. rewrite length_app in *. cbn [length] in *. rewrite Nat.add_1_r in *.
  rewrite <- (assoc_L (++)) in H1. cbn [app] in H1. cbn [leaves map concat ids]. split.
  - constructor; cbn [map concat ids contents app].
    + constructor; [|done]. cbn [spells]. by rewrite lookup_app_r, Nat.sub_diag by lia.
    + apply NoDup_cons. split; [|done]. intros Hin. rewrite Forall_forall in Hi. specialize (Hi _ Hin). lia.
    + constructor; [by apply leaf_loaded|done].
    + by rewrite H4.
  - cbn [app]. constructor; [lia|]. eapply Forall_impl; [exact Hi|]. intros; cbn in *; lia.
Qed.

Lemma leaves_roots cs : forall i, map root_of (leaves i cs) = seq i (length cs).
Proof. induction cs as [|c cs IH]; intros i; [done|]. cbn [leaves map root_of length seq]. by rewrite IH. Qed.

Lemma btree_new_holds : tree_holds btree_new ∅.
Proof.
  exists (TLeaf 0 []). split; [|done]. constructor; [done|done|apply NoDup_singleton| |done]. split; [constructor|constructor].
Qed.

(** Loading sorted entries gives a tree that holds them. *)
Lemma from_sorted_holds es : sorted_entries es -> Forall (fun e => fits 64 e.1) es ->
  exists t, from_sorted es = Done t /\ tree_holds t (map_of es).
Proof.
  intros Hs Hf. unfold from_sorted. destruct es as [|e0 es0]; [exists btree_new; split; [done|apply btree_new_holds]|].
  set (es := e0 :: es0) in *.
  destruct (chunked_spec MAX_ENTRIES_PER_NODE (length es) max_entries_two es (le_n _)) as (Hc & Hne & _).
  fold (chunks_of MAX_ENTRIES_PER_NODE es) in *. set (cs := chunks_of MAX_ENTRIES_PER_NODE es) in *.
  assert (1 <= length cs)%nat as Hlen by (destruct cs; [done|cbn [length]; lia]).
  rewrite <- Hc in Hs. destruct (leaves_level cs Hne Hs []) as [Hl _]. cbn [app length] in Hl.
  cbv zeta. rewrite length_map, <- leaves_roots. assert (length (leaves 0 cs) = length cs) as El.
  { rewrite <- (length_map root_of), leaves_roots. apply length_seq. }
  destruct (build_levels_spec (concat cs) Hs (length cs) (map Leaf cs) (leaves 0 cs) Hl) as (ns & t & E & [Hsp Hi Hld Hco]); [lia|].
  rewrite E. cbn [obind]. eexists. split; [done|]. exists t. cbn [map concat] in *. rewrite app_nil_r in *.
  rewrite Hc in *. apply Forall_cons in Hsp as [Hsp _]. apply Forall_cons in Hld as [[Hw _] _].
  split; [|by rewrite Hco]. constructor; cbn [root nodes count]; [done|done|done| |by rewrite Hco].
  apply Hw; [done|]. rewrite Hco. eapply Forall_impl; [exact Hf|]. intros e He. exact He.
Qed.

(** ** The adaptive index is a map, whichever form it has *)

Definition adaptive_holds (x : AdaptiveIndex) (m : KeyMap) : Prop :=
  map_Forall (fun k _ => fits 64 k) m /\
  match state x with
  | SArray a => converted x = false /\ ix_holds a m
  | SBTree t => converted x = true /\ ix_holds t m
  end.

Lemma with_threshold_holds n : adaptive_holds (with_threshold n) ∅.
Proof. split; [by intros k a H|]. split; [done|apply array_new_holds]. Qed.

Lemma promote_holds x m : adaptive_holds x m -> converted x = false ->
  exists x', promote x = Done x' /\ adaptive_holds x' m /\ converted x' = true.
Proof.
  intros [Hf Hs] Hc. unfold promote. destruct (state x) as [[es]|t]; [|destruct Hs; congruence].
  destruct Hs as [_ [Hs Hm]]. cbn [into_entries ai_entries] in *.
  destruct (from_sorted_holds es Hs) as (t & E & Ht).
  { rewrite Forall_forall. intros [k a] He. apply (Hf k a). rewrite <- Hm. apply elem_of_list_to_map_1; [by apply sorted_keys_nodup|done]. }
  rewrite E. eexists. split; [done|]. split; [|done]. split; [done|]. cbn [state]. rewrite Hm in Ht. by split.
Qed.

#[export] Instance adaptive_laws : IndexLaws AdaptiveIndex.
Proof.
  refine {| ix_holds := adaptive_holds |}; cbn [ix_insert ix_lookup ix_remove ix_range ix_len adaptive_backend].
  - intros x m k a Hh Hk Hf. unfold adaptive_insert.
    match goal with |- context [obind ?g _] => assert (exists x1, g = Done x1 /\ adaptive_holds x1 m) as (x1 & E & Hfm & Hs) end.
    { destruct (converted x) eqn:Ec; cbn [negb andb]; [by eexists|]. destruct (threshold x <=? adaptive_len x); [|by eexists].
      destruct (promote_holds x m Hh Ec) as (x1 & ? & ? & _). by exists x1. }
    rewrite E. cbn [obind]. assert (map_Forall (fun k _ => fits 64 k) (<[k := a]> m)) by by apply map_Forall_insert_2.
    destruct (state x1) as [arr|t]; destruct Hs as [Hc Hs]; destruct (insert_law _ m k a Hs Hk Hf) as (b & Eb & Hb);
      rewrite Eb; (eexists; split; [done|]; by split).
  - intros x m k [_ Hs] Hf. destruct (state x); destruct Hs as [_ Hs]; by apply lookup_law.
  - intros x m k [Hfm Hs] Hf. unfold adaptive_remove. assert (map_Forall (fun k _ => fits 64 k) (delete k m)) by by apply map_Forall_delete.
    destruct (state x); destruct Hs as [Hc Hs]; destruct (remove_law _ m k Hs Hf) as (b & Eb & Hb);
      rewrite Eb; (eexists; split; [done|]; by split).
  - intros x m lo hi [_ Hs]. destruct (state x); destruct Hs as [_ Hs]; by apply range_law.
  - intros x m [_ Hs]. unfold adaptive_len. destruct (state x); destruct Hs as [_ Hs]; by apply len_law.
Defined.

(** ** Runs of operations *)

Inductive index_op : Type :=
  | OpInsert (k : IndexKey) (a : AnchorKey)
  | OpLookup (k : IndexKey)
  | OpRemove (k : IndexKey)
  | OpRange (lo hi : IndexKey)
  | OpLen.

Inductive index_answer : Type :=
  | AnsUnit
  | AnsKey (r : option AnchorKey)
  | AnsBool (b : bool)
  | AnsEntries (es : IndexEntries)
  | AnsLen (n : Z).

Definition index_step `{IndexBackend B} (b : B) (op : index_op) : StorageResult (B * index_answer) :=
  match op with
  | OpInsert k a => let* b := ix_insert k a b in Done (b, AnsUnit)
  | OpLookup k => let* r := ix_lookup k b in Done (b, AnsKey r)
  | OpRemove k => let* (b, r) := ix_remove k b in Done (b, AnsBool r)
  | OpRange lo hi => let* es := ix_range lo hi b in Done (b, AnsEntries es)
  | OpLen => Done (b, AnsLen (ix_len b))
  end.

Fixpoint index_run `{IndexBackend B} (b : B) (ops : list index_op) : StorageResult (list index_answer) :=
  match ops with
  | [] => Done []
  | op :: ops => let* (b, r) := index_step b op in let* rs := index_run b ops in Done (r :: rs)
  end.

(** The reference: a map of keys. *)
Definition map_step (m : KeyMap) (op : index_op) : KeyMap * index_answer :=
  match op with
  | OpInsert k a => (<[k := a]> m, AnsUnit)
  | OpLookup k => (m, AnsKey (m !! k))
  | OpRemove k => (delete k m, AnsBool (bool_decide (is_Some (m !! k))))
  | OpRange lo hi => (m, AnsEntries (in_range lo hi (entries_of m)))
  | OpLen => (m, AnsLen (Z.of_nat (size m)))
  end.

Fixpoint map_run (m : KeyMap) (ops : list index_op) : list index_answer :=
  match ops with [] => [] | op :: ops => (map_step m op).2 :: map_run (map_step m op).1 ops end.

(** Keys are 64 bits wide and are inserted when absent. *)
Definition op_proper (m : KeyMap) (op : index_op) : bool :=
  match op with
  | OpInsert k _ => bool_decide (m !! k = None) && fitsb 64 k
  | OpLookup k | OpRemove k => fitsb 64 k
  | _ => true
  end.

Fixpoint ops_proper (m : KeyMap) (ops : list index_op) : bool :=
  match ops with [] => true | op :: ops => op_proper m op && ops_proper (map_step m op).1 ops end.

Lemma index_step_spec `{IndexLaws B} b m op : ix_holds b m -> op_proper m op = true ->
  exists b', index_step b op = Done (b', (map_step m op).2) /\ ix_holds b' (map_step m op).1.
Proof.
  intros Hb Hp. destruct op as [k a|k|k|lo hi|]; cbn [index_step map_step op_proper fst snd] in *.
  - apply andb_prop in Hp as [Hk Hf]. apply bool_decide_eq_true_1 in Hk. apply fitsb_spec in Hf.
    destruct (insert_law b m k a Hb Hk Hf) as (b' & E & Hb'). rewrite E. by eexists.
  - apply fitsb_spec in Hp. rewrite lookup_law with (m := m) by done. by eexists.
  - apply fitsb_spec in Hp. destruct (remove_law b m k Hb Hp) as (b' & E & Hb'). rewrite E. by eexists.
  - rewrite range_law with (m := m) by done. by eexists.
  - rewrite len_law with (m := m) by done. by eexists.
Qed.

Lemma index_run_spec `{IndexLaws B} ops : forall b m, ix_holds b m -> ops_proper m ops = true -> index_run b ops = Done (map_run m ops).
Proof.
  induction ops as [|op ops IH]; intros b m Hb Hp; [done|]. cbn [ops_proper index_run map_run] in *. apply andb_prop in Hp as [Hp Hps].
  destruct (index_step_spec b m op Hb Hp) as (b' & E & Hb'). rewrite E. cbn [obind]. by rewrite (IH b' _ Hb' Hps).
Qed.

(** C15: whatever its threshold, an adaptive index answers every run of inserts of
    new keys, lookups, removes, ranges and lengths as a finite map does: turning
    from a vector into a B+ tree is not seen. *)
Theorem adaptive_runs_as_map threshold ops : ops_proper ∅ ops = true ->
  index_run (with_threshold threshold) ops = Done (map_run ∅ ops).
Proof. intros Hp. apply index_run_spec; [apply with_threshold_holds|done]. Qed.

Definition sample_ops : list index_op :=
  [OpInsert 7 70; OpInsert 3 30; OpInsert 5 50; OpLookup 3; OpInsert 1 10; OpRemove 3; OpLookup 3; OpRemove 4;
   OpRange 1 6; OpLen].

Lemma adaptive_runs_as_map_witness :
  ops_proper ∅ sample_ops = true /\ index_run (with_threshold 2) sample_ops =
    Done [AnsUnit; AnsUnit; AnsUnit; AnsKey (Some 30); AnsUnit; AnsBool true; AnsKey None; AnsBool false;
          AnsEntries [(1, 10); (5, 50)]; AnsLen 3].
Proof.
  split; [by vm_compute|]. transitivity (Done (E := StorageError) (map_run ∅ sample_ops)); [|by vm_compute].
  apply adaptive_runs_as_map. by vm_compute.
Defined.

(** ** The discrete index is a map of maps *)

Definition total (M : gmap Z KeyMap) : Z := map_fold (fun _ m n => Z.of_nat (size m) + n) 0 M.

Definition discrete_holds (d : DiscreteIndex) (M : gmap Z KeyMap) : Prop :=
  (forall i, match buckets d !! i, M !! i with Some b, Some m => adaptive_holds b m | None, None => True | _, _ => False end) /\
  total_count d = total M.

(** The keys of a bucket. *)
Definition bucket_of (M : gmap Z KeyMap) (i : Z) : KeyMap := default ∅ (M !! i).

Lemma total_insert M i m : total (<[i := m]> M) = total M - Z.of_nat (size (bucket_of M i)) + Z.of_nat (size m).
Proof.
  assert (forall M, M !! i = None -> total (<[i := m]> M) = total M + Z.of_nat (size m)) as Hnew.
  { intros M' Hn. unfold total. rewrite map_fold_insert_L; [lia|intros; lia|done]. }
  unfold bucket_of. destruct (M !! i) as [m0|] eqn:E; cbn [default from_option].
  - rewrite <- insert_delete_eq, Hnew by apply lookup_delete_eq. unfold total.
    rewrite (map_fold_delete_L (fun _ m n => Z.of_nat (size m) + n) 0 i m0 M); [unfold id; lia|intros; lia|done].
  - rewrite Hnew, map_size_empty by done. lia.
Qed.

Lemma bucket_holds d M i : discrete_holds d M ->
  ix_holds (default (with_threshold (di_threshold d)) (buckets d !! i)) (bucket_of M i).
Proof.
  change (discrete_holds d M -> adaptive_holds (default (with_threshold (di_threshold d)) (buckets d !! i)) (bucket_of M i)).
  intros [H _]. specialize (H i). unfold bucket_of. destruct (buckets d !! i), (M !! i); try done. apply with_threshold_holds.
Qed.

Lemma set_bucket d M i b m n : discrete_holds d M -> adaptive_holds b m -> n = total (<[i := m]> M) ->
  discrete_holds {| buckets := <[i := b]> (buckets d); di_threshold := di_threshold d; total_count := n |} (<[i := m]> M).
Proof.
  intros [H _] Hb ->. split; [|done]. intros j. cbn [buckets]. destruct (decide (i = j)) as [->|Hj].
  - by rewrite !lookup_insert_eq.
  - rewrite !lookup_insert_ne by done. apply H.
Qed.

Lemma discrete_insert_spec d M i k a : discrete_holds d M -> bucket_of M i !! k = None -> fits 64 k ->
  exists d', discrete_insert i k a d = Done d' /\ discrete_holds d' (<[i := <[k := a]> (bucket_of M i)]> M).
Proof.
  intros Hd Hk Hf. destruct (insert_law (B := AdaptiveIndex) _ _ k a (bucket_holds d M i Hd) Hk Hf) as (b & E & Hb).
  unfold discrete_insert. cbn [ix_insert adaptive_backend] in *. rewrite E. cbn [obind]. eexists. split; [done|].
  apply set_bucket; [done|done|]. rewrite total_insert, map_size_insert_None by done. destruct Hd as [_ ->]. lia.
Qed.

Lemma discrete_lookup_spec d M i k : discrete_holds d M -> fits 64 k -> discrete_lookup i k d = Done (bucket_of M i !! k).
Proof.
  intros Hd Hf. pose proof (bucket_holds d M i Hd) as Hb. unfold discrete_lookup. destruct (buckets d !! i) as [b|] eqn:E.
  - by apply (lookup_law (B := AdaptiveIndex)).
  - destruct Hd as [Hd _]. specialize (Hd i). rewrite E in Hd. unfold bucket_of. by destruct (M !! i).
Qed.

Lemma discrete_remove_spec d M i k : discrete_holds d M -> fits 64 k ->
  exists d' M', discrete_remove i k d = Done (d', bool_decide (is_Some (bucket_of M i !! k))) /\ discrete_holds d' M' /\
    forall j, bucket_of M' j = if decide (i = j) then delete k (bucket_of M j) else bucket_of M j.
Proof.
  intros Hd Hf. pose proof (bucket_holds d M i Hd) as Hb. unfold discrete_remove. destruct (buckets d !! i) as [b|] eqn:E; cbn [default] in Hb.
  - destruct (remove_law (B := AdaptiveIndex) b _ k Hb Hf) as (b' & Er & Hb'). rewrite Er. cbn [obind].
    assert (forall j, bucket_of (<[i := delete k (bucket_of M i)]> M) j = if decide (i = j) then delete k (bucket_of M j) else bucket_of M j) as Hbo.
    { intros j. unfold bucket_of at 1. destruct (decide (i = j)) as [->|Hj]; [by rewrite lookup_insert_eq|by rewrite lookup_insert_ne]. }
    pose proof (total_insert M i (delete k (bucket_of M i))) as Ht. destruct Hd as [Hd Hc]. case_bool_decide as Hk.
    + destruct Hk as [a Hk]. rewrite map_size_delete_Some in Ht by by eexists.
      assert (0 < Z.of_nat (size (bucket_of M i))) as Hpos.
      { apply (Nat2Z.inj_lt 0), Nat.neq_0_lt_0. intros H0. apply map_size_empty_inv in H0. rewrite H0 in Hk. by rewrite lookup_empty in Hk. }
      assert (0 <= total M - Z.of_nat (size (bucket_of M i))) as Hge.
      { pose proof (total_insert M i ∅) as H0. rewrite map_size_empty in H0. assert (0 <= total (<[i := ∅]> M)); [|lia].
        unfold total. clear. apply (map_fold_weak_ind (fun z _ => 0 <= z)); [lia|]. intros; lia. }
      rewrite usub_done by lia. exists {| buckets := <[i := b']> (buckets d); di_threshold := di_threshold d; total_count := total_count d - 1 |}, (<[i := delete k (bucket_of M i)]> M).
      split; [done|]. split; [|done]. apply set_bucket; [by split|done|]. lia.
    + exists {| buckets := <[i := b']> (buckets d); di_threshold := di_threshold d; total_count := total_count d |}, (<[i := delete k (bucket_of M i)]> M).
      split; [done|]. split; [|done]. apply set_bucket; [by split|done|].
      rewrite delete_id in Ht |- * by by apply eq_None_not_Some. lia.
  - assert (bucket_of M i = ∅) as Ei.
    { destruct Hd as [Hd _]. specialize (Hd i). rewrite E in Hd. unfold bucket_of. by destruct (M !! i). }
    exists d, M. rewrite Ei, bool_decide_false by (rewrite lookup_empty; by intros []). split; [done|]. split; [done|].
    intros j. destruct (decide (i = j)) as [->|Hj]; [|done]. by rewrite Ei, delete_empty.
Qed.

Lemma lookup_bucket_spec d M i : discrete_holds d M -> lookup_bucket i d = Done (in_range KEY_MIN KEY_MAX (entries_of (bucket_of M i))).
Proof.
  intros Hd. pose proof (bucket_holds d M i Hd) as Hb. unfold lookup_bucket. destruct (buckets d !! i) as [b|] eqn:E.
  - unfold ix_all_sorted. by apply (range_law (B := AdaptiveIndex)).
  - destruct Hd as [Hd _]. specialize (Hd i). rewrite E in Hd. unfold bucket_of. destruct (M !! i); [done|]. by vm_compute.
Qed.

(** ** What the maps leave out *)

(** [all_sorted] reads [MIN .. MAX), so the greatest key is never listed. *)
Example last_key_unlisted :
  (let* x := ix_insert KEY_MAX 1 adaptive_new in let* r := ix_lookup KEY_MAX x in let* es := ix_all_sorted x in Done (r, es)) = Done (Some 1, []).
Proof. by vm_compute. Qed.

(** Equal keys may fall into two leaves; the descent reaches only the right one,
    so after removing the copies there the others are not found. *)
Definition twins : IndexEntries := map (fun i => (Z.of_nat (Nat.min i 150), Z.of_nat i)) (seq 0 170).

Fixpoint removed (n : nat) (k : IndexKey) (b : BTreeIndex) : StorageResult (list bool * BTreeIndex) :=
  match n with
  | O => Done ([], b)
  | S n => let* (b, r) := ix_remove k b in let* (rs, b) := removed n k b in Done (r :: rs, b)
  end.

Example twins_lost :
  (let* b := from_sorted twins in let* (rs, b) := removed 3 150 b in let* r := ix_lookup 150 b in
   let* es := ix_range 150 151 b in Done (rs, r, length es)) = Done ([true; true; false], None, 18%nat).
Proof. by vm_compute. Qed.
