(* ===== verification/Perms.v ===== *)
(** * Permissions (wavedb-storage/src/permissions.rs)

    The decision on an access, the groups it resolves, and the user list that turns
    from a vector into an index. *)
From stdpp Require Import sorting.
From S2P Require Import Prelude Errors Core Anchor SlotPage SlotPageOk Index.

Definition INLINE_TO_TREE_THRESHOLD : Z := 50.

Record PermissionGroup : Type := { pg_id : PermissionGroupId; pg_users : list Z }.

Abbreviation PermissionGroupStore := (gmap Z PermissionGroup).

Definition groups_new : PermissionGroupStore := ∅.
Definition register (g : PermissionGroup) (gs : PermissionGroupStore) : PermissionGroupStore := <[pg_id g := g]> gs.
Definition get_group (id : PermissionGroupId) (gs : PermissionGroupStore) : option PermissionGroup := gs !! id.

Inductive PermissionResult : Type :=
  | Allowed
  | Denied.

#[export] Instance PermissionResult_eq_dec : EqDecision PermissionResult.
Proof. solve_decision. Defined.

Definition check_access (permission : option PermissionRef) (user record_tenant user_tenant : Z) (groups : PermissionGroupStore) : PermissionResult :=
  match permission with
  | None => if user_tenant =? record_tenant then Allowed else Denied
  | Some (Core.Inline users) => if bool_decide (user ∈ users) then Allowed else Denied
  | Some (Core.Group id) =>
    match get_group id groups with
    | Some g => if bool_decide (user ∈ pg_users g) then Allowed else Denied
    | None => Denied
    end
  end.

Inductive PromotablePermissionList : Type :=
  | PInline (users : list Z)
  | PTree (t : AdaptiveIndex).

(** An insert into an index returns no error, so there is none to ignore. *)
Definition insert_users (users : list Z) (t : AdaptiveIndex) : StorageResult AdaptiveIndex :=
  ofold (fun t user => ix_insert user 1 t) t users.

Definition from_inline (users : list Z) : StorageResult PromotablePermissionList :=
  if INLINE_TO_TREE_THRESHOLD <? zlen users then let* t := insert_users users (with_threshold 0) in Done (PTree t)
  else Done (PInline users).

Definition add_user (user : Z) (l : PromotablePermissionList) : StorageResult (PromotablePermissionList * bool) :=
  match l with
  | PInline users =>
    let users := if bool_decide (user ∈ users) then users else users ++ [user] in
    if INLINE_TO_TREE_THRESHOLD <? zlen users then let* t := insert_users users (with_threshold 0) in Done (PTree t, true)
    else Done (PInline users, false)
  | PTree t => let* t := ix_insert user 1 t in Done (PTree t, false)
  end.

Definition perm_contains (user : Z) (l : PromotablePermissionList) : StorageResult bool :=
  match l with
  | PInline users => Done (bool_decide (user ∈ users))
  | PTree t => let* r := ix_lookup user t in Done (bool_decide (is_Some r))
  end.

Definition perm_len (l : PromotablePermissionList) : Z :=
  match l with PInline users => zlen users | PTree t => ix_len t end.

Definition perm_is_empty (l : PromotablePermissionList) : bool := perm_len l =? 0.

Definition is_promoted (l : PromotablePermissionList) : bool := match l with PTree _ => true | PInline _ => false end.

(** Users added one after another. *)
Definition add_users (users : list Z) (l : PromotablePermissionList) : StorageResult PromotablePermissionList :=
  ofold (fun l user => let* (l, _) := add_user user l in Done l) l users.

(** ** The decision *)

(** Who may access a record: its tenant, or the users listed, or those of a
    registered group. *)
Lemma check_access_spec permission user rt ut gs : check_access permission user rt ut gs = Allowed <->
  match permission with
  | None => ut = rt
  | Some (Core.Inline users) => user ∈ users
  | Some (Core.Group id) => exists g, gs !! id = Some g /\ user ∈ pg_users g
  end.
Proof.
  unfold check_access, get_group. destruct permission as [[users|id]|].
  - case_bool_decide; naive_solver.
  - destruct (gs !! id) as [g|]; [case_bool_decide|]; naive_solver.
  - destruct (Z.eqb_spec ut rt); naive_solver.
Qed.

Lemma register_get g id gs : get_group id (register g gs) = if decide (pg_id g = id) then Some g else get_group id gs.
Proof. unfold get_group, register. case_decide as E; [by rewrite E, lookup_insert_eq|by rewrite lookup_insert_ne]. Qed.

(** ** The list as a set of users *)

(** The tree of a list has one leaf, sorted, with a key per insert. *)
Definition one_leaf (es : IndexEntries) (t : AdaptiveIndex) : Prop :=
  state t = SBTree {| nodes := [Leaf es]; root := 0; count := zlen es |} /\ converted t = true.

Lemma sorted_ascending (l : list Z) : StronglySorted Z.le l -> ascending l.
Proof.
  induction 1 as [|x l _ IH Hx]; intros i j a b Hi Hj Hij; [done|]. destruct j as [|j]; [lia|].
  destruct i as [|i]; cbn in Hi, Hj; [|by apply (IH i j); [..|lia]]. injection Hi as ->.
  rewrite Forall_forall in Hx. apply Hx. by eapply list_elem_of_lookup_2.
Qed.

Lemma place_ascending k a es : StronglySorted Z.le (map fst es) ->
  StronglySorted Z.le (map fst (place k a es)) /\ zlen (place k a es) = zlen es + 1 /\
  forall u, u ∈ map fst (place k a es) <-> u = k \/ u ∈ map fst es.
Proof.
  intros Hs. pose proof (ascending_search _ k (sorted_ascending _ Hs)) as Hb. unfold place.
  set (pos := match binary_search (map fst es) k with inl i => i | inr i => i end).
  assert (map fst es = take pos (map fst es) ++ drop pos (map fst es)) as Es by by rewrite take_drop.
  pose proof Hs as Hs0. rewrite Es in Hs. apply StronglySorted_app in Hs as (_ & H1 & H2).
  assert ((forall u, u ∈ take pos (map fst es) -> u <= k) /\ (forall u, u ∈ drop pos (map fst es) -> k <= u)) as [Hlo Hhi].
  { split; intros u (j & Hj)%list_elem_of_lookup.
    - apply lookup_take_Some in Hj as [Hj Hlt]. subst pos. destruct (binary_search (map fst es) k) as [i|i].
      + exact (sorted_ascending _ Hs0 j i u k Hj Hb Hlt).
      + destruct Hb as (_ & Hb & _). specialize (Hb j u Hj Hlt). lia.
    - rewrite lookup_drop in Hj. subst pos. destruct (binary_search (map fst es) k) as [i|i].
      + destruct (decide (j = 0%nat)) as [->|]; [rewrite Nat.add_0_r in Hj; rewrite Hb in Hj; injection Hj; lia|].
        apply (sorted_ascending _ Hs0 i (i + j)%nat k u Hb Hj). lia.
      + destruct Hb as (_ & _ & Hb). assert (k < u); [|lia]. eapply Hb; [exact Hj|lia]. }
  split; [|split].
  - rewrite map_app. cbn [map fst]. rewrite firstn_map, skipn_map in *. apply StronglySorted_app. split; [|split; [done|]].
    + intros x y Hx Hy. specialize (Hlo x Hx). apply elem_of_cons in Hy as [->|Hy]; [done|]. specialize (Hhi y Hy). lia.
    + constructor; [done|]. rewrite Forall_forall. done.
  - unfold zlen. rewrite length_app. cbn [length]. rewrite length_take, length_drop. lia.
  - intros u. rewrite map_app. cbn [map fst]. rewrite Es, firstn_map, skipn_map, !elem_of_app, elem_of_cons. naive_solver.
Qed.

Lemma one_leaf_insert es t k a : StronglySorted Z.le (map fst es) -> one_leaf es t ->
  exists t', ix_insert k a t = Done t' /\ one_leaf (place k a es) t'.
Proof.
  intros Hs [Hst Hc]. cbn [ix_insert adaptive_backend]. unfold adaptive_insert. rewrite Hc. cbn [negb andb obind]. rewrite Hst.
  cbn [ix_insert btree_backend]. unfold btree_insert, leaf_for. cbn [nodes root count length find_leaf lookup list_lookup obind list_insert].
  eexists. split; [reflexivity|]. split; [|done]. cbn [state with_state]. destruct (place_ascending k a es Hs) as (_ & -> & _). done.
Qed.

(** The first insert promotes the empty array. *)
Lemma first_insert k a : exists t, ix_insert k a (with_threshold 0) = Done t /\ one_leaf (place k a []) t.
Proof. eexists. split; [reflexivity|]. by split. Qed.

Lemma one_leaf_lookup es t k : StronglySorted Z.le (map fst es) -> one_leaf es t ->
  exists r, ix_lookup k t = Done r /\ (is_Some r <-> k ∈ map fst es).
Proof.
  intros Hs [Hst _]. cbn [ix_lookup adaptive_backend]. rewrite Hst. cbn [ix_lookup btree_backend]. unfold leaf_for.
  cbn [nodes root length find_leaf lookup list_lookup obind]. eexists. split; [done|]. unfold find_entry.
  pose proof (ascending_search _ k (sorted_ascending _ Hs)) as Hb. destruct (binary_search (map fst es) k) as [i|i].
  - split; [intros _; by eapply list_elem_of_lookup_2|intros _]. rewrite list_lookup_fmap in Hb. by destruct (es !! i).
  - split; [by intros []|]. intros (j & Hj)%list_elem_of_lookup. destruct Hb as (_ & H1 & H2).
    destruct (decide (j < i)%nat) as [Hlt|Hge]; [specialize (H1 j k Hj Hlt)|specialize (H2 j k Hj ltac:(lia))]; lia.
Qed.

(** A list holds the users of [us]. *)
Definition perm_holds (l : PromotablePermissionList) (us : list Z) : Prop :=
  match l with
  | PInline vs => forall u, u ∈ vs <-> u ∈ us
  | PTree t => exists es, one_leaf es t /\ StronglySorted Z.le (map fst es) /\ forall u, u ∈ map fst es <-> u ∈ us
  end.

Lemma tree_insert t us u : perm_holds (PTree t) us -> exists t', ix_insert u 1 t = Done t' /\ perm_holds (PTree t') (us ++ [u]).
Proof.
  intros (es & Ht & Hs & Hin). destruct (one_leaf_insert es t u 1 Hs Ht) as (t' & E & Ht'). exists t'. split; [done|].
  destruct (place_ascending u 1 es Hs) as (H1 & _ & H2). exists (place u 1 es). split; [done|]. split; [done|].
  intros v. rewrite H2, Hin, elem_of_app, list_elem_of_singleton. tauto.
Qed.

Lemma insert_users_tree vs : forall t us, perm_holds (PTree t) us -> exists t', insert_users vs t = Done t' /\ perm_holds (PTree t') (us ++ vs).
Proof.
  unfold insert_users. induction vs as [|v vs IH]; intros t us Ht; cbn [ofold]; [exists t; by rewrite app_nil_r|].
  destruct (tree_insert t us v Ht) as (t1 & E & Ht1). rewrite E. cbn [obind]. destruct (IH t1 _ Ht1) as (t2 & E2 & Ht2).
  exists t2. split; [done|]. by rewrite <- (assoc_L (++)) in Ht2.
Qed.

Lemma insert_users_new u us : exists t, insert_users (u :: us) (with_threshold 0) = Done t /\ perm_holds (PTree t) (u :: us).
Proof.
  unfold insert_users. cbn [ofold]. destruct (first_insert u 1) as (t & E & Ht). rewrite E. cbn [obind].
  apply (insert_users_tree us t [u]). exists (place u 1 []). split; [done|]. destruct (place_ascending u 1 [] (SSorted_nil _)) as (H1 & _ & H2).
  split; [done|]. intros v. rewrite H2, list_elem_of_singleton. cbn [map]. rewrite elem_of_nil. tauto.
Qed.

(** More users than the threshold become a tree; no more stay in the vector. *)
Lemma promoted_holds us vs : (forall u, u ∈ vs <-> u ∈ us) -> INLINE_TO_TREE_THRESHOLD < zlen vs ->
  exists t, insert_users vs (with_threshold 0) = Done t /\ perm_holds (PTree t) us.
Proof.
  intros Hin Hlen. destruct vs as [|v vs]; [by vm_compute in Hlen|]. destruct (insert_users_new v vs) as (t & E & es & H1 & H2 & H3).
  exists t. split; [done|]. exists es. split; [done|]. split; [done|]. intros u. by rewrite H3, Hin.
Qed.

Lemma from_inline_holds us : exists l, from_inline us = Done l /\ perm_holds l us.
Proof.
  unfold from_inline. destruct (Z.ltb_spec INLINE_TO_TREE_THRESHOLD (zlen us)) as [H|H]; [|by exists (PInline us)].
  destruct (promoted_holds us us (fun u => iff_refl _) H) as (t & E & Ht). rewrite E. by exists (PTree t).
Qed.

Lemma add_user_holds l us u : perm_holds l us -> exists l' b, add_user u l = Done (l', b) /\ perm_holds l' (us ++ [u]).
Proof.
  intros Hl. destruct l as [vs|t]; cbn [add_user].
  - assert (forall v, v ∈ (if bool_decide (u ∈ vs) then vs else vs ++ [u]) <-> v ∈ us ++ [u]) as Hin.
    { intros v. cbn in Hl. rewrite elem_of_app, list_elem_of_singleton, <- Hl. case_bool_decide; [|by rewrite elem_of_app, list_elem_of_singleton].
      naive_solver. }
    cbv zeta. destruct (Z.ltb_spec INLINE_TO_TREE_THRESHOLD (zlen (if bool_decide (u ∈ vs) then vs else vs ++ [u]))) as [H|H]; [|by eexists _, _].
    destruct (promoted_holds _ _ Hin H) as (t & E & Ht). rewrite E. by eexists _, _.
  - destruct (tree_insert t us u Hl) as (t' & E & Ht'). rewrite E. by eexists _, _.
Qed.

Lemma add_users_holds vs : forall l us, perm_holds l us -> exists l', add_users vs l = Done l' /\ perm_holds l' (us ++ vs).
Proof.
  unfold add_users. induction vs as [|v vs IH]; intros l us Hl; cbn [ofold]; [exists l; by rewrite app_nil_r|].
  destruct (add_user_holds l us v Hl) as (l1 & b & E & Hl1). rewrite E. cbn [obind]. destruct (IH l1 _ Hl1) as (l2 & E2 & Hl2).
  exists l2. split; [done|]. by rewrite <- (assoc_L (++)) in Hl2.
Qed.

Lemma perm_contains_spec l us u : perm_holds l us -> perm_contains u l = Done (bool_decide (u ∈ us)).
Proof.
  intros Hl. destruct l as [vs|t]; cbn [perm_contains].
  - f_equal. apply bool_decide_ext, Hl.
  - destruct Hl as (es & Ht & Hs & Hin). destruct (one_leaf_lookup es t u Hs Ht) as (r & E & Hr). rewrite E. cbn [obind]. f_equal.
    apply bool_decide_ext. by rewrite Hr.
Qed.

(** A permission list decides membership as the list of all users given to it,
    at its construction and by additions, whatever its form and with repetitions. *)
Theorem permission_list_members us vs u :
  (let* l := from_inline us in let* l := add_users vs l in perm_contains u l) = Done (bool_decide (u ∈ us ++ vs)).
Proof.
  destruct (from_inline_holds us) as (l & E & Hl). rewrite E. cbn [obind]. destruct (add_users_holds vs l us Hl) as (l' & E' & Hl').
  rewrite E'. cbn [obind]. by apply perm_contains_spec.
Qed.

(** Promoted, the list counts a user once per addition; as a vector, once. *)
Example repeated_user_counted :
  (let* l := from_inline (map Z.of_nat (seq 0 50)) in let* l1 := add_users [7; 7] l in let* l2 := add_users [50; 7; 7] l in
   Done (perm_len l1, perm_len l2)) = Done (50, 53).
Proof. by vm_compute. Qed.
