(* ===== verification/Linear.v ===== *)
(** * The linear-hashing directory (wavedb-storage/src/file/linear.rs)

    Two masks route an id; one split at a time adds a bucket.  The struct has the
    fields of a page directory (struct id, version, dictionaries, descriptors), so
    its record and what it owns are those of [Directory].

    It is a map, and a split keeps it: routing by the two masks puts every id in one
    bucket; adding a bucket moves ids of the bucket at the split pointer only.  Writes,
    removals and splits act on the map of all buckets as a map's operations would. *)
From S2P Require Import Prelude Ordered Wire Errors Hash BlockAlloc BlockFile Regions PageDir Codec Dict HeapStore SlotPage SlotPageOk Directory DirectoryOk DirectoryMap.

Definition MAX_LEVEL : Z := 32.

Definition hash_of (id : Z) : Z :=
  let lo := wrap 64 id in
  let hi := wrap 64 (Z.shiftr id 64) in
  mix64 (Z.lxor lo (rotate_left hi 32)).

Abbreviation LinearDirectory := PageDirectory.

Definition lin_new (sid ver level : Z) : StorageResult LinearDirectory :=
  do* guard (level <=? MAX_LEVEL) in
  Done {| dir_struct_id := sid; dir_version := ver; dicts := dicts_new; slots := replicate (Z.to_nat (Z.shiftl 1 level)) DESC_EMPTY |}.

Definition from_buckets (sid ver : Z) (dir : list PageDescriptor) : StorageResult LinearDirectory :=
  do* guard (negb (zlen dir =? 0)) in
  Done {| dir_struct_id := sid; dir_version := ver; dicts := dicts_new; slots := dir |}.

(** ** Routing, of a directory of [m] buckets *)

Definition level_of (m : Z) : Z := Z.log2 m.
Definition split_of (m : Z) : Z := m - Z.shiftl 1 (level_of m).

Definition bucket_for (id m : Z) : nat :=
  let base := Z.shiftl 1 (level_of m) in
  let s := m - base in
  let h := hash_of id in
  let b := Z.land h (base - 1) in
  Z.to_nat (if b <? s then Z.land h (Z.shiftl base 1 - 1) else b).

Definition lin_bucket_count (d : LinearDirectory) : Z := zlen (slots d).
Definition lin_level (d : LinearDirectory) : Z := level_of (lin_bucket_count d).
Definition split_pointer (d : LinearDirectory) : Z := split_of (lin_bucket_count d).
Definition lin_descriptor (d : LinearDirectory) (i : nat) : StorageResult PageDescriptor := expect (slots d !! i).
Definition lin_index (d : LinearDirectory) (id : Z) : nat := bucket_for id (lin_bucket_count d).
Definition lin_used_runs (d : LinearDirectory) : list BlockRun := map desc_run (filter (fun p => is_allocated p = true) (slots d)).

(** One record of the bucket under split. *)
Definition split_entry (level : Z) (pages : SlotPage * SlotPage) (r : Z * Entry) : SlotPage * SlotPage :=
  let '(keep, moved) := pages in
  if Z.land (Z.shiftr (hash_of r.1) level) 1 =? 0 then (upsert_entry r.1 r.2 keep, moved)
  else (keep, upsert_entry r.1 r.2 moved).

(** The mutations of one bucket, in the order of the map. *)
Definition mutate_bucket (l : list (Z * option (list byte))) (bucket : SlotPage) : SlotPage :=
  foldl (fun p '(id, m) => match m with Some payload => upsert id payload p | None => (page_remove id p).1 end) bucket l.

Section linear.
Context `{Codecs}.

Definition lin_install_dictionary (dict : list byte) : M DictRef := on_dicts (install dict).

Definition read_run_bucket (r : BlockRun) : M SlotPage :=
  let! bytes := on_file (read_run r) in
  let! dict_ref := st_lift (dict_ref_of bytes) in
  if is_none dict_ref then st_lift (decode bytes None)
  else
    let! dict := on_dicts (load dict_ref) in
    st_lift (decode bytes (Some dict)).

Definition read_bucket (desc : PageDescriptor) : M SlotPage :=
  if is_allocated desc then read_run_bucket (desc_run desc)
  else on_self (st_gets empty_page).

Definition place_if_nonempty (page : SlotPage) : M PageDescriptor :=
  if page_is_empty page then st_ret DESC_EMPTY
  else
    let! dict_ref := on_self (st_gets (fun d => current (dicts d))) in
    if is_none dict_ref then on_file (place_page page None)
    else
      let! bytes := on_dicts (load dict_ref) in
      on_file (place_page page (Some (bytes, dict_ref))).

(** [self.dir[i] = desc], [self.dir.push(desc)]. *)
Definition set_slot (i : nat) (desc : PageDescriptor) (d : LinearDirectory) : LinearDirectory := with_slots (<[i := desc]> (slots d)) d.
Definition push_slot (desc : PageDescriptor) (d : LinearDirectory) : LinearDirectory := with_slots (slots d ++ [desc]) d.

Definition free_old (old : PageDescriptor) : M unit :=
  if is_allocated old then on_file (block_free (desc_run old)) else st_ret tt.

Definition lin_commit (i : nat) (old : PageDescriptor) (bucket : SlotPage) : M unit :=
  let! new_desc := place_if_nonempty bucket in
  do! free_old old in
  on_self (st_modify (set_slot i new_desc)).

Definition rewrite_bucket (i : nat) (mutate : SlotPage -> SlotPage) : M unit :=
  let! desc := slot_at i in
  let! bucket := read_bucket desc in
  lin_commit i desc (mutate bucket).

Definition lin_get (id : Z) : M (option (list byte)) :=
  let! i := on_self (st_gets (fun d => lin_index d id)) in
  let! desc := slot_at i in
  if negb (is_allocated desc) then st_ret None
  else
    let! bucket := read_bucket desc in
    st_ret (page_get bucket id ≫= inline_bytes).

Definition lin_put (id : Z) (payload : list byte) : M unit :=
  let! i := on_self (st_gets (fun d => lin_index d id)) in
  rewrite_bucket i (upsert id payload).

Definition lin_remove (id : Z) : M bool :=
  let! i := on_self (st_gets (fun d => lin_index d id)) in
  let! desc := slot_at i in
  if negb (is_allocated desc) then st_ret false
  else
    let! bucket := read_bucket desc in
    match page_remove id bucket with
    | (_, false) => st_ret false
    | (bucket, true) => do! lin_commit i desc bucket in st_ret true
    end.

Definition lin_commit_slot (i : nat) (mutations : gmap Z (option (list byte))) : M unit :=
  rewrite_bucket i (mutate_bucket (by_key mutations)).

Definition split_next : M unit :=
  let! m := on_self (st_gets lin_bucket_count) in
  let level := level_of m in
  let s := Z.to_nat (split_of m) in
  let! desc := slot_at s in
  let! bucket := read_bucket desc in
  let! empty := on_self (st_gets empty_page) in
  let '(keep, moved) := foldl (split_entry level) (empty, empty) (entries bucket) in
  let! keep_desc := place_if_nonempty keep in
  let! moved_desc := place_if_nonempty moved in
  do! free_old desc in
  do! on_self (st_modify (set_slot s keep_desc)) in
  on_self (st_modify (push_slot moved_desc)).
End linear.

(** ** Routing *)

Lemma level_bounds m : 0 < m -> 2 ^ level_of m <= m < 2 * 2 ^ level_of m.
Proof. intros Hm. unfold level_of. pose proof (Z.log2_spec m Hm) as H. rewrite Z.pow_succ_r in H by apply Z.log2_nonneg. lia. Qed.

Lemma split_of_bounds m : 0 < m -> 0 <= split_of m < m.
Proof.
  intros Hm. pose proof (level_bounds m Hm). unfold split_of. rewrite Z.shiftl_1_l. pose proof (Z.pow_pos_nonneg 2 (level_of m) ltac:(lia) (Z.log2_nonneg m)). lia.
Qed.

(** The masks as remainders. *)
Lemma bucket_for_mod id m : 0 < m -> bucket_for id m =
  let base := 2 ^ level_of m in
  Z.to_nat (if hash_of id mod base <? m - base then hash_of id mod (2 * base) else hash_of id mod base).
Proof.
  intros Hm. pose proof (Z.log2_nonneg m) as Hl. unfold bucket_for. cbv zeta. fold (level_of m) in Hl.
  rewrite Z.shiftl_1_l. replace (2 ^ level_of m - 1) with (Z.ones (level_of m)) by by rewrite Z.ones_equiv.
  replace (Z.shiftl (2 ^ level_of m) 1 - 1) with (Z.ones (level_of m + 1)).
  2:{ rewrite Z.ones_equiv, Z.shiftl_mul_pow2, Z.pow_add_r by lia. done. }
  rewrite !Z.land_ones by lia. by rewrite Z.pow_add_r, (Z.mul_comm _ (2 ^ 1)) by lia.
Qed.

(** The bit that a split looks at. *)
Definition split_bit (id m : Z) : Z := Z.land (Z.shiftr (hash_of id) (level_of m)) 1.

Lemma split_bit_mod id m : 0 < m -> split_bit id m = (hash_of id / 2 ^ level_of m) mod 2 /\
  hash_of id mod (2 * 2 ^ level_of m) = hash_of id mod 2 ^ level_of m + 2 ^ level_of m * split_bit id m.
Proof.
  intros Hm. pose proof (Z.log2_nonneg m) as Hl. unfold split_bit. fold (level_of m) in Hl.
  rewrite Z.shiftr_div_pow2 by done. assert (forall x, Z.land x 1 = x mod 2) as El by (intros x; by apply (Z.land_ones x 1)).
  rewrite El. split; [done|].
  rewrite (Z.mul_comm 2), Z.rem_mul_r; [done|lia|lia].
Qed.

Lemma bucket_for_bound id m : 0 < m -> (bucket_for id m < Z.to_nat m)%nat.
Proof.
  intros Hm. rewrite bucket_for_mod by done. cbv zeta. pose proof (level_bounds m Hm) as Hb. destruct (split_bit_mod id m Hm) as [Hs Hr].
  set (base := 2 ^ level_of m) in *. pose proof (Z.mod_pos_bound (hash_of id) base ltac:(lia)).
  pose proof (Z.mod_pos_bound (hash_of id / base) 2 ltac:(lia)). destruct (Z.ltb_spec (hash_of id mod base) (m - base)); [|lia].
  rewrite Hr. assert (split_bit id m = 0 \/ split_bit id m = 1) as [-> | ->] by lia; lia.
Qed.

(** A bucket more: only ids of the bucket at the split pointer move, and they
    move to the new bucket. *)
Lemma bucket_for_grow id m : 0 < m -> bucket_for id (m + 1) =
  if decide (bucket_for id m = Z.to_nat (split_of m)) then
    if split_bit id m =? 0 then bucket_for id m else Z.to_nat m
  else bucket_for id m.
Proof.
  intros Hm. pose proof (level_bounds m Hm) as Hb. destruct (split_bit_mod id m Hm) as [Hs Hr].
  pose proof (split_of_bounds m Hm) as Hsb. unfold split_of in *. rewrite Z.shiftl_1_l in *.
  rewrite !bucket_for_mod by lia. cbv zeta. pose proof (Z.mod_pos_bound (hash_of id / 2 ^ level_of m) 2 ltac:(lia)) as H2. rewrite <- Hs in H2.
  destruct (decide (m + 1 = 2 * 2 ^ level_of m)) as [E|E].
  - assert (level_of (m + 1) = level_of m + 1) as El.
    { unfold level_of in *. apply Z.log2_unique; [pose proof (Z.log2_nonneg m); lia|].
      rewrite Z.pow_succ_r, Z.pow_add_r by (pose proof (Z.log2_nonneg m); lia). lia. }
    rewrite El, Z.pow_add_r by (unfold level_of; pose proof (Z.log2_nonneg m); lia). rewrite (Z.mul_comm _ (2 ^ 1)). change (2 ^ 1) with 2.
    set (base := 2 ^ level_of m) in *. pose proof (Z.mod_pos_bound (hash_of id) base ltac:(lia)) as Hb0.
    pose proof (Z.mod_pos_bound (hash_of id) (2 * base) ltac:(lia)) as Hb2.
    replace (hash_of id mod (2 * base) <? m + 1 - 2 * base) with false by lia.
    destruct (Z.ltb_spec (hash_of id mod base) (m - base)) as [Hlt|Hge].
    + rewrite decide_False; [done|]. rewrite Hr. assert (split_bit id m = 0 \/ split_bit id m = 1) as [-> | ->] by lia; lia.
    + rewrite decide_True by lia. rewrite Hr. assert (split_bit id m = 0 \/ split_bit id m = 1) as [-> | ->] by lia; cbn [Z.eqb]; lia.
  - assert (level_of (m + 1) = level_of m) as El.
    { unfold level_of in *. apply Z.log2_unique; [apply Z.log2_nonneg|]. rewrite Z.pow_succ_r by apply Z.log2_nonneg. lia. }
    rewrite El. set (base := 2 ^ level_of m) in *. pose proof (Z.mod_pos_bound (hash_of id) base ltac:(lia)) as Hb0.
    rewrite Hr. assert (split_bit id m = 0 \/ split_bit id m = 1) as [-> | ->] by lia; cbn [Z.eqb];
      destruct (Z.ltb_spec (hash_of id mod base) (m - base)), (Z.ltb_spec (hash_of id mod base) (m + 1 - base)); case_decide; lia.
Qed.

#[global] Opaque bucket_for.

(** ** Inline pages *)

(** A directory never spills: with values of at most a spill, every record of a
    page is inline and the page owns no extent. *)
Definition inline_values (kv : Values) : Prop := map_Forall (fun _ v => zlen v <= HEAP_SPILL_THRESHOLD) kv.

Definition inline_mutation (m : Z * option (list byte)) : Prop := fits 128 m.1 /\ forall v, m.2 = Some v -> zlen v <= HEAP_SPILL_THRESHOLD.

Section inline.
Context `{CodecLaws}.

(** The triples of the records of an inline page. *)
Lemma page_own_inline p kv x : page_own p kv x -> inline_values kv ->
  x = ∅ /\ exists es, entries p = map (fun e => (e.1, Inline e.2)) es /\ sorted_page p /\ kv = list_to_map es /\
    Forall (fun e => fits 128 e.1 /\ zlen e.2 <= HEAP_SPILL_THRESHOLD) es.
Proof.
  intros (ts & Ees & Hs & -> & Ho) Hi. destruct (page_own_fst ts) as [E1 E2].
  assert (NoDup (map fst (map to_value ts))) as Hn by (rewrite E2, <- E1, <- Ees; by apply sorted_nodup).
  assert (Forall (fun t : Z * (Entry * list byte) => t.2.1 = Inline t.2.2 /\ fits 128 t.1 /\ zlen t.2.2 <= HEAP_SPILL_THRESHOLD) ts) as Hall.
  { apply Forall_forall. intros [id [e v]] Hin. destruct (owns_elem _ _ _ _ Hin Ho) as (y & [Hid He] & _). cbn [fst snd] in *.
    assert (zlen v <= HEAP_SPILL_THRESHOLD) as Hv.
    { apply (Hi id v). apply elem_of_list_to_map_1; [done|]. apply list_elem_of_fmap. by exists (id, (e, v)). }
    destruct e as [b|h]; [by destruct He as (_ & <- & _)|]. destruct He as [_ He]. lia. }
  split.
  - clear -Ho Hall. revert x Ho. induction Hall as [|[id [e v]] ts [He _] _ IH]; intros x; cbn [owns]; [done|].
    intros (x1 & r & -> & _ & [_ Hx] & Hr). cbn [fst snd] in *. subst e. destruct Hx as [-> _]. rewrite (left_id_L ∅ (∪)). by apply IH.
  - exists (map to_value ts). split; [|split; [done|split; [done|]]].
    + rewrite Ees, map_map. apply map_ext_in. intros t Ht. apply list_elem_of_In in Ht. rewrite Forall_forall in Hall.
      destruct (Hall t Ht) as [E _]. destruct t as [id [e v]]. cbn in *. by subst e.
    + rewrite Forall_map. eapply Forall_impl; [exact Hall|]. by intros t (_ & ? & ?).
Qed.

Lemma page_own_none p kv x : page_own p kv x -> inline_values kv -> page_own p kv ∅.
Proof. intros Hp Hi. by destruct (page_own_inline p kv x Hp Hi) as [-> _]. Qed.

Lemma inline_get p kv id : page_own p kv ∅ -> inline_values kv -> page_get p id = Inline <$> kv !! id.
Proof.
  intros Hp Hi. destruct (page_own_take p kv ∅ id Hp) as (Hg & Hn & xm & r & _ & _ & Hm & _ & _).
  destruct (page_get p id) as [[b|h]|] eqn:E.
  - destruct Hm as [_ ->]. done.
  - destruct Hm as (_ & v & Hv & Hx). exfalso. destruct Hp as (ts & Ees & Hs & -> & Ho). rewrite page_get_map in E by done.
    destruct (page_own_inline p _ ∅ (ex_intro _ ts (conj Ees (conj Hs (conj eq_refl Ho)))) Hi) as [_ (es & Ees' & _)].
    apply elem_of_list_to_map_2 in E. rewrite Ees' in E. apply list_elem_of_fmap in E as (e & [=] & _).
  - destruct Hn as [Hn _]. by rewrite Hn by (symmetry; done).
Qed.

Lemma inline_mutate p kv m : page_own p kv ∅ -> inline_values kv -> inline_mutation m ->
  page_own (match m.2 with Some v => upsert m.1 v p | None => (page_remove m.1 p).1 end) (mutate kv m) ∅ /\ inline_values (mutate kv m).
Proof.
  intros Hp Hi [Hid Hm]. destruct m as [id [v|]]; cbn [fst snd] in *; unfold mutate; cbn [fst snd].
  - specialize (Hm v eq_refl). assert (inline_values (<[id := v]> kv)) as Hi' by by apply map_Forall_insert_2.
    split; [|done]. destruct (page_own_take p kv ∅ id Hp) as (_ & _ & xm & r & E & _ & _ & _ & Hup).
    apply (page_own_none _ _ (∅ ∪ r)); [|exact Hi']. apply Hup; [by split|apply map_disjoint_empty_l].
  - assert (inline_values (delete id kv)) as Hi' by by apply map_Forall_delete. split; [|done].
    destruct (page_own_take p kv ∅ id Hp) as (_ & _ & xm & r & E & _ & _ & Hrem & _). eapply page_own_none; [exact Hrem|exact Hi'].
Qed.

(** Mutations of an inline page do not use the file. *)
Lemma inline_apply p kv l : page_own p kv ∅ -> inline_values kv -> Forall inline_mutation l -> forall q : PageDirectory * BlockFile,
  apply_all (p, [], []) l q = (Done (mutate_bucket l p, [], []), q).
Proof.
  intros Hp Hi Hl. revert p kv Hp Hi. induction Hl as [|[id m] l Hm _ IH]; intros p kv Hp Hi [s f]; [done|].
  cbn [st_foldl]. unfold st_bind, on_file at 1, apply_mutation. rewrite (inline_get p kv id Hp Hi).
  destruct (inline_mutate p kv (id, m) Hp Hi Hm) as [Hp' Hi']. destruct Hm as [_ Hm]. cbn [fst snd] in *.
  assert (match Inline <$> kv !! id with Some (Heap old) => [] ++ [heap_run old] | _ => ([] : list BlockRun) end = []) as -> by by destruct (kv !! id).
  destruct m as [v|].
  - specialize (Hm v eq_refl). replace (HEAP_SPILL_THRESHOLD <? zlen v) with false by lia. unfold st_ret at 1. cbn [fst]. exact (IH _ _ Hp' Hi' _).
  - unfold st_ret at 1. exact (IH _ _ Hp' Hi' _).
Qed.
End inline.

(** ** The map of a directory *)

Section map.
Context `{CodecLaws}.

Definition lin_holds (d : LinearDirectory) (m : Values) (x : Regions) : Prop :=
  exists D kvs, dir_own D d kvs x /\ routed_by bucket_for kvs /\ kvs <> [] /\ (forall id, m !! id = view_by bucket_for kvs id) /\ inline_values m.

Lemma lin_holds_count d m x : lin_holds d m x -> 0 < lin_bucket_count d.
Proof.
  intros (D & kvs & Hd & _ & Hn & _). unfold lin_bucket_count, zlen. rewrite <- (dw_count _ _ _ _ Hd). destruct kvs; [done|simpl; lia].
Qed.

Lemma lin_index_lt d m x id : lin_holds d m x -> (lin_index d id < length (slots d))%nat.
Proof.
  intros Hc%lin_holds_count. pose proof (bucket_for_bound id (lin_bucket_count d) Hc) as Hb. unfold lin_index. unfold lin_bucket_count, zlen in *. lia.
Qed.

Lemma read_bucket_slot desc : read_bucket desc = read_slot desc.
Proof. done. Qed.

Lemma place_if_nonempty_eq p q : place_if_nonempty p q = (if page_is_empty p then st_ret DESC_EMPTY else place p) q.
Proof.
  unfold place_if_nonempty, place, current_dict. destruct (page_is_empty p); [done|]. destruct q as [d f].
  unfold st_bind, on_self, st_gets. cbn [fst snd]. destruct (is_none (current (dicts d))); [done|]. by destruct (on_dicts _ _) as [[b|e|] [d' f']].
Qed.

Lemma lin_commit_eq i old p q : lin_commit i old p q = (let! _ := commit_page i old (p, [], []) in st_ret tt) q.
Proof.
  unfold lin_commit, commit_page, free_old, st_bind. rewrite place_if_nonempty_eq.
  destruct ((if page_is_empty p then st_ret DESC_EMPTY else place p) q) as [[desc|e|] q1]; [|done|done].
  destruct (is_allocated old); [destruct (on_file _ q1) as [[[]|e|] [d2 f2]]; done|]. by destruct q1.
Qed.

(** What a change of one bucket does. *)
Lemma lin_commit_spec D d i desc kv kvs p xD pg hx r l :
  slot_read D d i desc kv kvs p xD pg hx r -> inline_values kv -> Forall inline_mutation l -> roomy (foldl mutate kv l) ->
  triple d (xD ∪ (pg ∪ hx ∪ r)) (lin_commit i desc (mutate_bucket l p)) (muts_blocks l + MAX_BLOCK_COUNT) (returns (fun _ d' x' _ =>
    dir_own D d' (<[i := foldl mutate kv l]> kvs) x' /\ lin_bucket_count d' = lin_bucket_count d)).
Proof.
  intros Hread Hi Hl Hroom. pose proof (page_own_none p kv hx (proj1 (sr_page _ _ _ _ _ _ _ _ _ _ _ Hread)) Hi) as Hp.
  eapply (triple_ext _ _ _ (let! _ := (let! s := apply_all (p, [], []) l in commit_page i desc s) in st_ret tt)).
  { intros q. rewrite lin_commit_eq. unfold st_bind at 1 2 3. by rewrite (inline_apply p kv l Hp Hi Hl). }
  assert (muts_ok l) as Hok.
  { eapply Forall_impl; [exact Hl|]. intros m [Hid Hm]. split; [done|]. intros v Hv. specialize (Hm v Hv). unfold HEAP_SPILL_THRESHOLD in Hm. lia. }
  eapply triple_steps; [eapply triple_bind; [by eapply commit_from_spec, roomy_cost|apply Z.le_refl|]|lia].
  intros [c|e|] d' x' log Hq; [|by destruct Hq as (_ & _ & [])|done].
  destruct Hq as (Hd' & _ & (d1 & (s & -> & _) & ->) & _). apply triple_ret. split; [done|]. unfold lin_bucket_count, zlen. cbn [slots with_slots with_dicts].
  by rewrite length_insert.
Qed.

Lemma lin_focus d m x i : lin_holds d m x -> (i < length (slots d))%nat -> exists D kvs kv desc,
  dir_own D d kvs x /\ kvs !! i = Some kv /\ slots d !! i = Some desc /\ lin_bucket_count d = zlen kvs /\
  values_at bucket_for m (lin_bucket_count d) i = kv /\ inline_values kv /\
  triple d x (slot_at i) 0 (returns (fun a d' x' l => a = desc /\ d' = d /\ x' = x /\ l = [])) /\
  (forall d' l x', dir_own D d' (<[i := foldl mutate kv l]> kvs) x' -> NoDup (map fst l) -> Forall inline_mutation l ->
    (forall id, id ∈ map fst l -> lin_index d id = i) -> lin_holds d' (foldl mutate m l) x') /\
  routed_by bucket_for kvs /\ forall id, m !! id = view_by bucket_for kvs id.
Proof.
  intros (D & kvs & Hd & Hr & Hne & Hm & Hin) Hi.
  assert (lin_bucket_count d = zlen kvs) as Ec by (unfold lin_bucket_count, zlen; by rewrite (dw_count _ _ _ _ Hd)).
  destruct (kvs !! i) as [kv|] eqn:Hk.
  2:{ apply lookup_ge_None in Hk. rewrite (dw_count _ _ _ _ Hd) in Hk. lia. }
  destruct (slot_at_spec _ _ _ _ _ _ Hd Hk) as (desc & Ei & Hat). exists D, kvs, kv, desc.
  assert (values_at bucket_for m (lin_bucket_count d) i = kv) as Ev by (rewrite Ec; by apply slot_values_eq).
  do 4 (split; [done|]). split; [done|]. split.
  { intros id v Hv. rewrite <- Ev in Hv. unfold values_at in Hv. apply map_lookup_filter_Some in Hv as [Hv _]. by apply (Hin id). }
  split; [done|]. split; [|done]. intros d' l x' Hd' Hn Hl Hrt.
  destruct (view_mutate (route := bucket_for) kvs m i kv l Hr Hm Hk Hn) as [Hr' Hm'].
  { intros id Hid. rewrite <- Ec. by apply Hrt. }
  exists D, (<[i := foldl mutate kv l]> kvs). split; [done|]. split; [done|]. split; [|split; [done|]].
  - intros E. apply (f_equal length) in E. rewrite length_insert in E. by destruct kvs.
  - intros id v Hv. rewrite lookup_mutates in Hv by done. destruct (_ !! id) as [mm|] eqn:E; [|by apply (Hin id)].
    subst mm. apply elem_of_list_to_map_2 in E. rewrite Forall_forall in Hl. by apply (Hl _ E).
Qed.

(** Rewriting a bucket. *)
Lemma rewrite_bucket_holds d m x i l : lin_holds d m x -> (i < length (slots d))%nat -> NoDup (map fst l) -> Forall inline_mutation l ->
  (forall id, id ∈ map fst l -> lin_index d id = i) -> roomy (values_at bucket_for (foldl mutate m l) (lin_bucket_count d) i) ->
  triple d x (rewrite_bucket i (mutate_bucket l)) (muts_blocks l + MAX_BLOCK_COUNT) (returns (fun _ d' x' _ =>
    lin_holds d' (foldl mutate m l) x' /\ lin_bucket_count d' = lin_bucket_count d)).
Proof.
  intros Hh Hi Hn Hl Hrt Hroom. destruct (lin_focus d m x i Hh Hi) as (D & kvs & kv & desc & Hd & Hk & Ei & Ec & Ev & Hin & Hat & Hback & _).
  rewrite slot_values_mutates, Ev in Hroom by done.
  assert (0 <= muts_blocks l + MAX_BLOCK_COUNT) by (apply Z.add_nonneg_nonneg; [apply muts_blocks_nonneg|done]).
  unfold rewrite_bucket. eapply triple_step; [exact Hat|done|]. intros ? ? ? ? (-> & -> & -> & ->). rewrite read_bucket_slot.
  eapply triple_step; [by eapply slot_read_spec|done|]. intros p d1 ? ? (-> & -> & (s1 & -> & _) & xD & pg & hx & r & -> & Hread).
  eapply triple_weaken; [by eapply lin_commit_spec|done|]. intros [c|e|] d' x' log Hq; [|done|done]. destruct Hq as [Hd' Ecount].
  split; [by apply Hback|]. exact Ecount.
Qed.

(** Writing one record. *)
Lemma lin_put_holds d m x id v : lin_holds d m x -> fits 128 id -> zlen v <= HEAP_SPILL_THRESHOLD ->
  roomy (values_at bucket_for (<[id := v]> m) (lin_bucket_count d) (lin_index d id)) ->
  triple d x (lin_put id v) (zlen v / DATA_BLOCK_SIZE + 2 + MAX_BLOCK_COUNT) (returns (fun _ d' x' _ =>
    lin_holds d' (<[id := v]> m) x' /\ lin_bucket_count d' = lin_bucket_count d)).
Proof.
  intros Hh Hid Hv Hroom. unfold lin_put. apply triple_gets.
  eapply triple_steps; [apply (rewrite_bucket_holds d m x (lin_index d id) [(id, Some v)]); try done|simpl; lia].
  - by eapply lin_index_lt.
  - apply NoDup_singleton.
  - constructor; [|done]. split; [done|]. by intros ? [= <-].
  - by intros id' ->%list_elem_of_singleton.
Qed.

(** A batch of one bucket. *)
Lemma lin_commit_slot_holds d m x i muts : lin_holds d m x -> (i < length (slots d))%nat ->
  (forall id mm, muts !! id = Some mm -> inline_mutation (id, mm) /\ lin_index d id = i) ->
  roomy (values_at bucket_for (overlay muts m) (lin_bucket_count d) i) ->
  triple d x (lin_commit_slot i muts) (muts_blocks (by_key muts) + MAX_BLOCK_COUNT) (returns (fun _ d' x' _ =>
    lin_holds d' (overlay muts m) x' /\ lin_bucket_count d' = lin_bucket_count d)).
Proof.
  intros Hh Hi Hm Hroom. rewrite <- mutates_overlay in *. apply rewrite_bucket_holds; try done.
  - apply NoDup_ordered.
  - apply Forall_forall. intros [id mm] Hin. apply elem_of_ordered in Hin. by apply Hm.
  - intros id (mm & Hid)%elem_of_map_keys. by apply (Hm id mm).
Qed.

(** Reading. *)
Lemma lin_get_holds d m x id : lin_holds d m x ->
  triple d x (lin_get id) 0 (returns (fun r d' x' log => r = m !! id /\ x' = x /\ log = [] /\ lin_holds d' m x /\ lin_bucket_count d' = lin_bucket_count d)).
Proof.
  intros Hh. pose proof (lin_index_lt d m x id Hh) as Hlt.
  destruct (lin_focus d m x (lin_index d id) Hh Hlt) as (D & kvs & kv & desc & Hd & Hk & Ei & Ec & Ev & Hin & Hat & Hback & _).
  assert (m !! id = kv !! id) as ->.
  { rewrite <- Ev. apply option_eq. intros v. unfold values_at. rewrite map_lookup_filter_Some. unfold lin_index. naive_solver. }
  assert (forall d', same_dir D d d' -> lin_holds d' m x /\ lin_bucket_count d' = lin_bucket_count d) as Hsame.
  { intros d' Hs. split; [|by destruct Hs as (? & -> & _)]. rewrite <- (list_insert_id kvs _ kv Hk) in Hd. 
    apply (Hback d' []); [by eapply same_dir_own|constructor|constructor|]. intros ? Hno. by apply not_elem_of_nil in Hno. }
  unfold lin_get. apply triple_gets. eapply triple_step; [exact Hat|done|]. intros ? ? ? ? (-> & -> & -> & ->). rewrite read_bucket_slot.
  destruct (is_allocated desc) eqn:Ea; cbn [negb].
  - eapply triple_step; [by eapply slot_read_spec|done|]. intros p d1 ? ? (-> & -> & Hd1 & xD & pg & hx & r & -> & Hread).
    apply triple_ret. unfold after, returns. split; [|do 2 (split; [done|]); by apply Hsame].
    rewrite (inline_get p kv id) by first [done|by eapply page_own_none; [apply (sr_page _ _ _ _ _ _ _ _ _ _ _ Hread)|]].
    by destruct (kv !! id).
  - destruct (dir_own_slot _ _ _ _ _ _ _ Hd Ei Hk) as (? & ? & ? & _ & _ & _ & _ & Hxi & _). unfold slot_own in Hxi. cbn [fst snd] in Hxi.
    rewrite Ea in Hxi. destruct Hxi as (_ & _ & ->). apply triple_ret. unfold after, returns. rewrite lookup_empty.
    do 3 (split; [done|]). apply Hsame, same_dir_refl, Hd.
Qed.

(** Removing one record. *)
Lemma lin_remove_holds d m x id : lin_holds d m x -> fits 128 id ->
  roomy (values_at bucket_for (delete id m) (lin_bucket_count d) (lin_index d id)) ->
  triple d x (lin_remove id) MAX_BLOCK_COUNT (returns (fun b d' x' _ =>
    b = bool_decide (is_Some (m !! id)) /\ lin_holds d' (delete id m) x' /\ lin_bucket_count d' = lin_bucket_count d)).
Proof.
  intros Hh Hid Hroom. pose proof (lin_index_lt d m x id Hh) as Hlt.
  destruct (lin_focus d m x (lin_index d id) Hh Hlt) as (D & kvs & kv & desc & Hd & Hk & Ei & Ec & Ev & Hin & Hat & Hback & _).
  assert (NoDup (map fst [(id, @None (list byte))])) as Hn by apply NoDup_singleton.
  assert (Forall inline_mutation [(id, None)]) as Hl by (constructor; [by split|done]).
  assert (forall id', id' ∈ map fst [(id, @None (list byte))] -> lin_index d id' = lin_index d id) as Hrt by by intros id' ->%list_elem_of_singleton.
  assert (m !! id = kv !! id) as Emk.
  { rewrite <- Ev. apply option_eq. intros v. unfold values_at. rewrite map_lookup_filter_Some. unfold lin_index. naive_solver. }
  change (delete id m) with (foldl mutate m [(id, None)]) in Hroom. rewrite slot_values_mutates, Ev in Hroom by done. rewrite Emk.
  assert (forall d', same_dir D d d' -> kv !! id = None -> lin_holds d' (delete id m) x /\ lin_bucket_count d' = lin_bucket_count d) as Hsame.
  { intros d' Hs Hkn. split; [|by destruct Hs as (s & -> & _)]. apply (Hback d' [(id, None)]); [|done..].
    cbn [foldl]. unfold mutate; cbn [fst snd]. change (partial_alter (fun _ => None) id kv) with (delete id kv).
    rewrite delete_id, list_insert_id by done. by eapply same_dir_own. }
  unfold lin_remove. apply triple_gets. eapply triple_step; [exact Hat|done|]. intros ? ? ? ? (-> & -> & -> & ->). rewrite read_bucket_slot.
  destruct (is_allocated desc) eqn:Ea; cbn [negb].
  2:{ destruct (dir_own_slot _ _ _ _ _ _ _ Hd Ei Hk) as (? & ? & ? & _ & _ & _ & _ & Hxi & _). unfold slot_own in Hxi. cbn [fst snd] in Hxi.
      rewrite Ea in Hxi. destruct Hxi as (_ & _ & ->). eapply triple_steps; [apply triple_ret|done]. unfold after, returns. rewrite lookup_empty.
      split; [done|]. apply Hsame; [apply same_dir_refl, Hd|done]. }
  eapply triple_step; [by eapply slot_read_spec|done|]. intros p d1 ? ? (-> & -> & Hd1 & xD & pg & hx & r & -> & Hread).
  pose proof (page_own_none p kv hx (proj1 (sr_page _ _ _ _ _ _ _ _ _ _ _ Hread)) Hin) as Hp.
  assert (sorted_page p) as Hsp by by destruct Hp as (? & _ & ? & _).
  destruct (page_remove_map p id Hsp) as (p' & b & E & _ & _ & Eb & _). rewrite <- page_get_map, (inline_get p kv id Hp Hin) in Eb by done.
  rewrite E. assert (b = bool_decide (is_Some (kv !! id))) as -> by (rewrite Eb; apply bool_decide_ext; by rewrite fmap_is_Some).
  case_bool_decide as Hs.
  - assert (p' = mutate_bucket [(id, None)] p) as -> by (cbn [mutate_bucket foldl]; by rewrite E).
    destruct Hd1 as (s1 & -> & _). eapply triple_steps; [eapply triple_seq; [by eapply lin_commit_spec|apply Z.le_refl|]|done].
    intros [] d' x' log [Hd' Ecount]. apply triple_ret. unfold after, returns. split; [done|]. split; [by apply (Hback d' [(id, None)])|exact Ecount].
  - eapply triple_steps; [apply triple_ret|done]. unfold after, returns. split; [done|]. apply Hsame; [done|by apply eq_None_not_Some].
Qed.

(** ** Splitting *)

Lemma roomy_filter (P : Z * list byte -> Prop) `{!forall e, Decision (P e)} kv : roomy kv -> roomy (filter P kv).
Proof.
  unfold roomy, compress_bound. intros Hr. pose proof (cost_filter P kv) as Hc. pose proof (Z.div_le_mono _ _ 256 ltac:(lia) Hc). lia.
Qed.

Definition bit_at (level id : Z) : Z := Z.land (Z.shiftr (hash_of id) level) 1.

(** The two pages of a split hold the records by their bit. *)
Lemma split_parts level e0 es : page_own e0 ∅ ∅ -> Forall (fun e => fits 128 e.1 /\ zlen e.2 <= HEAP_SPILL_THRESHOLD) es -> NoDup (map fst es) ->
  exists keep moved, foldl (split_entry level) (e0, e0) (map (fun e => (e.1, Inline e.2)) es) = (keep, moved) /\
    page_own keep (filter (fun '(id, _) => bit_at level id = 0) (list_to_map es)) ∅ /\
    page_own moved (filter (fun '(id, _) => bit_at level id <> 0) (list_to_map es)) ∅ /\
    struct_id keep = struct_id e0 /\ version keep = version e0 /\ struct_id moved = struct_id e0 /\ version moved = version e0.
Proof.
  intros He. induction es as [|[id v] es IH] using rev_ind; intros Hall Hn.
  { exists e0, e0. cbn [list_to_map foldr map foldl]. change (list_to_map [] : Values) with (∅ : Values). rewrite !map_filter_empty. done. }
  apply Forall_app in Hall as [Hall Hv]. apply Forall_singleton in Hv as [Hid Hv]. cbn [fst snd] in *.
  rewrite map_app in Hn. apply NoDup_app in Hn as (Hn & Hd & _).
  assert (id ∉ map fst es) as Hnew by (intros Hi; apply (Hd id Hi); by left).
  destruct (IH Hall Hn) as (k & mv & E & Hk & Hm & S1 & S2 & S3 & S4).
  assert (forall P : Z * list byte -> Prop, forall `{!forall e, Decision (P e)}, inline_values (filter P (list_to_map es))) as Hin.
  { intros P HP i b Hb. apply map_lookup_filter_Some in Hb as [Hb _]. apply elem_of_list_to_map_2 in Hb. rewrite Forall_forall in Hall. by apply (Hall _ Hb). }
  assert (forall p (P : Z * list byte -> Prop) `{!forall e, Decision (P e)}, P (id, v) -> page_own p (filter P (list_to_map es)) ∅ ->
    page_own (upsert_entry id (Inline v) p) (filter P (list_to_map (es ++ [(id, v)]))) ∅) as Hup.
  { intros p P HP HPv Hp. rewrite list_to_map_snoc by done. rewrite map_filter_insert_True by done.
    apply (inline_mutate p _ (id, Some v) Hp (Hin P HP)). split; [done|]. by intros ? [= <-]. }
  assert (forall p (P : Z * list byte -> Prop) `{!forall e, Decision (P e)}, ~ P (id, v) -> page_own p (filter P (list_to_map es)) ∅ ->
    page_own p (filter P (list_to_map (es ++ [(id, v)]))) ∅) as Hkeep.
  { intros p P HP HPv Hp. rewrite list_to_map_snoc by done. rewrite map_filter_insert_False by done. rewrite delete_id; [done|].
    by apply not_elem_of_list_to_map_1. }
  rewrite map_app, foldl_app, E. cbn [map foldl split_entry fst snd]. fold (bit_at level id).
  destruct (Z.eqb_spec (bit_at level id) 0) as [Hb|Hb].
  - destruct (upsert_stamp id (Inline v) k). eexists _, _. split; [done|]. split; [by apply Hup|]. split; [by apply Hkeep; [tauto|]|].
    split_and!; congruence.
  - destruct (upsert_stamp id (Inline v) mv). eexists _, _. split; [done|]. split; [by apply Hkeep|]. split; [by apply Hup|].
    split_and!; congruence.
Qed.

(** The buckets after a split. *)
Lemma view_split kvs (m kv : Values) : routed_by bucket_for kvs -> (forall id, m !! id = view_by bucket_for kvs id) ->
  0 < zlen kvs -> kvs !! Z.to_nat (split_of (zlen kvs)) = Some kv ->
  let kvs' := <[Z.to_nat (split_of (zlen kvs)) := filter (fun '(id, _) => bit_at (level_of (zlen kvs)) id = 0) kv]> kvs ++
    [filter (fun '(id, _) => bit_at (level_of (zlen kvs)) id <> 0) kv] in
  routed_by bucket_for kvs' /\ forall id, m !! id = view_by bucket_for kvs' id.
Proof.
  intros Hr Hm Hpos Hk kvs'. set (n := zlen kvs) in *. set (s := Z.to_nat (split_of n)) in *.
  assert (zlen kvs' = n + 1) as El by (unfold kvs', n, zlen; rewrite length_app, length_insert; cbn [length]; lia).
  assert (length kvs = Z.to_nat n) as En by (unfold n, zlen; lia).
  pose proof (lookup_lt_Some _ _ _ Hk) as Hs.
  assert (forall j, kvs' !! j = if decide (j = Z.to_nat n) then Some (filter (fun '(id, _) => bit_at (level_of n) id <> 0) kv)
    else if decide (j = s) then Some (filter (fun '(id, _) => bit_at (level_of n) id = 0) kv) else kvs !! j) as Hj.
  { intros j. unfold kvs'. case_decide as H1; [subst j|case_decide as H2; [subst j|]].
    - rewrite lookup_app_r, length_insert, En, Nat.sub_diag by (rewrite length_insert; lia). done.
    - rewrite lookup_app_l by (rewrite length_insert; lia). by rewrite list_lookup_insert_eq.
    - destruct (decide (j < length kvs)%nat).
      + rewrite lookup_app_l by (by rewrite length_insert). by rewrite list_lookup_insert_ne.
      + rewrite (lookup_ge_None_2 kvs) by lia. apply lookup_ge_None_2. rewrite length_app, length_insert. cbn [length]. lia. }
  split.
  - intros j kv' id v Hl Hv. rewrite Hj in Hl. rewrite El, bucket_for_grow by done. change (split_bit id n) with (bit_at (level_of n) id). fold s.
    case_decide as H1; [|case_decide as H2].
    + injection Hl as <-. apply map_lookup_filter_Some in Hv as [Hv Hb]. pose proof (Hr _ _ _ _ Hk Hv) as E. change (zlen kvs) with n in E. rewrite <- E.
      rewrite decide_True by done. by replace (bit_at (level_of n) id =? 0) with false by lia.
    + injection Hl as <-. apply map_lookup_filter_Some in Hv as [Hv Hb]. pose proof (Hr _ _ _ _ Hk Hv) as E. change (zlen kvs) with n in E. rewrite <- E.
      rewrite decide_True by done. by rewrite Hb.
    + pose proof (Hr _ _ _ _ Hl Hv) as E. change (zlen kvs) with n in E. rewrite <- E. by rewrite decide_False.
  - intros id. rewrite Hm. unfold view_by. rewrite El, Hj, bucket_for_grow by done. change (split_bit id n) with (bit_at (level_of n) id). fold s n.
    pose proof (bucket_for_bound id n Hpos) as Hb. destruct (decide (bucket_for id n = s)) as [E|E].
    + rewrite E, Hk. destruct (Z.eqb_spec (bit_at (level_of n) id) 0) as [Hb0|Hb0].
      * rewrite decide_False, decide_True by lia. symmetry. destruct (kv !! id) as [v|] eqn:Ev.
        -- by apply map_lookup_filter_Some.
        -- apply map_lookup_filter_None. by left.
      * rewrite decide_True by done. symmetry. destruct (kv !! id) as [v|] eqn:Ev.
        -- by apply map_lookup_filter_Some.
        -- apply map_lookup_filter_None. by left.
    + rewrite decide_False, decide_False by (done || lia). done.
Qed.

(** A page placed when it has records. *)
Lemma place_if_nonempty_spec D (d : PageDirectory) xD y p kv : dicts_ok (dicts d) D -> dicts_at D xD -> xD ##ₘ y ->
  fits 32 (struct_id p) -> fits 8 (version p) -> page_own p kv ∅ -> roomy kv ->
  triple d (xD ∪ y) (place_if_nonempty p) MAX_BLOCK_COUNT (returns (fun desc d' x' _ => same_dir D d d' /\
    exists z, x' = xD ∪ (z ∪ y) /\ xD ##ₘ z /\ z ##ₘ y /\ slot_own D (struct_id p) (version p) (desc, kv) z)).
Proof.
  intros Hs Hx Hd Hsid Hver Hp Hroom. destruct (page_own_fits p kv ∅ Hp Hsid Hver) as [Elen Hfit].
  eapply triple_ext; [apply place_if_nonempty_eq|]. destruct (page_is_empty p) eqn:Ee.
  - destruct (page_own_nil p kv ∅ Ee Hp) as [-> _]. eapply triple_steps; [apply triple_ret|done]. split; [by apply same_dir_refl|].
    exists ∅. rewrite (left_id_L ∅ (∪)). split_and!; [done|apply map_disjoint_empty_r|apply map_disjoint_empty_l|done].
  - eapply triple_weaken; [apply (place_spec D d xD y p); [done|done|done|by apply Hfit, roomy_cost]|done|].
    intros [desc|e|] d' x' l [Hd' Hq]; [|destruct Hq as (_ & _ & Hb); unfold roomy, image_bound in *; rewrite Elen in Hb; lia|done].
    destruct Hq as (Ha & HnD & Hn & _ & bs & -> & Hpage). specialize (Hpage kv ∅ Hp (map_empty_subseteq y)). rewrite (right_id_L ∅ (∪)) in Hpage.
    split; [done|]. exists {[run_start (desc_run desc) := bs]}. split; [by rewrite insert_union_singleton_l|].
    split; [by apply map_disjoint_singleton_r|]. split; [by apply map_disjoint_singleton_l|]. unfold slot_own. cbn [fst snd]. rewrite Ha. by eexists _, _, _.
Qed.

Lemma dir_own_snoc D d kvs x desc kv z : dir_own D d kvs x -> x ##ₘ z -> slot_own D (dir_struct_id d) (dir_version d) (desc, kv) z ->
  dir_own D (push_slot desc d) (kvs ++ [kv]) (x ∪ z).
Proof.
  intros [Hst Hc Hds (xD & xs & -> & Hd & Hx & Ho)] [Hz1 Hz2]%map_disjoint_union_l Hz. constructor; cbn; [done|by rewrite !length_app, Hc|done|].
  exists xD, (xs ∪ z). split; [by rewrite (assoc_L (∪))|]. split; [by apply map_disjoint_union_r|]. split; [done|].
  rewrite zip_with_app by done. apply owns_app. exists xs, z. split; [done|]. split; [done|]. split; [done|]. by apply owns_one.
Qed.

Lemma free_old_spec {desc} (d : LinearDirectory) pg y : old_own desc pg -> pg ##ₘ y ->
  triple d (pg ∪ y) (free_old desc) 0 (returns (fun _ d' x' _ => d' = d /\ x' = y)).
Proof.
  unfold old_own, free_old. intros Ho Hd. destruct (is_allocated desc).
  - eapply triple_weaken; [by apply free_own|done|]. intros [[]|e|] d' x' l Hq; [|done|done]. by destruct Hq as (-> & -> & _).
  - subst pg. rewrite (left_id_L ∅ (∪)). by apply triple_ret.
Qed.

(** A split keeps the map and adds a bucket. *)
Lemma split_next_holds d m x : lin_holds d m x ->
  roomy (values_at bucket_for m (lin_bucket_count d) (Z.to_nat (split_pointer d))) ->
  triple d x split_next (MAX_BLOCK_COUNT + MAX_BLOCK_COUNT) (returns (fun _ d' x' _ =>
    lin_holds d' m x' /\ lin_bucket_count d' = lin_bucket_count d + 1)).
Proof.
  intros Hh Hroom. pose proof (lin_holds_count d m x Hh) as Hpos. pose proof (split_of_bounds _ Hpos) as Hsb.
  set (i := Z.to_nat (split_of (lin_bucket_count d))).
  assert (i < length (slots d))%nat as Hi by (unfold i; unfold lin_bucket_count, zlen in *; lia).
  destruct (lin_focus d m x i Hh Hi) as (D & kvs & kv & desc & Hd & Hk & Ei & Ec & Ev & Hin & Hat & _ & Hr & Hm).
  unfold split_pointer in Hroom. fold i in Hroom. rewrite Ev in Hroom.
  unfold split_next. apply triple_gets. fold i. eapply triple_step; [exact Hat|done|]. intros ? ? ? ? (-> & -> & -> & ->). rewrite read_bucket_slot.
  eapply triple_step; [by eapply slot_read_spec|done|]. intros p d1 ? ? (-> & -> & (s1 & -> & _) & xD & pg & hx & r & -> & Hread).
  apply triple_gets. destruct (page_own_inline p kv hx (proj1 (sr_page _ _ _ _ _ _ _ _ _ _ _ Hread)) Hin) as (-> & es & Ees & Hsp & Ekv & Hes).
  pose proof Hread as [[[[HDp _]%map_disjoint_union_r HDr]%map_disjoint_union_r (_ & Hpr & _)] [Hx Hds] (_ & _ & Hfs & Hfv) [_ Hold] Hbk].
  set (d1 := with_dicts s1 d) in *. rewrite (right_id_L ∅ (∪)) in *.
  assert (NoDup (map fst es)) as Hnes.
  { apply sorted_nodup. unfold sorted_page in Hsp. rewrite Ees, map_map in Hsp. by rewrite (map_ext _ fst) in Hsp. }
  destruct (split_parts (level_of (lin_bucket_count d)) (empty_page d1) es (page_own_empty _ _) Hes Hnes)
    as (keep & moved & E & Hkeep & Hmoved & S1 & S2 & S3 & S4).
  change (with_dicts s1 d) with d1. rewrite Ees, E, <- Ekv in *. cbn [empty_page page_new struct_id version] in S1, S2, S3, S4.
  eapply triple_seq; [apply (place_if_nonempty_spec D d1 xD (pg ∪ r) keep)|done|]; try done;
    [by apply map_disjoint_union_r|by rewrite S1|by rewrite S2|by apply roomy_filter|].
  intros kd d2 ? ? ((s2 & -> & Hs2 & Es2) & z1 & -> & HDz1 & [Hz1p Hz1r]%map_disjoint_union_r & Hz1). rewrite S1, S2 in Hz1.
  eapply triple_steps; [eapply triple_seq; [apply (place_if_nonempty_spec D (with_dicts s2 d1) xD (z1 ∪ (pg ∪ r)) moved)|apply Z.le_refl|]|done]; try done;
    [by repeat (apply map_disjoint_union_r; split)|by rewrite S3|by rewrite S4|by apply roomy_filter|].
  intros md d3 ? ? ((s3 & -> & Hs3 & Es3) & z2 & -> & HDz2 & [Hz2z [Hz2p Hz2r]%map_disjoint_union_r]%map_disjoint_union_r & Hz2). rewrite S3, S4 in Hz2.
  assert (xD ∪ (z2 ∪ (z1 ∪ (pg ∪ r))) = pg ∪ (xD ∪ (z1 ∪ r) ∪ z2)) as ->.
  { rewrite !(assoc_L (∪)). rewrite (map_union_comm (xD ∪ z2 ∪ z1) pg) by (by repeat (apply map_disjoint_union_l; split)).
    rewrite <- !(assoc_L (∪)). f_equal. f_equal. rewrite (map_union_comm z2) by by apply map_disjoint_union_r. by rewrite <- (assoc_L (∪)). }
  assert (pg ##ₘ xD ∪ (z1 ∪ r) ∪ z2) as Hdp by (by repeat (apply map_disjoint_union_r; split)).
  eapply triple_step; [by apply free_old_spec|done|]. intros [] ? ? ? (-> & ->). apply triple_modify.
  apply triple_self. cbn [fst snd]. unfold after, returns.
  pose proof (Hbk (with_dicts s3 (with_dicts s2 d1)) kd (filter (fun '(id, _) => bit_at (level_of (lin_bucket_count d)) id = 0) kv) z1) as Hb.
  assert (dir_own D (set_slot i kd (with_dicts s3 (with_dicts s2 d1))) (<[i := filter (fun '(id, _) => bit_at (level_of (lin_bucket_count d)) id = 0) kv]> kvs) (xD ∪ (z1 ∪ r))) as Hd3.
  { apply Hb; [|by apply map_disjoint_union_r|done|done]. exists s3. split_and!; [done|done|]. cbn in *. congruence. }
  pose proof (dir_own_snoc D _ _ _ md (filter (fun '(id, _) => bit_at (level_of (lin_bucket_count d)) id <> 0) kv) z2 Hd3) as Hd4.
  split.
  - destruct (view_split kvs m kv Hr Hm) as [Hr' Hm']; [by rewrite <- Ec|by rewrite <- Ec|]. rewrite <- Ec in Hr', Hm'.
    destruct Hh as (_ & _ & _ & _ & _ & _ & Hinm). eexists D, _. split; [apply Hd4; [|done]; by repeat (apply map_disjoint_union_l; split)|].
    split; [exact Hr'|]. split; [by intros []%app_nil|]. by split.
  - unfold lin_bucket_count, zlen, push_slot, set_slot. cbn. rewrite length_app, length_insert. cbn [length]. lia.
Qed.

Lemma lin_new_holds sid ver level : fits 32 sid -> fits 8 ver -> 0 <= level <= MAX_LEVEL ->
  exists d, lin_new sid ver level = Done d /\ lin_holds d ∅ ∅ /\ lin_bucket_count d = 2 ^ level.
Proof.
  intros Hs Hv Hl. unfold lin_new. replace (level <=? MAX_LEVEL) with true by lia. eexists. split; [done|]. rewrite Z.shiftl_1_l.
  unfold lin_bucket_count, zlen. cbn [slots]. rewrite length_replicate. split; [|lia].
  destruct (fresh_view bucket_for (Z.to_nat (2 ^ level))). exists ∅, (replicate (Z.to_nat (2 ^ level)) ∅). split; [by apply fresh_dir_own|].
  split; [done|]. split; [|split; [done|by intros id v Hv']]. intros E. apply (f_equal length) in E. rewrite length_replicate in E. cbn [length] in E. lia.
Qed.

(** Growth by [k] buckets. *)
Definition grow_by (k : nat) : M unit := st_iter (fun _ => split_next) (seq 0 k).

Lemma grow_by_holds k : forall a d m x, lin_holds d m x ->
  (forall n, lin_bucket_count d <= n < lin_bucket_count d + Z.of_nat k -> roomy (values_at bucket_for m n (Z.to_nat (split_of n)))) ->
  triple d x (st_iter (fun _ => split_next) (seq a k)) (Z.of_nat k * (MAX_BLOCK_COUNT + MAX_BLOCK_COUNT)) (returns (fun _ d' x' _ =>
    lin_holds d' m x' /\ lin_bucket_count d' = lin_bucket_count d + Z.of_nat k)).
Proof.
  induction k as [|k IH]; intros a d m x Hh Hroom.
  - eapply triple_steps; [apply triple_ret|done]. split; [done|lia].
  - eapply triple_steps; [eapply triple_seq; [apply (split_next_holds d m x Hh); apply (Hroom (lin_bucket_count d)); lia| |]|].
    2:{ intros [] d1 x1 l1 [Hh1 Ec1]. eapply triple_weaken; [apply (IH (S a) d1 m x1 Hh1)|apply Z.le_refl|].
        - intros n Hn. apply Hroom. lia.
        - intros [[]|e|] d2 x2 l2 Hq; [|done|done]. destruct Hq as [Hh2 Ec2]. split; [done|]. lia. }
    + unfold MAX_BLOCK_COUNT. lia.
    + unfold MAX_BLOCK_COUNT. lia.
Qed.

(** C17: growing a linear-hashing directory by any number of buckets after a write
    changes no read: every id reads the value written, or what it read before, and
    the directory has that many buckets more. *)
Theorem linear_put_grow_get d m x id v k id' : lin_holds d m x -> fits 128 id -> zlen v <= HEAP_SPILL_THRESHOLD ->
  roomy (values_at bucket_for (<[id := v]> m) (lin_bucket_count d) (lin_index d id)) ->
  (forall n, lin_bucket_count d <= n < lin_bucket_count d + Z.of_nat k -> roomy (values_at bucket_for (<[id := v]> m) n (Z.to_nat (split_of n)))) ->
  triple d x (do! lin_put id v in do! grow_by k in lin_get id') (20 + MAX_BLOCK_COUNT + Z.of_nat k * (MAX_BLOCK_COUNT + MAX_BLOCK_COUNT))
    (returns (fun r d' x' _ => r = <[id := v]> m !! id' /\ lin_holds d' (<[id := v]> m) x' /\
      lin_bucket_count d' = lin_bucket_count d + Z.of_nat k)).
Proof.
  intros Hh Hid Hv Hroom Hrooms. pose proof (zlen_nonneg v). assert (zlen v / DATA_BLOCK_SIZE + 2 <= 20) as Hb.
  { unfold HEAP_SPILL_THRESHOLD, DATA_BLOCK_SIZE in *. Z.to_euclidean_division_equations; lia. }
  eapply triple_steps; [eapply triple_seq; [by apply (lin_put_holds d m x id v)| |]|].
  2:{ intros [] d1 x1 l1 [Hh1 Ec1]. rewrite <- Ec1 in Hrooms. eapply triple_seq; [by apply grow_by_holds|exact (Z.le_refl 0)|].
      intros [] d2 x2 l2 [Hh2 Ec2]. eapply triple_weaken; [by apply lin_get_holds|done|].
      intros [r|e|] d3 x3 l3 Hq; [|done|done]. destruct Hq as (-> & -> & _ & Hh3 & Ec3). unfold after, returns. split; [done|]. split; [done|]. lia. }
  - unfold MAX_BLOCK_COUNT. lia.
  - lia.
Qed.
End map.

(** ** The theorem on a new directory of one bucket *)

Section example.
#[local] Existing Instance plain_codecs.
#[local] Existing Instance plain_codec_laws.

Definition new_linear : LinearDirectory := from_option id {| dir_struct_id := 0; dir_version := 0; slots := []; dicts := dicts_new |}
  (match lin_new 7 2 0 with Done d => Some d | _ => None end).

Lemma new_linear_holds : lin_holds new_linear ∅ ∅.
Proof. destruct (lin_new_holds 7 2 0) as (d & E & Hd & _); [by vm_compute..|]. unfold new_linear. by rewrite E. Qed.

Lemma one_value_roomy (P : Z * list byte -> Prop) `{!forall e, Decision (P e)} : roomy (filter P (<[5 := [Byte.x61]]> (∅ : Values))).
Proof. apply roomy_filter. by vm_compute. Qed.

Lemma linear_put_grow_get_witness :
  triple new_linear ∅ (do! lin_put 5 [Byte.x61] in do! grow_by 3 in lin_get 5) (20 + MAX_BLOCK_COUNT + 3 * (MAX_BLOCK_COUNT + MAX_BLOCK_COUNT))
    (returns (fun r d' x' _ => r = <[5 := [Byte.x61]]> (∅ : Values) !! 5 /\ lin_holds d' (<[5 := [Byte.x61]]> ∅) x' /\
      lin_bucket_count d' = lin_bucket_count new_linear + 3)).
Proof.
  refine (linear_put_grow_get new_linear ∅ ∅ 5 [Byte.x61] 3 5 new_linear_holds _ _ _ _); [by vm_compute..| |].
  - apply one_value_roomy.
  - intros n _. apply one_value_roomy.
Defined.

(** The same run, evaluated: five ids, four splits. *)
Definition linear_demo : outcome StorageError (list (option (list byte)) * Z) :=
  fst ((do! lin_put 1 [Byte.x61] in do! lin_put 2 [Byte.x62] in do! lin_put 300 [Byte.x63] in
   do! grow_by 4 in do! lin_remove 2 in
   let! a := lin_get 1 in let! b := lin_get 2 in let! c := lin_get 300 in
   let! n := on_self (st_gets lin_bucket_count) in st_ret ([a; b; c], n)) (new_linear, create_in_memory)).

Example linear_demo_runs : linear_demo = Done ([Some [Byte.x61]; None; Some [Byte.x63]], 5).
Proof. by vm_compute. Qed.
End example.
