(* ===== verification/BTreeStore.v ===== *)
(** * B+ tree nodes stored as pages (wavedb-storage/src/file/btree_store.rs)

    A node is a checked page of its own run; a reference packs the run, and a cache
    keeps the nodes read and written.  What the store promises: under any cache
    that agrees with the file, every live reference loads its node. *)
From S2P Require Import Prelude Ordered Wire Errors BlockAlloc BlockAllocOk BlockFile Regions Codec Dict.

Abbreviation NodeRef := Z.

Definition START_BITS : Z := 48.
Definition START_MASK : Z := Z.shiftl 1 START_BITS - 1.
Definition NODE_HEADER : Z := 7.
Definition TYPE_LEAF : Z := 0.
Definition TYPE_INTERNAL : Z := 1.

Definition NODE_NONE : NodeRef := 0.
Definition noderef_new (start_block block_count : Z) : StorageResult NodeRef :=
  do* guard (start_block <=? START_MASK) in
  Done (Z.lor start_block (wrap 64 (Z.shiftl block_count START_BITS))).
Definition noderef_is_none (r : NodeRef) : bool := r =? 0.
Definition noderef_start (r : NodeRef) : Z := Z.land r START_MASK.
Definition noderef_count (r : NodeRef) : Z := wrap 16 (Z.shiftr r START_BITS).
Definition noderef_run (r : NodeRef) : BlockRun := {| run_start := noderef_start r; run_len := noderef_count r |}.

Inductive Node : Type :=
  | NLeaf (entries : list (Z * Z)) (next : NodeRef)
  | NInternal (keys : list Z) (children : list NodeRef).

Definition body_len (n : Node) : Z :=
  match n with
  | NLeaf entries _ => 8 + zlen entries * 24
  | NInternal keys children => zlen keys * 8 + zlen children * 8
  end.

Definition leaf_bytes (e : Z * Z) : list byte := le_bytes 8 e.1 ++ le_bytes 16 e.2.

(** [n] values of [w] bytes from [off], and the pairs of a leaf. *)
Fixpoint read_values (n : nat) (w off : Z) (bytes : list byte) : StorageResult (list Z) :=
  match n with
  | O => Done []
  | S n => let* v := u_at off w bytes in let* vs := read_values n w (off + w) bytes in Done (v :: vs)
  end.

Fixpoint read_pairs (n : nat) (off : Z) (bytes : list byte) : StorageResult (list (Z * Z)) :=
  match n with
  | O => Done []
  | S n =>
    let* k := u_at off 8 bytes in
    let* v := u_at (off + 8) 16 bytes in
    let* vs := read_pairs n (off + 24) bytes in
    Done ((k, v) :: vs)
  end.

Abbreviation NodeCache := (gmap Z Node).

Definition cache_new : NodeCache := ∅.
Definition cache_len (c : NodeCache) : Z := Z.of_nat (size c).
Definition cache_is_empty (c : NodeCache) : bool := cache_len c =? 0.

Abbreviation NM := (ST (NodeCache * BlockFile) StorageError).

Section store.
Context `{Codecs}.

(** More entries than 16 bits count panic. *)
Definition node_encode (n : Node) : StorageResult (list byte) :=
  match n with
  | NLeaf entries next =>
    do* guard (fitsb 16 (zlen entries)) in
    Done (sealed (le_bytes 1 TYPE_LEAF ++ le_bytes 2 (zlen entries) ++ le_bytes 8 next ++ concat (map leaf_bytes entries)))
  | NInternal keys children =>
    do* guard (fitsb 16 (zlen keys)) in
    Done (sealed (le_bytes 1 TYPE_INTERNAL ++ le_bytes 2 (zlen keys) ++ concat (map (le_bytes 8) keys) ++ concat (map (le_bytes 8) children)))
  end.

Definition node_decode (bytes : list byte) : StorageResult Node :=
  if zlen bytes <? NODE_HEADER then Fail (Other "node page too short")
  else
    let* node_type := u_at 4 1 bytes in
    let* count := u_at 5 2 bytes in
    let* body := (if node_type =? TYPE_LEAF then Done (8 + count * 24)
                  else if node_type =? TYPE_INTERNAL then Done (count * 8 + (count + 1) * 8)
                  else Fail (Other "unknown node type")) in
    let end_ := NODE_HEADER + body in
    if zlen bytes <? end_ then Fail (Other "node page length out of range")
    else
      do* check_seal end_ bytes in
      if node_type =? TYPE_LEAF then
        let* next := u_at 7 8 bytes in
        let* entries := read_pairs (Z.to_nat count) 15 bytes in
        Done (NLeaf entries next)
      else
        let* keys := read_values (Z.to_nat count) 8 NODE_HEADER bytes in
        let* children := read_values (Z.to_nat (count + 1)) 8 (NODE_HEADER + 8 * count) bytes in
        Done (NInternal keys children).

Definition node_load (r : NodeRef) : NM Node :=
  do! st_lift (guard (negb (noderef_is_none r))) in
  let! hit := on_self (st_gets (fun c : NodeCache => c !! r)) in
  match hit with
  | Some n => st_ret n
  | None =>
    let! page := on_file (read_run (noderef_run r)) in
    let! n := st_lift (node_decode page) in
    do! on_self (st_modify (fun c : NodeCache => <[r := n]> c)) in
    st_ret n
  end.

Definition node_write (n : Node) : NM NodeRef :=
  let! image := st_lift (node_encode n) in
  let blocks := blocks_for_bytes (zlen image) in
  let! count := st_lift (if fitsb 16 blocks then Done blocks else Fail (Other "node exceeds u16 blocks")) in
  let! run := on_file (block_allocate blocks) in
  do! on_file (write_run run image) in
  let! r := st_lift (noderef_new (run_start run) count) in
  do! on_self (st_modify (fun c : NodeCache => <[r := n]> c)) in
  st_ret r.

Definition invalidate (r : NodeRef) : NM unit := on_self (st_modify (fun c : NodeCache => delete r c)).
End store.

(** ** The image of a node *)

(** Keys of 64 bits, values of 128; a child more than keys. *)
Definition node_ok (n : Node) : Prop :=
  match n with
  | NLeaf entries next => fits 16 (zlen entries) /\ fits 64 next /\ Forall (fun e => fits 64 e.1 /\ fits 128 e.2) entries
  | NInternal keys children => fits 16 (zlen keys) /\ length children = S (length keys) /\ Forall (fits 64) keys /\ Forall (fits 64) children
  end.

Lemma zlen_blocks {A} (f : A -> list byte) w l : (forall x, zlen (f x) = w) -> zlen (concat (map f l)) = zlen l * w.
Proof. intros Hf. induction l as [|x l IH]; [done|]. cbn [map concat]. rewrite zlen_app, Hf, IH. unfold zlen. cbn [length]. lia. Qed.

Lemma read_values_stand w vs b : Forall (fits (8 * Z.of_nat w)) vs -> forall off,
  stands b off (concat (map (le_bytes w) vs)) -> read_values (length vs) (Z.of_nat w) off b = Done vs.
Proof.
  induction 1 as [|v vs Hv _ IH]; intros off Hs; [done|]. cbn [map concat] in Hs. apply stands_app in Hs as [Hv' Hs].
  rewrite zlen_le_bytes in Hs. cbn [length read_values]. rewrite (u_at_stands _ _ _ _ Hv') by done. cbn [obind]. by rewrite IH.
Qed.

Lemma read_pairs_stand es b : Forall (fun e => fits 64 e.1 /\ fits 128 e.2) es -> forall off,
  stands b off (concat (map leaf_bytes es)) -> read_pairs (length es) off b = Done es.
Proof.
  induction 1 as [|[k v] es [Hk Hv] _ IH]; intros off Hs; [done|]. cbn [map concat] in Hs. unfold leaf_bytes in Hs at 1.
  rewrite <- (assoc_L (++)) in Hs. cbn [fst snd] in *. apply stands_app in Hs as [F Hs]. apply stands_app in Hs as [F0 Hs].
  rewrite !zlen_le_bytes in *. change (Z.of_nat 8) with 8 in *. change (Z.of_nat 16) with 16 in *. cbn [length read_pairs].
  change (u_at off 8 b) with (u_at off (Z.of_nat 8) b). change (u_at (off + 8) 16 b) with (u_at (off + 8) (Z.of_nat 16) b).
  rewrite (u_at_stands _ _ _ _ F), (u_at_stands _ _ _ _ F0) by done. cbn [obind].
  replace (off + 8 + 16) with (off + 24) in Hs by lia. by rewrite IH.
Qed.

Section laws.
Context `{CodecLaws}.

(** The image of a node, padded to its blocks, decodes to the node. *)
Lemma node_image n : node_ok n -> exists image, node_encode n = Done image /\ zlen image = NODE_HEADER + body_len n /\
  forall pad, node_decode (image ++ pad) = Done n.
Proof.
  assert (forall e, zlen (leaf_bytes e) = 24) as Hleaf by (intros e; unfold leaf_bytes; by rewrite zlen_app, !zlen_le_bytes).
  assert (forall v : Z, zlen (le_bytes 8 v) = 8) as H8 by (intros v; by rewrite zlen_le_bytes).
  destruct n as [entries next|keys children]; cbn [node_ok node_encode body_len].
  - intros (Hc & Hn & He). rewrite (proj2 (fitsb_spec 16 _) Hc). cbn [guard obind]. set (body := le_bytes 1 TYPE_LEAF ++ _).
    assert (zlen body = 11 + zlen entries * 24) as Eb by (unfold body; rewrite !zlen_app, !zlen_le_bytes, (zlen_blocks _ 24) by done; lia).
    pose proof (zlen_nonneg entries). eexists. split; [done|]. rewrite zlen_sealed. unfold NODE_HEADER. split; [lia|]. intros pad.
    set (b := sealed body ++ pad). pose proof (sealed_body body pad) as Hs. fold b in Hs. unfold body in Hs. fields Hs.
    assert (zlen b = 15 + zlen entries * 24 + zlen pad) as El by (unfold b; rewrite zlen_app, zlen_sealed; lia). pose proof (zlen_nonneg pad).
    unfold node_decode, NODE_HEADER. replace (zlen b <? 7) with false by lia.
    change (u_at 4 1 b) with (u_at 4 (Z.of_nat 1) b). change (u_at 5 2 b) with (u_at 5 (Z.of_nat 2) b). change (u_at 7 8 b) with (u_at 7 (Z.of_nat 8) b).
    rewrite (u_at_stands _ _ _ _ F), (u_at_stands _ _ _ _ F0), (u_at_stands _ _ _ _ F1) by done. cbn [obind].
    change (TYPE_LEAF =? TYPE_LEAF) with true. cbn [obind]. cbv zeta. replace (zlen b <? 7 + (8 + zlen entries * 24)) with false by lia.
    assert (check_seal (7 + (8 + zlen entries * 24)) b = Done tt) as -> by (apply check_sealed; lia). cbn [obind].
    replace (Z.to_nat (zlen entries)) with (length entries) by (unfold zlen; lia). by rewrite read_pairs_stand.
  - intros (Hc & Hch & Hk & Hr). rewrite (proj2 (fitsb_spec 16 _) Hc). cbn [guard obind]. set (body := le_bytes 1 TYPE_INTERNAL ++ _).
    assert (zlen children = zlen keys + 1) as Ec by (unfold zlen; lia).
    assert (zlen body = 3 + zlen keys * 8 + zlen children * 8) as Eb.
    { unfold body. rewrite !zlen_app, !zlen_le_bytes, !(zlen_blocks _ 8) by done. lia. }
    pose proof (zlen_nonneg keys). eexists. split; [done|]. rewrite zlen_sealed. unfold NODE_HEADER. split; [lia|]. intros pad.
    set (b := sealed body ++ pad). pose proof (sealed_body body pad) as Hs. fold b in Hs. unfold body in Hs. fields Hs.
    rewrite (zlen_blocks _ 8) in Hs by done.
    assert (zlen b = 7 + zlen keys * 8 + zlen children * 8 + zlen pad) as El by (unfold b; rewrite zlen_app, zlen_sealed; lia). pose proof (zlen_nonneg pad).
    unfold node_decode, NODE_HEADER. replace (zlen b <? 7) with false by lia.
    change (u_at 4 1 b) with (u_at 4 (Z.of_nat 1) b). change (u_at 5 2 b) with (u_at 5 (Z.of_nat 2) b).
    rewrite (u_at_stands _ _ _ _ F), (u_at_stands _ _ _ _ F0) by done. cbn [obind].
    change (TYPE_INTERNAL =? TYPE_LEAF) with false. change (TYPE_INTERNAL =? TYPE_INTERNAL) with true. cbn [obind]. cbv zeta.
    replace (zlen b <? 7 + (zlen keys * 8 + (zlen keys + 1) * 8)) with false by lia.
    assert (check_seal (7 + (zlen keys * 8 + (zlen keys + 1) * 8)) b = Done tt) as -> by (apply check_sealed; lia). cbn [obind].
    replace (Z.to_nat (zlen keys)) with (length keys) by (unfold zlen; lia). replace (Z.to_nat (zlen keys + 1)) with (length children) by (unfold zlen in *; lia).
    change (read_values (length keys) 8 7 b) with (read_values (length keys) (Z.of_nat 8) 7 b). rewrite read_values_stand by done. cbn [obind].
    replace (7 + 8 * zlen keys) with (7 + zlen keys * 8) by lia.
    change (read_values (length children) 8 ?o b) with (read_values (length children) (Z.of_nat 8) o b). by rewrite read_values_stand.
Qed.

(** ** The nodes of a file *)

Record nodes_at (N : gmap Z Node) (x : Regions) : Prop := {
  na_page : forall r n, N !! r = Some n -> noderef_is_none r = false /\ run_fits (noderef_run r) /\ node_ok n /\
    exists image pad, node_encode n = Done image /\ holds x (noderef_run r) (image ++ pad);
  na_apart : forall r n r' n', N !! r = Some n -> N !! r' = Some n' -> noderef_start r = noderef_start r' -> r = r';
  na_only : forall b bs, x !! b = Some bs -> exists r n, N !! r = Some n /\ noderef_start r = b
}.

(** A cache that agrees with the file. *)
Definition store_ok (c : NodeCache) (N : gmap Z Node) (x : Regions) : Prop := c ⊆ N /\ nodes_at N x.

Lemma store_new : store_ok cache_new ∅ ∅.
Proof. split; [done|]. constructor; intros *; by rewrite lookup_empty. Qed.

Lemma node_load_spec c N x r n : store_ok c N x -> N !! r = Some n ->
  triple c x (node_load r) 0 (returns (fun a c' x' _ => a = n /\ x' = x /\ store_ok c' N x)).
Proof.
  intros [Hc Hx] Hr. destruct (na_page _ _ Hx _ _ Hr) as (Hn & _ & Hok & image & pad & Hi & Hh). destruct (node_image n Hok) as (image' & E & _ & Hdec).
  rewrite Hi in E. injection E as <-. unfold node_load. rewrite Hn. eapply triple_done; [done|]. apply triple_gets.
  destruct (c !! r) as [a|] eqn:E.
  { apply triple_ret. pose proof (lookup_weaken _ _ _ _ E Hc). split; [congruence|]. by split. }
  eapply triple_step; [by apply (triple_read _ _ _ (image ++ pad))|done|]. intros ? ? ? ? (-> & -> & -> & ->).
  eapply triple_done; [apply Hdec|]. apply triple_modify, triple_ret. split; [done|]. split; [done|]. split; [by apply insert_subseteq_l|done].
Qed.

Lemma noderef_new_spec s c : 0 <= s < 2 ^ 48 -> 0 < c < 2 ^ 16 ->
  exists r, noderef_new s c = Done r /\ noderef_run r = {| run_start := s; run_len := c |} /\ noderef_is_none r = false.
Proof. intros Hs Hc. destruct (ref_new_spec s c Hs Hc) as (r & H1 & H2 & H3 & _). by exists r. Qed.

(** The blocks of a node. *)
Definition node_blocks (n : Node) : Z := blocks_for_bytes (NODE_HEADER + body_len n).

Lemma node_blocks_bound n : node_ok n -> 0 < node_blocks n < 2 ^ 16 /\ NODE_HEADER + body_len n <= node_blocks n * DATA_BLOCK_SIZE.
Proof.
  intros Hn. assert (8 <= body_len n <= 2 ^ 21) as Hb.
  { destruct n as [entries next|keys children]; cbn [node_ok body_len] in *.
    - destruct Hn as [Hn _]. unfold fits in Hn. lia.
    - destruct Hn as (Hn & Hl & _). unfold fits in Hn. assert (zlen children = zlen keys + 1) as -> by (unfold zlen; lia). lia. }
  unfold node_blocks, NODE_HEADER in *. pose proof (blocks_for_bytes_spec (7 + body_len n) ltac:(lia)). unfold DATA_BLOCK_SIZE in *. lia.
Qed.

Lemma node_write_spec c N x n : store_ok c N x -> node_ok n ->
  triple c x (node_write n) (node_blocks n) (returns (fun r c' x' _ => N !! r = None /\ store_ok c' (<[r := n]> N) x')).
Proof.
  intros [Hc Hx] Hn. destruct (node_image n Hn) as (image & Hi & El & _). destruct (node_blocks_bound n Hn) as [Hb Hfit].
  unfold node_write. eapply triple_done; [exact Hi|]. cbv zeta. rewrite El. fold (node_blocks n).
  eapply triple_done; [by rewrite (proj2 (fitsb_spec 16 (node_blocks n))) by (unfold fits; lia)|].
  eapply triple_steps; [eapply triple_seq; [apply (triple_allocate c x (node_blocks n)); lia|apply Z.le_refl|]|lia].
  intros run ? ? ? (-> & Elen & Hrun & Hfree & -> & bs & -> & Hbs).
  eapply triple_step; [apply (triple_write _ _ _ bs)|done|].
  { split; [by rewrite lookup_insert_eq|by rewrite Elen]. } { unfold DATA_BLOCK_SIZE in *. lia. }
  intros [] ? ? ? (-> & -> & pad & -> & Hpad). rewrite insert_insert_eq.
  destruct (noderef_new_spec (run_start run) (node_blocks n)) as (r & Er & Erun & Hnone); [unfold run_fits in Hrun; lia|lia|].
  assert (noderef_run r = run) as Err by (destruct run; cbn in *; congruence). assert (noderef_start r = run_start run) as Es by by rewrite <- Err.
  eapply triple_done; [exact Er|]. apply triple_modify, triple_ret. unfold after, returns.
  assert (forall r' n', N !! r' = Some n' -> noderef_start r' <> run_start run) as Hne.
  { intros r' n' E. destruct (na_page _ _ Hx _ _ E) as (_ & _ & _ & ? & ? & _ & Hh & _). change (run_start (noderef_run r')) with (noderef_start r') in Hh. congruence. }
  assert (N !! r = None) as HN by (destruct (N !! r) eqn:E; [by destruct (Hne _ _ E)|done]).
  split; [done|]. split; [by apply insert_mono|]. constructor.
  - intros r' n' [[<- <-]|[Hr E]]%lookup_insert_Some.
    + rewrite Err. split; [done|]. split; [done|]. split; [done|]. exists image, pad. split; [done|]. split; [by rewrite lookup_insert_eq|]. rewrite Elen. lia.
    + destruct (na_page _ _ Hx _ _ E) as (? & ? & ? & im & pd & ? & Hh & ?). do 3 (split; [done|]). exists im, pd. split; [done|].
      split; [|done]. rewrite lookup_insert_ne; [done|]. intros Eq. by apply (Hne r' n').
  - intros r1 n1 r2 n2 [[<- <-]|[? E1]]%lookup_insert_Some [[<- <-]|[? E2]]%lookup_insert_Some Hst; try done.
    + rewrite Es in Hst. by destruct (Hne r2 n2).
    + rewrite Es in Hst. by destruct (Hne r1 n1).
    + by eapply (na_apart _ _ Hx).
  - intros b bs' [[<- <-]|[? E]]%lookup_insert_Some; [exists r, n; by rewrite lookup_insert_eq|].
    destruct (na_only _ _ Hx _ _ E) as (r' & n' & E' & <-). exists r', n'. split; [|done]. rewrite lookup_insert_ne; [done|congruence].
Qed.

(** Releasing a node: forgotten, then its run freed. *)
Definition node_free (r : NodeRef) : NM unit := do! invalidate r in on_file (block_free (noderef_run r)).

Lemma node_free_spec c N x r n : store_ok c N x -> N !! r = Some n ->
  triple c x (node_free r) 0 (returns (fun _ c' x' _ => store_ok c' (delete r N) x')).
Proof.
  intros [Hc Hx] Hr. destruct (na_page _ _ Hx _ _ Hr) as (_ & _ & _ & image & pad & _ & Hh).
  unfold node_free, invalidate. apply triple_modify. eapply triple_weaken; [by apply (triple_free _ _ _ (image ++ pad))|done|].
  intros [[]|e|] c' x' l Hq; [|done|done]. destruct Hq as (-> & -> & _). split; [by apply delete_mono|].
  change (run_start (noderef_run r)) with (noderef_start r). constructor.
  - intros r' n' [Hne E]%lookup_delete_Some. destruct (na_page _ _ Hx _ _ E) as (? & ? & ? & im & pd & ? & Hb & ?). do 3 (split; [done|]).
    exists im, pd. split; [done|]. split; [|done]. rewrite lookup_delete_ne; [done|]. intros Es. apply Hne. by eapply (na_apart _ _ Hx).
  - intros r1 n1 r2 n2 [_ E1]%lookup_delete_Some [_ E2]%lookup_delete_Some. by eapply (na_apart _ _ Hx).
  - intros b bs [Hb E]%lookup_delete_Some. destruct (na_only _ _ Hx _ _ E) as (r' & n' & E' & <-). exists r', n'. split; [|done].
    rewrite lookup_delete_ne; [done|congruence].
Qed.
End laws.

(** ** Runs of a store

    Nodes are named by the order they were written in. *)
Inductive node_op : Type :=
  | OpWrite (n : Node)
  | OpLoad (i : nat)
  | OpFree (i : nat)
  | OpReopen.

Section runs.
Context `{CodecLaws}.

(** The names are the references [env]. *)
Definition node_step (env : list NodeRef) (op : node_op) : NM (list NodeRef * option Node) :=
  match op with
  | OpWrite n => let! r := node_write n in st_ret (env ++ [r], None)
  | OpLoad i => let! r := st_lift (expect (env !! i)) in let! n := node_load r in st_ret (env, Some n)
  | OpFree i => let! r := st_lift (expect (env !! i)) in do! node_free r in st_ret (env, None)
  | OpReopen => do! on_self (st_modify (fun _ => cache_new)) in st_ret (env, None)
  end.

Fixpoint node_run (env : list NodeRef) (ops : list node_op) : NM (list (option Node)) :=
  match ops with
  | [] => st_ret []
  | op :: ops => let! a := node_step env op in let! rs := node_run a.1 ops in st_ret (a.2 :: rs)
  end.

(** The reference: the list of nodes, each there or freed. *)
Definition heap_step (l : list (option Node)) (op : node_op) : list (option Node) * option Node :=
  match op with
  | OpWrite n => (l ++ [Some n], None)
  | OpLoad i => (l, mjoin (l !! i))
  | OpFree i => (<[i := None]> l, None)
  | OpReopen => (l, None)
  end.

Fixpoint heap_run (l : list (option Node)) (ops : list node_op) : list (option Node) :=
  match ops with [] => [] | op :: ops => (heap_step l op).2 :: heap_run (heap_step l op).1 ops end.

(** Only live nodes are loaded and freed. *)
Definition node_op_ok (l : list (option Node)) (op : node_op) : Prop :=
  match op with OpWrite n => node_ok n | OpLoad i | OpFree i => is_Some (mjoin (l !! i)) | OpReopen => True end.

Fixpoint node_ops_ok (l : list (option Node)) (ops : list node_op) : Prop :=
  match ops with [] => True | op :: ops => node_op_ok l op /\ node_ops_ok (heap_step l op).1 ops end.

Definition op_blocks (op : node_op) : Z := match op with OpWrite n => node_blocks n | _ => 0 end.
Definition ops_blocks (ops : list node_op) : Z := foldr (fun op n => op_blocks op + n) 0 ops.

(** The references of the live nodes, each its own. *)
Record names (env : list NodeRef) (l : list (option Node)) (N : gmap Z Node) : Prop := {
  nm_length : length env = length l;
  nm_live : forall i n, l !! i = Some (Some n) -> exists r, env !! i = Some r /\ N !! r = Some n;
  nm_apart : forall i j n n' r, l !! i = Some (Some n) -> l !! j = Some (Some n') -> env !! i = Some r -> env !! j = Some r -> i = j
}.

Lemma names_write env l N r n : names env l N -> N !! r = None -> names (env ++ [r]) (l ++ [Some n]) (<[r := n]> N).
Proof.
  intros [Hlen Hlive Hap] HN.
  assert (forall i n', l !! i = Some (Some n') -> env !! i <> Some r) as Hne.
  { intros i n' Hi E. destruct (Hlive i n' Hi) as (r' & E' & Hr'). congruence. }
  assert (forall i a, (l ++ [Some n]) !! i = Some a -> l !! i = Some a \/ (i = length l /\ a = Some n)) as Hcase.
  { intros i a [Hi|[Hi Ha]]%lookup_app_Some; [by left|]. apply list_lookup_singleton_Some in Ha as [Ha <-]. right. split; [lia|done]. }
  constructor.
  - rewrite !length_app. cbn [length]. lia.
  - intros i n' [Hi|[-> [= ->]]]%Hcase.
    + destruct (Hlive i n' Hi) as (r' & E & Hr'). exists r'. split; [by apply lookup_app_l_Some|]. rewrite lookup_insert_ne; [done|congruence].
    + exists r. rewrite <- Hlen, lookup_app_r, Nat.sub_diag, lookup_insert_eq by lia. done.
  - intros i j n1 n2 r' [Hi|[-> _]]%Hcase [Hj|[-> _]]%Hcase Ei Ej; [| | |done].
    + pose proof (lookup_lt_Some _ _ _ Hi). pose proof (lookup_lt_Some _ _ _ Hj). rewrite !lookup_app_l in Ei, Ej by lia. by eapply Hap.
    + pose proof (lookup_lt_Some _ _ _ Hi). rewrite lookup_app_l in Ei by lia. rewrite <- Hlen, lookup_app_r, Nat.sub_diag in Ej by lia.
      injection Ej as <-. by destruct (Hne i n1).
    + pose proof (lookup_lt_Some _ _ _ Hj). rewrite lookup_app_l in Ej by lia. rewrite <- Hlen, lookup_app_r, Nat.sub_diag in Ei by lia.
      injection Ei as <-. by destruct (Hne j n2).
Qed.

Lemma names_free env l N i n r : names env l N -> l !! i = Some (Some n) -> env !! i = Some r -> names env (<[i := None]> l) (delete r N).
Proof.
  intros [Hlen Hlive Hap] Hi Hr.
  assert (forall j n', <[i := None]> l !! j = Some (Some n') -> j <> i /\ l !! j = Some (Some n')) as Hcase.
  { intros j n' Hj. apply list_lookup_insert_Some in Hj as [(-> & [=] & _)|[Hne Hj]]. done. }
  constructor.
  - by rewrite length_insert.
  - intros j n' [Hne Hj]%Hcase. destruct (Hlive j n' Hj) as (r' & E & Hr'). exists r'. split; [done|].
    rewrite lookup_delete_ne; [done|]. intros ->. apply Hne. by eapply Hap.
  - intros j k n1 n2 r' [_ Hj]%Hcase [_ Hk]%Hcase. by eapply Hap.
Qed.

Lemma live_name env l N i : names env l N -> is_Some (mjoin (l !! i)) -> exists n r, l !! i = Some (Some n) /\ env !! i = Some r /\ N !! r = Some n.
Proof.
  intros Hn [n Hl]. destruct (l !! i) as [[n'|]|] eqn:E; [|done|done]. destruct (nm_live _ _ _ Hn i n' E) as (r & ? & ?). by exists n', r.
Qed.

Definition run_inv (env : list NodeRef) (l : list (option Node)) (c : NodeCache) (x : Regions) : Prop :=
  exists N, store_ok c N x /\ names env l N.

Lemma node_step_spec env l c x op : run_inv env l c x -> node_op_ok l op ->
  triple c x (node_step env op) (op_blocks op) (returns (fun a c' x' _ => a.2 = (heap_step l op).2 /\ run_inv a.1 (heap_step l op).1 c' x')).
Proof.
  intros (N & Hs & Hn) Hop. destruct op as [n|i|i|]; cbn [node_step heap_step op_blocks node_op_ok fst snd] in *.
  - eapply triple_steps; [eapply triple_seq; [by apply node_write_spec|apply Z.le_refl|]|lia]. intros r c' x' l' [HN Hs']. apply triple_ret.
    split; [done|]. eexists. split; [done|]. by apply names_write.
  - destruct (live_name env l N i Hn Hop) as (n & r & Hi & Hr & HN). rewrite Hr, Hi. eapply triple_done; [done|].
    eapply triple_step; [by apply node_load_spec|done|]. intros a c' x' l' (-> & -> & Hs'). apply triple_ret. split; [done|]. by exists N.
  - destruct (live_name env l N i Hn Hop) as (n & r & Hi & Hr & HN). rewrite Hr. eapply triple_done; [done|].
    eapply triple_step; [by eapply node_free_spec|done|]. intros [] c' x' l' Hs'. apply triple_ret. split; [done|]. eexists. split; [done|]. by eapply names_free.
  - apply triple_modify, triple_ret. split; [done|]. exists N. split; [|done]. split; [apply map_empty_subseteq|apply Hs].
Qed.

Lemma ops_blocks_nonneg l ops : node_ops_ok l ops -> 0 <= ops_blocks ops.
Proof.
  revert l. induction ops as [|op ops IH]; intros l Hok; [done|]. destruct Hok as [Hop Hok]. specialize (IH _ Hok). cbn [ops_blocks foldr]. fold (ops_blocks ops).
  destruct op as [n|i|i|]; cbn [op_blocks node_op_ok] in *; [|lia..]. destruct (node_blocks_bound n Hop). lia.
Qed.

Lemma node_run_spec ops : forall env l c x, run_inv env l c x -> node_ops_ok l ops ->
  triple c x (node_run env ops) (ops_blocks ops) (returns (fun rs _ _ _ => rs = heap_run l ops)).
Proof.
  induction ops as [|op ops IH]; intros env l c x Hinv Hok; [by apply triple_ret|]. destruct Hok as [Hop Hok].
  pose proof (ops_blocks_nonneg _ _ Hok). cbn [node_run heap_run ops_blocks foldr]. fold (ops_blocks ops).
  eapply triple_seq; [by apply node_step_spec|done|]. intros [env' r] c' x' l' [-> Hinv']. cbn [fst] in Hinv'.
  eapply triple_steps; [eapply triple_seq; [by apply IH|exact (Z.le_refl 0)|]|lia]. intros rs c2 x2 l2 ->. by apply triple_ret.
Qed.

(** C16: a store of B+ tree nodes on a file behaves as a list of nodes: over any run of
    writes, loads, releases and reopenings, each load of a node not released gives
    the node that was written, whether it is cached or read from its page. *)
Theorem node_store_refines ops : node_ops_ok [] ops ->
  triple cache_new ∅ (node_run [] ops) (ops_blocks ops) (returns (fun rs _ _ _ => rs = heap_run [] ops)).
Proof.
  intros Hok. apply node_run_spec; [|done]. exists ∅. split; [apply store_new|]. constructor; [done|..]; intros *; by rewrite lookup_nil.
Qed.
End runs.

Section example.
#[local] Existing Instance plain_codecs.
#[local] Existing Instance plain_codec_laws.

Definition sample_leaf : Node := NLeaf [(1, 10); (2, 20)] NODE_NONE.
Definition sample_ops : list node_op :=
  [OpWrite sample_leaf; OpWrite (NInternal [5] [1; 2]); OpReopen; OpLoad 0; OpFree 0; OpWrite (NLeaf [] 3); OpLoad 2; OpReopen; OpLoad 1].

Lemma node_store_refines_witness :
  triple cache_new ∅ (node_run [] sample_ops) (ops_blocks sample_ops) (returns (fun rs _ _ _ => rs = heap_run [] sample_ops)).
Proof.
  apply node_store_refines. unfold sample_ops, sample_leaf. cbn. unfold fits. 
  repeat (split || constructor || eexists || done || lia).
Defined.

Example node_run_sample : fst (node_run [] sample_ops (cache_new, create_in_memory)) =
  Done [None; None; None; Some sample_leaf; None; None; Some (NLeaf [] 3); None; Some (NInternal [5] [1; 2])].
Proof. by vm_compute. Qed.
End example.
