(* ===== verification/WsClient.v ===== *)
(** * The WebSocket client (wavedb-net/src/ws.rs, the events of notify.rs)

    A caller queues a reply slot under its sequence number, then writes its frame;
    the read loop gives each response to the first slot of its number.  Callers
    share one connection, so their steps interleave: a world of the client, the
    socket and a server, moved by a schedule. *)
From S2P Require Import Prelude Wire WireOk Request Registry.

(** ** Events *)

Record AnchorEvent : Type := { ae_anchor_id : Z; ae_deleted : bool; ae_payload : option (list byte) }.

Definition event_updated (id : Z) (payload : option (list byte)) : AnchorEvent :=
  {| ae_anchor_id := id; ae_deleted := false; ae_payload := payload |}.
Definition event_deleted (id : Z) : AnchorEvent := {| ae_anchor_id := id; ae_deleted := true; ae_payload := None |}.

Definition notification_to_event (n : Notification) : AnchorEvent :=
  if nt_deleted n then event_deleted (nt_anchor_id n) else event_updated (nt_anchor_id n) (nt_payload n).

(** ** The client *)

(** A slot: the sequence number and the caller that waits. *)
Record WsPending : Type := { wp_seq : Z; wp_reply : nat }.

(** The bus is the events published. *)
Record WsClient : Type := { pending : list WsPending; bus : list AnchorEvent }.

Definition ws_new : WsClient := {| pending := []; bus := [] |}.

Inductive Message : Type :=
  | MBinary (b : list byte)
  | MText (b : list byte)
  | MClose
  | MOther.

(** [send] up to the queue. *)
Definition ws_enqueue (seq : Z) (caller : nat) (c : WsClient) : WsClient :=
  {| pending := pending c ++ [{| wp_seq := seq; wp_reply := caller |}]; bus := bus c |}.

(** [iter().position()] and [remove]. *)
Fixpoint take_pending (seq : Z) (l : list WsPending) : option (nat * list WsPending) :=
  match l with
  | [] => None
  | p :: l =>
    if wp_seq p =? seq then Some (wp_reply p, l)
    else match take_pending seq l with Some (r, l) => Some (r, p :: l) | None => None end
  end.

(** A decoded response: its notifications published, its slot completed. *)
Definition ws_dispatch (resp : TransportResponse) (c : WsClient) : WsClient * option (nat * TransportResponse) :=
  let published := bus c ++ map notification_to_event (notifications resp) in
  match take_pending (rs_seq resp) (pending c) with
  | Some (caller, rest) => ({| pending := rest; bus := published |}, Some (caller, resp))
  | None => ({| pending := pending c; bus := published |}, None)
  end.

(** One turn of the read loop: [None] when it ends. *)
Definition ws_read (msg : Message) (c : WsClient) : option (WsClient * option (nat * TransportResponse)) :=
  match msg with
  | MBinary b | MText b =>
    match decode_payload wire_response b with
    | Done resp => Some (ws_dispatch resp c)
    | _ => Some (c, None)
    end
  | MClose => None
  | MOther => Some (c, None)
  end.

(** ** The world *)

Section world.
Context {S : Type}.
(** What the server makes of a request. *)
Variable answer : TransportRequest -> S -> TransportResponse * S.

Record World : Type := {
  ws : WsClient;
  begun : list (nat * TransportRequest);
  writing : list (nat * TransportRequest);
  to_server : list (list byte);
  to_client : list Message;
  server : S;
  answered : list (TransportRequest * TransportResponse);
  results : gmap nat (TransportResponse + CoreError)
}.

Inductive Move : Type :=
  | Begin (req : TransportRequest)
  | Write (caller : nat)
  | Serve
  | Read.

(** A caller is the number of its call; it queues its slot and goes on to write. *)
Definition do_begin (req : TransportRequest) (w : World) : World :=
  let caller := length (begun w) in
  {| ws := ws_enqueue (req_seq req) caller (ws w); begun := begun w ++ [(caller, req)]; writing := writing w ++ [(caller, req)];
     to_server := to_server w; to_client := to_client w; server := server w; answered := answered w; results := results w |}.

Fixpoint take_writer (caller : nat) (l : list (nat * TransportRequest)) : option (TransportRequest * list (nat * TransportRequest)) :=
  match l with
  | [] => None
  | (c, req) :: l =>
    if (c =? caller)%nat then Some (req, l)
    else match take_writer caller l with Some (r, l) => Some (r, (c, req) :: l) | None => None end
  end.

(** The frame goes out in the order the lock is taken; a request that does not
    encode fails its caller, whose slot stays. *)
Definition do_write (caller : nat) (w : World) : World :=
  match take_writer caller (writing w) with
  | None => w
  | Some (req, rest) =>
    match encode_payload wire_request req with
    | Done b =>
      {| ws := ws w; begun := begun w; writing := rest; to_server := to_server w ++ [b]; to_client := to_client w;
         server := server w; answered := answered w; results := results w |}
    | Fail e =>
      {| ws := ws w; begun := begun w; writing := rest; to_server := to_server w; to_client := to_client w;
         server := server w; answered := answered w; results := <[caller := inr (EWire e)]> (results w) |}
    | Fault => w
    end
  end.

(** The server's session: one frame in, one frame out; what does not decode is
    skipped. *)
Definition do_serve (w : World) : World :=
  match to_server w with
  | [] => w
  | b :: rest =>
    match decode_payload wire_request b with
    | Done req =>
      let '(resp, s) := answer req (server w) in
      match encode_payload wire_response resp with
      | Done out =>
        {| ws := ws w; begun := begun w; writing := writing w; to_server := rest; to_client := to_client w ++ [MBinary out];
           server := s; answered := answered w ++ [(req, resp)]; results := results w |}
      | _ =>
        {| ws := ws w; begun := begun w; writing := writing w; to_server := []; to_client := to_client w ++ [MClose];
           server := s; answered := answered w; results := results w |}
      end
    | _ =>
      {| ws := ws w; begun := begun w; writing := writing w; to_server := rest; to_client := to_client w;
         server := server w; answered := answered w; results := results w |}
    end
  end.

Definition do_read (w : World) : World :=
  match to_client w with
  | [] => w
  | msg :: rest =>
    match ws_read msg (ws w) with
    | None => w
    | Some (c, done) =>
      {| ws := c; begun := begun w; writing := writing w; to_server := to_server w; to_client := rest; server := server w;
         answered := answered w;
         results := match done with Some (caller, resp) => <[caller := inl resp]> (results w) | None => results w end |}
    end
  end.

Definition step (m : Move) (w : World) : World :=
  match m with Begin req => do_begin req w | Write c => do_write c w | Serve => do_serve w | Read => do_read w end.

Definition run (ms : list Move) (w : World) : World := foldl (fun w m => step m w) w ms.

Definition start (s : S) : World :=
  {| ws := ws_new; begun := []; writing := []; to_server := []; to_client := []; server := s; answered := []; results := ∅ |}.

(** ** What the schedule may do *)

(** Answers carry the number of their request and encode. *)
Hypothesis answer_seq : forall req s, rs_seq (answer req s).1 = req_seq req.
Hypothesis answer_wf : forall req s, request_wf req -> response_wf (answer req s).1.
Hypothesis answer_fits : forall req s, slots_fit wire_response (answer req s).1 = true.

(** The requests a schedule begins. *)
Definition requests (ms : list Move) : list TransportRequest := omap (fun m => match m with Begin req => Some req | _ => None end) ms.

Definition sendable (req : TransportRequest) : Prop := request_wf req /\ slots_fit wire_request req = true.

(** A request on its way: to be written, at the server, or answered and unread. *)
Definition on_the_way (w : World) (caller : nat) (req : TransportRequest) : Prop :=
  (caller, req) ∈ writing w \/ enc wire_request req ∈ to_server w \/
  exists resp, (req, resp) ∈ answered w /\ MBinary (enc wire_response resp) ∈ to_client w.

Record world_ok (w : World) : Prop := {
  wo_seqs : NoDup (map (fun b => req_seq b.2) (begun w));
  wo_sendable : Forall (fun b => sendable b.2) (begun w);
  wo_writing : forall b, b ∈ writing w -> b ∈ begun w;
  wo_server : forall f, f ∈ to_server w -> exists b, b ∈ begun w /\ f = enc wire_request b.2;
  wo_answered : forall req resp, (req, resp) ∈ answered w -> (exists c, (c, req) ∈ begun w) /\
    rs_seq resp = req_seq req /\ response_wf resp /\ slots_fit wire_response resp = true;
  wo_client : forall m, m ∈ to_client w -> exists req resp, (req, resp) ∈ answered w /\ m = MBinary (enc wire_response resp);
  wo_pending : forall p, p ∈ pending (ws w) -> exists req, (wp_reply p, req) ∈ begun w /\ req_seq req = wp_seq p;
  wo_results : forall c r, results w !! c = Some r -> exists req resp, r = inl resp /\ (c, req) ∈ begun w /\ (req, resp) ∈ answered w;
  wo_waiting : forall c req, (c, req) ∈ begun w -> is_Some (results w !! c) \/
    ({| wp_seq := req_seq req; wp_reply := c |} ∈ pending (ws w) /\ on_the_way w c req)
}.

Lemma MBinary_inj a b : MBinary a = MBinary b -> a = b.
Proof. by intros [=]. Qed.

Lemma take_writer_spec caller l req rest : take_writer caller l = Some (req, rest) ->
  forall x, x ∈ l <-> x = (caller, req) \/ x ∈ rest.
Proof.
  revert rest. induction l as [|[c r] l IH]; intros rest E; [done|]. cbn [take_writer] in E. destruct (Nat.eqb_spec c caller) as [->|Hc].
  - injection E as -> ->. intros x. apply elem_of_cons.
  - destruct (take_writer caller l) as [[r' l']|] eqn:E'; [|done]. injection E as -> <-. intros x. rewrite !elem_of_cons, (IH l' eq_refl). tauto.
Qed.

Lemma take_pending_spec sq l : match take_pending sq l with
  | Some (caller, rest) => forall p, p ∈ l <-> p = {| wp_seq := sq; wp_reply := caller |} \/ p ∈ rest
  | None => forall p, p ∈ l -> wp_seq p <> sq
  end.
Proof.
  induction l as [|[n c] l IH]; cbn [take_pending]; [by intros p Hp%not_elem_of_nil|]. cbn [wp_seq wp_reply]. destruct (Z.eqb_spec n sq) as [->|Hn].
  - intros p. apply elem_of_cons.
  - destruct (take_pending sq l) as [[r rest]|].
    + intros p. rewrite !elem_of_cons, IH. tauto.
    + intros p [->|Hp]%elem_of_cons; [done|by apply IH].
Qed.

(** Numbers tell calls apart. *)
Lemma seq_unique (l : list (nat * TransportRequest)) b b' : NoDup (map (fun b => req_seq b.2) l) -> b ∈ l -> b' ∈ l -> req_seq b.2 = req_seq b'.2 -> b = b'.
Proof.
  intros Hn Hb Hb' E. apply list_elem_of_lookup in Hb as [i Hi], Hb' as [j Hj].
  assert (i = j) as ->; [|congruence]. eapply NoDup_lookup; [exact Hn|..]; change (map ?f ?l) with (f <$> l); rewrite list_lookup_fmap.
  - by rewrite Hi.
  - rewrite Hj. cbn. by rewrite E.
Qed.

Lemma request_frame req : sendable req -> encode_payload wire_request req = Done (enc wire_request req) /\
  decode_payload wire_request (enc wire_request req) = Done req.
Proof. intros [Hw Hf]. split; [by apply (to_wire_enc wire_request request_wf)|by apply (from_wire_enc wire_request request_wf)]. Qed.

Lemma response_frame resp : response_wf resp -> slots_fit wire_response resp = true -> encode_payload wire_response resp = Done (enc wire_response resp) /\
  decode_payload wire_response (enc wire_response resp) = Done resp.
Proof. intros Hw Hf. split; [by apply (to_wire_enc wire_response response_wf)|by apply (from_wire_enc wire_response response_wf)]. Qed.

Lemma request_frame_inj a b : sendable a -> sendable b -> enc wire_request a = enc wire_request b -> a = b.
Proof. intros Ha Hb E. destruct (request_frame a Ha) as [_ Ea], (request_frame b Hb) as [_ Eb]. rewrite E in Ea. congruence. Qed.

(** *** Each move keeps the world in order *)

Lemma begin_ok req w : world_ok w -> sendable req -> req_seq req ∉ map (fun b => req_seq b.2) (begun w) -> world_ok (do_begin req w).
Proof.
  intros [H2 H3 H4 H5 H6 H7 H8 H9 H10] Hreq Hnew. set (c := length (begun w)).
  assert (forall b, b ∈ begun w -> b ∈ begun (do_begin req w)) as Hb by (intros b Hin; apply elem_of_app; by left).
  constructor; cbn [do_begin ws begun writing to_server to_client answered results pending ws_enqueue]; fold c.
  - rewrite map_app. apply NoDup_app. split; [done|]. split; [|apply NoDup_singleton]. intros x Hx ->%list_elem_of_singleton. done.
  - apply Forall_app. split; [done|]. by apply Forall_singleton.
  - intros b [Hin|Hin]%elem_of_app; apply elem_of_app; [left; by apply H4|by right].
  - intros f Hf. destruct (H5 f Hf) as (b & Hin & E). exists b. split; [by apply Hb|done].
  - intros rq resp Ha. destruct (H6 rq resp Ha) as ((c0 & Hin) & ?). split; [|done]. exists c0. by apply Hb.
  - done.
  - intros p [Hp|Hp]%elem_of_app.
    + destruct (H8 p Hp) as (rq & Hin & E). exists rq. split; [by apply Hb|done].
    + apply list_elem_of_singleton in Hp as ->. exists req. split; [|done]. apply elem_of_app. right. by left.
  - intros c0 r Hr. destruct (H9 c0 r Hr) as (rq & resp & -> & Hin & Ha). exists rq, resp. split; [done|]. split; [by apply Hb|done].
  - intros c0 rq [Hin|Hin]%elem_of_app.
    + destruct (H10 c0 rq Hin) as [?|[Hp Hw]]; [by left|]. right. split; [apply elem_of_app; by left|].
      destruct Hw as [Hw|[Hw|Hw]]; [left; apply elem_of_app; by left|right; by left|right; by right].
    + apply list_elem_of_singleton in Hin as [= -> ->]. right. split; [apply elem_of_app; right; by left|]. left. apply elem_of_app. right. by left.
Qed.

Lemma write_keeps_world caller w : world_ok w -> world_ok (do_write caller w).
Proof.
  intros [H2 H3 H4 H5 H6 H7 H8 H9 H10]. unfold do_write. destruct (take_writer caller (writing w)) as [[req rest]|] eqn:E; [|by constructor].
  pose proof (take_writer_spec _ _ _ _ E) as Hl. assert ((caller, req) ∈ begun w) as Hin by (apply H4, Hl; by left).
  rewrite Forall_forall in H3. destruct (request_frame req (H3 _ Hin)) as [Ee _]. rewrite Ee.
  constructor; cbn [ws begun writing to_server to_client answered results].
  - done.
  - by rewrite Forall_forall.
  - intros b Hb. apply H4, Hl. by right.
  - intros f [Hf|Hf]%elem_of_app; [by apply H5|]. apply list_elem_of_singleton in Hf as ->. by exists (caller, req).
  - done.
  - done.
  - done.
  - done.
  - intros c rq Hb. destruct (H10 c rq Hb) as [?|[Hp Hw]]; [by left|]. right. split; [done|]. destruct Hw as [Hw|[Hw|Hw]].
    + apply Hl in Hw as [[= -> ->]|Hw]; [|by left]. right. left. apply elem_of_app. right. by left.
    + right. left. apply elem_of_app. by left.
    + right. by right.
Qed.

Lemma serve_ok w : world_ok w -> world_ok (do_serve w).
Proof.
  intros [H2 H3 H4 H5 H6 H7 H8 H9 H10]. unfold do_serve. destruct (to_server w) as [|f rest] eqn:E; [by constructor; rewrite ?E|].
  destruct (H5 f) as ([c0 req] & Hin & ->); [by left|]. rewrite Forall_forall in H3. cbn [snd]. pose proof (H3 _ Hin) as Hs. cbn [snd] in Hs.
  destruct (request_frame req Hs) as [_ Ed]. rewrite Ed. destruct (answer req (server w)) as [resp s'] eqn:Ea.
  pose proof (answer_seq req (server w)) as Hsq. pose proof (answer_wf req (server w) (proj1 Hs)) as Hwf. pose proof (answer_fits req (server w)) as Hfit.
  rewrite Ea in Hsq, Hwf, Hfit. cbn [fst] in *. destruct (response_frame resp Hwf Hfit) as [Ee _]. rewrite Ee.
  constructor; cbn [ws begun writing to_server to_client answered results].
  - done.
  - by rewrite Forall_forall.
  - done.
  - intros f Hf. apply H5. by right.
  - intros rq rs [Ha|Ha]%elem_of_app; [by apply H6|]. apply list_elem_of_singleton in Ha as [= -> ->]. split; [by exists c0|done].
  - intros m [Hm|Hm]%elem_of_app.
    + destruct (H7 m Hm) as (rq & rs & Ha & Em). exists rq, rs. split; [apply elem_of_app; by left|done].
    + apply list_elem_of_singleton in Hm as ->. exists req, resp. split; [apply elem_of_app; right; by left|done].
  - done.
  - intros c r Hr. destruct (H9 c r Hr) as (rq & rs & -> & Hb & Ha). exists rq, rs. split; [done|]. split; [done|]. apply elem_of_app. by left.
  - intros c rq Hb. destruct (H10 c rq Hb) as [?|[Hp Hw]]; [by left|]. right. split; [done|]. unfold on_the_way in *.
    cbn [writing to_server to_client answered]. rewrite E in Hw. destruct Hw as [Hw|[[Hw|Hw]%elem_of_cons|(rs & Ha & Hm)]].
    + by left.
    + apply request_frame_inj in Hw as ->; [|exact (H3 _ Hb)|done]. right. right. exists resp. split; apply elem_of_app; right; by left.
    + right. by left.
    + right. right. exists rs. split; apply elem_of_app; by left.
Qed.

Lemma read_ok w : world_ok w -> world_ok (do_read w).
Proof.
  intros [H2 H3 H4 H5 H6 H7 H8 H9 H10]. unfold do_read. destruct (to_client w) as [|m rest] eqn:E; [by constructor; rewrite ?E|].
  destruct (H7 m) as (req & resp & Ha & ->); [by left|]. destruct (H6 req resp Ha) as ((c0 & Hc0) & Hsq & Hwf & Hfit).
  destruct (response_frame resp Hwf Hfit) as [_ Ed]. cbn [ws_read]. rewrite Ed. unfold ws_dispatch.
  pose proof (take_pending_spec (rs_seq resp) (pending (ws w))) as Hp.
  assert (forall c rq, (c, rq) ∈ begun w -> on_the_way w c rq -> (c, rq) <> (c0, req) -> on_the_way {| ws := ws w; begun := begun w; writing := writing w;
    to_server := to_server w; to_client := rest; server := server w; answered := answered w; results := results w |} c rq) as Hway.
  { intros c rq Hb Hw Hne. unfold on_the_way in *. cbn [writing to_server to_client answered]. rewrite E in Hw.
    destruct Hw as [Hw|[Hw|(rs & Hrs & [Hm|Hm]%elem_of_cons)]]; [by left|right; by left| |right; right; by exists rs].
    exfalso. apply Hne. destruct (H6 rq rs Hrs) as (_ & Hsq' & Hwf' & Hfit'). apply MBinary_inj in Hm.
    destruct (response_frame rs Hwf' Hfit') as [_ Ed']. assert (rs = resp) as -> by congruence. eapply seq_unique; [exact H2|done|done|]. cbn [snd]. congruence. }
  destruct (take_pending (rs_seq resp) (pending (ws w))) as [[caller l]|].
  - destruct (H8 {| wp_seq := rs_seq resp; wp_reply := caller |}) as (rq & Hb & Erq); [apply Hp; by left|]. cbn [wp_seq wp_reply] in *.
    assert ((caller, rq) = (c0, req)) as Eq by (eapply seq_unique; [exact H2|done|done|cbn [snd]; congruence]). injection Eq as -> ->.
    constructor; cbn [ws begun writing to_server to_client answered results pending]; try done.
    + intros m Hm. apply H7. by right.
    + intros p Hin. apply H8, Hp. by right.
    + intros c r Hr. apply lookup_insert_Some in Hr as [[<- <-]|[_ Hr]]; [by exists req, resp|by apply H9].
    + intros c rq Hin. destruct (decide (c = c0)) as [->|Hc]; [left; by rewrite lookup_insert_eq|]. rewrite lookup_insert_ne by done.
      destruct (H10 c rq Hin) as [?|[Hpd Hw]]; [by left|]. right. apply Hp in Hpd as [[= _ ->]|Hpd]; [done|]. split; [done|]. apply (Hway c rq Hin Hw). congruence.
  - constructor; cbn [ws begun writing to_server to_client answered results pending]; try done.
    + intros m Hm. apply H7. by right.
    + intros c rq Hin. destruct (H10 c rq Hin) as [?|[Hpd Hw]]; [by left|]. right. split; [done|]. apply (Hway c rq Hin Hw). intros [= -> ->].
      apply (Hp _ Hpd). cbn [wp_seq]. done.
Qed.

Lemma run_begun ms : forall w, begun (run ms w) = begun w ++ imap (fun i req => ((length (begun w) + i)%nat, req)) (requests ms).
Proof.
  induction ms as [|m ms IH]; intros w; [by rewrite app_nil_r|]. cbn [run foldl]. change (foldl _ ?x ms) with (run ms x). rewrite IH.
  destruct m as [req|c| |]; cbn [step requests omap list_omap].
  - change (list_omap _ _ _ ms) with (requests ms). cbn [do_begin begun imap]. rewrite <- (assoc_L (++)). cbn [app]. rewrite Nat.add_0_r. f_equal. f_equal.
    rewrite length_app. cbn [length]. apply imap_ext. intros i x _. cbn. f_equal. lia.
  - unfold do_write. destruct (take_writer c (writing w)) as [[req rest]|]; [|done]. by destruct (encode_payload _ _).
  - unfold do_serve. destruct (to_server w) as [|f rest]; [done|]. destruct (decode_payload _ _) as [req| |]; [|done|done].
    destruct (answer req (server w)) as [resp s']. by destruct (encode_payload _ _).
  - unfold do_read. destruct (to_client w) as [|m rest]; [done|]. by destruct (ws_read m (ws w)) as [[c' d]|].
Qed.

Lemma run_ok ms : forall w, world_ok w -> Forall sendable (requests ms) -> NoDup (map (fun b => req_seq b.2) (begun w) ++ map req_seq (requests ms)) ->
  world_ok (run ms w).
Proof.
  induction ms as [|m ms IH]; intros w Hw Hs Hn; [done|]. cbn [run foldl]. change (foldl _ ?x ms) with (run ms x).
  destruct m as [req|c| |]; cbn [step].
  - cbn [requests omap list_omap] in Hs, Hn. change (list_omap _ _ _ ms) with (requests ms) in Hs, Hn. apply Forall_cons in Hs as [Hreq Hs].
    cbn [map] in Hn. apply NoDup_app in Hn as (Hn1 & Hd & Hn2). apply NoDup_cons in Hn2 as [Hn2 Hn3]. apply IH; [|done|].
    + apply begin_ok; [done|done|]. intros Hin. apply (Hd _ Hin). by left.
    + cbn [do_begin begun]. rewrite map_app. cbn [map snd]. rewrite <- (assoc_L (++)). apply NoDup_app. split; [done|]. split; [|by apply NoDup_cons].
      intros x Hx Hin. by apply (Hd x Hx).
  - pose proof (run_begun [Write c] w) as E. cbn [run foldl step requests omap list_omap imap] in E. rewrite app_nil_r in E. apply IH; [by apply write_keeps_world|done|by rewrite E].
  - pose proof (run_begun [Serve] w) as E. cbn [run foldl step requests omap list_omap imap] in E. rewrite app_nil_r in E. apply IH; [by apply serve_ok|done|by rewrite E].
  - pose proof (run_begun [Read] w) as E. cbn [run foldl step requests omap list_omap imap] in E. rewrite app_nil_r in E. apply IH; [by apply read_ok|done|by rewrite E].
Qed.

Lemma start_ok s : world_ok (start s).
Proof. constructor; cbn; try (intros *; by intros H%not_elem_of_nil); [constructor|constructor|intros c r H; by rewrite lookup_empty in H]. Qed.

(** C35: while the numbers of the requests on one connection are distinct, however
    the steps of callers, server and read loop interleave, a caller gets the answer
    to its own request only, and when nothing is on its way every caller has it. *)
Theorem ws_answers_own ms s : Forall sendable (requests ms) -> NoDup (map req_seq (requests ms)) ->
  let w := run ms (start s) in
  (forall c r, results w !! c = Some r -> exists req resp, requests ms !! c = Some req /\ r = inl resp /\ (req, resp) ∈ answered w) /\
  (writing w = [] -> to_server w = [] -> to_client w = [] -> forall c, (c < length (requests ms))%nat -> is_Some (results w !! c)).
Proof.
  intros Hs Hn w. pose proof (run_ok ms (start s) (start_ok s) Hs Hn) as Hw. fold w in Hw. pose proof (run_begun ms (start s)) as Eb. fold w in Eb. cbn [start begun app length] in Eb.
  split.
  - intros c r Hr. destruct (wo_results _ Hw c r Hr) as (req & resp & -> & Hin & Ha). exists req, resp. split; [|done].
    rewrite Eb in Hin. apply elem_of_lookup_imap in Hin as (i & rq & [= -> ->] & Hi). done.
  - intros E1 E2 E3 c Hc. destruct (lookup_lt_is_Some_2 _ _ Hc) as [req Hreq].
    destruct (wo_waiting _ Hw c req) as [?|[_ [H|[H|(resp & _ & H)]]]]; [|done|..].
    + rewrite Eb. apply elem_of_lookup_imap. by exists c, req.
    + rewrite E1 in H. by apply not_elem_of_nil in H.
    + rewrite E2 in H. by apply not_elem_of_nil in H.
    + rewrite E3 in H. by apply not_elem_of_nil in H.
Qed.
(** *** A close

    The read loop ends on a close and leaves the slots where they are: a caller that
    waits has nothing left to wake it. *)
Record stranded (c : nat) (w : World) : Prop := {
  sd_close : exists rest, to_client w = MClose :: rest;
  sd_begun : (c < length (begun w))%nat;
  sd_written : forall req, (c, req) ∉ writing w;
  sd_waits : results w !! c = None
}.

Lemma stranded_step m c w : stranded c w -> stranded c (step m w).
Proof.
  intros [[rest Hc] Hb Hw Hr]. destruct m as [req|c'| |]; cbn [step].
  - constructor; cbn [do_begin ws begun writing to_client results]; [by exists rest|rewrite length_app; lia| |done].
    intros rq [Hin|Hin%list_elem_of_singleton]%elem_of_app; [by eapply Hw|]. injection Hin as -> _. lia.
  - unfold do_write. destruct (take_writer c' (writing w)) as [[req l]|] eqn:E; [|by constructor; eauto].
    pose proof (take_writer_spec _ _ _ _ E) as Hl. assert (c' <> c) as Hne by (intros ->; apply (Hw req), Hl; by left).
    assert (forall rq, (c, rq) ∉ l) as Hw' by (intros rq Hin; apply (Hw rq), Hl; by right).
    destruct (encode_payload wire_request req) as [b|e|]; constructor; cbn; eauto. by rewrite lookup_insert_ne.
  - unfold do_serve. destruct (to_server w) as [|f l]; [by constructor; eauto|].
    destruct (decode_payload wire_request f) as [req|e|]; [|by constructor; cbn; eauto..].
    destruct (answer req (server w)) as [resp s']. destruct (encode_payload wire_response resp) as [b|e|];
      constructor; cbn [begun writing to_client results]; rewrite ?Hc; eauto; by eexists.
  - unfold do_read. rewrite Hc. cbn [ws_read]. constructor; eauto.
Qed.

Lemma stranded_for_good ms c w : stranded c w -> results (run ms w) !! c = None.
Proof.
  intros H. cut (stranded c (run ms w)); [by intros []|]. revert w H. induction ms as [|m ms IH]; intros w H; [done|].
  cbn [run foldl]. apply IH. by apply stranded_step.
Qed.
End world.

(** ** A server that tells the tenant of a request *)

Definition tenant_of (k : RequestKind) : Z :=
  match k with
  | Connect _ t | SearchUnique _ _ t | QueryNonUnique _ _ t _ | WriteReq _ _ t _ | DeleteReq _ _ t | Disconnect _ t => t
  end.

Definition echo (req : TransportRequest) (s : unit) : TransportResponse * unit := (resp_ok (req_seq req) (le_bytes 8 (tenant_of (req_kind req))), s).

Definition search_of (sq tenant : Z) : TransportRequest := request_new sq (SearchUnique 9 1 tenant).

(** Two callers whose frames go out in the other order than their slots. *)
Definition crossing (a b : TransportRequest) : list Move := [Begin a; Begin b; Write 1; Write 0; Serve; Read; Serve; Read].

Definition payload_for {S} (c : nat) (w : World (S := S)) : option (list byte) :=
  match results w !! c with Some (inl resp) => Some (rs_payload resp) | _ => None end.

Lemma ws_answers_own_witness :
  let ms := crossing (search_of 5 1) (search_of 6 2) in let w := run echo ms (start tt) in
  (forall c r, results w !! c = Some r -> exists req resp, requests ms !! c = Some req /\ r = inl resp /\ (req, resp) ∈ answered w) /\
  (writing w = [] -> to_server w = [] -> to_client w = [] -> forall c, (c < length (requests ms))%nat -> is_Some (results w !! c)).
Proof.
  refine (ws_answers_own echo _ _ _ (crossing (search_of 5 1) (search_of 6 2)) tt _ _).
  - done.
  - intros req s [Hs _]. split; [exact Hs|]. by repeat split.
  - by intros req s.
  - repeat constructor; by vm_compute.
  - apply (bool_decide_unpack _). by vm_compute.
Defined.

(** Each caller gets its tenant's answer; under one number the first slot gets the
    answer to the frame that went out first, which is the other caller's. *)
Example numbers_apart : let w := run echo (crossing (search_of 5 1) (search_of 6 2)) (start tt) in
  (payload_for 0 w, payload_for 1 w) = (Some (le_bytes 8 1), Some (le_bytes 8 2)).
Proof. by vm_compute. Qed.

Example one_number_crosses : let w := run echo (crossing (search_of 5 1) (search_of 5 2)) (start tt) in
  (payload_for 0 w, payload_for 1 w) = (Some (le_bytes 8 2), Some (le_bytes 8 1)).
Proof. by vm_compute. Qed.
