(* ===== verification/QuickServer.v ===== *)
(** * The quick node's endpoints (wavedb-quick-node/src/server.rs)

    Each endpoint around the handler of QuickNode it calls; the file sizes, the
    directory and the uptime of a metrics snapshot are what the file system and the
    clock report. *)
From S2P Require Import Prelude Wire WireOk Errors Page DataFile Journal NodeStorage Ring Auth Cluster Request Registry Messages QuickNode WsClient.

(** ** The snapshot of a node *)

Record QuickNodeMetrics : Type := {
  qm_node_id : Z;
  qm_listen_addr : list byte;
  qm_is_draining : bool;
  qm_ring_size : Z;
  qm_owned_partitions : Z;
  qm_write_count : Z;
  qm_read_count : Z;
  qm_uptime_secs : Z;
  qm_write_bytes : Z;
  qm_page_count : Z;
  qm_page_map : list Z;
  qm_estimated_memory_bytes : Z;
  qm_has_storage : bool;
  qm_journal_bytes : Z;
  qm_heap_bytes : Z;
  qm_data_file_bytes : Z;
  qm_data_file_page_count : Z;
  qm_data_file_used_pages : Z;
  qm_rejected_count : Z;
  qm_replicated_count : Z;
  qm_data_dir : list byte
}.

Definition wire_quick_metrics : Wire QuickNodeMetrics :=
  wire_struct
    (fun m => (qm_node_id m, (qm_listen_addr m, (qm_is_draining m, (qm_ring_size m, (qm_owned_partitions m, (qm_write_count m, (qm_read_count m,
              (qm_uptime_secs m, (qm_write_bytes m, (qm_page_count m, (map byte_of (qm_page_map m), (qm_estimated_memory_bytes m, (qm_has_storage m,
              (qm_journal_bytes m, (qm_heap_bytes m, (qm_data_file_bytes m, (qm_data_file_page_count m, (qm_data_file_used_pages m,
              (qm_rejected_count m, (qm_replicated_count m, qm_data_dir m)))))))))))))))))))))
    (fun '(a, (b, (c, (d, (e, (f, (g, (h, (i, (j, (k, (l, (m, (n, (o, (p, (q, (r, (s, (t, u)))))))))))))))))))) =>
      {| qm_node_id := a; qm_listen_addr := b; qm_is_draining := c; qm_ring_size := d; qm_owned_partitions := e; qm_write_count := f;
         qm_read_count := g; qm_uptime_secs := h; qm_write_bytes := i; qm_page_count := j; qm_page_map := map byte_val k;
         qm_estimated_memory_bytes := l; qm_has_storage := m; qm_journal_bytes := n; qm_heap_bytes := o; qm_data_file_bytes := p;
         qm_data_file_page_count := q; qm_data_file_used_pages := r; qm_rejected_count := s; qm_replicated_count := t; qm_data_dir := u |})
    (wire_pair u64 (wire_pair wire_string (wire_pair wire_bool (wire_pair (wire_usize 64) (wire_pair (wire_usize 64) (wire_pair u64 (wire_pair u64
    (wire_pair u64 (wire_pair u64 (wire_pair u64 (wire_pair wire_bytes (wire_pair u64 (wire_pair wire_bool
    (wire_pair u64 (wire_pair u64 (wire_pair u64 (wire_pair u64 (wire_pair u64
    (wire_pair u64 (wire_pair u64 wire_string)))))))))))))))))))).

(** What the file system says of a storage directory. *)
Record Disk : Type := { disk_journal : Z; disk_heap : Z; disk_data : Z; disk_dir : list byte }.

(** The estimate's addition is checked, as a debug build checks it. *)
Definition metrics (disk : Disk) (uptime : Z) (n : QuickNode) : outcome Empty_set QuickNodeMetrics :=
  let* estimate := uadd 64 (write_bytes n) 65536 in
  Done
    {| qm_node_id := node_id n; qm_listen_addr := listen_addr n; qm_is_draining := draining n;
       qm_ring_size := node_count (qn_ring n); qm_owned_partitions := own_len (ownership n);
       qm_write_count := write_count n; qm_read_count := read_count n; qm_uptime_secs := uptime; qm_write_bytes := write_bytes n;
       qm_page_count := page_count n; qm_page_map := page_map n; qm_estimated_memory_bytes := estimate;
       qm_has_storage := bool_decide (is_Some (storage n));
       qm_journal_bytes := match storage n with Some _ => disk_journal disk | None => 0 end;
       qm_heap_bytes := match storage n with Some _ => disk_heap disk | None => 0 end;
       qm_data_file_bytes := match storage n with Some _ => disk_data disk | None => 0 end;
       qm_data_file_page_count := match storage n with Some s => DataFile.page_count (data_file s) | None => 0 end;
       qm_data_file_used_pages := match storage n with Some s => used_page_count (data_file s) | None => 0 end;
       qm_rejected_count := rejected_count n; qm_replicated_count := replicated_count n;
       qm_data_dir := match storage n with Some _ => disk_dir disk | None => [] end |}.

(** ** The endpoints *)

Section server.
Variable storage_text : StorageError -> list byte.
Variable wire_text : WireError -> list byte.
Variable core_text : CoreError -> list byte.
Variable hmac : list byte -> list byte -> list byte.
Variable now_secs : Z.
(** Whether a peer's or the slow node's answer to a body is a success. *)
Variable post : list byte -> bool.
Variable disk : Disk.
Variable uptime : Z.

Abbreviation handle_req := (handle storage_text wire_text core_text hmac now_secs).

(** An empty body is a keep-alive, answered with nothing. *)
Definition handle_http (body : list byte) : Answer QuickNode :=
  match body with
  | [] => st_ret (SOk, [])
  | _ => with_body wire_request body (fun req => let! resp := handle_req req in reply wire_response resp)
  end.

(** A session over the messages a socket delivers, each with whether the socket
    takes the frame that answers it: the frames written. *)
Fixpoint handle_ws_session (msgs : list (Message * bool)) : QN (list (list byte)) :=
  match msgs with
  | [] | (MClose, _) :: _ => st_ret []
  | (MOther, _) :: msgs => handle_ws_session msgs
  | (MBinary b, up) :: msgs | (MText b, up) :: msgs =>
    match decode_payload wire_request b with
    | Done req =>
      let! resp := handle_req req in
      match encode_payload wire_response resp with
      | Done out => if up : bool then let! rest := handle_ws_session msgs in st_ret (out :: rest) else st_ret []
      | Fail _ => st_ret []
      | Fault => fun n => (Fault, n)
      end
    | Fail _ => handle_ws_session msgs
    | Fault => fun n => (Fault, n)
    end
  end.

(** A token of its purpose, where the configuration has a key. *)
Definition allowed (token : option NodeToken) (purpose : TokenPurpose) (work : Answer QuickNode) : Answer QuickNode := fun n =>
  if admitted hmac now_secs (cluster_key (config n)) token purpose then work n else (Done (SForbidden, []), n).

Definition handle_gossip (body : list byte) : Answer QuickNode :=
  with_body wire_gossip body (fun msg =>
    allowed (gm_token msg) PGossip (let! resp := QuickNode.handle_gossip msg in reply wire_gossip_response resp)).

Definition handle_replicate (body : list byte) : Answer QuickNode :=
  with_body wire_batch body (fun batch =>
    allowed (rb_token batch) PReplicate (let! ack := apply_replica batch in reply wire_replicate_ack ack)).

Definition handle_drain : Answer QuickNode :=
  do! drain hmac now_secs post in st_ret (SOk, []).

Definition handle_metrics (body : list byte) : Answer QuickNode :=
  with_body wire_metrics_request body (fun req =>
    allowed (mr_token req) PMonitor (fun n =>
      match metrics disk uptime n with
      | Done m => reply wire_quick_metrics m n
      | _ => (Fault, n)
      end)).
End server.

(** ** Starting a node (config.rs, serve.rs) *)

Section start.
(** [str::trim], by the tables of Unicode. *)
Variable trim : list byte -> list byte.

(** [split(',')]. *)
Fixpoint split_comma (l : list byte) : list (list byte) :=
  match l with
  | [] => [[]]
  | b :: l =>
    match split_comma l with
    | [] => [[b]]
    | piece :: rest => if bool_decide (byte_val b = 0x2c) then [] :: piece :: rest else (b :: piece) :: rest
    end
  end.

Definition parse_peers (peers : list byte) : list (list byte) := filter (fun s => s <> []) (map trim (split_comma peers)).

(** The arguments that reach the configuration's modelled fields. *)
Record Args : Type := {
  arg_listen : list byte;
  arg_peers : list byte;
  arg_slow_node : option (list byte);
  arg_cluster_key : option (list byte)
}.

(** A key that is not one panics. *)
Definition from_args (a : Args) : outcome string Config :=
  let* key :=
    match arg_cluster_key a with
    | None => Done None
    | Some hex => match from_hex hex with Done k => Done (Some k) | _ => Fault end
    end in
  Done {| listen := arg_listen a; peer_addrs := parse_peers (arg_peers a); slow_node := arg_slow_node a; cluster_key := key |}.

(** The builder; of the data directory only whether there is one. *)
Record Server : Type := {
  sv_listen : list byte;
  sv_data_dir : bool;
  sv_registry : option ObjectRegistry;
  sv_peers : list byte;
  sv_slow_node : option (list byte)
}.

Definition bind (listen : list byte) : Server :=
  {| sv_listen := listen; sv_data_dir := false; sv_registry := None; sv_peers := []; sv_slow_node := None |}.
Definition data_dir (s : Server) : Server :=
  {| sv_listen := sv_listen s; sv_data_dir := true; sv_registry := sv_registry s; sv_peers := sv_peers s; sv_slow_node := sv_slow_node s |}.
Definition with_registry (r : ObjectRegistry) (s : Server) : Server :=
  {| sv_listen := sv_listen s; sv_data_dir := sv_data_dir s; sv_registry := Some r; sv_peers := sv_peers s; sv_slow_node := sv_slow_node s |}.
Definition with_peers (p : list byte) (s : Server) : Server :=
  {| sv_listen := sv_listen s; sv_data_dir := sv_data_dir s; sv_registry := sv_registry s; sv_peers := p; sv_slow_node := sv_slow_node s |}.
Definition with_slow_node (a : list byte) (s : Server) : Server :=
  {| sv_listen := sv_listen s; sv_data_dir := sv_data_dir s; sv_registry := sv_registry s; sv_peers := sv_peers s; sv_slow_node := Some a |}.

(** A task of the running server, with its period in seconds. *)
Inductive Loop : Type := CompactionLoop (secs : Z) | FlushLoop (secs : Z) | HeartbeatLoop (secs misses : Z) | AnnounceOnce.

Record Running : Type := { run_addr : list byte; run_node : QuickNode; run_loops : list Loop }.

(** What the system gives: the directory made, the address bound, and the storage
    opened. *)
Definition start (made : outcome CoreError unit) (bound : outcome CoreError (list byte)) (opened : option NodeStorage) (s : Server) :
    outcome CoreError Running :=
  do* (if sv_data_dir s then made else Done tt) in
  let has_peers := negb (bool_decide (sv_peers s = [])) in
  let* addr := bound in
  let cfg := {| listen := addr; peer_addrs := parse_peers (sv_peers s); slow_node := sv_slow_node s; cluster_key := None |} in
  Done {| run_addr := addr; run_node := node_build cfg (sv_registry s) (if sv_data_dir s then opened else None);
          run_loops := [CompactionLoop 30; FlushLoop 5; HeartbeatLoop 1 3] ++ (if has_peers then [AnnounceOnce] else []) |}.

Definition ws_url (r : Running) : list byte := str "ws://" ++ run_addr r ++ str "/ws".
End start.

(** ** The owners in a cluster *)

Definition join '((r, w) : ConsistentRing * ReplicationWatermark) (addr : list byte) : ConsistentRing * ReplicationWatermark :=
  (add_node (addr_to_node_id addr) addr r, add_peer (addr_to_node_id addr) w).

(** The addresses a node is built with: its own and its peers'. *)
Definition members (cfg : Config) : list (list byte) := listen cfg :: peer_addrs cfg.
Definition member_ids (cfg : Config) : gset Z := list_to_set (map addr_to_node_id (members cfg)).

Lemma joins_ring l r w : ring_ok r -> apart (list_to_set (map addr_to_node_id l) ∪ dom (addrs r)) ->
  let r' := (foldl join (r, w) l).1 in
  ring_ok r' /\ dom (addrs r') = list_to_set (map addr_to_node_id l) ∪ dom (addrs r) /\
  (forall id a, addrs r' !! id = Some a -> (a ∈ l /\ id = addr_to_node_id a) \/ addrs r !! id = Some a).
Proof.
  revert r w. induction l as [|a l IH]; intros r w Hr Ha; cbn [foldl map list_to_set fst].
  - split; [done|]. split; [set_solver|]. auto.
  - cbn [map list_to_set] in Ha. cbn [join].
    assert (dom (addrs (add_node (addr_to_node_id a) a r)) = {[addr_to_node_id a]} ∪ dom (addrs r)) as Ed by (cbn; by rewrite dom_insert_L).
    destruct (IH (add_node (addr_to_node_id a) a r) (add_peer (addr_to_node_id a) w)) as (H1 & H2 & H3).
    + apply add_node_ok; [done|]. eapply apart_subset; [|exact Ha]. set_solver.
    + rewrite Ed. eapply apart_subset; [|exact Ha]. set_solver.
    + split; [done|]. rewrite H2, Ed. split; [set_solver|]. intros id x Hx.
      destruct (H3 id x Hx) as [[Hin ->]|Hx']; [left; split; [by right|done]|]. cbn in Hx'.
      apply lookup_insert_Some in Hx' as [[<- <-]|[_ Hx']]; [left; split; [by left|done]|by right].
Qed.

Lemma build_ring cfg reg opened : apart (member_ids cfg) ->
  let n := node_build cfg reg opened in
  ring_ok (qn_ring n) /\ dom (addrs (qn_ring n)) = member_ids cfg /\ ownership n = [] /\ node_id n = addr_to_node_id (listen cfg) /\
  (forall id a, addrs (qn_ring n) !! id = Some a -> a ∈ members cfg /\ id = addr_to_node_id a).
Proof.
  intros Ha. unfold node_build.
  pose proof (joins_ring (peer_addrs cfg) (add_node (addr_to_node_id (listen cfg)) (listen cfg) ring_new) watermark_new) as HJ.
  assert (dom (addrs (add_node (addr_to_node_id (listen cfg)) (listen cfg) ring_new)) = {[addr_to_node_id (listen cfg)]}) as Ed.
  { cbn. rewrite dom_insert_L, dom_empty_L. set_solver. }
  assert (ring_ok (add_node (addr_to_node_id (listen cfg)) (listen cfg) ring_new)) as Hr0.
  { apply add_node_ok; [apply ring_new_ok|]. eapply apart_subset; [|exact Ha]. cbn. rewrite dom_empty_L. unfold member_ids. cbn. set_solver. }
  destruct HJ as (H1 & H2 & H3); [done|eapply apart_subset; [|exact Ha]; rewrite Ed; unfold member_ids; cbn; set_solver|].
  change (foldl (fun '(r, w) addr => _) ?x ?l) with (foldl join x l). destruct (foldl join _ _) as [r w]. cbv zeta.
  cbn [fst qn_ring ownership node_id] in *.
  split; [done|]. split; [rewrite H2, Ed; unfold member_ids; cbn; set_solver|]. split; [done|]. split; [done|].
  intros id a Hx. unfold members. destruct (H3 id a Hx) as [[Hin ->]|Hx']; [split; [by right|done]|]. cbn in Hx'.
  apply lookup_insert_Some in Hx' as [[<- <-]|[_ Hx']]; [split; [by left|done]|by rewrite lookup_empty in Hx'].
Qed.

(** Nodes told apart by their identifiers. *)
Lemma by_id (cfgs : list Config) c o : NoDup (map (fun c => addr_to_node_id (listen c)) cfgs) -> c ∈ cfgs -> o ∈ cfgs ->
  addr_to_node_id (listen c) = addr_to_node_id (listen o) -> c = o.
Proof.
  intros Hnd (i & Hi)%list_elem_of_lookup_1 (j & Hj)%list_elem_of_lookup_1 E.
  change (map ?f ?l) with (f <$> l) in Hnd. assert (i = j) as <-; [|congruence].
  apply (NoDup_lookup _ i j (addr_to_node_id (listen c)) Hnd); rewrite list_lookup_fmap; [by rewrite Hi|by rewrite Hj, E].
Qed.

Lemma same_member_ids c c' : (forall a, a ∈ members c <-> a ∈ members c') -> member_ids c = member_ids c'.
Proof.
  intros Hm. apply set_eq. intros id. unfold member_ids. rewrite !elem_of_list_to_set. change (map ?f ?l) with (f <$> l).
  rewrite !list_elem_of_fmap. by split; intros (a & -> & Ha); exists a; (split; [done|]); apply Hm.
Qed.

(** C19: The nodes of a cluster agree, in whatever order each lists its peers: every
    partition has exactly one node that claims it, and every node routes to that one's
    address. *)
Theorem cluster_one_owner (cfgs : list Config) (reg : Config -> option ObjectRegistry) (opened : Config -> option NodeStorage) t s :
  cfgs <> [] -> NoDup (map (fun c => addr_to_node_id (listen c)) cfgs) ->
  (forall c, c ∈ cfgs -> apart (member_ids c) /\ forall a, a ∈ members c <-> a ∈ map listen cfgs) ->
  exists o, o ∈ cfgs /\ forall c, c ∈ cfgs ->
    (node_owns (node_build c (reg c) (opened c)) t s = true <-> c = o) /\
    route_to (node_build c (reg c) (opened c)) t s = Some (listen o).
Proof.
  intros Hne Hnd Hc. destruct cfgs as [|c0 cs] eqn:El; [done|]. rewrite <- El in *. assert (c0 ∈ cfgs) as H0 by (rewrite El; by left). clear El Hne.
  assert (forall c a, c ∈ cfgs -> a ∈ members c -> exists o, o ∈ cfgs /\ a = listen o) as Hmem.
  { intros c a Hin Ha. apply (proj2 (Hc c Hin)) in Ha. change (map ?f ?l) with (f <$> l) in Ha. apply list_elem_of_fmap in Ha as (o & -> & Ho). by exists o. }
  destruct (build_ring c0 (reg c0) (opened c0) (proj1 (Hc c0 H0))) as (R0 & D0 & _).
  assert (addr_to_node_id (listen c0) ∈ member_ids c0) as Hin0 by (unfold member_ids; cbn; set_solver). rewrite <- D0 in Hin0.
  destruct (owner_member t s _ _ R0 Hin0) as (id & Eo & Hid). rewrite D0 in Hid. unfold member_ids in Hid.
  apply elem_of_list_to_set in Hid. change (map ?f ?l) with (f <$> l) in Hid. apply list_elem_of_fmap in Hid as (a & -> & Ha).
  destruct (Hmem c0 a H0 Ha) as (o & Ho & ->). exists o. split; [done|]. intros c Hin.
  destruct (build_ring c (reg c) (opened c) (proj1 (Hc c Hin))) as (R & D & Ep & En & Haddr).
  assert (member_ids c = member_ids c0) as Em.
  { apply same_member_ids. intros a. by rewrite (proj2 (Hc c Hin)), (proj2 (Hc c0 H0)). }
  rewrite (same_members_owner t s _ (qn_ring (node_build c (reg c) (opened c)))) in Eo by (done || by rewrite D, D0, Em). split.
  - unfold node_owns. rewrite Ep, Eo, En. change (map_owns t s []) with false. cbn [orb]. rewrite bool_decide_eq_true. split; [|by intros ->].
    intros [= E]. by apply (by_id cfgs c o Hnd).
  - unfold route_to, addr_of. rewrite Eo. cbn [mbind option_bind].
    destruct (addrs (qn_ring (node_build c (reg c) (opened c))) !! addr_to_node_id (listen o)) as [a'|] eqn:Ea.
    + destruct (Haddr _ _ Ea) as [Hm E]. destruct (Hmem c a' Hin Hm) as (o' & Ho' & ->). f_equal. by rewrite (by_id cfgs o o').
    + apply not_elem_of_dom in Ea. destruct Ea. rewrite D, Em. unfold member_ids. apply elem_of_list_to_set.
      change (map ?f ?l) with (f <$> l). by apply list_elem_of_fmap_2.
Qed.

(** A server started without peers owns every partition, and serves the registry it
    was given. *)
Lemma started_alone trim made addr opened sv run t s : sv_peers sv = [] -> trim [] = [] -> apart {[addr_to_node_id addr]} ->
  start trim made (Done addr) opened sv = Done run ->
  run_addr run = addr /\ registry (run_node run) = sv_registry sv /\ node_owns (run_node run) t s = true /\ run_loops run = [CompactionLoop 30; FlushLoop 5; HeartbeatLoop 1 3].
Proof.
  intros Hp Ht Ha. unfold start. rewrite Hp. intros ([] & _ & E)%obind_done. cbn [obind] in E. injection E as <-. cbn [run_addr run_node run_loops].
  unfold parse_peers. cbn [split_comma map]. rewrite Ht. cbn [filter list_filter].
  set (cfg := {| listen := addr; peer_addrs := _; slow_node := _; cluster_key := None |}).
  assert (member_ids cfg = {[addr_to_node_id addr]}) as Em by (unfold member_ids; cbn; set_solver).
  destruct (build_ring cfg (sv_registry sv) (if sv_data_dir sv then opened else None)) as (R & D & Ep & En & _); [by rewrite Em|].
  split; [done|]. split; [unfold node_build; by destruct (foldl _ _ _)|]. split; [|done].
  destruct (owner_member t s _ (addr_to_node_id addr) R) as (o & Eo & Ho); [rewrite D, Em; set_solver|].
  rewrite D, Em in Ho. apply elem_of_singleton in Ho as ->. unfold node_owns. rewrite Ep, Eo, En.
  change (map_owns t s []) with false. cbn [orb]. by apply bool_decide_eq_true.
Qed.

(** *** Two nodes that list each other *)

Definition pair_config (own peer : list byte) : Config := {| listen := own; peer_addrs := [peer]; slow_node := None; cluster_key := None |}.
Definition pair_cluster : list Config := [pair_config (str "a:1") (str "b:2"); pair_config (str "b:2") (str "a:1")].

Lemma pair_apart : apart (list_to_set [addr_to_node_id (str "a:1"); addr_to_node_id (str "b:2")]).
Proof. apply apart_list. apply (bool_decide_unpack _). by vm_compute. Qed.

Lemma cluster_one_owner_witness : exists o, o ∈ pair_cluster /\ forall c, c ∈ pair_cluster ->
  (node_owns (node_build c None None) 1 0 = true <-> c = o) /\ route_to (node_build c None None) 1 0 = Some (listen o).
Proof.
  apply (cluster_one_owner pair_cluster (fun _ => None) (fun _ => None) 1 0).
  - done.
  - apply (bool_decide_unpack _). by vm_compute.
  - intros c Hc. unfold pair_cluster in Hc. split.
    + eapply apart_subset; [|exact pair_apart]. unfold member_ids. apply elem_of_cons in Hc as [->|Hc%list_elem_of_singleton]; [|subst c]; cbn; set_solver.
    + intros a. cbn [map pair_cluster]. apply elem_of_cons in Hc as [->|Hc%list_elem_of_singleton]; [|subst c]; unfold members; cbn; set_solver.
Defined.
