(* ===== verification/Transports.v ===== *)
(** * Transports (wavedb-net: the trait of lib.rs, mock.rs, http.rs)

    The trait as a class over the state of a transport and of what is behind it,
    with the scripted mock and the HTTP client as instances.  The HTTP client's
    worker takes one queued request per turn; the server is a function of a body,
    which answers or fails the connection. *)
From S2P Require Import Prelude Wire WireOk Request Registry WsClient.

(** [send] and [disconnect], which reports nothing back. *)
Class Transport (T : Type) : Type := {
  tr_send : TransportRequest -> ST T CoreError TransportResponse;
  tr_disconnect : Z -> Z -> T -> T
}.

(** ** The scripted mock *)

Record ScriptedReply : Type := {
  sc_payload : list byte;
  sc_error : bool;
  sc_owner_url : option (list byte);
  sc_backup_url : option (list byte);
  sc_node_error : option NodeError
}.

Definition scripted_ok (payload : list byte) : ScriptedReply :=
  {| sc_payload := payload; sc_error := false; sc_owner_url := None; sc_backup_url := None; sc_node_error := None |}.
Definition scripted_connect (owner backup : list byte) : ScriptedReply :=
  {| sc_payload := []; sc_error := false; sc_owner_url := Some owner; sc_backup_url := Some backup; sc_node_error := None |}.
Definition scripted_err : ScriptedReply :=
  {| sc_payload := []; sc_error := true; sc_owner_url := None; sc_backup_url := None; sc_node_error := None |}.
Definition scripted_node_err (e : NodeError) : ScriptedReply :=
  {| sc_payload := []; sc_error := false; sc_owner_url := None; sc_backup_url := None; sc_node_error := Some e |}.

Record MockTransport : Type := { script : list ScriptedReply; log : list TransportRequest; disconnects : list (Z * Z) }.

Definition mock_new : MockTransport := {| script := []; log := []; disconnects := [] |}.
Definition mock_push (r : ScriptedReply) (m : MockTransport) : MockTransport :=
  {| script := script m ++ [r]; log := log m; disconnects := disconnects m |}.
Definition mock_remaining (m : MockTransport) : nat := length (script m).

Definition mock_send (req : TransportRequest) : ST MockTransport CoreError TransportResponse := fun m =>
  let logged := {| script := tail (script m); log := log m ++ [req]; disconnects := disconnects m |} in
  match head (script m) with
  | None => (Fail (Registry.Transport (str "MockTransport: no scripted reply remaining")), logged)
  | Some r =>
    if sc_error r then (Fail (Registry.Transport (str "MockTransport: scripted error")), logged)
    else (Done {| rs_seq := req_seq req; rs_payload := sc_payload r; owner_url := sc_owner_url r; backup_url := sc_backup_url r;
                  notifications := []; rs_error := sc_node_error r |}, logged)
  end.

Definition mock_disconnect (user tenant : Z) (m : MockTransport) : MockTransport :=
  {| script := script m; log := log m; disconnects := disconnects m ++ [(user, tenant)] |}.

#[export] Instance mock_transport : Transport MockTransport := {| tr_send := mock_send; tr_disconnect := mock_disconnect |}.

(** ** The HTTP client *)

Section http.
Context {S : Type}.
(** What a posted body gets: a status with a body, or the text of a connection
    error. *)
Variable post : list byte -> S -> (StatusCode * list byte + list byte) * S.
(** The text for a status that is no success. *)
Variable status_text : StatusCode -> list byte.

(** The client's queue and bus, the server, the replies given so far and the number
    of calls. *)
Record HttpWorld : Type := {
  queue : list (nat * TransportRequest);
  hbus : list AnchorEvent;
  far : S;
  replies : gmap nat (outcome CoreError TransportResponse);
  calls : nat
}.

Definition http_start (s : S) : HttpWorld := {| queue := []; hbus := []; far := s; replies := ∅; calls := 0 |}.

Definition post_request (req : TransportRequest) : ST S CoreError TransportResponse := fun s =>
  match encode_payload wire_request req with
  | Done body =>
    match post body s with
    | (inr text, s) => (Fail (Registry.Transport text), s)
    | (inl (SOk, bytes), s) => (omap_err EWire (decode_payload wire_response bytes), s)
    | (inl (status, _), s) => (Fail (Registry.Transport (status_text status)), s)
    end
  | Fail e => (Fail (EWire e), s)
  | Fault => (Fault, s)
  end.

Definition dispatch_notifications (l : list Notification) (bus : list AnchorEvent) : list AnchorEvent :=
  bus ++ map notification_to_event l.

(** A turn of the worker: the request at the front, or the keep-alive, whose status
    is not looked at. *)
Definition flush_one (w : HttpWorld) : HttpWorld :=
  match queue w with
  | (caller, req) :: rest =>
    let '(r, s) := post_request req (far w) in
    {| queue := rest; hbus := match r with Done resp => dispatch_notifications (notifications resp) (hbus w) | _ => hbus w end;
       far := s; replies := <[caller := r]> (replies w); calls := calls w |}
  | [] =>
    let '(r, s) := post [] (far w) in
    {| queue := [];
       hbus := match r with
               | inl (_, (_ :: _) as bytes) =>
                 match decode_payload wire_response bytes with
                 | Done resp => dispatch_notifications (notifications resp) (hbus w)
                 | _ => hbus w
                 end
               | _ => hbus w
               end;
       far := s; replies := replies w; calls := calls w |}
  end.

(** A call up to its wait: its number is its place among the calls. *)
Definition enqueue (req : TransportRequest) (w : HttpWorld) : HttpWorld :=
  {| queue := queue w ++ [(calls w, req)]; hbus := hbus w; far := far w; replies := replies w; calls := Datatypes.S (calls w) |}.

(** A call that waits: the worker's turns up to its reply. *)
Definition http_send (req : TransportRequest) : ST HttpWorld CoreError TransportResponse := fun w =>
  let caller := calls w in
  let w := enqueue req w in
  let w := Nat.iter (length (queue w)) flush_one w in
  (default (Fail (Registry.Transport (str "http worker dropped"))) (replies w !! caller), w).

(** Straight to the server, past the queue. *)
Definition http_disconnect (user tenant : Z) (w : HttpWorld) : HttpWorld :=
  let '(_, s) := post_request (request_new (2 ^ 64 - 1) (Disconnect user tenant)) (far w) in
  {| queue := queue w; hbus := hbus w; far := s; replies := replies w; calls := calls w |}.

#[export] Instance http_transport : Transport HttpWorld := {| tr_send := http_send; tr_disconnect := http_disconnect |}.

(** ** The order of the queue *)

Inductive HttpMove : Type := HCall (req : TransportRequest) | HTurn.

Definition http_step (w : HttpWorld) (m : HttpMove) : HttpWorld :=
  match m with HCall req => enqueue req w | HTurn => flush_one w end.

Definition called (ms : list HttpMove) : list TransportRequest :=
  omap (fun m => match m with HCall req => Some req | HTurn => None end) ms.

(** The server between two states: each request served with its result, in order,
    keep-alives in between. *)
Inductive serves : S -> list (TransportRequest * outcome CoreError TransportResponse) -> S -> Prop :=
  | serves_none s : serves s [] s
  | serves_idle s l s1 : serves s l s1 -> serves s l (post [] s1).2
  | serves_one s l s1 req : serves s l s1 -> serves s (l ++ [(req, (post_request req s1).1)]) (post_request req s1).2.

(** A world in the middle of a schedule: the calls served, then those queued. *)
Record http_ok (s0 : S) (reqs : list TransportRequest) (rs : list (outcome CoreError TransportResponse)) (w : HttpWorld) : Prop := {
  ho_calls : calls w = length reqs;
  ho_few : (length rs <= length reqs)%nat;
  ho_queue : queue w = drop (length rs) (imap pair reqs);
  ho_replies : forall c, replies w !! c = rs !! c;
  ho_served : serves s0 (zip reqs rs) (far w)
}.

Lemma zip_snoc {A B} (l : list A) (l' : list B) x : (length l' <= length l)%nat -> zip (l ++ [x]) l' = zip l l'.
Proof. revert l'. induction l as [|a l IH]; intros [|b l'] H; cbn in *; [reflexivity|lia|reflexivity|]. f_equal. apply IH. lia. Qed.

Lemma zip_next {A B} (l : list A) (l' : list B) x y : l !! length l' = Some x -> zip l (l' ++ [y]) = zip l l' ++ [(x, y)].
Proof. revert l'. induction l as [|a l IH]; intros [|b l'] H; cbn in *; [done|done|injection H as ->; by destruct l|]. f_equal. by apply IH. Qed.

Lemma enqueue_ok s0 reqs rs w req : http_ok s0 reqs rs w -> http_ok s0 (reqs ++ [req]) rs (enqueue req w).
Proof.
  intros [H1 H2 H3 H4 H5]. constructor; cbn [enqueue calls queue replies far].
  - rewrite length_app, H1. cbn. lia.
  - rewrite length_app. lia.
  - rewrite H3, H1, imap_app, drop_app_le by by rewrite length_imap. f_equal. cbn. by rewrite Nat.add_0_r.
  - done.
  - by rewrite zip_snoc.
Qed.

Lemma flush_ok s0 reqs rs w : http_ok s0 reqs rs w ->
  http_ok s0 reqs (rs ++ match queue w with (_, req) :: _ => [(post_request req (far w)).1] | [] => [] end) (flush_one w).
Proof.
  intros [H1 H2 H3 H4 H5]. unfold flush_one. destruct (queue w) as [|[c req] rest] eqn:Eq.
  - rewrite app_nil_r. pose proof (serves_idle _ _ _ H5) as Hi. destruct (post [] (far w)) as [r s].
    constructor; cbn [calls queue replies far]; done.
  - assert (imap pair reqs !! length rs = Some (c, req)) as Hl.
    { rewrite <- (Nat.add_0_r (length rs)), <- lookup_drop, <- H3. done. }
    rewrite list_lookup_imap in Hl. destruct (reqs !! length rs) as [rq|] eqn:Er; [|done]. injection Hl as <- ->.
    pose proof (lookup_lt_Some _ _ _ Er) as Hlt. pose proof (serves_one _ _ _ req H5) as Hs.
    destruct (post_request req (far w)) as [r s]. cbn [fst snd] in *.
    constructor; cbn [calls queue replies far].
    + done.
    + rewrite length_app. cbn. lia.
    + rewrite length_app, <- drop_drop, <- H3. done.
    + intros c. destruct (decide (c = length rs)) as [->|Hc].
      * by rewrite lookup_insert_eq, lookup_app_r, Nat.sub_diag.
      * rewrite lookup_insert_ne, H4 by done. destruct (decide (c < length rs)%nat) as [?|?]; [by rewrite lookup_app_l|].
        rewrite lookup_ge_None_2 by lia. symmetry. apply lookup_ge_None_2. rewrite length_app. cbn. lia.
    + by rewrite (zip_next _ _ _ _ Er).
Qed.

Lemma http_start_ok s : http_ok s [] [] (http_start s).
Proof. constructor; try done. constructor. Qed.

Lemma http_run_ok s0 ms : exists rs, http_ok s0 (called ms) rs (foldl http_step (http_start s0) ms).
Proof.
  induction ms as [|m ms [rs IH]] using rev_ind; [by exists []; apply http_start_ok|].
  rewrite foldl_app. unfold called in *. rewrite omap_app. cbn [foldl omap list_omap]. destruct m as [req|]; cbn [http_step].
  - exists rs. by apply enqueue_ok.
  - rewrite app_nil_r. eexists. by apply flush_ok.
Qed.

(** C39: Whatever the order of calls and worker turns, the server gets the requests in
    the order of the calls, each once, and every caller that has a reply has the
    result of its own request; a call is without one only while it is queued. *)
Theorem http_serves_in_order s0 (ms : list HttpMove) :
  let w := foldl http_step (http_start s0) ms in
  exists rs, serves s0 (zip (called ms) rs) (far w) /\ (forall c, replies w !! c = rs !! c) /\
    queue w = drop (length rs) (imap pair (called ms)).
Proof. destruct (http_run_ok s0 ms) as [rs []]. by exists rs. Qed.

(** A call on an idle client is its request at the server. *)
Lemma http_send_idle req w : queue w = [] -> exists w', http_send req w = ((post_request req (far w)).1, w') /\
  queue w' = [] /\ far w' = (post_request req (far w)).2.
Proof.
  intros E. unfold http_send, enqueue. rewrite E. cbn [app queue length Nat.iter nat_rect]. unfold flush_one. cbn [queue far replies calls hbus].
  destruct (post_request req (far w)) as [r s]. cbn [replies fst snd]. rewrite lookup_insert_eq. by eexists.
Qed.
End http.
