(* ===== verification/Client.v ===== *)
(** * The client handle (wavedb: db.rs, object.rs; the chain of wavedb-macros)

    A handle sends through the transport it was opened on; handles of several tenants
    share one transport, which is the rest of the state of each operation.  The
    struct versions a program declares are an interface: their codecs and hooks, and
    the conversions of each to the version it names. *)
From S2P Require Import Prelude Wire WireOk Ids Core Page Request Registry Query QueryWire QuickNode Transports.

(** [{}] of an unsigned integer below 10^20. *)
Fixpoint digits (fuel : nat) (n : Z) : list byte :=
  match fuel with
  | O => []
  | S fuel => (if n <? 10 then [] else digits fuel (n / 10)) ++ [byte_of (48 + n mod 10)]
  end.
Definition decimal (n : Z) : list byte := digits 20 n.

(** [{:?}]. *)
Definition debug_code (c : ErrorCode) : list byte :=
  match c with
  | UnknownHeader => str "UnknownHeader"
  | MalformedPayload => str "MalformedPayload"
  | ValidationFailed => str "ValidationFailed"
  | PreprocessFailed => str "PreprocessFailed"
  | CStorage => str "Storage"
  | Unsupported => str "Unsupported"
  end.
Definition debug_shape (s : Shape) : list byte :=
  match s with Unique => str "Unique" | NonUnique => str "NonUnique" | NestedNonUnique => str "NestedNonUnique" end.

Definition node_error_to_core (err : NodeError) : CoreError :=
  match ne_code err with
  | UnknownHeader => EUnknownHeader (ne_struct_id err)
  | ValidationFailed | PreprocessFailed =>
    Validation (ne_struct_id err) {| ve_field := ne_field err; ve_message := ne_message err |}
  | MalformedPayload | CStorage | Unsupported =>
    EOther (str "node rejected request (" ++ debug_code (ne_code err) ++ str "): " ++ ne_message err)
  end.

(** The URL schemes a connection may have. *)
Inductive Scheme : Type := SchemeWs | SchemeHttp.

Definition to_ascii_lowercase (l : list byte) : list byte :=
  map (fun b => if (0x41 <=? byte_val b) && (byte_val b <=? 0x5a) then byte_of (byte_val b + 0x20) else b) l.

Definition starts_with (p l : list byte) : bool := bool_decide (take (length p) l = p).

Definition url_scheme (url : list byte) : option Scheme :=
  let lower := to_ascii_lowercase url in
  if starts_with (str "ws://") lower || starts_with (str "wss://") lower then Some SchemeWs
  else if starts_with (str "http://") lower || starts_with (str "https://") lower then Some SchemeHttp
  else None.

(** ** The handle *)

(** The erased transport is a pair of functions; [clones] counts the handles that
    share the state. *)
Record Db (T : Type) : Type := {
  user : Z;
  tenant : Z;
  db_owner_url : list byte;
  db_backup_url : list byte;
  db_seq : Z;
  disconnect_hook : Z -> Z -> T -> T;
  disconnected : bool;
  send_fn : TransportRequest -> ST T CoreError TransportResponse;
  clones : nat
}.
Arguments user {T}.
Arguments tenant {T}.
Arguments db_owner_url {T}.
Arguments db_backup_url {T}.
Arguments db_seq {T}.
Arguments disconnect_hook {T}.
Arguments disconnected {T}.
Arguments send_fn {T}.
Arguments clones {T}.

Section db.
Context {T : Type}.

(** A handle's operation also moves the transport. *)
Abbreviation DB := (ST (Db T * T) CoreError).

Definition db_new (user tenant : Z) (owner backup : list byte) (seq : Z) (hook : Z -> Z -> T -> T)
    (send : TransportRequest -> ST T CoreError TransportResponse) : Db T :=
  {| user := user; tenant := tenant; db_owner_url := owner; db_backup_url := backup; db_seq := seq;
     disconnect_hook := hook; disconnected := false; send_fn := send; clones := 1 |}.

Definition with_seq (s : Z) (d : Db T) : Db T :=
  {| user := user d; tenant := tenant d; db_owner_url := db_owner_url d; db_backup_url := db_backup_url d; db_seq := s;
     disconnect_hook := disconnect_hook d; disconnected := disconnected d; send_fn := send_fn d; clones := clones d |}.

Definition open_with_transport `{!Transport T} (user tenant : Z) : ST T CoreError (Db T) :=
  let! resp := tr_send (request_new 0 (Connect user tenant)) in
  st_ret (db_new user tenant (default (str "ws://localhost:7700") (owner_url resp)) (default (str "ws://localhost:7701") (backup_url resp))
            1 tr_disconnect tr_send).

Definition noop (user tenant : Z) : Db T :=
  db_new user tenant [] [] 0 (fun _ _ t => t) (fun _ => st_lift (Fail (Registry.Transport (str "noop Db cannot send requests")))).

(** [seq.fetch_add(1)]. *)
Definition fetch_seq : DB Z := fun w =>
  (Done (db_seq w.1), (with_seq (wrap 64 (db_seq w.1 + 1)) w.1, w.2)).

Definition raw_send (req : TransportRequest) : DB TransportResponse := fun w =>
  let '(r, t) := send_fn w.1 req w.2 in (r, (w.1, t)).

Definition this : DB (Db T) := st_gets fst.

Definition another_tenant (other : Z) : DB (Db T) :=
  let! next := fetch_seq in
  let! d := this in
  let! resp := raw_send (request_new next (Connect (user d) other)) in
  let! seq := st_lift (uadd 64 next 1) in
  st_ret (db_new (user d) other (default (db_owner_url d) (owner_url resp)) (default (db_backup_url d) (backup_url resp))
            seq (fun _ _ t => t) (send_fn d)).

(** The payload of the response, whatever it says of the owner. *)
Definition send (kind : RequestKind) : DB (list byte) :=
  let! seq := fetch_seq in
  let! resp := raw_send (request_new seq kind) in
  match rs_error resp with
  | Some err => st_lift (Fail (node_error_to_core err))
  | None => st_ret (rs_payload resp)
  end.

Definition unique_anchor_id (struct_id : Z) (d : Db T) : Id := Id_new (tenant d) 0 struct_id 0.

Definition db_clone (d : Db T) : Db T :=
  {| user := user d; tenant := tenant d; db_owner_url := db_owner_url d; db_backup_url := db_backup_url d; db_seq := db_seq d;
     disconnect_hook := disconnect_hook d; disconnected := disconnected d; send_fn := send_fn d; clones := S (clones d) |}.

(** One clone dropped: the last one disconnects, once. *)
Definition db_drop (w : Db T * T) : Db T * T :=
  let d := w.1 in
  let fire := bool_decide (clones d = 1%nat) && negb (disconnected d) in
  ({| user := user d; tenant := tenant d; db_owner_url := db_owner_url d; db_backup_url := db_backup_url d; db_seq := db_seq d;
      disconnect_hook := disconnect_hook d; disconnected := disconnected d || fire; send_fn := send_fn d; clones := pred (clones d) |},
   if fire then disconnect_hook d (user d) (tenant d) w.2 else w.2).
End db.

(** ** Declared structs *)

(** The struct versions of a program: an index, the record of each with its codec,
    and the attributes of the declaration.  A conversion runs on the handle it is
    given, here any state [W]. *)
Class Structs (W V : Type) : Type := {
  record : V -> Type;
  STRUCT_ID : V -> Z;
  STRUCT_VERSION : V -> Z;
  SHAPE : V -> Shape;
  type_name : V -> list byte;
  codec : forall v, Wire (record v);
  validate : forall v, record v -> outcome ValidationError unit;
  migrate_from : forall v, option { old : V & record old -> ST W CoreError (record v) };
  migrate_rollback : forall v, option { new : V & record new -> ST W CoreError (record v) }
}.

Section structs.
Context {W V : Type} `{!Structs W V}.
(** The text of a codec error. *)
Variable wire_text : WireError -> list byte.

Definition deserialize_for_migration (v : V) (bytes : list byte) : outcome CoreError (record v) :=
  omap_err (fun e => MigrationDe (wire_text e)) (from_wire (codec v) bytes).

Definition no_path (direction : list byte) (v : V) (stored : Z) : CoreError :=
  EOther (str "no " ++ direction ++ str " path: " ++ type_name v ++ str " v" ++ decimal (STRUCT_VERSION v) ++
          str " cannot read stored v" ++ decimal stored).

(** The code the macro writes for each struct: a stored version below the own one is
    read as the struct migrated from, one above it as the struct rolled back from. *)
Fixpoint read_as_self (fuel : nat) (v : V) (bytes : list byte) (stored : Z) : ST W CoreError (record v) :=
  match fuel with
  | O => st_lift Fault
  | S fuel =>
    match Z.compare stored (STRUCT_VERSION v) with
    | Eq => st_lift (deserialize_for_migration v bytes)
    | Lt =>
      match migrate_from v with
      | Some (existT old f) => let! source := read_as_self fuel old bytes stored in f source
      | None => st_lift (Fail (no_path (str "upgrade") v stored))
      end
    | Gt =>
      match migrate_rollback v with
      | Some (existT new f) => let! future := read_as_self fuel new bytes stored in f future
      | None => st_lift (Fail (no_path (str "rollback") v stored))
      end
    end
  end.

Definition assert_shape (v : V) (expected : Shape) : outcome CoreError unit :=
  match expected, SHAPE v with
  | Unique, Unique | NonUnique, NonUnique | NestedNonUnique, NestedNonUnique => Done tt
  | _, got =>
    Fail (EOther (str "shape mismatch: expected " ++ debug_shape expected ++ str ", got " ++ debug_shape got ++
                  str " for struct_id=" ++ decimal (STRUCT_ID v)))
  end.
End structs.

(** Versions are bytes: no chain of neighbours is longer. *)
Definition CHAIN_FUEL : nat := 257.

Section objects.
Context {T V : Type} `{!Structs (Db T * T) V}.
Variable wire_text : WireError -> list byte.

Abbreviation DB := (ST (Db T * T) CoreError).
Abbreviation read_self := (read_as_self wire_text CHAIN_FUEL).

(** A stored body behind its version byte. *)
Definition do_search_unique (v : V) : DB (option (record v)) :=
  let! d := this in
  let! payload := send (SearchUnique (STRUCT_ID v) (user d) (tenant d)) in
  match payload with
  | [] => st_ret None
  | stored :: body => let! r := read_self v body (byte_val stored) in st_ret (Some r)
  end.

Fixpoint read_entries (v : V) (l : list (byte * list byte)) : DB (list (record v)) :=
  match l with
  | [] => st_ret []
  | (stored, body) :: l =>
    let! r := read_self v body (byte_val stored) in
    let! rs := read_entries v l in
    st_ret (r :: rs)
  end.

Definition do_query_non_unique (v : V) (expr : Expr) : DB (list (record v)) :=
  let! filter := st_lift (omap_err EWire (to_bytes expr)) in
  let! d := this in
  let! payload := send (QueryNonUnique (STRUCT_ID v) (user d) (tenant d) filter) in
  match payload with
  | [] => st_ret []
  | _ =>
    let! entries := st_lift (omap_err EWire (from_wire wire_entries payload)) in
    read_entries v entries
  end.

Definition do_write (v : V) (r : record v) : DB unit :=
  do! st_lift (omap_err (Validation (STRUCT_ID v)) (validate v r)) in
  let! body := st_lift (omap_err EWire (to_wire (codec v) r)) in
  let! d := this in
  do! send (WriteReq (STRUCT_ID v) (user d) (tenant d) (byte_of (STRUCT_VERSION v) :: body)) in
  st_ret tt.

Definition do_delete (id : Z) : DB unit :=
  let! d := this in
  do! send (DeleteReq id (user d) (tenant d)) in
  st_ret tt.

(** [Db]'s names for them. *)
Definition find := do_search_unique.
Definition query := do_query_non_unique.
Definition save := do_write.
Definition delete (id : Id) : DB unit := do_delete id.
End objects.
