(* ===== verification/ClientOk.v ===== *)
(** * The client against a serving node

    A transport to a node promises an interface: each request it sends is answered as
    the lists of records answer it.  The HTTP client on an idle queue keeps that
    promise; the handle's operations are proved against the interface. *)
From S2P Require Import Prelude Wire WireOk Ids Core Page Errors Live LiveOk LiveFile Auth Cluster Request Registry Query QueryWire Ring QuickNode NodeServe NodeOk WsClient QuickServer Transports Client.

(** ** The interface *)

Definition delivered (resp : TransportResponse) : Prop := response_wf resp /\ slots_fit wire_response resp = true.
Definition posted (req : TransportRequest) : Prop := request_wf req /\ slots_fit wire_request req = true.

(** [at_node cap w A t]: the transport's state [t] has a node behind it with the
    tables [A] after [w] writes and room for [cap] records. *)
Class NodeTransport {T} (answer : TransportRequest -> Z -> Table -> TransportResponse * (Z * Table)) (may : TransportRequest -> Prop)
    (sends : TransportRequest -> ST T CoreError TransportResponse) (at_node : nat -> Z -> Table -> T -> Prop) : Prop :=
  node_send cap w A t req : at_node (3 + cap)%nat w A t -> posted req -> may req -> w + 1 < 2 ^ 48 ->
    delivered (answer req w A).1 ->
    exists t', sends req t = (Done (answer req w A).1, t') /\ at_node cap (answer req w A).2.1 (answer req w A).2.2 t'.

(** ** The HTTP client keeps it *)

Section http.
Variable storage_text : StorageError -> list byte.
Variable wire_text : WireError -> list byte.
Variable core_text : CoreError -> list byte.
Variable hmac : list byte -> list byte -> list byte.
Variable now_secs : Z.
Variable status_text : StatusCode -> list byte.
(** What a client sees of a handler that panics. *)
Variable closed_text : list byte.
Hypothesis hmac_length : forall key msg, length (hmac key msg) = 32%nat.
Hypothesis now_fits : fits 64 now_secs.

Definition node_post (body : list byte) (n : QuickNode) : (StatusCode * list byte + list byte) * QuickNode :=
  match handle_http storage_text wire_text core_text hmac now_secs body n with
  | (Done r, n) => (inl r, n)
  | (_, n) => (inr closed_text, n)
  end.

Lemma post_served cap w A n req : node_ok (3 + cap) w A n -> posted req -> NodeOk.request_ok wire_text core_text (registry n) req -> w + 1 < 2 ^ 48 ->
  let out := spec_step wire_text core_text n req w A in delivered out.1 ->
  exists n', post_request node_post status_text req n = (Done out.1, n') /\ stays n n' /\ node_ok cap out.2.1 out.2.2 n'.
Proof.
  intros Hn [Hw Hf] Hr Hlt out [Ow Of]. destruct (handle_step storage_text wire_text core_text hmac now_secs hmac_length now_fits cap w A n req Hn Hr Hlt)
    as (n' & E & St & Hn' & _). fold out in E, Hn'. exists n'. split; [|done].
  assert (encode_payload wire_request req = Done (enc wire_request req)) as Ee by by apply (to_wire_enc wire_request request_wf).
  assert (decode_payload wire_request (enc wire_request req) = Done req) as Ed by by apply (from_wire_enc wire_request request_wf).
  assert (enc wire_request req <> []) as Hne.
  { intros E0%(f_equal length). rewrite (length_enc wire_request request_wf) in E0 by done. cbn in E0. lia. }
  unfold post_request. rewrite Ee. unfold node_post, handle_http. destruct (enc wire_request req) as [|b l] eqn:El; [done|].
  rewrite (with_body_done _ (b :: l) req) by done. rewrite (bind_run _ _ _ _ _ E).
  rewrite (reply_done _ _ (enc wire_response out.1)) by by apply (to_wire_enc wire_response response_wf).
  assert (decode_payload wire_response (enc wire_response out.1) = Done out.1) as -> by by apply (from_wire_enc wire_response response_wf).
  done.
Qed.

Definition http_at (n0 : QuickNode) (cap : nat) (w : Z) (A : Table) (h : HttpWorld (S := QuickNode)) : Prop :=
  queue h = [] /\ stays n0 (far h) /\ node_ok cap w A (far h).

#[export] Instance http_node_transport n0 :
  NodeTransport (spec_step wire_text core_text n0) (NodeOk.request_ok wire_text core_text (registry n0)) (http_send node_post status_text) (http_at n0).
Proof.
  intros cap w A h req (Eq & St & Hn) Hp Hr Hw Hd.
  destruct (post_served cap w A (far h) req Hn Hp) as (n' & E & St' & Hn'); [by rewrite (st_registry _ _ St)|done|by rewrite (stays_step _ _ n0 (far h))|].
  rewrite (stays_step _ _ n0 (far h)) in E, Hn' by done.
  destruct (http_send_idle node_post status_text req h Eq) as (h' & Eh & Eq' & Ef). rewrite E in Eh, Ef. cbn [fst snd] in *.
  exists h'. split; [done|]. split; [done|]. rewrite Ef. split; [by etransitivity|done].
Qed.
End http.

(** ** What is posted and what comes back *)

Lemma length_singles (p : list byte) : length (concat (map (fun v => le_bytes 1 (byte_val v)) p)) = length p.
Proof. induction p as [|b p IH]; [done|]. cbn [map concat]. rewrite length_app, IH, length_le_bytes. done. Qed.

Lemma fitsb_below w z : 0 <= z < 2 ^ w -> fitsb w z = true.
Proof. intros H. apply fitsb_spec. exact H. Qed.

Lemma forallb_any {A} (f : A -> bool) (l : list A) : (forall x, f x = true) -> forallb f l = true.
Proof. intros H. apply forallb_forall. intros x _. apply H. Qed.

Lemma plain_delivered sq p : fits 64 sq -> zlen p < 2 ^ 32 -> delivered (resp_ok sq p).
Proof.
  intros Hs Hp. split; [unfold response_wf; cbn; split_and!; [done|by intros x|by intros x|done|by intros e]|]. unfold zlen in Hp.
  assert (fitsb 32 (Z.of_nat (length (concat (map (fun v : byte => le_bytes 1 (byte_val v)) p)))) = true) as E
    by (apply fitsb_below; rewrite length_singles; lia).
  cbn -[Z.pow fitsb]. rewrite E, forallb_any by done. done.
Qed.

(** A body of bytes behind [pre] bytes of fixed fields. *)
Lemma body_posted (f : list byte -> list byte -> list byte) p pre :
  (forall n q, length (f n q) = pre + length n + length q)%nat -> Z.of_nat pre + zlen p + 4 < 2 ^ 32 ->
  let q := concat (map (fun v : byte => le_bytes 1 (byte_val v)) p) in
  fitsb 32 (Z.of_nat (length (f (le_bytes 4 (Z.of_nat (length q))) q))) &&
    (fitsb 32 (Z.of_nat (length q)) && forallb (fun _ : byte => true) p) = true.
Proof.
  intros Hf Hp q. unfold zlen in Hp. rewrite Hf, length_le_bytes. unfold q. rewrite length_singles.
  rewrite forallb_any by done. rewrite !fitsb_below by lia. done.
Qed.

Lemma write_posted sq s u t p : fits 64 sq -> fits 64 u -> key_ok s t -> zlen p < 2 ^ 31 -> posted (request_new sq (WriteReq s u t p)).
Proof.
  intros Hq Hu [Hs Ht] Hp. split; [split; [done|]; cbn; unfold fits in *; lia|].
  cbn -[Z.pow fitsb le_bytes].
  apply (body_posted (fun n q => (le_bytes 4 s ++ le_bytes 8 u ++ le_bytes 8 t ++ n) ++ q) p 20); [|lia].
  intros n q. rewrite !length_app, !length_le_bytes. lia.
Qed.

Lemma query_posted sq s u t f : fits 64 sq -> fits 64 u -> key_ok s t -> zlen f < 2 ^ 31 -> posted (request_new sq (QueryNonUnique s u t f)).
Proof.
  intros Hq Hu [Hs Ht] Hp. split; [split; [done|]; cbn; unfold fits in *; lia|].
  cbn -[Z.pow fitsb le_bytes].
  apply (body_posted (fun n q => (le_bytes 4 s ++ le_bytes 8 u ++ le_bytes 8 t ++ n) ++ q) f 20); [|lia].
  intros n q. rewrite !length_app, !length_le_bytes. lia.
Qed.

Lemma search_posted sq s u t : fits 64 sq -> fits 64 u -> key_ok s t -> posted (request_new sq (SearchUnique s u t)).
Proof. intros Hq Hu [Hs Ht]. split; [split; [done|]; cbn; unfold fits in *; lia|]. by cbn. Qed.

(** The entries of a query's response. *)
Definition entries_wf (v : byte * list byte) : Prop := True /\ Forall (fun _ : byte => True) v.2.

Lemma entries_any l : Forall entries_wf l.
Proof. apply Forall_true. intros x. split; [done|by apply Forall_true]. Qed.

Lemma entries_size l m : Forall (fun e : byte * list byte => zlen e.2 <= m) l ->
  zlen (enc wire_entries l) <= 4 + zlen l * (m + 5).
Proof.
  intros Hl. unfold zlen at 1. rewrite (length_enc wire_entries (Forall entries_wf)) by apply entries_any.
  change (STACK_SIZE wire_entries) with 4%nat. rewrite Nat2Z.inj_add.
  enough (Z.of_nat (heap_size wire_entries l) <= zlen l * (m + 5)) by lia.
  cbn. induction Hl as [|e l He Hl IH]; [done|]. cbn [map sum_list]. unfold zlen, id in *. cbn [length] in *. nia.
Qed.

Lemma entries_encode l m : Forall (fun e : byte * list byte => zlen e.2 <= m) l -> 0 <= m -> 4 + zlen l * (m + 5) < 2 ^ 32 ->
  to_wire wire_entries l = Done (enc wire_entries l) /\ from_wire wire_entries (enc wire_entries l) = Done l.
Proof.
  intros Hl Hm Hlt. assert (slots_fit wire_entries l = true) as Hf.
  { pose proof (entries_size l m Hl) as Hs. cbn -[Z.pow fitsb stacks units] in *.
    apply andb_true_iff. split.
    - apply fitsb_below. unfold zlen at 1 in Hs. rewrite length_app, length_le_bytes in Hs. lia.
    - apply forallb_forall. intros e He. rewrite forallb_any, andb_true_r by done. apply fitsb_below.
      rewrite length_stacks by by apply Forall_true. rewrite Forall_forall in Hl. apply list_elem_of_In in He as He'. specialize (Hl e He').
      destruct l as [|x l]; [done|]. unfold zlen in *. cbn [length] in *. cbn. nia. }
  split; [by apply (to_wire_enc wire_entries (Forall entries_wf)); [apply entries_any|]|by apply (from_wire_enc wire_entries (Forall entries_wf)); [apply entries_any|]].
Qed.

(** ** A handle on a transport to a node *)

Section handle.
Context {T V : Type} `{!Structs (Db T * T) V}.
Context {wf : forall v : V, record v -> Prop} `{!forall v, WireOk (codec v) (wf v)}.
Variable wire_text : WireError -> list byte.
Variable core_text : CoreError -> list byte.
Variable n0 : QuickNode.
Context {sends : TransportRequest -> ST T CoreError TransportResponse} {at_node : nat -> Z -> Table -> T -> Prop}.
Context `{!NodeTransport (spec_step wire_text core_text n0) (NodeOk.request_ok wire_text core_text (registry n0)) sends at_node}.

Record handle_at (cap : nat) (w : Z) (A : Table) (k : Z) (x : Db T * T) : Prop := {
  ha_node : at_node cap w A x.2;
  ha_send : send_fn x.1 = sends;
  ha_user : fits 64 (user x.1);
  ha_key : key_ok k (tenant x.1);
  ha_seq : fits 64 (db_seq x.1)
}.

(** What an operation leaves of a handle. *)
Definition same_handle (d d' : Db T) : Prop := user d' = user d /\ tenant d' = tenant d.

(** A request through the handle. *)
Lemma send_runs cap w A k d t kind : handle_at (3 + cap) w A k (d, t) -> w + 1 < 2 ^ 48 ->
  let req := request_new (db_seq d) kind in let out := spec_step wire_text core_text n0 req w A in
  posted req -> NodeOk.request_ok wire_text core_text (registry n0) req -> delivered out.1 ->
  exists d' t', send kind (d, t) = (match rs_error out.1 with Some e => Fail (node_error_to_core e) | None => Done (rs_payload out.1) end, (d', t')) /\
    handle_at cap out.2.1 out.2.2 k (d', t') /\ same_handle d d'.
Proof.
  intros [H1 H2 H3 H4 H5] Hw req out Hp Hr Hd. cbn [fst snd] in *.
  destruct (node_send (answer := spec_step wire_text core_text n0) cap w A t req H1 Hp Hr Hw Hd) as (t' & E & Ht'). fold out in E, Ht'.
  exists (with_seq (wrap 64 (db_seq d + 1)) d), t'. split; [|split; [|done]].
  - unfold send, fetch_seq, st_bind, raw_send. cbn [fst snd with_seq send_fn]. fold req. rewrite H2, E.
    destruct (rs_error out.1); done.
  - constructor; cbn; try done. apply wrap_fits. lia.
Qed.

(** *** Reading on a node that owns the tenant *)

(** A record of one of the struct's versions, and its stored form. *)
Abbreviation Any := { u : V & record u }.

Definition stored_of (e : Any) : list byte := byte_of (STRUCT_VERSION (projT1 e)) :: enc (codec (projT1 e)) (projT2 e).

Record kept (k : Z) (e : Any) : Prop := {
  ke_id : STRUCT_ID (projT1 e) = k;
  ke_version : fits 8 (STRUCT_VERSION (projT1 e));
  ke_wf : wf (projT1 e) (projT2 e);
  ke_fits : slots_fit (codec (projT1 e)) (projT2 e) = true;
  ke_size : zlen (stored_of e) <= PAYLOAD_MAX
}.

Definition owns (d : Db T) : Prop := node_owns n0 (tenant d) 0 = true.

Lemma step_search sq s u t w A : node_owns n0 t 0 = true ->
  spec_step wire_text core_text n0 (request_new sq (SearchUnique s u t)) w A = (resp_ok sq (default [] (snd <$> last (A (s, t)))), (w, A)).
Proof. intros Ho. unfold spec_step. cbn [req_kind req_seq request_new]. by rewrite Ho. Qed.

Lemma step_query sq s u t f w A : node_owns n0 t 0 = true -> from_bytes f = Done EAll ->
  spec_step wire_text core_text n0 (request_new sq (QueryNonUnique s u t f)) w A =
  (encoded_entries wire_text sq s (omap (fun x => selected None s EAll x.2) (A (s, t))), (w, A)).
Proof. intros Ho Hf. unfold spec_step. cbn [req_kind req_seq request_new]. rewrite Ho. unfold queried. by rewrite Hf, andb_false_r. Qed.

(** The rows of a struct and tenant are the stored forms of [es]. *)
Definition holds (A : Table) (key : Z * Z) (es : list Any) : Prop := map snd (A key) = map stored_of es.

(** What reading a stored record as [v] gives, on any state. *)
Definition reads_as (v : V) (e : Any) (y : record v) : Prop :=
  forall x, read_as_self wire_text CHAIN_FUEL v (enc (codec (projT1 e)) (projT2 e)) (STRUCT_VERSION (projT1 e)) x = (Done y, x).

Lemma find_runs cap w A k es v (ys : list (record v)) d t : handle_at (3 + cap) w A k (d, t) -> w + 1 < 2 ^ 48 -> owns d -> Forall (kept k) es ->
  holds A (k, tenant d) es -> STRUCT_ID v = k -> Forall2 (reads_as v) es ys ->
  exists d' t', find wire_text v (d, t) = (Done (last ys), (d', t')) /\ handle_at cap w A k (d', t') /\ same_handle d d'.
Proof.
  intros Hh Hw Ho Hes He Hv Hr. pose proof Hh as [_ _ Hu Hk Hq]. cbn [fst snd] in *. unfold owns in Ho.
  assert (snd <$> last (A (k, tenant d)) = stored_of <$> last es) as El.
  { unfold holds in He. change (map ?f ?l) with (f <$> l) in He. by rewrite <- !fmap_last, He. }
  pose proof (send_runs cap w A k d t (SearchUnique k (user d) (tenant d)) Hh Hw) as HS. cbv zeta in HS.
  rewrite step_search, El in HS by done. cbn [fst snd rs_error rs_payload resp_ok] in HS. destruct HS as (d' & t' & E & Hh' & Sd).
  - by apply search_posted.
  - done.
  - apply plain_delivered; [done|]. destruct (last es) as [e|] eqn:Ee; [|done]. cbn. rewrite last_lookup in Ee.
    pose proof (ke_size _ _ (Forall_lookup_1 _ _ _ _ Hes Ee)) as Hs. unfold PAYLOAD_MAX in Hs. lia.
  - exists d', t'. split; [|done]. unfold find, do_search_unique. rewrite (bind_run this _ _ d (d, t)) by done. rewrite Hv, (bind_run _ _ _ _ _ E).
    destruct (last es) as [e|] eqn:Ee; rewrite last_lookup in Ee.
    + destruct (Forall2_lookup_l _ _ _ _ _ Hr Ee) as (y & Ey & Hy). unfold default, id, stored_of. cbn [fmap option_fmap option_map].
      rewrite byte_val_of by apply (ke_version _ _ (Forall_lookup_1 _ _ _ _ Hes Ee)). rewrite (bind_run _ _ _ _ _ (Hy _)).
      rewrite last_lookup, <- (Forall2_length _ _ _ Hr), Ey. done.
    + assert (ys = []) as ->; [|done]. apply Forall2_length in Hr. destruct es as [|e es]; [by destruct ys|].
      apply lookup_ge_None_1 in Ee. cbn in Ee. lia.
Qed.

Definition entry_of (e : Any) : byte * list byte := (byte_of (STRUCT_VERSION (projT1 e)), enc (codec (projT1 e)) (projT2 e)).

Lemma selected_all k l es : map snd l = map stored_of es -> omap (fun x : Id * list byte => selected None k EAll x.2) l = map entry_of es.
Proof.
  revert es. induction l as [|[i p] l IH]; intros [|e es] E; try done. cbn [map snd] in E. injection E as -> E. cbn. f_equal. by apply IH.
Qed.

Lemma entries_read v es (ys : list (record v)) x : Forall2 (reads_as v) es ys -> Forall (fun e => fits 8 (STRUCT_VERSION (projT1 e))) es ->
  read_entries wire_text v (map entry_of es) x = (Done ys, x).
Proof.
  intros Hr. induction Hr as [|e y es ys Hy Hr IH]; intros Hfs; [done|]. apply Forall_cons in Hfs as [Hf Hfs]. cbn [map entry_of read_entries].
  rewrite byte_val_of by done. rewrite (bind_run _ _ _ _ _ (Hy x)), (bind_run _ _ _ _ _ (IH Hfs)). done.
Qed.

Lemma all_filter : exists f, to_bytes EAll = Done f /\ from_bytes f = Done EAll /\ zlen f < 2 ^ 31.
Proof. eexists. split; [by vm_compute|]. by split; vm_compute. Qed.

Lemma query_runs cap w A k es v (ys : list (record v)) d t : handle_at (3 + cap) w A k (d, t) -> w + 1 < 2 ^ 48 -> owns d -> Forall (kept k) es ->
  holds A (k, tenant d) es -> STRUCT_ID v = k -> Forall2 (reads_as v) es ys -> zlen es <= 2 ^ 19 ->
  exists d' t', query wire_text v EAll (d, t) = (Done ys, (d', t')) /\ handle_at cap w A k (d', t') /\ same_handle d d'.
Proof.
  intros Hh Hw Ho Hes He Hv Hr Hl. pose proof Hh as [_ _ Hu Hk Hq]. cbn [fst snd] in *. unfold owns in Ho.
  destruct all_filter as (f & Ef & Ed & Hfl).
  destruct (entries_encode (map entry_of es) PAYLOAD_MAX) as [Et Efr].
  { apply Forall_map. eapply Forall_impl; [exact Hes|]. intros e [_ _ _ _ Hs]. unfold stored_of, zlen in *. cbn [length entry_of snd] in *. lia. }
  { by vm_compute. }
  { unfold zlen in *. rewrite length_map. unfold PAYLOAD_MAX. lia. }
  pose proof (send_runs cap w A k d t (QueryNonUnique k (user d) (tenant d) f) Hh Hw) as HS. cbv zeta in HS.
  rewrite (step_query _ _ _ _ _ _ _ Ho Ed), (selected_all k _ es He) in HS. unfold encoded_entries in HS. rewrite Et in HS.
  cbn [fst snd rs_error rs_payload resp_ok] in HS. destruct HS as (d' & t' & E & Hh' & Sd).
  - by apply query_posted.
  - done.
  - apply plain_delivered; [done|]. eapply Z.le_lt_trans; [apply (entries_size _ PAYLOAD_MAX)|].
    { apply Forall_map. eapply Forall_impl; [exact Hes|]. intros e [_ _ _ _ Hs]. unfold stored_of, zlen in *. cbn [length entry_of snd] in *. lia. }
    unfold zlen in *. rewrite length_map. unfold PAYLOAD_MAX. lia.
  - exists d', t'. split; [|done]. unfold query, do_query_non_unique. rewrite Ef. cbn [omap_err].
    rewrite (bind_run (st_lift (Done f)) _ _ f (d, t)) by done. rewrite (bind_run this _ _ d (d, t)) by done. rewrite Hv, (bind_run _ _ _ _ _ E).
    destruct (enc wire_entries (map entry_of es)) as [|b l] eqn:El.
    { apply (f_equal length) in El. rewrite (length_enc wire_entries (Forall entries_wf)) in El by apply entries_any. cbn in El. lia. }
    rewrite Efr. cbn [omap_err]. rewrite (bind_run (st_lift (Done _)) _ _ _ (d', t')) by reflexivity.
    apply entries_read; [done|]. eapply Forall_impl; [exact Hes|]. by intros e [].
Qed.

(** *** A rollout, on a schema-blind node *)

Hypothesis blind : registry n0 = None.

Definition storable (k : Z) (e : Any) : Prop := kept k e /\ validate (projT1 e) (projT2 e) = Done tt.

Lemma storable_kept k es : Forall (storable k) es -> Forall (kept k) es.
Proof. intros Hes. eapply Forall_impl; [exact Hes|]. by intros e []. Qed.

Lemma step_write sq s u t p w A : node_owns n0 t 0 = true ->
  spec_step wire_text core_text n0 (request_new sq (WriteReq s u t p)) w A =
  (resp_ok sq [], (w + 1, table_set (s, t) (A (s, t) ++ [(Id_new t 0 s (w + 1), p)]) A)).
Proof. intros Ho. unfold spec_step. cbn [req_kind req_seq request_new]. rewrite Ho, blind. done. Qed.

Lemma save_runs cap w A k es d t e : handle_at (3 + cap) w A k (d, t) -> w + 1 < 2 ^ 48 -> owns d -> storable k e -> holds A (k, tenant d) es ->
  exists d' t' A', save (projT1 e) (projT2 e) (d, t) = (Done tt, (d', t')) /\ handle_at cap (w + 1) A' k (d', t') /\ same_handle d d' /\
    holds A' (k, tenant d) (es ++ [e]).
Proof.
  intros Hh Hw Ho [[Eid _ Hwf Hf Hs] Hv] He. pose proof Hh as [_ _ Hu Hk Hq]. cbn [fst snd] in *. unfold owns in Ho.
  pose proof (send_runs cap w A k d t (WriteReq k (user d) (tenant d) (stored_of e)) Hh Hw) as HS. cbv zeta in HS.
  rewrite step_write in HS by done. destruct HS as (d' & t' & E & Hh' & Sd).
  - apply write_posted; [done..|]. unfold PAYLOAD_MAX in Hs. lia.
  - split; [done|]. rewrite blind. by intros c [= <-].
  - by apply plain_delivered.
  - cbn [fst snd rs_error rs_payload resp_ok] in *. eexists d', t', _. split; [|split; [exact Hh'|split; [done|]]].
    + unfold save, do_write. rewrite Hv, Eid. cbn [omap_err]. rewrite (to_wire_enc (codec (projT1 e)) (wf (projT1 e))) by done.
      rewrite (bind_run (st_lift (Done tt)) _ _ tt (d, t)) by done. cbn [omap_err]. rewrite (bind_run (st_lift (Done _)) _ _ _ (d, t)) by reflexivity.
      rewrite (bind_run this _ _ d (d, t)) by done. by rewrite (bind_run _ _ _ _ _ E).
    + unfold holds in *. rewrite !map_app, <- He. unfold table_set. rewrite decide_True by done. rewrite map_app. done.
Qed.

Definition save_each (es : list Any) : ST (Db T * T) CoreError unit := st_iter (fun e => save (projT1 e) (projT2 e)) es.

Lemma saves_run es cap w A k olds d t : handle_at (3 * length es + cap) w A k (d, t) -> w + zlen es < 2 ^ 48 -> owns d ->
  Forall (storable k) es -> holds A (k, tenant d) olds ->
  exists d' t' A', save_each es (d, t) = (Done tt, (d', t')) /\ handle_at cap (w + zlen es) A' k (d', t') /\ same_handle d d' /\
    holds A' (k, tenant d) (olds ++ es).
Proof.
  revert w A olds d t. induction es as [|e es IH]; intros w A olds d t Hh Hw Ho Hes Hold.
  - exists d, t, A. rewrite Z.add_0_r, app_nil_r. done.
  - apply Forall_cons in Hes as [He Hes]. assert (zlen (e :: es) = 1 + zlen es) as Ez by (unfold zlen; cbn [length]; lia). rewrite Ez in *.
    pose proof (zlen_nonneg es) as Hz. assert (3 * length (e :: es) + cap = 3 + (3 * length es + cap))%nat as Ec by (cbn [length]; lia). rewrite Ec in Hh.
    destruct (save_runs _ _ _ _ olds _ _ e Hh ltac:(lia) Ho He Hold) as (d1 & t1 & A1 & E1 & H1 & [S1 S2] & Hold1).
    destruct (IH (w + 1) A1 (olds ++ [e]) d1 t1 H1) as (d2 & t2 & A2 & E2 & H2 & [S3 S4] & Hold2); [lia|unfold owns in *; by rewrite S2|done|by rewrite S2|].
    exists d2, t2, A2. split; [|split; [|split]].
    + unfold save_each in *. cbn [st_iter]. by rewrite (bind_run _ _ _ _ _ E1).
    + by replace (w + (1 + zlen es)) with (w + 1 + zlen es) by lia.
    + split; congruence.
    + rewrite S2, <- app_assoc in Hold2. done.
Qed.

(** C37: On a schema-blind node that owns the tenant, records saved through a handle,
    each in the version of its struct its program has, come back from a query in the
    order they were saved behind those of before, each read as the version asked for,
    and a search gives the newest. *)
Theorem rollout_reads_back cap w A k olds es v (ys : list (record v)) d t :
  handle_at (6 + (3 * length es + cap)) w A k (d, t) -> w + zlen es + 1 < 2 ^ 48 -> owns d -> holds A (k, tenant d) olds ->
  Forall (storable k) (olds ++ es) -> STRUCT_ID v = k -> Forall2 (reads_as v) (olds ++ es) ys -> zlen (olds ++ es) <= 2 ^ 19 ->
  exists d' t' A', (do! save_each es in let! all := query wire_text v EAll in let! newest := find wire_text v in st_ret (all, newest)) (d, t)
      = (Done (ys, last ys), (d', t')) /\
    handle_at cap (w + zlen es) A' k (d', t') /\ holds A' (k, tenant d) (olds ++ es).
Proof.
  intros Hh Hw Ho Hold Hes Hv Hr Hl. apply Forall_app in Hes as Hes'. destruct Hes' as [_ Hnew]. apply storable_kept in Hes. pose proof (zlen_nonneg es) as Hz.
  replace (6 + (3 * length es + cap))%nat with (3 * length es + (6 + cap))%nat in Hh by lia.
  destruct (saves_run es (6 + cap) w A k olds d t Hh ltac:(lia) Ho Hnew Hold) as (d1 & t1 & A' & E1 & H1 & [S1 S2] & Hold').
  assert (owns d1) as Ho1 by (unfold owns in *; by rewrite S2). rewrite <- S2 in Hold'.
  destruct (query_runs (3 + cap) _ A' k (olds ++ es) v ys d1 t1 H1 ltac:(lia) Ho1 Hes Hold' Hv Hr Hl) as (d2 & t2 & E2 & H2 & [S3 S4]).
  assert (owns d2) as Ho2 by (unfold owns in *; by rewrite S4). rewrite <- S4 in Hold'.
  destruct (find_runs cap _ A' k (olds ++ es) v ys d2 t2 H2 ltac:(lia) Ho2 Hes Hold' Hv Hr) as (d3 & t3 & E3 & H3 & _).
  exists d3, t3, A'. rewrite (bind_run _ _ _ _ _ E1), (bind_run _ _ _ _ _ E2), (bind_run _ _ _ _ _ E3). rewrite S4, S2 in Hold'. done.
Qed.

(** C38: A save sent to a node that does not own the tenant reports success, and the
    tables are what they were.  The node has no registry, so it takes any body of the
    struct. *)
Theorem unowned_save_lost cap w A k d t (e : Any) : handle_at (3 + cap) w A k (d, t) -> w + 1 < 2 ^ 48 ->
  node_owns n0 (tenant d) 0 = false -> storable k e -> delivered (not_owner_resp n0 (db_seq d) (tenant d)) ->
  exists d' t', save (projT1 e) (projT2 e) (d, t) = (Done tt, (d', t')) /\ handle_at cap w A k (d', t').
Proof.
  intros Hh Hw Ho [[Eid _ Hwf Hf Hs] Hv] Hd. pose proof Hh as [_ _ Hu Hk Hq]. cbn [fst snd] in *.
  assert (spec_step wire_text core_text n0 (request_new (db_seq d) (WriteReq k (user d) (tenant d) (stored_of e))) w A =
    (not_owner_resp n0 (db_seq d) (tenant d), (w, A))) as Es by (unfold spec_step; cbn [req_kind req_seq request_new]; by rewrite Ho).
  pose proof (send_runs cap w A k d t (WriteReq k (user d) (tenant d) (stored_of e)) Hh Hw) as HS. cbv zeta in HS. rewrite Es in HS.
  destruct HS as (d' & t' & E & Hh' & _).
  - apply write_posted; [done..|]. unfold PAYLOAD_MAX in Hs. lia.
  - split; [done|]. rewrite blind. by intros c [= <-].
  - done.
  - exists d', t'. split; [|done]. unfold save, do_write. rewrite Hv, Eid. cbn [omap_err].
    rewrite (to_wire_enc (codec (projT1 e)) (wf (projT1 e))) by done. cbn [fst rs_error not_owner_resp] in E.
    rewrite (bind_run (st_lift (Done tt)) _ _ tt (d, t)) by done. cbn [omap_err]. rewrite (bind_run (st_lift (Done _)) _ _ _ (d, t)) by reflexivity.
    rewrite (bind_run this _ _ d (d, t)) by done. by rewrite (bind_run _ _ _ _ _ E).
Qed.
End handle.

(** ** The chain of versions *)

Section chain.
Context {W V : Type} `{!Structs W V}.
Variable wire_text : WireError -> list byte.

(** Each version migrates from the one before and is rolled back from the next. *)
Record neighbours : Prop := {
  nb_from : forall (v old : V) (f : record old -> ST W CoreError (record v)), migrate_from v = Some (existT old f) -> STRUCT_VERSION old = STRUCT_VERSION v - 1;
  nb_back : forall (v new : V) (f : record new -> ST W CoreError (record v)), migrate_rollback v = Some (existT new f) -> STRUCT_VERSION new = STRUCT_VERSION v + 1
}.

Lemma chain_more fuel fuel' (v : V) bytes stored : neighbours -> (fuel <= fuel')%nat -> Z.abs (stored - STRUCT_VERSION v) < Z.of_nat fuel ->
  read_as_self wire_text fuel v bytes stored = read_as_self wire_text fuel' v bytes stored.
Proof.
  intros Hn. revert fuel' v. induction fuel as [|fuel IH]; intros [|fuel'] v Hle Hf; [lia..|]. cbn [read_as_self].
  destruct (Z.compare_spec stored (STRUCT_VERSION v)) as [E|Hlt|Hgt]; [done| |].
  - destruct (migrate_from v) as [[old f]|] eqn:Em; [|done]. pose proof (nb_from Hn _ _ _ Em). by rewrite (IH fuel') by lia.
  - destruct (migrate_rollback v) as [[new f]|] eqn:Em; [|done]. pose proof (nb_back Hn _ _ _ Em). by rewrite (IH fuel') by lia.
Qed.

(** The chain as it runs, with no fuel: [reads_in n v m] says that reading [bytes]
    stored in version [stored] as [v] takes [n] migrations and does [m].  A chain that
    never ends has no derivation. *)
Inductive reads_in (bytes : list byte) (stored : Z) : nat -> forall v : V, ST W CoreError (record v) -> Prop :=
  | reads_own v : stored = STRUCT_VERSION v -> reads_in bytes stored 0 v (st_lift (deserialize_for_migration wire_text v bytes))
  | reads_old n v old f m : stored < STRUCT_VERSION v -> migrate_from v = Some (existT old f) ->
      reads_in bytes stored n old m -> reads_in bytes stored (S n) v (let! source := m in f source)
  | reads_no_old v : stored < STRUCT_VERSION v -> migrate_from v = None ->
      reads_in bytes stored 0 v (st_lift (Fail (no_path (str "upgrade") v stored)))
  | reads_new n v new f m : STRUCT_VERSION v < stored -> migrate_rollback v = Some (existT new f) ->
      reads_in bytes stored n new m -> reads_in bytes stored (S n) v (let! future := m in f future)
  | reads_no_new v : STRUCT_VERSION v < stored -> migrate_rollback v = None ->
      reads_in bytes stored 0 v (st_lift (Fail (no_path (str "rollback") v stored))).

(** Any fuel above the number of migrations runs the chain. *)
Lemma reads_in_run bytes stored n v m fuel : reads_in bytes stored n v m -> (n < fuel)%nat ->
  read_as_self wire_text fuel v bytes stored = m.
Proof.
  intros H. revert fuel. induction H as [v E|n v old f m Hlt Em H IH|v Hlt Em|n v new f m Hgt Em H IH|v Hgt Em];
    intros [|fuel] Hf; [lia|..]; try lia; cbn [read_as_self].
  - by rewrite E, Z.compare_refl.
  - rewrite (proj2 (Z.compare_lt_iff _ _) Hlt), Em. by rewrite IH by lia.
  - by rewrite (proj2 (Z.compare_lt_iff _ _) Hlt), Em.
  - rewrite (proj2 (Z.compare_gt_iff _ _) Hgt), Em. by rewrite IH by lia.
  - by rewrite (proj2 (Z.compare_gt_iff _ _) Hgt), Em.
Qed.

(** Enough fuel for the distance derives the run. *)
Lemma chain_derives fuel (v : V) bytes stored : neighbours -> Z.abs (stored - STRUCT_VERSION v) < Z.of_nat fuel ->
  exists n, Z.of_nat n <= Z.abs (stored - STRUCT_VERSION v) /\ reads_in bytes stored n v (read_as_self wire_text fuel v bytes stored).
Proof.
  intros Hn. revert v. induction fuel as [|fuel IH]; intros v Hf; [lia|]. cbn [read_as_self].
  destruct (Z.compare_spec stored (STRUCT_VERSION v)) as [E|Hlt|Hgt].
  - exists 0%nat. split; [lia|by constructor].
  - destruct (migrate_from v) as [[old f]|] eqn:Em; [|exists 0%nat; split; [lia|by constructor]].
    pose proof (nb_from Hn _ _ _ Em). destruct (IH old) as (n & Hle & Hd); [lia|]. exists (S n). split; [lia|by econstructor].
  - destruct (migrate_rollback v) as [[new f]|] eqn:Em; [|exists 0%nat; split; [lia|by constructor]].
    pose proof (nb_back Hn _ _ _ Em). destruct (IH new) as (n & Hle & Hd); [lia|]. exists (S n). split; [lia|by econstructor].
Qed.

(** A chain that ends panics only where a decoder or a conversion does. *)
Lemma reads_in_no_panic bytes stored n v m :
  (forall u : V, from_wire (codec u) bytes <> Fault) ->
  (forall (u old : V) f (r : record old) x, migrate_from u = Some (existT old f) -> (f r x).1 <> Fault) ->
  (forall (u new : V) f (r : record new) x, migrate_rollback u = Some (existT new f) -> (f r x).1 <> Fault) ->
  reads_in bytes stored n v m -> forall x, (m x).1 <> Fault.
Proof.
  intros Hc Hm Hb H. induction H as [v E|n v old f m Hlt Em H IH|v Hlt Em|n v new f m Hgt Em H IH|v Hgt Em]; intros x; [|..].
  - unfold st_lift, deserialize_for_migration. cbn [fst]. pose proof (Hc v). by destruct (from_wire (codec v) bytes).
  - unfold st_bind. specialize (IH x). destruct (m x) as [[r|e|] x']; [by eapply Hm|done|done].
  - done.
  - unfold st_bind. specialize (IH x). destruct (m x) as [[r|e|] x']; [by eapply Hb|done|done].
  - done.
Qed.

(** C40: When every struct migrates from the version before its own and is rolled back
    from the next, reading a stored version ends: the chain of readers has a run, of at
    most as many migrations as the stored version is versions away, its result is the
    one the model computes, and every run of the chain gives that result.  The read
    panics only if a decoder or a conversion does. *)
Theorem chain_of_neighbours_ends (v : V) bytes stored : neighbours -> fits 8 stored -> fits 8 (STRUCT_VERSION v) ->
  (exists n, Z.of_nat n <= Z.abs (stored - STRUCT_VERSION v) /\
    reads_in bytes stored n v (read_as_self wire_text CHAIN_FUEL v bytes stored)) /\
  (forall n m, reads_in bytes stored n v m -> m = read_as_self wire_text CHAIN_FUEL v bytes stored) /\
  ((forall u : V, from_wire (codec u) bytes <> Fault) ->
   (forall (u old : V) f (r : record old) x, migrate_from u = Some (existT old f) -> (f r x).1 <> Fault) ->
   (forall (u new : V) f (r : record new) x, migrate_rollback u = Some (existT new f) -> (f r x).1 <> Fault) ->
   forall x, (read_as_self wire_text CHAIN_FUEL v bytes stored x).1 <> Fault).
Proof.
  intros Hn Hs Hv. assert (Z.abs (stored - STRUCT_VERSION v) < Z.of_nat CHAIN_FUEL) as Hd
    by (change (Z.of_nat CHAIN_FUEL) with 257; unfold fits in *; lia).
  destruct (chain_derives CHAIN_FUEL v bytes stored Hn Hd) as (n & Hle & H). split; [by exists n|]. split.
  - intros n' m Hr. rewrite <- (reads_in_run _ _ _ _ _ (CHAIN_FUEL + S n') Hr) by lia. symmetry. apply chain_more; [done|lia|done].
  - intros Hc Hm Hb. by eapply reads_in_no_panic.
Qed.
End chain.

(** ** What a stored record reads as *)

Section reads.
Context {T V : Type} `{!Structs (Db T * T) V}.
Context {wf : forall v : V, record v -> Prop} `{!forall v, WireOk (codec v) (wf v)}.
Variable wire_text : WireError -> list byte.

Lemma reads_same (v : V) (x : record v) : wf v x -> slots_fit (codec v) x = true -> reads_as wire_text v (existT v x) x.
Proof.
  intros Hw Hf s. change CHAIN_FUEL with (S 256). generalize 256%nat; intros n. cbn [read_as_self projT1 projT2]. rewrite Z.compare_refl. unfold deserialize_for_migration.
  by rewrite (from_wire_enc (codec v) (wf v)).
Qed.

Lemma reads_migrated (u v : V) f (g : record u -> record v) (x : record u) : migrate_from v = Some (existT u f) ->
  STRUCT_VERSION u < STRUCT_VERSION v -> (forall x s, f x s = (Done (g x), s)) -> wf u x -> slots_fit (codec u) x = true ->
  reads_as wire_text v (existT u x) (g x).
Proof.
  intros Em Hlt Hg Hw Hf s. change CHAIN_FUEL with (S (S 255)). generalize 255%nat; intros n. cbn [read_as_self projT1 projT2].
  rewrite (proj2 (Z.compare_lt_iff _ _) Hlt), Em, Z.compare_refl. unfold deserialize_for_migration.
  rewrite (from_wire_enc (codec u) (wf u)) by done. cbn [omap_err]. by rewrite (bind_run (st_lift (Done x)) _ _ x s).
Qed.

Lemma reads_rolled_back (u v : V) f (g : record u -> record v) (x : record u) : migrate_rollback v = Some (existT u f) ->
  STRUCT_VERSION v < STRUCT_VERSION u -> (forall x s, f x s = (Done (g x), s)) -> wf u x -> slots_fit (codec u) x = true ->
  reads_as wire_text v (existT u x) (g x).
Proof.
  intros Em Hlt Hg Hw Hf s. change CHAIN_FUEL with (S (S 255)). generalize 255%nat; intros n. cbn [read_as_self projT1 projT2].
  rewrite (proj2 (Z.compare_gt_iff _ _) Hlt), Em, Z.compare_refl. unfold deserialize_for_migration.
  rewrite (from_wire_enc (codec u) (wf u)) by done. cbn [omap_err]. by rewrite (bind_run (st_lift (Done x)) _ _ x s).
Qed.
End reads.

(** ** A struct in two versions *)

(** Version 2 widens a counter and counts in halves; it cannot be rolled back. *)
Definition demo_migrate {W} (x : Z) : ST W CoreError Z := st_ret (2 * x).

#[export] Instance demo_structs W : Structs W bool := {|
  record := fun (_ : bool) => Z;
  STRUCT_ID := fun (_ : bool) => 7;
  STRUCT_VERSION := fun v : bool => if v then 2 else 1;
  SHAPE := fun (_ : bool) => NonUnique;
  type_name := fun v : bool => if v then str "Count2" else str "Count1";
  codec := fun v : bool => if v then wire_uint 8 else wire_uint 4;
  validate := fun (_ : bool) (x : Z) => if x =? 0 then Fail (validation_new (str "empty")) else Done tt;
  migrate_from := fun v => match v return option { old : bool & Z -> ST W CoreError Z } with true => Some (existT false demo_migrate) | false => None end;
  migrate_rollback := fun (_ : bool) => None
|}.

Definition demo_wf (v : bool) (x : Z) : Prop := if v then fits 64 x else fits 32 x.

#[export] Instance demo_codec_ok W (v : bool) : WireOk (codec (Structs := demo_structs W) v) (demo_wf v).
Proof. destruct v; [exact (uint_ok 8)|exact (uint_ok 4)]. Defined.

Definition demo_solo : Config := {| listen := str "a:1"; peer_addrs := []; slow_node := None; cluster_key := None |}.
Definition demo_node (cfg : Config) : QuickNode := node_build cfg None (Some (fresh_storage 70000 64)).

Abbreviation demo_send := (http_send (node_post demo_text demo_text demo_text demo_mac 1000 (str "closed")) (fun _ => str "status")).

Definition demo_db (tenant : Z) : Db (HttpWorld (S := QuickNode)) := db_new 0 tenant [] [] 1 (fun _ _ t => t) demo_send.

Lemma demo_http cfg : NodeTransport (spec_step demo_text demo_text (demo_node cfg)) (NodeOk.request_ok demo_text demo_text (registry (demo_node cfg)))
  demo_send (http_at (demo_node cfg)).
Proof. apply (http_node_transport demo_text demo_text demo_text demo_mac 1000 (fun _ => str "status") (str "closed") demo_mac_length). done. Qed.

Lemma demo_handle cfg cap : Z.of_nat cap <= 15 ->
  handle_at (sends := demo_send) (at_node := http_at (demo_node cfg)) cap 0 (fun _ => []) 7 (demo_db 1, http_start (demo_node cfg)).
Proof.
  intros Hc. constructor; try done. split; [done|]. split; [reflexivity|]. 
  cbn [far http_start snd]. unfold demo_node. apply build_ok. apply fresh_serves; unfold LIVE_VALUE_MAX; lia.
Qed.

Lemma demo_blind cfg : registry (demo_node cfg) = None.
Proof. apply (build_fixed cfg None). Qed.

Abbreviation demo_any := { u : bool & record (Structs := demo_structs (Db (HttpWorld (S := QuickNode)) * HttpWorld (S := QuickNode))) u }.
Definition count1 (x : Z) : demo_any := existT (P := fun u => record u) false x.
Definition count2 (x : Z) : demo_any := existT (P := fun u => record u) true x.

Lemma demo_storable1 : storable (wf := demo_wf) 7 (count1 3).
Proof. split; [|reflexivity]. split; [reflexivity|by split|by split|reflexivity|]. by apply Z.leb_le. Qed.

Lemma demo_storable2 : storable (wf := demo_wf) 7 (count2 10).
Proof. split; [|reflexivity]. split; [reflexivity|by split|by split|reflexivity|]. by apply Z.leb_le. Qed.

Abbreviation demo_family := (demo_structs (Db (HttpWorld (S := QuickNode)) * HttpWorld (S := QuickNode))).

Lemma demo_reads1 : reads_as (Structs0 := demo_family) (wf := demo_wf) demo_text true (count1 3) 6.
Proof. apply (reads_migrated (Structs0 := demo_family) (wf := demo_wf) demo_text false true demo_migrate (fun x : Z => 2 * x)); [done..|by split|done]. Qed.

Lemma demo_reads2 : reads_as (Structs0 := demo_family) (wf := demo_wf) demo_text true (count2 10) 10.
Proof. by apply (reads_same (Structs0 := demo_family) (wf := demo_wf)). Qed.

Lemma rollout_reads_back_witness :
  exists d' t' A', (do! save_each [count1 3; count2 10] in let! all := query demo_text true EAll in let! newest := find demo_text true in st_ret (all, newest))
      (demo_db 1, http_start (demo_node demo_solo)) = (Done ([6; 10], Some 10), (d', t')) /\
    handle_at (sends := demo_send) (at_node := http_at (demo_node demo_solo)) 0 2 A' 7 (d', t') /\
    holds (wf := demo_wf) A' (7, 1) [count1 3; count2 10].
Proof.
  apply (rollout_reads_back (NodeTransport0 := demo_http demo_solo) demo_text demo_text (demo_node demo_solo) (demo_blind demo_solo)
    0 0 (fun _ => []) 7 [] [count1 3; count2 10] true [6; 10] (demo_db 1) (http_start (demo_node demo_solo))).
  - apply demo_handle. done.
  - done.
  - apply demo_owns.
  - done.
  - apply Forall_cons_2; [apply demo_storable1|]. apply Forall_cons_2; [apply demo_storable2|done].
  - done.
  - apply Forall2_cons; split; [|apply Forall2_cons; split; [|done]].
    + apply demo_reads1.
    + apply demo_reads2.
  - done.
Defined.

(** Two nodes: the second owns tenant 2. *)
Definition demo_pair : Config := {| listen := str "a:1"; peer_addrs := [str "b:2"]; slow_node := None; cluster_key := None |}.

Lemma pair_not_owner st : node_owns (node_build demo_pair None st) 1 0 = false /\ delivered (not_owner_resp (node_build demo_pair None st) 1 1).
Proof.
  split; [by vm_compute|]. assert (not_owner_resp (node_build demo_pair None st) 1 1 = {| rs_seq := 1; rs_payload := str "not_owner";
    owner_url := Some (str "ws://b:2/ws"); backup_url := None; notifications := []; rs_error := None |}) as -> by by vm_compute.
  split; [|by vm_compute]. unfold response_wf. cbn. split_and!; [done|by intros x [= <-]|by intros x|done|by intros e].
Qed.

Lemma unowned_save_lost_witness :
  exists d' t', save false 3 (demo_db 1, http_start (demo_node demo_pair)) = (Done tt, (d', t')) /\
    handle_at (sends := demo_send) (at_node := http_at (demo_node demo_pair)) 0 0 (fun _ => []) 7 (d', t').
Proof.
  destruct (pair_not_owner (Some (fresh_storage 70000 64))) as [Ho Hd].
  apply (unowned_save_lost (NodeTransport0 := demo_http demo_pair) demo_text demo_text (demo_node demo_pair) (demo_blind demo_pair)
    0 0 (fun _ => []) 7 (demo_db 1) (http_start (demo_node demo_pair)) (count1 3)).
  - by apply demo_handle.
  - done.
  - exact Ho.
  - apply demo_storable1.
  - exact Hd.
Defined.

Lemma demo_neighbours : neighbours (Structs0 := demo_structs unit).
Proof.
  split; [|done]. intros [] old f E; [|done]. cbn in E. apply (f_equal (fun o : option { old : bool & Z -> ST unit CoreError Z } =>
    match o with Some p => projT1 p | None => old end)) in E. cbn in E. by rewrite <- E.
Qed.

(** Version 1 read as version 2, and what the read gives. *)
Lemma chain_of_neighbours_ends_witness :
  (exists n, Z.of_nat n <= 1 /\ reads_in (Structs0 := demo_structs unit) demo_text (le_bytes 4 3) 1 n true
     (read_as_self (Structs0 := demo_structs unit) demo_text CHAIN_FUEL true (le_bytes 4 3) 1)) /\
  (forall n m, reads_in (Structs0 := demo_structs unit) demo_text (le_bytes 4 3) 1 n true m -> m tt = (Done 6, tt)) /\
  forall x, (read_as_self (Structs0 := demo_structs unit) demo_text CHAIN_FUEL true (le_bytes 4 3) 1 x).1 <> Fault.
Proof.
  destruct (chain_of_neighbours_ends (Structs0 := demo_structs unit) demo_text true (le_bytes 4 3) 1 demo_neighbours)
    as (H1 & H2 & H3); [done|done|]. split; [exact H1|]. split.
  - intros n m H. rewrite (H2 n m H). by vm_compute.
  - apply H3; [by intros []| |done].
    assert (forall u : bool, match migrate_from (Structs := demo_structs unit) u with
      | Some (existT old f) => forall (r : Z) x, (f r x).1 <> Fault | None => True end) as Hm by by intros [].
    intros u old f r x E. specialize (Hm u). rewrite E in Hm. apply Hm.
Defined.

(** *** A chain that skips a version

    Version 3 migrates from version 1, which is rolled back from version 3: a stored
    version 2 is sent back and forth. *)
Definition skip_structs : Structs unit bool := {|
  record := fun _ : bool => Z;
  STRUCT_ID := fun _ : bool => 8;
  STRUCT_VERSION := fun v : bool => if v then 3 else 1;
  SHAPE := fun _ : bool => Unique;
  type_name := fun _ : bool => str "Skip";
  codec := fun _ : bool => wire_uint 4;
  validate := fun (_ : bool) (_ : Z) => Done tt;
  migrate_from := fun v => match v return option { old : bool & Z -> ST unit CoreError Z } with true => Some (existT false st_ret) | false => None end;
  migrate_rollback := fun v => match v return option { old : bool & Z -> ST unit CoreError Z } with true => None | false => Some (existT true st_ret) end
|}.

Lemma skipping_chain_never_ends n v bytes m : ~ reads_in (Structs0 := skip_structs) demo_text bytes 2 n v m.
Proof. intros H. by induction H as [[]|? [] ? ? ? ?|[]|? [] ? ? ? ?|[]]. Qed.
