(* ===== verification/Macros.v ===== *)
(** * The macros of a declaration (wavedb-macros)

    What [#[wave_db]] accepts and what the items it writes do, and the registry
    [declare_objects!] builds.  The macros look at syntax; the parser of the tokens
    behind an attribute, and the constants, hooks and conversions the written paths
    name, are the compiler's: interfaces of the model. *)
From S2P Require Import Prelude Wire WireOk Core Bfs Migration Ids Request Registry Query QuickNode Client.

(** ** Syntax *)

Abbreviation Ident := (list byte).

(** [syn::Type]: a path with its segments, or any other type. *)
Inductive SynType : Type :=
  | TPath (segments : list PathSegment)
  | TOther
with PathSegment : Type := Segment (ident : list byte) (arguments : PathArguments)
with PathArguments : Type :=
  | NoArguments
  | AngleBracketed (args : list GenericArgument)
  | Parenthesized
with GenericArgument : Type :=
  | TypeArgument (ty : SynType)
  | OtherArgument.

Definition plain (ident : list byte) : SynType := TPath [Segment ident NoArguments].

Definition is_ident (ident : list byte) (ty : SynType) : bool :=
  match ty with
  | TPath [Segment i NoArguments] => bool_decide (i = ident)
  | _ => false
  end.

Inductive Fields : Type :=
  | Named (l : list (list byte * SynType))
  | Unnamed (l : list SynType)
  | FieldsUnit.

(** A struct; of its attributes only the lists of [derive] are looked at, each path
    by its segments. *)
Record ItemStruct : Type := {
  ident : list byte;
  item_fields : Fields;
  derive_attrs : list (option (list (list (list byte))))
}.

(** What the parser of tokens reads; [Path] is a path to a type or a function. *)
Class Syn : Type := {
  Tokens : Type;
  Path : Type;
  lit_int : Tokens -> option Z;
  lit_str : Tokens -> option (list byte);
  parse_ident : Tokens -> option (list byte);
  parse_path : Tokens -> option Path
}.

(** A compile error: the macro's own message, or the parser's. *)
Inductive SynError : Type := Message (m : list byte) | Unexpected.

(** One meta of the attribute: its path, when that is an identifier, and what follows
    an equals sign. *)
Record ParseNestedMeta `{Syn} : Type := { meta_ident : option (list byte); meta_value : option Tokens }.

(** ** utils.rs *)

Definition is_ascii_digit (b : byte) : bool := (0x30 <=? byte_val b) && (byte_val b <=? 0x39).

Definition collect_derived_traits (attrs : list (option (list (list (list byte))))) : list (list byte) :=
  omap last (concat (omap id attrs)).

(** The last segment decides; of [Option], any type argument. *)
Fixpoint is_heapable_type (ty : SynType) : bool :=
  match ty with
  | TOther => false
  | TPath segments =>
    (fix on_last (l : list PathSegment) : bool :=
       match l with
       | [] => false
       | [Segment i arguments] =>
         if bool_decide (i = str "String") || bool_decide (i = str "Vec") then true
         else if bool_decide (i = str "Option") then
           match arguments with
           | AngleBracketed args =>
             (fix any (args : list GenericArgument) : bool :=
                match args with
                | [] => false
                | TypeArgument t :: args => is_heapable_type t || any args
                | OtherArgument :: args => any args
                end) args
           | _ => false
           end
         else false
       | _ :: l => on_last l
       end) segments
  end.

(** A byte that starts a character of a UTF-8 string. *)
Definition starts_char (b : byte) : bool := negb ((0x80 <=? byte_val b) && (byte_val b <? 0xC0)).

(** [name.rfind(|c| !c.is_ascii_digit())]: where the last such character starts. *)
Fixpoint rfind_nondigit (i : nat) (name : list byte) : option nat :=
  match name with
  | [] => None
  | b :: name =>
    match rfind_nondigit (S i) name with
    | Some j => Some j
    | None => if starts_char b && negb (is_ascii_digit b) then Some i else None
    end
  end.

Definition is_char_boundary (name : list byte) (i : nat) : bool :=
  match name !! i with
  | Some b => starts_char b
  | None => bool_decide (i = length name)
  end.

(** [digits.parse::<u8>()] behind a first digit: each further one, within the limit. *)
Definition parse_digit (acc : Z) (b : byte) : option Z :=
  let n := acc * 10 + (byte_val b - 0x30) in if is_ascii_digit b && (n <? 256) then Some n else None.

Fixpoint parse_u8 (acc : Z) (l : list byte) : option Z :=
  match l with
  | [] => Some acc
  | b :: l => n ← parse_digit acc b; parse_u8 n l
  end.

Definition parse_trailing_version (name : list byte) : outcome SynError Z :=
  let digit_start := match rfind_nondigit 0 name with Some i => S i | None => 0%nat end in
  do* guard (is_char_boundary name digit_start) in
  let digits := drop digit_start name in
  match digits with
  | [] => Fail (Message (str "struct name `" ++ name ++ str "` must end with a version number (e.g. `" ++ name ++ str "1`)"))
  | _ => ok_or (parse_u8 0 digits)
           (Message (str "trailing version `" ++ digits ++ str "` in `" ++ name ++ str "` does not fit in u8 (0..=255)"))
  end.

(** ** args.rs *)

Section args.
Context `{!Syn}.

Record WaveDbArgs : Type := {
  a_struct_id : Z;
  non_unique : bool;
  nested_non_unique : bool;
  primary_anchor : option (list byte);
  secondary_anchors : list (list byte);
  btree_threshold : option Z;
  no_auto_crud : bool;
  migrate_from : option Path;
  migrate_from_with : option Path;
  migrate_rollback : option Path;
  migrate_rollback_with : option Path;
  first_try : option Path;
  fallback_not_found : option Path;
  a_validate : option Path;
  a_preprocess : option Path
}.

Definition args_new : WaveDbArgs :=
  {| a_struct_id := 2 ^ 32 - 1; non_unique := false; nested_non_unique := false; primary_anchor := None;
     secondary_anchors := []; btree_threshold := None; no_auto_crud := false;
     migrate_from := None; migrate_from_with := None; migrate_rollback := None; migrate_rollback_with := None;
     first_try := None; fallback_not_found := None; a_validate := None; a_preprocess := None |}.

(** The attributes: what each assigns to. *)
Inductive Attr : Type :=
  | AStructId (n : Z)
  | ANonUnique
  | ANestedNonUnique
  | APrimaryAnchor (f : list byte)
  | ASecondaryAnchor (s : list byte)
  | ABtreeThreshold (n : Z)
  | ANoAutoCrud
  | AMigrateFrom (p : Path)
  | AMigrateFromWith (p : Path)
  | AMigrateRollback (p : Path)
  | AMigrateRollbackWith (p : Path)
  | AFirstTry (p : Path)
  | AFallbackNotFound (p : Path)
  | AValidate (p : Path)
  | APreprocess (p : Path).

Definition assign (k : Attr) (a : WaveDbArgs) : WaveDbArgs :=
  {| a_struct_id := match k with AStructId n => n | _ => a_struct_id a end;
     non_unique := match k with ANonUnique => true | _ => non_unique a end;
     nested_non_unique := match k with ANestedNonUnique => true | _ => nested_non_unique a end;
     primary_anchor := match k with APrimaryAnchor f => Some f | _ => primary_anchor a end;
     secondary_anchors := match k with ASecondaryAnchor s => secondary_anchors a ++ [s] | _ => secondary_anchors a end;
     btree_threshold := match k with ABtreeThreshold n => Some n | _ => btree_threshold a end;
     no_auto_crud := match k with ANoAutoCrud => true | _ => no_auto_crud a end;
     migrate_from := match k with AMigrateFrom p => Some p | _ => migrate_from a end;
     migrate_from_with := match k with AMigrateFromWith p => Some p | _ => migrate_from_with a end;
     migrate_rollback := match k with AMigrateRollback p => Some p | _ => migrate_rollback a end;
     migrate_rollback_with := match k with AMigrateRollbackWith p => Some p | _ => migrate_rollback_with a end;
     first_try := match k with AFirstTry p => Some p | _ => first_try a end;
     fallback_not_found := match k with AFallbackNotFound p => Some p | _ => fallback_not_found a end;
     a_validate := match k with AValidate p => Some p | _ => a_validate a end;
     a_preprocess := match k with APreprocess p => Some p | _ => a_preprocess a end |}.

Definition value {A} (read : Tokens -> option A) (meta : ParseNestedMeta) : outcome SynError A :=
  let* tokens := ok_or (meta_value meta) Unexpected in ok_or (read tokens) Unexpected.

(** [base10_parse::<u32>()]. *)
Definition value_u32 (meta : ParseNestedMeta) : outcome SynError Z :=
  let* n := value lit_int meta in
  do* (if fitsb 32 n then Done tt else Fail Unexpected) in Done n.

(** A flag takes no value; the parser refuses one it is left with. *)
Definition flag (k : Attr) (meta : ParseNestedMeta) : outcome SynError Attr :=
  match meta_value meta with None => Done k | Some _ => Fail Unexpected end.

Definition path_attr (k : Path -> Attr) (meta : ParseNestedMeta) : outcome SynError Attr :=
  let* p := value parse_path meta in Done (k p).

Definition parse_attr (meta : ParseNestedMeta) : outcome SynError Attr :=
  let called name := bool_decide (meta_ident meta = Some (str name)) in
  if called "struct_id"%string then let* n := value_u32 meta in Done (AStructId n)
  else if called "NonUnique"%string then flag ANonUnique meta
  else if called "NestedNonUnique"%string then flag ANestedNonUnique meta
  else if called "primary_anchor"%string then let* i := value parse_ident meta in Done (APrimaryAnchor i)
  else if called "secondary_anchor"%string then
    let* s := value lit_str meta in
    match s with
    | [] => Fail (Message (str "secondary_anchor requires at least one field"))
    | _ => Done (ASecondaryAnchor s)
    end
  else if called "btree_threshold"%string then let* n := value_u32 meta in Done (ABtreeThreshold n)
  else if called "no_auto_crud"%string then flag ANoAutoCrud meta
  else if called "migrate_from"%string then path_attr AMigrateFrom meta
  else if called "migrate_from_with"%string then path_attr AMigrateFromWith meta
  else if called "migrate_rollback"%string then path_attr AMigrateRollback meta
  else if called "migrate_rollback_with"%string then path_attr AMigrateRollbackWith meta
  else if called "first_try"%string then path_attr AFirstTry meta
  else if called "fallback_not_found"%string then path_attr AFallbackNotFound meta
  else if called "validate"%string then path_attr AValidate meta
  else if called "preprocess"%string then path_attr APreprocess meta
  else Fail (Message (str "unrecognized wave_db attribute")).

Definition parse (a : WaveDbArgs) (meta : ParseNestedMeta) : outcome SynError WaveDbArgs :=
  let* k := parse_attr meta in Done (assign k a).

(** ** validation.rs *)

Definition validate_struct_id (struct_id : Z) : outcome SynError unit :=
  if struct_id =? 2 ^ 32 - 1 then Fail (Message (str "missing `struct_id = N` in #[wave_db]"))
  else if Z.shiftl 1 20 <=? struct_id then
    Fail (Message (str "struct_id " ++ decimal struct_id ++ str " does not fit in u20 (max " ++ decimal (Z.shiftl 1 20 - 1) ++ str ")"))
  else Done tt.

Definition requires (present : option Path) (needed : option Path) (attr wants : list byte) : outcome SynError unit :=
  match present, needed with
  | Some _, None => Fail (Message (str "`" ++ attr ++ str "` " ++ wants))
  | _, _ => Done tt
  end.

Definition validate_migration_attributes (a : WaveDbArgs) : outcome SynError unit :=
  do* requires (migrate_from_with a) (migrate_from a) (str "migrate_from_with") (str "requires `migrate_from = OldType` to also be set") in
  do* requires (first_try a) (migrate_from a) (str "first_try") (str "requires `migrate_from = OldType` to also be set") in
  requires (migrate_rollback_with a) (migrate_rollback a) (str "migrate_rollback_with")
    (str "requires `migrate_rollback = NewType` to also be set").

(** ** The items of an expansion (codegen.rs, crud.rs, migration/) *)

Definition build_shape (a : WaveDbArgs) : Shape :=
  if nested_non_unique a then NestedNonUnique else if non_unique a then NonUnique else Unique.

(** The trait the operations of a struct come from. *)
Inductive Crud : Type := NonUniqueObject | UniqueObject.

Definition build_crud_impl (a : WaveDbArgs) : option Crud :=
  if no_auto_crud a then None
  else if nested_non_unique a || non_unique a then Some NonUniqueObject
  else Some UniqueObject.

Definition build_auto_derives (attrs : list (option (list (list (list byte))))) : list (list byte) :=
  let existing_derives := collect_derived_traits attrs in
  filter (fun t => t ∉ existing_derives) [str "Debug"; str "Clone"; str "Default"].

(** Each column's name, as a method of [FIELDS] and as a constant. *)
Definition build_fields_accessor (field_idents : list (list byte)) : list (list byte * Field) :=
  map (fun f => (f, field_new f)) field_idents.
Definition build_field_consts (field_idents : list (list byte)) : list (list byte * Field) :=
  map (fun f => (f, field_new f)) field_idents.

(** The constants of the anchors. *)
Record Anchors : Type := {
  BTREE_THRESHOLD : option Z;
  primary_anchor_field : option (list byte);
  primary_anchor_field_name : option (list byte);
  SECONDARY_ANCHOR_FIELDS : list (list byte)
}.

Definition build_anchors_impl (a : WaveDbArgs) : Anchors :=
  {| BTREE_THRESHOLD := btree_threshold a;
     primary_anchor_field := primary_anchor a;
     primary_anchor_field_name := (fun f => str "find_by_" ++ f) <$> primary_anchor a;
     SECONDARY_ANCHOR_FIELDS := secondary_anchors a |}.

(** An edge of [register_migration], to the struct from or to the type named. *)
Inductive RegisteredEdge : Type := ForwardEdge (old_type : Path) | RollbackEdge (new_type : Path).

Definition build_register_migration (a : WaveDbArgs) : list RegisteredEdge :=
  option_list (ForwardEdge <$> migrate_from a) ++ option_list (RollbackEdge <$> migrate_rollback a).

(** A conversion: the function and the type it takes; both attributes have to be
    there. *)
Definition zip_attrs (f ty : option Path) : option (Path * Path) :=
  f ← f; ty ← ty; Some (f, ty).

Definition build_migrate_from_with (a : WaveDbArgs) : option (Path * Path) := zip_attrs (migrate_from_with a) (migrate_from a).
Definition build_rollback_with (a : WaveDbArgs) : option (Path * Path) := zip_attrs (migrate_rollback_with a) (migrate_rollback a).
Definition build_first_try (a : WaveDbArgs) : option (Path * Path) := zip_attrs (first_try a) (migrate_from a).
Definition build_fallback (a : WaveDbArgs) : option Path := fallback_not_found a.

(** What a declared struct is: its constants and the items written for it. *)
Record Expansion : Type := {
  ex_name : list byte;
  ex_args : WaveDbArgs;
  ex_struct_id : Z;
  ex_version : Z;
  ex_shape : Shape;
  ex_fields : list (list byte * SynType);
  HEAPABLE_FIELDS : list (list byte);
  ex_columns : list (list byte * Field);
  ex_field_consts : list (list byte * Field);
  ex_anchors : Anchors;
  ex_crud : option Crud;
  ex_derives : list (list byte)
}.

(** ** lib.rs *)

Definition id_field : list byte * SynType := (str "id", TPath [Segment (str "wavedb_core") NoArguments; Segment (str "Id") NoArguments]).
Definition metadata_field : list byte * SynType :=
  (str "metadata", TPath [Segment (str "wavedb_core") NoArguments; Segment (str "Metadata") NoArguments]).

Definition reserved (name : list byte) : bool := bool_decide (name = str "id") || bool_decide (name = str "metadata").

(** The fields the user wrote, none of them with an injected name. *)
Definition user_fields (it : ItemStruct) : outcome SynError (list (list byte * SynType)) :=
  match item_fields it with
  | Named l =>
    match List.find (fun f => reserved f.1) l with
    | Some (i, _) => Fail (Message (str "field `" ++ i ++ str "` is automatically added by #[wave_db] and cannot be added manually"))
    | None => Done l
    end
  | _ => Fail (Message (str "#[wave_db] requires a struct with named fields"))
  end.

Definition wave_db (attr : list ParseNestedMeta) (it : ItemStruct) : outcome SynError Expansion :=
  let* a := ofold parse args_new attr in
  let* l := user_fields it in
  do* validate_struct_id (a_struct_id a) in
  let* version := parse_trailing_version (ident it) in
  do* validate_migration_attributes a in
  Done {| ex_name := ident it; ex_args := a; ex_struct_id := a_struct_id a; ex_version := version;
          ex_shape := build_shape a; ex_fields := id_field :: metadata_field :: l;
          HEAPABLE_FIELDS := map fst (filter (fun f => is_heapable_type f.2 = true) l);
          ex_columns := build_fields_accessor (map fst l); ex_field_consts := build_field_consts (map fst l);
          ex_anchors := build_anchors_impl a; ex_crud := build_crud_impl a;
          ex_derives := build_auto_derives (derive_attrs it) |}.
End args.

(** ** descriptor.rs *)

Definition ends_with (suffix name : list byte) : bool :=
  bool_decide (drop (length name - length suffix) name = suffix).

Definition is_u8_argument (g : GenericArgument) : bool :=
  match g with TypeArgument t => is_ident (str "u8") t | OtherArgument => false end.

(** The kinds a type's last name stands for. *)
Definition named_kinds : list (string * FieldKind) :=
  [("u8", KU8); ("u16", KU16); ("u32", KU32); ("u64", KU64); ("u128", KU128);
   ("i8", KI8); ("i16", KI16); ("i32", KI32); ("i64", KI64); ("i128", KI128);
   ("f32", KF32); ("f64", KF64); ("bool", KBool); ("char", KChar); ("Id", KId);
   ("String", KStr); ("Option", KOption)]%string.

Definition field_kind (ty : SynType) : FieldKind :=
  match ty with
  | TPath segments =>
    match last segments with
    | Some (Segment name arguments) =>
      match List.find (fun k => bool_decide (str k.1 = name)) named_kinds with
      | Some (_, k) => k
      | None =>
        if bool_decide (name = str "Vec") then
          match arguments with
          | AngleBracketed args => if existsb is_u8_argument args then KBytes else KList
          | _ => KList
          end
        else if ends_with (str "Id") name || ends_with (str "Anchor") name then KId
        else KOther
      end
    | None => KOther
    end
  | TOther => KOther
  end.

(** ** The program the declarations are part of *)

(** What the compiler adds to the expansions of a program: the record type of each
    struct version with its codec, the sizes of field types, and the functions the
    paths of the hook attributes name. *)
Class Program (V : Type) : Type := {
  program_syn :: Syn;
  expansion : V -> Expansion;
  object : V -> Type;
  object_codec : forall v, Wire (object v);
  wire_consts : SynType -> nat * bool;
  run_validate : Path -> forall v, object v -> outcome ValidationError unit;
  run_preprocess : Path -> forall v, object v -> outcome ValidationError (object v)
}.

(** The types the migration attributes name, and their functions. *)
Class Conversions (W V : Type) `{!Program V} : Type := {
  resolve_type : Path -> V;
  run_convert : Path -> forall u v : V, object u -> ST W CoreError (object v)
}.

Section program.
Context {V : Type} `{!Program V}.

Definition VERSION (v : V) : Z := ex_version (expansion v).
Definition HEADER (v : V) : Z := pack_header (ex_struct_id (expansion v)) (VERSION v).

Definition field_shape (f : list byte * SynType) : FieldShape :=
  {| fs_name := f.1; fs_kind := field_kind f.2; fs_size := (wire_consts f.2).1; fs_fixed := (wire_consts f.2).2;
     fs_listed := is_heapable_type f.2 |}.

Definition DESCRIPTOR (v : V) : ObjectDescriptor :=
  let e := expansion v in
  build_descriptor (ex_struct_id e) (ex_version e) (ex_shape e) (ex_name e) (map field_shape (ex_fields e)).

(** [build_hooks_impl]: the attribute's function, or the no-op of the trait. *)
Definition HAS_VALIDATE (v : V) : bool := bool_decide (is_Some (a_validate (ex_args (expansion v)))).
Definition HAS_PREPROCESS (v : V) : bool := bool_decide (is_Some (a_preprocess (ex_args (expansion v)))).

Definition hook_validate (v : V) (r : object v) : outcome ValidationError unit :=
  match a_validate (ex_args (expansion v)) with Some path => run_validate path v r | None => Done tt end.
Definition hook_preprocess (v : V) (r : object v) : outcome ValidationError (object v) :=
  match a_preprocess (ex_args (expansion v)) with Some path => run_preprocess path v r | None => Done r end.

(** *** declare.rs *)

Record Family : Type := { fam_name : list byte; types : list V }.

Inductive DeclareError : Type := EmptyFamily (name : list byte) | MixedStructIds (name : list byte) | DuplicateHeader.

Record FamilyMod : Type := { fm_struct_id : Z; fm_versions : list Z; fm_descriptors : list ObjectDescriptor }.

(** The generated module: a submodule per family, and the registry. *)
Record ObjectsMod : Type := { family_mods : list FamilyMod; REGISTRY : ObjectRegistry }.

Definition family_mod (f : Family) : outcome DeclareError FamilyMod :=
  match types f with
  | [] => Fail (EmptyFamily (fam_name f))
  | first :: _ =>
    let id := ex_struct_id (expansion first) in
    if forallb (fun v => ex_struct_id (expansion v) =? id) (types f) then
      Done {| fm_struct_id := id; fm_versions := map VERSION (types f); fm_descriptors := map DESCRIPTOR (types f) |}
    else Fail (MixedStructIds (fam_name f))
  end.

(** The two loops over the headers: each against those behind it. *)
Fixpoint distinct_headers (l : list Z) : bool :=
  match l with
  | [] => true
  | h :: l => forallb (fun h' => negb (h =? h')) l && distinct_headers l
  end.

(** The functions of the module, each a chain of comparisons. *)
Fixpoint find_arms (l : list V) (header : Z) : option ObjectDescriptor :=
  match l with
  | [] => None
  | v :: l => if header =? HEADER v then Some (DESCRIPTOR v) else find_arms l header
  end.

Definition validate_body (v : V) (body : list byte) : outcome CoreError unit :=
  if negb (HAS_VALIDATE v) then Done tt
  else
    let* record := omap_err EWire (from_wire (object_codec v) body) in
    omap_err (Validation (ex_struct_id (expansion v))) (hook_validate v record).

Fixpoint validate_arms (l : list V) (header : Z) (body : list byte) : outcome CoreError unit :=
  match l with
  | [] => Fail (EUnknownHeader header)
  | v :: l => if header =? HEADER v then validate_body v body else validate_arms l header body
  end.

Definition preprocess_body (v : V) (body : list byte) : outcome CoreError (option (list byte)) :=
  if negb (HAS_PREPROCESS v) then Done None
  else
    let* record := omap_err EWire (from_wire (object_codec v) body) in
    let* record := omap_err (Validation (ex_struct_id (expansion v))) (hook_preprocess v record) in
    let* bytes := omap_err EWire (to_wire (object_codec v) record) in
    Done (Some bytes).

Fixpoint preprocess_arms (l : list V) (header : Z) (body : list byte) : outcome CoreError (option (list byte)) :=
  match l with
  | [] => Fail (EUnknownHeader header)
  | v :: l => if header =? HEADER v then preprocess_body v body else preprocess_arms l header body
  end.

Definition registry_contains (l : list V) (header : Z) : bool := bool_decide (is_Some (find_arms l header)).
Definition registry_stack_size (l : list V) (header : Z) : option nat := od_stack_size <$> find_arms l header.
Definition registry_heap_fields (l : list V) (header : Z) : option (list (list byte)) := Registry.heap_fields <$> find_arms l header.

Definition latest_version (descriptors : list ObjectDescriptor) (struct_id : Z) : option Z :=
  foldl (fun best d =>
    if (od_struct_id d =? struct_id) && match best with None => true | Some b => b <? od_version d end
    then Some (od_version d) else best) None descriptors.

Definition all_types (families : list Family) : list V := concat (map types families).

Definition declare_objects (families : list Family) : outcome DeclareError ObjectsMod :=
  let* mods := omapM family_mod families in
  let all := all_types families in
  if distinct_headers (map HEADER all) then
    Done {| family_mods := mods;
            REGISTRY := {| descriptors := map DESCRIPTOR all; find_fn := find_arms all;
                           validate_fn := validate_arms all; preprocess_fn := preprocess_arms all |} |}
  else Fail DuplicateHeader.

(** *** migration/ *)

Section conversions.
Context {W : Type} `{!Conversions W V}.

Definition struct_ref (v : V) : VersionRef := {| vr_struct_id := ex_struct_id (expansion v); vr_version := VERSION v |}.

Definition register_edge (v : V) (r : MigrationRegistry) (e : RegisteredEdge) : MigrationRegistry :=
  match e with
  | ForwardEdge old_type => register_forward (struct_ref (resolve_type old_type)) (struct_ref v) r
  | RollbackEdge new_type => register_rollback (struct_ref (resolve_type new_type)) (struct_ref v) r
  end.

Definition register_migration (r : MigrationRegistry) (v : V) : MigrationRegistry :=
  foldl (register_edge v) r (build_register_migration (ex_args (expansion v))).

(** The conversion a pair of attributes gives a struct. *)
Definition conversion (v : V) (c : option (Path * Path)) : option { u : V & object u -> ST W CoreError (object v) } :=
  (fun c => existT (resolve_type c.2) (run_convert c.1 (resolve_type c.2) v)) <$> c.

(** A program's declarations are the structs of a client. *)
#[export] Instance program_structs : Structs W V := {|
  Client.record := object;
  STRUCT_ID := fun v => ex_struct_id (expansion v);
  STRUCT_VERSION := VERSION;
  SHAPE := fun v => ex_shape (expansion v);
  Client.type_name := fun v => ex_name (expansion v);
  codec := object_codec;
  Client.validate := hook_validate;
  Client.migrate_from := fun v => conversion v (build_migrate_from_with (ex_args (expansion v)));
  Client.migrate_rollback := fun v => conversion v (build_rollback_with (ex_args (expansion v)))
|}.
End conversions.
End program.

(** ** Typed identifiers (codegen.rs: build_typed_wrappers) *)

(** [FooId] and [FooAnchor] of a struct, each an identifier with the same encoding. *)
Record TypedId : Type := { id_inner : Id }.
Record TypedAnchor : Type := { anchor_inner : Id }.

Definition wire_typed_id : Wire TypedId := wire_struct id_inner (fun i => {| id_inner := i |}) wire_id.
Definition wire_typed_anchor : Wire TypedAnchor := wire_struct anchor_inner (fun i => {| anchor_inner := i |}) wire_id.

Definition anchor_of (t : TypedId) : TypedAnchor := {| anchor_inner := anchor_key (id_inner t) |}.
Definition anchor_from_id (i : Id) : TypedAnchor := {| anchor_inner := anchor_key i |}.
Definition anchor_from_typed (t : TypedId) : TypedAnchor := {| anchor_inner := anchor_key (id_inner t) |}.

Section typed.
Context {T V : Type} `{!Program V} `{!Conversions (Db T * T) V}.
Variable wire_text : WireError -> list byte.
(** The injected field. *)
Variable object_id : forall v : V, object v -> Id.

Abbreviation DB := (ST (Db T * T) CoreError).

Definition typed_id (v : V) (r : object v) : TypedId := {| id_inner := object_id v r |}.
Definition anchor (v : V) (r : object v) : TypedAnchor := {| anchor_inner := anchor_key (object_id v r) |}.

Definition many (v : V) : bool := let a := ex_args (expansion v) in non_unique a || nested_non_unique a.

Definition get_by_id (v : V) (self : TypedId) : DB (option (object v)) :=
  if many v then
    let! records := query (V := V) wire_text v EAll in
    st_ret (List.find (fun r => object_id v r =? id_inner self) records)
  else Client.find (V := V) wire_text v.

Definition get_by_anchor (v : V) (self : TypedAnchor) : DB (option (object v)) :=
  if many v then
    let! records := query (V := V) wire_text v EAll in
    st_ret (List.find (fun r => anchor_key (object_id v r) =? anchor_inner self) records)
  else Client.find (V := V) wire_text v.
End typed.
