(* ===== verification/MacrosOk.v ===== *)
(** * What the macros promise

    A version written behind a name is read back; an accepted declaration is well
    formed; the generated registry answers for the declared versions only, with the
    verdicts of the client; and the generated readers and the migration registry of the
    same declarations agree along chains of versions.  On a node that serves the
    registry of a program, what its handles save comes back as its hooks left it. *)
From S2P Require Import Prelude Wire WireOk Core Bfs Migration Ids Page Live LiveOk Auth Cluster Request Registry Query QuickNode NodeServe NodeOk Transports Client ClientOk Macros.

(** ** Version numbers of names *)

Lemma digits_are_digits fuel n : 0 <= n -> Forall (fun b => is_ascii_digit b = true) (digits fuel n).
Proof.
  revert n. induction fuel as [|fuel IH]; intros n Hn; cbn [digits]; [done|]. apply Forall_app. split.
  - destruct (n <? 10); [done|]. apply IH. by apply Z.div_pos.
  - apply Forall_singleton. unfold is_ascii_digit. pose proof (Z.mod_pos_bound n 10). rewrite byte_val_of by lia. lia.
Qed.

Lemma digit_val b : is_ascii_digit b = true -> 0 <= byte_val b - 0x30 <= 9.
Proof. unfold is_ascii_digit. lia. Qed.

Lemma digit_starts b : is_ascii_digit b = true -> starts_char b = true.
Proof. unfold is_ascii_digit, starts_char. lia. Qed.

(** Digits alone hold no other character; behind one they do not move it. *)
Lemma rfind_digits i l : Forall (fun b => is_ascii_digit b = true) l -> rfind_nondigit i l = None.
Proof.
  intros Hl. revert i. induction Hl as [|b l Hb Hl IH]; intros i; cbn [rfind_nondigit]; [done|].
  by rewrite IH, Hb, andb_false_r.
Qed.

Lemma rfind_app i name l : Forall (fun b => is_ascii_digit b = true) l -> rfind_nondigit i (name ++ l) = rfind_nondigit i name.
Proof.
  intros Hl. revert i. induction name as [|b name IH]; intros i; cbn [app rfind_nondigit]; [by apply rfind_digits|]. by rewrite IH.
Qed.

Lemma rfind_last i name b : starts_char b = true -> is_ascii_digit b = false -> rfind_nondigit i (name ++ [b]) = Some (i + length name)%nat.
Proof.
  intros Hs Hd. revert i. induction name as [|c name IH]; intros i; cbn [app rfind_nondigit length].
  - rewrite Hs, Hd. cbn. f_equal. lia.
  - rewrite IH. f_equal. lia.
Qed.

(** Reading digits is adding them up, as far as they stay below the limit. *)
Lemma parse_u8_app acc l b : parse_u8 acc (l ++ [b]) = (n ← parse_u8 acc l; parse_digit n b).
Proof.
  revert acc. induction l as [|c l IH]; intros acc; cbn [app parse_u8].
  - cbn. by destruct (parse_digit acc b).
  - destruct (parse_digit acc c); [apply IH|done].
Qed.

Lemma parse_digit_some acc d : 0 <= d <= 9 -> 0 <= acc -> acc * 10 + d < 256 -> parse_digit acc (byte_of (48 + d)) = Some (acc * 10 + d).
Proof.
  intros Hd Ha Hl. unfold parse_digit, is_ascii_digit. rewrite byte_val_of by lia.
  replace (_ && _) with true by (symmetry; lia). f_equal. lia.
Qed.

Lemma parse_u8_fits acc l n : 0 <= acc < 256 -> parse_u8 acc l = Some n -> fits 8 n.
Proof.
  revert acc. induction l as [|b l IH]; intros acc Ha; cbn [parse_u8]; [intros [= <-]; by unfold fits|].
  unfold parse_digit. destruct (_ && _) eqn:E; [|done]. unfold is_ascii_digit in E. apply IH. lia.
Qed.

Lemma parse_digits fuel n : 0 <= n < 256 -> n < 10 ^ Z.of_nat fuel -> parse_u8 0 (digits fuel n) = Some n.
Proof.
  revert n. induction fuel as [|fuel IH]; intros n Hn Hf; [cbn in *; f_equal; lia|]. cbn [digits].
  rewrite parse_u8_app. pose proof (Z.mod_pos_bound n 10 ltac:(lia)) as Hm. pose proof (Z.div_mod n 10 ltac:(lia)) as Hd.
  assert (parse_u8 0 (if n <? 10 then [] else digits fuel (n / 10)) = Some (n / 10)) as ->.
  { destruct (Z.ltb_spec n 10); [cbn; f_equal; symmetry; apply Z.div_small; lia|]. apply IH.
    - split; [apply Z.div_pos; lia|]. apply Z.div_lt_upper_bound; lia.
    - apply Z.div_lt_upper_bound; [lia|]. rewrite Nat2Z.inj_succ, Z.pow_succ_r in Hf by lia. lia. }
  cbn [mbind option_bind]. rewrite parse_digit_some; [f_equal; lia|lia|apply Z.div_pos; lia|lia].
Qed.

Lemma decimal_nonempty n : decimal n <> [].
Proof. unfold decimal. change 20%nat with (S 19). cbn [digits]. by destruct (_ ++ _) eqn:E; [apply app_nil in E as [_ E]|]. Qed.

(** A version written behind a name that ends in an ASCII character other than a
    digit is read back. *)
Lemma version_roundtrip `{Syn} name b n : byte_val b < 0x80 -> is_ascii_digit b = false -> fits 8 n ->
  parse_trailing_version ((name ++ [b]) ++ decimal n) = Done n.
Proof.
  intros Hb Hd Hn. assert (starts_char b = true) as Hs by (unfold starts_char; lia).
  pose proof (digits_are_digits 20 n ltac:(unfold fits in Hn; lia)) as Hds. fold (decimal n) in Hds.
  unfold parse_trailing_version. rewrite rfind_app, rfind_last by done. cbn [plus].
  assert (S (length name) = length (name ++ [b])) as El by (rewrite length_app; cbn; lia).
  assert (is_char_boundary ((name ++ [b]) ++ decimal n) (S (length name)) = true) as ->.
  { unfold is_char_boundary. rewrite El, lookup_app_r, Nat.sub_diag by done.
    pose proof (decimal_nonempty n). destruct (decimal n) as [|c l]; [congruence|]. cbn. apply Forall_cons in Hds as [Hc _]. by apply digit_starts. }
  cbn [guard obind]. rewrite El, drop_app_length. pose proof (decimal_nonempty n) as Hne.
  destruct (decimal n) as [|c l] eqn:E; [congruence|]. rewrite <- E. unfold decimal. unfold fits in Hn. by rewrite parse_digits by lia.
Qed.

(** Where the last character before the digits is not ASCII, the slice starts inside
    it and the macro panics. *)
Lemma version_after_wide_char `{Syn} : parse_trailing_version (str "Caf" ++ [byte_of 0xC3; byte_of 0xA9] ++ str "1") = Fault.
Proof. by vm_compute. Qed.

(** ** What an accepted declaration is *)

Section accepted.
Context `{!Syn}.

Lemma trailing_fits name n : parse_trailing_version name = Done n -> fits 8 n.
Proof.
  unfold parse_trailing_version. destruct (is_char_boundary _ _); [|done]. cbn [guard obind].
  destruct (drop _ name) as [|b l]; [done|]. destruct (parse_u8 0 (b :: l)) as [m|] eqn:E; [|done].
  intros [= <-]. by apply (parse_u8_fits 0 (b :: l)).
Qed.

(** Its numbers fit their fields, its own fields have names of their own behind the
    two injected ones, and a function of a migration has the type it converts. *)
Record well_declared (e : Expansion) : Prop := {
  wd_id : fits 20 (ex_struct_id e);
  wd_version : fits 8 (ex_version e);
  wd_fields : exists l, ex_fields e = (id_field :: metadata_field :: l)%list /\ Forall (fun f => reserved f.1 = false) l /\
    HEAPABLE_FIELDS e = map fst (filter (fun f => is_heapable_type f.2 = true) (ex_fields e));
  wd_from : is_Some (migrate_from_with (ex_args e)) -> is_Some (build_migrate_from_with (ex_args e));
  wd_first_try : is_Some (first_try (ex_args e)) -> is_Some (build_first_try (ex_args e));
  wd_back : is_Some (migrate_rollback_with (ex_args e)) -> is_Some (build_rollback_with (ex_args e))
}.

Lemma parse_u32 meta n : value_u32 meta = Done n -> fits 32 n.
Proof.
  unfold value_u32. intros (m & _ & E)%obind_done. destruct (fitsb 32 m) eqn:Ef; [|done]. injection E as <-. by apply fitsb_spec.
Qed.

Lemma parse_keeps_id a meta a' : 0 <= a_struct_id a -> parse a meta = Done a' -> 0 <= a_struct_id a'.
Proof.
  intros Ha. unfold parse. intros (k & Ek & [= <-])%obind_done. destruct k; cbn; try done. revert Ek.
  unfold parse_attr, flag, path_attr. repeat case_bool_decide; try (by destruct (meta_value meta)); intros (m & Em & E)%obind_done;
    try (injection E as <-; apply parse_u32 in Em; unfold fits in Em; lia); try done.
  by destruct m.
Qed.

Lemma wave_db_accepted attr it e : wave_db attr it = Done e -> well_declared e.
Proof.
  unfold wave_db. intros (a & Ea & (l & El & ([] & Ei & (version & Ev & ([] & Em & [= <-])%obind_done)%obind_done)%obind_done)%obind_done)%obind_done.
  assert (0 <= a_struct_id a) as Hpos.
  { refine (ofold_inv (fun a => 0 <= a_struct_id a) parse attr args_new a _ _ Ea); [|done]. intros s x s' Hs _ E. by eapply parse_keeps_id. }
  constructor; cbn.
  - revert Ei. unfold validate_struct_id. destruct (_ =? _); [done|]. destruct (Z.leb_spec (Z.shiftl 1 20) (a_struct_id a)); [done|].
    intros _. unfold fits. change (Z.shiftl 1 20) with (2 ^ 20) in *. lia.
  - by eapply trailing_fits.
  - exists l. split; [done|]. revert El. unfold user_fields. destruct (item_fields it) as [l0| |]; [|done..].
    destruct (List.find _ l0) as [[i t]|] eqn:Ef; [done|]. intros [= <-]. split.
    + apply List.Forall_forall. intros x Hx. by apply (List.find_none _ _ Ef).
    + done.
  - revert Em. unfold validate_migration_attributes, requires, build_migrate_from_with, zip_attrs.
    destruct (migrate_from_with a), (migrate_from a); cbn; try done.
  - revert Em. unfold validate_migration_attributes, requires, build_first_try, zip_attrs.
    destruct (migrate_from_with a), (first_try a), (migrate_from a); cbn; try done; by intros _ [? ?].
  - revert Em. unfold validate_migration_attributes, requires, build_rollback_with, zip_attrs.
    destruct (migrate_from_with a), (first_try a), (migrate_from a), (migrate_rollback_with a), (migrate_rollback a); cbn; try done; by intros _ [? ?].
Qed.
End accepted.

(** ** The generated registry *)

Section registry.
Context {V : Type} `{!Program V}.

(** The compiler only sees structs the attribute macro accepted. *)
Definition accepted (v : V) : Prop := exists attr it, wave_db attr it = Done (expansion v).

Lemma distinct_headers_NoDup l : distinct_headers l = true -> NoDup l.
Proof.
  induction l as [|h l IH]; cbn [distinct_headers]; [constructor|]. intros [Hh Hl]%andb_true_iff. constructor; [|by apply IH].
  intros Hin. rewrite forallb_forall in Hh. apply list_elem_of_In, Hh in Hin. by rewrite Z.eqb_refl in Hin.
Qed.

(** Each chain of comparisons ends at the type of the header, if there is one. *)
Lemma arms_here (l : list V) v body : NoDup (map HEADER l) -> v ∈ l ->
  find_arms l (HEADER v) = Some (DESCRIPTOR v) /\ validate_arms l (HEADER v) body = validate_body v body /\
  preprocess_arms l (HEADER v) body = preprocess_body v body.
Proof.
  induction l as [|u l IH]; cbn [map]; intros Hd Hv; [by apply not_elem_of_nil in Hv|]. apply NoDup_cons in Hd as [Hu Hd].
  cbn [find_arms validate_arms preprocess_arms]. apply elem_of_cons in Hv as [->|Hv]; [by rewrite Z.eqb_refl|].
  destruct (Z.eqb_spec (HEADER v) (HEADER u)) as [E|_]; [|by apply IH].
  exfalso. apply Hu. rewrite <- E. change (map HEADER l) with (HEADER <$> l). by apply list_elem_of_fmap_2.
Qed.

Lemma arms_nowhere (l : list V) h body : (forall v, v ∈ l -> HEADER v <> h) ->
  find_arms l h = None /\ validate_arms l h body = Fail (EUnknownHeader h) /\ preprocess_arms l h body = Fail (EUnknownHeader h).
Proof.
  induction l as [|u l IH]; intros Hl; [done|]. cbn [find_arms validate_arms preprocess_arms].
  destruct (Z.eqb_spec h (HEADER u)) as [->|_]; [destruct (Hl u); [left|done]|]. apply IH. intros v Hv. apply Hl. by right.
Qed.

Lemma declared_or_not (l : list V) h : (exists v, v ∈ l /\ HEADER v = h) \/ (forall v, v ∈ l -> HEADER v <> h).
Proof.
  destruct (decide (h ∈ HEADER <$> l)) as [(v & -> & Hv)%list_elem_of_fmap|Hn]; [left; by exists v|right].
  intros v Hv <-. by apply Hn, list_elem_of_fmap_2.
Qed.

Lemma declare_done families m : declare_objects families = Done m -> NoDup (map HEADER (all_types families)) /\
  REGISTRY m = {| descriptors := map DESCRIPTOR (all_types families); find_fn := find_arms (all_types families);
    validate_fn := validate_arms (all_types families); preprocess_fn := preprocess_arms (all_types families) |}.
Proof.
  unfold declare_objects. intros (mods & _ & E)%obind_done. destruct (distinct_headers _) eqn:Ed; [|done].
  injection E as <-. split; [by apply distinct_headers_NoDup|done].
Qed.

(** Accepted structs have equal headers only when id and version are equal. *)
Lemma header_eq v sid version : accepted v -> fits 20 sid -> fits 8 version ->
  HEADER v = pack_header sid version <-> ex_struct_id (expansion v) = sid /\ VERSION v = version.
Proof.
  intros (attr & it & Ha) Hs Hv. apply wave_db_accepted in Ha as [Hi Hw _ _ _ _]. unfold HEADER, VERSION. split; [|by intros [-> ->]].
  intros E. destruct (header_roundtrip (ex_struct_id (expansion v)) (ex_version (expansion v))) as [_ E1]; [by apply (fits_mono 20)|done|].
  destruct (header_roundtrip sid version) as [_ E2]; [by apply (fits_mono 20)|done|]. rewrite E, E2 in E1. by injection E1 as -> ->.
Qed.

(** The newest version is kept while the descriptors are gone through. *)
Lemma latest_version_spec l sid : 
  match latest_version (map DESCRIPTOR l) sid with
  | None => forall v, v ∈ l -> ex_struct_id (expansion v) <> sid
  | Some b => (exists v, v ∈ l /\ ex_struct_id (expansion v) = sid /\ VERSION v = b) /\
              forall v, v ∈ l -> ex_struct_id (expansion v) = sid -> VERSION v <= b
  end.
Proof.
  unfold latest_version. induction l as [|v l IH] using rev_ind; [cbn; intros v Hv; by apply not_elem_of_nil in Hv|].
  rewrite map_app, foldl_app. cbn [map foldl].
  change (od_struct_id (DESCRIPTOR v)) with (ex_struct_id (expansion v)). change (od_version (DESCRIPTOR v)) with (VERSION v).
  destruct (foldl _ None (map DESCRIPTOR l)) as [b|] eqn:Ef.
  - destruct IH as [(u & Hu & Eu & Vu) Hb]. destruct (Z.eqb_spec (ex_struct_id (expansion v)) sid) as [Es|Es]; cbn [andb].
    + destruct (Z.ltb_spec b (VERSION v)); (split; [|intros x [Hx|Hx%list_elem_of_singleton]%elem_of_app Ex; [pose proof (Hb x Hx Ex)|subst x]; lia]).
      * exists v. split; [set_solver|done].
      * exists u. split; [set_solver|done].
    + split; [exists u; split; [set_solver|done]|]. intros x [Hx|Hx%list_elem_of_singleton]%elem_of_app Ex; [by apply Hb|by subst].
  - destruct (Z.eqb_spec (ex_struct_id (expansion v)) sid) as [Es|Es]; cbn [andb].
    + split; [exists v; split; [set_solver|done]|]. intros x [Hx|Hx%list_elem_of_singleton]%elem_of_app Ex; [by destruct (IH x Hx)|by subst].
    + intros x [Hx|Hx%list_elem_of_singleton]%elem_of_app; [by apply IH|by subst].
Qed.

Context {wf : forall v : V, object v -> Prop} `{!forall v, WireOk (object_codec v) (wf v)}.

(** On the bytes of a record the dispatch runs the hooks on that record. *)
Lemma validate_body_enc v r : wf v r -> slots_fit (object_codec v) r = true ->
  validate_body v (enc (object_codec v) r) = omap_err (Validation (ex_struct_id (expansion v))) (hook_validate v r).
Proof.
  intros Hw Hf. unfold validate_body, HAS_VALIDATE. case_bool_decide as Hh; cbn [negb].
  - by rewrite (from_wire_enc (object_codec v) (wf v)).
  - unfold hook_validate. by destruct (a_validate _) as [p|]; [destruct Hh|].
Qed.

Definition preprocessed (v : V) (r : object v) : outcome CoreError (option (list byte)) :=
  if HAS_PREPROCESS v then
    let* r := omap_err (Validation (ex_struct_id (expansion v))) (hook_preprocess v r) in
    let* bytes := omap_err EWire (to_wire (object_codec v) r) in Done (Some bytes)
  else Done None.

Lemma preprocess_body_enc v r : wf v r -> slots_fit (object_codec v) r = true ->
  preprocess_body v (enc (object_codec v) r) = preprocessed v r.
Proof.
  intros Hw Hf. unfold preprocess_body, preprocessed. destruct (HAS_PREPROCESS v); cbn [negb]; [|done].
  by rewrite (from_wire_enc (object_codec v) (wf v)).
Qed.

(** C26: A registry of accepted structs answers for exactly the versions declared: a
    header finds the descriptor of the struct with that id and version, on the bytes
    of one of its records the node's check has the verdict of the client's, and the
    preprocessing is the hook's; any other header is unknown, and the latest version
    of an id is its greatest. *)
Theorem declared_registry_answers families m : declare_objects families = Done m -> (forall v, v ∈ all_types families -> accepted v) ->
  (forall sid version, fits 20 sid -> fits 8 version ->
     let h := pack_header sid version in
     match reg_find (REGISTRY m) h with
     | Some d => exists v, v ∈ all_types families /\ ex_struct_id (expansion v) = sid /\ VERSION v = version /\ d = DESCRIPTOR v /\
         forall r, wf v r -> slots_fit (object_codec v) r = true ->
           reg_validate (REGISTRY m) h (enc (object_codec v) r) = omap_err (Validation sid) (hook_validate v r) /\
           reg_preprocess (REGISTRY m) h (enc (object_codec v) r) = preprocessed v r
     | None => (forall v, v ∈ all_types families -> ~ (ex_struct_id (expansion v) = sid /\ VERSION v = version)) /\
         forall body, reg_validate (REGISTRY m) h body = Fail (EUnknownHeader h) /\ reg_preprocess (REGISTRY m) h body = Fail (EUnknownHeader h)
     end) /\
  (forall sid, match latest_version (descriptors (REGISTRY m)) sid with
     | None => forall v, v ∈ all_types families -> ex_struct_id (expansion v) <> sid
     | Some b => (exists v, v ∈ all_types families /\ ex_struct_id (expansion v) = sid /\ VERSION v = b) /\
                 forall v, v ∈ all_types families -> ex_struct_id (expansion v) = sid -> VERSION v <= b
     end).
Proof.
  intros Hm Ha. destruct (declare_done _ _ Hm) as [Hd ->]. split; [|intros sid; apply latest_version_spec].
  intros sid version Hs Hv h. unfold reg_find, reg_validate, reg_preprocess. cbn.
  destruct (declared_or_not (all_types families) h) as [(v & Hin & Eh)|Hno].
  - destruct (proj1 (header_eq v sid version (Ha v Hin) Hs Hv) Eh) as [Ei Ev]. rewrite <- Eh.
    destruct (arms_here _ v [] Hd Hin) as (-> & _). exists v. split_and!; try done. intros r Hw Hf.
    destruct (arms_here _ v (enc (object_codec v) r) Hd Hin) as (_ & -> & ->).
    by rewrite validate_body_enc, preprocess_body_enc, Ei.
  - destruct (arms_nowhere _ h [] Hno) as (-> & _). split.
    + intros v Hin [Ei Ev]. apply (Hno v Hin). by apply header_eq; [apply Ha|..].
    + intros body. apply (arms_nowhere _ h body Hno).
Qed.
End registry.

(** ** Chains of declared versions *)

Section chains.
Context {W V : Type} `{!Program V} `{!Conversions W V}.
Variable wire_text : WireError -> list byte.

(** The migration attributes of a struct towards older versions, or newer ones. *)
Definition neighbour (up : bool) (v : V) : option (Path * Path) :=
  (if up then build_migrate_from_with else build_rollback_with) (ex_args (expansion v)).

(** Record [r] of struct [u] converted along [path] into one of the last struct on it,
    each struct by its own attributes, and each newer than the one before, or each
    older. *)
Inductive converts (up : bool) (u : V) (r : object u) : list V -> forall v, ST W CoreError (object v) -> Prop :=
  | converts_self : converts up u r [] u (st_ret r)
  | converts_next path w f p m :
      converts up u r path (resolve_type p) m -> neighbour up w = Some (f, p) ->
      (if up then VERSION (resolve_type p) < VERSION w else VERSION w < VERSION (resolve_type p)) ->
      converts up u r (path ++ [w]) w (let! x := m in run_convert f (resolve_type p) w x).

Lemma converts_length up u r path v m : converts up u r path v m ->
  if up then VERSION u + zlen path <= VERSION v else VERSION v + zlen path <= VERSION u.
Proof.
  induction 1 as [|path w f p m _ IH _ Hlt]; [destruct up; unfold zlen; cbn; lia|].
  rewrite zlen_app. change (zlen [w]) with 1. destruct up; lia.
Qed.

(** The generated reader takes that path. *)
Lemma converts_read up u r path v m bytes fuel x : converts up u r path v m -> from_wire (object_codec u) bytes = Done r ->
  (length path < fuel)%nat -> read_as_self wire_text fuel v bytes (VERSION u) x = m x.
Proof.
  intros Hc Hb. revert fuel x. induction Hc as [|path w f p m Hc IH Hn Hlt]; intros [|fuel] x Hf; try (cbn in Hf; lia); cbn [read_as_self].
  - cbn [STRUCT_VERSION program_structs]. rewrite Z.compare_refl. unfold deserialize_for_migration.
    change (from_wire (codec u) bytes) with (from_wire (object_codec u) bytes). by rewrite Hb.
  - rewrite length_app in Hf. cbn in Hf. pose proof (converts_length _ _ _ _ _ _ Hc) as Hl. pose proof (zlen_nonneg path).
    cbn [STRUCT_VERSION program_structs Client.migrate_from Client.migrate_rollback]. unfold neighbour in Hn. destruct up.
    + rewrite (proj2 (Z.compare_lt_iff _ _)) by lia. unfold conversion. rewrite Hn. cbn. unfold st_bind. by rewrite IH by lia.
    + rewrite (proj2 (Z.compare_gt_iff _ _)) by lia. unfold conversion. rewrite Hn. cbn. unfold st_bind. by rewrite IH by lia.
Qed.

(** *** The registry of the same declarations *)

Lemma neighbors_push k e m v : v ∈ neighbors (push_edge k e m) k <-> v = e.1 \/ v ∈ neighbors m k.
Proof. unfold neighbors, push_edge. rewrite lookup_insert_eq. cbn. rewrite map_app. cbn. set_solver. Qed.

Lemma neighbors_push_mono k e m u v : v ∈ neighbors m u -> v ∈ neighbors (push_edge k e m) u.
Proof.
  destruct (decide (k = u)) as [->|Hne]; [by rewrite neighbors_push; right|].
  unfold neighbors, push_edge. by rewrite lookup_insert_ne.
Qed.

(** The edges a registry has stay, and a struct's own are there once it is registered. *)
Definition edge_of (up : bool) (r : MigrationRegistry) (u v : VersionRef) : Prop :=
  v ∈ neighbors (if up then Migration.forward r else Migration.backward r) u.

Lemma register_edge_mono up v e r a b : edge_of up r a b -> edge_of up (register_edge v r e) a b.
Proof. unfold edge_of. destruct up, e; cbn; try done; apply neighbors_push_mono. Qed.

Lemma foldl_mono {R A} (f : R -> A -> R) (P : R -> Prop) l r : (forall r x, P r -> P (f r x)) -> P r -> P (foldl f r l).
Proof. intros Hf. revert r. induction l as [|x l IH]; intros r Hr; cbn; [done|]. apply IH, Hf, Hr. Qed.

Lemma foldl_has {R A} (f : R -> A -> R) (P : R -> Prop) l r x : (forall r x, P r -> P (f r x)) -> (forall r, P (f r x)) -> x ∈ l -> P (foldl f r l).
Proof.
  intros Hm Hx. revert r. induction l as [|y l IH]; intros r Hin; [by apply not_elem_of_nil in Hin|]. cbn.
  apply elem_of_cons in Hin as [<-|Hin]; [by apply foldl_mono, Hx|by apply IH].
Qed.

Lemma registered up vs r v f p : v ∈ vs -> neighbour up v = Some (f, p) ->
  edge_of up (foldl register_migration r vs) (struct_ref (resolve_type p)) (struct_ref v).
Proof.
  intros Hv Hn. set (P r := edge_of up r (struct_ref (resolve_type p)) (struct_ref v)). apply (foldl_has _ P _ _ v); [| |done].
  - intros r0 x H. unfold register_migration. by apply (foldl_mono _ P); [intros; apply register_edge_mono|].
  - intros r0. unfold register_migration, build_register_migration. unfold neighbour in Hn.
    apply (foldl_has _ P _ _ (if up then ForwardEdge p else RollbackEdge p)).
    + intros; by apply register_edge_mono.
    + intros r1. unfold P, edge_of. destruct up; cbn; apply neighbors_push; by left.
    + destruct up; [unfold build_migrate_from_with in Hn|unfold build_rollback_with in Hn]; unfold zip_attrs in Hn.
      * destruct (migrate_from_with _), (migrate_from _); try done. injection Hn as <- <-. cbn. set_solver.
      * destruct (migrate_rollback_with _), (migrate_rollback _); try done. injection Hn as <- <-. cbn. set_solver.
Qed.

Lemma converts_reaches up u r path v m vs reg : converts up u r path v m -> path ⊆ vs ->
  reaches (if up then Migration.forward (foldl register_migration reg vs) else Migration.backward (foldl register_migration reg vs))
    (length path) (struct_ref u) (struct_ref v).
Proof.
  induction 1 as [|path w f p m _ IH Hn _]; intros Hs; [constructor|]. rewrite length_app, Nat.add_1_r.
  eapply nsteps_r; [apply IH; set_solver|]. apply (registered up vs reg w f p); [set_solver|done].
Qed.

(** C27: What the generated code does with a stored version is what the registry of the
    same declarations says: along structs that name each other by their migration
    attributes, versions going up or going down, the reader of the last decodes the
    record as the first and runs each struct's function in turn, however long the
    chain; and once the structs are registered a plan no longer than that chain
    resolves, or the rollback is possible. *)
Theorem declared_chain_reads up u r path v m bytes vs : converts up u r path v m -> accepted u -> accepted v ->
  from_wire (object_codec u) bytes = Done r -> path ⊆ vs ->
  (forall x, read_as_self wire_text CHAIN_FUEL v bytes (VERSION u) x = m x) /\
  let reg := foldl register_migration registry_new vs in
  if up then exists plan, resolve reg (struct_ref u) (struct_ref v) = Done plan /\ (length plan <= length path)%nat
  else can_rollback reg (struct_ref u) (struct_ref v) = Done true.
Proof.
  intros Hc (au & iu & Hu%wave_db_accepted) (av & iv & Hv%wave_db_accepted) Hb Hp. split.
  - intros x. apply (converts_read up u r path v m); [done..|]. pose proof (converts_length _ _ _ _ _ _ Hc) as Hl.
    destruct Hu as [_ Hu _ _ _ _], Hv as [_ Hv _ _ _ _]. unfold VERSION, fits, zlen in *. unfold CHAIN_FUEL.
    destruct up; lia.
  - intros reg. pose proof (converts_reaches up u r path v m vs registry_new Hc Hp) as Hr. fold reg in Hr. destruct up.
    + pose proof (resolve_correct reg (struct_ref u) (struct_ref v)) as Hres. unfold resolved in Hres.
      destruct (resolve reg _ _) as [plan|e|]; [|by destruct Hres as [_ Hno]; destruct (Hno _ Hr)|done].
      exists plan. split; [done|]. by apply Hres.
    + destruct (can_rollback_reachable reg (struct_ref u) (struct_ref v)) as (b & -> & Hiff). f_equal. apply Hiff. by eexists.
Qed.
End chains.

(** ** A node that serves a program's registry *)

Section declared_node.
Context {T V : Type} `{!Program V} `{!Conversions (Db T * T) V}.
Context {wf : forall v : V, object v -> Prop} `{!forall v, WireOk (object_codec v) (wf v)}.
Variable wire_text : WireError -> list byte.
Variable core_text : CoreError -> list byte.
Variable n0 : QuickNode.
Context {sends : TransportRequest -> ST T CoreError TransportResponse} {at_node : nat -> Z -> Table -> T -> Prop}.
Context `{!NodeTransport (spec_step wire_text core_text n0) (NodeOk.request_ok wire_text core_text (registry n0)) sends at_node}.

Variable families : list (Family (V := V)).
Variable m : ObjectsMod.
Hypothesis declared : declare_objects families = Done m.
Hypothesis all_accepted : forall v, v ∈ all_types families -> accepted v.
Hypothesis serves : registry n0 = Some (REGISTRY m).

(** The record with another identifier in its injected field, which its codec writes
    first. *)
Variable with_id : forall v : V, Id -> object v -> object v.
Hypothesis id_consts : wire_consts (id_field.2) = (16%nat, true).
Hypothesis id_first : forall v i r, wf v r -> fits 128 i ->
  wf v (with_id v i r) /\ slots_fit (object_codec v) (with_id v i r) = slots_fit (object_codec v) r /\
  (16 <= length (enc (object_codec v) r))%nat /\
  enc (object_codec v) (with_id v i r) = splice 0 (le_bytes 16 i) (enc (object_codec v) r).

Abbreviation structs := (program_structs (W := Db T * T) (V := V)).
Abbreviation Any := { u : V & object u }.

(** The stored form of a record. *)
Definition stored (v : V) (r : object v) : list byte := byte_of (VERSION v) :: enc (object_codec v) r.

Definition declared_type (v : V) : Prop := v ∈ all_types families.

(** The record the two hooks make of one, or their refusal. *)
Definition prepared (v : V) (r : object v) : outcome ValidationError (object v) :=
  do* hook_validate v r in hook_preprocess v r.

Lemma find_declared v : declared_type v ->
  reg_find (REGISTRY m) (pack_header (ex_struct_id (expansion v)) (byte_val (byte_of (VERSION v)))) = Some (DESCRIPTOR v).
Proof.
  intros Hv. destruct (all_accepted v Hv) as (attr & it & Ha%wave_db_accepted). rewrite byte_val_of by apply Ha.
  destruct (declare_done _ _ declared) as [Hd ->]. unfold reg_find. cbn [find_fn]. by apply (arms_here _ v [] Hd Hv).
Qed.

(** The identifier's slot is the first of the body. *)
Lemma id_slot v : declared_type v -> exists fd, desc_field (DESCRIPTOR v) (str "id") = Some 0%nat /\
  fields (DESCRIPTOR v) !! 0%nat = Some fd /\ stack_offset fd = 0%nat /\ fd_stack_size fd = 16%nat.
Proof.
  intros Hv. destruct (all_accepted v Hv) as (attr & it & Ha%wave_db_accepted). destruct (wd_fields _ Ha) as (l & El & _).
  unfold DESCRIPTOR, build_descriptor, desc_field. rewrite El. cbn [map field_entries fields list_find].
  rewrite decide_True by done. eexists. split; [done|]. split; [done|]. cbn [stack_offset fd_stack_size field_shape fs_size].
  by rewrite id_consts.
Qed.

Lemma stamp_declared v r i : declared_type v -> wf v r -> fits 128 i ->
  stamp_engine_id (registry n0) (ex_struct_id (expansion v)) i (stored v r) = stored v (with_id v i r).
Proof.
  intros Hv Hw Hi. rewrite serves. destruct (id_first v i r Hw Hi) as (_ & _ & Hl & E).
  destruct (id_slot v Hv) as (fd & Ef & Efd & Eo & Es).
  unfold stamp_engine_id, stored. cbn [head mbind option_bind].
  rewrite find_declared by done. cbn [mbind option_bind]. rewrite Ef. cbn [mbind option_bind]. rewrite Efd, Eo, Es.
  rewrite bool_decide_true by (split; [done|exact (le_n_S _ _ Hl)]).
  etransitivity; [|exact (f_equal (cons (byte_of (VERSION v))) (eq_sym E))]. done.
Qed.

(** The node's check of a record's bytes is that of its hooks. *)
Lemma checked_declared v r seq : declared_type v -> wf v r -> slots_fit (object_codec v) r = true ->
  (forall r', prepared v r = Done r' -> wf v r' /\ slots_fit (object_codec v) r' = true) ->
  checked wire_text core_text (registry n0) seq (ex_struct_id (expansion v)) (stored v r) =
  match hook_validate v r with
  | Fail e => Fail (resp_err seq {| ne_code := ValidationFailed; ne_struct_id := ex_struct_id (expansion v); ne_field := ve_field e; ne_message := ve_message e |})
  | Fault => Fault
  | Done _ =>
    match hook_preprocess v r with
    | Fail e => Fail (resp_err seq {| ne_code := PreprocessFailed; ne_struct_id := ex_struct_id (expansion v); ne_field := ve_field e; ne_message := ve_message e |})
    | Fault => Fault
    | Done r' => Done (stored v r')
    end
  end.
Proof.
  intros Hv Hw Hf Hp. rewrite serves. unfold checked, stored.
  destruct (all_accepted v Hv) as (attr & it & Ha%wave_db_accepted). rewrite byte_val_of by apply Ha.
  destruct (declare_done _ _ declared) as [Hd ->]. unfold reg_validate, reg_preprocess. cbn [validate_fn preprocess_fn].
  destruct (arms_here _ v (enc (object_codec v) r) Hd Hv) as (_ & E1 & E2). unfold HEADER in E1, E2. rewrite E1, E2.
  rewrite validate_body_enc, preprocess_body_enc by done. unfold prepared in Hp.
  destruct (hook_validate v r) as [[]|e|]; [|done..]. cbn [omap_err obind] in *.
  unfold preprocessed, HAS_PREPROCESS, hook_preprocess in *.
  destruct (a_preprocess _) as [path|]; [|done]. rewrite bool_decide_true by by eexists.
  destruct (run_preprocess path v r) as [r'|e|]; [|done..]. cbn [omap_err obind].
  destruct (Hp r') as [Hw' Hf']; [done|]. by rewrite (to_wire_enc (object_codec v) (wf v)).
Qed.

Lemma keeps_declared v r : declared_type v -> keeps_one (registry n0) (ex_struct_id (expansion v)) (stored v r) =
  match ex_shape (expansion v) with Unique => true | _ => false end.
Proof. intros Hv. rewrite serves. unfold keeps_one, stored. by rewrite find_declared. Qed.

Lemma id_new_fits t k c : fits 128 (Id_new t 0 k c).
Proof. rewrite Id_new_digits. apply digits_fits. unfold digits_ok. split_and!; by apply wrap_fits. Qed.

Definition refusal (seq k : Z) (e : ValidationError) : TransportResponse :=
  resp_err seq {| ne_code := PreprocessFailed; ne_struct_id := k; ne_field := ve_field e; ne_message := ve_message e |}.

(** A record a program may offer to such a node: of a declared struct that keeps many,
    in the widths of its codec, before its hooks and after them. *)
Record offered (k : Z) (e : Any) : Prop := {
  of_type : declared_type (projT1 e);
  of_id : ex_struct_id (expansion (projT1 e)) = k;
  of_many : ex_shape (expansion (projT1 e)) <> Unique;
  of_wf : wf (projT1 e) (projT2 e);
  of_fits : slots_fit (object_codec (projT1 e)) (projT2 e) = true;
  of_size : zlen (stored (projT1 e) (projT2 e)) <= PAYLOAD_MAX;
  of_kept : forall r', prepared (projT1 e) (projT2 e) = Done r' ->
    wf (projT1 e) r' /\ slots_fit (object_codec (projT1 e)) r' = true /\ zlen (stored (projT1 e) r') <= PAYLOAD_MAX;
  of_refused : forall err, prepared (projT1 e) (projT2 e) = Fail err -> forall seq, fits 64 seq -> delivered (refusal seq k err);
  of_runs : prepared (projT1 e) (projT2 e) <> Fault
}.

(** What a save of it returns, and what the node has of it afterwards. *)
Definition verdict (k : Z) (e : Any) : outcome CoreError unit :=
  do* omap_err (Validation k) (prepared (projT1 e) (projT2 e)) in Done tt.

Fixpoint kept_forms (t k w : Z) (es : list Any) : list Any :=
  match es with
  | [] => []
  | e :: es =>
    match prepared (projT1 e) (projT2 e) with
    | Done r => existT (projT1 e) (with_id (projT1 e) (Id_new t 0 k (w + 1)) r) :: kept_forms t k (w + 1) es
    | _ => kept_forms t k w es
    end
  end.

Definition bytes_of (e : Any) : list byte := stored (projT1 e) (projT2 e).

Abbreviation at_handle := (handle_at (sends := sends) (at_node := at_node)).

(** The node's part of it. *)
Lemma step_offered w A k seq u t v r : node_owns n0 t 0 = true -> offered k (existT v r) -> hook_validate v r = Done tt ->
  spec_step wire_text core_text n0 (request_new seq (WriteReq k u t (stored v r))) w A =
    match hook_preprocess v r with
    | Done r' => let id := Id_new t 0 k (w + 1) in (resp_ok seq [], (w + 1, table_set (k, t) (A (k, t) ++ [(id, stored v (with_id v id r'))]) A))
    | Fail err => (refusal seq k err, (w, A))
    | Fault => (resp_ok seq (str "storage_error"), (w, A))
    end.
Proof.
  intros Ho [Hv Hid Hsh Hwf Hf _ Hk _ _] Ehv. cbn [projT1 projT2] in *. unfold prepared in Hk. rewrite Ehv in Hk. cbn [obind] in Hk.
  unfold spec_step. cbn [req_kind req_seq request_new].
  rewrite Ho, <- Hid, checked_declared, Ehv by (try done; unfold prepared; rewrite Ehv; intros r' E; by destruct (Hk r' E) as (? & ? & ?)).
  destruct (hook_preprocess v r) as [r'|err|] eqn:Ep; [|done..]. destruct (Hk r' eq_refl) as (Hw' & Hf' & _). cbv zeta.
  rewrite stamp_declared by (done || apply id_new_fits). rewrite keeps_declared by done. by destruct (ex_shape (expansion v)).
Qed.

(** The client's part. *)
Lemma write_sent v r k w x y : wf v r -> slots_fit (object_codec v) r = true -> hook_validate v r = Done tt -> ex_struct_id (expansion v) = k ->
  send (WriteReq k (user w.1) (tenant w.1) (stored v r)) w = (x, y) -> save (Structs0 := structs) v r w = (do* x in Done tt, y).
Proof.
  intros Hw Hf Ev Hid E. unfold save, do_write. cbn [Client.validate STRUCT_ID STRUCT_VERSION codec program_structs Client.record]. rewrite Hid, Ev.
  cbn [omap_err]. rewrite (bind_run (st_lift (Done tt)) _ _ tt w) by done. rewrite (to_wire_enc (object_codec v) (wf v)) by done.
  cbn [omap_err]. rewrite (bind_run (st_lift (Done _)) _ _ _ w) by reflexivity. rewrite (bind_run this _ _ w.1 w) by done.
  fold (stored v r). unfold st_bind. rewrite E. by destruct x.
Qed.

(** One save: room for a request is used up when the client's hook lets it through. *)
Definition room (e : Any) : nat := if is_done (hook_validate (projT1 e) (projT2 e)) then 3 else 0.

Lemma save_offered cap w A k d t e : at_handle (room e + cap) w A k (d, t) -> w + 1 < 2 ^ 48 -> node_owns n0 (tenant d) 0 = true -> offered k e ->
  exists d' t' A', save (Structs0 := structs) (projT1 e) (projT2 e) (d, t) = (verdict k e, (d', t')) /\
    at_handle cap (w + zlen (kept_forms (tenant d) k w [e])) A' k (d', t') /\ same_handle d d' /\
    map snd (A' (k, tenant d)) = map snd (A (k, tenant d)) ++ map bytes_of (kept_forms (tenant d) k w [e]).
Proof.
  destruct e as [v r]. cbn [projT1 projT2]. intros Hh Hw Ho Hof. pose proof Hof as [Hv Hid Hsh Hwf Hf Hsz Hk Hrf Hn]. cbn [projT1 projT2] in *.
  unfold verdict, kept_forms, room, prepared in *. cbn [projT1 projT2] in *.
  destruct (hook_validate v r) as [[]|err|] eqn:Ehv; [|exists d, t, A|by destruct (Hn eq_refl)].
  2:{ split; [unfold save, do_write; cbn; by rewrite Hid, Ehv|]. cbn [obind] in *. rewrite Z.add_0_r, app_nil_r. split; [exact Hh|]. split; [by split|done]. }
  cbn [obind omap_err is_done] in *. pose proof Hh as [_ _ Hu Hkey Hq]. cbn [fst snd] in *.
  pose proof (send_runs wire_text core_text n0 cap w A k d t (WriteReq k (user d) (tenant d) (stored v r)) Hh Hw) as HS. cbv zeta in HS.
  pose proof (step_offered w A k (db_seq d) (user d) (tenant d) v r Ho Hof Ehv) as Es.
  assert (posted (request_new (db_seq d) (WriteReq k (user d) (tenant d) (stored v r)))) as Hpost.
  { apply write_posted; [done..|]. unfold PAYLOAD_MAX in Hsz. lia. }
  assert (NodeOk.request_ok wire_text core_text (registry n0) (request_new (db_seq d) (WriteReq k (user d) (tenant d) (stored v r)))) as Hreq.
  { split; [done|]. cbn [req_seq request_new]. rewrite <- Hid, checked_declared, Ehv by (try done; unfold prepared; rewrite Ehv; intros r' E; by destruct (Hk r' E) as (? & ? & ?)).
    destruct (hook_preprocess v r) as [r'|err|]; [|done..]. intros c [= <-]. by apply Hk. }
  pose proof (fun x y => write_sent v r k (d, t) x y Hwf Hf Ehv Hid) as Hsave.
  specialize (HS Hpost Hreq). rewrite Es in HS. destruct (hook_preprocess v r) as [r'|err|] eqn:Ep; [| |done].
  - cbv zeta in HS. cbn [fst snd rs_error rs_payload resp_ok] in HS. destruct HS as (d' & t' & E & Hh' & Sd); [by apply plain_delivered|].
    eexists d', t', _. split; [apply (Hsave _ _ E)|]. split; [exact Hh'|]. split; [done|].
    unfold table_set. rewrite decide_True by done. by rewrite map_app.
  - destruct err as [field message]. destruct HS as (d' & t' & E & Hh' & Sd); [by apply Hrf|]. cbn [fst snd] in *.
    exists d', t', A. split; [apply (Hsave _ _ E)|]. rewrite Z.add_0_r, app_nil_r. done.
Qed.
(** *** Runs of saves *)

Definition attempt (e : Any) : ST (Db T * T) CoreError (outcome CoreError unit) := fun x =>
  let '(o, x) := save (Structs0 := structs) (projT1 e) (projT2 e) x in (Done o, x).

Fixpoint attempts (es : list Any) : ST (Db T * T) CoreError (list (outcome CoreError unit)) :=
  match es with
  | [] => st_ret []
  | e :: es => let! o := attempt e in let! os := attempts es in st_ret (o :: os)
  end.

Lemma kept_forms_cons t k w e es : kept_forms t k w (e :: es) =
  (kept_forms t k w [e] ++ kept_forms t k (w + zlen (kept_forms t k w [e])) es)%list.
Proof. cbn [kept_forms]. destruct (prepared _ _); cbn [app]; [done|by rewrite Z.add_0_r..]. Qed.

Lemma kept_forms_length t k w e : zlen (kept_forms t k w [e]) <= 1.
Proof. cbn [kept_forms]. by destruct (prepared _ _). Qed.

Lemma kept_forms_most t k w es : zlen (kept_forms t k w es) <= zlen es.
Proof.
  revert w. induction es as [|e es IH]; intros w; [done|]. rewrite kept_forms_cons, zlen_app. pose proof (kept_forms_length t k w e).
  assert (zlen (e :: es) = 1 + zlen es) as -> by (unfold zlen; cbn [length]; lia). specialize (IH (w + zlen (kept_forms t k w [e]))). lia.
Qed.

Lemma attempts_run es cap w A k d t : at_handle (sum_list (map room es) + cap) w A k (d, t) -> w + zlen es < 2 ^ 48 ->
  node_owns n0 (tenant d) 0 = true -> Forall (offered k) es ->
  exists d' t' A', attempts es (d, t) = (Done (map (verdict k) es), (d', t')) /\
    at_handle cap (w + zlen (kept_forms (tenant d) k w es)) A' k (d', t') /\ same_handle d d' /\
    map snd (A' (k, tenant d)) = map snd (A (k, tenant d)) ++ map bytes_of (kept_forms (tenant d) k w es).
Proof.
  revert w A d t. induction es as [|e es IH]; intros w A d t Hh Hw Ho Hes.
  - exists d, t, A. cbn [kept_forms map]. rewrite Z.add_0_r, app_nil_r. split; [done|]. split; [exact Hh|]. split; [by split|done].
  - apply Forall_cons in Hes as [He Hes]. assert (zlen (e :: es) = 1 + zlen es) as Ez by (unfold zlen; cbn [length]; lia). rewrite Ez in Hw.
    pose proof (zlen_nonneg es) as Hz. cbn [map sum_list] in Hh. change (sum_list (?a :: ?l)) with (a + sum_list l)%nat in Hh. rewrite <- Nat.add_assoc in Hh.
    destruct (save_offered _ _ _ _ _ _ e Hh ltac:(lia) Ho He) as (d1 & t1 & A1 & E1 & H1 & [S1 S2] & T1).
    pose proof (kept_forms_length (tenant d) k w e) as Hl. rewrite kept_forms_cons. set (ks := kept_forms (tenant d) k w [e]) in *.
    destruct (IH _ A1 d1 t1 H1 ltac:(lia)) as (d2 & t2 & A2 & E2 & H2 & [S3 S4] & T2); [by rewrite S2|done|]. rewrite S2 in *.
    exists d2, t2, A2. split; [|split; [|split]].
    + cbn [attempts map]. assert (attempt e (d, t) = (Done (verdict k e), (d1, t1))) as Ea by (unfold attempt; by rewrite E1).
      by rewrite (bind_run _ _ _ _ _ Ea), (bind_run _ _ _ _ _ E2).
    + by rewrite zlen_app, Z.add_assoc.
    + split; congruence.
    + by rewrite T2, T1, map_app, app_assoc.
Qed.

Lemma kept_after k t w es : Forall (offered k) es -> Forall (kept (Structs0 := structs) (wf := wf) k) (kept_forms t k w es).
Proof.
  intros Hes. revert w. induction Hes as [|[v r] es Ho _ IH]; intros w; cbn [kept_forms projT1 projT2]; [done|].
  destruct Ho as [Hv Hid _ _ _ _ Hk _ _]. cbn [projT1 projT2] in *. destruct (prepared v r) as [r'|e|]; [|done..]. constructor; [|done].
  destruct (Hk r' eq_refl) as (Hw & Hf & Hs). destruct (id_first v (Id_new t 0 k (w + 1)) r' Hw (id_new_fits _ _ _)) as (Hw' & Hf' & Hl & E).
  destruct (all_accepted v Hv) as (attr & it & Ha%wave_db_accepted). split; cbn [projT1 projT2]; [done|apply Ha|done|exact (eq_trans Hf' Hf)|].
  change (zlen (stored v (with_id v (Id_new t 0 k (w + 1)) r')) <= PAYLOAD_MAX). unfold stored, zlen in *. cbn [length] in *.
  by rewrite E, length_splice by (rewrite length_le_bytes; lia).
Qed.

(** C20: A run of saves through a handle, of structs that keep many records, on a node
    that owns the tenant and serves the registry of the program: each save returns the
    verdict of the struct's hooks, a refusal as the same validation error from whichever
    side it comes; what is accepted is kept as the preprocessing left it, under the
    identifier the node gave it, behind what was there; and a query reads it all back as
    the version asked for. *)
Theorem declared_saves_read_back cap w A k olds es v (ys : list (object v)) d t :
  at_handle (sum_list (map room es) + (3 + cap)) w A k (d, t) -> w + zlen es + 1 < 2 ^ 48 -> node_owns n0 (tenant d) 0 = true ->
  map snd (A (k, tenant d)) = map bytes_of olds -> Forall (kept (Structs0 := structs) (wf := wf) k) olds -> Forall (offered k) es ->
  let all := (olds ++ kept_forms (tenant d) k w es)%list in
  ex_struct_id (expansion v) = k -> Forall2 (reads_as (Structs0 := structs) (wf := wf) wire_text v) all ys -> zlen all <= 2 ^ 19 ->
  exists d' t' A', (let! verdicts := attempts es in let! found := query (Structs0 := structs) wire_text v EAll in st_ret (verdicts, found)) (d, t)
      = (Done (map (verdict k) es, ys), (d', t')) /\
    at_handle cap (w + zlen (kept_forms (tenant d) k w es)) A' k (d', t') /\ map snd (A' (k, tenant d)) = map bytes_of all.
Proof.
  intros Hh Hw Ho Hold Hok Hes all Hv Hr Hl. pose proof (zlen_nonneg es) as Hz.
  destruct (attempts_run es (3 + cap) w A k d t Hh ltac:(lia) Ho Hes) as (d1 & t1 & A1 & E1 & H1 & [S1 S2] & T1).
  rewrite Hold, <- map_app in T1. fold all in T1. rewrite <- S2 in T1.
  pose proof (kept_forms_most (tenant d) k w es) as Hle.
  destruct (query_runs (Structs0 := structs) (wf := wf) wire_text core_text n0 cap _ A1 k all v ys d1 t1 H1) as (d2 & t2 & E2 & H2 & _); try done.
  - lia.
  - unfold owns. by rewrite S2.
  - apply Forall_app. split; [done|by apply kept_after].
  - exists d2, t2, A1. rewrite (bind_run _ _ _ _ _ E1), (bind_run _ _ _ _ _ E2). rewrite S2 in T1. done.
Qed.
End declared_node.

(** ** Typed identifiers *)

(** Converted from an identifier, an anchor has no creation time, and so have the
    anchors of every other record; one read from bytes has what was written. *)
Lemma anchor_stable i : fits 128 i -> created_at (anchor_inner (anchor_from_id i)) = 0 /\
  anchor_inner (anchor_of {| id_inner := anchor_key i |}) = anchor_inner (anchor_from_id i).
Proof.
  intros Hi. destruct (id_split i Hi) as (t & s & k & c & Hd & ->). cbn. rewrite anchor_key_digits by done.
  assert (digits_ok t s k 0) as H0 by (unfold digits_ok, fits in *; lia). split; [by apply digits_fields|]. by apply anchor_key_digits.
Qed.

Lemma read_anchor_keeps_time : from_wire wire_typed_anchor (le_bytes 16 (Id_new 1 2 3 4)) = Done {| anchor_inner := Id_new 1 2 3 4 |} /\
  created_at (Id_new 1 2 3 4) = 4.
Proof. by split; vm_compute. Qed.

(** ** A program of two versions *)

Inductive DemoTokens : Type := DInt (n : Z) | DPath (p : list byte).

#[export] Instance demo_syn : Syn := {|
  Tokens := DemoTokens;
  Path := list byte;
  lit_int := fun t => match t with DInt n => Some n | _ => None end;
  lit_str := fun _ => None;
  parse_ident := fun t => match t with DPath p => Some p | _ => None end;
  parse_path := fun t => match t with DPath p => Some p | _ => None end
|}.

Definition demo_flag (name : string) : ParseNestedMeta := {| meta_ident := Some (str name); meta_value := None |}.
Definition demo_attr (name : string) (t : DemoTokens) : ParseNestedMeta := {| meta_ident := Some (str name); meta_value := Some t |}.

(** Counts kept in four bytes, then in eight and doubled; a count of 0 is invalid, and
    the newer version caps it at 1000 before it is stored. *)
Definition demo_count (v : bool) : list ParseNestedMeta * ItemStruct :=
  if v then
    ([demo_attr "struct_id" (DInt 7); demo_flag "NonUnique"; demo_attr "validate" (DPath (str "positive"));
      demo_attr "preprocess" (DPath (str "cap")); demo_attr "migrate_from" (DPath (str "Count1"));
      demo_attr "migrate_from_with" (DPath (str "double"))],
     {| ident := str "Count2"; item_fields := Named [(str "count", plain (str "u64"))]; derive_attrs := [] |})
  else
    ([demo_attr "struct_id" (DInt 7); demo_flag "NonUnique"; demo_attr "validate" (DPath (str "positive"))],
     {| ident := str "Count1"; item_fields := Named [(str "count", plain (str "u32"))]; derive_attrs := [Some [[str "Debug"]]] |}).

Definition demo_expansion (v : bool) : Expansion :=
  match wave_db (demo_count v).1 (demo_count v).2 with
  | Done e => e
  | _ => {| ex_name := []; ex_args := args_new; ex_struct_id := 0; ex_version := 0; ex_shape := Unique; ex_fields := [];
            HEAPABLE_FIELDS := []; ex_columns := []; ex_field_consts := []; ex_anchors := build_anchors_impl args_new;
            ex_crud := None; ex_derives := [] |}
  end.

Definition DemoObject : Type := Id * (Metadata * Z).

#[export] Instance demo_program : Program bool := {|
  program_syn := demo_syn;
  expansion := demo_expansion;
  object := fun _ => DemoObject;
  object_codec := fun v => wire_pair wire_id (wire_pair wire_metadata (wire_uint (if v then 8 else 4)));
  wire_consts := fun t => if is_ident (str "u64") t then (8%nat, true) else if is_ident (str "u32") t then (4%nat, true) else (16%nat, true);
  run_validate := fun _ _ (r : DemoObject) => if r.2.2 =? 0 then Fail (validation_new (str "zero")) else Done tt;
  run_preprocess := fun _ _ (r : DemoObject) => Done (r.1, (r.2.1, Z.min 1000 r.2.2))
|}.

#[export] Instance demo_conversions W : Conversions W bool := {|
  resolve_type := fun p => bool_decide (@eq (list byte) p (str "Count2"));
  run_convert := fun _ _ _ (r : DemoObject) => st_ret (r.1, (r.2.1, 2 * r.2.2))
|}.

Definition demo_object_wf (v : bool) (r : DemoObject) : Prop := fits 128 r.1 /\ metadata_wf r.2.1 /\ fits (if v then 64 else 32) r.2.2.

#[export] Instance demo_object_ok (v : bool) : WireOk (object_codec v) (demo_object_wf v).
Proof. destruct v; exact (pair_ok _ _ _ _). Defined.

Definition demo_families : list Family := [{| fam_name := str "counts"; types := [false; true] |}].
Definition demo_mod : ObjectsMod :=
  {| family_mods := [{| fm_struct_id := 7; fm_versions := [1; 2]; fm_descriptors := [DESCRIPTOR false; DESCRIPTOR true] |}];
     REGISTRY := {| descriptors := [DESCRIPTOR false; DESCRIPTOR true]; find_fn := find_arms [false; true];
                    validate_fn := validate_arms [false; true]; preprocess_fn := preprocess_arms [false; true] |} |}.

Lemma demo_accepted v : accepted v.
Proof. exists (demo_count v).1, (demo_count v).2. destruct v; by vm_compute. Qed.

Definition demo_meta : Metadata :=
  {| old_modification_id := 0; new_modification_id := 0; struct_version := 1; Core.user := 3; device_created := 0; permission := None |}.
Definition demo_object (n : Z) : DemoObject := (Id_new 1 0 7 5, (demo_meta, n)).

Lemma demo_declared : declare_objects demo_families = Done demo_mod.
Proof.
  unfold declare_objects. assert (omapM family_mod demo_families = Done (family_mods demo_mod)) as -> by by vm_compute.
  cbn [obind]. assert (distinct_headers (map HEADER (all_types demo_families)) = true) as -> by by vm_compute. done.
Qed.

Lemma demo_in v : v ∈ all_types demo_families.
Proof. destruct v; cbn; set_solver. Qed.

Lemma demo_object_good v n : 0 <= n < 2 ^ 32 -> demo_object_wf v (demo_object n).
Proof.
  intros Hn. unfold demo_object_wf. split; [by vm_compute|]. split; [|unfold fits; destruct v; cbn; lia].
  unfold metadata_wf. do 5 (split; [by vm_compute|]). done.
Qed.

Lemma demo_fits v n : slots_fit (object_codec v) (demo_object n) = true.
Proof. destruct v; by vm_compute. Qed.

Lemma declared_registry_answers_witness :
  reg_validate (REGISTRY demo_mod) (pack_header 7 2) (enc (object_codec true) (demo_object 0)) = Fail (Validation 7 (validation_new (str "zero"))) /\
  exists b, latest_version (descriptors (REGISTRY demo_mod)) 7 = Some b.
Proof.
  destruct (declared_registry_answers (Program0 := demo_program) (wf := demo_object_wf) demo_families demo_mod) as [Hf Hl].
  - apply demo_declared.
  - intros v _. apply demo_accepted.
  - split.
    + destruct (Hf 7 2 ltac:(done) ltac:(done)) as (v & _ & _ & Ev & _ & Hr). destruct v; [|by vm_compute in Ev].
      destruct (Hr (demo_object 0)) as [Hv _]; [by apply demo_object_good|apply demo_fits|]. etransitivity; [exact Hv|by vm_compute].
    + specialize (Hl 7). destruct (latest_version _ 7) as [b|]; [by exists b|]. by destruct (Hl true (demo_in true)).
Defined.

Lemma declared_chain_reads_witness :
  (forall x : unit, read_as_self (Structs0 := program_structs (W := unit) (V := bool)) (fun _ => []) CHAIN_FUEL true (enc (object_codec false) (demo_object 21)) (VERSION false) x = (Done (demo_object 42), x)) /\
  exists plan, resolve (foldl (register_migration (W := unit)) registry_new [false; true]) (struct_ref false) (struct_ref true) = Done plan /\ (length plan <= 1)%nat.
Proof.
  pose proof (converts_next (Program0 := demo_program) (Conversions0 := demo_conversions unit) true false (demo_object 21) [] true
    (str "double") (str "Count1") _ (converts_self true false (demo_object 21)) eq_refl eq_refl) as Hc.
  destruct (declared_chain_reads (Program0 := demo_program) (Conversions0 := demo_conversions unit) (fun _ => []) true false (demo_object 21) _ true _ (enc (object_codec (Program := demo_program) false) (demo_object 21)) [false; true] Hc) as [Hr Hp].
  - apply demo_accepted.
  - apply demo_accepted.
  - by vm_compute.
  - set_solver.
  - split; [intros x; etransitivity; [apply Hr|by vm_compute]|exact Hp].
Defined.

(** *** A node that serves the program *)

Definition demo_with_id (v : bool) (i : Id) (r : DemoObject) : DemoObject := (i, r.2).

Lemma demo_id_first (v : bool) (i : Id) (r : DemoObject) : demo_object_wf v r -> fits 128 i ->
  demo_object_wf v (demo_with_id v i r) /\
  slots_fit (object_codec v) (demo_with_id v i r) = slots_fit (object_codec v) r /\
  (16 <= length (enc (object_codec v) r))%nat /\
  enc (object_codec v) (demo_with_id v i r) = splice 0 (le_bytes 16 i) (enc (object_codec v) r).
Proof.
  intros [Hi Hr] Hf. split; [by split|]. destruct r as [j x].
  assert (forall i x, enc (object_codec v) (i, x) = le_bytes 16 i ++ enc_stack (wire_pair wire_metadata (wire_uint (if v then 8 else 4))) x ++
    enc_heap (wire_pair wire_metadata (wire_uint (if v then 8 else 4))) x) as E.
  { intros i0 x0. unfold enc. destruct v; cbn [demo_object_ok]; cbn; by rewrite <- ?app_assoc. }
  split; [by destruct v|]. unfold demo_with_id. cbn [snd]. rewrite !E. split; [rewrite length_app, length_le_bytes; lia|].
  unfold splice. cbn [take app]. by rewrite length_le_bytes, drop_le_bytes.
Qed.

Definition served_node : QuickNode := node_build demo_solo (Some (REGISTRY demo_mod)) (Some (fresh_storage 70000 64)).

Lemma served_http : NodeTransport (spec_step demo_text demo_text served_node) (NodeOk.request_ok demo_text demo_text (registry served_node))
  demo_send (http_at served_node).
Proof. apply (http_node_transport demo_text demo_text demo_text demo_mac 1000 (fun _ => str "status") (str "closed") demo_mac_length). done. Qed.

Lemma served_handle cap : Z.of_nat cap <= 15 ->
  handle_at (sends := demo_send) (at_node := http_at served_node) cap 0 (fun _ => []) 7 (demo_db 1, http_start served_node).
Proof.
  intros Hc. constructor; try done. split; [done|]. split; [reflexivity|]. cbn [far http_start snd].
  apply build_ok, fresh_serves; unfold LIVE_VALUE_MAX; lia.
Qed.

Lemma served_registry : registry served_node = Some (REGISTRY demo_mod).
Proof. apply (build_fixed demo_solo (Some (REGISTRY demo_mod))). Qed.

Lemma served_owns : node_owns served_node (tenant (demo_db 1)) 0 = true.
Proof. by vm_compute. Qed.

Abbreviation demo_offer := { u : bool & object u }.
Abbreviation demo_state := (Db (HttpWorld (S := QuickNode)) * HttpWorld (S := QuickNode))%type.
Definition offer (v : bool) (n : Z) : demo_offer := existT v (demo_object n).

Lemma demo_hooks : (forall v, a_validate (ex_args (expansion v)) = Some (str "positive")) /\
  a_preprocess (ex_args (expansion true)) = Some (str "cap") /\ a_preprocess (ex_args (expansion false)) = None.
Proof. split; [intros []; by vm_compute|]. split; by vm_compute. Qed.

Lemma demo_prepared v n : prepared v (demo_object n) =
  if n =? 0 then Fail (validation_new (str "zero")) else Done (demo_object (if v then Z.min 1000 n else n)).
Proof.
  destruct demo_hooks as (E1 & E2 & E3). unfold prepared, hook_validate, hook_preprocess. rewrite E1.
  destruct v; rewrite ?E2, ?E3; cbn; by destruct (n =? 0).
Qed.

Lemma demo_size v n : zlen (stored (wf := demo_object_wf) v (demo_object n)) <= PAYLOAD_MAX.
Proof. destruct v; by vm_compute. Qed.

Lemma demo_offered v n : 0 <= n < 2 ^ 32 -> offered (wf := demo_object_wf) demo_families 7 (offer v n).
Proof.
  intros Hn. split; cbn [offer projT1 projT2].
  - apply demo_in.
  - destruct v; by vm_compute.
  - destruct v; by vm_compute.
  - by apply demo_object_good.
  - apply demo_fits.
  - apply demo_size.
  - intros r'. rewrite demo_prepared. destruct (n =? 0); [done|]. intros [= <-].
    split; [apply demo_object_good; destruct v; lia|]. split; [apply demo_fits|apply demo_size].
  - intros err. rewrite demo_prepared. destruct (n =? 0); [|done]. intros [= <-] seq Hs. split; [|by vm_compute].
    unfold response_wf, refusal. cbn. split_and!; try done. intros e [= <-]. by split_and!; vm_compute.
  - rewrite demo_prepared. by destruct (n =? 0).
Qed.

(** The newer version as it was saved, the older one doubled; each with the node's
    identifier. *)
Definition kept_object (c n : Z) : DemoObject := (Id_new 1 0 7 c, (demo_meta, n)).

Abbreviation demo_client := (program_structs (Program0 := demo_program) (Conversions0 := demo_conversions demo_state)).

Lemma kept_same v c n : 0 <= n < 2 ^ 32 ->
  reads_as (Structs0 := demo_client) (wf := demo_object_wf) demo_text v (existT v (kept_object c n)) (kept_object c n).
Proof.
  intros Hn. apply (reads_same (Structs0 := demo_client) (wf := demo_object_wf)).
  - split; [apply id_new_fits|]. apply (demo_object_good v n Hn).
  - destruct v; by vm_compute.
Qed.

Lemma kept_doubled c n : 0 <= n < 2 ^ 31 ->
  reads_as (Structs0 := demo_client) (wf := demo_object_wf) demo_text true (existT false (kept_object c n)) (kept_object c (2 * n)).
Proof.
  intros Hn. apply (reads_migrated (Structs0 := demo_client) (wf := demo_object_wf) demo_text false true
    (fun r : DemoObject => st_ret (r.1, (r.2.1, 2 * r.2.2))) (fun r : DemoObject => (r.1, (r.2.1, 2 * r.2.2)))).
  - by vm_compute.
  - by vm_compute.
  - done.
  - split; [apply id_new_fits|]. apply (demo_object_good false n). lia.
  - by vm_compute.
Qed.

Abbreviation demo_offers := [offer true 5000; offer true 0; offer false 21].

Lemma demo_kept : kept_forms demo_with_id 1 7 0 demo_offers = [existT true (kept_object 1 1000); existT false (kept_object 2 21)].
Proof. by vm_compute. Qed.

Lemma demo_verdicts : map (verdict 7) demo_offers = [Done tt; Fail (Validation 7 (validation_new (str "zero"))); Done tt].
Proof. by vm_compute. Qed.

Lemma declared_saves_read_back_witness :
  exists d' t' A', (let! verdicts := attempts [offer true 5000; offer true 0; offer false 21] in
      let! found := query (Structs0 := demo_client) demo_text true EAll in st_ret (verdicts, found))
      (demo_db 1, http_start served_node)
    = (Done ([Done tt; Fail (Validation 7 (validation_new (str "zero"))); Done tt], [kept_object 1 1000; kept_object 2 42]), (d', t')) /\
    handle_at (sends := demo_send) (at_node := http_at served_node) 0 2 A' 7 (d', t') /\
    map snd (A' (7, 1)) = map (bytes_of (wf := demo_object_wf)) [existT true (kept_object 1 1000); existT false (kept_object 2 21)].
Proof.
  pose proof (declared_saves_read_back (NodeTransport0 := served_http) demo_text demo_text served_node demo_families demo_mod
    demo_declared (fun v _ => demo_accepted v) served_registry demo_with_id eq_refl demo_id_first
    0 0 (fun _ => []) 7 [] [offer true 5000; offer true 0; offer false 21] true [kept_object 1 1000; kept_object 2 42]
    (demo_db 1) (http_start served_node)) as H.
  cbn [app tenant demo_db db_new] in H. rewrite demo_kept, demo_verdicts in H. apply H.
  - apply served_handle. by vm_compute.
  - done.
  - apply served_owns.
  - done.
  - done.
  - repeat (apply Forall_cons_2; [by apply demo_offered|]). done.
  - by vm_compute.
  - apply Forall2_cons; split; [by apply kept_same|]. apply Forall2_cons; split; [by apply kept_doubled|done].
  - done.
Defined.
