(* ===== verification/Browser.v ===== *)
(** * The browser client (wavedb-wasm: idb.rs, lib.rs)

    Objects live in IndexedDB, one per key: the database of the browser is an
    interface, a map of names and a map of binary keys with a range read in the order
    of the keys' bytes.  The socket handle keeps its waiters in a map by sequence
    number. *)
From stdpp Require sorting.
From S2P Require Import Prelude Ordered Wire Ids Request.

(** ** Binary keys *)

#[export] Instance byte_countable : Countable byte := inj_countable' byte_val byte_of byte_of_val.

(** Bytes in lexicographic order, a prefix first. *)
Fixpoint bytes_le (a b : list byte) : bool :=
  match a, b with
  | [], _ => true
  | _ :: _, [] => false
  | x :: a, y :: b => (byte_val x <? byte_val y) || ((byte_val x =? byte_val y) && bytes_le a b)
  end.

(** [to_be_bytes]. *)
Definition be_bytes (n : nat) (z : Z) : list byte := rev (le_bytes n z).

Definition object_key (id : Z) : list byte := be_bytes 16 id.

(** ** IndexedDB *)

(** The text of what a request of the browser failed with. *)
Abbreviation JsValue := (list byte).

Class IndexedDb (I : Type) : Type := {
  names : I -> gmap (list byte) (list byte);
  objects : I -> gmap (list byte) (list byte);
  idb_get_name : list byte -> ST I JsValue (option (list byte));
  idb_put_name : list byte -> list byte -> ST I JsValue unit;
  idb_delete_name : list byte -> ST I JsValue unit;
  idb_get : list byte -> ST I JsValue (option (list byte));
  idb_put : list byte -> list byte -> ST I JsValue unit;
  idb_delete : list byte -> ST I JsValue unit;
  idb_get_all : list byte -> list byte -> ST I JsValue (list (list byte))
}.

Definition in_bounds (lo hi : list byte) (kv : list byte * list byte) : bool := bytes_le lo kv.1 && bytes_le kv.1 hi.

(** A request either fails and changes nothing, or does what the documentation of
    object stores says. *)
Class IndexedDbOk (I : Type) `{IndexedDb I} : Prop := {
  get_ok k s : match idb_get k s with (Done r, s') => r = objects s !! k /\ s' = s | (Fail _, s') => s' = s | (Fault, _) => False end;
  put_ok k v s : match idb_put k v s with
                 | (Done _, s') => objects s' = <[k := v]> (objects s) /\ names s' = names s
                 | (Fail _, s') => s' = s | (Fault, _) => False end;
  idb_delete_ok k s : match idb_delete k s with
                      | (Done _, s') => objects s' = delete k (objects s) /\ names s' = names s
                      | (Fail _, s') => s' = s | (Fault, _) => False end;
  get_all_ok lo hi s : match idb_get_all lo hi s with
                       | (Done l, s') => l = map snd (filter (fun kv => in_bounds lo hi kv = true) (ordered bytes_le (objects s))) /\ s' = s
                       | (Fail _, s') => s' = s | (Fault, _) => False end
}.

Definition DB_NAME : list byte := str "wavedb".
Definition STORE_NAME : list byte := str "kv".
Definition OWNER_URL_KEY : list byte := str "wavedb_owner_url".

Section store.
Context {I : Type} `{!IndexedDb I}.

Definition store_get := idb_get_name.
Definition store_put := idb_put_name.
Definition store_delete := idb_delete_name.

Definition put_object (id : Z) (bytes : list byte) : ST I JsValue unit := idb_put (object_key id) bytes.
Definition get_object (id : Z) : ST I JsValue (option (list byte)) := idb_get (object_key id).
Definition delete_object (id : Z) : ST I JsValue unit := idb_delete (object_key id).

(** [IdbKeyRange::bound] refuses a lower bound above the upper. *)
Definition get_objects_in_range (lo hi : Z) : ST I JsValue (list (list byte)) :=
  if bytes_le (object_key lo) (object_key hi) then idb_get_all (object_key lo) (object_key hi)
  else st_lift (Fail (str "DataError")).

Definition get_tenant_objects (tenant : Z) : ST I JsValue (list (list byte)) :=
  let lo := shl128 tenant 80 in
  let hi := Z.lor lo (Z.shiftl 1 80 - 1) in
  get_objects_in_range lo hi.

End store.

(** *** The order of keys is the order of identifiers *)

Lemma length_be_bytes n z : length (be_bytes n z) = n.
Proof. unfold be_bytes. by rewrite length_rev, length_le_bytes. Qed.

Definition be_val (l : list byte) : Z := le_val (rev l).

Lemma le_val_snoc l x : le_val (l ++ [x]) = le_val l + byte_val x * 2 ^ (8 * Z.of_nat (length l)).
Proof.
  pose proof (le_val_fits l) as Hl. with_strategy transparent [le_val] unfold le_val in *.
  rewrite LittleEndianList.le_combine_app, LittleEndianList.le_combine_1, Z.lor_comm, (Z.mul_comm (Z.of_nat _)).
  rewrite lor_shiftl_low; [unfold byte_val; lia|lia|exact Hl].
Qed.

Lemma be_val_cons x l : be_val (x :: l) = byte_val x * 2 ^ (8 * Z.of_nat (length l)) + be_val l.
Proof.
  unfold be_val. cbn [rev]. rewrite le_val_snoc, length_rev. lia.
Qed.

Lemma be_val_fits l : fits (8 * Z.of_nat (length l)) (be_val l).
Proof. unfold be_val. rewrite <- length_rev. apply le_val_fits. Qed.

Lemma bytes_le_val a b : length a = length b -> bytes_le a b = (be_val a <=? be_val b).
Proof.
  revert b. induction a as [|x a IH]; intros [|y b] Hl; try done. injection Hl as Hl. cbn [bytes_le]. rewrite (IH b Hl), !be_val_cons, <- Hl.
  pose proof (be_val_fits a) as Ha. pose proof (be_val_fits b) as Hb. rewrite <- Hl in Hb. unfold fits in *.
  set (p := 2 ^ (8 * Z.of_nat (length a))) in *. apply eq_iff_eq_true.
  rewrite orb_true_iff, andb_true_iff, Z.ltb_lt, Z.eqb_eq, !Z.leb_le. nia.
Qed.

Lemma be_val_bytes n z : fits (8 * Z.of_nat n) z -> be_val (be_bytes n z) = z.
Proof. intros H. unfold be_val, be_bytes. by rewrite rev_involutive, le_val_bytes. Qed.

Lemma object_key_le x y : fits 128 x -> fits 128 y -> bytes_le (object_key x) (object_key y) = (x <=? y).
Proof. intros Hx Hy. unfold object_key. by rewrite bytes_le_val, !be_val_bytes by by rewrite ?length_be_bytes. Qed.

Lemma object_key_inj x y : fits 128 x -> fits 128 y -> object_key x = object_key y -> x = y.
Proof. intros Hx Hy E. unfold object_key in E. by rewrite <- (be_val_bytes 16 x), E, be_val_bytes. Qed.

Lemma bytes_le_total a b : bytes_le a b = true \/ bytes_le b a = true.
Proof.
  revert b. induction a as [|x a IH]; intros [|y b]; cbn [bytes_le]; auto. specialize (IH b).
  rewrite !orb_true_iff, !andb_true_iff, !Z.ltb_lt, !Z.eqb_eq. destruct (Z.lt_trichotomy (byte_val x) (byte_val y)) as [?|[?|?]]; [tauto| |tauto].
  destruct IH; [left|right]; right; split; [done|done|congruence|done].
Qed.

Lemma bytes_le_trans a b c : bytes_le a b = true -> bytes_le b c = true -> bytes_le a c = true.
Proof.
  revert b c. induction a as [|x a IH]; intros [|y b] [|z c]; cbn [bytes_le]; try done.
  rewrite !orb_true_iff, !andb_true_iff, !Z.ltb_lt, !Z.eqb_eq.
  intros [?|[? ?]] [?|[? ?]]; [left; lia..|right; split; [lia|by eapply IH]].
Qed.

Lemma sorted_map {A B} (R : A -> A -> Prop) (R' : B -> B -> Prop) (f : A -> B) l : StronglySorted R l ->
  (forall x y, x ∈ l -> y ∈ l -> R x y -> R' (f x) (f y)) -> StronglySorted R' (map f l).
Proof.
  induction 1 as [|x l Hl IH Hx]; intros Hf; [constructor|]. cbn [map]. constructor.
  - apply IH. intros y z Hy Hz. apply Hf; by right.
  - apply Forall_map. rewrite Forall_forall in *. intros y Hy. apply Hf; [by left|by right|by apply Hx].
Qed.

(** ** The store as a map of objects *)

Section refines.
Context {I : Type} `{!IndexedDb I, !IndexedDbOk I}.

(** The binary keys are those of the objects in [M]. *)
Record shows (M : gmap Z (list byte)) (s : I) : Prop := {
  sh_held : forall id v, M !! id = Some v -> fits 128 id /\ objects s !! object_key id = Some v;
  sh_only : forall k v, objects s !! k = Some v -> exists id, k = object_key id /\ M !! id = Some v
}.

Inductive ObjectOp : Type :=
  | OPut (id : Z) (bytes : list byte)
  | OGet (id : Z)
  | ODelete (id : Z)
  | OTenant (tenant : Z).

Definition op_ok (o : ObjectOp) : Prop :=
  match o with OPut id _ | OGet id | ODelete id => fits 128 id | OTenant t => fits 48 t end.

(** What an operation gives, as the values it returns. *)
Definition run_op (o : ObjectOp) : ST I JsValue (list (list byte)) :=
  match o with
  | OPut id b => do! put_object id b in st_ret []
  | OGet id => let! r := get_object id in st_ret (match r with Some v => [v] | None => [] end)
  | ODelete id => do! delete_object id in st_ret []
  | OTenant t => get_tenant_objects t
  end.

Definition spec_op (o : ObjectOp) (M : gmap Z (list byte)) : list (list byte) * gmap Z (list byte) :=
  match o with
  | OPut id b => ([], <[id := b]> M)
  | OGet id => (match M !! id with Some v => [v] | None => [] end, M)
  | ODelete id => ([], delete id M)
  | OTenant t => (map snd (filter (fun kv => tenant_id kv.1 = t) (by_key M)), M)
  end.

Lemma shows_lookup M s id : shows M s -> fits 128 id -> objects s !! object_key id = M !! id.
Proof.
  intros [H1 H2] Hid. destruct (M !! id) as [v|] eqn:E; [by apply H1|].
  destruct (objects s !! object_key id) as [v|] eqn:E'; [|done]. destruct (H2 _ _ E') as (id' & Ek & E2).
  apply object_key_inj in Ek as ->; [congruence|done|by apply (H1 _ _ E2)].
Qed.

Lemma shows_put M s s' id b : shows M s -> fits 128 id -> objects s' = <[object_key id := b]> (objects s) -> shows (<[id := b]> M) s'.
Proof.
  intros [H1 H2] Hid E. split; rewrite E.
  - intros id' v [[<- <-]|[Hne Hv]]%lookup_insert_Some; [by rewrite lookup_insert_eq|]. destruct (H1 _ _ Hv) as [Hf Ho].
    split; [done|]. rewrite lookup_insert_ne; [done|]. intros Ek. by apply Hne, object_key_inj.
  - intros k v [[<- <-]|[Hne Hv]]%lookup_insert_Some; [exists id; by rewrite lookup_insert_eq|].
    destruct (H2 _ _ Hv) as (id' & -> & Hm). exists id'. split; [done|]. rewrite lookup_insert_ne; [done|]. by intros ->.
Qed.

Lemma shows_delete M s s' id : shows M s -> fits 128 id -> objects s' = delete (object_key id) (objects s) -> shows (delete id M) s'.
Proof.
  intros [H1 H2] Hid E. split; rewrite E.
  - intros id' v [Hne Hv]%lookup_delete_Some. destruct (H1 _ _ Hv) as [Hf Ho]. split; [done|].
    rewrite lookup_delete_ne; [done|]. intros Ek. by apply Hne, object_key_inj.
  - intros k v [Hne Hv]%lookup_delete_Some. destruct (H2 _ _ Hv) as (id' & -> & Hm). exists id'. split; [done|].
    rewrite lookup_delete_ne; [done|]. by intros ->.
Qed.

(** The order of the database is the order of the identifiers. *)
Lemma shows_ordered M s : shows M s -> ordered bytes_le (objects s) = map (fun kv => (object_key kv.1, kv.2)) (by_key M).
Proof.
  intros [H1 H2]. apply (stdpp.sorting.StronglySorted_unique_strong (fun x y : list byte * list byte => bytes_le x.1 y.1 = true)).
  - intros [k v] [k' v'] Hx%elem_of_ordered Hy Hle Hge.
    apply list_elem_of_fmap in Hy as ([id' w'] & [= -> ->] & Hy%elem_of_ordered). destruct (H1 _ _ Hy) as [Hf' Ho'].
    destruct (H2 _ _ Hx) as (id & -> & Hm). destruct (H1 _ _ Hm) as [Hf Ho]. cbn [fst] in *. rewrite object_key_le in Hle, Hge by done.
    assert (id = id') as -> by lia. congruence.
  - apply ordered_sorted; [apply bytes_le_total|apply bytes_le_trans].
  - apply sorted_map with (R := fun x y : Z * list byte => (x.1 <=? y.1) = true); [apply ordered_sorted; intros; lia|].
    intros [x v] [y w] Hx%elem_of_ordered Hy%elem_of_ordered Hle. cbn [fst] in *. rewrite object_key_le; [done|apply (H1 _ _ Hx)|apply (H1 _ _ Hy)].
  - apply NoDup_Permutation.
    + eapply NoDup_fmap_1, (NoDup_ordered bytes_le).
    + apply NoDup_fmap_2_strong; [|eapply NoDup_fmap_1, (NoDup_ordered Z.leb M)].
      intros [x v] [y w] Hx%elem_of_ordered Hy%elem_of_ordered E. pose proof (f_equal snd E) as Ev. apply (f_equal fst) in E. cbn [fst snd] in E, Ev.
      f_equal; [|exact Ev]. apply object_key_inj; [apply (H1 _ _ Hx)|apply (H1 _ _ Hy)|exact E].
    + intros [k v]. rewrite elem_of_ordered, list_elem_of_fmap. split.
      * intros Hk. destruct (H2 _ _ Hk) as (id & -> & Hm). exists (id, v). by rewrite elem_of_ordered.
      * intros ([id w] & [= -> ->] & Hm%elem_of_ordered). by apply H1.
Qed.

(** The identifiers of a tenant are a range. *)
Lemma tenant_range t id : fits 48 t -> fits 128 id ->
  in_bounds (object_key (shl128 t 80)) (object_key (Z.lor (shl128 t 80) (Z.shiftl 1 80 - 1))) (object_key id, []) = bool_decide (tenant_id id = t).
Proof.
  intros Ht Hid. rewrite (shl128_small t 48 80) by (done || lia). rewrite (lor_shiftl_low t (Z.shiftl 1 80 - 1) 80) by done.
  rewrite Z.shiftl_mul_pow2 by lia. change (Z.shiftl 1 80 - 1) with (2 ^ 80 - 1).
  unfold in_bounds. cbn [fst]. rewrite !object_key_le by (unfold fits in *; lia).
  apply eq_iff_eq_true. rewrite andb_true_iff, bool_decide_eq_true, !Z.leb_le.
  unfold tenant_id. destruct masks as (-> & _). rewrite Z.land_ones, Z.shiftr_div_pow2 by done. change TENANT_SHIFT with 80.
  unfold wrap, fits in *. rewrite (Z.mod_small (id / 2 ^ 80) (2 ^ 48)) by (Z.to_euclidean_division_equations; lia).
  rewrite Z.mod_small by (Z.to_euclidean_division_equations; lia). Z.to_euclidean_division_equations; lia.
Qed.

Lemma filter_keys M s t : shows M s -> fits 48 t ->
  map snd (filter (fun kv => in_bounds (object_key (shl128 t 80)) (object_key (Z.lor (shl128 t 80) (Z.shiftl 1 80 - 1))) kv = true) (ordered bytes_le (objects s))) =
  map snd (filter (fun kv => tenant_id kv.1 = t) (by_key M)).
Proof.
  intros Hs Ht. rewrite (shows_ordered _ _ Hs). assert (Forall (fun kv : Z * list byte => fits 128 kv.1) (by_key M)) as Hf.
  { apply Forall_forall. intros [id v] Hm%elem_of_ordered. apply (sh_held _ _ Hs _ _ Hm). }
  induction Hf as [|[id v] l Hid Hl IH]; [done|]. cbn [map fst snd] in *. rewrite !filter_cons. cbn [fst].
  pose proof (tenant_range t id Ht Hid) as Hr. unfold in_bounds in *. cbn [fst] in *. rewrite Hr.
  destruct (decide (tenant_id id = t)) as [E|E].
  - rewrite decide_True by by rewrite bool_decide_eq_true. cbn [map snd]. by rewrite IH.
  - rewrite decide_False by by rewrite bool_decide_eq_true. exact IH.
Qed.

Lemma tenant_bounds t : fits 48 t -> bytes_le (object_key (shl128 t 80)) (object_key (Z.lor (shl128 t 80) (Z.shiftl 1 80 - 1))) = true.
Proof.
  intros Ht. rewrite (shl128_small t 48 80) by (done || lia). rewrite (lor_shiftl_low t (Z.shiftl 1 80 - 1) 80) by done.
  rewrite Z.shiftl_mul_pow2 by lia. change (Z.shiftl 1 80 - 1) with (2 ^ 80 - 1). rewrite object_key_le by (unfold fits in *; lia). lia.
Qed.

(** C36: The object store of the browser is a map from identifiers to bytes: a request
    fails and changes nothing, or does to the map what its name says, and a tenant's
    objects are the ones whose identifier carries it, in the order of identifiers. *)
Theorem browser_store_refines M (s : I) (o : ObjectOp) : shows M s -> op_ok o ->
  match run_op o s with
  | (Done r, s') => r = (spec_op o M).1 /\ shows (spec_op o M).2 s'
  | (Fail _, s') => s' = s
  | (Fault, _) => False
  end.
Proof.
  intros Hs Ho. destruct o as [id b|id|id|t]; cbn [run_op op_ok spec_op fst snd] in *.
  - unfold put_object, st_bind. pose proof (put_ok (object_key id) b s) as H1. destruct (idb_put _ _ _) as [[[]|e|] s']; [|done..].
    split; [done|]. by eapply shows_put, H1.
  - unfold get_object, st_bind. pose proof (get_ok (object_key id) s) as H1. destruct (idb_get _ _) as [[r|e|] s']; [|done..].
    destruct H1 as [-> ->]. by rewrite (shows_lookup _ _ _ Hs Ho).
  - unfold delete_object, st_bind. pose proof (idb_delete_ok (object_key id) s) as H1. destruct (idb_delete _ _) as [[[]|e|] s']; [|done..].
    split; [done|]. by eapply shows_delete, H1.
  - unfold get_tenant_objects, get_objects_in_range. rewrite (tenant_bounds t Ho).
    pose proof (get_all_ok (object_key (shl128 t 80)) (object_key (Z.lor (shl128 t 80) (Z.shiftl 1 80 - 1))) s) as H1.
    destruct (idb_get_all _ _ _) as [[r|e|] s']; [|done..]. destruct H1 as [-> ->]. split; [by apply filter_keys|done].
Qed.
End refines.

(** A database of two maps that never fails. *)
Record PlainIdb : Type := { plain_names : gmap (list byte) (list byte); plain_objects : gmap (list byte) (list byte) }.

#[export] Instance plain_idb : IndexedDb PlainIdb := {|
  names := plain_names;
  objects := plain_objects;
  idb_get_name k := st_gets (fun s => plain_names s !! k);
  idb_put_name k v := st_modify (fun s => {| plain_names := <[k := v]> (plain_names s); plain_objects := plain_objects s |});
  idb_delete_name k := st_modify (fun s => {| plain_names := delete k (plain_names s); plain_objects := plain_objects s |});
  idb_get k := st_gets (fun s => plain_objects s !! k);
  idb_put k v := st_modify (fun s => {| plain_names := plain_names s; plain_objects := <[k := v]> (plain_objects s) |});
  idb_delete k := st_modify (fun s => {| plain_names := plain_names s; plain_objects := delete k (plain_objects s) |});
  idb_get_all lo hi := st_gets (fun s => map snd (filter (fun kv => in_bounds lo hi kv = true) (ordered bytes_le (plain_objects s))))
|}.

#[export] Instance plain_idb_ok : IndexedDbOk PlainIdb.
Proof. by split. Qed.

Definition empty_idb : PlainIdb := {| plain_names := ∅; plain_objects := ∅ |}.

Lemma browser_store_refines_witness :
  let s := {| plain_names := ∅; plain_objects := <[object_key (Id_new 3 0 7 1) := [Byte.x2a]]> ∅ |} in
  match run_op (OTenant 3) s with
  | (Done r, s') => r = (spec_op (OTenant 3) (<[Id_new 3 0 7 1 := [Byte.x2a]]> ∅)).1 /\ shows (spec_op (OTenant 3) (<[Id_new 3 0 7 1 := [Byte.x2a]]> ∅)).2 s'
  | (Fail _, s') => s' = s
  | (Fault, _) => False
  end.
Proof.
  apply (browser_store_refines (I := PlainIdb) (<[Id_new 3 0 7 1 := [Byte.x2a]]> ∅)
    {| plain_names := ∅; plain_objects := <[object_key (Id_new 3 0 7 1) := [Byte.x2a]]> ∅ |} (OTenant 3)).
  - split.
    + intros id v [[<- <-]|[_ H]]%lookup_insert_Some; [|by rewrite lookup_empty in H]. split; [by split|]. apply lookup_insert_eq.
    + cbn [objects plain_idb plain_objects]. intros k v [[<- <-]|[_ H]]%lookup_insert_Some; [|by rewrite lookup_empty in H]. exists (Id_new 3 0 7 1). split; [done|]. apply lookup_insert_eq.
  - done.
Defined.

(** ** The socket handle *)

(** [js_pending] is the map of waiters, by caller. *)
Record JsDb : Type := {
  js_pending : gmap Z nat;
  js_seq : Z;
  js_user : Z;
  js_tenant : Z;
  js_owner_url : list byte;
  js_backup_url : list byte
}.

Definition js_with (pending : gmap Z nat) (seq : Z) (d : JsDb) : JsDb :=
  {| js_pending := pending; js_seq := seq; js_user := js_user d; js_tenant := js_tenant d;
     js_owner_url := js_owner_url d; js_backup_url := js_backup_url d |}.

(** The bytes of a plain response. *)
Definition enc_response (sq : Z) : list byte := match encode_payload wire_response (resp_ok sq []) with Done b => b | _ => [] end.

Section js.
(** The text of a codec error. *)
Variable wire_text : WireError -> list byte.

(** The end of the handshake: the handle a connect response gives. *)
Definition js_connected (user tenant : Z) (resp : TransportResponse) : JsDb :=
  {| js_pending := ∅; js_seq := 1; js_user := user; js_tenant := tenant;
     js_owner_url := default [] (owner_url resp); js_backup_url := default [] (backup_url resp) |}.

(** The owner's address is kept for the next page load; a database that fails is
    ignored. *)
Definition persist_owner {I} `{!IndexedDb I} (d : JsDb) (s : I) : I := (store_put OWNER_URL_KEY (js_owner_url d) s).2.

Definition cached_owner_url {I} `{!IndexedDb I} (s : I) : option (list byte) :=
  match (store_get OWNER_URL_KEY s).1 with
  | Done (Some b) => if utf8_valid b then Some b else None
  | _ => None
  end.

(** [send_raw] up to its wait: the frame for the socket. *)
Definition js_begin (caller : nat) (kind : RequestKind) : ST JsDb JsValue (list byte) := fun d =>
  match uadd 64 (js_seq d) 1 with
  | Done next =>
    let d' := js_with (<[js_seq d := caller]> (js_pending d)) next d in
    (omap_err wire_text (encode_payload wire_request (request_new (js_seq d) kind)), d')
  | Fail e => (Fail e, d)
  | Fault => (Fault, d)
  end.

(** The message handler: the waiter a response is for. *)
Definition js_message (bytes : list byte) (d : JsDb) : option (nat * TransportResponse) * JsDb :=
  match decode_payload wire_response bytes with
  | Done resp =>
    match js_pending d !! rs_seq resp with
    | Some caller => (Some (caller, resp), js_with (delete (rs_seq resp) (js_pending d)) (js_seq d) d)
    | None => (None, d)
    end
  | _ => (None, d)
  end.

(** The messages up to the one that wakes a caller. *)
Fixpoint js_wait (caller : nat) (msgs : list (list byte)) : ST JsDb JsValue TransportResponse := fun d =>
  match msgs with
  | [] => (Fail (str "WebSocket disconnected"), d)
  | m :: msgs =>
    match js_message m d with
    | (Some (c, resp), d) => if (c =? caller)%nat then (Done resp, d) else js_wait caller msgs d
    | (None, d) => js_wait caller msgs d
    end
  end.

(** A request over a socket that takes a frame and delivers messages. *)
Definition send_raw (socket : list byte -> outcome JsValue (list (list byte))) (caller : nat) (kind : RequestKind) : ST JsDb JsValue TransportResponse :=
  let! frame := js_begin caller kind in
  let! msgs := st_lift (socket frame) in
  js_wait caller msgs.

Section ops.
Variable socket : list byte -> outcome JsValue (list (list byte)).
Variable caller : nat.

Definition js_self (d : JsDb) : JsDb := d.

Definition js_write (struct_id : Z) (payload : list byte) : ST JsDb JsValue (list byte) :=
  let! d := st_gets js_self in
  let! resp := send_raw socket caller (WriteReq struct_id (js_user d) (js_tenant d) payload) in
  st_ret (rs_payload resp).

Definition js_search_unique (struct_id : Z) : ST JsDb JsValue (list byte) :=
  let! d := st_gets js_self in
  let! resp := send_raw socket caller (SearchUnique struct_id (js_user d) (js_tenant d)) in
  st_ret (rs_payload resp).

Definition js_query_non_unique (struct_id : Z) (filter : list byte) : ST JsDb JsValue (list byte) :=
  let! d := st_gets js_self in
  let! resp := send_raw socket caller (QueryNonUnique struct_id (js_user d) (js_tenant d) filter) in
  st_ret (rs_payload resp).

Definition js_delete (id : Z) : ST JsDb JsValue unit :=
  let! d := st_gets js_self in
  do! send_raw socket caller (DeleteReq id (js_user d) (js_tenant d)) in
  st_ret tt.

(** The frame of a disconnect goes under the next number, which stays. *)
Definition js_disconnect (d : JsDb) : option (list byte) :=
  match encode_payload wire_request (request_new (js_seq d) (Disconnect (js_user d) (js_tenant d))) with Done b => Some b | _ => None end.
End ops.

(** *** Calls and messages interleaved *)

Inductive JsMove : Type := JsBegin (kind : RequestKind) | JsMessage (bytes : list byte).

(** The handle, the number of calls and the responses delivered. *)
Definition js_step (x : JsDb * nat * list (nat * TransportResponse)) (m : JsMove) : JsDb * nat * list (nat * TransportResponse) :=
  let '(d, n, out) := x in
  match m with
  | JsBegin kind => ((js_begin n kind d).2, S n, out)
  | JsMessage b => let '(r, d) := js_message b d in (d, n, out ++ match r with Some r => [r] | None => [] end)
  end.

Record js_ok (s0 : Z) (d : JsDb) (n : nat) (out : list (nat * TransportResponse)) : Prop := {
  jo_seq : js_seq d = s0 + Z.of_nat n;
  jo_pending : forall k c, js_pending d !! k = Some c -> k = s0 + Z.of_nat c /\ (c < n)%nat /\ c ∉ map fst out;
  jo_out : forall c r, (c, r) ∈ out -> (c < n)%nat /\ rs_seq r = s0 + Z.of_nat c;
  jo_once : NoDup (map fst out);
  jo_all : forall c, (c < n)%nat -> c ∈ map fst out \/ js_pending d !! (s0 + Z.of_nat c) = Some c
}.

Lemma js_begin_ok s0 d n out kind : js_ok s0 d n out -> 0 <= s0 -> s0 + Z.of_nat n + 1 < 2 ^ 64 -> js_ok s0 (js_begin n kind d).2 (S n) out.
Proof.
  intros [H1 H2 H3 H4 H5] H0 Hs. unfold js_begin. rewrite uadd_done by (unfold fits; lia). cbn [snd]. constructor; cbn [js_with js_seq js_pending].
  - lia.
  - intros k c [[<- <-]|[_ Hk]]%lookup_insert_Some; [|destruct (H2 _ _ Hk) as (? & ? & ?); repeat split; [done|lia|done]].
    split; [done|]. split; [lia|]. intros ([c r] & Ec & Hin)%list_elem_of_fmap. cbn in Ec. subst c. apply H3 in Hin. lia.
  - intros c r Hin. apply H3 in Hin. split; [lia|apply Hin].
  - done.
  - intros c Hc. destruct (decide (c = n)) as [->|Hne].
    + right. rewrite <- H1. apply lookup_insert_eq.
    + destruct (H5 c) as [?|?]; [lia|by left|right]. rewrite lookup_insert_ne by lia. done.
Qed.

Lemma js_message_ok s0 d n out b : js_ok s0 d n out ->
  js_ok s0 (js_message b d).2 n (out ++ match (js_message b d).1 with Some r => [r] | None => [] end).
Proof.
  intros Hd. pose proof Hd as [H1 H2 H3 H4 H5]. unfold js_message. destruct (decode_payload wire_response b) as [resp|e|]; cbn [fst snd]; rewrite ?app_nil_r; try done.
  destruct (js_pending d !! rs_seq resp) as [c|] eqn:E; cbn [fst snd]; rewrite ?app_nil_r; [|done].
  destruct (H2 _ _ E) as (Es & Hc & Hn). constructor; cbn [js_with js_seq js_pending].
  - done.
  - intros k c' [Hne Hk]%lookup_delete_Some. destruct (H2 _ _ Hk) as (Ek & ? & Hn'). split; [done|]. split; [done|].
    rewrite map_app. intros [?|Hin%list_elem_of_singleton]%elem_of_app; [done|]. cbn in Hin. congruence.
  - intros c' r [Hin|Hin%list_elem_of_singleton]%elem_of_app; [by apply H3|]. by injection Hin as -> ->.
  - rewrite map_app. apply NoDup_app. split; [done|]. split; [|apply NoDup_singleton]. intros x Hx ->%list_elem_of_singleton. by apply Hn.
  - intros c' Hc'. rewrite map_app. destruct (decide (c' = c)) as [->|Hne]; [left; apply elem_of_app; right; by left|].
    destruct (H5 c' Hc') as [?|Hp]; [left; apply elem_of_app; by left|right]. rewrite lookup_delete_ne by lia. done.
Qed.

Definition js_kinds (ms : list JsMove) : list RequestKind := omap (fun m => match m with JsBegin k => Some k | JsMessage _ => None end) ms.

Lemma js_run_ok s0 ms d : js_seq d = s0 -> js_pending d = ∅ -> 0 <= s0 -> s0 + zlen (js_kinds ms) < 2 ^ 64 ->
  let '(d', n, out) := foldl js_step (d, O, []) ms in n = length (js_kinds ms) /\ js_ok s0 d' n out.
Proof.
  intros Hs Hp H0. induction ms as [|m ms IH] using rev_ind; intros Hb.
  - split; [done|]. constructor; cbn; [lia|intros k c; by rewrite Hp, lookup_empty|by intros c r Hin%not_elem_of_nil|constructor|lia].
  - rewrite foldl_app. unfold js_kinds in *. rewrite omap_app in *. unfold zlen in *. rewrite length_app in *.
    destruct (foldl js_step (d, O, []) ms) as [[d1 n] out]. destruct IH as [Hn Hd]; [lia|]. destruct m as [kind|b]; cbn [foldl js_step omap list_omap length] in *.
    + split; [lia|]. apply js_begin_ok; [done|done|lia].
    + pose proof (js_message_ok s0 d1 n out b Hd) as Hm. destruct (js_message b d1) as [r d2]. cbn [fst snd] in Hm. split; [lia|done].
Qed.

(** Whatever the order of calls and messages, every call of a handle is either
    still waiting or was given exactly one response, one that carries the number the
    call went out under. *)
Theorem js_answers_own (ms : list JsMove) (d : JsDb) : js_pending d = ∅ -> 0 <= js_seq d -> js_seq d + zlen (js_kinds ms) < 2 ^ 64 ->
  let '(d', n, out) := foldl js_step (d, O, []) ms in
  n = length (js_kinds ms) /\ NoDup (map fst out) /\ (forall c r, (c, r) ∈ out -> rs_seq r = js_seq d + Z.of_nat c) /\
  forall c, (c < n)%nat -> c ∈ map fst out \/ js_pending d' !! (js_seq d + Z.of_nat c) = Some c.
Proof.
  intros Hp H0 Hb. pose proof (js_run_ok (js_seq d) ms d eq_refl Hp H0 Hb) as H. destruct (foldl js_step (d, O, []) ms) as [[d' n] out].
  destruct H as [Hn [_ _ H3 H4 H5]]. split; [done|]. split; [done|]. split; [|done]. intros c r Hin. by apply H3.
Qed.

(** A node's refusal comes back as an empty payload. *)
Lemma js_write_drops_error socket caller struct_id payload d frame d1 out d2 resp e :
  js_begin caller (WriteReq struct_id (js_user d) (js_tenant d) payload) d = (Done frame, d1) -> socket frame = Done out ->
  js_wait caller out d1 = (Done resp, d2) -> rs_error resp = Some e -> rs_payload resp = [] ->
  js_write socket caller struct_id payload d = (Done [], d2).
Proof. intros E1 E2 E3 _ E4. unfold js_write, st_gets, send_raw, st_bind, st_lift, js_self, st_ret. by rewrite E1, E2, E3, E4. Qed.
End js.

Lemma js_answers_own_witness :
  let ms := [JsBegin (SearchUnique 9 0 1); JsBegin (SearchUnique 9 0 1); JsMessage (enc_response 2); JsMessage (enc_response 1)] in
  let d := js_connected 0 1 (resp_ok 0 []) in
  let '(d', n, out) := foldl (js_step (fun _ => [])) (d, O, []) ms in
  n = length (js_kinds ms) /\ NoDup (map fst out) /\ (forall c r, (c, r) ∈ out -> rs_seq r = js_seq d + Z.of_nat c) /\
  forall c, (c < n)%nat -> c ∈ map fst out \/ js_pending d' !! (js_seq d + Z.of_nat c) = Some c.
Proof.
  apply (js_answers_own (fun _ => [])
    [JsBegin (SearchUnique 9 0 1); JsBegin (SearchUnique 9 0 1); JsMessage (enc_response 2); JsMessage (enc_response 1)] (js_connected 0 1 (resp_ok 0 []))).
  - done.
  - done.
  - done.
Defined.
