(* ===== verification/Monitor.v ===== *)
(** * The terminal monitor (wavedb-monitor: poll.rs, the state and keys of ui.rs, the loop of lib.rs)

    Polls and keys move one state; drawing reads it.  Lower case is the standard
    library's Unicode table, a parameter; a panic is [Fault]. *)
From S2P Require Import Prelude Wire Auth Request Slow QuickNode QuickServer.

(** ** Polls *)

(** What a post to a node gives: a status with the body read, or no answer. *)
Inductive Posted : Type :=
  | Answered (status : StatusCode) (body : list byte)
  | Unanswered.

Inductive NodeEntry : Type :=
  | NEQuick (url : list byte) (metrics : option QuickNodeMetrics) (error : bool)
  | NESlow (url : list byte) (metrics : option SlowNodeMetrics) (error : bool).

Definition entry_url (n : NodeEntry) : list byte := match n with NEQuick url _ _ | NESlow url _ _ => url end.
Definition entry_error (n : NodeEntry) : bool := match n with NEQuick _ _ e | NESlow _ _ e => e end.

Record MonitorConfig : Type := {
  quick_node_urls : list (list byte);
  slow_node_urls : list (list byte);
  mon_key : option ClusterKey
}.

Section poll.
Variable hmac : list byte -> list byte -> list byte.
Variable now_secs : Z.
(** A post of a body to an address. *)
Variable post : list byte -> list byte -> Posted.

Definition build_request (cfg : MonitorConfig) (purpose : TokenPurpose) : MetricsRequest :=
  {| mr_token := (fun k => mint_at hmac k 0 purpose now_secs) <$> mon_key cfg |}.

Definition metrics_url (url : list byte) : list byte := url ++ str "/metrics".

Definition decoded {T} (c : Wire T) (body : list byte) : option T :=
  match from_wire c body with Done m => Some m | _ => None end.

Definition poll_quick (cfg : MonitorConfig) (url : list byte) : NodeEntry :=
  match to_wire wire_metrics_request (build_request cfg PMonitor) with
  | Done body =>
    match post (metrics_url url) body with
    | Answered SOk bytes => NEQuick url (decoded wire_quick_metrics bytes) false
    | _ => NEQuick url None true
    end
  | _ => NEQuick url None true
  end.

Definition poll_slow (cfg : MonitorConfig) (url : list byte) : NodeEntry :=
  match to_wire wire_metrics_request (build_request cfg PMonitor) with
  | Done body =>
    match post (metrics_url url) body with
    | Answered SOk bytes => NESlow url (decoded wire_slow_metrics bytes) false
    | _ => NESlow url None true
    end
  | _ => NESlow url None true
  end.

Definition poll_all (cfg : MonitorConfig) : list NodeEntry :=
  map (poll_quick cfg) (quick_node_urls cfg) ++ map (poll_slow cfg) (slow_node_urls cfg).
End poll.

(** ** The state *)

Definition SPARKLINE_LEN : nat := 60.
Definition EVENT_SCROLL_STEP : nat := 5.
Definition MAX_LOG : nat := 500.

Inductive InputMode : Type := MNormal | MSearch | MNodeDetail.

(** The query is its characters; [selected] is the table's row. *)
Record AppState : Type := {
  snapshot : list NodeEntry;
  selected : option nat;
  search_query : list (list byte);
  search_matches : list nat;
  search_cursor : nat;
  mode : InputMode;
  write_history : list Z;
  read_history : list Z;
  prev_writes : Z;
  prev_reads : Z;
  event_log : list (list byte);
  event_log_offset : nat;
  detail_node_idx : nat
}.

Definition app_new : AppState :=
  {| snapshot := []; selected := Some O; search_query := []; search_matches := []; search_cursor := O; mode := MNormal;
     write_history := replicate SPARKLINE_LEN 0; read_history := replicate SPARKLINE_LEN 0; prev_writes := 0; prev_reads := 0;
     event_log := []; event_log_offset := O; detail_node_idx := O |}.

Definition with_selected (r : option nat) (s : AppState) : AppState :=
  {| snapshot := snapshot s; selected := r; search_query := search_query s; search_matches := search_matches s;
     search_cursor := search_cursor s; mode := mode s; write_history := write_history s; read_history := read_history s;
     prev_writes := prev_writes s; prev_reads := prev_reads s; event_log := event_log s; event_log_offset := event_log_offset s;
     detail_node_idx := detail_node_idx s |}.
Definition with_search (q : list (list byte)) (ms : list nat) (c : nat) (s : AppState) : AppState :=
  {| snapshot := snapshot s; selected := selected s; search_query := q; search_matches := ms;
     search_cursor := c; mode := mode s; write_history := write_history s; read_history := read_history s;
     prev_writes := prev_writes s; prev_reads := prev_reads s; event_log := event_log s; event_log_offset := event_log_offset s;
     detail_node_idx := detail_node_idx s |}.
Definition with_mode (m : InputMode) (detail : nat) (s : AppState) : AppState :=
  {| snapshot := snapshot s; selected := selected s; search_query := search_query s; search_matches := search_matches s;
     search_cursor := search_cursor s; mode := m; write_history := write_history s; read_history := read_history s;
     prev_writes := prev_writes s; prev_reads := prev_reads s; event_log := event_log s; event_log_offset := event_log_offset s;
     detail_node_idx := detail |}.
Definition with_log (l : list (list byte)) (offset : nat) (s : AppState) : AppState :=
  {| snapshot := snapshot s; selected := selected s; search_query := search_query s; search_matches := search_matches s;
     search_cursor := search_cursor s; mode := mode s; write_history := write_history s; read_history := read_history s;
     prev_writes := prev_writes s; prev_reads := prev_reads s; event_log := l; event_log_offset := offset;
     detail_node_idx := detail_node_idx s |}.
Definition with_poll (nodes : list NodeEntry) (wh rh : list Z) (w r : Z) (s : AppState) : AppState :=
  {| snapshot := nodes; selected := selected s; search_query := search_query s; search_matches := search_matches s;
     search_cursor := search_cursor s; mode := mode s; write_history := wh; read_history := rh;
     prev_writes := w; prev_reads := r; event_log := event_log s; event_log_offset := event_log_offset s;
     detail_node_idx := detail_node_idx s |}.

Definition push_log (msg : list byte) (s : AppState) : AppState :=
  let log := if (MAX_LOG <=? length (event_log s))%nat then tail (event_log s) else event_log s in
  with_log (log ++ [msg]) (event_log_offset s) s.

Definition move_down (s : AppState) : AppState :=
  match length (snapshot s) with
  | O => s
  | n => with_selected (Some (match selected s with Some i => Nat.min (i + 1) (n - 1) | None => O end)) s
  end.
Definition move_up (s : AppState) : AppState :=
  match length (snapshot s) with
  | O => s
  | _ => with_selected (Some (match selected s with Some i => i - 1 | None => O end)%nat) s
  end.
Definition go_top (s : AppState) : AppState := match snapshot s with [] => s | _ => with_selected (Some O) s end.
Definition go_bottom (s : AppState) : AppState :=
  match length (snapshot s) with O => s | n => with_selected (Some (n - 1)%nat) s end.

Definition scroll_events_up (visible_rows : nat) (s : AppState) : AppState :=
  with_log (event_log s) (Nat.min (event_log_offset s + EVENT_SCROLL_STEP) (length (event_log s) - visible_rows)) s.
Definition scroll_events_down (s : AppState) : AppState := with_log (event_log s) (event_log_offset s - EVENT_SCROLL_STEP)%nat s.

(** ** Search *)

Section search.
(** [str::to_lowercase]. *)
Variable to_lowercase : list byte -> list byte.

(** [str::contains]. *)
Fixpoint contains (q hay : list byte) : bool :=
  bool_decide (take (length q) hay = q) || match hay with [] => false | _ :: hay => contains q hay end.

(** [{:016x}]. *)
Definition hex16 (v : Z) : list byte := map (fun k => hex_digit (Z.land (Z.shiftr v (4 * Z.of_nat k)) 0xf)) (rev (seq 0 16)).

Definition haystack (n : NodeEntry) : list byte :=
  to_lowercase (entry_url n) ++ match n with NEQuick _ (Some m) _ => str " " ++ hex16 (qm_node_id m) | _ => [] end.

Fixpoint matching (q : list byte) (i : nat) (l : list NodeEntry) : list nat :=
  match l with
  | [] => []
  | n :: l => if contains q (haystack n) then i :: matching q (S i) l else matching q (S i) l
  end.

(** The cursor stays where it is. *)
Definition refresh_search (s : AppState) : AppState :=
  match search_query s with
  | [] => with_search [] [] (search_cursor s) s
  | q => with_search q (matching (to_lowercase (concat q)) 0 (snapshot s)) (search_cursor s) s
  end.

Definition jump_to_first_match (s : AppState) : AppState :=
  match search_matches s with
  | [] => s
  | i :: _ => with_selected (Some i) (with_search (search_query s) (search_matches s) O s)
  end.

Definition search_push (c : list byte) (s : AppState) : AppState :=
  jump_to_first_match (refresh_search (with_search (search_query s ++ [c]) (search_matches s) (search_cursor s) s)).
Definition search_pop (s : AppState) : AppState :=
  jump_to_first_match (refresh_search (with_search (removelast (search_query s)) (search_matches s) (search_cursor s) s)).

(** [search_matches[search_cursor]] selected. *)
Definition select_cursor (c : nat) (s : AppState) : outcome Empty_set AppState :=
  match search_matches s !! c with
  | Some i => Done (with_selected (Some i) (with_search (search_query s) (search_matches s) c s))
  | None => Fault
  end.

Definition search_next (s : AppState) : outcome Empty_set AppState :=
  match search_matches s with
  | [] => Done s
  | ms => select_cursor ((search_cursor s + 1) mod length ms) s
  end.

Definition search_prev (s : AppState) : outcome Empty_set AppState :=
  match search_matches s with
  | [] => Done s
  | ms => select_cursor (match search_cursor s with O => length ms - 1 | S c => c end)%nat s
  end.

Definition clear_search (s : AppState) : AppState := with_search [] [] O s.
Definition is_match (i : nat) (s : AppState) : bool := bool_decide (i ∈ search_matches s).

(** ** A poll *)

(** The sum of a counter of the quick nodes that answered. *)
Definition total (f : QuickNodeMetrics -> Z) (l : list NodeEntry) : outcome Empty_set Z :=
  ofold (fun n e => match e with NEQuick _ (Some m) _ => uadd 64 n (f m) | _ => Done n end) 0 l.

Definition push_history (h : list Z) (d : Z) : list Z := (if (SPARKLINE_LEN <=? length h)%nat then tail h else h) ++ [d].

Definition saturating_sub (a b : Z) : Z := Z.max 0 (a - b).

Definition update (nodes : list NodeEntry) (s : AppState) : outcome Empty_set AppState :=
  let* w := total qm_write_count nodes in
  let* r := total qm_read_count nodes in
  let s := with_poll nodes (push_history (write_history s) (saturating_sub w (prev_writes s)))
             (push_history (read_history s) (saturating_sub r (prev_reads s))) w r s in
  let s := refresh_search s in
  let n := length nodes in
  Done (with_selected
    (if (n =? 0)%nat then None
     else match selected s with
          | Some i => if (n <=? i)%nat then Some (n - 1)%nat else Some i
          | None => Some O
          end) s).

(** ** Keys *)

Inductive KeyCode : Type := KChar (c : list byte) | KDown | KUp | KEnter | KEsc | KBackspace | KPageUp | KPageDown | KOtherKey.
Record KeyEvent : Type := { key_code : KeyCode; control : bool }.

Definition is_char (c : list byte) (k : KeyCode) : bool := match k with KChar c' => bool_decide (c' = c) | _ => false end.
Definition is_key (k k' : KeyCode) : bool :=
  match k, k' with
  | KDown, KDown | KUp, KUp | KEnter, KEnter | KEsc, KEsc | KBackspace, KBackspace | KPageUp, KPageUp | KPageDown, KPageDown => true
  | _, _ => false
  end.

(** The state, or [None] to quit. *)
Abbreviation Handled := (outcome Empty_set (option AppState)).
Definition stay (s : AppState) : Handled := Done (Some s).
Definition staying (r : outcome Empty_set AppState) : Handled := let* s := r in Done (Some s).

Definition handle_normal (k : KeyEvent) (s : AppState) : Handled :=
  let c := key_code k in
  if is_char (str "q") c || is_key KEsc c then Done None
  else if is_char (str "c") c && control k then Done None
  else if is_char (str "j") c || is_key KDown c then stay (move_down s)
  else if is_char (str "k") c || is_key KUp c then stay (move_up s)
  else if is_char (str "g") c then stay (go_top s)
  else if is_char (str "G") c then stay (go_bottom s)
  else if is_char (str "n") c then staying (search_next s)
  else if is_char (str "N") c then staying (search_prev s)
  else if is_char (str "/") c then stay (clear_search (with_mode MSearch (detail_node_idx s) s))
  else if is_key KEnter c then stay (match selected s with Some i => with_mode MNodeDetail i s | None => s end)
  else if is_char (str "[") c || is_key KPageUp c then stay (scroll_events_up 4 s)
  else if is_char (str "]") c || is_key KPageDown c then stay (scroll_events_down s)
  else stay s.

Definition handle_search (k : KeyEvent) (s : AppState) : Handled :=
  match key_code k with
  | KEsc => stay (clear_search (with_mode MNormal (detail_node_idx s) s))
  | KEnter => stay (with_mode MNormal (detail_node_idx s) s)
  | KBackspace => stay (search_pop s)
  | KChar c => stay (search_push c s)
  | _ => stay s
  end.

Definition handle_detail (k : KeyEvent) (s : AppState) : Handled :=
  let c := key_code k in
  if is_key KEsc c || is_key KEnter c || is_char (str "q") c then stay (with_mode MNormal (detail_node_idx s) s)
  else if is_char (str "c") c && control k then Done None
  else stay s.

Definition handle_key (k : KeyEvent) (s : AppState) : Handled :=
  match mode s with MNormal => handle_normal k s | MSearch => handle_search k s | MNodeDetail => handle_detail k s end.

(** ** The loop *)

(** What a turn finds: the messages logged, the poll if one is due, whether the run
    is over and the key if one was pressed. *)
Record Turn : Type := { logged : list (list byte); polled : option (list NodeEntry); over : bool; pressed : option KeyEvent }.

Definition done_message : list byte :=
  map byte_of [0xe2;0x95;0x90;0xe2;0x95;0x90] ++ str " Stress test complete " ++ map byte_of [0xe2;0x80;0x94] ++
  str " press q to exit and see summary " ++ map byte_of [0xe2;0x95;0x90;0xe2;0x95;0x90].

(** The state with whether the end was announced. *)
Definition turn (t : Turn) (x : AppState * bool) : outcome Empty_set (option (AppState * bool)) :=
  let s := foldl (fun s m => push_log m s) x.1 (logged t) in
  let* s := match polled t with Some nodes => update nodes s | None => Done s end in
  let announce := over t && negb x.2 in
  let s := if announce then push_log done_message s else s in
  let announced := x.2 || announce in
  match pressed t with
  | Some k => let* r := handle_key k s in Done (match r with Some s => Some (s, announced) | None => None end)
  | None => Done (Some (s, announced))
  end.

Fixpoint run_tui (ts : list Turn) (x : AppState * bool) : outcome Empty_set (option (AppState * bool)) :=
  match ts with
  | [] => Done (Some x)
  | t :: ts => let* r := turn t x in match r with Some x => run_tui ts x | None => Done None end
  end.
End search.

(** ** What a run keeps *)

Section kept.
Variable to_lowercase : list byte -> list byte.

Record app_ok (s : AppState) : Prop := {
  ak_selected : forall i, selected s = Some i -> (i < length (snapshot s))%nat \/ snapshot s = [] /\ i = O;
  ak_matches : Forall (fun i => (i < length (snapshot s))%nat) (search_matches s);
  ak_sorted : StronglySorted lt (search_matches s);
  ak_writes : length (write_history s) = SPARKLINE_LEN;
  ak_reads : length (read_history s) = SPARKLINE_LEN;
  ak_deltas : Forall (fun d => 0 <= d) (write_history s ++ read_history s);
  ak_log : (length (event_log s) <= MAX_LOG)%nat
}.

(** The cursor points into the matches, if there are any. *)
Definition cursor_ok (s : AppState) : Prop := search_matches s = [] \/ (search_cursor s < length (search_matches s))%nat.

Lemma app_new_ok : app_ok app_new.
Proof.
  constructor; cbn; [intros i [= <-]; by right|constructor..|done|done|repeat constructor; lia|lia].
Qed.

Lemma matching_bound q i l : Forall (fun j => i <= j < i + length l)%nat (matching to_lowercase q i l) /\ StronglySorted lt (matching to_lowercase q i l).
Proof.
  revert i. induction l as [|n l IH]; intros i; cbn [matching length]; [by repeat constructor|].
  destruct (IH (S i)) as [Hb Hs]. assert (Forall (fun j => i <= j < i + S (length l))%nat (matching to_lowercase q (S i) l)) as Hb'
    by (eapply Forall_impl; [exact Hb|cbn; lia]).
  destruct (contains _ _); [|done]. split; [constructor; [lia|done]|]. constructor; [done|]. eapply Forall_impl; [exact Hb|cbn; lia].
Qed.

Lemma ok_select r s : app_ok s -> (forall i, r = Some i -> (i < length (snapshot s))%nat) -> app_ok (with_selected r s).
Proof. intros [] Hr. constructor; cbn; try done. intros i Hi. left. by apply Hr. Qed.

Lemma ok_search q ms c s : app_ok s -> Forall (fun i => (i < length (snapshot s))%nat) ms -> StronglySorted lt ms -> app_ok (with_search q ms c s).
Proof. intros [] H1 H2. by constructor. Qed.

Lemma ok_mode m d s : app_ok s -> app_ok (with_mode m d s).
Proof. intros []. by constructor. Qed.

Lemma ok_log l o s : app_ok s -> (length l <= MAX_LOG)%nat -> app_ok (with_log l o s).
Proof. intros [] H. by constructor. Qed.

Lemma ok_push m s : app_ok s -> app_ok (push_log m s).
Proof.
  intros H. apply ok_log; [done|]. pose proof (ak_log _ H) as Hl. rewrite length_app. cbn [length].
  destruct (Nat.leb_spec MAX_LOG (length (event_log s))); [|lia]. destruct (event_log s); cbn in *; [unfold MAX_LOG in *; lia|lia].
Qed.

Lemma ok_refresh s : app_ok s -> app_ok (refresh_search to_lowercase s).
Proof.
  intros H. unfold refresh_search. destruct (search_query s) as [|c q]; [apply ok_search; [done|constructor..]|].
  destruct (matching_bound (to_lowercase (concat (c :: q))) 0 (snapshot s)) as [Hb Hs].
  apply ok_search; [done| |done]. eapply Forall_impl; [exact Hb|cbn; lia].
Qed.

Lemma ok_jump s : app_ok s -> app_ok (jump_to_first_match s).
Proof.
  intros H. unfold jump_to_first_match. pose proof (ak_matches _ H) as Hm. destruct (search_matches s) as [|i l] eqn:E; [done|].
  apply Forall_cons in Hm as [Hi Hl]. apply ok_select; [|by intros j [= <-]]. apply ok_search; [done|by constructor|rewrite <- E; apply H].
Qed.

(** A match the cursor selects. *)
Lemma ok_cursor c s : app_ok s -> match select_cursor c s with Done s' => app_ok s' | Fail e => True | Fault => (length (search_matches s) <= c)%nat end.
Proof.
  intros H. unfold select_cursor. destruct (search_matches s !! c) as [i|] eqn:E; [|by apply lookup_ge_None].
  apply ok_select; [apply ok_search; [done|apply H..]|]. intros j [= <-]. exact (Forall_lookup_1 _ _ _ _ (ak_matches _ H) E).
Qed.

Lemma ok_handled r s' : match r with Done s => app_ok s | Fail _ => True | Fault => True end -> staying r = Done (Some s') -> app_ok s'.
Proof. destruct r; cbn; [by intros H [= <-]|done..]. Qed.

Lemma ok_moves s : app_ok s -> app_ok (move_down s) /\ app_ok (move_up s) /\ app_ok (go_top s) /\ app_ok (go_bottom s).
Proof.
  intros H. pose proof (ak_selected _ H) as Hs. unfold move_down, move_up, go_top, go_bottom.
  destruct (snapshot s) as [|n l] eqn:E; [done|]. cbn [length]. split_and!; (apply ok_select; [done|]); rewrite E; cbn [length]; intros i [= <-]; try lia.
  - destruct (selected s); lia.
  - destruct (selected s) as [j|]; [|lia]. destruct (Hs j eq_refl) as [Hj|[? ?]]; [cbn in Hj; lia|done].
Qed.

Lemma ok_next s : app_ok s -> match search_next s with Done s' => app_ok s' | _ => True end.
Proof.
  intros H. unfold search_next. destruct (search_matches s) as [|i l] eqn:E; [done|]. pose proof (ok_cursor ((search_cursor s + 1) mod length (i :: l)) s H) as Hc.
  by destruct (select_cursor _ s).
Qed.

Lemma ok_prev s : app_ok s -> match search_prev s with Done s' => app_ok s' | _ => True end.
Proof.
  intros H. unfold search_prev. destruct (search_matches s) as [|i l] eqn:E; [done|].
  pose proof (ok_cursor (match search_cursor s with O => length (i :: l) - 1 | S c => c end)%nat s H) as Hc. by destruct (select_cursor _ s).
Qed.

Lemma ok_clear s : app_ok s -> app_ok (clear_search s).
Proof. intros H. apply ok_search; [done|constructor..]. Qed.

Lemma ok_scroll o s : app_ok s -> app_ok (with_log (event_log s) o s).
Proof. intros H. apply ok_log; [done|apply H]. Qed.

Lemma ok_typed q ms c s : app_ok s -> ms = search_matches s -> app_ok (jump_to_first_match (refresh_search to_lowercase (with_search q ms c s))).
Proof. intros H ->. apply ok_jump, ok_refresh, ok_search; [done|apply H..]. Qed.

#[local] Hint Resolve ok_mode ok_clear ok_scroll ok_typed : core.

Lemma ok_key k s s' : app_ok s -> handle_key to_lowercase k s = Done (Some s') -> app_ok s'.
Proof.
  intros H E. destruct (ok_moves s H) as (H1 & H2 & H3 & H4). unfold handle_key in E. destruct (mode s).
  - unfold handle_normal in E.
    repeat match type of E with (if ?b then _ else _) = _ => destruct b end; try done;
      try (apply ok_handled in E; [done|by first [apply ok_next|apply ok_prev]]);
      injection E as <-; eauto; [destruct (selected s); eauto|by apply ok_scroll..].
  - unfold handle_search in E. destruct (key_code k); injection E as <-; eauto; by apply ok_typed.
  - unfold handle_detail in E. repeat match type of E with (if ?b then _ else _) = _ => destruct b end; try done; injection E as <-; eauto.
Qed.

Lemma ok_update nodes s s' : app_ok s -> update to_lowercase nodes s = Done s' -> app_ok s'.
Proof.
  intros H E. unfold update in E. apply obind_done in E as (w & Ew & E). apply obind_done in E as (r & Er & E). injection E as <-.
  assert (forall h d, length h = SPARKLINE_LEN -> length (push_history h d) = SPARKLINE_LEN) as Hp.
  { intros h d Hl. unfold push_history. rewrite Hl, length_app. rewrite (proj2 (Nat.leb_le _ _)) by done. destruct h; [done|]. cbn in *. lia. }
  assert (forall h d, Forall (fun d => 0 <= d) h -> 0 <= d -> Forall (fun d => 0 <= d) (push_history h d)) as Hn.
  { intros h d Hh Hd. unfold push_history. apply Forall_app. split; [|by apply Forall_singleton]. destruct (_ <=? _)%nat; [|done]. destruct Hh; [constructor|done]. }
  destruct H as [A1 A2 A3 A4 A5 A6 A7]. apply Forall_app in A6 as [A6 A6'].
  set (nh := push_history (write_history s) _). set (rh := push_history (read_history s) _).
  assert (length nh = SPARKLINE_LEN /\ length rh = SPARKLINE_LEN /\ Forall (fun d => 0 <= d) (nh ++ rh)) as (B1 & B2 & B3).
  { split; [by apply Hp|]. split; [by apply Hp|]. apply Forall_app. split; (apply Hn; [done|unfold saturating_sub; lia]). }
  set (s1 := with_poll nodes nh rh w r s).
  assert (forall ms, Forall (fun i => (i < length nodes)%nat) ms -> StronglySorted lt ms -> forall q c row,
    (forall i, row = Some i -> (i < length nodes)%nat) -> app_ok (with_selected row (with_search q ms c s1))) as Hk.
  { intros ms Hm Hs q c row Hrow. constructor; cbn; try done. intros i Hi. left. by apply Hrow. }
  assert (exists ms c q, refresh_search to_lowercase s1 = with_search q ms c s1 /\ Forall (fun i => (i < length nodes)%nat) ms /\ StronglySorted lt ms)
    as (ms & c & q & Eq & Hm & Hs).
  { unfold refresh_search. destruct (search_query s1) as [|c q]; [by eexists [], _, _; repeat constructor|].
    destruct (matching_bound (to_lowercase (concat (c :: q))) 0 nodes) as [Hb Hs]. eexists _, _, _. split; [done|]. split; [|exact Hs].
    eapply Forall_impl; [exact Hb|cbn; lia]. }
  rewrite Eq. apply Hk; [done..|]. intros i Hi. cbn [with_search s1 with_poll selected] in Hi. destruct (Nat.eqb_spec (length nodes) 0); [done|].
  destruct (selected s) as [j|]; [destruct (Nat.leb_spec (length nodes) j)|]; injection Hi as <-; lia.
Qed.

Lemma ok_turn t x s a : app_ok x.1 -> turn to_lowercase t x = Done (Some (s, a)) -> app_ok s.
Proof.
  intros H E. unfold turn in E. assert (app_ok (foldl (fun s m => push_log m s) x.1 (logged t))) as H1.
  { clear E. revert H. generalize x.1. induction (logged t) as [|m l IH]; intros s0 Hs; [done|]. apply IH. by apply ok_push. }
  apply obind_done in E as (s1 & E1 & E). assert (app_ok s1) as H2 by (destruct (polled t); [by eapply ok_update|by injection E1 as <-]).
  assert (app_ok (if over t && negb x.2 then push_log done_message s1 else s1)) as H3 by (destruct (_ && _); [by apply ok_push|done]).
  destruct (pressed t) as [k|]; [|by injection E as <- _]. apply obind_done in E as (r & Ek & E). destruct r as [s2|]; [|done].
  injection E as <- _. by eapply ok_key.
Qed.

(** Whatever is polled, logged and pressed, the selected row and the matches of
    the search are rows of the last poll, the two histories keep their sixty samples,
    none negative, and the log at most five hundred lines. *)
Theorem monitor_run_ok (ts : list Turn) s a : run_tui to_lowercase ts (app_new, false) = Done (Some (s, a)) -> app_ok s.
Proof.
  assert (app_ok (app_new, false).1) as H by apply app_new_ok. revert H. generalize (app_new, false).
  induction ts as [|t ts IH]; intros x H E; cbn [run_tui] in E; [by injection E as ->|].
  apply obind_done in E as (r & Et & E). destruct r as [[s1 a1]|]; [|done]. apply (IH (s1, a1)); [|done]. by eapply ok_turn.
Qed.

(** *** Keys and the cursor *)

Lemma cursor_selects c s : app_ok s -> (c < length (search_matches s))%nat -> exists s', select_cursor c s = Done s' /\ app_ok s' /\ cursor_ok s' /\
  search_matches s' = search_matches s.
Proof.
  intros H Hc. pose proof (ok_cursor c s H) as Hk. unfold select_cursor in *. destruct (search_matches s !! c) as [i|] eqn:E; [|lia].
  eexists. split; [done|]. split; [done|]. split; [by right|done].
Qed.

Lemma cursor_jump s : cursor_ok (jump_to_first_match s).
Proof. unfold jump_to_first_match, cursor_ok. destruct (search_matches s) as [|i l] eqn:E; [by left|right]. cbn. lia. Qed.

Lemma cursor_keys k s : app_ok s -> cursor_ok s -> exists r, handle_key to_lowercase k s = Done r /\ match r with Some s' => cursor_ok s' | None => True end.
Proof.
  intros H Hc. assert (exists s', search_next s = Done s' /\ cursor_ok s') as (sn & En & Hn).
  { unfold search_next. destruct (search_matches s) as [|i l] eqn:E; [by eexists|].
    destruct (cursor_selects ((search_cursor s + 1) mod length (i :: l)) s H) as (s' & ? & _ & ? & _); [rewrite E; by apply Nat.mod_upper_bound|by eexists]. }
  assert (exists s', search_prev s = Done s' /\ cursor_ok s') as (sp & Ep & Hp).
  { unfold search_prev. destruct (search_matches s) as [|i l] eqn:E; [by eexists|].
    destruct (cursor_selects (match search_cursor s with O => length (i :: l) - 1 | S c => c end)%nat s H) as (s' & ? & _ & ? & _); [|by eexists].
    rewrite E. destruct Hc as [?|Hc]; [congruence|]. rewrite E in Hc. destruct (search_cursor s); cbn in *; lia. }
  assert (cursor_ok (move_down s) /\ cursor_ok (move_up s) /\ cursor_ok (go_top s) /\ cursor_ok (go_bottom s)) as (M1 & M2 & M3 & M4).
  { unfold move_down, move_up, go_top, go_bottom. destruct (snapshot s); cbn [length]; by repeat split. }
  unfold handle_key. destruct (mode s).
  - unfold handle_normal. rewrite En, Ep. cbn [staying].
    repeat match goal with |- context [if ?b then _ else _] => destruct b; try (eexists; split; [reflexivity|done || by left]) end.
    destruct (selected s); eexists; (split; [reflexivity|done]).
  - unfold handle_search, search_push, search_pop. destruct (key_code k); eexists; (split; [reflexivity|first [done|by left|apply cursor_jump]]).
  - unfold handle_detail. repeat match goal with |- context [if ?b then _ else _] => destruct b end; eexists; (split; [reflexivity|done]).
Qed.

(** The keys of a list, one after the other, until one quits. *)
Fixpoint press (ks : list KeyEvent) (s : AppState) : outcome Empty_set (option AppState) :=
  match ks with
  | [] => stay s
  | k :: ks => let* r := handle_key to_lowercase k s in match r with Some s => press ks s | None => Done None end
  end.

(** Between two polls no key panics: from a state in order whose search cursor is
    inside the matches every sequence of keys is handled, and the cursor stays
    inside. *)
Theorem keys_never_panic (ks : list KeyEvent) s : app_ok s -> cursor_ok s ->
  exists r, press ks s = Done r /\ match r with Some s' => app_ok s' /\ cursor_ok s' | None => True end.
Proof.
  revert s. induction ks as [|k ks IH]; intros s H Hc; cbn [press]; [by eexists|].
  destruct (cursor_keys k s H Hc) as (r & E & Hr). rewrite E. cbn [obind]. destruct r as [s1|]; [|by eexists].
  apply IH; [by eapply ok_key|done].
Qed.
End kept.

(** ** Runs *)

Definition demo_metrics (id writes : Z) : QuickNodeMetrics :=
  {| qm_node_id := id; qm_listen_addr := []; qm_is_draining := false; qm_ring_size := 1; qm_owned_partitions := 0; qm_write_count := writes;
     qm_read_count := 0; qm_uptime_secs := 0; qm_write_bytes := 0; qm_page_count := 0; qm_page_map := []; qm_estimated_memory_bytes := 0;
     qm_has_storage := false; qm_journal_bytes := 0; qm_heap_bytes := 0; qm_data_file_bytes := 0; qm_data_file_page_count := 0;
     qm_data_file_used_pages := 0; qm_rejected_count := 0; qm_replicated_count := 0; qm_data_dir := [] |}.
Definition up (url : string) (id writes : Z) : NodeEntry := NEQuick (str url) (Some (demo_metrics id writes)) false.
Definition down (url : string) : NodeEntry := NEQuick (str url) None true.
Definition poll_turn (l : list NodeEntry) : Turn := {| logged := []; polled := Some l; over := false; pressed := None |}.
Definition key_turn (c : string) : Turn := {| logged := []; polled := None; over := false; pressed := Some {| key_code := KChar (str c); control := false |} |}.
Definition enter_turn : Turn := {| logged := []; polled := None; over := false; pressed := Some {| key_code := KEnter; control := false |} |}.

(** Three nodes match a search by the digits of their identifiers, the cursor is on
    the third; two of them miss the next poll, and going back panics. *)
Example stale_cursor_panics :
  run_tui id [poll_turn [up "http://a:1" 0x700 0; up "http://b:1" 0x700 0; up "http://c:1" 0x700 0]; key_turn "/"; key_turn "7"; key_turn "0"; enter_turn;
              key_turn "n"; key_turn "n"; poll_turn [up "http://a:1" 0x700 0; down "http://b:1"; down "http://c:1"]; key_turn "N"] (app_new, false) = Fault.
Proof. vm_compute. reflexivity. Qed.

(** A node that misses one poll comes back as a burst of all its writes. *)
Example missed_poll_spikes :
  match run_tui id [poll_turn [up "http://a:1" 1 900]; poll_turn [down "http://a:1"]; poll_turn [up "http://a:1" 1 900]] (app_new, false) with
  | Done (Some (s, _)) => drop 57 (write_history s) = [900; 0; 900]
  | _ => False
  end.
Proof. vm_compute. reflexivity. Qed.

Lemma monitor_run_ok_witness :
  match run_tui id [poll_turn [up "http://a:1" 1 900]; key_turn "/"; key_turn "a"; enter_turn; key_turn "n"] (app_new, false) with
  | Done (Some (s, _)) => app_ok s
  | _ => False
  end.
Proof.
  destruct (run_tui id [poll_turn [up "http://a:1" 1 900]; key_turn "/"; key_turn "a"; enter_turn; key_turn "n"] (app_new, false)) as [[[s a]|]|e|] eqn:E.
  - exact (monitor_run_ok id _ s a E).
  - vm_compute in E. discriminate E.
  - destruct e.
  - vm_compute in E. discriminate E.
Defined.

Lemma keys_never_panic_witness :
  exists r, press id [{| key_code := KChar (str "/"); control := false |}; {| key_code := KDown; control := false |}] app_new = Done r /\
    match r with Some s' => app_ok s' /\ cursor_ok s' | None => True end.
Proof. apply (keys_never_panic id _ app_new); [apply app_new_ok|by left]. Defined.
