(* ===== verification/MonitorGui.v ===== *)
(** * The graphical monitor's worker (wavedb-monitor-gui: state.rs, poll.rs)

    The state the drawing thread reads, moved by commands and polls.  What the
    network gives for a body posted to an address is a function of the turn. *)
From S2P Require Import Prelude Wire Anchor Auth Request Messages Slow QuickNode QuickServer Monitor.

Definition HISTORY_LEN : nat := 120.

Inductive NodeKind : Type := GQuick | GSlow.
Inductive NodeHealth : Type := HUnknown | HOk | HUnauthorized | HUnreachable | HBadResponse.

#[export] Instance NodeKind_eq_dec : EqDecision NodeKind.
Proof. solve_decision. Defined.

Definition label (h : NodeHealth) : list byte :=
  match h with
  | HUnknown => map byte_of [0xe2; 0x80; 0xa6]
  | HOk => str "OK"
  | HUnauthorized => str "AUTH"
  | HUnreachable => str "DOWN"
  | HBadResponse => str "BAD"
  end.

Record NodeState : Type := { kind : NodeKind; url : list byte; health : NodeHealth; quick : option QuickNodeMetrics; slow : option SlowNodeMetrics }.

Definition nodestate_new (k : NodeKind) (u : list byte) : NodeState := {| kind := k; url := u; health := HUnknown; quick := None; slow := None |}.

Definition strip_prefix (p l : list byte) : option (list byte) :=
  if bool_decide (take (length p) l = p) then Some (drop (length p) l) else None.

Definition short_addr (n : NodeState) : list byte :=
  match strip_prefix (str "http://") (url n) with
  | Some r => r
  | None => default (url n) (strip_prefix (str "https://") (url n))
  end.

Record RecordDetail : Type := { rd_id : Z; rd_raw : list byte; rd_decoded : option VersionedRecord }.

Record DataView : Type := {
  source_slow_idx : nat;
  dv_tenants : list TenantSummary;
  selected_tenant : option Z;
  dv_records : list RecordSummary;
  dv_truncated : bool;
  detail : option RecordDetail;
  last_error : option (list byte);
  generation : Z
}.

Definition data_new : DataView :=
  {| source_slow_idx := O; dv_tenants := []; selected_tenant := None; dv_records := []; dv_truncated := false; detail := None;
     last_error := None; generation := 0 |}.

Record Shared : Type := {
  nodes : list NodeState;
  g_write_history : list Z;
  g_read_history : list Z;
  g_prev_writes : Z;
  g_prev_reads : Z;
  data : DataView;
  auth_enabled : bool;
  poll_count : Z
}.

Definition shared_new (quick_urls slow_urls : list (list byte)) : Shared :=
  {| nodes := map (nodestate_new GQuick) quick_urls ++ map (nodestate_new GSlow) slow_urls;
     g_write_history := replicate HISTORY_LEN 0; g_read_history := replicate HISTORY_LEN 0; g_prev_writes := 0; g_prev_reads := 0;
     data := data_new; auth_enabled := false; poll_count := 0 |}.

Inductive Command : Type :=
  | SetClusterKey (key : option ClusterKey)
  | Browse (slow_idx : nat) (tenant : option Z)
  | FetchRecord (slow_idx : nat) (tenant id : Z)
  | SetRefreshMs (ms : Z).

Definition with_data (d : DataView) (s : Shared) : Shared :=
  {| nodes := nodes s; g_write_history := g_write_history s; g_read_history := g_read_history s; g_prev_writes := g_prev_writes s;
     g_prev_reads := g_prev_reads s; data := d; auth_enabled := auth_enabled s; poll_count := poll_count s |}.
Definition with_auth (b : bool) (s : Shared) : Shared :=
  {| nodes := nodes s; g_write_history := g_write_history s; g_read_history := g_read_history s; g_prev_writes := g_prev_writes s;
     g_prev_reads := g_prev_reads s; data := data s; auth_enabled := b; poll_count := poll_count s |}.
Definition with_error (e : option (list byte)) (d : DataView) : DataView :=
  {| source_slow_idx := source_slow_idx d; dv_tenants := dv_tenants d; selected_tenant := selected_tenant d; dv_records := dv_records d;
     dv_truncated := dv_truncated d; detail := detail d; last_error := e; generation := generation d |}.

(** What a post gives: a status with the body or the text of a failed read of it, or
    the text of a failed request. *)
Inductive Fetched : Type :=
  | FAnswered (status : StatusCode) (body : list byte + list byte)
  | FFailed (text : list byte).

Section worker.
Variable hmac : list byte -> list byte -> list byte.
Variable now_secs : Z.
(** The texts of a codec error and of a status. *)
Variable wire_text : WireError -> list byte.
Variable status_text : StatusCode -> list byte.

(** ** Polls *)

Inductive PollOutcome : Type := POQuick (m : QuickNodeMetrics) | POSlow (m : SlowNodeMetrics) | POFailed (h : NodeHealth).

Definition monitor_token (key : option ClusterKey) : option NodeToken := (fun k => mint_at hmac k 0 PMonitor now_secs) <$> key.

Section network.
Variable post : list byte -> list byte -> Fetched.

(** A body that cannot be read is an empty one. *)
Definition poll_one (u : list byte) (k : NodeKind) (body : list byte) : PollOutcome :=
  match post (u ++ str "/metrics") body with
  | FAnswered SOk r =>
    let bytes := match r with inl b => b | inr _ => [] end in
    match k with
    | GQuick => match decoded wire_quick_metrics bytes with Some m => POQuick m | None => POFailed HBadResponse end
    | GSlow => match decoded wire_slow_metrics bytes with Some m => POSlow m | None => POFailed HBadResponse end
    end
  | FAnswered SForbidden _ => POFailed HUnauthorized
  | FAnswered _ _ => POFailed HBadResponse
  | FFailed _ => POFailed HUnreachable
  end.

(** A failure keeps the metrics of the last success. *)
Definition apply_outcome (o : PollOutcome) (n : NodeState) : NodeState :=
  match o with
  | POQuick m => {| kind := kind n; url := url n; health := HOk; quick := Some m; slow := slow n |}
  | POSlow m => {| kind := kind n; url := url n; health := HOk; quick := quick n; slow := Some m |}
  | POFailed h => {| kind := kind n; url := url n; health := h; quick := quick n; slow := slow n |}
  end.

Definition sum_quick (f : QuickNodeMetrics -> Z) (l : list NodeState) : outcome Empty_set Z :=
  ofold (fun n e => match quick e with Some m => uadd 64 n (f m) | None => Done n end) 0 l.

Definition poll_metrics (key : option ClusterKey) (s : Shared) : outcome Empty_set Shared :=
  match to_wire wire_metrics_request {| mr_token := monitor_token key |} with
  | Done body =>
    let polled := map (fun n => apply_outcome (poll_one (url n) (kind n) body) n) (nodes s) in
    let* w := sum_quick qm_write_count polled in
    let* r := sum_quick qm_read_count polled in
    let dw := saturating_sub w (g_prev_writes s) in
    let dr := saturating_sub r (g_prev_reads s) in
    let late := 0 <? poll_count s in
    let* c := uadd 64 (poll_count s) 1 in
    Done {| nodes := polled;
            g_write_history := if late then tail (g_write_history s) ++ [dw] else g_write_history s;
            g_read_history := if late then tail (g_read_history s) ++ [dr] else g_read_history s;
            g_prev_writes := w; g_prev_reads := r; data := data s; auth_enabled := auth_enabled s; poll_count := c |}
  | _ => Done s
  end.

(** ** Browsing *)

Definition slow_url (i : nat) (s : Shared) : option (list byte) := url <$> (filter (fun n => kind n = GSlow) (nodes s)) !! i.

Definition browse_fetch (u : list byte) (req : BrowseRequest) : list byte + BrowseResponse :=
  match to_wire wire_browse_request req with
  | Done body =>
    match post (u ++ str "/browse") body with
    | FAnswered SOk (inl bytes) =>
      match from_wire wire_browse_response bytes with
      | Done resp => inr resp
      | Fail e => inl (str "decode: " ++ wire_text e)
      | Fault => inl []
      end
    | FAnswered SOk (inr e) => inl (str "body: " ++ e)
    | FAnswered SForbidden _ => inl (str "403 Forbidden " ++ map byte_of [0xe2; 0x80; 0x94] ++ str " set the cluster key in Settings")
    | FAnswered st _ => inl (str "HTTP " ++ status_text st)
    | FFailed e => inl (str "request: " ++ e)
    end
  | Fail e => inl (str "encode: " ++ wire_text e)
  | Fault => inl []
  end.

Definition browse (key : option ClusterKey) (slow_idx : nat) (tenant : option Z) (s : Shared) : outcome Empty_set Shared :=
  match slow_url slow_idx s with
  | None => Done s
  | Some u =>
    let d := data s in
    match browse_fetch u {| br_token := monitor_token key; br_tenant := tenant; max_records := 0 |} with
    | inr resp =>
      let* g := uadd 64 (generation d) 1 in
      Done (with_data {| source_slow_idx := slow_idx; dv_tenants := tenants resp; selected_tenant := tenant; dv_records := records resp;
                         dv_truncated := truncated resp; detail := detail d; last_error := None; generation := g |} s)
    | inl e =>
      Done (with_data {| source_slow_idx := slow_idx; dv_tenants := dv_tenants d; selected_tenant := selected_tenant d; dv_records := dv_records d;
                         dv_truncated := dv_truncated d; detail := detail d; last_error := Some e; generation := generation d |} s)
    end
  end.

Definition record_fetch (u : list byte) (req : HistoryReadRequest) : list byte + list byte :=
  match to_wire wire_history_request req with
  | Done body =>
    match post (u ++ str "/history") body with
    | FAnswered SOk (inl bytes) =>
      match from_wire wire_history_response bytes with
      | Done resp => inr (hr_data resp)
      | Fail e => inl (str "decode: " ++ wire_text e)
      | Fault => inl []
      end
    | FAnswered SOk (inr e) => inl (str "body: " ++ e)
    | FAnswered st _ => inl (str "HTTP " ++ status_text st)
    | FFailed e => inl (str "request: " ++ e)
    end
  | Fail e => inl (str "encode: " ++ wire_text e)
  | Fault => inl []
  end.

Definition fetch_record (slow_idx : nat) (tenant id : Z) (s : Shared) : Shared :=
  match slow_url slow_idx s with
  | None => s
  | Some u =>
    let d := data s in
    match record_fetch u {| hr_tenant := tenant; hr_record_id := id |} with
    | inr raw =>
      with_data {| source_slow_idx := source_slow_idx d; dv_tenants := dv_tenants d; selected_tenant := selected_tenant d; dv_records := dv_records d;
                   dv_truncated := dv_truncated d;
                   detail := Some {| rd_id := id; rd_raw := raw; rd_decoded := match record_from_bytes raw with Done r => Some r | _ => None end |};
                   last_error := None; generation := generation d |} s
    | inl e => with_data (with_error (Some e) d) s
    end
  end.

(** ** The loop *)

Record Worker : Type := { shared : Shared; wkey : option ClusterKey; refresh_ms : Z; sticky_browse : option (nat * option Z) }.

Definition worker_new (key : option ClusterKey) (ms : Z) (s : Shared) : Worker :=
  {| shared := with_auth (bool_decide (is_Some key)) s; wkey := key; refresh_ms := ms; sticky_browse := None |}.

Definition with_shared (s : Shared) (w : Worker) : Worker := {| shared := s; wkey := wkey w; refresh_ms := refresh_ms w; sticky_browse := sticky_browse w |}.

Definition command (c : Command) (w : Worker) : outcome Empty_set Worker :=
  match c with
  | SetClusterKey k =>
    Done {| shared := with_auth (bool_decide (is_Some k)) (shared w); wkey := k; refresh_ms := refresh_ms w; sticky_browse := sticky_browse w |}
  | SetRefreshMs ms => Done {| shared := shared w; wkey := wkey w; refresh_ms := Z.max ms 100; sticky_browse := sticky_browse w |}
  | Browse i t =>
    let* s := browse (wkey w) i t (shared w) in
    Done {| shared := s; wkey := wkey w; refresh_ms := refresh_ms w; sticky_browse := Some (i, t) |}
  | FetchRecord i t id => Done (with_shared (fetch_record i t id (shared w)) w)
  end.

(** A turn: the commands waiting, then the poll if it is due. *)
Definition worker_turn (cmds : list Command) (due : bool) (w : Worker) : outcome Empty_set Worker :=
  let* w := ofold (fun w c => command c w) w cmds in
  if due then
    let* s := poll_metrics (wkey w) (shared w) in
    let* s := match sticky_browse w with Some (i, t) => browse (wkey w) i t s | None => Done s end in
    Done (with_shared s w)
  else Done w.
End network.

(** ** What the worker keeps *)

(** What a turn finds: the network, the commands and whether a poll is due. *)
Abbreviation GTurn := ((list byte -> list byte -> Fetched) * list Command * bool)%type.

Definition worker_run (ts : list GTurn) (w : Worker) : outcome Empty_set Worker :=
  ofold (fun w (t : GTurn) => worker_turn t.1.1 t.1.2 t.2 w) w ts.

Definition node_fine (n : NodeState) : Prop :=
  match kind n with
  | GQuick => slow n = None /\ (health n = HOk -> is_Some (quick n))
  | GSlow => quick n = None /\ (health n = HOk -> is_Some (slow n))
  end.

Record worker_ok (quick_urls slow_urls : list (list byte)) (w : Worker) : Prop := {
  wk_nodes : map (fun n => (kind n, url n)) (nodes (shared w)) = map (pair GQuick) quick_urls ++ map (pair GSlow) slow_urls;
  wk_fine : Forall node_fine (nodes (shared w));
  wk_writes : length (g_write_history (shared w)) = HISTORY_LEN;
  wk_reads : length (g_read_history (shared w)) = HISTORY_LEN;
  wk_auth : auth_enabled (shared w) = bool_decide (is_Some (wkey w))
}.

Lemma browse_keeps post key i t s s' : browse post key i t s = Done s' ->
  nodes s' = nodes s /\ g_write_history s' = g_write_history s /\ g_read_history s' = g_read_history s /\ auth_enabled s' = auth_enabled s.
Proof.
  unfold browse. destruct (slow_url i s); [|by intros [= <-]]. destruct (browse_fetch _ _ _); [by intros [= <-]|].
  intros (g & _ & E)%obind_done. by injection E as <-.
Qed.

Lemma fetch_keeps post i t id s : let s' := fetch_record post i t id s in
  nodes s' = nodes s /\ g_write_history s' = g_write_history s /\ g_read_history s' = g_read_history s /\ auth_enabled s' = auth_enabled s.
Proof. unfold fetch_record. destruct (slow_url i s); [|done]. by destruct (record_fetch _ _ _). Qed.

Lemma outcome_fine post body n : node_fine n -> node_fine (apply_outcome (poll_one post (url n) (kind n) body) n).
Proof.
  unfold node_fine, poll_one. intros H. destruct (kind n) eqn:Ek; destruct (post _ _) as [[] r|e]; cbn [apply_outcome kind quick slow health]; rewrite ?Ek;
    try destruct (decoded _ _); cbn [apply_outcome kind quick slow health]; rewrite ?Ek; destruct H; (split; [done|by eauto]).
Qed.

Lemma tail_snoc {A} (h : list A) d n : length h = S n -> length (tail h ++ [d]) = S n.
Proof. intros Hl. destruct h; [done|]. rewrite length_app. cbn in *. lia. Qed.

Lemma poll_keeps qs ss post w s : worker_ok qs ss w -> poll_metrics post (wkey w) (shared w) = Done s -> worker_ok qs ss (with_shared s w).
Proof.
  intros [H1 H2 H3 H4 H5] E. unfold poll_metrics in E. destruct (to_wire _ _) as [body|e|]; [|injection E as <-; by constructor..].
  apply obind_done in E as (wr & _ & E). apply obind_done in E as (rd & _ & E). apply obind_done in E as (c & _ & E). injection E as <-.
  constructor; cbn [with_shared shared nodes g_write_history g_read_history auth_enabled wkey].
  - rewrite map_map, <- H1. apply map_ext. intros n. by destruct (poll_one _ _ _ _).
  - apply Forall_map. eapply Forall_impl; [exact H2|]. intros n. apply outcome_fine.
  - destruct (0 <? _); [by apply tail_snoc|done].
  - destruct (0 <? _); [by apply tail_snoc|done].
  - done.
Qed.

Lemma kept_shared qs ss w s : worker_ok qs ss w -> nodes s = nodes (shared w) -> g_write_history s = g_write_history (shared w) ->
  g_read_history s = g_read_history (shared w) -> auth_enabled s = auth_enabled (shared w) -> worker_ok qs ss (with_shared s w).
Proof. intros [] E1 E2 E3 E4. constructor; cbn; rewrite ?E1, ?E2, ?E3, ?E4; done. Qed.

Lemma command_keeps qs ss post c w w' : worker_ok qs ss w -> command post c w = Done w' -> worker_ok qs ss w'.
Proof.
  intros H E. destruct c as [k|i t|i t id|ms]; cbn [command] in E.
  - injection E as <-. destruct H. by constructor.
  - apply obind_done in E as (s & Es & E). injection E as <-. destruct (browse_keeps _ _ _ _ _ _ Es) as (E1 & E2 & E3 & E4).
    destruct (kept_shared _ _ _ s H E1 E2 E3 E4). by constructor.
  - injection E as <-. destruct (fetch_keeps post i t id (shared w)) as (E1 & E2 & E3 & E4). by apply kept_shared.
  - injection E as <-. destruct H. by constructor.
Qed.

Lemma turn_keeps qs ss post cmds due w w' : worker_ok qs ss w -> worker_turn post cmds due w = Done w' -> worker_ok qs ss w'.
Proof.
  intros H E. unfold worker_turn in E. apply obind_done in E as (w1 & E1 & E).
  assert (worker_ok qs ss w1) as H1 by (eapply (ofold_inv (worker_ok qs ss)); [|exact H|exact E1]; intros w0 c w2 H0 _ E0; exact (command_keeps _ _ _ _ _ _ H0 E0)).
  destruct due; [|by injection E as <-]. apply obind_done in E as (s & Es & E). apply obind_done in E as (s' & Eb & E). injection E as <-.
  pose proof (poll_keeps _ _ _ _ _ H1 Es) as H2. destruct (sticky_browse w1) as [[i t]|]; [|by injection Eb as <-].
  destruct (browse_keeps _ _ _ _ _ _ Eb) as (E1' & E2' & E3' & E4'). by apply (kept_shared _ _ (with_shared s w1)).
Qed.

(** Through every run of the worker the nodes are the configured ones in their
    order, a node shown as reachable has metrics of its own kind and never the other's,
    the two histories keep their length, and the authentication mark says whether a
    key is held. *)
Theorem worker_run_ok qs ss key ms (ts : list GTurn) w :
  worker_run ts (worker_new key ms (shared_new qs ss)) = Done w -> worker_ok qs ss w.
Proof.
  intros E. eapply (ofold_inv (worker_ok qs ss)); [intros w0 t w2 H0 _ E0; eapply turn_keeps; [exact H0|exact E0]| |exact E]. constructor; cbn [worker_new shared with_auth nodes shared_new].
  - rewrite map_app, !map_map. done.
  - apply Forall_app. split; apply Forall_map, Forall_true; by intros u.
  - done.
  - done.
  - done.
Qed.
End worker.

Lemma worker_run_ok_witness :
  match worker_run demo_mac 1000 (fun _ => []) (fun _ => [])
    [((fun _ _ => FFailed (str "refused")), [SetRefreshMs 50; Browse 0 None; SetClusterKey (Some (replicate 32 Byte.x07))], true);
     ((fun _ _ => FAnswered SForbidden (inl [])), [], true)]
    (worker_new None 1000 (shared_new [str "http://a:1"] [str "http://s:1"])) with
  | Done w => worker_ok [str "http://a:1"] [str "http://s:1"] w /\ map health (nodes (shared w)) = [HUnauthorized; HUnauthorized]
  | _ => False
  end.
Proof.
  destruct (worker_run _ _ _ _ _ _) as [w|e|] eqn:E.
  - split; [exact (worker_run_ok _ _ _ _ _ _ _ _ _ w E)|]. vm_compute in E. injection E as <-. reflexivity.
  - destruct e.
  - vm_compute in E. discriminate E.
Defined.
